(* ===== verification/_CoqProject ===== *)
-Q . S2P
Prelude.v
Rat.v
Double.v
Date.v
Lib.v
Bus.v
Io.v
Irq.v
Pci.v
Dma.v
Uart.v
Ps2.v
Smbus.v
Clock.v
Tco.v
Acpi.v
Pit.v
Rtc.v
Hpet.v
Timers.v
Phys.v
Virtio.v
Crc.v
Text.v
Json.v
State.v
Extended.v
Stream.v
StreamLayout.v
StreamTrip.v
Buffer.v
Floppy.v
FloppyTrip.v
Platform.v
AcpiTables.v
Aml.v
Dsdt.v
