(* ===== verification/Prelude.v ===== *)
(** * v86: a verification library for the device models of the v86 PC emulator

    v86 emulates a PC in JavaScript and WebAssembly.  The processor is Rust
    compiled to WebAssembly; the chipset and the devices around it are the
    JavaScript files of [src/src/].  A device is an object with registers, which
    the guest reaches through I/O ports, memory-mapped registers or PCI
    configuration space, which the host reaches through messages of a bus, and
    which answers with interrupts, with messages and with accesses to guest
    memory.  This library models the devices from their sources and proves what
    the guest and the host rely on.

    ** Parts and files

    - [Prelude.v] (this file): JavaScript's numbers as machine integers, typed
      arrays, the effect monad, Hoare rules and tactics, generic lemmas.
    - [Lib.v]: [lib.js]: [ByteQueue], [FloatQueue], [CircularQueue], [Bitmap],
      [int_log2] (both variants) and [round_up_to_next_power_of_2].
    - [Rat.v], [Double.v], [Date.v]: lemmas on rationals, the rounding of IEEE
      doubles, and the calendar functions of ECMAScript's [Date].
    - [Bus.v]: [bus.js]: the message bus, with the listener arrays its two
      connectors share by reference, listeners that re-enter the bus while a
      message is delivered, and the queue of delayed messages.
    - [Io.v]: [io.js] and the accessors of [cpu.js]: the table of I/O ports, and
      the memory map of blocks, ranges and the closures that dispatch in them.
    - [Irq.v]: [set_shared_irq_level], [set_shared_gsi_level] and the reset of
      the lines, from [cpu.js].
    - [Pci.v]: [pci.js]: configuration space by port and by memory window, buses
      behind bridges, base address registers, interrupt pins (on the lines of
      [Irq.v]; the chipset's routing is the class [Board], with the default PIIX
      routing as the instance [piix_board]), MSI, hot plugging, state.
    - [Dma.v]: [dma.js]: the two DMA controllers; guest memory is the interface
      [PhysMem] with the laws [PhysMemLaws].
    - [Uart.v]: [uart.js].  [Ps2.v]: [ps2.js], on the queues of [Lib.v].
    - [Smbus.v]: [smbus.js].  [Clock.v]: [machine_clock.js].
    - [Tco.v]: [ich9_tco.js].  [Acpi.v]: [acpi.js] with the two platforms of
      [platform.js]; it embeds the watchdog of [Tco.v] as the source does.
    - [Pit.v]: [pit.js].  [Rtc.v]: [rtc.js].  [Hpet.v]: [hpet.js].  [Timers.v]
      composes the three as [run_hardware_timers] of [cpu.js] does.
    - [Phys.v]: guest memory as devices reach it, the physical accessors of
      [cpu.js] over the exports of the WebAssembly core (classes [Wasm] and
      [WasmLaws]); it implements the interface [Dma.v] is written against.
    - [Virtio.v]: [virtio.js] on the memory of [Phys.v]: the rings, descriptor
      chains, the buffers of a request as streams, the configuration registers,
      features, interrupts, state.
    - Snapshots, [state.js]: [Text.v] and [Json.v] are what it uses of UTF-8 and
      JSON, [Crc.v] its checksum, [State.v] the single-buffer format, [Stream.v]
      the streamed one ([StreamLayout.v]: lemmas, [StreamTrip.v]: the round trip).
      [Extended.v]: [extended_memory.js].
    - [Buffer.v]: [buffer.js]: disk images in memory, and read lazily with their
      caches and written blocks.
    - [Floppy.v]: [floppy.js]: controller and drives, on [Dma.v] and [Buffer.v];
      [FloppyTrip.v]: its commands and transfers.
    - [Platform.v]: [platform.js].  [AcpiTables.v]: [acpi_tables.js]: the tables
      for a platform, the script for the firmware, the search for the tables.
      [Aml.v] is a parser for the ACPI machine language, [Dsdt.v] the namespace
      that the tables mean and what follows from it.

    Every file has one Module per object of the source (the same name, first
    letter capital), with the object's fields as a record [t] (field names and
    order of the constructor), [create] for the constructor, one definition per
    method or port handler under the method's name, and [get_state]/[set_state].
    Handlers written inline in a constructor have a name of their own, and a
    function that dispatches on the port number ([port_read], [port_write])
    stands for the registrations.

    ** How the source is modelled

    - Integers are [Z].  The operators of ECMAScript are the notations [.&],
      [.|], [.^], [.<<], [.>>] on values known to be 32-bit, and [js_and],
      [shl32], [i32], [u8], [u16], [u32] where the coercion matters; a store into a
      typed array is written with the coercion of that array.
    - Floating-point numbers are rationals [Q].  In [Clock.v], [Tco.v], [Acpi.v],
      [Rtc.v] and [Hpet.v] every sum, difference, product and quotient of them is
      rounded as the source's doubles are ([Double.v]: round to nearest, ties to
      even, on an unbounded range of exponents).  In [Pit.v] (times) and [Ps2.v]
      (movements) it is not: what is proved there is the arithmetic of the code
      without rounding.
    - State and effects: [M S A] is a function from the device's state to a
      result, the new state and the list of [event]s it caused, in order
      (interrupt lines raised and lowered, bus messages, CPU requests, I/O decode
      changes).  [get], [modify], [emit] and [x <-- m ;; k] follow the source
      statement by statement; an exception is [option].
    - Other code appears as an event (what the device tells the CPU), as an
      argument (the current time, the host clock, PCI configuration registers), or
      as a class with laws (guest memory).
    - Loops: [Bus.run_actions] and [Dma.run_write] recurse on fuel.  A listener
      of the bus may send for ever and [do_write] may repeat for ever (it does,
      see [do_write_spins]), so no fuel is enough in general; [send_delivers] and
      [do_write_terminates] state what fuel is enough and that the result is
      then returned.  The loops of [Phys.v] go page by page and get the pages
      of the range as fuel; [Virtio.collect] gets the entries of the queue and of
      one indirect table ([virtio_chain] shows that this is always enough).
      [Pci.route_config] and [upstream] get one step per bus, of which there are
      256 ([pci_routing_ends]).  The JSON parser gets twice the length of the text
      and two ([snapshot_roundtrip] rests on this being enough for what the writer
      prints).  In [Stream.v] the search for a page gets the bits of the bitmap,
      the walk over the buffers their number, and [save_state_stream] more steps
      than there are chunks ([stream_roundtrip]); in [Buffer.v] the loading of a
      file its parts, and the assembly of a disk as a file the written blocks
      ([get_as_file_correct]).  A transfer of the floppy controller gets the fuel
      of [do_write_terminates]; without it the result is [Hung], which is what a
      transfer of [do_write_spins] is.  [Aml.v] and the walk over the root table
      get the length of the block.  All other recursion is structural.

    ** What the theorems show

    - Invariants over every sequence of operations from power-on: interrupt
      lines follow the registers ([uart_interrupts], [smbus_invariant],
      [acpi_sci], [shared_line_level]), registers keep their width
      ([dma_reachable], [hpet_wf]), interrupt pins reach exactly the inputs the
      chipset routes them to ([pci_intx]), the floppy controller's main status
      register tells its phase ([floppy_invariant]), status bits agree with the queues
      ([ps2_output_buffer]), time does not go back ([clock_monotone],
      [acpi_pm_timer]); also for interrupts of level-triggered timers
      ([hpet_lines], [rtc_irq]) and for lines that devices hand over to each
      other ([timers_legacy]).
    - Refinement: [mmio_decodes] relates the block tables, the shared blocks and
      the dispatching closures to a list of ranges over whole blocks;
      [float_queue_refines] and [byte_queue_fifo] relate rings to lists, and
      [virtio_read_stream] the reads of a request, however the driver cut it into
      buffers, to one stream of bytes; [lazy_disk] a disk of which only some blocks
      are loaded or written to the whole disk, [extended_refines] the buffers of
      extended RAM to a flat memory.
    - PCI: the two ways into configuration space are one ([pci_cf8_ecam]), routing
      through bridges ends ([pci_routing_ends]), identities cannot be written
      ([pci_identity]), memory BARs move their device ([pci_memory_bar]).
    - Snapshots: what was saved is what is restored ([snapshot_roundtrip],
      [stream_roundtrip], [disk_snapshot]), a damaged one is refused before
      memory is touched ([stream_atomic], [snapshot_truncated]), the checksum is
      CRC-32 ([stream_crc_is_crc32]).
    - Floppy disks: commands and results cross the data register unharmed
      ([floppy_protocol]), sectors move between disk and memory ([floppy_read],
      [floppy_roundtrip]), images get the format they fit ([disk_format_fits]).
    - The machine's description: every accepted platform is consistent
      ([create_platform_valid]), its DSDT is well-formed and says what it means
      ([dsdt_parses]), routes interrupts as the PCI code does ([routing_agrees])
      and claims only ports that have an owner ([ports_owned]).
    - Virtio: a driver cannot make the device loop or leave the memory map
      ([virtio_chain]), requests are taken in order and once ([virtio_pop_order]),
      replies arrive where the driver looks ([virtio_replies]), data ends up in the
      buffers in order ([virtio_write_stream]); interrupt line, features and queue
      geometry stay consistent over any sequence of accesses ([virtio_invariant]).
    - Time: [pit_no_drift], [hpet_deadline], [hpet_counter], [rtc_calendar],
      [rtc_alarm], [clock_bound], [clock_slices], [tco_fires].
    - Data is neither lost nor reordered: [uart_fifo], [ps2_keyboard_stream],
      [ps2_mouse_packet], [float_queue_shift_block], [send_delivers],
      [ports_consecutive].
    - Round trips: [dma_program_roundtrip], [pit_program], [pit_latch],
      [uart_divisor_latch], [smbus_block_roundtrip], [phys_blob_roundtrip].
    - Safety and termination: [tco_reset_needs_two], [acpi_wake], [do_write_terminates], [do_read_reset], [smbus_semaphore].
    - Deviations of the code from what it means to do are stated as theorems
      too: [byte_queue_overflow], [do_write_spins], [ps2_stale_prefix],
      [multimask_readback], [mouse_packet_overflow], [pit_unlatched_read],
      [rtc_alarm_stays], [virtio_status] (the device is never told of DRIVER_OK),
      [clock_steps_back] (a deterministic clock that jumped can go back by the
      rounding), [part_read_is_file] (a file in parts is read without the blocks
      written meanwhile), [sector_zero]; [pci_intx] names the routes that are no
      input of an interrupt controller.

    ** What is not modelled

    The processor, its interrupt controllers and memory (WebAssembly), the hard
    disk, network, sound and graphics devices, the virtio devices on top of
    [virtio.js], the Q35 chipset and its root ports, the 9p file system, the front
    end, logging ([dbg_log], [dbg_assert] without effect in release builds) and
    the host's input and output.  Of [acpi.js], the copy of the timer shared with
    worker threads is left out; of [virtio.js], the layout of the capabilities in
    configuration space; of [buffer.js], the requests to the host; of [cpu.js],
    everything but the parts named above, so [stream_atomic] takes the final
    [set_state] of a restore as a parameter that may throw.  Next in line are the
    virtio devices, the storage controllers, the 9p marshalling and the network
    card. *)

From Stdlib Require Export ZArith Lia Bool.
From stdpp Require Export base list gmap strings.
From coqutil Require Export Datatypes.RecordSettersUsingExistingGetters.

Set Default Goal Selector "!".

Open Scope Z_scope.

(** Record updates [s <| field := v |>] compute. *)
#[global] Arguments RecordSettersUsingExistingGetters.const {E} newValue _ /.

(** ** JavaScript numbers used as machine integers *)

(** A store into a Uint8Array, Uint16Array, Uint32Array element, and the
    coercion [x >>> 0]. *)
Definition u8 (z : Z) : Z := z mod 2 ^ 8.
Definition u16 (z : Z) : Z := z mod 2 ^ 16.
Definition u32 (z : Z) : Z := z mod 2 ^ 32.

(** ToInt32, the coercion every bitwise operator applies to its operands
    (and the store into an Int32Array). *)
Definition i32 (z : Z) : Z :=
  let m := z mod 2 ^ 32 in if m <? 2 ^ 31 then m else m - 2 ^ 32.

(** The bitwise operators as ECMAScript defines them, on any integer. *)
Definition js_and (a b : Z) : Z := Z.land (i32 a) (i32 b).
Definition js_or (a b : Z) : Z := Z.lor (i32 a) (i32 b).
Definition js_xor (a b : Z) : Z := Z.lxor (i32 a) (i32 b).
Definition js_not (a : Z) : Z := Z.lnot (i32 a).
Definition shl32 (a n : Z) : Z := i32 (Z.shiftl (i32 a) (Z.land n 31)).
Definition sar32 (a n : Z) : Z := Z.shiftr (i32 a) (Z.land n 31).
Definition shr32 (a n : Z) : Z := Z.shiftr (u32 a) (Z.land n 31).

Definition int32 (z : Z) : Prop := - 2 ^ 31 <= z < 2 ^ 31.
Definition byte (z : Z) : Prop := 0 <= z < 2 ^ 8.
Definition word16 (z : Z) : Prop := 0 <= z < 2 ^ 16.
Definition uint32 (z : Z) : Prop := 0 <= z < 2 ^ 32.

(** Truthiness of [x & mask]. *)
Definition has (x mask : Z) : bool := negb (Z.land x mask =? 0).

(** A boolean operand of an arithmetic or bitwise operator. *)
Definition b2z (b : bool) : Z := if b then 1 else 0.

Declare Scope js_scope.
Delimit Scope js_scope with js.
Notation "a .& b" := (Z.land a b) (at level 40, left associativity) : js_scope.
Notation "a .| b" := (Z.lor a b) (at level 50, left associativity) : js_scope.
Notation "a .^ b" := (Z.lxor a b) (at level 50, left associativity) : js_scope.
Notation "a .<< n" := (Z.shiftl a n) (at level 37, left associativity) : js_scope.
Notation "a .>> n" := (Z.shiftr a n) (at level 37, left associativity) : js_scope.
Notation "~. a" := (Z.lnot a) (at level 34, right associativity) : js_scope.
Open Scope js_scope.

(** ** Lemmas on the coercions *)

Lemma u8_byte z : byte (u8 z).
Proof. unfold byte, u8. apply Z.mod_pos_bound. lia. Qed.

Lemma u16_word16 z : word16 (u16 z).
Proof. unfold word16, u16. apply Z.mod_pos_bound. lia. Qed.

Lemma u32_uint32 z : uint32 (u32 z).
Proof. unfold uint32, u32. apply Z.mod_pos_bound. lia. Qed.

Lemma u8_id z : byte z -> u8 z = z.
Proof. apply Z.mod_small. Qed.

Lemma u16_id z : word16 z -> u16 z = z.
Proof. apply Z.mod_small. Qed.

Lemma u32_id z : uint32 z -> u32 z = z.
Proof. apply Z.mod_small. Qed.

Lemma i32_int32 z : int32 (i32 z).
Proof.
  unfold int32, i32. pose proof (Z.mod_pos_bound z (2 ^ 32) ltac:(lia)).
  destruct (Z.ltb_spec (z mod 2 ^ 32) (2 ^ 31)); lia.
Qed.

Lemma i32_id z : int32 z -> i32 z = z.
Proof.
  unfold int32, i32. intros H. destruct (Z.ltb_spec z 0).
  - replace (z mod 2 ^ 32) with (z + 2 ^ 32).
    + destruct (Z.ltb_spec (z + 2 ^ 32) (2 ^ 31)); lia.
    + apply Z.mod_unique with (-1); lia.
  - rewrite Z.mod_small by lia. destruct (Z.ltb_spec z (2 ^ 31)); lia.
Qed.

(** ToInt32 only looks at the low 32 bits. *)
Lemma i32_u32 z : i32 (u32 z) = i32 z.
Proof. unfold i32, u32. by rewrite Z.mod_mod. Qed.

Lemma u32_i32 z : u32 (i32 z) = u32 z.
Proof.
  unfold u32, i32. destruct (Z.ltb_spec (z mod 2 ^ 32) (2 ^ 31)).
  - by rewrite Z.mod_mod.
  - replace (z mod 2 ^ 32 - 2 ^ 32) with (z mod 2 ^ 32 + (-1) * 2 ^ 32) by lia.
    rewrite Z.mod_add by lia. by rewrite Z.mod_mod.
Qed.

(** The reading of the operators used throughout: on operands that already
    are int32 values (device registers, bytes, masks) the bitwise operators of
    JavaScript are those of Z, and the shifts are too as long as a left shift
    stays inside 32 bits. *)
Lemma i32_testbit z k : 0 <= k < 32 -> Z.testbit (i32 z) k = Z.testbit (u32 z) k.
Proof.
  intros Hk. rewrite <- (Z.mod_pow2_bits_low (i32 z) 32) by lia.
  change (i32 z mod 2 ^ 32) with (u32 (i32 z)). by rewrite u32_i32.
Qed.

Lemma js_and_int32 a b : int32 a -> int32 b -> js_and a b = a .& b.
Proof. intros. unfold js_and. by rewrite !i32_id. Qed.

Lemma js_or_int32 a b : int32 a -> int32 b -> js_or a b = a .| b.
Proof. intros. unfold js_or. by rewrite !i32_id. Qed.

Lemma js_not_int32 a : int32 a -> js_not a = ~. a.
Proof. intros. unfold js_not. by rewrite i32_id. Qed.

Lemma land_small n : 0 <= n < 32 -> Z.land n 31 = n.
Proof. intros. change 31 with (Z.ones 5). rewrite Z.land_ones by lia. apply Z.mod_small. lia. Qed.

Lemma shl32_exact a n :
  int32 a -> 0 <= n < 32 -> int32 (a .<< n) -> shl32 a n = a .<< n.
Proof. intros. unfold shl32. by rewrite (i32_id a), land_small, i32_id. Qed.

Lemma sar32_int32 a n : int32 a -> 0 <= n < 32 -> sar32 a n = a .>> n.
Proof. intros. unfold sar32. by rewrite i32_id, land_small. Qed.

(** ** Bounds of the bitwise operators *)

Lemma land_nonneg_r x y : 0 <= y -> 0 <= x .& y <= y.
Proof.
  intros H. assert (0 <= x .& y) as H0 by (apply Z.land_nonneg; auto). split; [done|].
  apply Z.ldiff_le; [done|]. apply Z.bits_inj'. intros n Hn.
  rewrite Z.ldiff_spec, Z.land_spec, Z.bits_0.
  by destruct (Z.testbit x n), (Z.testbit y n).
Qed.

Lemma land_nonneg_l x y : 0 <= x -> 0 <= x .& y <= x.
Proof. rewrite Z.land_comm. apply land_nonneg_r. Qed.

Lemma lor_bound n a b :
  0 <= n -> 0 <= a < 2 ^ n -> 0 <= b < 2 ^ n -> 0 <= a .| b < 2 ^ n.
Proof.
  intros Hn Ha Hb. split; [apply Z.lor_nonneg; lia|].
  destruct (Z.eq_dec (a .| b) 0) as [->|]; [lia|].
  apply Z.log2_lt_pow2; [pose proof (proj2 (Z.lor_nonneg a b)); lia|].
  rewrite Z.log2_lor by lia.
  destruct (Z.eq_dec n 0) as [->|].
  - assert (a = 0) as -> by lia. assert (b = 0) as -> by lia. done.
  - apply Z.max_lub_lt.
    + destruct (Z.eq_dec a 0) as [->|]; [simpl; lia|apply Z.log2_lt_pow2; lia].
    + destruct (Z.eq_dec b 0) as [->|]; [simpl; lia|apply Z.log2_lt_pow2; lia].
Qed.

Lemma lxor_bound n a b :
  0 <= n -> 0 <= a < 2 ^ n -> 0 <= b < 2 ^ n -> 0 <= a .^ b < 2 ^ n.
Proof.
  intros Hn Ha Hb.
  assert (0 <= a .^ b) as H0 by (apply Z.lxor_nonneg; lia). split; [done|].
  pose proof (lor_bound n a b Hn Ha Hb).
  enough (a .^ b <= a .| b) by lia.
  apply Z.ldiff_le; [apply Z.lor_nonneg; lia|]. apply Z.bits_inj'. intros i Hi.
  rewrite Z.ldiff_spec, Z.lxor_spec, Z.lor_spec, Z.bits_0.
  by destruct (Z.testbit a i), (Z.testbit b i).
Qed.

Lemma shiftl_bound a n m :
  0 <= n -> 0 <= m -> 0 <= a < 2 ^ m -> 0 <= a .<< n < 2 ^ (m + n).
Proof. intros. rewrite Z.shiftl_mul_pow2, Z.pow_add_r by lia. nia. Qed.

Lemma shiftr_bound a n m :
  0 <= n -> 0 <= m -> 0 <= a < 2 ^ (m + n) -> 0 <= a .>> n < 2 ^ m.
Proof.
  intros. rewrite Z.shiftr_div_pow2 by lia. rewrite Z.pow_add_r in * by lia. split.
  - apply Z.div_pos; lia.
  - apply Z.div_lt_upper_bound; lia.
Qed.

(** Bitwise extensionality with the specifications of the operators. *)
Ltac zbit_specs i :=
  repeat first
    [ rewrite Z.lor_spec | rewrite Z.land_spec | rewrite Z.lxor_spec
    | rewrite Z.lnot_spec by lia | rewrite Z.shiftl_spec by lia
    | rewrite Z.shiftr_spec by lia | rewrite Z.bits_0 ].
Ltac zbits i := apply Z.bits_inj'; intros i ?; zbit_specs i.

(** ** Disjoint bit fields *)

Lemma lor_disjoint a b : a .& b = 0 -> a .| b = a + b.
Proof.
  intros H. rewrite <- Z.lxor_lor by done. symmetry. by apply Z.add_nocarry_lxor.
Qed.

Lemma lor_shiftl_add a b n : 0 <= n -> 0 <= a < 2 ^ n -> a .| (b .<< n) = a + b * 2 ^ n.
Proof.
  intros Hn Ha. rewrite <- Z.shiftl_mul_pow2 by done. apply lor_disjoint.
  apply Z.bits_inj'. intros i Hi. rewrite Z.land_spec, Z.bits_0, Z.shiftl_spec by done.
  destruct (Z.ltb_spec i n).
  - rewrite (Z.testbit_neg_r b) by lia. by rewrite andb_false_r.
  - rewrite <- (Z.mod_small a (2 ^ n)) by done. by rewrite Z.mod_pow2_bits_high by lia.
Qed.

Lemma land_ones_mod x n : 0 <= n -> x .& (2 ^ n - 1) = x mod 2 ^ n.
Proof. intros. rewrite <- Z.land_ones by done. f_equal. rewrite Z.ones_equiv. lia. Qed.

Lemma land_ff x : x .& 0xFF = x mod 256.
Proof. apply (land_ones_mod x 8). lia. Qed.

Lemma land_ffff x : x .& 0xFFFF = x mod 65536.
Proof. apply (land_ones_mod x 16). lia. Qed.

Lemma land_lnot_ones x n : 0 <= n -> x .& ~. (2 ^ n - 1) = x / 2 ^ n * 2 ^ n.
Proof.
  intros Hn. rewrite <- Z.shiftr_div_pow2, <- Z.shiftl_mul_pow2 by done.
  replace (2 ^ n - 1) with (Z.ones n) by (rewrite Z.ones_equiv; lia).
  rewrite <- Z.ldiff_land. by apply Z.ldiff_ones_r.
Qed.

(** ** Single bits *)

Lemma has_testbit x k : 0 <= k -> has x (2 ^ k) = Z.testbit x k.
Proof.
  intros Hk. unfold has. destruct (Z.testbit x k) eqn:E.
  - apply negb_true_iff, Z.eqb_neq. intros H.
    assert (Z.testbit (x .& 2 ^ k) k = true) as Hb
      by (by rewrite Z.land_spec, E, Z.pow2_bits_true).
    rewrite H, Z.bits_0 in Hb. done.
  - apply negb_false_iff, Z.eqb_eq. apply Z.bits_inj'. intros i Hi.
    rewrite Z.land_spec, Z.bits_0. destruct (Z.eq_dec i k) as [->|].
    + by rewrite E.
    + by rewrite Z.pow2_bits_false, andb_false_r by done.
Qed.

Lemma has_false_iff x m : has x m = false <-> x .& m = 0.
Proof. unfold has. by rewrite negb_false_iff, Z.eqb_eq. Qed.

Lemma has_true_iff x m : has x m = true <-> x .& m <> 0.
Proof. unfold has. by rewrite negb_true_iff, Z.eqb_neq. Qed.

Lemma has_lor x a m : has (x .| a) m = has x m || has a m.
Proof.
  unfold has. rewrite Z.land_lor_distr_l. apply eq_true_iff_eq.
  rewrite orb_true_iff, !negb_true_iff, !Z.eqb_neq, Z.lor_eq_0_iff.
  destruct (Z.eq_dec (x .& m) 0), (Z.eq_dec (a .& m) 0); tauto.
Qed.

Lemma has_clear_same x m : has (x .& ~. m) m = false.
Proof.
  apply has_false_iff. rewrite <- Z.land_assoc, (Z.land_comm (~. m)), Z.land_lnot_diag.
  apply Z.land_0_r.
Qed.

Lemma has_clear_other x a m : a .& m = 0 -> has (x .& ~. a) m = has x m.
Proof.
  intros H. unfold has. do 2 f_equal. rewrite <- Z.land_assoc, (Z.land_comm (~. a)). f_equal.
  rewrite <- Z.ldiff_land, Z.ldiff_land. zbits i.
  apply (f_equal (fun z => Z.testbit z i)) in H. rewrite Z.land_spec, Z.bits_0 in H.
  by destruct (Z.testbit a i), (Z.testbit m i).
Qed.

(** [x] has no bits outside the mask [m]. *)
Definition within (m x : Z) : Prop := x .& m = x.

Lemma within_lor m x y : within m x -> within m y -> within m (x .| y).
Proof. unfold within. intros Hx Hy. by rewrite Z.land_lor_distr_l, Hx, Hy. Qed.
Lemma within_land_l m x y : within m x -> within m (x .& y).
Proof. unfold within. intros Hx. rewrite <- Z.land_assoc, (Z.land_comm y), Z.land_assoc. by rewrite Hx. Qed.
Lemma within_land_r m x : within m (x .& m).
Proof. unfold within. by rewrite <- Z.land_assoc, Z.land_diag. Qed.
Lemma within_0 m : within m 0.
Proof. done. Qed.

Lemma testbit_high n a i : 0 <= a < 2 ^ n -> n <= i -> Z.testbit a i = false.
Proof.
  intros Ha Hi. rewrite <- (Z.mod_small a (2 ^ n)) by done.
  destruct (Z.ltb_spec n 0).
  - rewrite Z.pow_neg_r in Ha by done. lia.
  - by apply Z.mod_pow2_bits_high.
Qed.

(** A decidable fact about bytes, by evaluation on all 256 of them. *)
Lemma byte_forall (P : Z -> bool) :
  forallb P (seqZ 0 256) = true -> forall b, byte b -> P b = true.
Proof.
  intros H b Hb. rewrite forallb_forall in H. apply H.
  apply list_elem_of_In, elem_of_seqZ. unfold byte in Hb. lia.
Qed.

(** Evaluates a boolean statement about one byte variable. *)
Ltac byte_cases b Hb :=
  revert b Hb; apply byte_forall; vm_compute; reflexivity.

(** ** Typed arrays *)

(** A typed array of the source is the list of its elements: a read out of
    range is [undefined] (0 after the coercion its users apply), a store out
    of range is ignored. *)
Definition arr_get (l : list Z) (i : Z) : Z := default 0 (l !! Z.to_nat i).
Definition arr_set (l : list Z) (i v : Z) : list Z := <[Z.to_nat i := v]> l.

Lemma arr_set_length l i v : length (arr_set l i v) = length l.
Proof. apply length_insert. Qed.

Lemma arr_get_set_eq l i v : 0 <= i < Z.of_nat (length l) -> arr_get (arr_set l i v) i = v.
Proof. intros. unfold arr_get, arr_set. by rewrite list_lookup_insert_eq by lia. Qed.

Lemma arr_get_set_ne l i j v : 0 <= i -> 0 <= j -> i <> j -> arr_get (arr_set l i v) j = arr_get l j.
Proof. intros. unfold arr_get, arr_set. by rewrite list_lookup_insert_ne by lia. Qed.

Lemma arr_get_Forall (P : Z -> Prop) l i : P 0 -> Forall P l -> P (arr_get l i).
Proof.
  intros H0 H. unfold arr_get. destruct (l !! Z.to_nat i) eqn:E; [|done].
  by eapply Forall_lookup_1.
Qed.

Lemma arr_set_Forall (P : Z -> Prop) l i v : Forall P l -> P v -> Forall P (arr_set l i v).
Proof. intros. by apply Forall_insert. Qed.

Lemma list_alter_alter {A} (f g : A -> A) i (l : list A) :
  alter f i (alter g i l) = alter (fun x => f (g x)) i l.
Proof. revert i. induction l as [|x l IH]; intros [|i]; cbn; [done..|]. f_equal. apply IH. Qed.

(** Filters that agree on the elements of the list. *)
Lemma list_filter_ext_in {A} (P Q : A -> Prop) `{HP : !forall x, Decision (P x), HQ : !forall x, Decision (Q x)} (l : list A) :
  (forall x, x ∈ l -> P x <-> Q x) -> filter P l = filter Q l.
Proof.
  induction l as [|x l IH]; intros H; [done|]. rewrite !filter_cons, IH by (intros y Hy; apply H; by right).
  pose proof (H x (list_elem_of_here x l)). repeat case_decide; tauto.
Qed.

(** The first element that passes a test is the first in any sublist that keeps
    all that pass it. *)
Lemma find_filter {A} (f : A -> bool) (P : A -> Prop) `{HP : !forall x, Decision (P x)} (l : list A) :
  (forall x, f x = true -> P x) -> List.find f (filter P l) = List.find f l.
Proof.
  intros H. induction l as [|x l IH]; [done|]. rewrite filter_cons. cbn [List.find].
  destruct (f x) eqn:E.
  - rewrite decide_True by auto. cbn. by rewrite E.
  - case_decide; cbn; [by rewrite E|done].
Qed.

(** ** Effects *)

(** What a device does to the rest of the machine: interrupt lines, messages
    on the bus to the host side, requests to the CPU. *)
Inductive payload :=
| PNone | PBool (b : bool) | PNum (z : Z) | PStr (s : string) | PNums (l : list Z).

Inductive event :=
| DeviceRaiseIrq (irq : Z)
| DeviceLowerIrq (irq : Z)
| IoapicRaiseIrq (gsi : Z)
| IoapicLowerIrq (gsi : Z)
| SharedIrqLevel (irq source : Z) (level : bool)
| SharedGsiLevel (gsi source : Z) (level : bool)
| PciIrq (pci_id : Z) (level : bool)
| ApicMsi (address data : Z)
| CpuSmi (core : option Z)
| CpuReboot (reason : string)
| CpuEnterSleep
| CpuResumeFromSleep
| CmosWrite (index value : Z)
| Callback (fn this_value arg : Z)
| TcoSmi
| IoDecode (owner : string) (base size : Z)
| IoUndecode (owner : string) (base size : Z)
| Call (fn : string) (args : list Z)
| BusSend (name : string) (value : payload).

#[export] Instance payload_eq_dec : EqDecision payload.
Proof. solve_decision. Defined.
#[export] Instance event_eq_dec : EqDecision event.
Proof. solve_decision. Defined.

(** A method: it reads and updates its object's state [S], returns an [A] and
    performs a sequence of effects. *)
Definition M (S A : Type) : Type := S -> A * S * list event.

Definition res {S A} (m : M S A) (s : S) : A := (m s).1.1.
Definition exec {S A} (m : M S A) (s : S) : S := (m s).1.2.
Definition evs {S A} (m : M S A) (s : S) : list event := (m s).2.

Definition ret {S A} (a : A) : M S A := fun s => (a, s, []).
Definition bind {S A B} (m : M S A) (k : A -> M S B) : M S B := fun s =>
  let r := k (res m s) (exec m s) in (r.1.1, r.1.2, evs m s ++ r.2).
Definition get {S} : M S S := fun s => (s, s, []).
Definition put {S} (s : S) : M S unit := fun _ => (tt, s, []).
Definition modify {S} (f : S -> S) : M S unit := fun s => (tt, f s, []).
Definition emit {S} (e : event) : M S unit := fun s => (tt, s, [e]).
Definition skip {S} : M S unit := ret tt.
Definition when {S} (b : bool) (m : M S unit) : M S unit := if b then m else skip.

Fixpoint mfor {S A} (l : list A) (f : A -> M S unit) : M S unit :=
  match l with
  | [] => skip
  | x :: l => bind (f x) (fun _ => mfor l f)
  end.

Declare Scope dev_scope.
Delimit Scope dev_scope with dev.
Notation "x <-- m ;; k" := (bind m (fun x => k))
  (at level 100, m at next level, right associativity) : dev_scope.
Notation "m ;;; k" := (bind m (fun _ => k))
  (at level 100, right associativity) : dev_scope.
Open Scope dev_scope.

Section monad_laws.
Context {S A B : Type}.
Implicit Types (m : M S A) (k : A -> M S B) (s : S).

Lemma exec_bind m k s : exec (bind m k) s = exec (k (res m s)) (exec m s).
Proof. done. Qed.
Lemma res_bind m k s : res (bind m k) s = res (k (res m s)) (exec m s).
Proof. done. Qed.
Lemma evs_bind m k s : evs (bind m k) s = evs m s ++ evs (k (res m s)) (exec m s).
Proof. done. Qed.
Lemma bind_get (k : S -> M S A) s : bind get k s = k s s.
Proof. unfold bind. cbn. by destruct (k s s) as [[] ?]. Qed.
Lemma bind_modify f (m : M S A) s : bind (modify f) (fun _ => m) s = m (f s).
Proof. unfold bind. cbn. by destruct (m (f s)) as [[] ?]. Qed.
Lemma bind_quiet m k s a s' : m s = (a, s', []) -> bind m k s = k a s'.
Proof. intros H. unfold bind, exec, res, evs. rewrite H. cbn. by destruct (k a s') as [[] ?]. Qed.
Lemma exec_get (k : S -> M S A) s : exec (bind get k) s = exec (k s) s.
Proof. done. Qed.
Lemma res_get (k : S -> M S A) s : res (bind get k) s = res (k s) s.
Proof. done. Qed.
Lemma exec_modify f (m : M S A) s : exec (bind (modify f) (fun _ => m)) s = exec m (f s).
Proof. done. Qed.
Lemma res_modify f (m : M S A) s : res (bind (modify f) (fun _ => m)) s = res m (f s).
Proof. done. Qed.
Lemma exec_emit e (m : M S A) s : exec (bind (emit e) (fun _ => m)) s = exec m s.
Proof. done. Qed.
Lemma exec_ret (a : A) (s : S) : exec (ret a) s = s.
Proof. done. Qed.
Lemma exec_modify1 (f : S -> S) s : exec (modify f) s = f s.
Proof. done. Qed.
Lemma bind_skip (m : M S A) s : bind skip (fun _ => m) s = m s.
Proof. unfold bind. cbn. by destruct (m s) as [[] ?]. Qed.
End monad_laws.

(** Symbolic execution of the monad's operators. *)
Ltac msimpl :=
  cbn [exec res evs bind ret get put modify emit skip when mfor fst snd app].
Ltac msimpl_in H :=
  cbn [exec res evs bind ret get put modify emit skip when mfor fst snd app] in H.

(** ** Invariants *)

(** [preserves I m]: the method [m] re-establishes the object invariant [I]. *)
Definition preserves {S A} (I : S -> Prop) (m : M S A) : Prop :=
  forall s, I s -> I (exec m s).

Section preserves.
Context {S : Type} (I : S -> Prop).

Lemma preserves_ret {A} (a : A) : preserves I (ret a).
Proof. by intros s Hs. Qed.
Lemma preserves_skip : preserves I skip.
Proof. by intros s Hs. Qed.
Lemma preserves_emit e : preserves I (emit e).
Proof. by intros s Hs. Qed.
Lemma preserves_bind {A B} (m : M S A) (k : A -> M S B) :
  preserves I m -> (forall a, preserves I (k a)) -> preserves I (bind m k).
Proof. intros Hm Hk s Hs. rewrite exec_bind. apply Hk, Hm, Hs. Qed.
Lemma preserves_get {A} (k : S -> M S A) :
  (forall s, I s -> I (exec (k s) s)) -> preserves I (bind get k).
Proof. intros H s Hs. by apply H. Qed.
Lemma preserves_get_only : preserves I get.
Proof. by intros s Hs. Qed.
Lemma preserves_modify f : (forall s, I s -> I (f s)) -> preserves I (modify f).
Proof. intros H s Hs. by apply H. Qed.
Lemma preserves_if {A} (b : bool) (m1 m2 : M S A) :
  preserves I m1 -> preserves I m2 -> preserves I (if b then m1 else m2).
Proof. destruct b; auto. Qed.
Lemma preserves_when b m : preserves I m -> preserves I (when b m).
Proof. destruct b; auto using preserves_skip. Qed.
Lemma preserves_mfor {A} (l : list A) f :
  (forall x, preserves I (f x)) -> preserves I (mfor l f).
Proof. intros H. induction l; [apply preserves_skip|]. by apply preserves_bind. Qed.
End preserves.

(** [hoare P m Q]: from a state where [P] holds, [m] ends in one where [Q] does. *)
Definition hoare {S A} (P : S -> Prop) (m : M S A) (Q : S -> Prop) : Prop :=
  forall s, P s -> Q (exec m s).

Section hoare.
Context {S : Type} (P Q R : S -> Prop).

Lemma hoare_bind {A B} (m : M S A) (k : A -> M S B) :
  hoare P m Q -> (forall a, hoare Q (k a) R) -> hoare P (bind m k) R.
Proof. intros Hm Hk s Hs. rewrite exec_bind. apply Hk, Hm, Hs. Qed.
Lemma hoare_get {A} (k : S -> M S A) :
  (forall s, P s -> Q (exec (k s) s)) -> hoare P (bind get k) Q.
Proof. intros H s Hs. by apply H. Qed.
Lemma hoare_get_any {A} (k : S -> M S A) :
  (forall s0, hoare P (k s0) Q) -> hoare P (bind get k) Q.
Proof. intros H s Hs. by apply H. Qed.
Lemma hoare_modify f : (forall s, P s -> Q (f s)) -> hoare P (modify f) Q.
Proof. intros H s Hs. by apply H. Qed.
Lemma hoare_if {A} (b : bool) (m1 m2 : M S A) :
  hoare P m1 Q -> hoare P m2 Q -> hoare P (if b then m1 else m2) Q.
Proof. by destruct b. Qed.
Lemma hoare_weaken {A} (m : M S A) (P' : S -> Prop) :
  (forall s, P' s -> P s) -> hoare P m Q -> hoare P' m Q.
Proof. intros H Hm s Hs. by apply Hm, H. Qed.
End hoare.

(** The same with a ghost value [G] that follows the effects: [upd] says what one
    effect does to it (the level of an interrupt line, for example). *)
Section ghost.
Context {S G : Type} (upd : G -> event -> G).

Definition ghoare {A} (P : S -> G -> Prop) (m : M S A) (Q : S -> G -> Prop) : Prop :=
  forall s g, P s g -> Q (exec m s) (fold_left upd (evs m s) g).

Lemma ghoare_bind {A B} (P Q R : S -> G -> Prop) (m : M S A) (k : A -> M S B) :
  ghoare P m Q -> (forall a, ghoare Q (k a) R) -> ghoare P (bind m k) R.
Proof.
  intros Hm Hk s g Hs. rewrite exec_bind, evs_bind, fold_left_app. apply Hk, Hm, Hs.
Qed.
Lemma ghoare_bind_res {A B} (P Q R : S -> G -> Prop) (T : A -> Prop) (m : M S A) (k : A -> M S B) :
  (forall s, T (res m s)) -> ghoare P m Q -> (forall a, T a -> ghoare Q (k a) R) ->
  ghoare P (bind m k) R.
Proof.
  intros HT Hm Hk s g Hs. rewrite exec_bind, evs_bind, fold_left_app. apply Hk; [apply HT|].
  apply Hm, Hs.
Qed.
Lemma ghoare_get {A} (P Q : S -> G -> Prop) (k : S -> M S A) :
  (forall s g, P s g -> Q (exec (k s) s) (fold_left upd (evs (k s) s) g)) ->
  ghoare P (bind get k) Q.
Proof. intros H s g Hs. by apply H. Qed.
Lemma ghoare_get_any {A} (P Q : S -> G -> Prop) (k : S -> M S A) :
  (forall s0, ghoare P (k s0) Q) -> ghoare P (bind get k) Q.
Proof. intros H s g Hs. by apply H. Qed.
Lemma ghoare_modify (P Q : S -> G -> Prop) f :
  (forall s g, P s g -> Q (f s) g) -> ghoare P (modify f) Q.
Proof. intros H s g Hs. by apply H. Qed.
Lemma ghoare_emit (P Q : S -> G -> Prop) e :
  (forall s g, P s g -> Q s (upd g e)) -> ghoare P (emit e) Q.
Proof. intros H s g Hs. by apply H. Qed.
Lemma ghoare_ret {A} (P : S -> G -> Prop) (a : A) : ghoare P (ret a) P.
Proof. by intros s g H. Qed.
Lemma ghoare_skip (P : S -> G -> Prop) : ghoare P skip P.
Proof. by intros s g H. Qed.
Lemma ghoare_if {A} (P Q : S -> G -> Prop) (b : bool) (m1 m2 : M S A) :
  ghoare P m1 Q -> ghoare P m2 Q -> ghoare P (if b then m1 else m2) Q.
Proof. by destruct b. Qed.
Lemma ghoare_when (P : S -> G -> Prop) b m : ghoare P m P -> ghoare P (when b m) P.
Proof. destruct b; [done|intros _; apply ghoare_skip]. Qed.
Lemma ghoare_mfor {A} (P : S -> G -> Prop) (l : list A) f :
  (forall x, ghoare P (f x) P) -> ghoare P (mfor l f) P.
Proof. intros H. induction l; [apply ghoare_skip|]. by apply ghoare_bind with (Q := P). Qed.
Lemma ghoare_weaken {A} (P P' Q : S -> G -> Prop) (m : M S A) :
  (forall s g, P' s g -> P s g) -> ghoare P m Q -> ghoare P' m Q.
Proof. intros H Hm s g Hs. by apply Hm, H. Qed.
Lemma ghoare_post {A} (P Q Q' : S -> G -> Prop) (m : M S A) :
  (forall s g, Q s g -> Q' s g) -> ghoare P m Q -> ghoare P m Q'.
Proof. intros H Hm s g Hs. by apply H, Hm. Qed.
End ghost.

(** Walks through a method that keeps an invariant at every step; [tac] closes
    its assignments and calls. *)
Ltac gstep I tac :=
  repeat (intros; cbv zeta; lazymatch goal with
    | |- ghoare _ _ (bind get _) _ => apply ghoare_get_any
    | |- ghoare _ _ (bind _ _) _ => apply ghoare_bind with (Q := I)
    | |- ghoare _ _ (ret _) _ => apply ghoare_ret
    | |- ghoare _ _ skip _ => apply ghoare_skip
    | |- ghoare _ _ (when _ _) _ => apply ghoare_when
    | |- ghoare _ _ (mfor _ _) _ => apply ghoare_mfor
    | |- ghoare _ _ (if _ then _ else _) _ => apply ghoare_if
    | |- ghoare _ _ _ _ => tac
    end).

Create HintDb dev.
#[export] Hint Resolve preserves_ret preserves_skip preserves_emit preserves_get_only preserves_if
  preserves_when preserves_mfor u8_byte u16_word16 u32_uint32 i32_int32 : dev.

(** ** Interrupt lines *)

(** The level of an interrupt line after a sequence of effects. *)
Fixpoint line_level (irq : Z) (level : bool) (es : list event) : bool :=
  match es with
  | [] => level
  | DeviceRaiseIrq n :: es => line_level irq (if n =? irq then true else level) es
  | DeviceLowerIrq n :: es => line_level irq (if n =? irq then false else level) es
  | _ :: es => line_level irq level es
  end.

Lemma line_level_app irq l es1 es2 :
  line_level irq l (es1 ++ es2) = line_level irq (line_level irq l es1) es2.
Proof. revert l. induction es1 as [|e es1 IH]; intros l; [done|]. destruct e; apply IH. Qed.

(** Walks through a method up to its assignments and calls; [tac] closes
    those. *)
Ltac preserve tac :=
  repeat first
    [ progress intros | apply preserves_bind | apply preserves_when
    | apply preserves_mfor | apply preserves_if | tac
    | solve [apply preserves_ret | apply preserves_skip | apply preserves_emit
            | apply preserves_get_only] ].
