(* ===== verification/Rat.v ===== *)
(** * Rational times

    Lemmas on rounding and on periods of rational lengths that the timers share. *)

From Stdlib Require Export QArith Qround Lqa.
From S2P Require Import Prelude.

Open Scope Z_scope.

Lemma Qfloor_unique x k : (inject_Z k <= x)%Q -> (x < inject_Z (k + 1))%Q -> Qfloor x = k.
Proof.
  intros H1 H2. pose proof (Qfloor_le x) as H3. pose proof (Qlt_floor x) as H4.
  assert (inject_Z k < inject_Z (Qfloor x + 1))%Q as H5 by (eapply Qle_lt_trans; eassumption).
  assert (inject_Z (Qfloor x) < inject_Z (k + 1))%Q as H6 by (eapply Qle_lt_trans; eassumption).
  rewrite <- Zlt_Qlt in H5, H6. lia.
Qed.

(** [floor ((now - d) / P)] is the [k] with [d + k P <= now < d + (k + 1) P]. *)
Lemma floor_periods d P now k :
  (0 < P)%Q -> (d + inject_Z k * P <= now)%Q -> (now < d + inject_Z (k + 1) * P)%Q ->
  Qfloor ((now - d) / P) = k.
Proof.
  intros HP H1 H2. apply Qfloor_unique.
  - apply Qle_shift_div_l; [done|]. lra.
  - apply Qlt_shift_div_r; [done|]. lra.
Qed.

Lemma floor_periods_bounds d P now :
  (0 < P)%Q -> let k := Qfloor ((now - d) / P) in
  (d + inject_Z k * P <= now)%Q /\ (now < d + inject_Z (k + 1) * P)%Q.
Proof.
  intros HP k. pose proof (Qfloor_le ((now - d) / P)) as H1. pose proof (Qlt_floor ((now - d) / P)) as H2.
  fold k in H1, H2.
  assert ((now - d) / P * P == now - d)%Q as E by (field; intros E; rewrite E in HP; by apply Qlt_irrefl in HP).
  split.
  - assert (inject_Z k * P <= (now - d) / P * P)%Q as H by (apply Qmult_le_compat_r; [done|by apply Qlt_le_weak]).
    rewrite E in H. lra.
  - assert ((now - d) / P * P < inject_Z (k + 1) * P)%Q as H by (by apply Qmult_lt_compat_r).
    rewrite E in H. lra.
Qed.

Lemma inject_Z_succ k : (inject_Z (k + 1) == inject_Z k + 1)%Q.
Proof. by rewrite inject_Z_plus. Qed.

Lemma Qmult_pos_le k P : 0 <= k -> (0 < P)%Q -> (0 <= inject_Z k * P)%Q.
Proof.
  intros Hk HP. apply Qmult_le_0_compat; [|by apply Qlt_le_weak].
  change 0%Q with (inject_Z 0). by rewrite <- Zle_Qle.
Qed.
