(* ===== verification/Double.v ===== *)
(** * Numbers of the program

    JavaScript's numbers are IEEE doubles.  A finite one is a rational with a significand of 53 bits; every
    operation rounds its exact result to the nearest double, to the one with an even significand when two are as near.
    [rnd] is this rounding on rationals and [dbl] on integers.  The range of exponents is not bounded here: the times,
    counts and register values of the program neither overflow nor become subnormal. *)

From Stdlib Require Import QArith Qround Qpower Lqa.
From S2P Require Import Prelude Rat.

Set Default Goal Selector "!".
Open Scope Z_scope.

Module Double.

Definition pow2 (k : Z) : Q := (2 ^ k)%Q.

(** The nearest integer, an even one if two are as near. *)
Definition nearest (x : Q) : Z :=
  let f := Qfloor x in
  match (x - inject_Z f ?= 1 # 2)%Q with
  | Lt => f
  | Gt => f + 1
  | Eq => if Z.even f then f else f + 1
  end.

(** The exponent of a positive rational: 2^k <= x < 2^(k + 1). *)
Definition exponent (x : Q) : Z :=
  let k := Z.log2 (Qnum x) - Z.log2 (Zpos (Qden x)) in
  if Qle_bool (pow2 k) x then k else k - 1.

Definition rnd_pos (x : Q) : Q :=
  let k := exponent x in (inject_Z (nearest (x * pow2 (52 - k))) * pow2 (k - 52))%Q.

Definition rnd (x : Q) : Q :=
  match (x ?= 0)%Q with
  | Eq => 0
  | Gt => Qred (rnd_pos x)
  | Lt => Qred (- rnd_pos (- x))
  end.

Definition fadd (a b : Q) : Q := rnd (a + b).
Definition fsub (a b : Q) : Q := rnd (a - b).
Definition fmul (a b : Q) : Q := rnd (a * b).
Definition fdiv (a b : Q) : Q := rnd (a / b).

(** ** Powers of two and the exponent *)

Lemma pow2_pos k : (0 < pow2 k)%Q.
Proof. apply Qpower_0_lt. lra. Qed.

Lemma pow2_add a b : (pow2 (a + b) == pow2 a * pow2 b)%Q.
Proof. apply Qpower_plus. lra. Qed.

Lemma pow2_le a b : a <= b -> (pow2 a <= pow2 b)%Q.
Proof. intros H. apply Qpower_le_compat_l; [done|lra]. Qed.

Lemma pow2_lt_inv a b : (pow2 a < pow2 b)%Q -> a < b.
Proof. intros H. eapply Qpower_lt_compat_l_inv; [exact H|lra]. Qed.

Lemma pow2_int k : 0 <= k -> (pow2 k == inject_Z (2 ^ k))%Q.
Proof. intros H. unfold pow2. by rewrite Zpower_Qpower. Qed.

Lemma pow2_cancel a b : a + b = 0 -> (pow2 a * pow2 b == 1)%Q.
Proof. intros H. rewrite <- pow2_add, H. done. Qed.

(** A fraction lies between the powers of two of the logarithms of its parts. *)
Lemma fraction_log x : (0 < x)%Q ->
  let k := Z.log2 (Qnum x) - Z.log2 (Zpos (Qden x)) in (pow2 (k - 1) <= x)%Q /\ (x < pow2 (k + 1))%Q.
Proof.
  intros Hx k. destruct x as [n d]. assert (0 < n) as Hn by (unfold Qlt in Hx; cbn in Hx; lia).
  cbn [Qnum Qden] in *. pose proof (Z.log2_spec n Hn) as [N1 N2]. pose proof (Z.log2_spec (Zpos d) ltac:(lia)) as [D1 D2].
  pose proof (Z.log2_nonneg n) as Hln. pose proof (Z.log2_nonneg (Zpos d)) as Hld. set (a := Z.log2 n) in *. set (b := Z.log2 (Zpos d)) in *.
  assert (n # d == inject_Z n / inject_Z (Zpos d))%Q as E by (rewrite Qmake_Qdiv; reflexivity).
  assert (0 < inject_Z (Zpos d))%Q as Hd by (unfold Qlt; cbn; lia). rewrite E. split.
  - apply Qle_shift_div_l; [done|]. unfold k. replace (a - b - 1) with (a + - (b + 1)) by lia. rewrite pow2_add.
    assert (pow2 a * pow2 (- (b + 1)) * inject_Z (Zpos d) == pow2 a * (inject_Z (Zpos d) * pow2 (- (b + 1))))%Q as -> by ring.
    assert (inject_Z (Zpos d) * pow2 (- (b + 1)) <= 1)%Q as Hd1.
    { rewrite <- (pow2_cancel (b + 1) (- (b + 1))) by lia. apply Qmult_le_compat_r; [|apply Qlt_le_weak, pow2_pos].
      rewrite pow2_int by lia. rewrite <- Zle_Qle. replace (b + 1) with (Z.succ b) by lia. lia. }
    apply Qle_trans with (pow2 a * 1)%Q.
    + apply Qmult_le_l; [apply pow2_pos|exact Hd1].
    + rewrite Qmult_1_r, pow2_int by lia. rewrite <- Zle_Qle. lia.
  - apply Qlt_shift_div_r; [done|]. unfold k. replace (a - b + 1) with ((a + 1) + - b) by lia. rewrite pow2_add.
    assert (pow2 (a + 1) * pow2 (- b) * inject_Z (Zpos d) == pow2 (a + 1) * (inject_Z (Zpos d) * pow2 (- b)))%Q as -> by ring.
    assert (1 <= inject_Z (Zpos d) * pow2 (- b))%Q as Hd1.
    { rewrite <- (pow2_cancel b (- b)) by lia. apply Qmult_le_compat_r; [|apply Qlt_le_weak, pow2_pos]. rewrite pow2_int by lia. rewrite <- Zle_Qle. lia. }
    apply Qlt_le_trans with (pow2 (a + 1) * 1)%Q.
    + rewrite Qmult_1_r, pow2_int by lia. rewrite <- Zlt_Qlt. replace (a + 1) with (Z.succ a) by lia. lia.
    + apply Qmult_le_l; [apply pow2_pos|exact Hd1].
Qed.

Lemma exponent_spec x : (0 < x)%Q -> (pow2 (exponent x) <= x)%Q /\ (x < pow2 (exponent x + 1))%Q.
Proof.
  intros Hx. pose proof (fraction_log x Hx) as [H1 H2]. cbv zeta in *. unfold exponent. cbv zeta. destruct (Qle_bool _ x) eqn:E.
  - apply Qle_bool_iff in E. by split.
  - split; [done|]. apply Qnot_le_lt. intros H. apply Qle_bool_iff in H. replace (_ - 1 + 1) with (Z.log2 (Qnum x) - Z.log2 (Zpos (Qden x))) in H by lia. congruence.
Qed.

Lemma exponent_unique x k : (pow2 k <= x)%Q -> (x < pow2 (k + 1))%Q -> exponent x = k.
Proof.
  intros H1 H2. assert (0 < x)%Q as Hx by (pose proof (pow2_pos k); lra). destruct (exponent_spec x Hx) as [E1 E2].
  assert (exponent x < k + 1) by (apply pow2_lt_inv; lra). assert (k < exponent x + 1) by (apply pow2_lt_inv; lra). lia.
Qed.

Lemma exponent_mono x y : (0 < x)%Q -> (x <= y)%Q -> exponent x <= exponent y.
Proof.
  intros Hx Hy. destruct (exponent_spec x Hx) as [E1 _]. destruct (exponent_spec y ltac:(lra)) as [_ E2].
  assert (exponent x < exponent y + 1) by (apply pow2_lt_inv; lra). lia.
Qed.

(** ** Rounding to an integer *)

Lemma floor_bounds x : (inject_Z (Qfloor x) <= x)%Q /\ (x < inject_Z (Qfloor x) + 1)%Q.
Proof. split; [apply Qfloor_le|]. pose proof (Qlt_floor x) as H. rewrite inject_Z_plus in H. exact H. Qed.

Lemma nearest_bounds x : Qfloor x <= nearest x <= Qfloor x + 1.
Proof. unfold nearest. cbv zeta. destruct (_ ?= _)%Q; [destruct (Z.even _)|..]; lia. Qed.

Lemma nearest_mono x y : (x <= y)%Q -> nearest x <= nearest y.
Proof.
  intros H. pose proof (Qfloor_resp_le x y H) as Hf. pose proof (nearest_bounds x). pose proof (nearest_bounds y).
  destruct (decide (Qfloor x = Qfloor y)) as [E|]; [|lia]. unfold nearest. cbv zeta. rewrite E. set (f := Qfloor y) in *.
  destruct (Qcompare_spec (x - inject_Z f) (1 # 2)) as [C1|C1|C1], (Qcompare_spec (y - inject_Z f) (1 # 2)) as [C2|C2|C2];
    try (destruct (Z.even f)); try lia; exfalso; lra.
Qed.

Lemma nearest_int z : nearest (inject_Z z) = z.
Proof.
  unfold nearest. cbv zeta. rewrite Qfloor_Z. destruct (Qcompare_spec (inject_Z z - inject_Z z) (1 # 2)) as [C|C|C]; [exfalso; lra|done|exfalso; lra].
Qed.

Lemma nearest_eq x y : (x == y)%Q -> nearest x = nearest y.
Proof. intros H. pose proof (nearest_mono x y ltac:(lra)). pose proof (nearest_mono y x ltac:(lra)). lia. Qed.

(** ** Rounding to a double *)

Lemma scaled_range x : (0 < x)%Q -> 2 ^ 52 <= nearest (x * pow2 (52 - exponent x)) <= 2 ^ 53.
Proof.
  intros Hx. destruct (exponent_spec x Hx) as [E1 E2]. set (k := exponent x) in *. split.
  - rewrite <- (nearest_int (2 ^ 52)). apply nearest_mono. rewrite <- pow2_int by lia. replace 52 with (k + (52 - k)) at 1 by lia. rewrite pow2_add.
    apply Qmult_le_compat_r; [done|apply Qlt_le_weak, pow2_pos].
  - rewrite <- (nearest_int (2 ^ 53)). apply nearest_mono. rewrite <- pow2_int by lia. replace 53 with ((k + 1) + (52 - k)) at 1 by lia. rewrite pow2_add.
    apply Qmult_le_compat_r; [lra|apply Qlt_le_weak, pow2_pos].
Qed.

Lemma rnd_pos_bounds x : (0 < x)%Q -> (pow2 (exponent x) <= rnd_pos x)%Q /\ (rnd_pos x <= pow2 (exponent x + 1))%Q.
Proof.
  intros Hx. pose proof (scaled_range x Hx) as [S1 S2]. unfold rnd_pos. cbv zeta. set (k := exponent x) in *. set (m := nearest _) in *. split.
  - replace k with (52 + (k - 52)) at 1 by lia. rewrite pow2_add. apply Qmult_le_compat_r; [|apply Qlt_le_weak, pow2_pos]. rewrite pow2_int by lia. by rewrite <- Zle_Qle.
  - replace (k + 1) with (53 + (k - 52)) at 1 by lia. rewrite pow2_add. apply Qmult_le_compat_r; [|apply Qlt_le_weak, pow2_pos]. rewrite pow2_int by lia. by rewrite <- Zle_Qle.
Qed.

Lemma rnd_pos_pos x : (0 < x)%Q -> (0 < rnd_pos x)%Q.
Proof. intros Hx. destruct (rnd_pos_bounds x Hx) as [H _]. pose proof (pow2_pos (exponent x)). lra. Qed.

Lemma rnd_pos_mono x y : (0 < x)%Q -> (x <= y)%Q -> (rnd_pos x <= rnd_pos y)%Q.
Proof.
  intros Hx Hy. pose proof (exponent_mono x y Hx Hy) as He. destruct (decide (exponent x = exponent y)) as [E|E].
  - unfold rnd_pos. cbv zeta. rewrite E. apply Qmult_le_compat_r; [|apply Qlt_le_weak, pow2_pos]. rewrite <- Zle_Qle. apply nearest_mono.
    apply Qmult_le_compat_r; [done|apply Qlt_le_weak, pow2_pos].
  - destruct (rnd_pos_bounds x Hx) as [_ H1]. destruct (rnd_pos_bounds y ltac:(lra)) as [H2 _].
    pose proof (pow2_le (exponent x + 1) (exponent y) ltac:(lia)). lra.
Qed.

Lemma rnd_sign x : ((x == 0)%Q -> rnd x = 0%Q) /\ ((0 < x)%Q -> (rnd x == rnd_pos x)%Q) /\ ((x < 0)%Q -> (rnd x == - rnd_pos (- x))%Q).
Proof.
  unfold rnd. destruct (Qcompare_spec x 0) as [C|C|C]; split_and!; intros H; first [exfalso; lra|done|apply Qred_correct].
Qed.

Theorem rnd_mono x y : (x <= y)%Q -> (rnd x <= rnd y)%Q.
Proof.
  intros H. destruct (rnd_sign x) as (X0 & X1 & X2), (rnd_sign y) as (Y0 & Y1 & Y2).
  destruct (Qcompare_spec x 0) as [Cx|Cx|Cx], (Qcompare_spec y 0) as [Cy|Cy|Cy]; try (exfalso; lra).
  - rewrite X0, Y0 by done. lra.
  - rewrite X0, Y1 by done. pose proof (rnd_pos_pos y Cy). lra.
  - rewrite X2, Y0 by done. pose proof (rnd_pos_pos (- x) ltac:(lra)). lra.
  - rewrite X2, Y2 by done. pose proof (rnd_pos_mono (- y) (- x) ltac:(lra) ltac:(lra)). lra.
  - rewrite X2, Y1 by done. pose proof (rnd_pos_pos (- x) ltac:(lra)). pose proof (rnd_pos_pos y Cy). lra.
  - rewrite X1, Y1 by done. by apply rnd_pos_mono.
Qed.

#[export] Instance rnd_proper : Proper (Qeq ==> Qeq) rnd.
Proof. intros x y H. pose proof (rnd_mono x y ltac:(lra)). pose proof (rnd_mono y x ltac:(lra)). lra. Qed.

(** A number with a significand of at most 53 bits is itself. *)
Lemma rnd_pos_exact m e : 0 < m <= 2 ^ 53 -> (rnd_pos (inject_Z m * pow2 e) == inject_Z m * pow2 e)%Q.
Proof.
  intros Hm. set (x := (inject_Z m * pow2 e)%Q).
  assert (0 < x)%Q as Hx by (apply Qmult_lt_0_compat; [unfold Qlt; cbn; lia|apply pow2_pos]). destruct (exponent_spec x Hx) as [E1 E2]. set (k := exponent x) in *.
  assert (x <= pow2 (53 + e))%Q as Hu.
  { rewrite pow2_add. apply Qmult_le_compat_r; [|apply Qlt_le_weak, pow2_pos]. rewrite pow2_int by lia. rewrite <- Zle_Qle. lia. }
  assert (k <= 53 + e) as Hk by (apply Z.nlt_ge; intros H; pose proof (Qpower_lt_compat_l 2 (53 + e) k H ltac:(lra)) as Hlt; fold (pow2 (53 + e)) (pow2 k) in Hlt; lra).
  assert (exists z, x * pow2 (52 - k) == inject_Z z)%Q as [z Hz].
  { destruct (decide (k = 53 + e)) as [->|Hne].
    - exists (2 ^ 52). assert (x == pow2 (53 + e))%Q as -> by lra. rewrite <- pow2_add. replace (53 + e + (52 - (53 + e))) with 52 by lia. by apply pow2_int.
    - exists (m * 2 ^ (e + (52 - k))). unfold x. rewrite <- Qmult_assoc, <- pow2_add, pow2_int by lia. by rewrite inject_Z_mult. }
  unfold rnd_pos. cbv zeta. fold k. rewrite (nearest_eq _ _ Hz), nearest_int, <- Hz, <- Qmult_assoc, (pow2_cancel (52 - k) (k - 52)) by lia. ring.
Qed.

Lemma rnd_exact m e : - 2 ^ 53 <= m <= 2 ^ 53 -> (rnd (inject_Z m * pow2 e) == inject_Z m * pow2 e)%Q.
Proof.
  intros Hm. destruct (rnd_sign (inject_Z m * pow2 e)) as (X0 & X1 & X2). pose proof (pow2_pos e) as Hp.
  assert (forall z, 0 < z -> (0 < inject_Z z * pow2 e)%Q) as Hpos by (intros z Hz; apply Qmult_lt_0_compat; [unfold Qlt; cbn; lia|done]).
  destruct (Z.lt_trichotomy m 0) as [H|[->|H]].
  - assert (- (inject_Z m * pow2 e) == inject_Z (- m) * pow2 e)%Q as E by (rewrite inject_Z_opp; ring). pose proof (Hpos (- m) ltac:(lia)) as Hneg.
    rewrite X2 by lra. pose proof (rnd_pos_exact (- m) e ltac:(lia)) as Hy.
    pose proof (rnd_pos_mono (- (inject_Z m * pow2 e)) (inject_Z (- m) * pow2 e) ltac:(lra) ltac:(lra)).
    pose proof (rnd_pos_mono (inject_Z (- m) * pow2 e) (- (inject_Z m * pow2 e)) ltac:(lra) ltac:(lra)). lra.
  - rewrite X0 by ring. ring.
  - rewrite X1 by (by apply Hpos). apply rnd_pos_exact. lia.
Qed.

Theorem rnd_idem x : (rnd (rnd x) == rnd x)%Q.
Proof.
  destruct (rnd_sign x) as (X0 & X1 & X2). destruct (Qcompare_spec x 0) as [C|C|C].
  - by rewrite X0.
  - rewrite (X2 C). pose proof (scaled_range (- x) ltac:(lra)) as Hs. unfold rnd_pos. cbv zeta. set (m := nearest _) in *. set (e := _ - 52).
    assert (- (inject_Z m * pow2 e) == inject_Z (- m) * pow2 e)%Q as -> by (rewrite inject_Z_opp; ring). apply rnd_exact. lia.
  - rewrite (X1 C). pose proof (scaled_range x C) as Hs. unfold rnd_pos. cbv zeta. apply rnd_exact. lia.
Qed.

Lemma rnd_int z : - 2 ^ 53 <= z <= 2 ^ 53 -> (rnd (inject_Z z) == inject_Z z)%Q.
Proof. intros Hz. pose proof (rnd_exact z 0 Hz) as H. change (pow2 0) with 1%Q in H. by rewrite Qmult_1_r in H. Qed.

(** ** Integers *)

(** Rounding an integer gives an integer. *)
Definition dbl (z : Z) : Z := Qfloor (rnd (inject_Z z)).

Lemma dbl_exact z : - 2 ^ 53 <= z <= 2 ^ 53 -> dbl z = z.
Proof. intros Hz. unfold dbl. rewrite (rnd_int z Hz). apply Qfloor_Z. Qed.

Lemma dbl_mono a b : a <= b -> dbl a <= dbl b.
Proof. intros H. apply Qfloor_resp_le, rnd_mono. by rewrite <- Zle_Qle. Qed.

Lemma dbl_nonneg z : 0 <= z -> 0 <= dbl z.
Proof. intros H. rewrite <- (dbl_exact 0) by lia. by apply dbl_mono. Qed.

End Double.
