(* ===== verification/Date.v ===== *)
(** * The Date functions of ECMAScript

    The calendar of [Date] as ECMA-262 defines it (the proleptic Gregorian
    calendar on milliseconds since 1970), for the integral times the devices
    use: the fields of a time and [Date.UTC]. *)

From S2P Require Import Prelude.

Module Date.

Definition msPerDay : Z := 86400000.

Definition Day (t : Z) : Z := t / msPerDay.
Definition TimeWithinDay (t : Z) : Z := t mod msPerDay.

Definition InLeapYear (y : Z) : bool :=
  (y mod 4 =? 0) && (negb (y mod 100 =? 0) || (y mod 400 =? 0)).
Definition DayFromYear (y : Z) : Z :=
  365 * (y - 1970) + (y - 1969) / 4 - (y - 1901) / 100 + (y - 1601) / 400.

(** The year [y] with [DayFromYear y <= d < DayFromYear (y + 1)]. *)
Definition YearFromDay (d : Z) : Z :=
  let y := 1970 + d * 400 / 146097 in
  if d <? DayFromYear y then y - 1 else if DayFromYear (y + 1) <=? d then y + 1 else y.

(** The days of the year before each month. *)
Definition month_starts (leap : Z) : list Z :=
  [0; 31; 59 + leap; 90 + leap; 120 + leap; 151 + leap; 181 + leap; 212 + leap; 243 + leap;
   273 + leap; 304 + leap; 334 + leap].

Definition getUTCFullYear (t : Z) : Z := YearFromDay (Day t).
Definition leap_day (t : Z) : Z := b2z (InLeapYear (getUTCFullYear t)).
Definition DayWithinYear (t : Z) : Z := Day t - DayFromYear (getUTCFullYear t).
Definition getUTCMonth (t : Z) : Z :=
  Z.of_nat (length (filter (fun s => s <= DayWithinYear t) (month_starts (leap_day t)))) - 1.
Definition getUTCDate (t : Z) : Z :=
  DayWithinYear t - arr_get (month_starts (leap_day t)) (getUTCMonth t) + 1.
Definition getUTCDay (t : Z) : Z := (Day t + 4) mod 7.
Definition getUTCHours (t : Z) : Z := TimeWithinDay t / 3600000.
Definition getUTCMinutes (t : Z) : Z := TimeWithinDay t / 60000 mod 60.
Definition getUTCSeconds (t : Z) : Z := TimeWithinDay t / 1000 mod 60.

Definition MakeDay (year month date : Z) : Z :=
  let ym := year + month / 12 in
  DayFromYear ym + arr_get (month_starts (b2z (InLeapYear ym))) (month mod 12) + date - 1.

(** [Date.UTC]; the years 0 to 99 mean those of the 20th century. *)
Definition UTC (year month date hours minutes seconds : Z) : Z :=
  let yr := if (0 <=? year) && (year <=? 99) then 1900 + year else year in
  MakeDay yr month date * msPerDay + hours * 3600000 + minutes * 60000 + seconds * 1000.

(** ** The fields determine the time *)

Lemma year_days y : DayFromYear (y + 1) - DayFromYear y = 365 + b2z (InLeapYear y).
Proof.
  unfold DayFromYear, InLeapYear.
  assert ((y + 1 - 1969) / 4 = (y - 1969) / 4 + b2z (y mod 4 =? 0)) as ->.
  { destruct (Z.eqb_spec (y mod 4) 0); cbn; Z.to_euclidean_division_equations; lia. }
  assert ((y + 1 - 1901) / 100 = (y - 1901) / 100 + b2z (y mod 100 =? 0)) as ->.
  { destruct (Z.eqb_spec (y mod 100) 0); cbn; Z.to_euclidean_division_equations; lia. }
  assert ((y + 1 - 1601) / 400 = (y - 1601) / 400 + b2z (y mod 400 =? 0)) as ->.
  { destruct (Z.eqb_spec (y mod 400) 0); cbn; Z.to_euclidean_division_equations; lia. }
  destruct (Z.eqb_spec (y mod 4) 0), (Z.eqb_spec (y mod 100) 0), (Z.eqb_spec (y mod 400) 0); cbn; try lia.
  all: exfalso; Z.to_euclidean_division_equations; lia.
Qed.

Lemma year_from_day d : DayFromYear (YearFromDay d) <= d < DayFromYear (YearFromDay d + 1).
Proof.
  unfold YearFromDay. set (y := 1970 + d * 400 / 146097).
  assert (DayFromYear (y - 1) <= d < DayFromYear (y + 2)) as H.
  { unfold y, DayFromYear. Z.to_euclidean_division_equations. lia. }
  destruct (Z.ltb_spec d (DayFromYear y)); [replace (y - 1 + 1) with y by lia; lia|].
  destruct (Z.leb_spec (DayFromYear (y + 1)) d); [replace (y + 1 + 1) with (y + 2) by lia; lia|lia].
Qed.

Lemma day_within_year t : 0 <= DayWithinYear t < 365 + leap_day t.
Proof.
  unfold DayWithinYear, leap_day, getUTCFullYear. pose proof (year_from_day (Day t)).
  pose proof (year_days (YearFromDay (Day t))). lia.
Qed.

(** Every day of both kinds of years has a month and a day of the month. *)
Definition month_ok (leap d : Z) : bool :=
  let m := Z.of_nat (length (filter (fun s => s <= d) (month_starts leap))) - 1 in
  let date := d - arr_get (month_starts leap) m + 1 in
  (0 <=? m) && (m <=? 11) && (1 <=? date) && (date <=? 31).

Lemma month_ok_all leap d : (leap = 0 \/ leap = 1) -> 0 <= d < 365 + leap -> month_ok leap d = true.
Proof.
  intros Hl Hd.
  assert (forallb (month_ok 0) (seqZ 0 365) && forallb (month_ok 1) (seqZ 0 366) = true) as H
    by (vm_compute; reflexivity).
  apply andb_true_iff in H as [H0 H1]. rewrite forallb_forall in H0, H1.
  destruct Hl as [-> | ->]; [apply H0|apply H1]; apply list_elem_of_In, elem_of_seqZ; lia.
Qed.

Lemma month_date_range t : 0 <= getUTCMonth t <= 11 /\ 1 <= getUTCDate t <= 31.
Proof.
  assert (month_ok (leap_day t) (DayWithinYear t) = true) as H.
  { apply month_ok_all; [unfold leap_day; destruct (InLeapYear _); auto|apply day_within_year]. }
  unfold month_ok in H. fold (getUTCMonth t) in H. fold (getUTCDate t) in H.
  rewrite !andb_true_iff, !Z.leb_le in H. lia.
Qed.

Lemma time_fields_range t :
  0 <= getUTCHours t < 24 /\ 0 <= getUTCMinutes t < 60 /\ 0 <= getUTCSeconds t < 60
  /\ 0 <= getUTCDay t < 7.
Proof.
  unfold getUTCHours, getUTCMinutes, getUTCSeconds, getUTCDay, TimeWithinDay, msPerDay.
  Z.to_euclidean_division_equations. lia.
Qed.

Lemma make_day_fields t : MakeDay (getUTCFullYear t) (getUTCMonth t) (getUTCDate t) = Day t.
Proof.
  unfold MakeDay. pose proof (month_date_range t) as [Hm _].
  rewrite Z.div_small, Z.mod_small, Z.add_0_r by lia. fold (leap_day t).
  unfold getUTCDate, DayWithinYear. lia.
Qed.

(** A time of the day of [t]. *)
Lemma utc_same_day t hours minutes seconds :
  100 <= getUTCFullYear t ->
  UTC (getUTCFullYear t) (getUTCMonth t) (getUTCDate t) hours minutes seconds
  = t - TimeWithinDay t + (hours * 3600000 + minutes * 60000 + seconds * 1000).
Proof.
  intros Hy. unfold UTC. rewrite (proj2 (Z.leb_gt (getUTCFullYear t) 99)) by lia. rewrite andb_false_r.
  rewrite make_day_fields. unfold Day, TimeWithinDay. pose proof (Z.div_mod t msPerDay ltac:(done)). lia.
Qed.

(** The year, month, day, hours, minutes and seconds of a time are those [Date.UTC]
    makes the time of, up to its milliseconds. *)
Lemma utc_fields t :
  100 <= getUTCFullYear t ->
  UTC (getUTCFullYear t) (getUTCMonth t) (getUTCDate t) (getUTCHours t) (getUTCMinutes t) (getUTCSeconds t)
  = t / 1000 * 1000.
Proof.
  intros Hy. rewrite utc_same_day by done.
  unfold getUTCHours, getUTCMinutes, getUTCSeconds, TimeWithinDay, msPerDay.
  Z.to_euclidean_division_equations. lia.
Qed.

End Date.
