(* ===== verification/Lib.v ===== *)
(** * src/lib.js: the data structures the devices share

    [ByteQueue] (the PS/2 controller's buffers), [FloatQueue] (the sound
    card's), [CircularQueue], [Bitmap] and the integer logarithms.  The queues
    are ring buffers over a typed array; each is related to the list of the
    items it holds. *)

From S2P Require Import Prelude.

Set Default Goal Selector "!".

(** Ring positions: the source masks with [size - 1], [size] a power of two. *)
Definition ring_size (size : Z) : Prop := exists k, 0 <= k < 31 /\ size = 2 ^ k.

Lemma ring_pos size : ring_size size -> 0 < size.
Proof. intros (k & ? & ->). lia. Qed.

Lemma ring_mask size x : ring_size size -> x .& (size - 1) = x mod size.
Proof. intros (k & ? & ->). apply land_ones_mod. lia. Qed.

Lemma mod_succ_ne a b n : 0 <= a < n -> 0 <= b < n -> a <> b -> (a + 1) mod n <> (b + 1) mod n.
Proof.
  intros. destruct (Z.eq_dec (a + 1) n) as [Ha|], (Z.eq_dec (b + 1) n) as [Hb|].
  - lia.
  - rewrite Ha, Z.mod_same, (Z.mod_small (b + 1)) by lia. lia.
  - rewrite Hb, Z.mod_same, (Z.mod_small (a + 1)) by lia. lia.
  - rewrite !Z.mod_small by lia. lia.
Qed.

(** The items at ring positions [start], [start + 1], ... *)
Definition ring_slot (size start : Z) (i : nat) : nat :=
  Z.to_nat ((start + Z.of_nat i) mod size).

Section ring.
Context {A : Type} (size : Z) (Hsize : 0 < size).
Implicit Types (data : list A) (start : Z) (n i : nat).

Definition ring_items data start n : list A :=
  omap (fun i => data !! ring_slot size start i) (seq 0 n).

Lemma ring_slot_lt start i : (ring_slot size start i < Z.to_nat size)%nat.
Proof.
  unfold ring_slot. pose proof (Z.mod_pos_bound (start + Z.of_nat i) size Hsize). lia.
Qed.

Lemma ring_slot_succ start i :
  ring_slot size ((start + 1) mod size) i = ring_slot size start (S i).
Proof.
  unfold ring_slot. f_equal. rewrite Zplus_mod_idemp_l. f_equal. lia.
Qed.

Lemma ring_slot_inj start i j :
  (i < Z.to_nat size)%nat -> (j < Z.to_nat size)%nat ->
  ring_slot size start i = ring_slot size start j -> i = j.
Proof.
  intros Hi Hj H. unfold ring_slot in H.
  pose proof (Z.mod_pos_bound (start + Z.of_nat i) size Hsize).
  pose proof (Z.mod_pos_bound (start + Z.of_nat j) size Hsize).
  assert ((start + Z.of_nat i) mod size = (start + Z.of_nat j) mod size) as E by lia.
  pose proof (Z.div_mod (start + Z.of_nat i) size ltac:(lia)).
  pose proof (Z.div_mod (start + Z.of_nat j) size ltac:(lia)).
  set (q1 := (start + Z.of_nat i) / size) in *. set (q2 := (start + Z.of_nat j) / size) in *.
  assert (q1 = q2) by nia. nia.
Qed.

Lemma omap_seq_ext {B} (f g : nat -> option B) a n :
  (forall i, (a <= i < a + n)%nat -> f i = g i) -> omap f (seq a n) = omap g (seq a n).
Proof.
  revert a. induction n as [|n IH]; intros a H; [done|]. cbn.
  rewrite (H a) by lia. rewrite IH; [done|]. intros. apply H. lia.
Qed.

Lemma omap_seq_shift {B} (f : nat -> option B) a n :
  omap f (seq (S a) n) = omap (fun i => f (S i)) (seq a n).
Proof. revert a. induction n as [|n IH]; intros a; [done|]. cbn. by rewrite IH. Qed.

Lemma ring_items_S data start n :
  ring_items data start (S n)
  = omap (fun i => data !! ring_slot size start i) [0%nat]
    ++ ring_items data ((start + 1) mod size) n.
Proof.
  unfold ring_items. cbn [seq].
  change (0%nat :: seq 1 n) with ([0%nat] ++ seq 1 n). rewrite omap_app. f_equal.
  rewrite omap_seq_shift. apply omap_seq_ext. intros. by rewrite ring_slot_succ.
Qed.

Lemma ring_items_snoc data start n :
  ring_items data start (S n)
  = ring_items data start n ++ omap (fun i => data !! ring_slot size start i) [n].
Proof. unfold ring_items. by rewrite seq_S, omap_app. Qed.

Lemma ring_items_insert_out data start n k x :
  (forall i, (i < n)%nat -> ring_slot size start i <> k) ->
  ring_items (<[k := x]> data) start n = ring_items data start n.
Proof.
  intros H. apply omap_seq_ext. intros i Hi. rewrite list_lookup_insert_ne; [done|].
  intros ->. by apply (H i); [lia|].
Qed.

Context (data : list A) (Hdata : length data = Z.to_nat size).

Lemma ring_items_length start n : length (ring_items data start n) = n.
Proof.
  induction n as [|n IH]; [done|]. rewrite ring_items_snoc, length_app, IH. cbn.
  destruct (lookup_lt_is_Some_2 data (ring_slot size start n)) as [x ->].
  - rewrite Hdata. apply ring_slot_lt.
  - cbn. lia.
Qed.

(** Writing the slot after the last item appends to the items. *)
Lemma ring_items_push start n x :
  (n < Z.to_nat size)%nat ->
  ring_items (<[ring_slot size start n := x]> data) start (S n)
  = ring_items data start n ++ [x].
Proof.
  intros Hn. rewrite ring_items_snoc, ring_items_insert_out.
  - f_equal. cbn. rewrite list_lookup_insert_eq; [done|]. rewrite Hdata. apply ring_slot_lt.
  - intros i Hi E. apply ring_slot_inj in E; lia.
Qed.

(** The first item. *)
Lemma ring_items_head start n x :
  data !! ring_slot size start 0 = Some x ->
  ring_items data start (S n) = x :: ring_items data ((start + 1) mod size) n.
Proof. intros H. rewrite ring_items_S. cbn. by rewrite H. Qed.
End ring.

(** ** ByteQueue *)

Module ByteQueue.

Record t := mk {
  size : Z;
  data : list Z;
  start : Z;
  end_ : Z;
  length : Z
}.

Definition clear (q : t) : t := q <| start := 0 |> <| end_ := 0 |> <| length := 0 |>.

Definition create (size : Z) : t := clear (mk size (replicate (Z.to_nat size) 0) 0 0 0).

Definition push (q : t) (item : Z) : t :=
  let q := if length q =? size q then q else q <| length := length q + 1 |> in
  q <| data := arr_set (data q) (end_ q) (u8 item) |>
    <| end_ := (end_ q + 1) .& (size q - 1) |>.

Definition shift (q : t) : Z * t :=
  if length q =? 0 then (-1, q)
  else
    let item := arr_get (data q) (start q) in
    (item, q <| start := (start q + 1) .& (size q - 1) |> <| length := length q - 1 |>).

Definition peek (q : t) : Z :=
  if length q =? 0 then -1 else arr_get (data q) (start q).

(** The bytes the queue will hand out, in order. *)
Definition contents (q : t) : list Z :=
  ring_items (size q) (data q) (start q) (Z.to_nat (length q)).

(** Shape of a queue, kept by every operation. *)
Record wf (q : t) : Prop := {
  wf_size : ring_size (size q);
  wf_data : List.length (data q) = Z.to_nat (size q);
  wf_bytes : Forall byte (data q);
  wf_start : 0 <= start q < size q;
  wf_end : 0 <= end_ q < size q;
  wf_length : 0 <= length q <= size q
}.

(** The write position is the slot after the last byte (true until the queue
    overflows). *)
Definition aligned (q : t) : Prop := end_ q = (start q + length q) mod size q.

Lemma bq_wf_pos q : wf q -> 0 < size q.
Proof. intros []. by apply ring_pos. Qed.

Lemma bq_create_wf n : ring_size n -> wf (create n) /\ aligned (create n) /\ contents (create n) = [].
Proof.
  intros H. pose proof (ring_pos n H). split_and!; [|done|done].
  split; cbn; first [done | lia | by rewrite length_replicate
    | apply Forall_replicate; unfold byte; lia].
Qed.

Lemma clear_wf q : wf q -> wf (clear q).
Proof. intros H. pose proof (bq_wf_pos q H). destruct H. split; cbn; try done; lia. Qed.

Lemma clear_aligned q : aligned (clear q).
Proof. unfold aligned. cbn. by destruct (size q). Qed.

Lemma clear_contents q : contents (clear q) = [].
Proof. done. Qed.

Lemma contents_length q : wf q -> Z.of_nat (List.length (contents q)) = length q.
Proof.
  intros H. pose proof (bq_wf_pos q H). destruct H. unfold contents.
  rewrite ring_items_length by done. lia.
Qed.

Lemma bq_push_wf q x : wf q -> wf (push q x).
Proof.
  intros H. pose proof (bq_wf_pos q H). destruct H. unfold push.
  destruct (Z.eqb_spec (length q) (size q)); split; cbn;
    rewrite ?arr_set_length; try done; try lia; try (apply arr_set_Forall; auto using u8_byte);
    rewrite ring_mask by done; by apply Z.mod_pos_bound.
Qed.

Lemma shift_wf q : wf q -> wf (shift q).2.
Proof.
  intros H. pose proof (bq_wf_pos q H). destruct H. unfold shift.
  destruct (Z.eqb_spec (length q) 0); [done|]. split; cbn; try done; try lia.
  rewrite ring_mask by done. by apply Z.mod_pos_bound.
Qed.

Lemma push_nonempty q x : wf q -> length (push q x) <> 0.
Proof.
  intros H. pose proof (bq_wf_pos q H). destruct H. unfold push.
  destruct (Z.eqb_spec (length q) (size q)); cbn; lia.
Qed.

Lemma bq_head_lookup q :
  wf q -> (data q) !! ring_slot (size q) (start q) 0 = Some (arr_get (data q) (start q)).
Proof.
  intros H. destruct H. unfold ring_slot, arr_get. rewrite Z.add_0_r, Z.mod_small by done.
  destruct (lookup_lt_is_Some_2 (data q) (Z.to_nat (start q))) as [x ->]; [lia|done].
Qed.

(** A queue that is not full appends. *)
Lemma bq_push_contents q x :
  wf q -> aligned q -> length q < size q ->
  contents (push q x) = contents q ++ [u8 x] /\ aligned (push q x).
Proof.
  intros H Ha Hl. pose proof (bq_wf_pos q H). destruct H. unfold push, contents, aligned in *.
  destruct (Z.eqb_spec (length q) (size q)); [lia|]. cbn. split.
  - replace (Z.to_nat (length q + 1)) with (S (Z.to_nat (length q))) by lia.
    rewrite <- (ring_items_push (size q) ltac:(lia) (data q)) by (done || lia).
    unfold arr_set, ring_slot. by rewrite Z2Nat.id, <- Ha by lia.
  - rewrite ring_mask by done. rewrite Ha, Zplus_mod_idemp_l. f_equal. lia.
Qed.

(** [shift] hands out the first byte. *)
Lemma bq_shift_contents q :
  wf q ->
  match contents q with
  | [] => shift q = (-1, q)
  | x :: l => (shift q).1 = x /\ contents (shift q).2 = l
  end.
Proof.
  intros H. pose proof (bq_wf_pos q H) as Hp. pose proof (bq_head_lookup q H) as Hh. destruct H.
  unfold shift, contents. destruct (Z.eqb_spec (length q) 0) as [E|].
  - by rewrite E.
  - replace (Z.to_nat (length q)) with (S (Z.to_nat (length q - 1))) by lia.
    rewrite (ring_items_head _ _ _ _ _ Hh). cbn. by rewrite ring_mask.
Qed.

Lemma shift_aligned q : wf q -> aligned q -> aligned (shift q).2.
Proof.
  intros H Ha. pose proof (bq_wf_pos q H). destruct H. unfold shift, aligned in *.
  destruct (Z.eqb_spec (length q) 0); [done|]. cbn.
  rewrite Ha, ring_mask, Zplus_mod_idemp_l by done. f_equal. lia.
Qed.

Lemma shift_byte q : wf q -> length q <> 0 -> byte (shift q).1.
Proof.
  intros H Hl. unfold shift. destruct (Z.eqb_spec (length q) 0); [done|]. cbn.
  apply arr_get_Forall; [unfold byte; lia|by destruct H].
Qed.

(** On a queue that is not full, [push] and [shift] are those of a FIFO:
    the bytes come out in the order they went in, and [length] counts them. *)
Theorem byte_queue_fifo q x :
  wf q -> aligned q -> length q < size q ->
  contents (push q x) = contents q ++ [u8 x]
  /\ length (push q x) = length q + 1
  /\ peek (push q x) = hd (-1) (contents q ++ [u8 x])
  /\ (shift (push q x)).1 = hd (-1) (contents q ++ [u8 x])
  /\ contents (shift (push q x)).2 = tl (contents q ++ [u8 x])
  /\ wf (push q x) /\ aligned (push q x).
Proof.
  intros H Ha Hl. destruct (bq_push_contents q x H Ha Hl) as [Hc Ha'].
  pose proof (bq_push_wf q x H) as Hw. pose proof (bq_shift_contents _ Hw) as Hs.
  assert (length (push q x) = length q + 1) as Hlen.
  { rewrite <- !contents_length, Hc, length_app by done. cbn. lia. }
  rewrite Hc in Hs. split_and!; try done.
  - assert (peek (push q x) = (shift (push q x)).1) as ->.
    { unfold peek, shift. by destruct (length (push q x) =? 0). }
    by destruct (contents q); cbn in *; destruct Hs.
  - by destruct (contents q); cbn in *; destruct Hs.
  - by destruct (contents q); cbn in *; destruct Hs.
Qed.

Lemma byte_queue_fifo_witness :
  let q := push (push (create 4) 7) 300 in
  wf q /\ aligned q /\ length q < size q /\ contents (push q 9) = [7; 44; 9].
Proof.
  assert (wf (push (push (create 4) 7) 300)) as H.
  { apply bq_push_wf, bq_push_wf, bq_create_wf. exists 2. lia. }
  split_and!; [exact H|vm_compute; reflexivity|vm_compute; reflexivity|].
  exact (proj1 (byte_queue_fifo _ 9 H eq_refl eq_refl)).
Defined.

(** [push] on a full queue overwrites the oldest byte in place, so the
    newest byte is the next one handed out and the rest of the order stays. *)
Theorem byte_queue_overflow q x :
  wf q -> aligned q -> length q = size q ->
  contents (push q x) = u8 x :: tl (contents q) /\ (shift (push q x)).1 = u8 x.
Proof.
  intros H Ha Hl. pose proof (bq_wf_pos q H) as Hp. pose proof (bq_push_wf q x H) as Hw.
  assert (contents (push q x) = u8 x :: tl (contents q)) as Hc.
  { pose proof (bq_head_lookup q H) as Hh. destruct H. unfold push, contents, aligned in *.
    rewrite Hl in *. rewrite Z.eqb_refl. cbn. rewrite Hl.
    replace (start q + size q) with (start q + 1 * size q) in Ha by lia.
    rewrite Z.mod_add, Z.mod_small in Ha by lia. rewrite Ha.
    replace (Z.to_nat (size q)) with (S (Z.to_nat (size q - 1))) by lia.
    rewrite (ring_items_head _ _ _ _ _ Hh).
    rewrite (ring_items_head _ _ _ _ (u8 x)).
    - cbn. f_equal. unfold arr_set. apply ring_items_insert_out. intros i Hi E.
      rewrite ring_slot_succ in E.
      replace (Z.to_nat (start q)) with (ring_slot (size q) (start q) 0) in E
        by (unfold ring_slot; rewrite Z.add_0_r, Z.mod_small by lia; done).
      apply ring_slot_inj in E; lia.
    - unfold ring_slot, arr_set. rewrite Z.add_0_r, Z.mod_small by lia.
      apply list_lookup_insert_eq. lia. }
  split; [done|]. pose proof (bq_shift_contents _ Hw) as Hs. rewrite Hc in Hs. by destruct Hs.
Qed.

Lemma byte_queue_overflow_witness :
  let q := push (push (create 2) 1) 2 in
  wf q /\ aligned q /\ length q = size q /\ contents (push q 3) = [3; 2].
Proof.
  assert (wf (push (push (create 2) 1) 2)) as H.
  { apply bq_push_wf, bq_push_wf, bq_create_wf. exists 1. lia. }
  split_and!; [exact H|vm_compute; reflexivity|vm_compute; reflexivity|].
  exact (proj1 (byte_queue_overflow _ 3 H eq_refl eq_refl)).
Defined.

End ByteQueue.

(** ** FloatQueue *)

Module FloatQueue.

Section float_queue.
(** The element type, the rounding of a store into a Float32Array
    ([Math.fround]) and the zero a new Float32Array is filled with. *)
Context {A : Type} (fround : A -> A) (zero : A).

Record t := mk {
  size : Z;
  data : list A;
  start : Z;
  end_ : Z;
  length : Z
}.

Definition create (size : Z) : t := mk size (replicate (Z.to_nat size) zero) 0 0 0.

Definition push (q : t) (item : A) : t :=
  let q :=
    if length q =? size q then q <| start := (start q + 1) .& (size q - 1) |>
    else q <| length := length q + 1 |> in
  q <| data := <[Z.to_nat (end_ q) := fround item]> (data q) |>
    <| end_ := (end_ q + 1) .& (size q - 1) |>.

Definition shift (q : t) : option A * t :=
  if length q =? 0 then (None, q)
  else
    (data q !! Z.to_nat (start q),
     q <| start := (start q + 1) .& (size q - 1) |> <| length := length q - 1 |>).

(** [subarray(from, to)], clamped to the array. *)
Definition subarray (l : list A) (from to : Z) : list A :=
  take (Z.to_nat to - Z.to_nat from) (drop (Z.to_nat from) l).

(** [slice.set(src, offset)] on a slice that is long enough. *)
Definition set_at (slice src : list A) (offset : nat) : list A :=
  take offset slice ++ src ++ drop (offset + List.length src) slice.

Definition shift_block (q : t) (count : nat) : list A * t :=
  let slice := replicate count zero in
  let count := if length q <? Z.of_nat count then length q else Z.of_nat count in
  let slice_end := start q + count in
  let partial := subarray (data q) (start q) slice_end in
  let slice := set_at slice partial 0 in
  let '(slice, slice_end) :=
    if size q <=? slice_end then
      let slice_end := slice_end - size q in
      (set_at slice (subarray (data q) 0 slice_end) (List.length partial), slice_end)
    else (slice, slice_end) in
  (slice, q <| start := slice_end |> <| length := length q - count |>).

Definition peek (q : t) : option A :=
  if length q =? 0 then None else data q !! Z.to_nat (start q).

Definition clear (q : t) : t := q <| start := 0 |> <| end_ := 0 |> <| length := 0 |>.

(** The samples the queue holds, oldest first. *)
Definition contents (q : t) : list A :=
  ring_items (size q) (data q) (start q) (Z.to_nat (length q)).

Record wf (q : t) : Prop := {
  wf_size : ring_size (size q);
  wf_data : List.length (data q) = Z.to_nat (size q);
  wf_start : 0 <= start q < size q;
  wf_length : 0 <= length q <= size q;
  wf_end : end_ q = (start q + length q) mod size q
}.

Lemma fq_wf_pos q : wf q -> 0 < size q.
Proof. intros []. by apply ring_pos. Qed.

Lemma fq_create_wf n : ring_size n -> wf (create n).
Proof.
  intros H. pose proof (ring_pos n H).
  split; cbn; first [done | lia | by rewrite length_replicate].
Qed.

Lemma fq_push_wf q x : wf q -> wf (push q x).
Proof.
  intros H. pose proof (fq_wf_pos q H) as Hp. destruct H. unfold push.
  assert (forall x, 0 <= x mod size q < size q) by (intros; by apply Z.mod_pos_bound).
  destruct (Z.eqb_spec (length q) (size q)) as [E|]; split; cbn;
    rewrite ?length_insert, ?ring_mask by done; try done; try lia.
  - rewrite wf_end0, E, !Zplus_mod_idemp_l. f_equal. lia.
  - rewrite wf_end0, !Zplus_mod_idemp_l. f_equal. lia.
Qed.

Lemma fq_head_lookup q :
  wf q -> exists x, data q !! ring_slot (size q) (start q) 0 = Some x
                 /\ data q !! Z.to_nat (start q) = Some x.
Proof.
  intros []. destruct (lookup_lt_is_Some_2 (data q) (Z.to_nat (start q))) as [x Hx]; [lia|].
  exists x. split; [|done]. unfold ring_slot. by rewrite Z.add_0_r, Z.mod_small by done.
Qed.

Lemma end_slot q :
  wf q -> Z.to_nat (end_ q) = ring_slot (size q) (start q) (Z.to_nat (length q)).
Proof. intros []. unfold ring_slot. by rewrite Z2Nat.id, wf_end0 by lia. Qed.

Lemma fq_push_contents q x :
  wf q ->
  contents (push q x)
  = (if length q =? size q then tl (contents q) else contents q) ++ [fround x].
Proof.
  intros H. pose proof (fq_wf_pos q H) as Hp. pose proof (end_slot q H) as He.
  destruct (fq_head_lookup q H) as (h & Hh & _). destruct H. unfold push, contents.
  destruct (Z.eqb_spec (length q) (size q)) as [E|]; cbn.
  - replace (Z.to_nat (length q)) with (S (Z.to_nat (length q - 1))) in * by lia.
    rewrite (ring_items_head _ _ _ _ _ Hh), ring_mask, He by done. cbn [tl].
    rewrite <- ring_slot_succ. by rewrite ring_items_push by (done || lia).
  - replace (Z.to_nat (length q + 1)) with (S (Z.to_nat (length q))) by lia.
    rewrite He. by rewrite ring_items_push by (done || lia).
Qed.

Lemma fq_shift_contents q :
  wf q -> wf (shift q).2 /\ (shift q).1 = head (contents q) /\ contents (shift q).2 = tl (contents q).
Proof.
  intros H. pose proof (fq_wf_pos q H) as Hp. destruct (fq_head_lookup q H) as (h & Hh & Hh').
  pose proof H as H0. destruct H0. unfold shift, contents.
  assert (forall x, 0 <= x mod size q < size q) by (intros; by apply Z.mod_pos_bound).
  destruct (Z.eqb_spec (length q) 0) as [E|].
  - cbn. by rewrite E.
  - split.
    + split; cbn; rewrite ?ring_mask by done; try done; try lia.
      rewrite wf_end0, Zplus_mod_idemp_l. f_equal. lia.
    + cbn. replace (Z.to_nat (length q)) with (S (Z.to_nat (length q - 1))) by lia.
      rewrite (ring_items_head _ _ _ _ _ Hh), ring_mask by done. by rewrite Hh'.
Qed.

(** Items at consecutive positions that do not wrap are a slice of the array. *)
Lemma ring_items_slice (l : list A) sz st n :
  0 < sz -> List.length l = Z.to_nat sz -> 0 <= st -> st + Z.of_nat n <= sz ->
  ring_items sz l st n = take n (drop (Z.to_nat st) l).
Proof.
  intros Hp Hl Hst Hn. induction n as [|n IH]; [done|].
  rewrite ring_items_snoc, IH by lia.
  destruct (lookup_lt_is_Some_2 l (Z.to_nat st + n)) as [x Hx]; [lia|].
  rewrite (take_S_r _ n x) by (by rewrite lookup_drop). f_equal. cbn.
  unfold ring_slot. rewrite Z.mod_small by lia.
  replace (Z.to_nat (st + Z.of_nat n)) with (Z.to_nat st + n)%nat by lia. by rewrite Hx.
Qed.

Lemma ring_items_split (l : list A) sz st n m :
  0 < sz ->
  ring_items sz l st (n + m) = ring_items sz l st n ++ ring_items sz l ((st + Z.of_nat n) mod sz) m.
Proof.
  intros Hp. unfold ring_items. rewrite seq_app, omap_app. f_equal. cbn.
  revert st. induction n as [|n IH]; intros st.
  - apply omap_seq_ext. intros i _. unfold ring_slot. rewrite Zplus_mod_idemp_l.
    by rewrite Z.add_0_r.
  - rewrite omap_seq_shift. erewrite (omap_seq_ext _ (fun i => l !! ring_slot sz ((st + 1) mod sz) i)).
    + rewrite IH. apply omap_seq_ext. intros i _. unfold ring_slot.
      rewrite !Zplus_mod_idemp_l, <- !Z.add_assoc, Zplus_mod_idemp_l.
      by replace (st + (Z.of_nat (S n) + Z.of_nat i)) with (st + 1 + (Z.of_nat n + Z.of_nat i)) by lia.
    + intros i _. by rewrite ring_slot_succ.
Qed.

Lemma set_at_prefix (n : nat) (src : list A) (off : nat) pre :
  (off + List.length src <= n)%nat -> List.length pre = off ->
  set_at (pre ++ replicate (n - off) zero) src off
  = (pre ++ src) ++ replicate (n - (off + List.length src)) zero.
Proof.
  intros H <-. unfold set_at. rewrite take_app_length, <- app_assoc. do 2 f_equal.
  rewrite <- drop_drop, drop_app_length, drop_replicate. f_equal. lia.
Qed.

Lemma set_at_zero (n : nat) (src : list A) :
  (List.length src <= n)%nat ->
  set_at (replicate n zero) src 0 = src ++ replicate (n - List.length src) zero.
Proof.
  intros H. pose proof (set_at_prefix n src 0 []) as E. rewrite Nat.sub_0_r in E.
  apply E; done.
Qed.

(** The part before the end of the array, and the part from its beginning. *)
Lemma block_split q c :
  wf q -> 0 <= c <= length q ->
  let p1 := subarray (data q) (start q) (start q + c) in
  let p2 := subarray (data q) 0 (start q + c - size q) in
  ring_items (size q) (data q) (start q) (Z.to_nat c)
    = p1 ++ (if size q <=? start q + c then p2 else [])
  /\ Z.of_nat (List.length p1) = Z.min c (size q - start q)
  /\ Z.of_nat (List.length p2) = Z.max 0 (start q + c - size q).
Proof.
  intros H Hc. pose proof (fq_wf_pos q H) as Hp. destruct H. cbn. unfold subarray.
  rewrite !length_take, !length_drop, wf_data0. split; [|lia].
  destruct (Z.leb_spec (size q) (start q + c)).
  - replace (Z.to_nat c) with (Z.to_nat (size q - start q) + Z.to_nat (start q + c - size q))%nat by lia.
    rewrite ring_items_split, !ring_items_slice by (done || lia || rewrite Z2Nat.id by lia;
      replace (start q + (size q - start q)) with (0 + 1 * size q) by lia;
      rewrite Z.mod_add, Z.mod_0_l by lia; lia).
    f_equal.
    + by rewrite !take_ge by (rewrite length_drop; lia).
    + rewrite Z2Nat.id by lia. replace (start q + (size q - start q)) with (0 + 1 * size q) by lia.
      rewrite Z.mod_add, Z.mod_0_l by lia. by rewrite Nat.sub_0_r.
  - rewrite app_nil_r, ring_items_slice by (done || lia). f_equal. lia.
Qed.

(** The sound card's sample queue is a bounded FIFO that drops its oldest
    sample when a push finds it full; [shift] takes the oldest sample. *)
Theorem float_queue_refines q x :
  wf q ->
  wf (push q x)
  /\ contents (push q x)
     = (if length q =? size q then tl (contents q) else contents q) ++ [fround x]
  /\ wf (shift q).2 /\ (shift q).1 = head (contents q) /\ (shift q).1 = peek q
  /\ contents (shift q).2 = tl (contents q).
Proof.
  intros H. destruct (fq_shift_contents q H) as (? & ? & ?).
  split_and!; auto using fq_push_wf, fq_push_contents.
  unfold shift, peek. by destruct (length q =? 0).
Qed.

Lemma shift_block_spec q count :
  wf q ->
  let '(slice, q') := shift_block q count in
  slice = take count (contents q) ++ replicate (count - List.length (contents q)) zero
  /\ contents q' = drop count (contents q)
  /\ length q' = Z.max 0 (length q - Z.of_nat count)
  /\ wf q'.
Proof.
  intros H. pose proof (fq_wf_pos q H) as Hp.
  set (c := if length q <? Z.of_nat count then length q else Z.of_nat count).
  assert (c = Z.min (length q) (Z.of_nat count)) as Hc
    by (unfold c; destruct (Z.ltb_spec (length q) (Z.of_nat count)); lia).
  assert (0 <= c <= length q) as Hcl by (destruct H; lia).
  pose proof (block_split q c H Hcl) as Hb. cbn zeta in Hb. destruct Hb as (Hb & L1 & L2).
  assert (contents q = ring_items (size q) (data q) (start q) (Z.to_nat c)
    ++ ring_items (size q) (data q) ((start q + c) mod size q) (Z.to_nat (length q - c))) as Hs.
  { unfold contents. rewrite <- (Z2Nat.id c) at 2 by lia. rewrite <- ring_items_split by done.
    f_equal. lia. }
  set (i1 := ring_items (size q) (data q) (start q) (Z.to_nat c)) in *.
  assert (List.length i1 = Z.to_nat c) as Hi1
    by (apply ring_items_length; [done|by destruct H]).
  assert (List.length (contents q) = Z.to_nat (length q)) as Hlen
    by (apply ring_items_length; [done|by destruct H]).
  assert (take count (contents q) = i1) as Ht.
  { rewrite Hs. destruct (Z.ltb_spec (length q) (Z.of_nat count)).
    - replace (Z.to_nat (length q - c)) with 0%nat by lia. cbn. rewrite app_nil_r.
      apply take_ge. lia.
    - replace count with (List.length i1) by lia. apply take_app_length. }
  assert (drop count (contents q)
    = ring_items (size q) (data q) ((start q + c) mod size q) (Z.to_nat (length q - c))) as Hd.
  { destruct (Z.ltb_spec (length q) (Z.of_nat count)).
    - replace (Z.to_nat (length q - c)) with 0%nat by lia. apply drop_ge. lia.
    - rewrite Hs. replace count with (List.length i1) by lia. apply drop_app_length. }
  rewrite Ht, Hlen. unfold shift_block. fold c.
  assert (forall pre, List.length pre = Z.to_nat c ->
    pre ++ replicate (count - Z.to_nat c) zero
    = pre ++ replicate (count - Z.to_nat (length q)) zero) as Hpad.
  { intros. do 2 f_equal. lia. }
  destruct H. destruct (Z.leb_spec (size q) (start q + c)) as [Hw|Hw].
  - split_and!; cbn.
    + rewrite <- Hpad, Hb by done.
      rewrite set_at_zero, set_at_prefix by lia. f_equal. f_equal. lia.
    + rewrite Hd. unfold contents; cbn. do 2 f_equal.
      apply (Z.mod_unique_pos _ _ 1); lia.
    + lia.
    + split; cbn; try done; try lia. rewrite wf_end0.
      replace (start q + length q) with (start q + c - size q + (length q - c) + 1 * size q) by lia.
      by rewrite Z.mod_add by lia.
  - rewrite app_nil_r in Hb. split_and!; cbn.
    + rewrite <- Hpad by done. rewrite Hb.
      rewrite set_at_zero by lia. f_equal. f_equal. lia.
    + rewrite Hd. unfold contents; cbn. do 2 f_equal. by rewrite Z.mod_small by lia.
    + lia.
    + split; cbn; try done; try lia. rewrite wf_end0. f_equal. lia.
Qed.

(** [shift_block(count)] returns a block of exactly [count] samples, the
    oldest ones of the queue followed by silence, also when they wrap around
    the end of the array, and takes them off the queue. *)
Theorem float_queue_shift_block q count :
  wf q ->
  (shift_block q count).1
    = take count (contents q) ++ replicate (count - List.length (contents q)) zero
  /\ List.length (shift_block q count).1 = count
  /\ contents (shift_block q count).2 = drop count (contents q)
  /\ wf (shift_block q count).2.
Proof.
  intros H. pose proof (shift_block_spec q count H) as Hs.
  destruct (shift_block q count) as [slice q']. destruct Hs as (-> & ? & ? & ?).
  cbn. split_and!; try done. rewrite length_app, length_take, length_replicate. lia.
Qed.

End float_queue.

(** A queue of four samples whose contents wrap around the end of the array. *)
Definition example_queue : t :=
  let q := push id (push id (push id (create 0 4) 1) 2) 3 in
  push id (push id (shift (shift q).2).2 4) 5.

Lemma example_queue_wf : wf example_queue.
Proof.
  unfold example_queue. assert (ring_size 4) by (exists 2; lia).
  repeat first [apply fq_push_wf | apply fq_shift_contents | apply fq_create_wf; done].
Qed.

Lemma float_queue_refines_witness :
  wf example_queue /\ contents (push id example_queue 6) = [3; 4; 5; 6].
Proof.
  split; [exact example_queue_wf|].
  pose proof (float_queue_refines id example_queue 6 example_queue_wf) as H.
  exact (proj1 (proj2 H)).
Defined.

Lemma float_queue_shift_block_witness :
  wf example_queue /\ (shift_block 0 example_queue 5).1 = [3; 4; 5; 0; 0].
Proof.
  split; [exact example_queue_wf|].
  exact (proj1 (float_queue_shift_block 0 example_queue 5 example_queue_wf)).
Defined.

End FloatQueue.

(** ** CircularQueue *)

Module CircularQueue.
Section circular_queue.
Context {A : Type}.

Record t := mk { data : list A; index : nat; size : nat }.

Definition create (size : nat) : t := mk [] 0 size.

(** A store at the length of a JavaScript array extends it. *)
Definition array_store (l : list A) (i : nat) (x : A) : list A :=
  if decide (i < length l)%nat then <[i := x]> l else l ++ [x].

Definition add (q : t) (item : A) : t :=
  q <| data := array_store (data q) (index q) item |>
    <| index := Nat.modulo (index q + 1) (size q) |>.

Definition toArray (q : t) : list A := drop (index q) (data q) ++ take (index q) (data q).

Definition clear (q : t) : t := q <| data := [] |> <| index := 0%nat |>.

Definition set (q : t) (new_data : list A) : t := q <| data := new_data |> <| index := 0%nat |>.

(** The last [n] items of a list. *)
Definition last_n (n : nat) (l : list A) : list A := drop (length l - n) l.

(** The queue's state after items [l]: still filling, or full and rotated. *)
Definition holds (q : t) (l : list A) : Prop :=
  (index q < size q)%nat /\ toArray q = last_n (size q) l /\
  ((length l < size q)%nat /\ data q = l /\ index q = length l
   \/ (size q <= length l)%nat /\ length (data q) = size q).

Lemma drop_succ_tl n (l : list A) : drop (S n) l = tl (drop n l).
Proof. revert l. induction n as [|n IH]; intros [|y l]; try done. apply IH. Qed.

Lemma last_n_snoc n l (x : A) :
  (0 < n)%nat -> (n <= length l)%nat -> last_n n (l ++ [x]) = tl (last_n n l) ++ [x].
Proof.
  intros Hn Hl. unfold last_n. rewrite length_app. cbn [length].
  rewrite drop_app_le by lia. f_equal.
  replace (length l + 1 - n)%nat with (S (length l - n)) by lia. apply drop_succ_tl.
Qed.

Lemma create_holds n : (0 < n)%nat -> holds (create n) [].
Proof. intros. unfold holds, toArray, last_n. cbn. split_and!; [done|done|left; done]. Qed.

Lemma add_filling q l x :
  holds q l -> (length l < size q)%nat -> holds (add q x) (l ++ [x]).
Proof.
  intros (Hi & Ht & [(Hl & Hd & Hx)|]); [intros _|lia].
  unfold holds, add, array_store, toArray, last_n in *; cbn -[Nat.modulo].
  rewrite Hd, Hx, length_app. destruct (decide (length l < length l)%nat); [lia|]. cbn [length].
  replace (length l + 1 - size q)%nat with 0%nat by lia. rewrite drop_0, length_app. cbn [length].
  destruct (decide (length l + 1 = size q)%nat) as [E|].
  - rewrite E, Nat.Div0.mod_same. cbn. rewrite app_nil_r. split_and!; [lia|done|right; lia].
  - rewrite Nat.mod_small by lia. rewrite drop_ge, take_ge by (rewrite length_app; cbn; lia).
    split_and!; [lia|done|left; split_and!; done || lia].
Qed.

Lemma add_full q l x :
  holds q l -> (size q <= length l)%nat -> holds (add q x) (l ++ [x]).
Proof.
  intros (Hi & Ht & [|(Hl & Hd)]); [lia|intros _].
  destruct (lookup_lt_is_Some_2 (data q) (index q)) as [y Hy]; [lia|].
  assert (last_n (size q) (l ++ [x]) = drop (S (index q)) (data q) ++ take (index q) (data q) ++ [x]) as Hn.
  { rewrite last_n_snoc, <- Ht by lia. unfold toArray. rewrite (drop_S _ y) by done. cbn.
    by rewrite app_assoc. }
  unfold holds, add, array_store; cbn -[Nat.modulo].
  destruct (decide (index q < length (data q))%nat); [|lia].
  rewrite Hn, length_insert, length_app. unfold toArray; cbn -[Nat.modulo].
  assert (take (S (index q)) (<[index q:=x]> (data q)) = take (index q) (data q) ++ [x]) as Hk.
  { rewrite (take_S_r _ _ x) by (by apply list_lookup_insert_eq). by rewrite take_insert_ge. }
  destruct (decide (index q + 1 = size q)%nat) as [E|].
  - rewrite E, Nat.Div0.mod_same, drop_0, take_0, app_nil_r, (drop_ge (data q)) by lia.
    cbn [app]. rewrite <- Hk.
    rewrite take_ge by (rewrite length_insert; lia). split_and!; [lia|done|right; lia].
  - rewrite Nat.mod_small by lia. replace (index q + 1)%nat with (S (index q)) by lia.
    rewrite Hk, drop_insert_lt by lia. split_and!; [lia|done|right; lia].
Qed.

(** A circular log of [size] entries returns the last [size] entries that
    were added, oldest first, whatever was added. *)
Theorem circular_queue_last (n : nat) (items : list A) :
  (0 < n)%nat ->
  toArray (foldl add (create n) items) = last_n n items.
Proof.
  intros Hn. assert (forall q l, holds q l -> holds (foldl add q items) (l ++ items)) as H.
  { induction items as [|x items IH]; intros q l H; [by rewrite app_nil_r|].
    cbn. replace (l ++ x :: items) with ((l ++ [x]) ++ items) by (by rewrite <- app_assoc).
    apply IH. destruct (decide (length l < size q)%nat);
      [by apply add_filling | apply add_full; [done|lia]]. }
  assert (forall q, size (foldl add q items) = size q) as Hs.
  { clear. induction items as [|x items IH]; intros q; [done|]. cbn. by rewrite IH. }
  destruct (H _ _ (create_holds n Hn)) as (_ & E & _). by rewrite Hs in E.
Qed.

End circular_queue.
Arguments t : clear implicits.

Lemma circular_queue_last_witness :
  (0 < 3)%nat /\ toArray (foldl add (create 3) [1; 2; 3; 4; 5]) = [3; 4; 5].
Proof. split; [lia|]. exact (circular_queue_last 3 [1; 2; 3; 4; 5] ltac:(lia)). Defined.

End CircularQueue.

(** ** Bitmap *)

Module Bitmap.

Record t := mk { view : list Z }.

(** [new Bitmap(length)] and [new Bitmap(buffer)]. *)
Definition create (length : Z) : t := mk (replicate (Z.to_nat ((length + 7) .>> 3)) 0).
Definition of_buffer (buffer : list Z) : t := mk buffer.

Definition set (b : t) (index : Z) (value : bool) : t :=
  let bit_index := index .& 7 in
  let byte_index := index .>> 3 in
  let bit_mask := 1 .<< bit_index in
  let old := arr_get (view b) byte_index in
  b <| view := arr_set (view b) byte_index
                 (u8 (if value then old .| bit_mask else old .& ~. bit_mask)) |>.

Definition get (b : t) (index : Z) : Z :=
  let bit_index := index .& 7 in
  let byte_index := index .>> 3 in
  arr_get (view b) byte_index .>> bit_index .& 1.

Definition get_buffer (b : t) : list Z := view b.

Lemma bit_index_bound i : 0 <= i .& 7 < 8.
Proof. pose proof (land_nonneg_r i 7). lia. Qed.

Lemma get_testbit b i : get b i = b2z (Z.testbit (arr_get (view b) (i .>> 3)) (i .& 7)).
Proof.
  unfold get. pose proof (bit_index_bound i) as Hb. change 1 with (Z.ones 1).
  rewrite Z.land_ones by lia.
  rewrite <- Z.bit0_mod, Z.shiftr_spec, Z.add_0_l by lia.
  by destruct (Z.testbit _ _).
Qed.

Lemma u8_testbit z i : 0 <= i < 8 -> Z.testbit (u8 z) i = Z.testbit z i.
Proof. intros. unfold u8. apply Z.mod_pow2_bits_low. lia. Qed.

Lemma index_split i : 0 <= i -> i = 8 * (i .>> 3) + (i .& 7) /\ 0 <= i .>> 3.
Proof.
  intros. rewrite Z.shiftr_div_pow2 by lia. change 7 with (Z.ones 3). rewrite Z.land_ones by lia.
  change (2 ^ 3) with 8. split; [apply Z.div_mod; lia|apply Z.div_pos; lia].
Qed.

(** A bitmap is a set of indices: reading an index gives the value last
    stored there, and a store leaves every other index alone. *)
Theorem bitmap_get_set b i j v :
  0 <= i < 8 * Z.of_nat (length (view b)) -> 0 <= j ->
  get (set b i v) j = if decide (i = j) then b2z v else get b j.
Proof.
  intros Hi Hj. destruct (index_split i ltac:(lia)) as [Ei Hi3].
  destruct (index_split j Hj) as [Ej Hj3].
  pose proof (bit_index_bound i). pose proof (bit_index_bound j).
  rewrite !get_testbit. unfold set; cbn.
  destruct (Z.eq_dec (i .>> 3) (j .>> 3)) as [E|Hne].
  - rewrite <- E, arr_get_set_eq, u8_testbit by lia.
    set (old := arr_get (view b) (i .>> 3)).
    replace (1 .<< (i .& 7)) with (2 ^ (i .& 7)) by (rewrite Z.shiftl_mul_pow2; lia).
    destruct (decide (i = j)) as [<-|Hij].
    + destruct v; zbit_specs j; rewrite Z.pow2_bits_true by lia;
        [by rewrite orb_true_r | by rewrite andb_false_r].
    + destruct v; zbit_specs j; rewrite Z.pow2_bits_false by lia;
        [by rewrite orb_false_r | by rewrite andb_true_r].
  - rewrite arr_get_set_ne by done. by rewrite decide_False by (intros ->; done).
Qed.

Lemma bitmap_get_set_witness :
  (0 <= 9 < 8 * Z.of_nat (length (view (create 12)))) /\ get (set (create 12) 9 true) 9 = 1.
Proof.
  split; [vm_compute; split; [discriminate|reflexivity]|].
  exact (bitmap_get_set (create 12) 9 9 true ltac:(vm_compute; split; [discriminate|reflexivity])
    ltac:(lia)).
Defined.

End Bitmap.

(** ** Integer logarithms *)

(** [Math.clz32]. *)
Definition clz32 (x : Z) : Z := if u32 x =? 0 then 32 else 31 - Z.log2 (u32 x).

(** [int_log2] where the host has [Math.clz32]. *)
Definition int_log2 (x : Z) : Z := 31 - clz32 x.

(** The table of the fallback: [b] starts at -2 and is incremented at every
    [i] with [i & i - 1] zero. *)
Fixpoint int_log2_table_from (n : nat) (i b : Z) : list Z :=
  match n with
  | O => []
  | S n =>
      let b := if i .& (i - 1) =? 0 then b + 1 else b in
      b :: int_log2_table_from n (i + 1) b
  end.
Definition int_log2_table : list Z := int_log2_table_from 256 0 (-2).

(** [int_log2] by table look-up, the fallback of hosts without [clz32]. *)
Definition int_log2_fallback (x : Z) : Z :=
  let x := u32 x in
  let tt := x .>> 16 in
  if negb (tt =? 0) then
    let t := tt .>> 8 in
    if negb (t =? 0) then 24 + arr_get int_log2_table t
    else 16 + arr_get int_log2_table tt
  else
    let t := x .>> 8 in
    if negb (t =? 0) then 8 + arr_get int_log2_table t
    else arr_get int_log2_table x.

Definition round_up_to_next_power_of_2 (x : Z) : Z :=
  if x <=? 1 then 1 else shl32 1 (1 + int_log2 (x - 1)).

Lemma int_log2_table_spec b : byte b -> 0 < b -> arr_get int_log2_table b = Z.log2 b.
Proof.
  intros Hb Hp.
  assert (((b <=? 0) || (arr_get int_log2_table b =? Z.log2 b))%bool = true) as H.
  { clear Hp. byte_cases b Hb. }
  apply orb_true_iff in H as [H|H]; lia.
Qed.

Lemma log2_shiftr_add x n : 0 <= n -> 0 < x .>> n -> Z.log2 x = n + Z.log2 (x .>> n).
Proof.
  intros Hn Hx. assert (0 < x).
  { destruct (Z.ltb_spec 0 x); [done|]. exfalso. apply Z.lt_nge in Hx. apply Hx.
    rewrite Z.shiftr_div_pow2 by lia. apply Z.div_le_upper_bound; lia. }
  rewrite Z.log2_shiftr by done. destruct (Z.max_spec 0 (Z.log2 x - n)) as [[? ->]|[? ->]]; [lia|].
  destruct (Z.eq_dec (Z.log2 x) n) as [|]; [lia|]. exfalso.
  rewrite Z.shiftr_div_pow2, Z.div_small in Hx by (try split; try lia; apply Z.log2_lt_pow2; lia). lia.
Qed.

(** Both implementations of [int_log2] (by [clz32], and by table) compute
    the integer logarithm of every positive uint32. *)
Theorem int_log2_correct x :
  0 < x < 2 ^ 32 -> int_log2 x = Z.log2 x /\ int_log2_fallback x = Z.log2 x.
Proof.
  intros Hx. assert (u32 x = x) as Hu by (apply u32_id; unfold uint32; lia). split.
  - unfold int_log2, clz32. rewrite Hu. destruct (Z.eqb_spec x 0); lia.
  - unfold int_log2_fallback. rewrite Hu. cbn zeta. rewrite Z.shiftr_shiftr by lia.
    change (16 + 8) with 24.
    assert (forall n m, 0 <= n -> 0 <= m -> x < 2 ^ (m + n) -> 0 <= x .>> n < 2 ^ m)
      as Hb by (intros; apply shiftr_bound; lia).
    destruct (Z.eqb_spec (x .>> 16) 0) as [E|E]; cbn [negb].
    + assert (x < 2 ^ 16).
      { rewrite Z.shiftr_div_pow2 in E by lia. apply Z.div_small_iff in E; lia. }
      pose proof (Hb 8 8 ltac:(lia) ltac:(lia) ltac:(lia)).
      destruct (Z.eqb_spec (x .>> 8) 0) as [E'|E']; cbn [negb].
      * apply int_log2_table_spec; [|lia]. unfold byte.
        rewrite Z.shiftr_div_pow2 in E' by lia. apply Z.div_small_iff in E'; lia.
      * rewrite int_log2_table_spec by (unfold byte; lia). symmetry. apply log2_shiftr_add; lia.
    + pose proof (Hb 16 16 ltac:(lia) ltac:(lia) ltac:(lia)).
      pose proof (Hb 24 8 ltac:(lia) ltac:(lia) ltac:(lia)).
      destruct (Z.eqb_spec (x .>> 24) 0) as [E'|E']; cbn [negb].
      * assert (x < 2 ^ 24).
        { rewrite Z.shiftr_div_pow2 in E' by lia. apply Z.div_small_iff in E'; lia. }
        pose proof (Hb 16 8 ltac:(lia) ltac:(lia) ltac:(lia)).
        rewrite int_log2_table_spec by (unfold byte; lia). symmetry. apply log2_shiftr_add; lia.
      * rewrite int_log2_table_spec by (unfold byte; lia). symmetry. apply log2_shiftr_add; lia.
Qed.

Lemma int_log2_correct_witness : 0 < 123456789 < 2 ^ 32 /\ int_log2_fallback 123456789 = 26.
Proof. split; [lia|]. exact (proj2 (int_log2_correct 123456789 ltac:(lia))). Defined.

(** [round_up_to_next_power_of_2] returns the least power of two not below
    its argument, for arguments up to 2^30. *)
Theorem round_up_correct x :
  0 <= x <= 2 ^ 30 ->
  exists k, 0 <= k /\ round_up_to_next_power_of_2 x = 2 ^ k /\ x <= 2 ^ k
    /\ (forall j, 0 <= j -> x <= 2 ^ j -> k <= j).
Proof.
  intros Hx. unfold round_up_to_next_power_of_2.
  destruct (Z.leb_spec x 1) as [H|H].
  - exists 0. split_and!; [lia|done|simpl; lia|lia].
  - assert (int_log2 (x - 1) = Z.log2 (x - 1)) as ->.
    { unfold int_log2, clz32. rewrite u32_id by (unfold uint32; lia).
      destruct (Z.eqb_spec (x - 1) 0); lia. }
    pose proof (Z.log2_spec (x - 1) ltac:(lia)) as Hl.
    assert (Z.log2 (x - 1) < 30) by (apply Z.log2_lt_pow2; lia).
    pose proof (Z.log2_nonneg (x - 1)). exists (1 + Z.log2 (x - 1)).
    assert (2 ^ (1 + Z.log2 (x - 1)) <= 2 ^ 30) by (apply Z.pow_le_mono_r; lia).
    split_and!; [lia| | |].
    + rewrite shl32_exact; rewrite ?Z.shiftl_mul_pow2 by lia; unfold int32; lia.
    + rewrite Z.add_comm. lia.
    + intros j Hj Hxj. assert (Z.log2 (x - 1) < j) by (apply Z.log2_lt_pow2; lia). lia.
Qed.

Lemma round_up_correct_witness :
  0 <= 7 <= 2 ^ 30 /\ exists k, round_up_to_next_power_of_2 7 = 2 ^ k /\ 7 <= 2 ^ k.
Proof.
  split; [lia|]. destruct (round_up_correct 7 ltac:(lia)) as (k & _ & H1 & H2 & _).
  exists k. split; [exact H1|exact H2].
Defined.
