(* ===== verification/Bus.v ===== *)
(** * src/bus.js: the message bus between the machine and the host side

    Two connectors, each with listener arrays by message name; [send] on one
    calls the listeners of the other.  A listener is a function and the value
    it is called on; what it does to the bus while it is called (register,
    unregister, send) is a parameter of the model.  Listener arrays are
    objects: [register] pushes onto the array a running [send] iterates over,
    [unregister] puts a new, filtered array in its place, so the arrays are
    kept in a store and the connectors hold references. *)

From S2P Require Import Prelude.

Set Default Goal Selector "!".

Module Bus.

(** A function object and the [this] it is called with, by identity. *)
Record listener := mk_listener { fn : Z; this_value : Z }.
#[export] Instance listener_eq_dec : EqDecision listener.
Proof. solve_decision. Defined.

(** The two ends of [Bus.create]. *)
Inductive side := Conn0 | Conn1.
#[export] Instance side_eq_dec : EqDecision side.
Proof. solve_decision. Defined.
Definition pair (c : side) : side := match c with Conn0 => Conn1 | Conn1 => Conn0 end.

(** What a callback does to the bus. *)
Inductive action :=
| ARegister (c : side) (name : string) (l : listener)
| AUnregister (c : side) (name : string) (f : Z)
| ASend (c : side) (name : string) (value : payload).

Record world := mk_world {
  arrays : list (list listener);
  listeners0 : gmap string nat;
  listeners1 : gmap string nat;
  calls : list (listener * payload);
  timeouts : list (side * string * payload)
}.

Definition create : world := mk_world [] ∅ ∅ [] [].

Definition listeners (w : world) (c : side) : gmap string nat :=
  match c with Conn0 => listeners0 w | Conn1 => listeners1 w end.
Definition set_listeners (w : world) (c : side) (m : gmap string nat) : world :=
  match c with Conn0 => w <| listeners0 := m |> | Conn1 => w <| listeners1 := m |> end.

Definition array (w : world) (r : nat) : list listener := default [] (arrays w !! r).

(** [listeners[name] = a new array]. *)
Definition new_array (w : world) (c : side) (name : string) (l : list listener) : world :=
  set_listeners (w <| arrays := arrays w ++ [l] |>) c (<[name := length (arrays w)]> (listeners w c)).

Definition register (w : world) (c : side) (name : string) (l : listener) : world :=
  let w := match listeners w c !! name with
           | None => new_array w c name []
           | Some _ => w
           end in
  match listeners w c !! name with
  | Some r => w <| arrays := <[r := array w r ++ [l]]> (arrays w) |>
  | None => w
  end.

Definition unregister (w : world) (c : side) (name : string) (f : Z) : world :=
  match listeners w c !! name with
  | None => w
  | Some r => new_array w c name (filter (fun l => fn l <> f) (array w r))
  end.

(** [setTimeout(this.send.bind(this, name, value), 0)]. *)
Definition send_async (w : world) (c : side) (name : string) (value : payload) : world :=
  w <| timeouts := timeouts w ++ [(c, name, value)] |>.

Section send.
(** What the callbacks do when they are called with a value. *)
Context (body : listener -> payload -> list action).

(** [send]: the loop over the (live) array of the other connector.  Callbacks
    may send in turn and may grow the array, so the recursion is bounded by
    fuel; [None] is a send that did not return within it. *)
Fixpoint run_actions (fuel : nat) (w : world) (l : list action) : option world :=
  match fuel with
  | O => None
  | S fuel =>
      match l with
      | [] => Some w
      | a :: l =>
          match (match a with
                 | ARegister c name x => Some (register w c name x)
                 | AUnregister c name f => Some (unregister w c name f)
                 | ASend c name v =>
                     match listeners w (pair c) !! name with
                     | None => Some w
                     | Some r => deliver fuel w r 0 v
                     end
                 end) with
          | None => None
          | Some w => run_actions fuel w l
          end
      end
  end
with deliver (fuel : nat) (w : world) (r i : nat) (v : payload) : option world :=
  match fuel with
  | O => None
  | S fuel =>
      match array w r !! i with
      | None => Some w
      | Some l =>
          match run_actions fuel (w <| calls := calls w ++ [(l, v)] |>) (body l v) with
          | None => None
          | Some w => deliver fuel w r (S i) v
          end
      end
  end.

Definition send (fuel : nat) (w : world) (c : side) (name : string) (value : payload) : option world :=
  run_actions fuel w [ASend c name value].

(** The host's event loop runs one expired timeout. *)
Definition run_timeout (fuel : nat) (w : world) : option world :=
  match timeouts w with
  | [] => Some w
  | (c, name, v) :: ts => send fuel (w <| timeouts := ts |>) c name v
  end.

(** Callbacks that do nothing to the bus but take listeners off it. *)
Definition only_unregisters (l : list action) : Prop :=
  Forall (fun a => exists c name f, a = AUnregister c name f) l.

(** References point into the store. *)
Definition wf (w : world) : Prop :=
  forall c name r, listeners w c !! name = Some r -> (r < length (arrays w))%nat.

Lemma new_array_array w c name l r :
  (r < length (arrays w))%nat -> array (new_array w c name l) r = array w r.
Proof. intros. unfold array, new_array. destruct c; cbn; by rewrite lookup_app_l. Qed.

Lemma new_array_length w c name l :
  length (arrays (new_array w c name l)) = S (length (arrays w)).
Proof. unfold new_array. destruct c; cbn; rewrite length_app; cbn; lia. Qed.

Lemma unregister_old w c name f r :
  (r < length (arrays w))%nat ->
  array (unregister w c name f) r = array w r
  /\ (length (arrays w) <= length (arrays (unregister w c name f)))%nat
  /\ calls (unregister w c name f) = calls w.
Proof.
  intros H. unfold unregister. destruct (listeners w c !! name).
  - rewrite new_array_array, new_array_length by done. split_and!; [done|lia|]. by destruct c.
  - done.
Qed.

(** Unregistering cannot disturb an iteration under way. *)
Lemma run_unregisters l : only_unregisters l -> forall fuel w r,
  (length l < fuel)%nat -> (r < length (arrays w))%nat ->
  exists w', run_actions fuel w l = Some w' /\ array w' r = array w r
    /\ (r < length (arrays w'))%nat /\ calls w' = calls w.
Proof.
  induction 1 as [|a l (c & name & f & ->) _ IH]; intros [|fuel] w r Hf Hr; cbn in *; try lia.
  - by eexists.
  - destruct (unregister_old w c name f r Hr) as (Ha & Hl & Hc).
    destruct (IH fuel (unregister w c name f) r) as (w' & E & E1 & E2 & E3); [lia|lia|].
    exists w'. rewrite E1, E3, Ha. done.
Qed.

Lemma deliver_unregisters k v :
  (forall l, only_unregisters (body l v) /\ (length (body l v) <= k)%nat) ->
  forall n fuel w r i,
  n = (length (array w r) - i)%nat -> (n + k + 2 <= fuel)%nat -> (r < length (arrays w))%nat ->
  exists w', deliver fuel w r i v = Some w'
    /\ calls w' = calls w ++ map (fun l => (l, v)) (drop i (array w r)).
Proof.
  intros Hb. induction n as [|n IH]; intros [|fuel] w r i Hn Hf Hr; try lia; cbn.
  - rewrite lookup_ge_None_2 by lia. rewrite drop_ge by lia. exists w. by rewrite app_nil_r.
  - destruct (lookup_lt_is_Some_2 (array w r) i) as [l Hl]; [lia|]. rewrite Hl.
    destruct (Hb l) as [Hu Hk].
    destruct (run_unregisters _ Hu fuel (w <| calls := calls w ++ [(l, v)] |>) r)
      as (w' & E & E1 & E2 & E3); [lia|done|]. rewrite E.
    change (array (w <| calls := calls w ++ [(l, v)] |>) r) with (array w r) in E1.
    destruct (IH fuel w' r (S i)) as (w'' & F & F1); [rewrite E1; lia|lia|done|].
    exists w''. split; [done|]. rewrite F1, E3, E1, (drop_S (array w r) l i) by done. cbn.
    by rewrite <- app_assoc.
Qed.

(** A message reaches every listener that was registered for its name on
    the other connector when it was sent, each once and in registration order,
    even when listeners unregister themselves or each other while it is being
    delivered. *)
Theorem send_delivers (k fuel : nat) (w : world) (c : side) (name : string) (r : nat) (value : payload) :
  wf w ->
  listeners w (pair c) !! name = Some r ->
  (forall l, only_unregisters (body l value) /\ (length (body l value) <= k)%nat) ->
  (length (array w r) + k + 4 <= fuel)%nat ->
  exists w', send fuel w c name value = Some w'
    /\ calls w' = calls w ++ map (fun l => (l, value)) (array w r).
Proof.
  intros Hw Hr Hb Hf. unfold send. destruct fuel as [|fuel]; [lia|]. cbn. rewrite Hr.
  destruct (deliver_unregisters k value Hb (length (array w r)) fuel w r 0)
    as (w' & E & E1); [lia|lia|by eapply Hw|].
  rewrite E. destruct fuel as [|fuel]; [lia|]. cbn. exists w'. by rewrite E1, drop_0.
Qed.

End send.

(** [register] appends the listener to those of its name and changes no
    other name's; the connector has an array for the name afterwards. *)
Theorem register_lookup w c name l name' c' :
  wf w ->
  (forall n1 n2 c1 c2 r, listeners w c1 !! n1 = Some r -> listeners w c2 !! n2 = Some r -> n1 = n2 /\ c1 = c2) ->
  let look w c n := match listeners w c !! n with Some r => array w r | None => [] end in
  look (register w c name l) c' name'
  = if decide (name = name' /\ c = c') then look w c name ++ [l] else look w c' name'.
Proof.
  intros Hw Hinj. cbn. unfold register, new_array, array.
  assert (forall r, (r < length (arrays w))%nat -> r <> length (arrays w)) by lia.
  destruct (listeners w c !! name) as [r|] eqn:E.
  - rewrite E. pose proof (Hw _ _ _ E).
    assert (listeners (w <| arrays := <[r:=default [] (arrays w !! r) ++ [l]]> (arrays w) |>) c'
      = listeners w c') as -> by (by destruct c').
    destruct (decide (name = name' /\ c = c')) as [[<- <-]|Hne].
    + rewrite E. cbn. by rewrite list_lookup_insert_eq.
    + destruct (listeners w c' !! name') as [r'|] eqn:E'; [|done]. cbn.
      destruct (decide (r = r')) as [<-|]; [|by rewrite list_lookup_insert_ne].
      exfalso. apply Hne. eapply Hinj; eauto.
  - set (w1 := set_listeners _ _ _).
    assert (listeners w1 c !! name = Some (length (arrays w))) as E1
      by (unfold w1; destruct c; cbn; by rewrite lookup_insert_eq).
    rewrite E1. cbn.
    assert (forall X, listeners (w1 <| arrays := X |>) c' = listeners w1 c') as Hl
      by (intros; by destruct c'). rewrite Hl.
    assert (arrays w1 = arrays w ++ [[]]) as Ha by (unfold w1; by destruct c). rewrite Ha.
    destruct (decide (name = name' /\ c = c')) as [[<- <-]|Hne].
    + rewrite E1. rewrite list_lookup_insert_eq by (rewrite length_app; cbn; lia).
      by rewrite lookup_app_r, Nat.sub_diag by lia.
    + assert (listeners w1 c' !! name' = listeners w c' !! name') as ->.
      { unfold w1. destruct c, c'; cbn; try done; rewrite lookup_insert_ne; try done;
          intros ->; apply Hne; done. }
      destruct (listeners w c' !! name') as [r'|] eqn:E'; [|done]. pose proof (Hw _ _ _ E').
      rewrite list_lookup_insert_ne by lia. by rewrite lookup_app_l.
Qed.

(** A bus with two listeners of one message, the first of which takes itself
    off the bus when it is called. *)
Definition example_world : world :=
  register (register create Conn1 "serial0-input" (mk_listener 1 10)) Conn1 "serial0-input" (mk_listener 2 20).
Definition example_body (l : listener) (_ : payload) : list action :=
  if fn l =? 1 then [AUnregister Conn1 "serial0-input" 1] else [].

Lemma bus_create_wf : wf create.
Proof. intros [] name r; unfold create; cbn; by rewrite lookup_empty. Qed.

Lemma new_array_wf w c name l : wf w -> wf (new_array w c name l).
Proof.
  intros Hw c' name' r. rewrite new_array_length. unfold new_array.
  pose proof (Hw c' name' r) as H.
  destruct c, c'; cbn in *; intros Hr; try (specialize (H Hr); lia);
    (destruct (decide (name = name')) as [<-|];
      [rewrite lookup_insert_eq in Hr; injection Hr as <-; lia
      |rewrite lookup_insert_ne in Hr by done; specialize (H Hr); lia]).
Qed.

Lemma register_wf w c name l : wf w -> wf (register w c name l).
Proof.
  intros Hw. unfold register.
  set (w1 := match listeners w c !! name with None => new_array w c name [] | Some _ => w end).
  assert (wf w1) as H1 by (unfold w1; destruct (listeners w c !! name); auto using new_array_wf).
  clearbody w1. destruct (listeners w1 c !! name); [|done].
  intros c' name' r. cbn. rewrite length_insert. pose proof (H1 c' name' r). by destruct c'.
Qed.

Lemma example_world_wf : wf example_world.
Proof. apply register_wf, register_wf, bus_create_wf. Qed.

Lemma send_delivers_witness :
  wf example_world /\
  exists w', send example_body 20 example_world Conn0 "serial0-input" (PNum 65) = Some w'
    /\ calls w' = [(mk_listener 1 10, PNum 65); (mk_listener 2 20, PNum 65)].
Proof.
  split; [exact example_world_wf|].
  apply (send_delivers example_body 1 20 example_world Conn0 "serial0-input" 0 (PNum 65)
    example_world_wf eq_refl); [|apply Nat.leb_le; vm_compute; reflexivity].
  intros l. unfold example_body. destruct (fn l =? 1); cbn; split; try lia; repeat constructor.
  by eexists _, _, _.
Defined.

Lemma register_lookup_witness :
  wf create /\
  match listeners (register create Conn1 "mouse-click" (mk_listener 1 2)) Conn1 !! "mouse-click"%string with
  | Some r => array (register create Conn1 "mouse-click" (mk_listener 1 2)) r
  | None => []
  end = [mk_listener 1 2].
Proof.
  split; [exact bus_create_wf|].
  refine (register_lookup create Conn1 "mouse-click" (mk_listener 1 2) "mouse-click" Conn1 bus_create_wf _).
  intros ? ? [] ? ?; cbn; by rewrite lookup_empty.
Defined.

End Bus.
