(* ===== verification/Io.v ===== *)
(** * The I/O bus ([io.js])

    Devices register handlers for I/O ports and for ranges of physical memory;
    an access of the guest is dispatched to the handler that decodes it.  The
    state of the machine a handler acts on is a parameter [W]; handlers are
    programs of the effect monad.  What is shared by reference in the source is
    shared here: the handlers installed for a block of the memory map find their
    ranges through the block's object [shared], which lives in a heap. *)

From S2P Require Import Prelude.

Module Io.

Definition MMAP_BLOCK_BITS : Z := 17.
Definition MMAP_BLOCK_SIZE : Z := 1 .<< MMAP_BLOCK_BITS.
Definition MMAP_MAX : Z := 0x100000000.

Section io.
Context {W : Type}.

Definition read_fn : Type := Z -> M W Z.
Definition write_fn : Type := Z -> M W unit.
Definition mem_write_fn : Type := Z -> Z -> M W unit.

(** ** Ports *)

Record entry := mk_entry {
  read8 : read_fn; read16 : read_fn; read32 : read_fn;
  write8 : write_fn; write16 : write_fn; write32 : write_fn;
  entry_device : option Z
}.

Definition create_empty_entry : entry :=
  mk_entry (fun _ => ret 0xFF) (fun _ => ret 0xFFFF) (fun _ => ret (-1))
    (fun _ => skip) (fun _ => skip) (fun _ => skip) None.

(** The array of 0x10000 entries; those not in the map are the empty ones the
    constructor makes. *)
#[local] Abbreviation ports_t := (gmap Z entry).

Definition port_ok (port : Z) : bool := (0 <=? port) && (port <? 0x10000).
Definition port (ports : ports_t) (p : Z) : entry := default create_empty_entry (ports !! p).

(** [r8], [r16] and [r32] are optional; [None] as a result: the property of an
    [undefined] entry is accessed. *)
Definition register_read (p device : Z) (r8 r16 r32 : option read_fn) (ports : ports_t) : option ports_t :=
  if port_ok p then
    let e := port ports p in
    Some (<[p := e <| read8 := default (read8 e) r8 |>
                   <| read16 := default (read16 e) r16 |>
                   <| read32 := default (read32 e) r32 |>
                   <| entry_device := Some device |>]> ports)
  else None.

Definition register_write (p device : Z) (w8 w16 w32 : option write_fn) (ports : ports_t) : option ports_t :=
  if port_ok p then
    let e := port ports p in
    Some (<[p := e <| write8 := default (write8 e) w8 |>
                   <| write16 := default (write16 e) w16 |>
                   <| write32 := default (write32 e) w32 |>
                   <| entry_device := Some device |>]> ports)
  else None.

Definition unregister_port (device p : Z) (ports : ports_t) : option ports_t :=
  if port_ok p then
    if bool_decide (entry_device (port ports p) = Some device)
    then Some (<[p := create_empty_entry]> ports)
    else Some ports
  else None.

Fixpoint for_ports (l : list Z) (f : Z -> ports_t -> option ports_t) (ports : ports_t) : option ports_t :=
  match l with
  | [] => Some ports
  | p :: l => ports ← f p ports; for_ports l f ports
  end.

Definition unregister_range (port_addr length device : Z) (ports : ports_t) : option ports_t :=
  for_ports (seqZ port_addr length) (unregister_port device) ports.

(** The handlers that [register_read_consecutive] makes for wider accesses. *)
Definition join16 (r1 r2 : M W Z) : read_fn := fun _ =>
  a <-- r1 ;; b <-- r2 ;; ret (a .| shl32 b 8).
Definition join32 (r1 r2 r3 r4 : M W Z) : read_fn := fun _ =>
  a <-- r1 ;; b <-- r2 ;; c <-- r3 ;; d <-- r4 ;;
  ret (a .| shl32 b 8 .| shl32 c 16 .| shl32 d 24).
Definition split16 (w1 w2 : write_fn) : write_fn := fun data =>
  w1 (data .& 0xFF) ;;; w2 (sar32 data 8 .& 0xFF).
Definition split32 (w1 w2 w3 w4 : write_fn) : write_fn := fun data =>
  w1 (data .& 0xFF) ;;; w2 (sar32 data 8 .& 0xFF) ;;;
  w3 (sar32 data 16 .& 0xFF) ;;; w4 (shr32 data 24).

Definition register_read_consecutive (p device : Z) (r1 r2 : M W Z) (r34 : option (M W Z * M W Z))
    (ports : ports_t) : option ports_t :=
  match r34 with
  | Some (r3, r4) =>
      ports ← register_read p device (Some (fun _ => r1)) (Some (join16 r1 r2)) (Some (join32 r1 r2 r3 r4)) ports;
      ports ← register_read (p + 1) device (Some (fun _ => r2)) None None ports;
      ports ← register_read (p + 2) device (Some (fun _ => r3)) (Some (join16 r3 r4)) None ports;
      register_read (p + 3) device (Some (fun _ => r4)) None None ports
  | None =>
      ports ← register_read p device (Some (fun _ => r1)) (Some (join16 r1 r2)) None ports;
      register_read (p + 1) device (Some (fun _ => r2)) None None ports
  end.

Definition register_write_consecutive (p device : Z) (w1 w2 : write_fn) (w34 : option (write_fn * write_fn))
    (ports : ports_t) : option ports_t :=
  match w34 with
  | Some (w3, w4) =>
      ports ← register_write p device (Some w1) (Some (split16 w1 w2)) (Some (split32 w1 w2 w3 w4)) ports;
      ports ← register_write (p + 1) device (Some w2) None None ports;
      ports ← register_write (p + 2) device (Some w3) (Some (split16 w3 w4)) None ports;
      register_write (p + 3) device (Some w4) None None ports
  | None =>
      ports ← register_write p device (Some w1) (Some (split16 w1 w2)) None ports;
      register_write (p + 1) device (Some w2) None None ports
  end.

Definition port_read8 (ports : ports_t) (p : Z) : M W Z := read8 (port ports p) p.
Definition port_read16 (ports : ports_t) (p : Z) : M W Z := read16 (port ports p) p.
Definition port_read32 (ports : ports_t) (p : Z) : M W Z := read32 (port ports p) p.
Definition port_write8 (ports : ports_t) (p data : Z) : M W unit := write8 (port ports p) data.
Definition port_write16 (ports : ports_t) (p data : Z) : M W unit := write16 (port ports p) data.
Definition port_write32 (ports : ports_t) (p data : Z) : M W unit := write32 (port ports p) data.

(** ** The memory map *)

(** The functions stored in the memory map: a device's closure, one of the
    handlers for unmapped memory, a closure of [install_block_dispatch] (with the
    reference to its [shared] object), or [undefined]: RAM, which the CPU accesses
    directly. *)
Inductive handler (F : Type) := Undefined | Unmapped | Dispatch (r : nat) | Dev (f : F).
#[local] Arguments Undefined {F}.
#[local] Arguments Unmapped {F}.
#[local] Arguments Dispatch {F} r.
#[local] Arguments Dev {F} f.

(** A 32-bit handler can also be the shim that makes an access of bytes. *)
Inductive handler32 (F : Type) := Shim | Handler (f : handler F).
#[local] Arguments Shim {F}.
#[local] Arguments Handler {F} f.

(** One element of each of the four arrays [memory_map_read8], [_write8],
    [_read32] and [_write32] of the CPU, which are always assigned together. *)
Record quad := mk_quad {
  q_read8 : handler read_fn; q_write8 : handler mem_write_fn;
  q_read32 : handler32 read_fn; q_write32 : handler32 mem_write_fn
}.

Record range := mk_range {
  r_start : Z; r_end : Z; r_owner : Z;
  r_read8 : read_fn; r_write8 : mem_write_fn;
  r_read32 : option read_fn; r_write32 : option mem_write_fn
}.

(** The object [{ranges, background}] of a block with exact ranges. *)
Record shared_block := mk_shared { ranges : list range; background : quad }.

Record t := mk {
  memory_map : gmap Z quad;
  mmio_blocks : gmap Z nat;
  heap : list shared_block
}.

Definition undefined_quad : quad :=
  mk_quad Undefined Undefined (Handler Undefined) (Handler Undefined).
Definition unmapped : quad := mk_quad Unmapped Unmapped (Handler Unmapped) (Handler Unmapped).
Definition dispatch (r : nat) : quad :=
  mk_quad (Dispatch r) (Dispatch r) (Handler (Dispatch r)) (Handler (Dispatch r)).

Definition block_of (addr : Z) : Z := shr32 addr MMAP_BLOCK_BITS.
Definition mapped (s : t) (b : Z) : quad := default undefined_quad (memory_map s !! b).
Definition shared (s : t) (r : nat) : shared_block := default (mk_shared [] undefined_quad) (heap s !! r).

Definition map_block (q : quad) (s : t) (b : Z) : t :=
  match mmio_blocks s !! b with
  | Some r => s <| heap := alter (fun sh => sh <| background := q |>) r (heap s) |>
  | None => s <| memory_map := <[b := q]> (memory_map s) |>
  end.

(** The blocks visited by the loop [for(; size > 0; aligned_addr++) size -= MMAP_BLOCK_SIZE]. *)
Definition blocks_from (addr size : Z) : list Z :=
  seqZ (block_of addr) ((size + MMAP_BLOCK_SIZE - 1) / MMAP_BLOCK_SIZE).

Definition mmap_register (addr size : Z) (r8 : handler read_fn) (w8 : handler mem_write_fn)
    (r32 : option (handler read_fn)) (w32 : option (handler mem_write_fn)) (s : t) : t :=
  let q := mk_quad r8 w8 (from_option Handler Shim r32) (from_option Handler Shim w32) in
  foldl (map_block q) s (blocks_from addr size).

Definition mmap_unregister (addr size : Z) (s : t) : t :=
  mmap_register addr size Unmapped Unmapped (Some Unmapped) (Some Unmapped) s.

(** The part of the constructor that maps what lies beyond the memory. *)
Definition create (memory_size : Z) : t :=
  mmap_register memory_size (MMAP_MAX - memory_size) Unmapped Unmapped (Some Unmapped) (Some Unmapped)
    (mk ∅ ∅ []).

Definition install_block_dispatch (b : Z) (r : nat) (s : t) : t :=
  s <| memory_map := <[b := dispatch r]> (memory_map s) |>.

Definition add_range (rg : range) (s : t) (b : Z) : t :=
  let '(r, s) :=
    match mmio_blocks s !! b with
    | Some r => (r, s)
    | None =>
        let r := length (heap s) in
        let s := s <| heap := heap s ++ [mk_shared [] (mapped s b)] |>
                   <| mmio_blocks := <[b := r]> (mmio_blocks s) |> in
        (r, install_block_dispatch b r s)
    end in
  s <| heap := alter (fun sh => sh <| ranges := ranges sh ++ [rg] |>) r (heap s) |>.

(** The blocks from that of the first to that of the last byte. *)
Definition blocks_of (addr size : Z) : list Z :=
  seqZ (block_of addr) (block_of (addr + size - 1) - block_of addr + 1).

Definition mmap_register_range (addr size owner : Z) (r8 : read_fn) (w8 : mem_write_fn)
    (r32 : option read_fn) (w32 : option mem_write_fn) (s : t) : t :=
  let addr := u32 addr in
  foldl (add_range (mk_range addr (addr + size) owner r8 w8 r32 w32)) s (blocks_of addr size).

Definition remove_range (owner addr : Z) (s : t) (b : Z) : t :=
  match mmio_blocks s !! b with
  | None => s
  | Some r =>
      let s := s <| heap := alter (fun sh => sh <| ranges :=
                 filter (fun g => r_owner g <> owner \/ r_start g <> addr) (ranges sh) |>) r (heap s) |> in
      match ranges (shared s r) with
      | [] => s <| memory_map := <[b := background (shared s r)]> (memory_map s) |>
                <| mmio_blocks := delete b (mmio_blocks s) |>
      | _ => s
      end
  end.

Definition mmap_unregister_range (addr size owner : Z) (s : t) : t :=
  let addr := u32 addr in
  foldl (remove_range owner addr) s (blocks_of addr size).

(** ** Accesses *)

Definition find (sh : shared_block) (addr : Z) : option range :=
  List.find (fun g => (r_start g <=? addr) && (addr <? r_end g)) (ranges sh).

(** The call of a handler, as the program it runs; [None]: [undefined] is
    called, or more than [n] handlers call each other. *)
Fixpoint call_read8 (n : nat) (s : t) (f : handler read_fn) (addr : Z) : option (M W Z) :=
  match n with
  | O => None
  | S n =>
      match f with
      | Undefined => None
      | Unmapped => Some (ret 0xFF)
      | Dev f => Some (f addr)
      | Dispatch r =>
          match find (shared s r) (u32 addr) with
          | Some g => Some (r_read8 g (u32 addr))
          | None => call_read8 n s (q_read8 (background (shared s r))) addr
          end
      end
  end.

Fixpoint call_write8 (n : nat) (s : t) (f : handler mem_write_fn) (addr value : Z) : option (M W unit) :=
  match n with
  | O => None
  | S n =>
      match f with
      | Undefined => None
      | Unmapped => Some skip
      | Dev f => Some (f addr value)
      | Dispatch r =>
          match find (shared s r) (u32 addr) with
          | Some g => Some (r_write8 g (u32 addr) value)
          | None => call_write8 n s (q_write8 (background (shared s r))) addr value
          end
      end
  end.

(** Four byte accesses with one handler. *)
Definition read8s (read : Z -> option (M W Z)) (addr : Z) : option (M W Z) :=
  a ← read addr; b ← read (addr + 1); c ← read (addr + 2); d ← read (addr + 3);
  Some (join32 a b c d 0).

Definition write8s (write : Z -> Z -> option (M W unit)) (addr value : Z) : option (M W unit) :=
  a ← write addr (value .& 0xFF);
  b ← write (addr + 1) (shr32 value 8 .& 0xFF);
  c ← write (addr + 2) (shr32 value 16 .& 0xFF);
  d ← write (addr + 3) (shr32 value 24 .& 0xFF);
  Some (a ;;; b ;;; c ;;; d).

Definition mmap_read32_shim (n : nat) (s : t) (addr : Z) : option (M W Z) :=
  read8s (call_read8 n s (q_read8 (mapped s (block_of addr)))) addr.

(** The source's [value >> 8 & 0xFF] and [value >>> 24] are the bytes of [write8s]. *)
Definition mmap_write32_shim (n : nat) (s : t) (addr value : Z) : option (M W unit) :=
  let fn := call_write8 n s (q_write8 (mapped s (block_of addr))) in
  a ← fn addr (value .& 0xFF);
  b ← fn (addr + 1) (sar32 value 8 .& 0xFF);
  c ← fn (addr + 2) (sar32 value 16 .& 0xFF);
  d ← fn (addr + 3) (shr32 value 24);
  Some (a ;;; b ;;; c ;;; d).

(** No byte of the dword lies in a range. *)
Definition untouched (sh : shared_block) (start : Z) : bool :=
  match find sh start, find sh (start + 3), find sh (start + 1), find sh (start + 2) with
  | None, None, None, None => true
  | _, _, _, _ => false
  end.

(** The 32-bit handler of the range that holds the whole aligned dword. *)
Definition whole {F} (get32 : range -> option F) (sh : shared_block) (start : Z) : option F :=
  g ← find sh start;
  if (start + 4 <=? r_end g) && (start .& 3 =? 0) then get32 g else None.

Fixpoint call_read32 (n : nat) (s : t) (f : handler32 read_fn) (addr : Z) : option (M W Z) :=
  match n with
  | O => None
  | S n =>
      match f with
      | Shim => mmap_read32_shim n s addr
      | Handler Undefined => None
      | Handler Unmapped => Some (ret (-1))
      | Handler (Dev f) => Some (f addr)
      | Handler (Dispatch r) =>
          let sh := shared s r in
          let start := u32 addr in
          match whole r_read32 sh start with
          | Some f => Some (f start)
          | None =>
              if untouched sh start then call_read32 n s (q_read32 (background sh)) addr
              else read8s (call_read8 n s (Dispatch r)) addr
          end
      end
  end.

Fixpoint call_write32 (n : nat) (s : t) (f : handler32 mem_write_fn) (addr value : Z) : option (M W unit) :=
  match n with
  | O => None
  | S n =>
      match f with
      | Shim => mmap_write32_shim n s addr value
      | Handler Undefined => None
      | Handler Unmapped => Some skip
      | Handler (Dev f) => Some (f addr value)
      | Handler (Dispatch r) =>
          let sh := shared s r in
          let start := u32 addr in
          match whole r_write32 sh start with
          | Some f => Some (f start value)
          | None =>
              if untouched sh start then call_write32 n s (q_write32 (background sh)) addr value
              else write8s (call_write8 n s (Dispatch r)) addr value
          end
      end
  end.

(** What the CPU does with an address that is not RAM ([cpu.js]): it calls the
    function its block has in the memory map.  At most a dispatcher, a shim, the
    dispatcher again and the background's handler call each other. *)
Definition mmap_read8 (s : t) (addr : Z) : option (M W Z) :=
  call_read8 3 s (q_read8 (mapped s (block_of addr))) addr.
Definition mmap_write8 (s : t) (addr value : Z) : option (M W unit) :=
  call_write8 3 s (q_write8 (mapped s (block_of addr))) addr value.
Definition mmap_write16 (s : t) (addr value : Z) : option (M W unit) :=
  let fn := call_write8 3 s (q_write8 (mapped s (block_of addr))) in
  a ← fn addr (value .& 0xFF); b ← fn (i32 (addr + 1)) (sar32 value 8); Some (a ;;; b).
Definition mmap_read32 (s : t) (addr : Z) : option (M W Z) :=
  call_read32 4 s (q_read32 (mapped s (block_of addr))) addr.
Definition mmap_write32 (s : t) (addr value : Z) : option (M W unit) :=
  call_write32 4 s (q_write32 (mapped s (block_of addr))) addr value.
Definition mmap_write64 (s : t) (addr value0 value1 : Z) : option (M W unit) :=
  let fn := call_write32 4 s (q_write32 (mapped s (block_of addr))) in
  a ← fn addr value0; b ← fn (addr + 4) value1; Some (a ;;; b).
Definition mmap_write128 (s : t) (addr value0 value1 value2 value3 : Z) : option (M W unit) :=
  let fn := call_write32 4 s (q_write32 (mapped s (block_of addr))) in
  a ← fn addr value0; b ← fn (addr + 4) value1; c ← fn (addr + 8) value2; d ← fn (addr + 12) value3;
  Some (a ;;; b ;;; c ;;; d).

(** ** The abstract decoder

    What the memory map stands for: for every block the handlers that were
    registered for all of it last, and the list of the exact ranges that are
    registered, in order. *)

Record view := mk_view { whole_blocks : Z -> quad; live : list range }.

Inductive op :=
| Register (addr size : Z) (q : quad)
| RegisterRange (g : range)
| UnregisterRange (addr size owner : Z).

Definition run_op (s : t) (o : op) : t :=
  match o with
  | Register addr size q => foldl (map_block q) s (blocks_from addr size)
  | RegisterRange g =>
      mmap_register_range (r_start g) (r_end g - r_start g) (r_owner g) (r_read8 g) (r_write8 g)
        (r_read32 g) (r_write32 g) s
  | UnregisterRange addr size owner => mmap_unregister_range addr size owner s
  end.

Definition apply_op (v : view) (o : op) : view :=
  match o with
  | Register addr size q =>
      v <| whole_blocks := fun b =>
             if (addr <=? b * MMAP_BLOCK_SIZE) && (b * MMAP_BLOCK_SIZE <? addr + size)
             then q else whole_blocks v b |>
  | RegisterRange g => v <| live := live v ++ [g] |>
  | UnregisterRange addr size owner =>
      v <| live := filter (fun g => r_owner g <> owner \/ r_start g <> addr) (live v) |>
  end.

Definition start_view (memory_size : Z) : view :=
  mk_view (fun b => if (memory_size <=? b * MMAP_BLOCK_SIZE) && (b * MMAP_BLOCK_SIZE <? MMAP_MAX)
                    then unmapped else undefined_quad) [].

(** Not a closure of [install_block_dispatch]. *)
Definition plain {F} (f : handler F) : Prop := match f with Dispatch _ => False | _ => True end.
Definition plain32 {F} (f : handler32 F) : Prop := match f with Handler f => plain f | Shim => True end.
Definition plain_quad (q : quad) : Prop :=
  plain (q_read8 q) /\ plain (q_write8 q) /\ plain32 (q_read32 q) /\ plain32 (q_write32 q).

(** What the assertions of the source and the callers guarantee: ranges lie in
    the 4 GiB of the address space, blocks are registered whole, and a range is
    unregistered with the size it was registered with. *)
Definition valid (v : view) (o : op) : Prop :=
  match o with
  | Register addr size q =>
      0 <= addr /\ 0 <= size /\ addr + size <= MMAP_MAX /\ addr < MMAP_MAX
      /\ addr mod MMAP_BLOCK_SIZE = 0 /\ size mod MMAP_BLOCK_SIZE = 0 /\ plain_quad q
  | RegisterRange g => 0 <= r_start g < r_end g /\ r_end g <= MMAP_MAX
  | UnregisterRange addr size owner =>
      0 <= addr /\ 0 < size /\ addr + size <= MMAP_MAX /\
      forall g, g ∈ live v -> r_owner g = owner -> r_start g = addr -> r_end g = addr + size
  end.

Inductive reaches (memory_size : Z) : list op -> view -> Prop :=
| reach_start : reaches memory_size [] (start_view memory_size)
| reach_step ops v o :
    reaches memory_size ops v -> valid v o -> reaches memory_size (ops ++ [o]) (apply_op v o).

Definition covers (addr : Z) (g : range) : bool := (r_start g <=? addr) && (addr <? r_end g).
Definition decode (v : view) (addr : Z) : option range := List.find (covers addr) (live v).
Definition block (addr : Z) : Z := u32 addr / MMAP_BLOCK_SIZE.

Definition plain_call {F A} (unmapped : A) (call : F -> A) (f : handler F) : option A :=
  match f with Unmapped => Some unmapped | Dev f => Some (call f) | _ => None end.

Definition view_read8 (v : view) (addr : Z) : option (M W Z) :=
  match decode v (u32 addr) with
  | Some g => Some (r_read8 g (u32 addr))
  | None => plain_call (ret 0xFF) (fun f => f addr) (q_read8 (whole_blocks v (block addr)))
  end.

Definition view_write8 (v : view) (addr value : Z) : option (M W unit) :=
  match decode v (u32 addr) with
  | Some g => Some (r_write8 g (u32 addr) value)
  | None => plain_call skip (fun f => f addr value) (q_write8 (whole_blocks v (block addr)))
  end.

(** A dword is one access of the range that holds it, if that has a 32-bit
    handler and the dword is aligned; one access of the block's handler, if no
    range holds any of its bytes and the handler has a 32-bit one; and four
    byte accesses otherwise. *)
Definition in_one {F} (get32 : range -> option F) (v : view) (addr : Z) : option F :=
  g ← decode v addr;
  if (addr + 4 <=? r_end g) && (addr .& 3 =? 0) then get32 g else None.
Definition in_none (v : view) (addr : Z) : bool :=
  forallb (fun i => bool_decide (decode v (addr + i) = None)) [0; 1; 2; 3].

Definition view_read32 (v : view) (addr : Z) : option (M W Z) :=
  match in_one r_read32 v (u32 addr), in_none v (u32 addr), q_read32 (whole_blocks v (block addr)) with
  | Some f, _, _ => Some (f (u32 addr))
  | None, true, Handler f => plain_call (ret (-1)) (fun f => f addr) f
  | None, _, _ => read8s (view_read8 v) addr
  end.

Definition view_write32 (v : view) (addr value : Z) : option (M W unit) :=
  match in_one r_write32 v (u32 addr), in_none v (u32 addr), q_write32 (whole_blocks v (block addr)) with
  | Some f, _, _ => Some (f (u32 addr) value)
  | None, true, Handler f => plain_call skip (fun f => f addr value) f
  | None, _, _ => write8s (view_write8 v) addr value
  end.

(** ** The memory map implements the abstract decoder *)

Definition upd {A} (f : Z -> A) (b : Z) (x : A) : Z -> A := fun b' => if decide (b' = b) then x else f b'.

(** Block [b] of the map decodes the ranges [lv b] before the handlers [bg b]. *)
Definition blk (lv : Z -> list range) (bg : Z -> quad) (s : t) (b : Z) : Prop :=
  match mmio_blocks s !! b with
  | Some r => heap s !! r = Some (mk_shared (lv b) (bg b)) /\ mapped s b = dispatch r /\ lv b <> []
  | None => lv b = [] /\ mapped s b = bg b
  end.

Record rel (lv : Z -> list range) (bg : Z -> quad) (s : t) : Prop := {
  rel_blk b : blk lv bg s b;
  rel_inj b1 b2 r : mmio_blocks s !! b1 = Some r -> mmio_blocks s !! b2 = Some r -> b1 = b2
}.

Lemma rel_ext lv lv' bg bg' s :
  (forall b, lv b = lv' b) -> (forall b, bg b = bg' b) -> rel lv bg s -> rel lv' bg' s.
Proof.
  intros Hl Hb [H Hi]. split; [|done]. intros b. specialize (H b). unfold blk in *.
  by rewrite <- Hl, <- Hb.
Qed.

Lemma mapped_insert s b q b' :
  mapped (s <| memory_map := <[b := q]> (memory_map s) |>) b' = if decide (b' = b) then q else mapped s b'.
Proof.
  unfold mapped. cbn. case_decide as E.
  - by rewrite E, lookup_insert_eq.
  - by rewrite lookup_insert_ne.
Qed.

Lemma alter_rel lv bg s b r f x y :
  rel lv bg s -> mmio_blocks s !! b = Some r ->
  f (mk_shared (lv b) (bg b)) = mk_shared x y -> x <> [] ->
  rel (upd lv b x) (upd bg b y) (s <| heap := alter f r (heap s) |>).
Proof.
  intros [H Hi] Hr Hf Hx. split; [|done]. intros b'. pose proof (H b') as Hb'. unfold blk, upd in *.
  cbn -[alter]. case_decide as E.
  - subst b'. rewrite Hr in *. destruct Hb' as (Hh & Hm & _). rewrite list_lookup_alter_eq, Hh. cbn. by rewrite Hf.
  - destruct (mmio_blocks s !! b') as [r'|] eqn:Hr'; [|done].
    rewrite list_lookup_alter_ne; [done|]. intros ->. by destruct (E (Hi _ _ _ Hr' Hr)).
Qed.

Lemma map_block_rel lv bg q s b : rel lv bg s -> rel lv (upd bg b q) (map_block q s b).
Proof.
  intros H. unfold map_block. destruct (mmio_blocks s !! b) as [r|] eqn:Hr.
  - assert (lv b <> []) as Hne by (pose proof (rel_blk _ _ _ H b) as Hb; unfold blk in Hb; rewrite Hr in Hb; tauto).
    eapply rel_ext; [| |by eapply alter_rel]; [|done].
    intros b'. unfold upd. by case_decide as E; subst.
  - split; [|apply H]. intros b'. pose proof (rel_blk _ _ _ H b') as Hb. unfold blk, upd in *.
    rewrite mapped_insert. cbn. case_decide as E; [|done].
    subst. rewrite Hr in *. by destruct Hb.
Qed.

Lemma heap_bound lv bg s b r : rel lv bg s -> mmio_blocks s !! b = Some r -> (r < length (heap s))%nat.
Proof.
  intros [H _] Hr. specialize (H b). unfold blk in H. rewrite Hr in H. destruct H as [H _].
  by eapply lookup_lt_Some.
Qed.

Lemma add_range_rel lv bg g s b : rel lv bg s -> rel (upd lv b (lv b ++ [g])) bg (add_range g s b).
Proof.
  intros H. unfold add_range. destruct (mmio_blocks s !! b) as [r|] eqn:Hr.
  - eapply rel_ext; [| |eapply alter_rel; [done|done|cbn; reflexivity|by destruct (lv b)]]; [done|].
    intros b'. unfold upd. by case_decide as E; subst.
  - pose proof (rel_blk _ _ _ H b) as Hb. unfold blk in Hb. rewrite Hr in Hb. destruct Hb as [Hlv Hm].
    set (r := length (heap s)).
    split.
    + intros b'. pose proof (rel_blk _ _ _ H b') as Hb'. unfold blk, upd in *.
      unfold install_block_dispatch. cbn -[alter]. destruct (decide (b' = b)) as [->|Hne].
      * rewrite lookup_insert_eq, Hlv. rewrite list_lookup_alter_eq.
        rewrite lookup_app_r by (unfold r; lia). replace (r - length (heap s))%nat with 0%nat by (unfold r; lia).
        cbn. rewrite Hm. split; [done|]. unfold mapped. cbn. by rewrite lookup_insert_eq.
      * rewrite lookup_insert_ne by done. unfold mapped. cbn. rewrite lookup_insert_ne by done.
        destruct (mmio_blocks s !! b') as [r'|] eqn:Hr'; [|done].
        pose proof (heap_bound _ _ _ _ _ H Hr'). rewrite list_lookup_alter_ne by (unfold r; lia).
        by rewrite lookup_app_l.
    + unfold install_block_dispatch. cbn. intros b1 b2 r0.
      destruct (decide (b1 = b)) as [->|H1], (decide (b2 = b)) as [->|H2]; try done.
      * rewrite lookup_insert_eq, lookup_insert_ne by done. intros [= <-] Hr2.
        pose proof (heap_bound _ _ _ _ _ H Hr2). unfold r in *. lia.
      * rewrite lookup_insert_eq, lookup_insert_ne by done. intros Hr1 [= <-].
        pose proof (heap_bound _ _ _ _ _ H Hr1). unfold r in *. lia.
      * rewrite !lookup_insert_ne by done. apply H.
Qed.

Lemma shared_lookup s r sh : heap s !! r = Some sh -> shared s r = sh.
Proof. unfold shared. by intros ->. Qed.

Lemma remove_range_rel lv bg owner addr s b :
  let P := fun g => r_owner g <> owner \/ r_start g <> addr in
  rel lv bg s -> rel (upd lv b (filter P (lv b))) bg (remove_range owner addr s b).
Proof.
  intros P H. unfold remove_range. fold P. pose proof (rel_blk _ _ _ H b) as Hb. unfold blk in Hb.
  destruct (mmio_blocks s !! b) as [r|] eqn:Hr.
  - destruct Hb as (Hh & Hm & Hne). set (s1 := s <| heap := alter _ r (heap s) |>).
    assert (heap s1 !! r = Some (mk_shared (filter P (lv b)) (bg b))) as Hs1
      by (unfold s1; cbn -[alter filter]; rewrite list_lookup_alter_eq, Hh; done).
    rewrite (shared_lookup _ _ _ Hs1). cbn [ranges background].
    destruct (filter P (lv b)) as [|g l] eqn:Hf.
    + split.
      * intros b'. pose proof (rel_blk _ _ _ H b') as Hb'. unfold blk, upd in *.
        unfold s1, mapped. cbn -[alter filter]. destruct (decide (b' = b)) as [->|E].
        -- by rewrite lookup_delete_eq, lookup_insert_eq.
        -- rewrite lookup_delete_ne, lookup_insert_ne by done.
           destruct (mmio_blocks s !! b') as [r'|] eqn:Hr'; [|done].
           rewrite list_lookup_alter_ne; [done|]. intros ->. by destruct (E (rel_inj _ _ _ H _ _ _ Hr' Hr)).
      * unfold s1. cbn -[alter filter]. intros b1 b2 r0 H1 H2.
        apply lookup_delete_Some in H1 as [_ H1]. apply lookup_delete_Some in H2 as [_ H2]. by eapply H.
    + eapply rel_ext; [| |eapply alter_rel; [exact H|exact Hr|cbn -[filter]; by rewrite Hf|done]]; [done|].
      intros b'. unfold upd. by case_decide as E; subst.
  - destruct Hb as [Hl Hm]. eapply rel_ext; [|done|exact H]. intros b'. unfold upd.
    case_decide as E; [|done]. by rewrite E, Hl.
Qed.

(** A pass over distinct blocks. *)
Lemma foldl_rel (step : t -> Z -> t) (fl : Z -> list range -> list range) (fb : Z -> quad -> quad) :
  (forall lv bg s b, rel lv bg s -> rel (upd lv b (fl b (lv b))) (upd bg b (fb b (bg b))) (step s b)) ->
  forall l, NoDup l -> forall lv bg s, rel lv bg s ->
    rel (fun b => if decide (b ∈ l) then fl b (lv b) else lv b)
        (fun b => if decide (b ∈ l) then fb b (bg b) else bg b) (foldl step s l).
Proof.
  intros Hstep. induction l as [|b l IH]; intros Hnd lv bg s H.
  - eapply rel_ext; [| |exact H]; intros b; by case_decide as E; [apply not_elem_of_nil in E|].
  - apply NoDup_cons in Hnd as [Hb Hnd]. cbn [foldl].
    eapply rel_ext; [| |exact (IH Hnd _ _ _ (Hstep _ _ _ b H))]; intros b'; unfold upd.
    all: destruct (decide (b' = b)) as [->|E].
    all: repeat case_decide; first [done | by rewrite elem_of_cons in *; tauto].
Qed.

Lemma block_of_div addr : block_of addr = block addr.
Proof. unfold block_of, shr32, block. by rewrite Z.shiftr_div_pow2. Qed.

Lemma elem_blocks_of addr size b :
  0 <= addr -> 0 < size -> addr + size <= MMAP_MAX ->
  b ∈ blocks_of addr size <-> addr / MMAP_BLOCK_SIZE <= b <= (addr + size - 1) / MMAP_BLOCK_SIZE.
Proof.
  unfold MMAP_MAX. intros H1 H2 H3. unfold blocks_of. rewrite !block_of_div. unfold block.
  rewrite !u32_id by (unfold uint32; lia). rewrite elem_of_seqZ. lia.
Qed.

Lemma elem_blocks_from addr size b :
  0 <= addr < MMAP_MAX -> 0 <= size -> addr + size <= MMAP_MAX ->
  addr mod MMAP_BLOCK_SIZE = 0 -> size mod MMAP_BLOCK_SIZE = 0 ->
  b ∈ blocks_from addr size <->
  (addr <=? b * MMAP_BLOCK_SIZE) && (b * MMAP_BLOCK_SIZE <? addr + size) = true.
Proof.
  unfold MMAP_MAX. intros H1 H2 H3 Ha Hs. unfold blocks_from. rewrite block_of_div. unfold block.
  rewrite u32_id by (unfold uint32; lia). rewrite elem_of_seqZ, andb_true_iff, Z.leb_le, Z.ltb_lt.
  change MMAP_BLOCK_SIZE with 131072 in *. Z.to_euclidean_division_equations. lia.
Qed.

Definition touches (b : Z) (g : range) : Prop :=
  r_start g / MMAP_BLOCK_SIZE <= b <= (r_end g - 1) / MMAP_BLOCK_SIZE.
#[local] Instance touches_dec b g : Decision (touches b g).
Proof. unfold touches. apply _. Defined.

Definition represents (v : view) (s : t) : Prop :=
  rel (fun b => filter (touches b) (live v)) (whole_blocks v) s.

Lemma represents_register addr size q v s :
  represents v s -> valid v (Register addr size q) ->
  represents (apply_op v (Register addr size q)) (run_op s (Register addr size q)).
Proof.
  intros H (H1 & H2 & H3 & H4 & H5 & H6 & _). unfold represents. cbn [run_op apply_op].
  eapply rel_ext; [| |apply (foldl_rel (map_block q) (fun _ l => l) (fun _ _ => q)); [|apply NoDup_seqZ|exact H]].
  - intros b. cbn beta. by case_decide.
  - intros b. cbn. pose proof (elem_blocks_from addr size b ltac:(lia) ltac:(lia) ltac:(lia) H5 H6) as Hb.
    case_decide as E.
    + by rewrite (proj1 Hb E).
    + destruct (_ && _) eqn:E'; [|done]. by destruct (E (proj2 Hb eq_refl)).
  - intros lv bg s0 b Hs. eapply rel_ext; [| |apply map_block_rel, Hs]; [|done].
    intros b'. unfold upd. by case_decide as E; subst.
Qed.

Lemma represents_range g v s :
  represents v s -> valid v (RegisterRange g) ->
  represents (apply_op v (RegisterRange g)) (run_op s (RegisterRange g)).
Proof.
  intros H (H1 & H2). unfold represents. cbn [run_op apply_op].
  unfold mmap_register_range. rewrite u32_id by (unfold uint32; unfold MMAP_MAX in H2; lia). cbv zeta.
  replace (r_start g + (r_end g - r_start g)) with (r_end g) by lia.
  replace (mk_range _ _ _ _ _ _ _) with g by (by destruct g).
  eapply rel_ext; [| |apply (foldl_rel (add_range g) (fun _ l => l ++ [g]) (fun _ q => q)); [|apply NoDup_seqZ|exact H]].
  - intros b. cbn -[filter]. rewrite filter_app.
    pose proof (elem_blocks_of (r_start g) (r_end g - r_start g) b ltac:(lia) ltac:(lia) ltac:(lia)) as Hb.
    replace (r_start g + (r_end g - r_start g)) with (r_end g) in Hb by lia.
    case_decide as E; rewrite filter_cons; case_decide as E'; unfold touches in E'; cbn.
    all: first [done | by rewrite app_nil_r | tauto].
  - intros b. cbn beta. by case_decide.
  - intros lv bg s0 b Hs. eapply rel_ext; [| |apply add_range_rel, Hs]; [done|].
    intros b'. unfold upd. by case_decide as E; subst.
Qed.

Lemma represents_unregister addr size owner v s :
  represents v s -> valid v (UnregisterRange addr size owner) ->
  represents (apply_op v (UnregisterRange addr size owner)) (run_op s (UnregisterRange addr size owner)).
Proof.
  intros H (H1 & H2 & H3 & Hv). unfold represents. cbn [run_op apply_op].
  unfold mmap_unregister_range. rewrite u32_id by (unfold uint32; unfold MMAP_MAX in H3; lia). cbv zeta.
  set (P := fun g => r_owner g <> owner \/ r_start g <> addr).
  eapply rel_ext; [| |apply (foldl_rel (remove_range owner addr) (fun _ => filter P) (fun _ q => q));
    [|apply NoDup_seqZ|exact H]].
  - intros b. cbn -[filter]. fold P. pose proof (elem_blocks_of addr size b ltac:(lia) ltac:(lia) ltac:(lia)) as Hb.
    rewrite !list_filter_filter. case_decide as E; apply list_filter_ext_in; intros g Hg.
    + tauto.
    + split; [|tauto]. intros Ht. split; [done|]. unfold P. destruct (decide (r_owner g = owner)); [|by left].
      right. intros Hs. apply E, Hb. unfold touches in Ht. rewrite (Hv g Hg), Hs in Ht by done. lia.
  - intros b. cbn beta. by case_decide.
  - intros lv bg s0 b Hs. eapply rel_ext; [| |exact (remove_range_rel lv bg owner addr s0 b Hs)]; [done|].
    intros b'. unfold upd. by case_decide as E; subst.
Qed.

Lemma represents_start memory_size :
  0 <= memory_size < MMAP_MAX -> memory_size mod MMAP_BLOCK_SIZE = 0 ->
  represents (start_view memory_size) (create memory_size).
Proof.
  intros H1 H2.
  eapply rel_ext; [| |apply (represents_register memory_size (MMAP_MAX - memory_size) unmapped
    (mk_view (fun _ => undefined_quad) []))].
  - done.
  - intros b. cbn. by replace (memory_size + (MMAP_MAX - memory_size)) with MMAP_MAX by lia.
  - split; [|by intros b1 b2 r Hr]. intros b. done.
  - unfold MMAP_MAX in *. change MMAP_BLOCK_SIZE with 131072 in *. cbn.
    repeat split; change MMAP_BLOCK_SIZE with 131072; unfold MMAP_MAX; try lia.
    Z.to_euclidean_division_equations. lia.
Qed.

Lemma represents_run memory_size ops v :
  0 <= memory_size < MMAP_MAX -> memory_size mod MMAP_BLOCK_SIZE = 0 ->
  reaches memory_size ops v ->
  represents v (foldl run_op (create memory_size) ops) /\ (forall b, plain_quad (whole_blocks v b)).
Proof.
  intros H1 H2. induction 1 as [|ops v o Hr [IH Hp] Hv].
  - split; [by apply represents_start|]. intros b. cbn. by destruct (_ && _).
  - rewrite foldl_snoc. split.
    + destruct o; [by apply represents_register|by apply represents_range|by apply represents_unregister].
    + intros b. destruct o; cbn; try apply Hp. destruct (_ && _); [apply Hv|apply Hp].
Qed.

(** What [find] sees in the ranges of one block is what is registered. *)
Lemma find_block v b addr bg :
  b = addr / MMAP_BLOCK_SIZE ->
  find (mk_shared (filter (touches b) (live v)) bg) addr = decode v addr.
Proof.
  intros ->. unfold find, decode. cbn [ranges]. apply find_filter. intros g Hg.
  unfold covers in Hg. apply andb_true_iff in Hg as [H1 H2]. apply Z.leb_le in H1. apply Z.ltb_lt in H2.
  unfold touches. change MMAP_BLOCK_SIZE with 131072. Z.to_euclidean_division_equations. lia.
Qed.

Lemma decode_none v b addr :
  filter (touches b) (live v) = [] -> b = addr / MMAP_BLOCK_SIZE -> decode v addr = None.
Proof.
  intros H Hb. rewrite <- (find_block v b addr undefined_quad Hb), H. done.
Qed.

(** The two forms a block can have. *)
Lemma represents_block v s addr :
  represents v s ->
  let b := block addr in
  (exists r, mapped s (block_of addr) = dispatch r /\
     shared s r = mk_shared (filter (touches b) (live v)) (whole_blocks v b))
  \/ (mapped s (block_of addr) = whole_blocks v b /\ filter (touches b) (live v) = []).
Proof.
  intros H b. rewrite block_of_div. pose proof (rel_blk _ _ _ H (block addr)) as Hb. unfold blk in Hb.
  fold b in Hb |- *. destruct (mmio_blocks s !! b) as [r|].
  - left. exists r. destruct Hb as (Hh & Hm & _). split; [done|]. by apply shared_lookup.
  - right. by destruct Hb.
Qed.

Lemma call_plain_read8 n s f addr :
  plain f -> call_read8 (S n) s f addr = plain_call (ret 0xFF) (fun f => f addr) f.
Proof. by destruct f. Qed.
Lemma call_plain_write8 n s f addr value :
  plain f -> call_write8 (S n) s f addr value = plain_call skip (fun f => f addr value) f.
Proof. by destruct f. Qed.

(** Up to the sign, which the mask removes, [>>] and [>>>] take the same byte. *)
Lemma shifted_byte value n : 0 <= n <= 24 -> sar32 value n .& 0xFF = shr32 value n .& 0xFF.
Proof.
  intros Hn. unfold sar32, shr32. rewrite land_small by lia.
  rewrite !land_ff. change 256 with (2 ^ 8). apply Z.bits_inj'. intros i Hi.
  destruct (Z.ltb_spec i 8).
  - rewrite !Z.mod_pow2_bits_low, !Z.shiftr_spec by lia. apply i32_testbit. lia.
  - by rewrite !Z.mod_pow2_bits_high by lia.
Qed.

Section accesses.
Variables (v : view) (s : t).
Hypothesis (Hrep : represents v s) (Hplain : forall b, plain_quad (whole_blocks v b)).

(** Byte accesses, also those that a dispatcher or a shim makes of a dword whose
    first byte lies in the same block. *)
Lemma call_read8_view n addr addr' :
  block addr' = block addr ->
  call_read8 (S (S n)) s (q_read8 (mapped s (block_of addr))) addr' = view_read8 v addr'.
Proof using All.
  intros Hb. destruct (Hplain (block addr')) as (Hp & _). unfold view_read8.
  destruct (represents_block v s addr Hrep) as [(r & Hm & Hs)|[Hm Hl]]; rewrite Hm; rewrite <- Hb in *.
  - change (q_read8 (dispatch r)) with (Dispatch (F := read_fn) r). cbn [call_read8]. rewrite Hs.
    rewrite find_block by done. destruct (decode v (u32 addr')) as [g|]; [done|].
    by apply call_plain_read8.
  - rewrite (decode_none v _ _ Hl eq_refl). by apply call_plain_read8.
Qed.

Lemma call_write8_view n addr addr' value :
  block addr' = block addr ->
  call_write8 (S (S n)) s (q_write8 (mapped s (block_of addr))) addr' value = view_write8 v addr' value.
Proof using All.
  intros Hb. destruct (Hplain (block addr')) as (_ & Hp & _). unfold view_write8.
  destruct (represents_block v s addr Hrep) as [(r & Hm & Hs)|[Hm Hl]]; rewrite Hm; rewrite <- Hb in *.
  - change (q_write8 (dispatch r)) with (Dispatch (F := mem_write_fn) r). cbn [call_write8]. rewrite Hs.
    rewrite find_block by done. destruct (decode v (u32 addr')) as [g|]; [done|].
    by apply call_plain_write8.
  - rewrite (decode_none v _ _ Hl eq_refl). by apply call_plain_write8.
Qed.

Variable addr : Z.
Hypothesis (Hin : u32 addr mod MMAP_BLOCK_SIZE + 4 <= MMAP_BLOCK_SIZE).

Lemma dword_bytes i : 0 <= i < 4 -> u32 (addr + i) = u32 addr + i /\ block (addr + i) = block addr.
Proof using Hin.
  intros Hi. change MMAP_BLOCK_SIZE with 131072 in Hin.
  assert (u32 (addr + i) = u32 addr + i) as E.
  { unfold u32 in *. change (2 ^ 32) with 4294967296 in *. Z.to_euclidean_division_equations. lia. }
  split; [done|]. unfold block. rewrite E. change MMAP_BLOCK_SIZE with 131072.
  Z.to_euclidean_division_equations. lia.
Qed.

Lemma read8s_view f :
  (forall i, 0 <= i < 4 -> f (addr + i) = view_read8 v (addr + i)) ->
  read8s f addr = read8s (view_read8 v) addr.
Proof using.
  intros H. pose proof (H 0 ltac:(lia)) as H0. rewrite Z.add_0_r in H0. unfold read8s.
  by rewrite H0, !H by lia.
Qed.

Lemma write8s_view f value :
  (forall i x, 0 <= i < 4 -> f (addr + i) x = view_write8 v (addr + i) x) ->
  write8s f addr value = write8s (view_write8 v) addr value.
Proof using.
  intros H. pose proof (fun x => H 0 x ltac:(lia)) as H0. rewrite Z.add_0_r in H0. unfold write8s.
  by rewrite H0, !H by lia.
Qed.

Lemma in_block {F} (get32 : range -> option F) bg :
  let sh := mk_shared (filter (touches (block addr)) (live v)) bg in
  whole get32 sh (u32 addr) = in_one get32 v (u32 addr) /\ untouched sh (u32 addr) = in_none v (u32 addr).
Proof using Hin.
  intros sh.
  assert (forall i, 0 <= i < 4 -> find sh (u32 addr + i) = decode v (u32 addr + i)) as Hf.
  { intros i Hi. apply find_block. destruct (dword_bytes i Hi) as [E1 E2].
    rewrite <- E1. by rewrite <- E2. }
  pose proof (Hf 0 ltac:(lia)) as H0. rewrite Z.add_0_r in H0. split.
  - unfold whole, in_one. by rewrite H0.
  - unfold untouched, in_none. cbn [forallb]. rewrite H0, !Hf, Z.add_0_r by lia.
    by destruct (decode v (u32 addr)), (decode v (u32 addr + 1)), (decode v (u32 addr + 2)),
      (decode v (u32 addr + 3)).
Qed.

(** No range touches the block: then none holds a byte of the dword. *)
Lemma in_block_none {F} (get32 : range -> option F) :
  filter (touches (block addr)) (live v) = [] ->
  in_one get32 v (u32 addr) = None /\ in_none v (u32 addr) = true.
Proof using Hin.
  intros Hl. destruct (in_block get32 undefined_quad) as [<- <-]. by rewrite Hl.
Qed.

Lemma read_shim_view n :
  mmap_read32_shim (S (S n)) s addr = read8s (view_read8 v) addr.
Proof using All.
  unfold mmap_read32_shim. apply read8s_view. intros i Hi. apply call_read8_view.
  by apply dword_bytes.
Qed.

Lemma call_read32_view n :
  call_read32 (S (S (S (S n)))) s (q_read32 (mapped s (block_of addr))) addr = view_read32 v addr.
Proof using All.
  destruct (Hplain (block addr)) as (_ & _ & Hp & _). unfold view_read32.
  destruct (represents_block v s addr Hrep) as [(r & Hm & Hs)|[Hm Hl]].
  - rewrite Hm. change (q_read32 (dispatch r)) with (Handler (Dispatch (F := read_fn) r)).
    cbn [call_read32]. rewrite Hs. cbn [background].
    destruct (in_block r_read32 (whole_blocks v (block addr))) as [-> ->].
    destruct (in_one r_read32 v (u32 addr)) as [f|]; [done|].
    assert (read8s (call_read8 (S (S (S n))) s (Dispatch r)) addr = read8s (view_read8 v) addr) as H8.
    { replace (Dispatch r) with (q_read8 (mapped s (block_of addr))) by (by rewrite Hm).
      apply read8s_view. intros i Hi. apply call_read8_view. by apply dword_bytes. }
    rewrite H8. destruct (in_none v (u32 addr)); [|done].
    destruct (q_read32 (whole_blocks v (block addr))) as [|[| | |]]; try done. apply read_shim_view.
  - rewrite Hm. destruct (in_block_none r_read32 Hl) as [-> ->].
    destruct (q_read32 (whole_blocks v (block addr))) as [|[| | |]]; try done. apply read_shim_view.
Qed.

Lemma write_shim_view n value :
  mmap_write32_shim (S (S n)) s addr value = write8s (view_write8 v) addr value.
Proof using All.
  transitivity (write8s (call_write8 (S (S n)) s (q_write8 (mapped s (block_of addr)))) addr value).
  - unfold mmap_write32_shim, write8s. rewrite !shifted_byte by lia.
    replace (shr32 value 24 .& 0xFF) with (shr32 value 24); [done|].
    rewrite land_ff. unfold shr32. symmetry. apply Z.mod_small.
    apply (shiftr_bound (u32 value) 24 8); [lia..|]. apply u32_uint32.
  - apply write8s_view. intros i x Hi. apply call_write8_view. by apply dword_bytes.
Qed.

Lemma call_write32_view n value :
  call_write32 (S (S (S (S n)))) s (q_write32 (mapped s (block_of addr))) addr value = view_write32 v addr value.
Proof using All.
  destruct (Hplain (block addr)) as (_ & _ & _ & Hp). unfold view_write32.
  destruct (represents_block v s addr Hrep) as [(r & Hm & Hs)|[Hm Hl]].
  - rewrite Hm. change (q_write32 (dispatch r)) with (Handler (Dispatch (F := mem_write_fn) r)).
    cbn [call_write32]. rewrite Hs. cbn [background].
    destruct (in_block r_write32 (whole_blocks v (block addr))) as [-> ->].
    destruct (in_one r_write32 v (u32 addr)) as [f|]; [done|].
    assert (write8s (call_write8 (S (S (S n))) s (Dispatch r)) addr value
            = write8s (view_write8 v) addr value) as H8.
    { replace (Dispatch r) with (q_write8 (mapped s (block_of addr))) by (by rewrite Hm).
      apply write8s_view. intros i x Hi. apply call_write8_view. by apply dword_bytes. }
    rewrite H8. destruct (in_none v (u32 addr)); [|done].
    destruct (q_write32 (whole_blocks v (block addr))) as [|[| | |]]; try done. apply write_shim_view.
  - rewrite Hm. destruct (in_block_none r_write32 Hl) as [-> ->].
    destruct (q_write32 (whole_blocks v (block addr))) as [|[| | |]]; try done. apply write_shim_view.
Qed.

End accesses.

(** C2: Memory-mapped accesses reach the device that decodes them.  After any
    sequence of block registrations, range registrations and removals, an access
    to any address does exactly what the list of the registered ranges and the
    last registration of the address's block say: a range that holds the byte is
    asked first, the block's handler otherwise, also when it was registered
    while ranges of the block were in use or after they were removed.  A dword
    inside one block goes to one 32-bit handler where a single one decodes all
    of it and is split into its bytes otherwise.  No access calls a missing
    handler unless its byte is RAM, nor recurses without end. *)
Theorem mmio_decodes (memory_size : Z) (ops : list op) (v : view) (addr value : Z)
    (Hm : 0 <= memory_size < MMAP_MAX) (Ha : memory_size mod MMAP_BLOCK_SIZE = 0)
    (Hr : reaches memory_size ops v) :
  let s := foldl run_op (create memory_size) ops in
  mmap_read8 s addr = view_read8 v addr
  /\ mmap_write8 s addr value = view_write8 v addr value
  /\ (u32 addr mod MMAP_BLOCK_SIZE + 4 <= MMAP_BLOCK_SIZE ->
      mmap_read32 s addr = view_read32 v addr
      /\ mmap_write32 s addr value = view_write32 v addr value).
Proof.
  intros s. destruct (represents_run memory_size ops v Hm Ha Hr) as [Hrep Hp]. fold s in Hrep.
  split_and!.
  - by apply call_read8_view.
  - by apply call_write8_view.
  - intros Hin. split; [by apply call_read32_view|by apply call_write32_view].
Qed.

(** ** Ports *)

Lemma port_insert ports p e q : port (<[p := e]> ports) q = if decide (q = p) then e else port ports q.
Proof.
  unfold port. case_decide as E; [by rewrite E, lookup_insert_eq|by rewrite lookup_insert_ne].
Qed.

Lemma port_ok_true p : 0 <= p < 0x10000 -> port_ok p = true.
Proof. intros H. unfold port_ok. apply andb_true_iff. lia. Qed.

Lemma register_read_spec p device r8 r16 r32 ports :
  0 <= p < 0x10000 ->
  exists ports', register_read p device r8 r16 r32 ports = Some ports'
    /\ forall q, port ports' q =
         if decide (q = p) then
           mk_entry (default (read8 (port ports p)) r8) (default (read16 (port ports p)) r16)
             (default (read32 (port ports p)) r32) (write8 (port ports p)) (write16 (port ports p))
             (write32 (port ports p)) (Some device)
         else port ports q.
Proof.
  intros H. unfold register_read. rewrite port_ok_true by done. eexists. split; [done|].
  intros q. by rewrite port_insert.
Qed.

Lemma register_write_spec p device w8 w16 w32 ports :
  0 <= p < 0x10000 ->
  exists ports', register_write p device w8 w16 w32 ports = Some ports'
    /\ forall q, port ports' q =
         if decide (q = p) then
           mk_entry (read8 (port ports p)) (read16 (port ports p)) (read32 (port ports p))
             (default (write8 (port ports p)) w8) (default (write16 (port ports p)) w16)
             (default (write32 (port ports p)) w32) (Some device)
         else port ports q.
Proof.
  intros H. unfold register_write. rewrite port_ok_true by done. eexists. split; [done|].
  intros q. by rewrite port_insert.
Qed.

(** Evaluates the entry of a port at a known distance from those registered. *)
Ltac port_at H :=
  rewrite H; first [rewrite decide_True by lia | rewrite decide_False by lia];
  cbn [read8 read16 read32 write8 write16 write32 entry_device].

(** Removing a device's ports. *)
Lemma unregister_range_spec p n device ports :
  0 <= p -> 0 <= n -> p + n <= 0x10000 ->
  exists ports', unregister_range p n device ports = Some ports'
    /\ forall q, port ports' q =
         if decide (p <= q < p + n /\ entry_device (port ports q) = Some device)
         then create_empty_entry else port ports q.
Proof.
  intros Hp Hn. unfold unregister_range. revert p ports Hp. pattern n. apply natlike_ind; [| |done].
  - intros p ports Hp _. exists ports. split; [done|]. intros q. case_decide; [lia|done].
  - clear n Hn. intros n Hn IH p ports Hp Hle. rewrite seqZ_cons by lia. cbn [for_ports].
    change (unregister_port device p ports) with
      (if port_ok p then if bool_decide (entry_device (port ports p) = Some device)
       then Some (<[p := create_empty_entry]> ports) else Some ports else None).
    rewrite port_ok_true by lia.
    replace (Z.pred (Z.succ n)) with n by lia.
    assert (forall q, q <> p -> Z.succ p <= q < Z.succ p + n <-> p <= q < p + Z.succ n) as Hrg by lia.
    case_bool_decide as Hd; cbn [mbind option_bind].
    + destruct (IH (Z.succ p) (<[p := create_empty_entry]> ports) ltac:(lia) ltac:(lia)) as (ports' & -> & Hq).
      exists ports'. split; [done|]. intros q. rewrite Hq, !port_insert.
      destruct (decide (q = p)) as [->|].
      * rewrite (decide_True (P := p <= p < p + Z.succ n /\ _)) by (split; [lia|done]). by case_decide.
      * pose proof (Hrg q). repeat case_decide; tauto.
    + destruct (IH (Z.succ p) ports ltac:(lia) ltac:(lia)) as (ports' & -> & Hq).
      exists ports'. split; [done|]. intros q. rewrite Hq. destruct (decide (q = p)) as [->|].
      * rewrite !decide_False by (intros [? ?]; first [done|lia]). done.
      * pose proof (Hrg q). repeat case_decide; tauto.
Qed.

Definition le (l : list Z) : Z := foldr (fun b acc => b + 256 * acc) 0 l.
Definition byte_at (data i : Z) : Z := u32 data / 2 ^ (8 * i) mod 256.

Lemma join32_value a b c d :
  byte a -> byte b -> byte c -> byte d ->
  a .| shl32 b 8 .| shl32 c 16 .| shl32 d 24 = i32 (le [a; b; c; d]).
Proof.
  unfold byte. intros Ha Hb Hc Hd. unfold shl32. cbn [le foldr]. change (2 ^ 8) with 256 in *.
  rewrite !(land_small _) by lia. rewrite !(i32_id b), !(i32_id c), !(i32_id d) by (unfold int32; lia).
  rewrite !Z.shiftl_mul_pow2 by lia.
  rewrite (i32_id (b * _)), (i32_id (c * _)) by (unfold int32; lia).
  rewrite <- (Z.shiftl_mul_pow2 b), <- (Z.shiftl_mul_pow2 c) by lia.
  rewrite (lor_shiftl_add a) by lia. rewrite (lor_shiftl_add (a + _) c) by lia.
  assert (exists k, i32 (d * 2 ^ 24) = k .<< 24 /\ i32 (a + 256 * (b + 256 * (c + 256 * (d + 256 * 0))))
    = a + b * 2 ^ 8 + c * 2 ^ 16 + k * 2 ^ 24) as (k & -> & ->).
  { unfold i32. rewrite !Z.mod_small by lia. destruct (Z.ltb_spec d 128).
    - exists d. rewrite Z.shiftl_mul_pow2 by lia.
      rewrite !(proj2 (Z.ltb_lt _ _)) by lia. lia.
    - exists (d - 256). rewrite Z.shiftl_mul_pow2 by lia.
      rewrite !(proj2 (Z.ltb_ge _ _)) by lia. lia. }
  by rewrite lor_shiftl_add by lia.
Qed.

Lemma join16_value a b : byte a -> byte b -> a .| shl32 b 8 = le [a; b].
Proof.
  unfold byte. intros Ha Hb. cbn [le foldr]. rewrite shl32_exact; [|unfold int32; lia|lia|].
  - rewrite lor_shiftl_add by lia. change (2 ^ 8) with 256. lia.
  - unfold int32. rewrite Z.shiftl_mul_pow2 by lia. lia.
Qed.

Lemma split_bytes data :
  data .& 0xFF = byte_at data 0 /\ sar32 data 8 .& 0xFF = byte_at data 1
  /\ sar32 data 16 .& 0xFF = byte_at data 2 /\ shr32 data 24 = byte_at data 3.
Proof.
  assert (forall n, 0 <= n < 32 -> shr32 data n = u32 data / 2 ^ n) as H
    by (intros n Hn; unfold shr32; by rewrite land_small, Z.shiftr_div_pow2 by lia).
  rewrite !shifted_byte, !H, !land_ff by lia. unfold byte_at. split_and!; [|done|done|].
  - change (2 ^ (8 * 0)) with 1. rewrite Z.div_1_r. unfold u32.
    symmetry. apply Z.mod_mod_divide. by exists 16777216.
  - change (8 * 3) with 24. symmetry. apply Z.mod_small. pose proof (u32_uint32 data) as Hu. unfold uint32 in Hu.
    split; [apply Z.div_pos; lia|apply Z.div_lt_upper_bound; lia].
Qed.

Lemma register_read_consecutive_spec p device r1 r2 r3 r4 ports :
  0 <= p -> p + 4 <= 0x10000 ->
  exists ports', register_read_consecutive p device r1 r2 (Some (r3, r4)) ports = Some ports'
    /\ (forall q, ~ (p <= q < p + 4) -> port ports' q = port ports q)
    /\ (forall q, p <= q < p + 4 -> entry_device (port ports' q) = Some device)
    /\ read8 (port ports' p) = (fun _ => r1) /\ read8 (port ports' (p + 1)) = (fun _ => r2)
    /\ read8 (port ports' (p + 2)) = (fun _ => r3) /\ read8 (port ports' (p + 3)) = (fun _ => r4)
    /\ read16 (port ports' p) = join16 r1 r2 /\ read32 (port ports' p) = join32 r1 r2 r3 r4.
Proof.
  intros Hp Hp4. unfold register_read_consecutive.
  destruct (register_read_spec p device (Some (fun _ => r1)) (Some (join16 r1 r2))
    (Some (join32 r1 r2 r3 r4)) ports ltac:(lia)) as (ports1 & -> & H1).
  cbn [mbind option_bind].
  destruct (register_read_spec (p + 1) device (Some (fun _ => r2)) None None ports1 ltac:(lia)) as (ports2 & -> & H2).
  cbn [mbind option_bind].
  destruct (register_read_spec (p + 2) device (Some (fun _ => r3)) (Some (join16 r3 r4)) None ports2
    ltac:(lia)) as (ports3 & -> & H3).
  cbn [mbind option_bind].
  destruct (register_read_spec (p + 3) device (Some (fun _ => r4)) None None ports3 ltac:(lia)) as (ports4 & -> & H4).
  exists ports4. split; [done|]. split_and!.
  - intros q Hq. by port_at H4; port_at H3; port_at H2; port_at H1.
  - intros q Hq. rewrite H4. case_decide; [done|]. rewrite H3. case_decide; [done|].
    rewrite H2. case_decide; [done|]. by port_at H1.
  - by port_at H4; port_at H3; port_at H2; port_at H1.
  - by port_at H4; port_at H3; port_at H2.
  - by port_at H4; port_at H3.
  - by port_at H4.
  - by port_at H4; port_at H3; port_at H2; port_at H1.
  - by port_at H4; port_at H3; port_at H2; port_at H1.
Qed.

Lemma register_write_consecutive_spec p device w1 w2 w3 w4 ports :
  0 <= p -> p + 4 <= 0x10000 ->
  exists ports', register_write_consecutive p device w1 w2 (Some (w3, w4)) ports = Some ports'
    /\ (forall q, ~ (p <= q < p + 4) -> port ports' q = port ports q)
    /\ (forall q, read8 (port ports' q) = read8 (port ports q)
          /\ read16 (port ports' q) = read16 (port ports q)
          /\ read32 (port ports' q) = read32 (port ports q))
    /\ (forall q, p <= q < p + 4 -> entry_device (port ports' q) = Some device)
    /\ write32 (port ports' p) = split32 w1 w2 w3 w4.
Proof.
  intros Hp Hp4. unfold register_write_consecutive.
  destruct (register_write_spec p device (Some w1) (Some (split16 w1 w2))
    (Some (split32 w1 w2 w3 w4)) ports ltac:(lia)) as (ports1 & -> & H1).
  cbn [mbind option_bind].
  destruct (register_write_spec (p + 1) device (Some w2) None None ports1 ltac:(lia)) as (ports2 & -> & H2).
  cbn [mbind option_bind].
  destruct (register_write_spec (p + 2) device (Some w3) (Some (split16 w3 w4)) None ports2
    ltac:(lia)) as (ports3 & -> & H3).
  cbn [mbind option_bind].
  destruct (register_write_spec (p + 3) device (Some w4) None None ports3 ltac:(lia)) as (ports4 & -> & H4).
  exists ports4. split; [done|]. split; [|split; [|split]].
  - intros q Hq. by port_at H4; port_at H3; port_at H2; port_at H1.
  - assert (forall a b : entry, (read8 a = read8 b /\ read16 a = read16 b /\ read32 a = read32 b) ->
      forall c, (read8 b = read8 c /\ read16 b = read16 c /\ read32 b = read32 c) ->
      (read8 a = read8 c /\ read16 a = read16 c /\ read32 a = read32 c)) as Htr by (intuition congruence).
    intros q.
    apply (Htr _ (port ports3 q)); [rewrite H4; case_decide as E; [by rewrite E|done]|].
    apply (Htr _ (port ports2 q)); [rewrite H3; case_decide as E; [by rewrite E|done]|].
    apply (Htr _ (port ports1 q)); [rewrite H2; case_decide as E; [by rewrite E|done]|].
    rewrite H1; case_decide as E; [by rewrite E|done].
  - intros q Hq. rewrite H4. case_decide; [done|]. rewrite H3. case_decide; [done|].
    rewrite H2. case_decide; [done|]. by port_at H1.
  - by port_at H4; port_at H3; port_at H2; port_at H1.
Qed.

(** A device that registers four consecutive byte ports gets every width.
    A 32-bit (16-bit) read runs the byte handlers in the order of the ports and
    returns their bytes in little-endian order; a 32-bit write hands each port
    its byte of the data, in order; no other port changes; and unregistering
    the range leaves the four ports empty and the others as they were. *)
Theorem ports_consecutive (ports : gmap Z entry) (p device : Z) (r1 r2 r3 r4 : M W Z)
    (w1 w2 w3 w4 : write_fn) (Hp : 0 <= p) (Hp4 : p + 4 <= 0x10000) :
  exists ports1 ports2 ports3,
    register_read_consecutive p device r1 r2 (Some (r3, r4)) ports = Some ports1
    /\ register_write_consecutive p device w1 w2 (Some (w3, w4)) ports1 = Some ports2
    /\ unregister_range p 4 device ports2 = Some ports3
    /\ map (port_read8 ports2) [p; p + 1; p + 2; p + 3] = [r1; r2; r3; r4]
    /\ (forall w, let m := (a <-- r1 ;; b <-- r2 ;; ret [a; b]) in
        Forall byte (res m w) -> port_read16 ports2 p w = (le (res m w), exec m w, evs m w))
    /\ (forall w, let m := (a <-- r1 ;; b <-- r2 ;; c <-- r3 ;; d <-- r4 ;; ret [a; b; c; d]) in
        Forall byte (res m w) -> port_read32 ports2 p w = (i32 (le (res m w)), exec m w, evs m w))
    /\ (forall data, port_write32 ports2 p data =
          (w1 (byte_at data 0) ;;; w2 (byte_at data 1) ;;; w3 (byte_at data 2) ;;; w4 (byte_at data 3)))
    /\ (forall q, port ports3 q = if decide (p <= q < p + 4) then create_empty_entry else port ports q).
Proof.
  destruct (register_read_consecutive_spec p device r1 r2 r3 r4 ports Hp Hp4)
    as (ports1 & E1 & Ho1 & _ & R1 & R2 & R3 & R4 & R16 & R32).
  destruct (register_write_consecutive_spec p device w1 w2 w3 w4 ports1 Hp Hp4)
    as (ports2 & E2 & Ho2 & Hr & Hd & W32).
  destruct (unregister_range_spec p 4 device ports2 ltac:(lia) ltac:(lia) Hp4) as (ports3 & E3 & Hu).
  exists ports1, ports2, ports3. split_and!; try done.
  - cbn [map]. unfold port_read8. rewrite !(fun q => proj1 (Hr q)), R1, R2, R3, R4. done.
  - intros w m Hb. unfold port_read16. rewrite (proj1 (proj2 (Hr p))), R16.
    unfold m, join16, bind, ret, res, exec, evs in *. cbn [fst snd] in *.
    apply Forall_cons in Hb as [Ha Hb]. apply Forall_cons in Hb as [Hb _].
    rewrite <- join16_value by done. done.
  - intros w m Hb. unfold port_read32. rewrite (proj2 (proj2 (Hr p))), R32.
    unfold m, join32, bind, ret, res, exec, evs in *. cbn [fst snd] in *.
    apply Forall_cons in Hb as [Ha Hb]. apply Forall_cons in Hb as [Hb Hc].
    apply Forall_cons in Hc as [Hc Hd']. apply Forall_cons in Hd' as [Hd' _].
    rewrite <- join32_value by done. done.
  - intros data. unfold port_write32. rewrite W32. unfold split32.
    destruct (split_bytes data) as (-> & -> & -> & ->). done.
  - intros q. rewrite Hu. destruct (decide (p <= q < p + 4)) as [Hq|Hq].
    + rewrite decide_True; [done|]. split; [done|by apply Hd].
    + rewrite decide_False by tauto. by rewrite Ho2, Ho1.
Qed.

End io.

(** ** Witnesses *)

Definition demo_range : range (W := unit) :=
  mk_range 0xFED00000 0xFED00400 1 (fun a => ret (a mod 256)) (fun _ _ => skip) None None.
Definition demo_quad : quad (W := unit) :=
  mk_quad (Dev _ (fun _ => ret 5)) (Unmapped _) (Shim _) (Shim _).
Definition demo_ops : list op :=
  [RegisterRange demo_range; Register 0xFED00000 MMAP_BLOCK_SIZE demo_quad].

Lemma mmio_decodes_witness :
  let s := foldl run_op (create 0x2000000) demo_ops in
  mmap_read8 s 0xFED00010 = Some (ret 0x10)
  /\ mmap_read8 s 0xFED00500 = Some (ret 5)
  /\ from_option (fun m => res m tt) 0 (mmap_read32 s 0xFED003FE) = 0x0505FFFE.
Proof.
  set (v := apply_op (apply_op (start_view 0x2000000) (RegisterRange demo_range))
                (Register 0xFED00000 MMAP_BLOCK_SIZE demo_quad)).
  assert (reaches 0x2000000 demo_ops v) as Hr.
  { apply (reach_step _ [RegisterRange demo_range]); [apply (reach_step _ []); [constructor|]|].
    - cbn. unfold MMAP_MAX. lia.
    - cbn. unfold MMAP_MAX. repeat split; try done; vm_compute; discriminate. }
  assert (forall addr, mmap_read8 (foldl run_op (create 0x2000000) demo_ops) addr = view_read8 v addr) as H8.
  { intros addr. apply (mmio_decodes 0x2000000 demo_ops v addr 0); [unfold MMAP_MAX; lia|done|exact Hr]. }
  cbv zeta. split; [|split].
  - rewrite H8. reflexivity.
  - rewrite H8. reflexivity.
  - destruct (mmio_decodes 0x2000000 demo_ops v 0xFED003FE 0 ltac:(unfold MMAP_MAX; lia) eq_refl Hr)
      as (_ & _ & H32).
    rewrite (proj1 (H32 ltac:(vm_compute; discriminate))). reflexivity.
Defined.

Definition demo_write : write_fn (W := unit) := fun _ => skip.

Lemma ports_consecutive_witness :
  exists ports1 ports2 : gmap Z (entry (W := unit)),
    register_read_consecutive 0x70 1 (ret 1) (ret 2) (Some (ret 3, ret 0xFF)) ∅ = Some ports1
    /\ register_write_consecutive 0x70 1 demo_write demo_write (Some (demo_write, demo_write)) ports1
       = Some ports2
    /\ port_read32 ports2 0x70 tt = (0xFF030201 - 2 ^ 32, tt, []).
Proof.
  destruct (ports_consecutive ∅ 0x70 1 (ret 1) (ret 2) (ret 3) (ret 0xFF)
    demo_write demo_write demo_write demo_write ltac:(lia) ltac:(lia))
    as (p1 & p2 & p3 & H1 & H2 & _ & _ & _ & H32 & _).
  exists p1, p2. split; [exact H1|]. split; [exact H2|].
  rewrite H32; [reflexivity|]. repeat constructor; vm_compute; try discriminate; reflexivity.
Defined.

End Io.
