(* ===== verification/Irq.v ===== *)
(** * src/cpu.js: level-triggered interrupt lines with several sources

    [set_shared_irq_level] and [set_shared_gsi_level] of the CPU, and the part
    of a machine reset that deasserts every shared line.  A line stays
    asserted while any source asserts it. *)

From S2P Require Import Prelude.

Set Default Goal Selector "!".
Set Warnings "-clear-no-such-hyp".

Module Irq.

(** [this.shared_irq_sources]: 24 sets of source ids. *)
Record t := mk { shared_irq_sources : list (gset Z) }.

Definition create : t := mk (replicate 24 ∅).

Definition sources (s : t) (irq : Z) : gset Z := default ∅ (shared_irq_sources s !! Z.to_nat irq).

Definition set_sources (irq : Z) (x : gset Z) : M t unit :=
  modify (fun s => s <| shared_irq_sources := <[Z.to_nat irq := x]> (shared_irq_sources s) |>).

(** The source's Set operations on line [irq], with the pair of functions that
    raise and lower the line. *)
Definition set_level (raise lower : Z -> event) (irq source : Z) (level : bool) : M t unit :=
  s <-- get ;;
  if level then
    set_sources irq ({[source]} ∪ sources s irq) ;;; emit (raise irq)
  else
    let rest := sources s irq ∖ {[source]} in
    set_sources irq rest ;;;
    when (bool_decide (size rest = 0%nat)) (emit (lower irq)).

Definition set_shared_irq_level : Z -> Z -> bool -> M t unit := set_level DeviceRaiseIrq DeviceLowerIrq.
Definition set_shared_gsi_level : Z -> Z -> bool -> M t unit := set_level IoapicRaiseIrq IoapicLowerIrq.

(** [reboot_internal]: a reset deasserts every level-triggered source. *)
Definition reset_line (irq : Z) : M t unit :=
  s <-- get ;;
  if bool_decide (size (sources s irq) = 0%nat) then skip
  else set_sources irq ∅ ;;;
       emit (if irq <? 16 then DeviceLowerIrq irq else IoapicLowerIrq irq).
Definition reset_lines : M t unit := mfor (seqZ 0 24) reset_line.

(** The calls other devices make. *)
Inductive call :=
| SetIrq (irq source : Z) (level : bool)
| SetGsi (gsi source : Z) (level : bool)
| ResetLines.

Definition run_call (c : call) : M t unit :=
  match c with
  | SetIrq irq source level => set_shared_irq_level irq source level
  | SetGsi gsi source level => set_shared_gsi_level gsi source level
  | ResetLines => reset_lines
  end.

(** PIC inputs are 0-15, IOAPIC-only inputs 16-23. *)
Definition valid (c : call) : Prop :=
  match c with
  | SetIrq irq _ _ => 0 <= irq < 16
  | SetGsi gsi _ _ => 16 <= gsi < 24
  | ResetLines => True
  end.

(** The level of line [n], a PIC input or an IOAPIC-only one, after effects. *)
Fixpoint level (n : Z) (l : bool) (es : list event) : bool :=
  match es with
  | [] => l
  | DeviceRaiseIrq k :: es => level n (if k =? n then true else l) es
  | DeviceLowerIrq k :: es => level n (if k =? n then false else l) es
  | IoapicRaiseIrq k :: es => level n (if k =? n then true else l) es
  | IoapicLowerIrq k :: es => level n (if k =? n then false else l) es
  | _ :: es => level n l es
  end.

Lemma level_app n l es1 es2 : level n l (es1 ++ es2) = level n (level n l es1) es2.
Proof. revert l. induction es1 as [|e es1 IH]; intros l; [done|]. destruct e; apply IH. Qed.

Definition wf (s : t) : Prop := length (shared_irq_sources s) = 24%nat.

(** The line's level is asserted exactly while it has a source. *)
Definition consistent (n : Z) (l : bool) (s : t) : Prop :=
  l = bool_decide (sources s n <> ∅).

Definition line (n : Z) : Prop := 0 <= n < 24.

Lemma irq_create_wf : wf create.
Proof. done. Qed.

Lemma sources_create n : sources create n = ∅.
Proof.
  unfold sources, create. cbn [shared_irq_sources]. destruct (replicate 24 ∅ !! Z.to_nat n) eqn:E; [|done].
  apply lookup_replicate in E as [-> _]. done.
Qed.

Lemma sources_set s irq n x :
  wf s -> line irq -> line n ->
  sources (exec (set_sources irq x) s) n = if decide (irq = n) then x else sources s n.
Proof.
  intros Hw Hi Hn. unfold sources, set_sources, line, wf in *. msimpl. cbn.
  destruct (decide (irq = n)) as [<-|].
  - by rewrite list_lookup_insert_eq by lia.
  - by rewrite list_lookup_insert_ne by lia.
Qed.

Lemma set_sources_wf irq x : preserves wf (set_sources irq x).
Proof. intros s Hs. unfold wf in *. cbn. by rewrite length_insert. Qed.

#[local] Hint Resolve set_sources_wf : dev.

Lemma set_level_wf raise lower irq source l : preserves wf (set_level raise lower irq source l).
Proof.
  apply preserves_get. intros s Hs. destruct l; rewrite exec_bind;
    [|apply preserves_when; [auto with dev|]]; by apply set_sources_wf.
Qed.

Lemma reset_line_wf irq : preserves wf (reset_line irq).
Proof.
  apply preserves_get. intros s Hs. case_bool_decide; [done|]. rewrite exec_bind.
  by apply set_sources_wf.
Qed.

Lemma run_call_wf c : preserves wf (run_call c).
Proof.
  destruct c; [apply set_level_wf|apply set_level_wf|].
  apply preserves_mfor, reset_line_wf.
Qed.

(** The effect of driving one source, on any line. *)
Lemma set_level_sources raise lower irq source l s n :
  wf s -> line irq -> line n ->
  sources (exec (set_level raise lower irq source l) s) n
  = if decide (irq = n) then
      (if l then {[source]} ∪ sources s n else sources s n ∖ {[source]})
    else sources s n.
Proof.
  intros Hw Hi Hn. unfold set_level. rewrite exec_bind. cbn [res get].
  destruct l; rewrite exec_bind; [|destruct (bool_decide _)]; cbn [when exec emit skip ret snd fst];
    rewrite sources_set by done; destruct (decide (irq = n)) as [<-|]; done.
Qed.

Lemma set_level_consistent raise lower irq source l s n b :
  (raise = DeviceRaiseIrq /\ lower = DeviceLowerIrq
   \/ raise = IoapicRaiseIrq /\ lower = IoapicLowerIrq) ->
  wf s -> line irq -> line n -> consistent n b s ->
  consistent n (level n b (evs (set_level raise lower irq source l) s))
    (exec (set_level raise lower irq source l) s).
Proof.
  intros Hf Hw Hi Hn Hc. unfold consistent in *. rewrite set_level_sources by done.
  unfold set_level. rewrite evs_bind. cbn [evs get res app snd fst].
  destruct l; rewrite evs_bind; cbn [evs set_sources modify app snd fst emit].
  - assert (level n b [raise irq] = if irq =? n then true else b) as ->
      by (destruct Hf as [[-> ->]|[-> ->]]; done).
    destruct (Z.eqb_spec irq n) as [<-|]; [rewrite decide_True by done|by rewrite decide_False].
    symmetry. apply bool_decide_eq_true. set_solver.
  - set (rest := sources s irq ∖ {[source]}).
    assert (level n b ((when (bool_decide (size rest = 0%nat)) (emit (lower irq)) (exec (set_sources irq rest) s)).2)
      = if bool_decide (size rest = 0%nat) then (if irq =? n then false else b) else b) as E.
    { destruct (bool_decide (size rest = 0%nat)); cbn; [|done].
      destruct Hf as [[-> ->]|[-> ->]]; done. }
    etransitivity; [exact E|]. clear E.
    destruct (decide (irq = n)) as [<-|Hne].
    + rewrite Z.eqb_refl. destruct (decide (size rest = 0%nat)) as [Hs|Hs];
        [rewrite (bool_decide_eq_true_2 _ Hs)|rewrite (bool_decide_eq_false_2 _ Hs)].
      * symmetry. apply bool_decide_eq_false. intros H. apply H.
        apply leibniz_equiv, size_empty_inv, Hs.
      * rewrite Hc. transitivity true; [apply bool_decide_eq_true|symmetry; apply bool_decide_eq_true].
        -- intros H0. apply Hs. unfold rest. rewrite H0. apply size_empty_iff. set_solver.
        -- intros H0. apply Hs. unfold rest. by rewrite H0, size_empty.
    + rewrite (proj2 (Z.eqb_neq irq n)) by done. by destruct (bool_decide (size rest = 0%nat)).
Qed.

Lemma reset_line_sources irq s n :
  wf s -> line irq -> line n ->
  sources (exec (reset_line irq) s) n = if decide (irq = n) then ∅ else sources s n.
Proof.
  intros Hw Hi Hn. unfold reset_line. rewrite exec_bind. cbn [res get exec fst snd].
  case_bool_decide as Hs.
  - cbn. destruct (decide (irq = n)) as [<-|]; [|done]. apply leibniz_equiv, size_empty_inv, Hs.
  - rewrite exec_bind. cbn [emit exec snd fst]. by rewrite sources_set.
Qed.

Lemma reset_line_consistent irq s n b :
  wf s -> line irq -> line n -> consistent n b s ->
  consistent n (level n b (evs (reset_line irq) s)) (exec (reset_line irq) s).
Proof.
  intros Hw Hi Hn Hc. unfold consistent in *. rewrite reset_line_sources by done.
  unfold reset_line. rewrite evs_bind. cbn [res get exec evs fst snd app].
  destruct (decide (size (sources s irq) = 0%nat)) as [Hs|Hs];
    [rewrite (bool_decide_eq_true_2 _ Hs)|rewrite (bool_decide_eq_false_2 _ Hs)].
  - change (b = bool_decide ((if decide (irq = n) then ∅ else sources s n) ≠ ∅)). rewrite Hc.
    destruct (decide (irq = n)) as [<-|]; [|done].
    by rewrite (leibniz_equiv _ _ (size_empty_inv _ Hs)).
  - rewrite evs_bind. cbn [evs set_sources modify app snd fst emit].
    assert (level n b [if irq <? 16 then DeviceLowerIrq irq else IoapicLowerIrq irq]
      = if irq =? n then false else b) as -> by (by destruct (irq <? 16)).
    destruct (Z.eqb_spec irq n) as [<-|]; [by rewrite decide_True|by rewrite decide_False].
Qed.

Lemma run_call_consistent c s n b :
  wf s -> valid c -> line n -> consistent n b s ->
  consistent n (level n b (evs (run_call c) s)) (exec (run_call c) s).
Proof.
  intros Hw Hv Hn Hc. destruct c; cbn in Hv.
  - apply set_level_consistent; auto. unfold line. lia.
  - apply set_level_consistent; auto. unfold line. lia.
  - unfold run_call, reset_lines.
    assert (Forall line (seqZ 0 24)) as Hl.
    { apply Forall_forall. intros x Hx. apply elem_of_seqZ in Hx. unfold line. lia. }
    revert s b Hw Hc. induction Hl as [|irq l Hi _ IH]; intros s b Hw Hc; [done|].
    change (mfor (irq :: l) reset_line) with (reset_line irq ;;; mfor l reset_line).
    rewrite evs_bind, exec_bind, level_app. apply IH; [by apply reset_line_wf|].
    by apply reset_line_consistent.
Qed.

(** Whether [source] drives [n] after the calls: the last call about it. *)
Fixpoint asserted (n source : Z) (a : bool) (cs : list call) : bool :=
  match cs with
  | [] => a
  | SetIrq irq src l :: cs => asserted n source (if (irq =? n) && (src =? source) then l else a) cs
  | SetGsi gsi src l :: cs => asserted n source (if (gsi =? n) && (src =? source) then l else a) cs
  | ResetLines :: cs => asserted n source false cs
  end.

Definition run (cs : list call) : M t unit := mfor cs run_call.

Lemma reset_lines_sources s n : wf s -> line n -> sources (exec reset_lines s) n = ∅.
Proof.
  intros Hw Hn. unfold reset_lines.
  assert (forall l s, wf s -> Forall line l ->
    sources (exec (mfor l reset_line) s) n = if decide (n ∈ l) then ∅ else sources s n) as H.
  { clear s Hw. induction l as [|irq l IH]; intros s Hw Hl.
    - by rewrite decide_False by set_solver.
    - apply Forall_cons in Hl as [Hi Hl].
      change (mfor (irq :: l) reset_line) with (reset_line irq ;;; mfor l reset_line).
      rewrite exec_bind, IH, reset_line_sources by (done || by apply reset_line_wf).
      destruct (decide (n ∈ l)); [by rewrite decide_True by set_solver|].
      destruct (decide (irq = n)) as [->|]; [by rewrite decide_True by set_solver|].
      by rewrite decide_False by set_solver. }
  rewrite H; [|done|].
  - rewrite decide_True; [done|]. apply elem_of_seqZ. unfold line in Hn. lia.
  - apply Forall_forall. intros x Hx. apply elem_of_seqZ in Hx. unfold line. lia.
Qed.

Lemma run_call_sources c s n source :
  wf s -> valid c -> line n ->
  (source ∈ sources (exec (run_call c) s) n)
  <-> asserted n source (bool_decide (source ∈ sources s n)) [c] = true.
Proof.
  intros Hw Hv Hn. destruct c as [irq src l|gsi src l|]; cbn in Hv; unfold run_call; cbn [asserted].
  1-2: unfold set_shared_irq_level, set_shared_gsi_level; rewrite set_level_sources by (done || unfold line; lia).
  3: { rewrite reset_lines_sources by done. set_solver. }
  all: destruct (decide _) as [<-|Hne];
    [rewrite Z.eqb_refl|rewrite (proj2 (Z.eqb_neq _ _)) by done; cbn; by rewrite bool_decide_eq_true].
  all: cbn; destruct (Z.eqb_spec src source) as [<-|], l; rewrite ?bool_decide_eq_true; set_solver.
Qed.

(** C32: shared interrupt lines: whatever sequence of level changes and machine
    resets the devices cause, every line is asserted exactly while some source
    asserts it, and the sources asserting it are those whose last call on that
    line (since the last reset) raised it. *)
Theorem shared_line_level (cs : list call) (n : Z) :
  Forall valid cs -> line n ->
  let s := exec (run cs) create in
  level n false (evs (run cs) create) = bool_decide (sources s n <> ∅)
  /\ forall source, source ∈ sources s n <-> asserted n source false cs = true.
Proof.
  intros Hv Hn. cbn zeta.
  assert (forall s b, wf s -> consistent n b s ->
    consistent n (level n b (evs (run cs) s)) (exec (run cs) s)
    /\ forall source, source ∈ sources (exec (run cs) s) n
       <-> asserted n source (bool_decide (source ∈ sources s n)) cs = true) as H.
  { induction Hv as [|c cs Hc _ IH]; intros s b Hw Hs.
    - split; [done|]. intros. cbn. by rewrite bool_decide_eq_true.
    - change (run (c :: cs)) with (run_call c ;;; run cs). rewrite evs_bind, exec_bind, level_app.
      destruct (IH (exec (run_call c) s) (level n b (evs (run_call c) s))) as [H1 H2];
        [by apply run_call_wf|by apply run_call_consistent|].
      split; [done|]. intros source. rewrite H2.
      assert (bool_decide (source ∈ sources (exec (run_call c) s) n)
        = asserted n source (bool_decide (source ∈ sources s n)) [c]) as ->.
      { apply Bool.eq_iff_eq_true. rewrite bool_decide_eq_true. by apply run_call_sources. }
      by destruct c. }
  destruct (H create false irq_create_wf) as [H1 H2].
  - unfold consistent. rewrite sources_create. symmetry. apply bool_decide_eq_false. auto.
  - split; [done|]. intros source. rewrite H2, sources_create. done.
Qed.

Lemma shared_line_level_witness :
  let cs := [SetIrq 9 256 true; SetIrq 9 56 true; SetIrq 9 256 false] in
  Forall valid cs /\ line 9 /\ level 9 false (evs (run cs) create) = true.
Proof.
  assert (Forall valid [SetIrq 9 256 true; SetIrq 9 56 true; SetIrq 9 256 false]) as H
    by (repeat constructor; cbn; lia).
  assert (line 9) as Hl by (unfold line; lia).
  split_and!; [exact H|exact Hl|].
  rewrite (proj1 (shared_line_level _ 9 H Hl)). apply bool_decide_eq_true.
  intros E. assert (56 ∈ (∅ : gset Z)) as Hn; [|set_solver].
  rewrite <- E. apply (proj2 (shared_line_level _ 9 H Hl) 56). reflexivity.
Defined.

End Irq.
