(* ===== verification/Pci.v ===== *)
(** * The PCI buses ([pci.js])

    Configuration space of every function, with the semantics of the header
    registers; buses behind bridges, which forward configuration accesses, memory,
    I/O, bus master requests and interrupt pins; base address registers; INTx.
    The shared interrupt lines are those of [Irq.v].  The chipset that routes the
    pins is the class [Board]; the callbacks of the devices are the parameter
    [on_callback] of a section.  A configuration space is a list of bytes: the source's
    32-bit views of the same buffer are [get32] and [set32]. *)

From stdpp Require Import sorting.
From S2P Require Import Prelude Irq.

Set Warnings "-clear-no-such-hyp".

Module Pci.

Definition PCI_COMMAND_IO : Z := 1.
Definition PCI_COMMAND_MEMORY : Z := 2.
Definition PCI_COMMAND_MASTER : Z := 4.
Definition PCI_COMMAND_INTX_DISABLE : Z := 1 .<< 10.
Definition PCI_COMMAND_WRITABLE : Z :=
  PCI_COMMAND_IO .| PCI_COMMAND_MEMORY .| PCI_COMMAND_MASTER .| (1 .<< 6) .| (1 .<< 8) .| PCI_COMMAND_INTX_DISABLE.
Definition PCI_STATUS_INTERRUPT : Z := 1 .<< 3.
Definition PCI_STATUS_RW1C : Z := 0xF900.
Definition PCI_CAP_MSI : Z := 5.
Definition MSI_CONTROL_ENABLE : Z := 1.
Definition MSI_CONTROL_64BIT : Z := 1 .<< 7.
Definition PCI_HEADER_TYPE_BRIDGE : Z := 1.
Definition BRIDGE_SECONDARY_BUS : Z := 0x19.
Definition BRIDGE_SUBORDINATE_BUS : Z := 0x1A.
Definition BRIDGE_IO_BASE : Z := 0x1C.
Definition BRIDGE_IO_LIMIT : Z := 0x1D.
Definition BRIDGE_SECONDARY_STATUS : Z := 0x1E.
Definition BRIDGE_MEMORY_BASE : Z := 0x20.
Definition BRIDGE_MEMORY_LIMIT : Z := 0x22.
Definition BRIDGE_PREFETCH_BASE : Z := 0x24.
Definition BRIDGE_PREFETCH_LIMIT : Z := 0x26.
Definition BRIDGE_PREFETCH_BASE_UPPER : Z := 0x28.
Definition BRIDGE_PREFETCH_LIMIT_UPPER : Z := 0x2C.
Definition BRIDGE_CONTROL : Z := 0x3E.
Definition BRIDGE_CONTROL_ISA : Z := 1 .<< 2.

Definition msi_capability (next : Z) : list Z := [PCI_CAP_MSI; next; MSI_CONTROL_64BIT; 0; 0; 0; 0; 0; 0; 0; 0; 0; 0; 0].

Definition header_byte_writable (offset : Z) : bool :=
  (offset =? 0x0C) || (offset =? 0x0D) || (offset =? 0x0F) || (offset =? 0x3C).

(** [fill] and [set] of a typed array. *)
Definition fill (l : list Z) (v start stop : Z) : list Z := fold_left (fun l i => arr_set l i v) (seqZ start (stop - start)) l.
Definition set_at (l : list Z) (vs : list Z) (start : Z) : list Z := foldr (fun p l => arr_set l (start + Z.of_nat p.1) p.2) l (imap (fun i v => (i, v)) vs).

Definition BRIDGE_HEADER_WRITABLE : list Z :=
  let l := replicate 0x40 0 in
  let l := fill l 0xFF 0x18 0x1C in
  let l := arr_set (arr_set l BRIDGE_IO_LIMIT 0xF0) BRIDGE_IO_BASE 0xF0 in
  let l := set_at l [0xF0; 0xFF; 0xF0; 0xFF; 0xF0; 0xFF; 0xF0; 0xFF] BRIDGE_MEMORY_BASE in
  let l := fill l 0xFF BRIDGE_PREFETCH_BASE_UPPER (BRIDGE_PREFETCH_LIMIT_UPPER + 4) in
  let l := arr_set l 0x3C 0xFF in
  arr_set l BRIDGE_CONTROL 0x5F.

(** ** Configuration spaces *)

Definition space : Type := list Z.

Definition get8 (sp : space) (o : Z) : Z := arr_get sp o.
Definition get16 (sp : space) (o : Z) : Z := get8 sp o .| (get8 sp (o + 1) .<< 8).
(** [bytes[o] | bytes[o + 1] << 8 | bytes[o + 2] << 16 | bytes[o + 3] << 24], unsigned. *)
Definition get32u (sp : space) (o : Z) : Z := get8 sp o + 256 * get8 sp (o + 1) + 65536 * get8 sp (o + 2) + 16777216 * get8 sp (o + 3).
(** Element [i] of the [Int32Array]. *)
Definition get32 (sp : space) (i : Z) : Z := i32 (get32u sp (4 * i)).
Definition set8 (sp : space) (o v : Z) : space := arr_set sp o (u8 v).
Definition set32 (sp : space) (i v : Z) : space :=
  set8 (set8 (set8 (set8 sp (4 * i) v) (4 * i + 1) (v .>> 8)) (4 * i + 2) (v .>> 16)) (4 * i + 3) (v .>> 24).

(** ** Devices *)

(** [entries]: the objects of [io.ports] that serve the BAR; [moves]: the device has [on_move]. *)
Record bar := mk_bar {
  size : Z;
  fixed : bool;
  moves : bool;
  original_bar : Z;
  base : Z;
  entries : list (option Z);
  assigned : option Z;
  mapped : option Z
}.

Record device := mk_device {
  pci_id : Z;
  pci_space : list Z;
  pci_config_size : Z;
  pci_bars : list (option bar);
  pci_rom_size : Z;
  pci_rom_address : Z;
  pci_secondary_bus : option Z;
  pci_express_downstream : bool
}.

(** What a device is told. *)
Inductive callback :=
| OnConfigWrite (pci_id offset size : Z)
| OnConfigRestore (pci_id : Z)
| OnCommandChange (pci_id old_command command : Z)
| OnUpstreamChange (pci_id : Z)
| OnMove (pci_id bar_nr base : Z)
| OnUnplug (pci_id : Z)
| DeviceReset (pci_id : Z).

(** The chipset: its own registers and its routing of the interrupt pins of bus 0 to an ISA IRQ (bit 7: none) and
    an IOAPIC input (or -1), which also depends on configuration registers. *)
Class Board := {
  chip : Type;
  irq_route : chip -> gmap Z space -> Z -> Z -> Z * Z
}.

Section pci.
Context {B : Board}.

(** [ports]: the array [io.ports], of which only the identity of the entries
    matters; [next_entry]: the next object [create_empty_entry] makes.  [stray] is not a field of the source: it is
    set once a shared line has been driven that is not an input of the machine (see [shared_irq]). *)
Record t := mk {
  pci_addr : list Z;
  pci_value : list Z;
  pci_response : list Z;
  pci_status : list Z;
  device_spaces : gmap Z space;
  devices : gmap Z device;
  asserted_irq_lines : gmap Z Z;
  asserted_gsis : gmap Z Z;
  intx_levels : gmap Z bool;
  bridge_for_bus : gmap Z Z;
  bridges_on : gmap Z (list Z);
  ecam_base : Z;
  ecam_size : Z;
  absent : gset Z;
  templates : gmap Z space;
  reset_control : Z;
  ports : gmap Z Z;
  next_entry : Z;
  lines : Irq.t;
  chipset : chip;
  stray : bool
}.

Context (on_callback : callback -> M t unit).

Definition on_space (id : Z) (f : space -> space) : M t unit :=
  modify (fun s => s <| device_spaces := alter f id (device_spaces s) |>).
Definition on_device (id : Z) (f : device -> device) : M t unit :=
  modify (fun s => s <| devices := alter f id (devices s) |>).
Definition on_bar (id nr : Z) (f : bar -> bar) : M t unit :=
  on_device id (fun d => d <| pci_bars := alter (fmap f) (Z.to_nat nr) (pci_bars d) |>).
Definition bar_at (d : device) (nr : Z) : option bar := mjoin (pci_bars d !! Z.to_nat nr).

Definition space_of (s : t) (id : Z) : space := default [] (device_spaces s !! id).
Definition undefined {A} (o : option A) : bool := match o with None => true | Some _ => false end.

(** A method of the CPU on its shared lines. *)
Definition on_lines {A} (m : M Irq.t A) : M t A := fun s => (res m (lines s), s <| lines := exec m (lines s) |>, evs m (lines s)).

(** ** Bridges *)

Definition get_command (s : t) (bdf : Z) : Z :=
  match device_spaces s !! bdf with Some sp => get32 sp 1 .& 0xFFFF | None => 0 end.
Definition is_memory_enabled (s : t) (bdf : Z) : bool := has (get_command s bdf) PCI_COMMAND_MEMORY.
Definition is_io_enabled (s : t) (bdf : Z) : bool := has (get_command s bdf) PCI_COMMAND_IO.

Definition parent_bridge (s : t) (id : Z) : Z :=
  if 256 <=? id then default (-1) (bridge_for_bus s !! (id .>> 8)) else -1.

(** The bridges the loops [for(let bridge = parent_bridge(id); bridge !== -1; bridge = parent_bridge(bridge))]
    go through, in order. *)
Fixpoint bridges_above (fuel : nat) (s : t) (id : Z) : list Z :=
  match fuel with
  | O => []
  | S fuel =>
      let bridge := parent_bridge s id in
      if bridge =? -1 then [] else bridge :: bridges_above fuel s bridge
  end.

(** There are 256 buses. *)
Definition BUSES : nat := 256.
Definition upstream (s : t) (id : Z) : list Z := bridges_above BUSES s id.

Definition upstream_bus_master (s : t) (id : Z) : bool :=
  negb (bool_decide (id ∈ absent s)) && forallb (fun bridge => has (get_command s bridge) PCI_COMMAND_MASTER) (upstream s id).
Definition is_bus_master (s : t) (bdf : Z) : bool :=
  has (get_command s bdf) PCI_COMMAND_MASTER && upstream_bus_master s bdf.

(** The windows of a bridge. *)
Definition forwards_memory (sp : space) (base end_ : Z) : bool :=
  let memory_base := (get16 sp BRIDGE_MEMORY_BASE .& 0xFFF0) * 0x10000 in
  let memory_limit := (get16 sp BRIDGE_MEMORY_LIMIT .& 0xFFF0) * 0x10000 + 0xFFFFF in
  let prefetch_base := (get16 sp BRIDGE_PREFETCH_BASE .& 0xFFF0) * 0x10000 + get32u sp BRIDGE_PREFETCH_BASE_UPPER * 0x100000000 in
  let prefetch_limit := (get16 sp BRIDGE_PREFETCH_LIMIT .& 0xFFF0) * 0x10000 + 0xFFFFF + get32u sp BRIDGE_PREFETCH_LIMIT_UPPER * 0x100000000 in
  (memory_base <=? base) && (end_ <=? memory_limit) || (prefetch_base <=? base) && (end_ <=? prefetch_limit).

Definition upstream_forwards_memory (s : t) (id base size : Z) : bool :=
  let end_ := base + size - 1 in
  negb (bool_decide (id ∈ absent s)) &&
  forallb (fun bridge => has (get_command s bridge) PCI_COMMAND_MEMORY && forwards_memory (space_of s bridge) base end_) (upstream s id).

Definition forwards_io (sp : space) (port end_ : Z) : bool :=
  let io_base := (get8 sp BRIDGE_IO_BASE .& 0xF0) .<< 8 in
  let io_limit := ((get8 sp BRIDGE_IO_LIMIT .& 0xF0) .<< 8) .| 0xFFF in
  negb ((port <? io_base) || (io_limit <? end_))
  && negb (has (get8 sp BRIDGE_CONTROL) BRIDGE_CONTROL_ISA && (has port 0x300 || has end_ 0x300 || (0x100 <=? end_ - port))).

Definition upstream_forwards_io (s : t) (id port size : Z) : bool :=
  let end_ := port + size - 1 in
  negb (bool_decide (id ∈ absent s)) &&
  forallb (fun bridge => has (get_command s bridge) PCI_COMMAND_IO && forwards_io (space_of s bridge) port end_) (upstream s id).

Definition memory_decoded (s : t) (id base size : Z) : bool :=
  is_memory_enabled s id && upstream_forwards_memory s id base size.

(** ** Interrupt pins *)

(** The PIIX3's routing: the registers 0x60-0x63 of the ISA bridge at 00:01.0. *)
Definition piix_pirq_line (spaces : gmap Z space) (id pin : Z) : Z :=
  let device := ((id .>> 3) - 1) .& 0xFF in
  let parent_pin := (pin + device) .& 3 in
  get8 (default [] (spaces !! 8)) (0x60 + parent_pin).

(** Crossing the bridges: the function reached so far and its pin. *)
Definition swizzle (at_ : Z * Z) (bridge : Z) : Z * Z := (bridge, (at_.2 + ((at_.1 .>> 3) .& 0x1F)) .& 3).

Definition root_pin (s : t) (id : Z) : Z * Z :=
  let pin := ((get32 (space_of s id) (0x3C .>> 2) .>> 8) .& 0xFF) - 1 in
  if (pin <? 0) || (3 <? pin) then (id, -1) else fold_left swizzle (upstream s id) (id, pin).

Definition get_irq_line (s : t) (id : Z) : Z :=
  let '(root, pin) := root_pin s id in piix_pirq_line (device_spaces s) root pin.

Definition route (s : t) (id : Z) : Z * Z :=
  let '(root, pin) := root_pin s id in irq_route (chipset s) (device_spaces s) root pin.

Definition set_asserted (id : Z) (irq : option Z) : M t unit :=
  modify (fun s => s <| asserted_irq_lines := partial_alter (fun _ => irq) id (asserted_irq_lines s) |>).
Definition set_asserted_gsi (id : Z) (gsi : option Z) : M t unit :=
  modify (fun s => s <| asserted_gsis := partial_alter (fun _ => gsi) id (asserted_gsis s) |>).

(** The calls are made for a line that is defined.  The PIC has the inputs 0-15 and the IOAPIC 16-23 besides, but the
    PIIX's PIRQ registers hold any number the guest writes: a number above 15 is no PIC input, and above 23 the CPU has
    no sources for it and its method throws.  [stray] records such a call, and what the model does after one says
    nothing about the program. *)
Definition pic_input (irq : Z) : bool := (0 <=? irq) && (irq <? 16).
Definition ioapic_input (gsi : Z) : bool := (16 <=? gsi) && (gsi <? 24).
Definition set_stray : M t unit := modify (fun s => s <| stray := true |>).

Definition shared_irq (irq : option Z) (id : Z) (level : bool) : M t unit :=
  match irq with
  | Some irq => if pic_input irq then on_lines (Irq.set_shared_irq_level irq id level)
                else set_stray ;;; on_lines (Irq.set_shared_irq_level irq id level)
  | None => skip
  end.
Definition shared_gsi (gsi : option Z) (id : Z) (level : bool) : M t unit :=
  match gsi with
  | Some gsi => if ioapic_input gsi then on_lines (Irq.set_shared_gsi_level gsi id level)
                else set_stray ;;; on_lines (Irq.set_shared_gsi_level gsi id level)
  | None => skip
  end.

Definition drive_intx (id : Z) (level : bool) : M t unit :=
  s <-- get ;;
  let '(pic, gsi_route) := route s id in
  let previous := asserted_irq_lines s !! id in
  let previous_gsi := asserted_gsis s !! id in
  if level then
    let irq := if has pic 0x80 then None else Some pic in
    when (negb (undefined previous) && negb (bool_decide (previous = irq))) (shared_irq previous id false) ;;;
    set_asserted id irq ;;;
    shared_irq irq id true ;;;
    let gsi := if 0 <=? gsi_route then Some gsi_route else None in
    when (negb (undefined previous_gsi) && negb (bool_decide (previous_gsi = gsi))) (shared_gsi previous_gsi id false) ;;;
    set_asserted_gsi id gsi ;;;
    shared_gsi gsi id true
  else
    let irq := default pic previous in
    set_asserted id None ;;;
    when (negb (has irq 0x80)) (shared_irq (Some irq) id false) ;;;
    let gsi := if undefined previous_gsi && (0 <=? gsi_route) then Some gsi_route else previous_gsi in
    set_asserted_gsi id None ;;;
    shared_gsi gsi id false.

Definition set_irq_level (id : Z) (level : bool) : M t unit :=
  modify (fun s => s <| intx_levels := <[id := level]> (intx_levels s) |>) ;;;
  on_space id (fun sp => set32 sp 1 (if level then js_or (get32 sp 1) (PCI_STATUS_INTERRUPT .<< 16)
                                     else js_and (get32 sp 1) (js_not (PCI_STATUS_INTERRUPT .<< 16)))) ;;;
  s <-- get ;;
  let disabled := match device_spaces s !! id with Some sp => has (get32 sp 1) PCI_COMMAND_INTX_DISABLE | None => false end in
  drive_intx id (level && negb disabled && negb (bool_decide (id ∈ absent s))).

Definition raise_irq (id : Z) : M t unit := set_irq_level id true.
Definition lower_irq (id : Z) : M t unit := set_irq_level id false.

(** ** Base address registers *)

Definition set_port (p : Z) (entry : option Z) : M t unit :=
  modify (fun s => s <| ports := partial_alter (fun _ => entry) p (ports s) |>).
(** [ports[p] = io.create_empty_entry()] *)
Definition clear_port (p : Z) : M t unit :=
  s <-- get ;;
  modify (fun s => s <| next_entry := next_entry s + 1 |>) ;;; set_port p (Some (next_entry s)).

Definition entry_of (b : bar) (i : Z) : option Z := mjoin (entries b !! Z.to_nat i).

(** Map a BAR of a function behind bridges where it is assigned, if they forward it there. *)
Definition io_bar_target (s : t) (id : Z) (b : bar) : Z :=
  match assigned b with
  | Some a => if (0x1000 <=? a) && (a + size b <=? 0x10000) && upstream_forwards_io s id a (size b) then a else -1
  | None => -1
  end.

Definition update_io_bar (id nr : Z) : M t unit :=
  s <-- get ;;
  match devices s !! id ≫= fun d => bar_at d nr with
  | Some b =>
      let at_ := io_bar_target s id b in
      if bool_decide (mapped b = Some at_) then skip
      else
        (match mapped b with
         | Some m =>
             when (negb (m =? -1))
               (mfor (seqZ 0 (size b)) (fun i =>
                  s <-- get ;;
                  when (bool_decide (ports s !! (m + i) = entry_of b i)) (clear_port (m + i))))
         | None => skip
         end) ;;;
        when (negb (at_ =? -1)) (mfor (seqZ 0 (size b)) (fun i => set_port (at_ + i) (entry_of b i))) ;;;
        on_bar id nr (fun b => b <| mapped := Some at_ |>)
  | None => skip
  end.

Definition bar_numbers (d : device) : list Z := seqZ 0 (Z.of_nat (length (pci_bars d))).

Definition upstream_changed (id : Z) : M t unit :=
  s <-- get ;;
  match devices s !! id with
  | Some d =>
      mfor (bar_numbers d) (fun nr =>
        s <-- get ;;
        match devices s !! id ≫= fun d => bar_at d nr with
        | Some b => when (negb (undefined (assigned b))) (update_io_bar id nr)
        | None => skip
        end) ;;;
      on_callback (OnUpstreamChange id)
  | None => skip
  end.

(** The order of [devices.forEach]. *)
Definition device_ids (s : t) : list Z := merge_sort Z.le (elements (dom (devices s))).

Definition bridge_changed (bridge : Z) : M t unit :=
  s <-- get ;;
  mfor (device_ids s) (fun id =>
    s <-- get ;; when (bool_decide (bridge ∈ upstream s id)) (upstream_changed id)).

Definition move_bar (id nr base : Z) : M t unit :=
  s <-- get ;;
  match devices s !! id ≫= fun d => bar_at d nr with
  | Some b =>
      when (negb (Pci.base b =? base))
        (on_bar id nr (fun b => b <| Pci.base := base |>) ;;; on_callback (OnMove id nr base))
  | None => skip
  end.
Definition move_memory_bar (id nr base : Z) : M t unit := move_bar id nr (u32 base).
Definition move_io_bar (id nr port : Z) : M t unit := move_bar id nr port.

Definition set_io_bars (b : bar) (from to : Z) : M t unit :=
  mfor (seqZ 0 (size b)) (fun i =>
    when (0x1000 <=? from + i) (clear_port (from + i)) ;;;
    when (0x1000 <=? to + i) (set_port (to + i) (entry_of b i))).

(** An I/O port of a BAR's value. *)
Definition io_port (value : Z) : Z := js_and (js_and value (js_not 1)) 0xFFFF.
(** All ones: the guest asks for the size. *)
Definition probing (b : bar) (written : Z) : bool := js_or (js_or written 3) (size b - 1) =? -1.

Definition write_bar (id offset written : Z) : M t unit :=
  let nr := (offset - 0x10) .>> 2 in
  let space_addr := offset .>> 2 in
  let store v := on_space id (fun sp => set32 sp space_addr v) in
  s <-- get ;;
  match devices s !! id ≫= fun d => bar_at d nr with
  | None => store 0
  | Some b =>
      let old := get32 (space_of s id) space_addr in
      let type := old .& 1 in
      let probe := probing b written in
      let written' := if probe then js_or (js_not (size b - 1)) type else written in
      (if type =? 0 then
         if probe then store (js_or written' (js_and (original_bar b) 0xF))
         else if moves b then
           let base := js_and (js_and written (js_not (size b - 1))) (js_not 0xF) in
           store (js_or base (js_and (original_bar b) 0xF)) ;;;
           move_memory_bar id nr base
         else store (original_bar b)
       else skip) ;;;
      when (type =? 1)
        (if moves b then
           store (js_or written' 1) ;;;
           when (negb probe) (move_io_bar id nr (js_and (js_and written' (js_not 3)) 0xFFFF))
         else if fixed b then
           store (if probing b written' then js_or (js_not (size b - 1)) type else original_bar b)
         else if 256 <=? id then
           on_bar id nr (fun b => b <| assigned := Some (io_port written') |>) ;;;
           store (js_or written' 1) ;;;
           update_io_bar id nr
         else
           set_io_bars b (io_port old) (io_port written') ;;;
           store (js_or written' 1))
  end.

Definition write_expansion_rom (id written : Z) : M t unit :=
  s <-- get ;;
  match devices s !! id with
  | Some d =>
      on_space id (fun sp => set32 sp (0x30 .>> 2)
        (if negb (pci_rom_size d =? 0) then
           if js_or written 0x7FF =? -1 then i32 (- pci_rom_size d) else i32 (pci_rom_address d)
         else 0))
  | None => skip
  end.

(** ** Configuration accesses *)

Definition command_changed (bdf old_command command : Z) : M t unit :=
  s <-- get ;;
  when (has (old_command .^ command) PCI_COMMAND_INTX_DISABLE)
    (drive_intx bdf (default false (intx_levels s !! bdf) && negb (has command PCI_COMMAND_INTX_DISABLE))) ;;;
  on_callback (OnCommandChange bdf old_command command) ;;;
  s <-- get ;;
  when (bool_decide (is_Some (devices s !! bdf ≫= pci_secondary_bus))
        && has (old_command .^ command) (PCI_COMMAND_IO .| PCI_COMMAND_MEMORY .| PCI_COMMAND_MASTER))
    (bridge_changed bdf).

(** One byte of a write: the space, whether a plain header byte was written and
    whether a window of a bridge was. *)
Definition write_byte (bridge : bool) (offset value : Z) (acc : space * bool * bool) (i : Z) : space * bool * bool :=
  let '(bytes, header_written, windows_written) := acc in
  let o := offset + i in
  let byte := shr32 value (i .<< 3) .& 0xFF in
  if 0x40 <=? o then (set8 bytes o byte, header_written, windows_written)
  else if bridge && (0x18 <=? o) then
    if o =? BRIDGE_SECONDARY_STATUS + 1 then
      (set8 bytes o (get8 bytes o .& ~. (byte .& (PCI_STATUS_RW1C .>> 8))), header_written, windows_written)
    else
      let mask := get8 BRIDGE_HEADER_WRITABLE o in
      (set8 bytes o ((get8 bytes o .& ~. mask) .| (byte .& mask)), header_written,
       windows_written || (BRIDGE_IO_BASE <=? o) && (o <? 0x30) || (o =? BRIDGE_CONTROL))
  else if (o =? 0x04) || (o =? 0x05) then
    let mask := (PCI_COMMAND_WRITABLE .>> ((o - 4) .<< 3)) .& 0xFF in
    (set8 bytes o ((get8 bytes o .& ~. mask) .| (byte .& mask)), header_written, windows_written)
  else if (o =? 0x06) || (o =? 0x07) then
    (set8 bytes o (get8 bytes o .& ~. (byte .& (PCI_STATUS_RW1C .>> ((o - 6) .<< 3)))), header_written, windows_written)
  else if header_byte_writable o then (set8 bytes o byte, true, windows_written)
  else acc.

Definition is_bridge (d : device) : bool := negb (undefined (pci_secondary_bus d)).

Definition bar_register (bridge : bool) (offset : Z) : bool :=
  if bridge then (0x10 <=? offset) && (offset <? 0x18)
  else (0x10 <=? offset) && (offset <? 0x28) || (0x30 <=? offset) && (offset <? 0x34).

Definition function_space (s : t) (id : Z) : option space := if id <? 0 then None else device_spaces s !! id.

Definition function_write (id offset sz value : Z) : M t unit :=
  s <-- get ;;
  match function_space s id, devices s !! id with
  | Some sp, Some d =>
      if Z.of_nat (length sp) <? offset + sz then skip
      else if bar_register (is_bridge d) offset then
        when ((sz =? 4) && (offset .& 3 =? 0))
          (if offset =? 0x30 then write_expansion_rom id value else write_bar id offset value)
      else
        let old_command := get16 sp 4 in
        let '(sp', header_written, windows_written) :=
          fold_left (write_byte (is_bridge d) offset value) (seqZ 0 sz) (sp, false, false) in
        on_space id (fun _ => sp') ;;;
        let command := get16 sp' 4 in
        (if negb (command =? old_command) then command_changed id old_command command
         else when windows_written (bridge_changed id)) ;;;
        when ((0x40 <? offset + sz) || header_written) (on_callback (OnConfigWrite id offset sz))
  | _, _ => skip
  end.

Definition all_ones (sz : Z) : Z := if sz =? 4 then -1 else (1 .<< (sz .<< 3)) - 1.

Definition function_read (s : t) (id offset sz : Z) : Z :=
  match function_space s id with
  | None => all_ones sz
  | Some sp =>
      if Z.of_nat (length sp) <? offset + sz then all_ones sz
      else
        let value :=
          if (offset .& 3) + sz <=? 4 then shr32 (get32 sp (offset .>> 2)) ((offset .& 3) .<< 3)
          else fold_left (fun v i => js_or v (shl32 (get8 sp (offset + i)) (i .<< 3))) (seqZ 0 sz) 0 in
        if sz =? 4 then i32 value else js_and value ((1 .<< (sz .<< 3)) - 1)
  end.

(** The bridge on bus [at_] that takes an access to [bus]: the result of the inner loop of [route_config]. *)
Inductive taken := Answers (pci_id : Z) | Next (behind : Z).

Fixpoint take_bridge (s : t) (bdf bus : Z) (bridges : list Z) : taken :=
  match bridges with
  | [] => Answers (-1)
  | bridge :: bridges =>
      let sp := space_of s bridge in
      let secondary := (get32 sp (BRIDGE_SECONDARY_BUS .>> 2) .>> 8) .& 0xFF in
      let subordinate := (get32 sp (BRIDGE_SUBORDINATE_BUS .>> 2) .>> 16) .& 0xFF in
      let d := devices s !! bridge in
      let behind := default 0 (d ≫= pci_secondary_bus) in
      if bus =? secondary then
        if default false (pci_express_downstream <$> d) && has bdf 0xF8 then Answers (-1)
        else
          let id := (behind .<< 8) .| (bdf .& 0xFF) in
          Answers (if negb (undefined (device_spaces s !! id)) && negb (bool_decide (id ∈ absent s)) then id else -1)
      else if (secondary <? bus) && (bus <=? subordinate) then Next behind
      else take_bridge s bdf bus bridges
  end.

Fixpoint route_from (fuel : nat) (s : t) (bdf bus at_ : Z) : option Z :=
  match fuel with
  | O => None
  | S fuel =>
      match take_bridge s bdf bus (default [] (bridges_on s !! at_)) with
      | Answers id => Some id
      | Next behind => route_from fuel s bdf bus behind
      end
  end.

Definition route_config (s : t) (bdf : Z) : Z :=
  let bus := bdf .>> 8 in
  if bus =? 0 then bdf else default (-1) (route_from BUSES s bdf bus 0).

Definition config_read (s : t) (bdf offset sz : Z) : Z := function_read s (route_config s bdf) offset sz.
Definition config_write (bdf offset sz value : Z) : M t unit :=
  s <-- get ;; function_write (route_config s bdf) offset sz value.

(** ** The configuration ports *)

Definition cf8_target (address : Z) : Z :=
  if 0 <=? address then -1 else shl32 (sar32 address 8 .& 0xFFFF) 12 .| (address .& 0xFF).

Definition config_read_cf8 (s : t) (address sz : Z) : Z :=
  let target := cf8_target address in
  if target =? -1 then all_ones sz else config_read s (shr32 target 12) (target .& 0xFFF) sz.

Definition config_write_cf8 (address sz value : Z) : M t unit :=
  let target := cf8_target address in
  if target =? -1 then skip else config_write (shr32 target 12) (target .& 0xFFF) sz value.

Definition pci_addr32 (s : t) : Z := get32 (pci_addr s) 0.
Definition data_port (s : t) (offset : Z) : Z := i32 (pci_addr32 s + offset).

(** The ports 0xCFC-0xCFF, by offset, and 0xCF8-0xCFB, by byte.  Bytes, words and doublewords are registered at 0xCFC,
    bytes at the others and words at 0xCFE; other accesses reach the empty port. *)
Definition data_width (offset sz : Z) : bool :=
  (sz =? 1) || (sz =? 2) && ((offset =? 0) || (offset =? 2)) || (sz =? 4) && (offset =? 0).
Definition data_read (s : t) (offset sz : Z) : Z :=
  if data_width offset sz then config_read_cf8 s (data_port s offset) sz else all_ones sz.
Definition data_write (offset sz value : Z) : M t unit :=
  s <-- get ;; when (data_width offset sz) (config_write_cf8 (data_port s offset) sz value).
Definition address_read (s : t) (i : Z) : Z := get8 (pci_addr s) i.
Definition address_write (i out_byte : Z) : M t unit :=
  modify (fun s => s <| pci_addr := set8 (pci_addr s) i (if i =? 0 then out_byte .& 0xFC else out_byte) |>).

Definition reset_read (s : t) : Z := reset_control s.
Definition reset_write (value : Z) : M t unit :=
  s <-- get ;;
  modify (fun s => s <| reset_control := value .& 6 |>) ;;;
  when (has (~. reset_control s .& value) 4) (emit (CpuReboot "cf9")).

Definition reset : M t unit := modify (fun s => s <| reset_control := 0 |>).

(** ** Message-signalled interrupts *)

Definition msi_config_written (bdf cap next : Z) : M t unit :=
  on_space bdf (fun sp =>
    let sp := set8 sp cap PCI_CAP_MSI in
    let sp := set8 sp (cap + 1) next in
    let sp := set8 sp (cap + 2) ((get8 sp (cap + 2) .& MSI_CONTROL_ENABLE) .| MSI_CONTROL_64BIT) in
    let sp := set8 sp (cap + 3) 0 in
    set8 sp (cap + 4) (get8 sp (cap + 4) .& ~. 3)).

Definition msi_enabled (s : t) (bdf cap : Z) : bool :=
  match device_spaces s !! bdf with Some sp => has (get8 sp (cap + 2)) MSI_CONTROL_ENABLE | None => false end.

(** [apic_msi]: the CPU's method, if it has one, which says whether the message was accepted. *)
Definition msi_notify (apic_msi : option (Z -> Z -> bool)) (bdf cap : Z) : M t bool :=
  s <-- get ;;
  let sp := space_of s bdf in
  let address := get32u sp (cap + 4) in
  let high := get32u sp (cap + 8) in
  let data := get16 sp (cap + 12) in
  match apic_msi with
  | Some apic_msi =>
      if negb (high =? 0) then ret false
      else if negb (is_bus_master s bdf) then ret false
      else emit (ApicMsi (i32 address) data) ;;; ret (apic_msi (i32 address) data)
  | None => ret false
  end.

(** ** The memory-mapped window *)

Definition set_ecam (base sz : Z) : M t unit :=
  s <-- get ;;
  if (base =? ecam_base s) && (sz =? ecam_size s) then skip
  else
    when (negb (ecam_base s =? -1)) (emit (IoUndecode "ecam" (ecam_base s) (ecam_size s))) ;;;
    modify (fun s => s <| ecam_base := base |> <| ecam_size := if base =? -1 then 0 else sz |>) ;;;
    when (negb (base =? -1)) (emit (IoDecode "ecam" base sz)).

Definition ecam_offset (s : t) (addr : Z) : Z := u32 (addr - ecam_base s).
Definition ecam_read8 (s : t) (addr : Z) : Z :=
  let o := ecam_offset s addr in config_read s (shr32 o 12) (o .& 0xFFF) 1.
Definition ecam_write8 (addr value : Z) : M t unit :=
  s <-- get ;; let o := ecam_offset s addr in config_write (shr32 o 12) (o .& 0xFFF) 1 value.
Definition ecam_read32 (s : t) (addr : Z) : Z :=
  let o := ecam_offset s addr in
  if has o 3 then
    js_or (js_or (js_or (ecam_read8 s addr) (shl32 (ecam_read8 s (addr + 1)) 8)) (shl32 (ecam_read8 s (addr + 2)) 16))
      (shl32 (ecam_read8 s (addr + 3)) 24)
  else config_read s (shr32 o 12) (o .& 0xFFF) 4.
Definition ecam_write32 (addr value : Z) : M t unit :=
  s <-- get ;;
  let o := ecam_offset s addr in
  if has o 3 then mfor (seqZ 0 4) (fun i => ecam_write8 (addr + i) (shr32 value (i .<< 3) .& 0xFF))
  else config_write (shr32 o 12) (o .& 0xFFF) 4 value.

(** ** Registration and hot plug *)

(** A BAR as [register_device] sets it up; the mapping of one behind a bridge follows. *)
Definition register_bar (s : t) (id value : Z) (b : bar) : bar :=
  let b := b <| original_bar := value |> <| entries := [] |> in
  if value .& 1 =? 0 then b <| base := u32 (js_and value (js_not 0xF)) |>
  else if moves b then b <| base := js_and (js_and value (js_not 3)) 0xFFFF |>
  else
    let port := js_and value (js_not 1) in
    let b := b <| entries := map (fun j => ports s !! (port + j)) (seqZ 0 (size b)) |> in
    if 256 <=? id then b <| assigned := Some port |> <| mapped := Some port |> else b.

(** The bytes of [pci_space] in a space of its size. *)
Definition initial_space (d : device) : space :=
  take (Z.to_nat (pci_config_size d)) (map u8 (pci_space d)) ++ replicate (Z.to_nat (pci_config_size d) - length (pci_space d)) 0.

Definition register_device (d : device) : M t unit :=
  let id := pci_id d in
  let sp := initial_space d in
  modify (fun s => s <| device_spaces := <[id := sp]> (device_spaces s) |> <| devices := <[id := d]> (devices s) |>
    <| templates := if 256 <=? id then <[id := sp]> (templates s) else templates s |>) ;;;
  (if get8 (pci_space d) 0x0E .& 0x7F =? PCI_HEADER_TYPE_BRIDGE then
     match pci_secondary_bus d with
     | Some behind =>
         modify (fun s => s <| bridge_for_bus := <[behind := id]> (bridge_for_bus s) |>
           <| bridges_on := <[id .>> 8 := default [] (bridges_on s !! (id .>> 8)) ++ [id]]> (bridges_on s) |>)
     | None => skip
     end
   else skip) ;;;
  mfor (bar_numbers d) (fun nr =>
    s <-- get ;;
    let value := get32 sp (4 + nr) in
    match bar_at d nr with
    | Some b =>
        on_bar id nr (fun _ => register_bar s id value b) ;;;
        when (negb (value .& 1 =? 0) && negb (moves b) && (256 <=? id)) (update_io_bar id nr)
    | None => skip
    end).

Definition restart_bar (id nr : Z) (template : space) : M t unit :=
  s <-- get ;;
  match devices s !! id ≫= fun d => bar_at d nr with
  | Some b =>
      let value := get32 template (4 + nr) in
      if negb (value .& 1 =? 0) then
        if moves b then move_io_bar id nr (js_and (js_and value (js_not 3)) 0xFFFF)
        else on_bar id nr (fun b => b <| assigned := Some (io_port value) |>)
      else when (moves b) (move_memory_bar id nr (js_and value (js_not 0xF)))
  | None => skip
  end.

(** [to.set(from)]: the elements of [from], which is not longer. *)
Definition set_space (from to : space) : space := from ++ drop (length from) to.

Definition set_function_present (id : Z) (present fresh : bool) : M t unit :=
  s <-- get ;;
  when (negb present && negb (bool_decide (id ∈ absent s))) (on_callback (OnUnplug id)) ;;;
  modify (fun s => s <| absent := if present then absent s ∖ {[id]} else absent s ∪ {[id]} |>) ;;;
  when (present && fresh)
    (s <-- get ;;
     let template := default [] (templates s !! id) in
     on_space id (set_space template) ;;;
     mfor (default [] (bar_numbers <$> devices s !! id)) (fun nr => restart_bar id nr template) ;;;
     modify (fun s => s <| intx_levels := <[id := false]> (intx_levels s) |>) ;;;
     on_callback (DeviceReset id)) ;;;
  s <-- get ;;
  set_irq_level id (default false (intx_levels s !! id)) ;;;
  upstream_changed id.

(** ** State images *)

Record image := mk_image {
  i_spaces : list (Z * option space);
  i_addr : list Z; i_value : list Z; i_response : list Z; i_status : list Z;
  i_reset_control : option Z;
  i_levels : list Z;
  i_irq_lines : list (Z * Z);
  i_gsis : list (Z * Z);
  i_absent : list Z
}.

(** The order of arrays: by index. *)
Definition sorted_keys {A} (m : gmap Z A) : list Z := merge_sort Z.le (elements (dom m)).
Definition entries_of (m : gmap Z Z) : list (Z * Z) := omap (fun id => pair id <$> m !! id) (sorted_keys m).

Definition get_state (s : t) : image :=
  mk_image
    (map (fun i => (i, device_spaces s !! i)) (seqZ 0 256)
     ++ map (fun i => (i, device_spaces s !! i)) (filter (fun i => 256 <= i) (sorted_keys (device_spaces s))))
    (pci_addr s) (pci_value s) (pci_response s) (pci_status s) (Some (reset_control s))
    (filter (fun id => intx_levels s !! id = Some true) (sorted_keys (intx_levels s)))
    (entries_of (asserted_irq_lines s)) (entries_of (asserted_gsis s))
    (merge_sort Z.le (elements (absent s))).

(** One BAR of a restored function: the space, in which a fixed BAR keeps its value. *)
Definition restore_bar (bdf nr : Z) (sp : space) : M t space :=
  s <-- get ;;
  let value := get32 sp (4 + nr) in
  match devices s !! bdf ≫= fun d => bar_at d nr with
  | None => ret sp
  | Some b =>
      if fixed b then ret (set32 sp (4 + nr) (original_bar b))
      else if negb (value .& 1 =? 0) then
        if moves b then
          when (negb (js_or (js_or value 3) (size b - 1) =? -1)) (move_io_bar bdf nr (js_and (js_and value (js_not 3)) 0xFFFF)) ;;;
          ret sp
        else if 256 <=? bdf then on_bar bdf nr (fun b => b <| assigned := Some (io_port value) |>) ;;; ret sp
        else set_io_bars b (io_port (original_bar b)) (io_port value) ;;; ret sp
      else if moves b then
        when (negb (js_or (js_or value 0xF) (size b - 1) =? -1)) (move_memory_bar bdf nr (js_and value (js_not 0xF))) ;;;
        ret sp
      else ret sp
  end.

Fixpoint restore_bars (bdf : Z) (nrs : list Z) (sp : space) : M t space :=
  match nrs with
  | [] => ret sp
  | nr :: nrs => sp <-- restore_bar bdf nr sp ;; restore_bars bdf nrs sp
  end.

Definition restore_function (p : Z * option space) : M t unit :=
  let '(bdf, saved) := p in
  s <-- get ;;
  match devices s !! bdf, saved with
  | Some d, Some sp =>
      sp <-- restore_bars bdf (bar_numbers d) sp ;;
      on_space bdf (fun old => set_space (take (length old) sp) old) ;;;
      on_callback (OnConfigRestore bdf)
  | _, _ => skip
  end.

Definition set_state (i : image) : M t unit :=
  mfor (i_spaces i) restore_function ;;;
  modify (fun s => s <| pci_addr := i_addr i |> <| pci_value := i_value i |> <| pci_response := i_response i |>
    <| pci_status := i_status i |> <| reset_control := default 0 (i_reset_control i) |>
    <| intx_levels := list_to_map (map (fun id => (id, true)) (i_levels i)) |>
    <| asserted_irq_lines := list_to_map (i_irq_lines i) |>
    <| asserted_gsis := list_to_map (i_gsis i) |>
    <| absent := list_to_set (filter (fun id => is_Some (devices s !! id)) (i_absent i)) |>) ;;;
  s <-- get ;;
  mfor (filter (fun id => 256 <= id) (device_ids s)) upstream_changed.

End pci.

(** ** The i440FX *)

(** The constructor, before devices are registered. *)
Definition create {B : Board} (c : chip) (io_ports : gmap Z Z) (next : Z) : t :=
  mk [0; 0; 0; 0] [0; 0; 0; 0] [0; 0; 0; 0] [0; 0; 0; 0] ∅ ∅ ∅ ∅ ∅ ∅ ∅ (-1) 0 ∅ ∅ 0 io_ports next Irq.create c false.

Definition piix_board : Board := {| chip := unit; irq_route := fun _ spaces id pin => (piix_pirq_line spaces id pin, -1) |}.

Definition PAM0 : Z := 0x10.
Definition zeros (n : nat) : list Z := replicate n 0.

Definition host_bridge : device :=
  mk_device 0
    ([0x86; 0x80; 0x37; 0x12; 0x00; 0x00; 0x00; 0x00; 0x02; 0x00; 0x00; 0x06; 0x00; 0x00; 0x00; 0x00] ++ zeros 16 ++ zeros 16
     ++ zeros 16 ++ zeros 16 ++ [0x00; 0x00; 0x00; 0x00; 0x00; 0x00; 0x00; 0x00; 0x00; PAM0; 0x00; 0x00; 0x00; 0x00; 0x00; 0x00])
    256 [] 0 0 None false.

Definition isa_bridge (subsystem : list Z) : device :=
  mk_device 8
    ([0x86; 0x80; 0x00; 0x70; 0x07; 0x00; 0x00; 0x02; 0x00; 0x00; 0x01; 0x06; 0x00; 0x00; 0x80; 0x00] ++ zeros 16
     ++ zeros 12 ++ subsystem ++ zeros 16)
    256 [] 0 0 None false.

Definition create_i440fx (subsystem : list Z) : M (@t piix_board) unit :=
  register_device host_bridge ;;; register_device (isa_bridge subsystem).

(** ** Bytes of configuration spaces *)

Definition space_ok (sp : space) : Prop := Forall byte sp /\ (64 <= length sp)%nat.

Lemma get8_byte sp o : Forall byte sp -> byte (get8 sp o).
Proof. intros H. apply arr_get_Forall; [unfold byte; lia|done]. Qed.

Lemma set8_length sp o v : length (set8 sp o v) = length sp.
Proof. apply arr_set_length. Qed.

Lemma set8_bytes sp o v : Forall byte sp -> Forall byte (set8 sp o v).
Proof. intros H. apply arr_set_Forall; [done|apply u8_byte]. Qed.

Lemma get8_set8 sp o v o' :
  0 <= o < Z.of_nat (length sp) -> 0 <= o' -> get8 (set8 sp o v) o' = if o' =? o then u8 v else get8 sp o'.
Proof.
  intros Ho Ho'. unfold get8, set8. destruct (o' =? o) eqn:E.
  - apply Z.eqb_eq in E as ->. by apply arr_get_set_eq.
  - apply Z.eqb_neq in E. apply arr_get_set_ne; lia.
Qed.

Lemma set32_length sp i v : length (set32 sp i v) = length sp.
Proof. unfold set32. by rewrite !set8_length. Qed.

Lemma set32_ok sp i v : space_ok sp -> space_ok (set32 sp i v).
Proof. intros [H1 H2]. split; [unfold set32; by repeat apply set8_bytes|by rewrite set32_length]. Qed.

Lemma set8_ok sp o v : space_ok sp -> space_ok (set8 sp o v).
Proof. intros [H1 H2]. split; [by apply set8_bytes|by rewrite set8_length]. Qed.

(** The bytes of a 32-bit number. *)
Definition byte_of (v k : Z) : Z := u8 (v .>> (8 * k)).

Lemma get8_set32 sp i v o :
  0 <= i -> 4 * i + 4 <= Z.of_nat (length sp) -> 0 <= o ->
  get8 (set32 sp i v) o = if (4 * i <=? o) && (o <? 4 * i + 4) then byte_of v (o - 4 * i) else get8 sp o.
Proof.
  intros Hi Hl Ho. unfold set32. rewrite !get8_set8 by (rewrite ?set8_length; lia). unfold byte_of.
  destruct (Z.eqb_spec o (4 * i + 3)) as [->|]; [replace (4 * i + 3 - 4 * i) with 3 by lia; by rewrite andb_true_intro by (split; lia)|].
  destruct (Z.eqb_spec o (4 * i + 2)) as [->|]; [replace (4 * i + 2 - 4 * i) with 2 by lia; by rewrite andb_true_intro by (split; lia)|].
  destruct (Z.eqb_spec o (4 * i + 1)) as [->|]; [replace (4 * i + 1 - 4 * i) with 1 by lia; by rewrite andb_true_intro by (split; lia)|].
  destruct (Z.eqb_spec o (4 * i)) as [->|]; [replace (4 * i - 4 * i) with 0 by lia; by rewrite andb_true_intro by (split; lia)|].
  destruct (_ && _) eqn:E; [|done]. apply andb_true_iff in E. lia.
Qed.

Lemma byte_of_testbit v k j : 0 <= k -> 0 <= j < 8 -> Z.testbit (byte_of v k) j = Z.testbit v (8 * k + j).
Proof. intros Hk Hj. unfold byte_of, u8. rewrite Z.mod_pow2_bits_low, Z.shiftr_spec by lia. f_equal. lia. Qed.

Lemma byte_of_byte v k : byte (byte_of v k).
Proof. apply u8_byte. Qed.

Lemma byte_ext a b : byte a -> byte b -> (forall j, 0 <= j < 8 -> Z.testbit a j = Z.testbit b j) -> a = b.
Proof.
  intros Ha Hb H. apply Z.bits_inj'. intros j Hj. destruct (decide (j < 8)); [by apply H|].
  rewrite (testbit_high 8 a), (testbit_high 8 b); [done|exact Hb|lia|exact Ha|lia].
Qed.

Lemma get32u_bytes a b c d :
  byte a -> byte b -> byte c -> byte d ->
  let v := a + 256 * b + 65536 * c + 16777216 * d in
  uint32 v /\ v mod 256 = a /\ v / 256 mod 256 = b /\ v / 65536 mod 256 = c /\ v / 16777216 mod 256 = d.
Proof.
  intros Ha Hb Hc Hd v. unfold byte in *. split; [unfold uint32; lia|].
  split_and!; unfold v; Z.to_euclidean_division_equations; lia.
Qed.

Lemma get32_byte sp i k : Forall byte sp -> 0 <= k < 4 -> byte_of (get32 sp i) k = get8 sp (4 * i + k).
Proof.
  intros Hs Hk. unfold byte_of, get32. rewrite Z.shiftr_div_pow2 by lia. unfold u8, get32u.
  pose proof (get32u_bytes (get8 sp (4 * i)) (get8 sp (4 * i + 1)) (get8 sp (4 * i + 2)) (get8 sp (4 * i + 3))
    ltac:(by apply get8_byte) ltac:(by apply get8_byte) ltac:(by apply get8_byte) ltac:(by apply get8_byte)) as H.
  cbv zeta in H. set (v := _ + _ + _ + _) in *. destruct H as (Hv & H0 & H1 & H2 & H3).
  assert (forall m, 0 <= m <= 24 -> i32 v / 2 ^ m mod 256 = v / 2 ^ m mod 256) as E.
  { intros m Hm. unfold i32, uint32 in *. rewrite (Z.mod_small v) by lia. destruct (v <? 2 ^ 31); [done|].
    replace (v - 2 ^ 32) with (v + (- 2 ^ (32 - m)) * 2 ^ m).
    2: { rewrite Z.mul_opp_l, <- Z.pow_add_r by lia. by replace (32 - m + m) with 32 by lia. }
    rewrite Z.div_add by lia. replace (2 ^ (32 - m)) with (2 ^ (24 - m) * 256).
    2: { change 256 with (2 ^ 8). rewrite <- Z.pow_add_r by lia. f_equal. lia. }
    rewrite <- Z.mul_opp_l, Z.mod_add by lia. done. }
  change (2 ^ 8) with 256. rewrite E by lia.
  assert (k = 0 \/ k = 1 \/ k = 2 \/ k = 3) as [->|[->|[->| ->]]] by lia.
  - change (2 ^ (8 * 0)) with 1. by rewrite Z.div_1_r, Z.add_0_r.
  - exact H1.
  - exact H2.
  - exact H3.
Qed.

Lemma get32_testbit sp i n : Forall byte sp -> 0 <= n < 32 -> Z.testbit (get32 sp i) n = Z.testbit (get8 sp (4 * i + n / 8)) (n mod 8).
Proof.
  intros Hs Hn. assert (0 <= n / 8 < 4 /\ 0 <= n mod 8 < 8) as [H1 H2] by (Z.to_euclidean_division_equations; lia).
  rewrite <- get32_byte, byte_of_testbit by (done || lia). f_equal. Z.to_euclidean_division_equations. lia.
Qed.

(** ** The interrupt pins *)

Section pins.
Context {B : Board}.
Implicit Types (s : t).

(** The line and input a function would drive now. *)
Definition routed_irq (s : t) (id : Z) : option Z := if has (route s id).1 0x80 then None else Some (route s id).1.
Definition routed_gsi (s : t) (id : Z) : option Z := if 0 <=? (route s id).2 then Some (route s id).2 else None.

(** A line, if any, that the machine has. *)
Definition irq_ok (irq : option Z) : bool := match irq with Some irq => pic_input irq | None => true end.
Definition gsi_ok (gsi : option Z) : bool := match gsi with Some gsi => ioapic_input gsi | None => true end.

Lemma irq_ok_range k n : irq_ok k = true -> k = Some n -> 0 <= n < 16.
Proof. intros H ->. unfold irq_ok, pic_input in H. lia. Qed.
Lemma gsi_ok_range k n : gsi_ok k = true -> k = Some n -> 16 <= n < 24.
Proof. intros H ->. unfold gsi_ok, ioapic_input in H. lia. Qed.
Lemma irq_ok_intro k : (forall n, k = Some n -> 0 <= n < 16) -> irq_ok k = true.
Proof. destruct k as [k|]; [|done]. intros H. specialize (H k eq_refl). unfold irq_ok, pic_input. lia. Qed.
Lemma gsi_ok_intro k : (forall n, k = Some n -> 16 <= n < 24) -> gsi_ok k = true.
Proof. destruct k as [k|]; [|done]. intros H. specialize (H k eq_refl). unfold gsi_ok, ioapic_input. lia. Qed.

Lemma shared_irq_real k id l :
  irq_ok k = true -> shared_irq k id l = match k with Some k => on_lines (Irq.set_shared_irq_level k id l) | None => skip end.
Proof. destruct k as [k|]; [|done]. cbn [irq_ok shared_irq]. by intros ->. Qed.
Lemma shared_gsi_real k id l :
  gsi_ok k = true -> shared_gsi k id l = match k with Some k => on_lines (Irq.set_shared_gsi_level k id l) | None => skip end.
Proof. destruct k as [k|]; [|done]. cbn [gsi_ok shared_gsi]. by intros ->. Qed.

(** A call on no line of the machine is recorded. *)
Lemma stray_irq k id l s : stray (exec (shared_irq k id l) s) = false -> stray s = false /\ irq_ok k = true.
Proof. destruct k as [k|]; [|done]. cbn [irq_ok shared_irq]. destruct (pic_input k); [done|]. discriminate. Qed.
Lemma stray_gsi k id l s : stray (exec (shared_gsi k id l) s) = false -> stray s = false /\ gsi_ok k = true.
Proof. destruct k as [k|]; [|done]. cbn [gsi_ok shared_gsi]. destruct (ioapic_input k); [done|]. discriminate. Qed.

Lemma when_irq (b : bool) n id l : when b (shared_irq n id l) = shared_irq (if b then n else None) id l.
Proof. by destruct b. Qed.
Lemma when_gsi (b : bool) n id l : when b (shared_gsi n id l) = shared_gsi (if b then n else None) id l.
Proof. by destruct b. Qed.

(** If none was made, the lines driven are lines of the machine. *)
Lemma drive_intx_real id level s :
  stray (exec (drive_intx id level) s) = false ->
  stray s = false /\ (level = true \/ asserted_irq_lines s !! id = None -> irq_ok (routed_irq s id) = true)
  /\ (level = true \/ asserted_gsis s !! id = None -> gsi_ok (routed_gsi s id) = true).
Proof.
  unfold drive_intx, routed_irq, routed_gsi. rewrite exec_get. destruct (route s id) as [pic g]. cbn [fst snd].
  destruct level; cbv zeta.
  - rewrite when_irq, when_gsi, !exec_bind. intros H. apply stray_gsi in H as [H R4].
    change (stray (exec (set_asserted_gsi id ?x) ?y)) with (stray y) in H. apply stray_gsi in H as [H _]. apply stray_irq in H as [H R2].
    change (stray (exec (set_asserted id ?x) ?y)) with (stray y) in H. apply stray_irq in H as [H _]. auto.
  - rewrite when_irq, !exec_bind. intros H. apply stray_gsi in H as [H R2].
    change (stray (exec (set_asserted_gsi id ?x) ?y)) with (stray y) in H. apply stray_irq in H as [H R1].
    split; [exact H|]. split; (intros [|E]; [done|]).
    + rewrite E in R1. cbn [default from_option] in R1. by destruct (has pic 0x80).
    + rewrite E in R2. cbn [undefined andb] in R2. by destruct (0 <=? g).
Qed.

Section lines.
Context (strict : bool).

(** The sources of the shared lines are functions recorded as asserting them; all of them if [strict], that is while
    no reset has emptied the sources of all lines. *)
Record lines_ok (s : t) : Prop := {
  lo_wf : Irq.wf (lines s);
  lo_irq : forall id n, asserted_irq_lines s !! id = Some n -> 0 <= n < 16;
  lo_gsi : forall id n, asserted_gsis s !! id = Some n -> 16 <= n < 24;
  lo_sources : forall id n, Irq.line n -> id ∈ Irq.sources (lines s) n -> asserted_irq_lines s !! id = Some n \/ asserted_gsis s !! id = Some n;
  lo_asserts : strict = true -> forall id n, Irq.line n -> asserted_irq_lines s !! id = Some n \/ asserted_gsis s !! id = Some n ->
    id ∈ Irq.sources (lines s) n
}.

(** What a call on a shared line leaves: all but [lines]. *)
Lemma on_lines_exec {A} (m : M Irq.t A) s : exec (on_lines m) s = s <| lines := exec m (lines s) |>.
Proof. done. Qed.

(** The sources after the calls [drive_intx] makes for one function. *)
Definition drop_source (n : option Z) (id : Z) (k : Z) (X : gset Z) : gset Z := if bool_decide (n = Some k) then X ∖ {[id]} else X.
Definition add_source (n : option Z) (id : Z) (k : Z) (X : gset Z) : gset Z := if bool_decide (n = Some k) then {[id]} ∪ X else X.

Lemma shared_spec raise lower n id l s :
  Irq.wf (lines s) -> (forall k, n = Some k -> 0 <= k < 24) ->
  exists i, exec (match n with Some n => on_lines (Irq.set_level raise lower n id l) | None => skip end) s = s <| lines := i |> /\ Irq.wf i
    /\ forall k, Irq.line k -> Irq.sources i k = (if l then add_source else drop_source) n id k (Irq.sources (lines s) k).
Proof.
  intros Hw Hn. destruct n as [n|].
  - rewrite on_lines_exec. eexists. split; [done|]. split; [by apply Irq.set_level_wf|]. intros k Hk.
    rewrite Irq.set_level_sources; [|done|unfold Irq.line; by apply Hn|done].
    unfold add_source, drop_source. destruct l; (destruct (decide (n = k)) as [->|Hne];
      [by rewrite bool_decide_eq_true_2|rewrite bool_decide_eq_false_2; [done|congruence]]).
  - exists (lines s). split; [by destruct s|]. split; [done|]. intros k Hk. by destruct l.
Qed.

Lemma elem_add_source n id k X x : x ∈ add_source n id k X <-> n = Some k /\ x = id \/ x ∈ X.
Proof. unfold add_source. case_bool_decide; set_solver. Qed.
Lemma elem_drop_source n id k X x : x ∈ drop_source n id k X <-> x ∈ X /\ ~ (n = Some k /\ x = id).
Proof. unfold drop_source. case_bool_decide; set_solver. Qed.

(** [s] with what a function asserts, and new lines. *)
Definition with_pin (s : t) (id : Z) (irq gsi : option Z) (i : Irq.t) : t :=
  s <| asserted_irq_lines := partial_alter (fun _ => irq) id (asserted_irq_lines s) |>
    <| asserted_gsis := partial_alter (fun _ => gsi) id (asserted_gsis s) |> <| lines := i |>.

Lemma with_pin_irq s id irq gsi i : asserted_irq_lines (with_pin s id irq gsi i) = partial_alter (fun _ => irq) id (asserted_irq_lines s).
Proof. done. Qed.
Lemma with_pin_gsi s id irq gsi i : asserted_gsis (with_pin s id irq gsi i) = partial_alter (fun _ => gsi) id (asserted_gsis s).
Proof. done. Qed.

Lemma with_pin_ok s id irq gsi i :
  lines_ok s -> Irq.wf i -> (forall n, irq = Some n -> 0 <= n < 16) -> (forall n, gsi = Some n -> 16 <= n < 24) ->
  (forall x k, Irq.line k -> x ∈ Irq.sources i k <-> if decide (x = id) then irq = Some k \/ gsi = Some k else x ∈ Irq.sources (lines s) k) ->
  lines_ok (with_pin s id irq gsi i).
Proof.
  intros [Hw Hi Hg Hs Ha] Hwi Hirq Hgsi Hsrc. pose proof (with_pin_irq s id irq gsi i) as E1. pose proof (with_pin_gsi s id irq gsi i) as E2.
  split; rewrite ?E1, ?E2; [done| | | |].
  - intros x n. destruct (decide (x = id)) as [->|]; [rewrite lookup_partial_alter_eq; apply Hirq|].
    rewrite lookup_partial_alter_ne by done. apply Hi.
  - intros x n. destruct (decide (x = id)) as [->|]; [rewrite lookup_partial_alter_eq; apply Hgsi|].
    rewrite lookup_partial_alter_ne by done. apply Hg.
  - intros x n Hn. rewrite Hsrc by done. destruct (decide (x = id)) as [->|]; [by rewrite !lookup_partial_alter_eq|].
    rewrite !lookup_partial_alter_ne by done. by apply Hs.
  - intros Hst x n Hn. rewrite Hsrc by done. destruct (decide (x = id)) as [->|]; [by rewrite !lookup_partial_alter_eq|].
    rewrite !lookup_partial_alter_ne by done. by apply Ha.
Qed.

Lemma lines_set s i : lines (s <| lines := i |>) = i.
Proof. done. Qed.

Lemma irq_line k : irq_ok k = true -> forall n, k = Some n -> 0 <= n < 24.
Proof. intros H n E. pose proof (irq_ok_range k n H E). lia. Qed.
Lemma gsi_line k : gsi_ok k = true -> forall n, k = Some n -> 0 <= n < 24.
Proof. intros H n E. pose proof (gsi_ok_range k n H E). lia. Qed.

(** The calls of [drive_intx]: [p] and [pg] give up what was asserted before. *)
Lemma drive_steps s id p pg irq gsi :
  Irq.wf (lines s) -> irq_ok p = true -> gsi_ok pg = true -> irq_ok irq = true -> gsi_ok gsi = true ->
  exists i, exec (shared_irq p id false ;;; set_asserted id irq ;;; shared_irq irq id true ;;;
      shared_gsi pg id false ;;; set_asserted_gsi id gsi ;;; shared_gsi gsi id true) s = with_pin s id irq gsi i
    /\ Irq.wf i
    /\ forall k, Irq.line k -> Irq.sources i k
        = add_source gsi id k (drop_source pg id k (add_source irq id k (drop_source p id k (Irq.sources (lines s) k)))).
Proof.
  intros Hw Hp Hpg Hirq Hgsi. rewrite (shared_irq_real p), (shared_irq_real irq), (shared_gsi_real pg), (shared_gsi_real gsi) by done.
  pose proof (irq_line p Hp) as Lp. pose proof (gsi_line pg Hpg) as Lpg. pose proof (irq_line irq Hirq) as Lirq. pose proof (gsi_line gsi Hgsi) as Lgsi.
  rewrite !exec_bind. unfold Irq.set_shared_irq_level, Irq.set_shared_gsi_level.
  destruct (shared_spec DeviceRaiseIrq DeviceLowerIrq p id false s Hw Lp) as (i1 & E1 & W1 & S1). rewrite E1.
  set (s2 := exec (set_asserted id irq) _).
  destruct (shared_spec DeviceRaiseIrq DeviceLowerIrq irq id true s2 W1 Lirq) as (i2 & E2 & W2 & S2). rewrite E2.
  destruct (shared_spec IoapicRaiseIrq IoapicLowerIrq pg id false (s2 <| lines := i2 |>)) as (i3 & E3 & W3 & S3);
    [by rewrite lines_set|done|]. rewrite lines_set in S3.
  rewrite E3.
  set (s4 := exec (set_asserted_gsi id gsi) _).
  destruct (shared_spec IoapicRaiseIrq IoapicLowerIrq gsi id true s4 W3 Lgsi) as (i4 & E4 & W4 & S4). rewrite E4.
  exists i4. split; [done|]. split; [done|]. intros k Hk. rewrite S4 by done. f_equal. rewrite S3 by done. f_equal.
  rewrite S2 by done. f_equal. by rewrite S1.
Qed.

Lemma release_steps s id p pg :
  Irq.wf (lines s) -> irq_ok p = true -> gsi_ok pg = true ->
  exists i, exec (set_asserted id None ;;; shared_irq p id false ;;; set_asserted_gsi id None ;;; shared_gsi pg id false) s
      = with_pin s id None None i
    /\ Irq.wf i /\ forall k, Irq.line k -> Irq.sources i k = drop_source pg id k (drop_source p id k (Irq.sources (lines s) k)).
Proof.
  intros Hw Hp Hpg. rewrite (shared_irq_real p), (shared_gsi_real pg) by done.
  pose proof (irq_line p Hp) as Lp. pose proof (gsi_line pg Hpg) as Lpg.
  rewrite !exec_bind. unfold Irq.set_shared_irq_level, Irq.set_shared_gsi_level. set (s1 := exec (set_asserted id None) s).
  destruct (shared_spec DeviceRaiseIrq DeviceLowerIrq p id false s1 Hw Lp) as (i1 & E1 & W1 & S1). rewrite E1.
  set (s2 := exec (set_asserted_gsi id None) _).
  destruct (shared_spec IoapicRaiseIrq IoapicLowerIrq pg id false s2 W1 Lpg) as (i2 & E2 & W2 & S2). rewrite E2.
  exists i2. split; [done|]. split; [done|]. intros k Hk. rewrite S2 by done. f_equal. by rewrite S1.
Qed.

(** A pin drives what it is routed to, and nothing else. *)
Lemma drive_intx_spec id level s :
  lines_ok s -> stray (exec (drive_intx id level) s) = false ->
  exists i, exec (drive_intx id level) s
      = with_pin s id (if level then routed_irq s id else None) (if level then routed_gsi s id else None) i
    /\ lines_ok (exec (drive_intx id level) s).
Proof.
  intros Hok Hst. pose proof Hok as [Hw Hi Hg Hs _]. apply drive_intx_real in Hst as (_ & Rirq & Rgsi). unfold drive_intx. rewrite exec_get.
  unfold routed_irq, routed_gsi in *. destruct (route s id) as [pic g]. cbn [fst snd] in *.
  set (previous := asserted_irq_lines s !! id) in *. set (previous_gsi := asserted_gsis s !! id) in *.
  assert (forall n, previous = Some n -> 0 <= n < 16) as Pirq by (intros n; apply Hi).
  assert (forall n, previous_gsi = Some n -> 16 <= n < 24) as Pgsi by (intros n; apply Hg).
  assert (forall k, Irq.line k -> id ∈ Irq.sources (lines s) k -> previous = Some k \/ previous_gsi = Some k) as Hid by (intros k; apply Hs).
  destruct level; cbv zeta.
  - set (irq := if has pic 0x80 then None else Some pic) in *. set (gsi := if 0 <=? g then Some g else None) in *.
    rewrite when_irq, when_gsi. set (p := if negb (undefined previous) && _ then previous else None).
    set (pg := if negb (undefined previous_gsi) && _ then previous_gsi else None).
    assert (forall k, p = Some k <-> previous = Some k /\ irq <> Some k) as Hp.
    { intros k. unfold p. destruct previous as [x|]; cbn; [|naive_solver]. case_bool_decide as E; cbn; naive_solver. }
    assert (forall k, pg = Some k <-> previous_gsi = Some k /\ gsi <> Some k) as Hpg.
    { intros k. unfold pg. destruct previous_gsi as [x|]; cbn; [|naive_solver]. case_bool_decide as E; cbn; naive_solver. }
    specialize (Rirq (or_introl eq_refl)). specialize (Rgsi (or_introl eq_refl)).
    pose proof (fun n => irq_ok_range irq n Rirq) as Rirq'. pose proof (fun n => gsi_ok_range gsi n Rgsi) as Rgsi'.
    destruct (drive_steps s id p pg irq gsi) as (i & E & W & S).
    + done.
    + apply irq_ok_intro. intros n E%Hp. exact (Pirq n (proj1 E)).
    + apply gsi_ok_intro. intros n E%Hpg. exact (Pgsi n (proj1 E)).
    + done.
    + done.
    + exists i. rewrite E. split; [done|]. apply with_pin_ok; [done..|]. intros x k Hk.
      rewrite S by done. rewrite elem_add_source, elem_drop_source, elem_add_source, elem_drop_source, Hp, Hpg.
      destruct (decide (x = id)) as [->|]; [|naive_solver]. specialize (Hid k Hk).
      assert (irq = Some k -> previous_gsi <> Some k) by (intros E1 E2; specialize (Rirq' k E1); specialize (Pgsi k E2); lia).
      assert (gsi = Some k -> previous <> Some k) by (intros E1 E2; specialize (Rgsi' k E1); specialize (Pirq k E2); lia).
      destruct (decide (irq = Some k)), (decide (gsi = Some k)); naive_solver.
  - rewrite when_irq. set (p := if negb (has _ _) then _ else None). set (pg := if undefined previous_gsi && _ then _ else _).
    assert (forall k, 0 <= k < 16 -> has k 0x80 = false) as Hlow.
    { intros k Hk. apply has_false_iff, Z.bits_inj'. intros j Hj. rewrite Z.land_spec, Z.bits_0.
      destruct (decide (j < 4)) as [Hj4|]; [|by rewrite (testbit_high 4 k) by lia].
      assert (j = 0 \/ j = 1 \/ j = 2 \/ j = 3) as [->|[->|[->| ->]]] by lia; apply andb_false_r. }
    assert (forall k, p = Some k -> 0 <= k < 16 /\ (previous = None \/ previous = Some k)) as Hp.
    { intros k. unfold p. destruct previous as [x|] eqn:Ep; cbn.
      - destruct (has x 0x80); [done|]. intros [= <-]. split; [by apply Pirq|by right].
      - specialize (Rirq (or_intror eq_refl)). intros E. split; [|by left]. apply (irq_ok_range _ k Rirq). by destruct (has pic 0x80). }
    assert (forall k, pg = Some k -> 16 <= k < 24 /\ (previous_gsi = None \/ previous_gsi = Some k)) as Hpg.
    { intros k. unfold pg. destruct previous_gsi as [x|] eqn:Ep; cbn.
      - intros [= <-]. split; [by apply Pgsi|by right].
      - specialize (Rgsi (or_intror eq_refl)). destruct (0 <=? g); [|done]. intros E. split; [by apply (gsi_ok_range _ k Rgsi)|by left]. }
    assert (forall k, previous = Some k -> p = Some k) as Hp'.
    { intros k E. unfold p. rewrite E. cbn. by rewrite Hlow by (by apply Pirq). }
    assert (forall k, previous_gsi = Some k -> pg = Some k) as Hpg' by (intros k E; unfold pg; by rewrite E).
    destruct (release_steps s id p pg) as (i & E & W & S).
    + done.
    + apply irq_ok_intro. intros n E%Hp. lia.
    + apply gsi_ok_intro. intros n E%Hpg. lia.
    + exists i. rewrite E. split; [done|]. apply with_pin_ok; [done..|]. intros x k Hk.
      rewrite S by done. rewrite !elem_drop_source.
      destruct (decide (x = id)) as [->|]; [|naive_solver]. specialize (Hid k Hk). naive_solver.
Qed.

(** *** The level of the lines *)

Definition line_upd (n : Z) (l : bool) (e : event) : bool := Irq.level n l [e].

Lemma line_upd_level n es : forall l, fold_left (line_upd n) es l = Irq.level n l es.
Proof. induction es as [|e es IH]; intros l; [done|]. cbn [fold_left]. rewrite IH. unfold line_upd. by destruct e. Qed.

(** [l] is the level of line [n]. *)
Definition level_ok (n : Z) (s : t) (l : bool) : Prop := Irq.wf (lines s) /\ Irq.consistent n l (lines s).

Lemma shared_level (n : Z) raise lower k id l :
  (raise = DeviceRaiseIrq /\ lower = DeviceLowerIrq \/ raise = IoapicRaiseIrq /\ lower = IoapicLowerIrq) ->
  Irq.line n -> (forall j, k = Some j -> 0 <= j < 24) ->
  ghoare (line_upd n) (level_ok n) (match k with Some j => on_lines (Irq.set_level raise lower j id l) | None => skip end) (level_ok n).
Proof.
  intros Hf Hn Hk s b [Hw Hc]. destruct k as [k|]; [|done]. rewrite line_upd_level. split.
  - by apply Irq.set_level_wf.
  - apply Irq.set_level_consistent; [done|done|by apply Hk|done|done].
Qed.

Lemma drive_intx_level n id level s b :
  Irq.line n -> lines_ok s -> stray (exec (drive_intx id level) s) = false -> level_ok n s b ->
  level_ok n (exec (drive_intx id level) s) (fold_left (line_upd n) (evs (drive_intx id level) s) b).
Proof.
  intros Hn Hok Hst Hl. pose proof Hok as [Hw Hi Hg _ _]. apply drive_intx_real in Hst as (_ & Rirq & Rgsi). unfold drive_intx.
  unfold routed_irq, routed_gsi in *. change (exec (bind get ?k) s) with (exec (k s) s). change (evs (bind get ?k) s) with (evs (k s) s).
  cbv beta. destruct (route s id) as [pic g]. cbn [fst snd] in *.
  assert (forall k, irq_ok k = true -> forall l, ghoare (line_upd n) (level_ok n) (shared_irq k id l) (level_ok n)) as Hirq.
  { intros k Hk l. rewrite shared_irq_real by done. apply shared_level; auto. by apply irq_line. }
  assert (forall k, gsi_ok k = true -> forall l, ghoare (line_upd n) (level_ok n) (shared_gsi k id l) (level_ok n)) as Hgsi.
  { intros k Hk l. rewrite shared_gsi_real by done. apply (shared_level n IoapicRaiseIrq IoapicLowerIrq); auto. by apply gsi_line. }
  assert (forall k, ghoare (line_upd n) (level_ok n) (set_asserted id k) (level_ok n)) as Ha by (intros k; apply ghoare_modify; auto).
  assert (forall k, ghoare (line_upd n) (level_ok n) (set_asserted_gsi id k) (level_ok n)) as Hag by (intros k; apply ghoare_modify; auto).
  assert (irq_ok (asserted_irq_lines s !! id) = true) as P1 by (apply irq_ok_intro; intros j; apply Hi).
  assert (gsi_ok (asserted_gsis s !! id) = true) as P2 by (apply gsi_ok_intro; intros j; apply Hg).
  destruct level; cbv zeta;
    match goal with |- level_ok _ (exec ?m s) _ => enough (ghoare (line_upd n) (level_ok n) m (level_ok n)) as H by exact (H s b Hl) end.
  - repeat (apply ghoare_bind with (Q := level_ok n); [|intros _]); try apply ghoare_when; auto.
  - rewrite when_irq. repeat (apply ghoare_bind with (Q := level_ok n); [|intros _]); auto.
    + apply Hirq. destruct (asserted_irq_lines s !! id) as [x|] eqn:Ex; cbn [default from_option].
      * by destruct (negb _).
      * specialize (Rirq (or_intror eq_refl)). by destruct (has pic 0x80).
    + apply Hgsi. destruct (asserted_gsis s !! id) as [x|] eqn:Ex; [done|]. specialize (Rgsi (or_intror eq_refl)). cbn [undefined andb].
      by destruct (0 <=? g).
Qed.

(** *** Pins and configuration registers *)

Definition level_of (s : t) (id : Z) : bool := default false (intx_levels s !! id).
Definition intx_disabled (s : t) (id : Z) : bool :=
  match device_spaces s !! id with Some sp => has (get32 sp 1) PCI_COMMAND_INTX_DISABLE | None => false end.

Lemma disabled_bit sp : Forall byte sp -> has (get32 sp 1) PCI_COMMAND_INTX_DISABLE = Z.testbit (get8 sp 5) 2.
Proof.
  intros H. change PCI_COMMAND_INTX_DISABLE with (2 ^ 10). rewrite has_testbit by lia. by rewrite get32_testbit by (done || lia).
Qed.

(** The interrupt status bit set or cleared. *)
Definition with_status (l : bool) (sp : space) : space :=
  set32 sp 1 (if l then js_or (get32 sp 1) (PCI_STATUS_INTERRUPT .<< 16) else js_and (get32 sp 1) (js_not (PCI_STATUS_INTERRUPT .<< 16))).

Lemma with_status_testbit l sp k j :
  space_ok sp -> 0 <= k < 4 -> 0 <= j < 8 ->
  Z.testbit (get8 (with_status l sp) (4 + k)) j = if (k =? 2) && (j =? 3) then l else Z.testbit (get8 sp (4 + k)) j.
Proof.
  intros [Hb Hl] Hk Hj. unfold with_status. rewrite get8_set32 by lia.
  rewrite (proj2 (andb_true_iff _ _)) by (split; lia). change (4 * 1) with 4. replace (4 + k - 4) with k by lia.
  rewrite byte_of_testbit by lia.
  assert (forall z, Z.testbit (i32 z) (8 * k + j) = Z.testbit (u32 z) (8 * k + j)) as Hi by (intros z; apply i32_testbit; lia).
  assert (Z.testbit (get32 sp 1) (8 * k + j) = Z.testbit (get8 sp (4 + k)) j) as Hg.
  { rewrite get32_testbit by (done || lia). f_equal; [f_equal|]; Z.to_euclidean_division_equations; lia. }
  assert (Z.testbit (i32 (PCI_STATUS_INTERRUPT .<< 16)) (8 * k + j) = (k =? 2) && (j =? 3)) as Hm.
  { change (i32 (PCI_STATUS_INTERRUPT .<< 16)) with (2 ^ 19). rewrite Z.pow2_bits_eqb by lia.
    apply eq_true_iff_eq. rewrite Z.eqb_eq, andb_true_iff, !Z.eqb_eq. lia. }
  assert (i32 (get32 sp 1) = get32 sp 1) as E by (apply i32_id, i32_int32).
  destruct l.
  - unfold js_or. rewrite Z.lor_spec, E, Hg, Hm. destruct (_ && _); [apply orb_true_r|apply orb_false_r].
  - unfold js_and, js_not. rewrite Z.land_spec, E, Hg. rewrite (i32_id (~. _)).
    2: { change (i32 (PCI_STATUS_INTERRUPT .<< 16)) with (2 ^ 19). unfold int32. unfold Z.lnot. lia. }
    rewrite Z.lnot_spec, Hm by lia. destruct (_ && _); [apply andb_false_r|apply andb_true_r].
Qed.

Lemma with_status_other l sp o : space_ok sp -> 0 <= o -> o <> 6 -> get8 (with_status l sp) o = get8 sp o.
Proof.
  intros Hs Ho Hne. pose proof Hs as [Hb Hl].
  destruct (decide (4 <= o < 8)) as [Hr|Hr].
  - replace o with (4 + (o - 4)) by lia. apply byte_ext; [apply get8_byte, set32_ok, Hs|by apply get8_byte|]. intros j Hj.
    rewrite with_status_testbit by (done || lia). by rewrite (proj2 (Z.eqb_neq (o - 4) 2)) by lia.
  - unfold with_status. rewrite get8_set32 by lia. destruct (_ && _) eqn:E; [|done]. apply andb_true_iff in E. lia.
Qed.

(** A function asserts a line only while its pin is active and INTx is not disabled, and its status bit shows
    its pin. *)
Definition pin_ok (s : t) (id : Z) : Prop :=
  (is_Some (asserted_irq_lines s !! id) \/ is_Some (asserted_gsis s !! id) -> level_of s id = true /\ intx_disabled s id = false)
  /\ (forall sp, device_spaces s !! id = Some sp -> Z.testbit (get8 sp 6) 3 = level_of s id).

Definition spaces_ok (s : t) : Prop :=
  map_Forall (fun _ => space_ok) (device_spaces s) /\ map_Forall (fun _ sp => space_ok sp /\ Z.testbit (get8 sp 6) 3 = false) (templates s).

Lemma spaces_lookup s id sp : spaces_ok s -> device_spaces s !! id = Some sp -> space_ok sp.
Proof. intros [H _] E. exact (H id sp E). Qed.

(** The invariant for line [n], without and with the pin of one function, while no stray line was driven. *)
Record sound (o : option Z) (n : Z) (s : t) (l : bool) : Prop := {
  inv_lines : lines_ok s;
  inv_spaces : spaces_ok s;
  inv_level : Irq.consistent n l (lines s);
  inv_pin : forall x, o = Some x -> pin_ok s x
}.
Definition inv (o : option Z) (n : Z) (s : t) (l : bool) : Prop := stray s = true \/ sound o n s l.

Definition level_run (n : Z) {A} (m : M t A) (s : t) (l : bool) : bool := fold_left (line_upd n) (evs m s) l.

Lemma drive_intx_stray id level s : stray s = true -> stray (exec (drive_intx id level) s) = true.
Proof. intros H. destruct (stray (exec _ _)) eqn:E; [done|]. apply drive_intx_real in E as [E _]. congruence. Qed.

Lemma drive_intx_other id level s x :
  lines_ok s -> stray (exec (drive_intx id level) s) = false -> x <> id -> pin_ok s x -> pin_ok (exec (drive_intx id level) s) x.
Proof.
  intros Hok Hst Hne [H1 H2]. destruct (drive_intx_spec id level s Hok Hst) as (i & -> & _). split; [|exact H2].
  rewrite with_pin_irq, with_pin_gsi. rewrite !lookup_partial_alter_ne by done. exact H1.
Qed.

Lemma drive_intx_inv o n id level s l :
  Irq.line n -> lines_ok s -> spaces_ok s -> Irq.consistent n l (lines s) ->
  (forall x, o = Some x -> x <> id -> pin_ok s x) ->
  (o = Some id -> (level = true -> level_of s id = true /\ intx_disabled s id = false)
     /\ forall sp, device_spaces s !! id = Some sp -> Z.testbit (get8 sp 6) 3 = level_of s id) ->
  inv o n (exec (drive_intx id level) s) (level_run n (drive_intx id level) s l).
Proof.
  intros Hn Hok Hsp Hl Hx Hid. destruct (stray (exec (drive_intx id level) s)) eqn:Hst; [by left|right].
  destruct (drive_intx_spec id level s Hok Hst) as (i & E & Hok').
  pose proof (drive_intx_level n id level s l Hn Hok Hst (conj (lo_wf _ Hok) Hl)) as [_ Hl'].
  split; [done|by rewrite E|exact Hl'|]. intros x ->. destruct (decide (x = id)) as [->|]; [|apply drive_intx_other; auto].
  rewrite E. destruct (Hid eq_refl) as [H1 H2]. split; [|exact H2]. rewrite with_pin_irq, with_pin_gsi, !lookup_partial_alter_eq.
  destruct level; [intros _; by apply H1|]. intros [[? ?]|[? ?]]; done.
Qed.

Section keeps.
Context (on_callback : callback -> M t unit) (n : Z) (Hn : Irq.line n).

(** What the operations keep, for the pin of any function or none. *)
Definition keeps {A} (m : M t A) : Prop := forall o, ghoare (line_upd n) (inv o n) m (inv o n).

Context (Hcb : forall cb, keeps (on_callback cb)).

Lemma pci_keeps_ret {A} (a : A) : keeps (ret a).
Proof. intros o. apply ghoare_ret. Qed.
Lemma keeps_skip : keeps skip.
Proof. intros o. apply ghoare_skip. Qed.
Lemma pci_keeps_bind {A C} (m : M t A) (k : A -> M t C) : keeps m -> (forall a, keeps (k a)) -> keeps (bind m k).
Proof. intros Hm Hk o. apply ghoare_bind with (Q := inv o n); [apply Hm|intros a; apply Hk]. Qed.
Lemma pci_keeps_get {A} (k : t -> M t A) : (forall s, keeps (k s)) -> keeps (bind get k).
Proof. intros Hk o. apply ghoare_get_any. intros s. apply Hk. Qed.
Lemma keeps_if {A} (b : bool) (m1 m2 : M t A) : keeps m1 -> keeps m2 -> keeps (if b then m1 else m2).
Proof. by destruct b. Qed.
Lemma keeps_when b m : keeps m -> keeps (when b m).
Proof. destruct b; [done|]. intros _. apply keeps_skip. Qed.
Lemma keeps_mfor {A} (l : list A) f : (forall x, keeps (f x)) -> keeps (mfor l f).
Proof. intros H o. apply ghoare_mfor. intros x. apply H. Qed.

Definition same_pins (s s' : t) : Prop :=
  asserted_irq_lines s' = asserted_irq_lines s /\ asserted_gsis s' = asserted_gsis s /\ intx_levels s' = intx_levels s
  /\ device_spaces s' = device_spaces s /\ templates s' = templates s /\ lines s' = lines s /\ stray s' = stray s.

Lemma inv_same_pins o s s' l : same_pins s s' -> inv o n s l -> inv o n s' l.
Proof.
  intros (E1 & E2 & E3 & E4 & E5 & E6 & E7) [Hst|[[] [] Hl Hp]]; [left; congruence|right]. split.
  - split; rewrite ?E6, ?E1, ?E2; done.
  - split; rewrite ?E4, ?E5; done.
  - by rewrite E6.
  - intros x Hx. specialize (Hp x Hx). unfold pin_ok, level_of, intx_disabled in *. by rewrite E1, E2, E3, E4.
Qed.

Lemma pci_keeps_modify f : (forall s, same_pins s (f s)) -> keeps (modify f).
Proof. intros Hf o. apply ghoare_modify. intros s l. by apply inv_same_pins. Qed.

Lemma keeps_emit e : (forall l, line_upd n l e = l) -> keeps (emit e).
Proof. intros He o. apply ghoare_emit. intros s l. by rewrite He. Qed.

(** A change of a configuration space that leaves INTx Disable and the interrupt status alone. *)
Definition quiet_update (f : space -> space) : Prop :=
  forall sp, space_ok sp -> space_ok (f sp) /\ Z.testbit (get8 (f sp) 5) 2 = Z.testbit (get8 sp 5) 2
    /\ Z.testbit (get8 (f sp) 6) 3 = Z.testbit (get8 sp 6) 3.

Lemma lookup_on_space id f s x :
  device_spaces (exec (on_space id f) s) !! x = if decide (x = id) then f <$> device_spaces s !! x else device_spaces s !! x.
Proof.
  change (alter f id (device_spaces s) !! x = if decide (x = id) then f <$> device_spaces s !! x else device_spaces s !! x).
  destruct (decide (x = id)) as [->|]; [apply lookup_alter_eq|by apply lookup_alter_ne].
Qed.

Lemma on_space_spaces id f s :
  spaces_ok s -> (forall sp, device_spaces s !! id = Some sp -> space_ok sp -> space_ok (f sp)) -> spaces_ok (exec (on_space id f) s).
Proof.
  intros [H1 H2] Hf. split; [|exact H2]. intros x sp. rewrite lookup_on_space. destruct (decide (x = id)) as [->|]; [|apply H1].
  intros (sp0 & E & ->)%fmap_Some. apply (Hf sp0 E). by eapply H1.
Qed.

Lemma on_space_pin id f s x :
  (x = id -> forall sp, device_spaces s !! id = Some sp ->
     space_ok sp /\ space_ok (f sp) /\ Z.testbit (get8 (f sp) 5) 2 = Z.testbit (get8 sp 5) 2
     /\ Z.testbit (get8 (f sp) 6) 3 = Z.testbit (get8 sp 6) 3) ->
  pin_ok s x -> pin_ok (exec (on_space id f) s) x.
Proof.
  intros Hf [H1 H2].
  assert (level_of (exec (on_space id f) s) x = level_of s x) as Hl by done.
  assert (intx_disabled (exec (on_space id f) s) x = intx_disabled s x) as Hd.
  { unfold intx_disabled. rewrite lookup_on_space. destruct (decide (x = id)) as [->|]; [|done].
    destruct (device_spaces s !! id) as [sp|] eqn:E; [|done]. cbn. destruct (Hf eq_refl sp eq_refl) as ((Hb & _) & (Hb' & _) & H5 & _).
    by rewrite !disabled_bit. }
  split; rewrite Hl; [rewrite Hd; exact H1|]. intros sp. rewrite lookup_on_space. destruct (decide (x = id)) as [->|]; [|apply H2].
  intros (sp0 & E & ->)%fmap_Some. destruct (Hf eq_refl sp0 E) as (_ & _ & _ & ->). by apply H2.
Qed.

Lemma keeps_space id f : quiet_update f -> keeps (on_space id f).
Proof.
  intros Hf o s l [Hst|[Hlo Hsp Hl Hp]]; [by left|right]. split.
  - by destruct Hlo.
  - apply on_space_spaces; [done|]. intros sp _ Hok. by apply Hf.
  - exact Hl.
  - intros x Hx. apply on_space_pin; [|by apply Hp]. intros -> sp E. assert (space_ok sp) as Hok by (by eapply spaces_lookup).
    split; [done|]. by apply Hf.
Qed.

Lemma set_irq_level_inv o id level s l :
  lines_ok s -> spaces_ok s -> Irq.consistent n l (lines s) -> (forall x, o = Some x -> x <> id -> pin_ok s x) ->
  inv o n (exec (set_irq_level id level) s) (level_run n (set_irq_level id level) s l).
Proof.
  intros Hlo Hsp Hl Hx. unfold set_irq_level, level_run. rewrite exec_modify. unfold evs. rewrite bind_modify.
  set (s1 := s <| intx_levels := _ |>). change (fun sp => set32 sp 1 _) with (with_status level).
  set (s2 := exec (on_space id (with_status level)) s1).
  match goal with |- context [bind (on_space id _) ?k] => change (bind (on_space id (with_status level)) k s1) with (k tt s2);
    change (exec (bind (on_space id (with_status level)) k) s1) with (exec (k tt) s2) end. cbv beta.
  rewrite exec_get, bind_get. cbv zeta.
  set (disabled := match device_spaces s2 !! id with Some sp => _ | None => _ end).
  assert (level_of s2 id = level) as Hlev by (unfold level_of, s2, s1; cbn; by rewrite lookup_insert_eq).
  apply drive_intx_inv; [done|by destruct Hlo| |exact Hl| |].
  - apply on_space_spaces; [by destruct Hsp|]. intros sp _. apply set32_ok.
  - intros x Hox Hne. apply on_space_pin; [done|]. destruct (Hx x Hox Hne) as [H1 H2].
    assert (level_of s1 x = level_of s x) as E by (unfold level_of, s1; cbn; by rewrite lookup_insert_ne).
    split; rewrite E; [exact H1|exact H2].
  - intros ->. split.
    + intros E. apply andb_true_iff in E as [E _]. apply andb_true_iff in E as [E1 E2]. apply negb_true_iff in E2.
      split; [exact (eq_trans Hlev E1)|exact E2].
    + intros sp. unfold s2. rewrite lookup_on_space, decide_True by done. intros (sp0 & E & ->)%fmap_Some.
      assert (space_ok sp0) as Hok by (by eapply spaces_lookup). change 6 with (4 + 2). rewrite with_status_testbit by (done || lia).
      exact (eq_sym Hlev).
Qed.

Lemma set_irq_level_stray id level s : stray s = true -> stray (exec (set_irq_level id level) s) = true.
Proof. intros H. unfold set_irq_level. rewrite exec_modify, exec_bind, exec_get. by apply drive_intx_stray. Qed.

Lemma keeps_set_irq_level id level : keeps (set_irq_level id level).
Proof. intros o s l [Hst|[Hlo Hsp Hl Hp]]; [left; by apply set_irq_level_stray|]. apply set_irq_level_inv; auto. Qed.

Ltac walk tac :=
  repeat (intros; cbv zeta; lazymatch goal with
    | |- keeps (bind get _) => apply pci_keeps_get
    | |- keeps (bind _ _) => apply pci_keeps_bind
    | |- keeps (when _ _) => apply keeps_when
    | |- keeps (mfor _ _) => apply keeps_mfor
    | |- keeps skip => apply keeps_skip
    | |- keeps (ret _) => apply pci_keeps_ret
    | |- keeps (if _ then _ else _) => apply keeps_if
    | |- keeps (match ?x with _ => _ end) => destruct x
    | |- keeps (modify _) => apply pci_keeps_modify; done
    | |- keeps (set_port _ _) => apply pci_keeps_modify; done
    | |- keeps (on_bar _ _ _) => apply pci_keeps_modify; done
    | |- keeps (on_callback _) => apply Hcb
    | |- keeps (set_irq_level _ _) => apply keeps_set_irq_level
    | |- keeps _ => progress tac
    end).

Lemma keeps_update_io_bar id nr : keeps (update_io_bar id nr).
Proof. unfold update_io_bar, clear_port. walk idtac. Qed.

Lemma keeps_upstream_changed id : keeps (upstream_changed on_callback id).
Proof. unfold upstream_changed. walk ltac:(apply keeps_update_io_bar). Qed.

Lemma keeps_bridge_changed id : keeps (bridge_changed on_callback id).
Proof. unfold bridge_changed. walk ltac:(apply keeps_upstream_changed). Qed.

Lemma keeps_move_bar id nr base : keeps (move_bar on_callback id nr base).
Proof. unfold move_bar. walk idtac. Qed.

Lemma keeps_set_io_bars b from to : keeps (set_io_bars b from to).
Proof. unfold set_io_bars, clear_port. walk idtac. Qed.

(** Writes beyond the command and status registers. *)
Lemma quiet_set32_low i v : 2 <= i < 16 -> quiet_update (fun sp => set32 sp i v).
Proof.
  intros Hi sp Hs. split; [by apply set32_ok|]. destruct Hs as [_ Hl].
  rewrite !get8_set32 by lia. rewrite (proj2 (andb_false_iff (4 * i <=? 5) _)), (proj2 (andb_false_iff (4 * i <=? 6) _)) by (left; lia). done.
Qed.

Lemma keeps_write_bar id offset written : 0x10 <= offset < 0x28 -> keeps (write_bar on_callback id offset written).
Proof.
  intros Ho. assert (2 <= offset .>> 2 < 16) as Hi by (rewrite Z.shiftr_div_pow2 by lia; change (2 ^ 2) with 4; Z.to_euclidean_division_equations; lia).
  unfold write_bar, move_memory_bar, move_io_bar.
  walk ltac:(first [apply keeps_space, quiet_set32_low; exact Hi | apply keeps_move_bar | apply keeps_update_io_bar | apply keeps_set_io_bars]).
Qed.

Lemma keeps_write_expansion_rom id written : keeps (write_expansion_rom id written).
Proof. unfold write_expansion_rom. walk ltac:(apply keeps_space, (quiet_set32_low 12); lia). Qed.

Lemma set8_testbit sp o v o' j :
  Forall byte sp -> 0 <= o -> 0 <= o' -> 0 <= j < 8 ->
  Z.testbit (get8 (set8 sp o v) o') j = if (o' =? o) && (o <? Z.of_nat (length sp)) then Z.testbit v j else Z.testbit (get8 sp o') j.
Proof.
  intros Hb Ho Ho' Hj. destruct (o <? Z.of_nat (length sp)) eqn:E.
  - apply Z.ltb_lt in E. rewrite get8_set8 by lia. rewrite andb_true_r. destruct (o' =? o); [|done].
    unfold u8. by rewrite Z.mod_pow2_bits_low by lia.
  - rewrite andb_false_r. apply Z.ltb_ge in E. unfold set8, arr_set. by rewrite list_insert_ge by lia.
Qed.

(** A byte written does not touch the interrupt status. *)
Lemma write_byte_quiet bridge offset value acc i :
  space_ok acc.1.1 -> 0 <= offset + i ->
  space_ok (write_byte bridge offset value acc i).1.1
  /\ Z.testbit (get8 (write_byte bridge offset value acc i).1.1 6) 3 = Z.testbit (get8 acc.1.1 6) 3
  /\ length (write_byte bridge offset value acc i).1.1 = length acc.1.1.
Proof.
  destruct acc as [[sp hw] ww]. cbn [fst]. intros Hs Ho. pose proof Hs as [Hb Hl]. unfold write_byte.
  set (o := offset + i) in *. set (v := shr32 value (i .<< 3) .& 0xFF).
  assert (forall x, o <> 6 -> space_ok (set8 sp o x) /\ Z.testbit (get8 (set8 sp o x) 6) 3 = Z.testbit (get8 sp 6) 3
    /\ length (set8 sp o x) = length sp) as Hother.
  { intros x Hne. split; [by apply set8_ok|]. split; [|apply set8_length]. rewrite set8_testbit by (done || lia).
    by rewrite (proj2 (Z.eqb_neq 6 o)) by done. }
  destruct (0x40 <=? o) eqn:E40; [cbn [fst]; apply Hother; lia|].
  destruct (bridge && (0x18 <=? o)) eqn:Eb.
  { apply andb_true_iff in Eb as [_ Eb]. destruct (_ =? _); cbn [fst]; apply Hother; lia. }
  destruct ((o =? 4) || (o =? 5)) eqn:E4; [apply orb_true_iff in E4; cbn [fst]; apply Hother; lia|].
  destruct ((o =? 6) || (o =? 7)) eqn:E6.
  - cbn [fst]. apply orb_true_iff in E6 as [E6|E6]; apply Z.eqb_eq in E6; [|apply Hother; lia]. rewrite E6.
    split; [by apply set8_ok|]. split; [|apply set8_length]. rewrite set8_testbit by (done || lia).
    rewrite Z.eqb_refl, (proj2 (Z.ltb_lt _ _)) by lia. cbn [andb].
    rewrite Z.land_spec, Z.lnot_spec, Z.land_spec by lia. change (Z.testbit (PCI_STATUS_RW1C .>> ((6 - 6) .<< 3)) 3) with false.
    by rewrite andb_false_r, andb_true_r.
  - destruct (header_byte_writable o) eqn:Eh; [|done]. cbn [fst]. apply Hother. intros ->. done.
Qed.

Lemma write_bytes_quiet bridge offset value l acc :
  space_ok acc.1.1 -> 0 <= offset -> Forall (fun i => 0 <= i) l ->
  let r := fold_left (write_byte bridge offset value) l acc in
  space_ok r.1.1 /\ Z.testbit (get8 r.1.1 6) 3 = Z.testbit (get8 acc.1.1 6) 3 /\ length r.1.1 = length acc.1.1.
Proof.
  intros Hs Ho Hl. revert acc Hs. induction Hl as [|i l Hi Hl IH]; intros acc Hs; [done|]. cbn [fold_left].
  destruct (write_byte_quiet bridge offset value acc i Hs ltac:(lia)) as (H1 & H2 & H3). destruct (IH _ H1) as (H4 & H5 & H6).
  split; [done|]. split; congruence.
Qed.

Lemma get16_intx sp : Forall byte sp -> Z.testbit (get16 sp 4) 10 = Z.testbit (get8 sp 5) 2.
Proof.
  intros Hb. unfold get16. rewrite Z.lor_spec, Z.shiftl_spec by lia. change (10 - 8) with 2. change (4 + 1) with 5.
  rewrite (testbit_high 8 (get8 sp 4)); [done|by apply get8_byte|lia].
Qed.

Lemma keeps_after_command id old command :
  keeps (on_callback (OnCommandChange id old command) ;;;
    s <-- get ;;
    when (bool_decide (is_Some (devices s !! id ≫= pci_secondary_bus))
        && has (old .^ command) (PCI_COMMAND_IO .| PCI_COMMAND_MEMORY .| PCI_COMMAND_MASTER)) (bridge_changed on_callback id)).
Proof. walk ltac:(apply keeps_bridge_changed). Qed.

(** The new configuration bytes, and what they cause. *)
Lemma command_written id sp sp' windows o s l :
  inv o n s l -> device_spaces s !! id = Some sp ->
  (sound o n s l -> space_ok sp' /\ Z.testbit (get8 sp' 6) 3 = Z.testbit (get8 sp 6) 3) ->
  let m := on_space id (fun _ => sp') ;;;
    (if negb (get16 sp' 4 =? get16 sp 4) then command_changed on_callback id (get16 sp 4) (get16 sp' 4)
     else when windows (bridge_changed on_callback id)) in
  inv o n (exec m s) (level_run n m s l).
Proof.
  intros Hi Hsp Hnew. cbv zeta. unfold level_run. set (s1 := exec (on_space id (fun _ => sp')) s).
  match goal with |- context [bind (on_space id (fun _ => sp')) (fun _ => ?k)] =>
    change (exec (bind (on_space id (fun _ => sp')) (fun _ => k)) s) with (exec k s1);
    change (evs (bind (on_space id (fun _ => sp')) (fun _ => k)) s) with (evs k s1) end.
  assert (Z.testbit (get16 sp' 4) 10 = Z.testbit (get16 sp 4) 10 -> inv o n s1 l) as Hsame.
  { intros E. destruct Hi as [Hst|Hi]; [by left|right]. destruct (Hnew Hi) as [Hok' H6]. destruct Hi as [Hlo Hss Hl Hp].
    assert (space_ok sp) as [Hb Hlen] by (by eapply spaces_lookup). pose proof Hok' as [Hb' Hlen']. rewrite !get16_intx in E by done.
    split; [by destruct Hlo|apply on_space_spaces; auto|exact Hl|].
    intros x Hx. apply on_space_pin; [|by apply Hp]. intros -> sp0 E0. rewrite Hsp in E0. by injection E0 as <-. }
  destruct (get16 sp' 4 =? get16 sp 4) eqn:Ec; cbn [negb].
  - apply Z.eqb_eq in Ec. assert (keeps (when windows (bridge_changed on_callback id))) as Hk by (apply keeps_when, keeps_bridge_changed).
    apply Hk, Hsame. by rewrite Ec.
  - unfold command_changed. change (exec (bind get ?k) s1) with (exec (k s1) s1). change (evs (bind get ?k) s1) with (evs (k s1) s1). cbv beta.
    rewrite exec_bind, evs_bind, fold_left_app. apply keeps_after_command.
    change PCI_COMMAND_INTX_DISABLE with (2 ^ 10). rewrite !has_testbit by lia. rewrite Z.lxor_spec.
    destruct (xorb _ _) eqn:Ex; cbn [when]; [|apply Hsame; by apply xorb_eq in Ex].
    destruct Hi as [Hst|Hi]; [left; by apply drive_intx_stray|]. destruct (Hnew Hi) as [Hok' H6]. destruct Hi as [Hlo Hss Hl Hp].
    apply drive_intx_inv; [done|by destruct Hlo|apply on_space_spaces; auto|exact Hl| |].
    + intros x Hx Hne. apply on_space_pin; auto; done.
    + intros ->. split.
      * intros E. apply andb_true_iff in E as [E1 E2]. split; [exact E1|]. apply negb_true_iff in E2.
        unfold intx_disabled, s1. rewrite lookup_on_space, decide_True by done. rewrite Hsp. cbn [fmap option_fmap option_map].
        rewrite disabled_bit by apply Hok'. by rewrite <- get16_intx by apply Hok'.
      * intros sp0. unfold s1. rewrite lookup_on_space, decide_True, Hsp by done. intros [= <-]. rewrite H6.
        destruct (Hp id eq_refl) as [_ H2]. exact (H2 sp Hsp).
Qed.

Lemma bar_offset bridge offset :
  bar_register bridge offset = true -> (offset .& 3 =? 0) = true -> (offset =? 0x30) = false -> 0x10 <= offset < 0x28.
Proof.
  intros Eb Ea%Z.eqb_eq E30%Z.eqb_neq. change 3 with (2 ^ 2 - 1) in Ea. rewrite land_ones_mod in Ea by lia. change (2 ^ 2) with 4 in Ea.
  unfold bar_register in Eb. destruct bridge; rewrite ?orb_true_iff, ?andb_true_iff, ?Z.leb_le, ?Z.ltb_lt in Eb;
    Z.to_euclidean_division_equations; lia.
Qed.

Lemma exec_assoc (a b c : M t unit) s : exec (a ;;; b ;;; c) s = exec c (exec (a ;;; b) s).
Proof. by rewrite !exec_bind. Qed.
Lemma evs_assoc (a b c : M t unit) s : evs (a ;;; b ;;; c) s = evs (a ;;; b) s ++ evs c (exec (a ;;; b) s).
Proof. by rewrite !evs_bind, !exec_bind, app_assoc. Qed.

Lemma keeps_function_write id offset sz value : 0 <= offset -> keeps (function_write on_callback id offset sz value).
Proof.
  intros Ho o s l Hi. unfold function_write. change (exec (bind get ?k) s) with (exec (k s) s). change (evs (bind get ?k) s) with (evs (k s) s). cbv beta.
  destruct (function_space s id) as [sp|] eqn:Esp; [|done]. destruct (devices s !! id) as [d|]; [|done].
  unfold function_space in Esp. destruct (id <? 0); [done|].
  destruct (_ <? _); [done|]. destruct (bar_register (is_bridge d) offset) eqn:Eb.
  - destruct ((sz =? 4) && (offset .& 3 =? 0)) eqn:Ea; [|done]. cbn [when].
    destruct (offset =? 0x30) eqn:E30; [by apply keeps_write_expansion_rom|].
    apply keeps_write_bar; [|done]. apply andb_true_iff in Ea as [_ Ea]. by eapply bar_offset.
  - pose proof (write_bytes_quiet (is_bridge d) offset value (seqZ 0 sz) (sp, false, false)) as Hq.
    destruct (fold_left _ _ _) as [[sp' hw] ww] eqn:Ef. cbn [fst] in Hq.
    cbv zeta. rewrite exec_assoc, evs_assoc, fold_left_app.
    assert (keeps (when ((0x40 <? offset + sz) || hw) (on_callback (OnConfigWrite id offset sz)))) as Hk by (apply keeps_when, Hcb).
    apply Hk. apply command_written; [done|done|]. intros Hs.
    destruct Hq as (H1 & H2 & _); [by eapply spaces_lookup, Esp; apply Hs|done|apply Forall_forall; intros x Hx%elem_of_seqZ; lia|done].
Qed.

Lemma keeps_config_write bdf offset sz value : 0 <= offset -> keeps (config_write on_callback bdf offset sz value).
Proof. intros Ho. unfold config_write. walk ltac:(by apply keeps_function_write). Qed.

Lemma land_nonneg v m : 0 <= m -> 0 <= v .& m.
Proof. intros Hm. apply land_nonneg_r. done. Qed.

Lemma keeps_data_write offset sz value : keeps (data_write on_callback offset sz value).
Proof. unfold data_write, config_write_cf8. walk ltac:(apply keeps_config_write, land_nonneg; lia). Qed.

Lemma keeps_ecam_write8 addr value : keeps (ecam_write8 on_callback addr value).
Proof. unfold ecam_write8. walk ltac:(apply keeps_config_write, land_nonneg; lia). Qed.

Lemma keeps_ecam_write32 addr value : keeps (ecam_write32 on_callback addr value).
Proof. unfold ecam_write32. walk ltac:(idtac; lazymatch goal with
    | |- keeps (ecam_write8 _ _ _) => apply keeps_ecam_write8
    | |- _ => apply keeps_config_write, land_nonneg; lia end). Qed.

Lemma quiet_set8 o v : 7 < o -> quiet_update (fun sp => set8 sp o v).
Proof.
  intros Ho sp Hs. split; [by apply set8_ok|]. rewrite !set8_testbit by (apply Hs || lia).
  by rewrite (proj2 (Z.eqb_neq 5 o)), (proj2 (Z.eqb_neq 6 o)) by lia.
Qed.

Lemma quiet_compose f g : quiet_update f -> quiet_update g -> quiet_update (fun sp => g (f sp)).
Proof. intros Hf Hg sp Hs. destruct (Hf sp Hs) as (H1 & H2 & H3). destruct (Hg _ H1) as (H4 & H5 & H6). split; [done|]. split; congruence. Qed.

Lemma quiet_set8_get o (v : space -> Z) : 7 < o -> quiet_update (fun sp => set8 sp o (v sp)).
Proof. intros Ho sp Hs. exact (quiet_set8 o (v sp) Ho sp Hs). Qed.

Lemma keeps_msi_config_written bdf cap next : 7 < cap -> keeps (msi_config_written bdf cap next).
Proof.
  intros Hc. apply keeps_space. intros sp Hs. cbv zeta.
  destruct (quiet_set8 cap PCI_CAP_MSI Hc sp Hs) as (H1 & A1 & B1). cbv beta in *.
  destruct (quiet_set8 (cap + 1) next ltac:(lia) _ H1) as (H2 & A2 & B2). cbv beta in *.
  set (sp2 := set8 (set8 sp cap PCI_CAP_MSI) (cap + 1) next) in *.
  destruct (quiet_set8 (cap + 2) ((get8 sp2 (cap + 2) .& MSI_CONTROL_ENABLE) .| MSI_CONTROL_64BIT) ltac:(lia) _ H2) as (H3 & A3 & B3). cbv beta in *.
  destruct (quiet_set8 (cap + 3) 0 ltac:(lia) _ H3) as (H4 & A4 & B4). cbv beta in *.
  destruct (quiet_set8_get (cap + 4) (fun sp => get8 sp (cap + 4) .& ~. 3) ltac:(lia) _ H4) as (H5 & A5 & B5). cbv beta in *.
  split; [exact H5|]. split; congruence.
Qed.

Lemma keeps_set_ecam base sz : keeps (set_ecam base sz).
Proof. unfold set_ecam. walk ltac:(by apply keeps_emit). Qed.

Lemma inv_weaken o id s l : inv o n s l -> inv (if decide (o = Some id) then None else o) n s l.
Proof. intros [Hst|[]]; [by left|right]. split; [done..|]. case_decide; [done|]. done. Qed.

Lemma set_space_ok template old : space_ok template \/ template = [] -> space_ok old -> space_ok (set_space template old).
Proof.
  intros [[Hb Hl]| ->] [Hb' Hl']; [|done]. split.
  - apply Forall_app. split; [done|by apply Forall_drop].
  - unfold set_space. rewrite length_app. lia.
Qed.

(** A card starts afresh: until its pin is driven again, the invariant holds for all other functions. *)
Lemma fresh_start id o :
  o <> Some id ->
  ghoare (line_upd n) (inv o n)
    (s <-- get ;;
     let template := default [] (templates s !! id) in
     on_space id (set_space template) ;;;
     mfor (default [] (bar_numbers <$> devices s !! id)) (fun nr => restart_bar on_callback id nr template) ;;;
     modify (fun s => s <| intx_levels := <[id := false]> (intx_levels s) |>) ;;;
     on_callback (DeviceReset id)) (inv o n).
Proof.
  intros Ho. apply ghoare_get. intros s l Hi. cbv zeta. set (template := default [] (templates s !! id)).
  set (Q := fun (s : t) (_ : bool) => stray s = true \/ space_ok template \/ template = []).
  assert (Q s l) as Ht.
  { destruct Hi as [Hst|Hi]; [by left|right]. unfold template. destruct (templates s !! id) as [sp|] eqn:E; [|by right]. left. cbn.
    destruct (inv_spaces _ _ _ _ Hi) as [_ H]. exact (proj1 (H id sp E)). }
  rewrite exec_bind, evs_bind, fold_left_app.
  match goal with |- inv o n (exec ?m _) _ => enough (ghoare (line_upd n) (inv o n) m (inv o n)) as H; [apply H|] end.
  - clear -Hi Ht Ho. destruct Hi as [Hst|[Hlo Hsp Hl Hp]]; [by left|]. destruct Ht as [Hst|Ht]; [by left|right].
    split; [by destruct Hlo| |exact Hl|].
    + apply on_space_spaces; [done|]. intros sp _. by apply set_space_ok.
    + intros x Hx. apply on_space_pin; [congruence|by apply Hp].
  - apply ghoare_bind with (Q := inv o n); [|intros _; apply ghoare_bind with (Q := inv o n); [|intros _]].
    + apply keeps_mfor. intros nr. unfold restart_bar, move_io_bar, move_memory_bar. walk ltac:(apply keeps_move_bar).
    + apply ghoare_modify. intros s0 l0 [Hst|[Hlo Hsp Hl Hp]]; [by left|right]. split; [by destruct Hlo|done|exact Hl|].
      intros x Hx. destruct (Hp x Hx) as [H1 H2]. assert (x <> id) by congruence.
      unfold pin_ok, level_of in *. cbn -[lookup insert] in *. rewrite lookup_insert_ne by done. exact (conj H1 H2).
    + apply Hcb.
Qed.

Lemma keeps_set_function_present id present fresh : keeps (set_function_present on_callback id present fresh).
Proof.
  unfold set_function_present. apply pci_keeps_get. intros s0. apply pci_keeps_bind; [apply keeps_when, Hcb|intros _].
  apply pci_keeps_bind; [by apply pci_keeps_modify|intros _]. intros o s l Hi. rewrite exec_bind, evs_bind, fold_left_app.
  set (m := when (present && fresh) _). set (o' := if decide (o = Some id) then None else o).
  assert (inv o' n (exec m s) (fold_left (line_upd n) (evs m s) l)) as Hm.
  { apply (inv_weaken o id) in Hi. fold o' in Hi. unfold m, when. destruct (present && fresh); [|done].
    apply fresh_start; [unfold o'; case_decide; done|done]. }
  generalize dependent (fold_left (line_upd n) (evs m s) l). generalize (exec m s). clear s l Hi m. intros s l Hi.
  change (exec (bind get ?k) s) with (exec (k s) s). change (evs (bind get ?k) s) with (evs (k s) s). cbv beta.
  rewrite exec_bind, evs_bind, fold_left_app. apply keeps_upstream_changed.
  destruct Hi as [Hst|[Hlo Hsp Hl Hp]]; [left; by apply set_irq_level_stray|].
  apply set_irq_level_inv; [done..|]. intros x Hx Hne. apply Hp. unfold o'. rewrite decide_False; [done|congruence].
Qed.

Lemma keeps_reset_write value : keeps (reset_write value).
Proof. unfold reset_write. walk ltac:(by apply keeps_emit). Qed.

(** What the guest, the chipset and the devices do with the buses.  A reboot of the machine is [PciReset], what the
    resets of some devices do with their pins, [ResetLines] (the CPU empties the sources of every shared line), and
    what the resets of the other devices do. *)
Inductive op :=
| AddressWrite (i out_byte : Z)
| DataWrite (offset sz value : Z)
| EcamWrite8 (addr value : Z)
| EcamWrite32 (addr value : Z)
| ResetWrite (value : Z)
| PciReset
| ResetLines
| SetIrqLevel (id : Z) (level : bool)
| SetFunctionPresent (id : Z) (present fresh : bool)
| MsiConfigWritten (bdf cap next : Z)
| SetEcam (base sz : Z)
| SetChip (c : chip).

Definition run_op (o : op) : M t unit :=
  match o with
  | AddressWrite i out_byte => address_write i out_byte
  | DataWrite offset sz value => data_write on_callback offset sz value
  | EcamWrite8 addr value => ecam_write8 on_callback addr value
  | EcamWrite32 addr value => ecam_write32 on_callback addr value
  | ResetWrite value => reset_write value
  | PciReset => reset
  | ResetLines => on_lines Irq.reset_lines
  | SetIrqLevel id level => set_irq_level id level
  | SetFunctionPresent id present fresh => set_function_present on_callback id present fresh
  | MsiConfigWritten bdf cap next => msi_config_written bdf cap next
  | SetEcam base sz => set_ecam base sz
  | SetChip c => modify (fun s => s <| chipset := c |>)
  end.

(** Capabilities are beyond the header. *)
Definition op_ok (o : op) : Prop := match o with MsiConfigWritten _ cap _ => 0x40 <= cap | _ => True end.

Lemma keeps_empty_lines (m : M Irq.t unit) :
  strict = false -> (forall i, Irq.wf i -> Irq.wf (exec m i)) -> (forall i k, Irq.wf i -> Irq.line k -> Irq.sources (exec m i) k = ∅) ->
  (forall i l, Irq.wf i -> Irq.consistent n l i -> Irq.consistent n (Irq.level n l (evs m i)) (exec m i)) ->
  keeps (on_lines m).
Proof.
  intros Hns Hm Hempty Hc o s l [Hst|[[Hw Hi Hg Hs Ha] Hsp Hl Hp]]; [by left|right]. rewrite line_upd_level.
  split; [split|done| |exact Hp].
  - exact (Hm (lines s) Hw).
  - exact Hi.
  - exact Hg.
  - intros id k Hk Hid. exfalso. change (id ∈ Irq.sources (exec m (lines s)) k) in Hid. rewrite Hempty in Hid by done. set_solver.
  - congruence.
  - exact (Hc (lines s) l Hw Hl).
Qed.

Lemma keeps_reset_lines : strict = false -> keeps (on_lines Irq.reset_lines).
Proof.
  intros Hns. apply keeps_empty_lines; [exact Hns|exact (Irq.run_call_wf Irq.ResetLines)|exact Irq.reset_lines_sources|].
  intros i l Hw. exact (Irq.run_call_consistent Irq.ResetLines i n l Hw Logic.I Hn).
Qed.

Lemma pci_keeps_op o : op_ok o -> (strict = true -> o <> ResetLines) -> keeps (run_op o).
Proof.
  intros Ho Hr. destruct o; cbn [run_op op_ok] in *.
  - by apply pci_keeps_modify.
  - apply keeps_data_write.
  - apply keeps_ecam_write8.
  - apply keeps_ecam_write32.
  - apply keeps_reset_write.
  - by apply pci_keeps_modify.
  - apply keeps_reset_lines. destruct strict; [by specialize (Hr eq_refl)|done].
  - apply keeps_set_irq_level.
  - apply keeps_set_function_present.
  - apply keeps_msi_config_written. lia.
  - apply keeps_set_ecam.
  - by apply pci_keeps_modify.
Qed.

End keeps.
End lines.

(** *** From power-on *)

(** A device as the sources describe one: its registers, with no interrupt pending. *)
Definition device_ok (d : device) : Prop :=
  (64 <= length (pci_space d))%nat /\ Z.of_nat (length (pci_space d)) <= pci_config_size d /\ Z.testbit (get8 (pci_space d) 6) 3 = false.

Lemma initial_space_get d o : Z.of_nat (length (pci_space d)) <= pci_config_size d -> get8 (initial_space d) o = u8 (get8 (pci_space d) o).
Proof.
  intros Hs. unfold get8, arr_get, initial_space. rewrite take_ge by (rewrite length_map; lia).
  destruct (decide (Z.to_nat o < length (pci_space d))%nat) as [Hl|Hl].
  - rewrite lookup_app_l by (rewrite length_map; lia). rewrite list_lookup_fmap.
    destruct (lookup_lt_is_Some_2 _ _ Hl) as [v ->]. done.
  - rewrite lookup_app_r by (rewrite length_map; lia). rewrite (lookup_ge_None_2 (pci_space d)) by lia. cbn.
    destruct (replicate _ 0 !! _) as [v|] eqn:E; [|done]. by apply lookup_replicate in E as [-> _].
Qed.

Lemma initial_space_ok d : device_ok d -> space_ok (initial_space d) /\ Z.testbit (get8 (initial_space d) 6) 3 = false.
Proof.
  intros (H1 & H2 & H3). split; [split|].
  - unfold initial_space. apply Forall_app. split; [apply Forall_take, Forall_map, Forall_true; intros; apply u8_byte|].
    apply Forall_replicate. unfold byte. lia.
  - unfold initial_space. rewrite length_app, length_take, length_map, length_replicate. lia.
  - rewrite initial_space_get by done. unfold u8. by rewrite Z.mod_pow2_bits_low by lia.
Qed.

(** No function asserts anything yet. *)
Record quiet (s : t) : Prop := {
  q_irq : asserted_irq_lines s = ∅;
  q_gsi : asserted_gsis s = ∅;
  q_levels : intx_levels s = ∅;
  q_lines : lines s = Irq.create;
  q_stray : stray s = false;
  q_spaces : map_Forall (fun _ sp => space_ok sp /\ Z.testbit (get8 sp 6) 3 = false) (device_spaces s);
  q_templates : map_Forall (fun _ sp => space_ok sp /\ Z.testbit (get8 sp 6) 3 = false) (templates s)
}.

Lemma quiet_same_pins s s' : same_pins s s' -> quiet s -> quiet s'.
Proof. intros (E1 & E2 & E3 & E4 & E5 & E6 & E7) []. split; rewrite ?E1, ?E2, ?E3, ?E4, ?E5, ?E6, ?E7; done. Qed.

(** Registration makes no effects: the ghost says whether there were any. *)
Definition booting (s : t) (any : bool) : Prop := quiet s /\ any = false.

Lemma boot_modify f : (forall s, same_pins s (f s)) -> ghoare (fun _ _ => true) booting (modify f) booting.
Proof. intros Hf. apply ghoare_modify. intros s b [Hq ->]. split; [|done]. by eapply quiet_same_pins. Qed.

Lemma boot_update_io_bar id nr : ghoare (fun _ _ => true) booting (update_io_bar id nr) booting.
Proof.
  unfold update_io_bar, clear_port, set_port.
  repeat (gstep booting ltac:(idtac); intros; lazymatch goal with
    | |- ghoare _ _ (match ?x with _ => _ end) _ => destruct x
    | |- ghoare _ _ _ _ => apply boot_modify; done end).
Qed.

Lemma boot_register d : device_ok d -> ghoare (fun _ _ => true) booting (register_device d) booting.
Proof.
  intros Hd. unfold register_device. cbv zeta. destruct (initial_space_ok d Hd) as [H1 H2].
  apply ghoare_bind with (Q := booting).
  { destruct (256 <=? pci_id d); apply ghoare_modify; intros s b [[] ->]; (split; [|done]); (split; [done..| |]);
      first [by apply map_Forall_insert_2 | done]. }
  intros _. apply ghoare_bind with (Q := booting).
  { destruct (_ =? _); [|apply ghoare_skip]. destruct (pci_secondary_bus d); [|apply ghoare_skip]. by apply boot_modify. }
  intros _. apply ghoare_mfor. intros nr. apply ghoare_get_any. intros s. destruct (bar_at d nr); [|apply ghoare_skip].
  apply ghoare_bind with (Q := booting); [by apply boot_modify|]. intros _. apply ghoare_when, boot_update_io_bar.
Qed.

Lemma quiet_create c io_ports next : quiet (create c io_ports next).
Proof. by split. Qed.

Lemma quiet_inv strict o n s : quiet s -> inv strict o n s false.
Proof.
  intros [E1 E2 E3 E4 _ E5 E6]. right. split.
  - split; rewrite ?E1, ?E2, ?E4; [apply Irq.irq_create_wf|done|done| |]; intros; [|naive_solver]. rewrite Irq.sources_create in *. set_solver.
  - split; [|done]. eapply map_Forall_impl; [exact E5|]. naive_solver.
  - unfold Irq.consistent. rewrite E4, Irq.sources_create. symmetry. apply bool_decide_eq_false. auto.
  - intros x _. split; rewrite ?E1, ?E2.
    + intros [[? ?]|[? ?]]; done.
    + intros sp Hsp. unfold level_of. rewrite E3. by destruct (E5 x sp Hsp).
Qed.

(** The machine from power-on: devices are registered, then anything happens. *)
Definition machine (on_callback : callback -> M t unit) (ds : list device) (ops : list op) : M t unit :=
  mfor ds register_device ;;; mfor ops (run_op on_callback).

(** The state and the level of line [n] after anything happened. *)
Lemma machine_inv strict on_callback c io_ports next ds ops n o :
  (forall cb, keeps strict n (on_callback cb)) -> Forall device_ok ds -> Forall op_ok ops -> Irq.line n ->
  (strict = true -> ResetLines ∉ ops) ->
  inv strict o n (exec (machine on_callback ds ops) (create c io_ports next))
    (Irq.level n false (evs (machine on_callback ds ops) (create c io_ports next))).
Proof.
  intros Hcb Hds Hops Hn Hr.
  assert (booting (exec (mfor ds register_device) (create c io_ports next))
    (fold_left (fun _ _ => true) (evs (mfor ds register_device) (create c io_ports next)) false)) as [Hq Hev].
  { assert (ghoare (fun _ _ => true) booting (mfor ds register_device) booting) as H.
    { clear -Hds. induction Hds as [|d ds Hd Hds IH]; [apply ghoare_skip|].
      apply ghoare_bind with (Q := booting); [by apply boot_register|done]. }
    apply H. split; [apply quiet_create|done]. }
  assert (evs (mfor ds register_device) (create c io_ports next) = []) as E.
  { destruct (evs _ _) as [|e es]; [done|]. exfalso. cbn in Hev. clear -Hev. induction es; [done|auto]. }
  unfold machine. rewrite exec_bind, evs_bind, E. cbn [app]. rewrite <- line_upd_level.
  assert (ghoare (line_upd n) (inv strict o n) (mfor ops (run_op on_callback)) (inv strict o n)) as H.
  { clear -Hops Hcb Hn Hr. induction Hops as [|p ops Hp Hops IH]; [apply ghoare_skip|].
    apply ghoare_bind with (Q := inv strict o n); [|intros _; apply IH; set_solver]. apply pci_keeps_op; auto. set_solver. }
  apply H, quiet_inv, Hq.
Qed.

(** C6: Interrupt pins of PCI functions: whatever the guest writes to configuration space (through the ports or the
    memory-mapped window), the devices do with their pins, and hot plug does to cards, behind any
    bridges and with any routing of the chipset (the PIIX's PIRQ registers included), as long as no
    pin was driven that is routed to a number that is no input of the machine (above 15 for the PIC,
    where the registers hold any byte and the code throws above 23): an input [n] of the interrupt
    controllers that the functions assert is recorded for one of them, and unless a reboot has emptied
    all the lines the converse holds as well, so the input is asserted exactly while a function is
    recorded as asserting it; a function asserts an input only while its own pin is active and INTx
    is not disabled in its command register; and the interrupt status bit of every function's
    configuration space shows its pin. *)
Theorem pci_intx (on_callback : callback -> M t unit) (c : chip) (io_ports : gmap Z Z) (next : Z)
    (ds : list device) (ops : list op) (n : Z) :
  (forall strict k cb, Irq.line k -> keeps strict k (on_callback cb)) -> Forall device_ok ds -> Forall op_ok ops -> Irq.line n ->
  let s := exec (machine on_callback ds ops) (create c io_ports next) in
  let level := Irq.level n false (evs (machine on_callback ds ops) (create c io_ports next)) in
  let asserts id k := asserted_irq_lines s !! id = Some k \/ asserted_gsis s !! id = Some k in
  stray s = false ->
  (level = true -> exists id, asserts id n)
  /\ (ResetLines ∉ ops -> (exists id, asserts id n) -> level = true)
  /\ (forall id k, asserts id k -> level_of s id = true /\ intx_disabled s id = false)
  /\ (forall id sp, device_spaces s !! id = Some sp -> Z.testbit (get8 sp 6) 3 = level_of s id).
Proof.
  intros Hcb Hds Hops Hn s level asserts Hst.
  assert (forall strict o, (strict = true -> ResetLines ∉ ops) -> sound strict o n s level) as Hi.
  { intros strict o Hr. destruct (machine_inv strict on_callback c io_ports next ds ops n o) as [H|H]; [intros cb; by apply Hcb|done..| |exact H].
    unfold s in Hst. congruence. }
  assert (forall o, sound false o n s level) as Hi' by (intros o; by apply Hi).
  split; [|split; [|split]].
  - intros Hl. pose proof (inv_level _ _ _ _ _ (Hi' None)) as Hc. unfold Irq.consistent in Hc.
    assert (Irq.sources (lines s) n <> ∅) as Hne by (apply (bool_decide_eq_true_1 (Irq.sources (lines s) n <> ∅)); congruence).
    apply set_choose_L in Hne as [id Hid]. exists id. by apply (lo_sources _ _ (inv_lines _ _ _ _ _ (Hi' None))).
  - intros Hr [id Hid]. specialize (Hi true None (fun _ => Hr)). pose proof (inv_level _ _ _ _ _ Hi) as Hc. unfold Irq.consistent in Hc.
    rewrite Hc. apply bool_decide_eq_true. intros Hempty.
    apply (lo_asserts _ _ (inv_lines _ _ _ _ _ Hi) eq_refl id n Hn) in Hid. rewrite Hempty in Hid. set_solver.
  - intros id k Hid. destruct (inv_pin _ _ _ _ _ (Hi' (Some id)) id eq_refl) as [H _]. apply H. destruct Hid as [->| ->]; eauto.
  - intros id sp Hsp. destruct (inv_pin _ _ _ _ _ (Hi' (Some id)) id eq_refl) as [_ H]. by apply H.
Qed.

(** ** What every operation leaves alone *)

(** The parts of the state the operations share with nothing else here: all but the configuration spaces, the
    devices and the tree of the buses. *)
Definition same_tree (s s' : t) : Prop :=
  device_spaces s' = device_spaces s /\ templates s' = templates s /\ devices s' = devices s
  /\ bridge_for_bus s' = bridge_for_bus s /\ bridges_on s' = bridges_on s.

(** An invariant [I] of the rest, where [P id] are the changes of a configuration space that keep it: it is kept by
    every operation if the changes the operations make are among them. *)
Record stable (on_callback : callback -> M t unit) (I : t -> Prop) (P : Z -> (space -> space) -> Prop) : Prop := {
  st_frame : forall s s', same_tree s s' -> I s -> I s';
  st_bar : forall id nr f, preserves I (on_bar id nr f);
  st_space : forall id f, P id f -> preserves I (on_space id f);
  st_set32 : forall id i (v : space -> Z), i = 1 \/ 4 <= i < 15 -> P id (fun sp => set32 sp i (v sp));
  st_bytes : forall s id sp bridge offset sz value, I s -> device_spaces s !! id = Some sp -> 0 <= offset ->
    P id (fun _ => (fold_left (write_byte bridge offset value) (seqZ 0 sz) (sp, false, false)).1.1);
  st_msi : forall id cap next, 0x40 <= cap -> preserves I (msi_config_written id cap next);
  st_template : forall s id, I s -> P id (set_space (default [] (templates s !! id)));
  st_callback : forall cb, preserves I (on_callback cb)
}.

Section stable.
Context {on_callback : callback -> M t unit} {I : t -> Prop} {P : Z -> (space -> space) -> Prop} (H : stable on_callback I P).

Lemma stable_frame f : (forall s, same_tree s (f s)) -> preserves I (modify f).
Proof. intros Hf. apply preserves_modify. intros s. by apply (st_frame _ _ _ H). Qed.

Lemma stable_lines {A} (m : M Irq.t A) : preserves I (on_lines m).
Proof. intros s. rewrite on_lines_exec. by apply (st_frame _ _ _ H). Qed.

Lemma stable_set32 id i (v : space -> Z) : i = 1 \/ 4 <= i < 15 -> preserves I (on_space id (fun sp => set32 sp i (v sp))).
Proof. intros Hi. by apply (st_space _ _ _ H), (st_set32 _ _ _ H). Qed.

(** Walks through a method. *)
Ltac st_walk tac :=
  repeat (intros; cbv zeta; lazymatch goal with
    | |- preserves _ (bind _ _) => apply preserves_bind
    | |- preserves _ get => apply preserves_get_only
    | |- preserves _ (when _ _) => apply preserves_when
    | |- preserves _ (mfor _ _) => apply preserves_mfor
    | |- preserves _ skip => apply preserves_skip
    | |- preserves _ (ret _) => apply preserves_ret
    | |- preserves _ (emit _) => apply preserves_emit
    | |- preserves _ (if _ then _ else _) => apply preserves_if
    | |- preserves _ (match ?x with _ => _ end) => destruct x
    | |- preserves _ (modify _) => apply stable_frame; done
    | |- preserves _ (set_port _ _) => apply stable_frame; done
    | |- preserves _ (on_bar _ _ _) => apply (st_bar _ _ _ H)
    | |- preserves _ (set_asserted _ _) => apply stable_frame; done
    | |- preserves _ (set_asserted_gsi _ _) => apply stable_frame; done
    | |- preserves _ (on_lines _) => apply stable_lines
    | |- preserves _ (on_callback _) => apply (st_callback _ _ _ H)
    | |- preserves _ _ => progress tac
    end).

Lemma stable_drive id level : preserves I (drive_intx id level).
Proof. unfold drive_intx, shared_irq, shared_gsi, set_stray. st_walk idtac. Qed.

Lemma stable_set_irq_level id level : preserves I (set_irq_level id level).
Proof. unfold set_irq_level. st_walk ltac:(first [apply stable_drive | apply stable_set32; by left]). Qed.

Lemma stable_update_io_bar id nr : preserves I (update_io_bar id nr).
Proof. unfold update_io_bar, clear_port. st_walk idtac. Qed.

Lemma stable_upstream_changed id : preserves I (upstream_changed on_callback id).
Proof. unfold upstream_changed. st_walk ltac:(apply stable_update_io_bar). Qed.

Lemma stable_bridge_changed id : preserves I (bridge_changed on_callback id).
Proof. unfold bridge_changed. st_walk ltac:(apply stable_upstream_changed). Qed.

Lemma stable_move_bar id nr base : preserves I (move_bar on_callback id nr base).
Proof. unfold move_bar. st_walk idtac. Qed.

Lemma stable_write_bar id offset written : 0x10 <= offset < 0x28 -> preserves I (write_bar on_callback id offset written).
Proof.
  intros Ho. assert (4 <= offset .>> 2 < 15) as Hi by (rewrite Z.shiftr_div_pow2 by lia; change (2 ^ 2) with 4; Z.to_euclidean_division_equations; lia).
  unfold write_bar, move_memory_bar, move_io_bar, set_io_bars, clear_port.
  st_walk ltac:(first [apply (stable_set32 _ _ (fun _ => _)); by right | apply stable_move_bar | apply stable_update_io_bar]).
Qed.

Lemma stable_write_expansion_rom id written : preserves I (write_expansion_rom id written).
Proof. unfold write_expansion_rom. st_walk ltac:(apply (stable_set32 _ 12 (fun _ => _)); lia). Qed.

Lemma stable_command_changed id old command : preserves I (command_changed on_callback id old command).
Proof. unfold command_changed. st_walk ltac:(first [apply stable_drive|apply stable_bridge_changed]). Qed.

Lemma stable_function_write id offset sz value : 0 <= offset -> preserves I (function_write on_callback id offset sz value).
Proof.
  intros Ho s Hs. unfold function_write. rewrite exec_get.
  destruct (function_space s id) as [sp|] eqn:Esp; [|done]. destruct (devices s !! id) as [d|]; [|done].
  unfold function_space in Esp. destruct (id <? 0); [done|].
  destruct (_ <? _); [done|]. destruct (bar_register (is_bridge d) offset) eqn:Eb.
  - destruct ((sz =? 4) && (offset .& 3 =? 0)) eqn:Ea; [|done]. cbn [when].
    destruct (offset =? 0x30) eqn:E30; [by apply stable_write_expansion_rom|].
    apply stable_write_bar; [|done]. apply andb_true_iff in Ea as [_ Ea]. by eapply bar_offset.
  - destruct (fold_left _ _ _) as [[sp' hw] ww] eqn:Ef. cbv zeta.
    assert (P id (fun _ => sp')) as Hsp'.
    { pose proof (st_bytes _ _ _ H s id sp (is_bridge d) offset sz value Hs Esp Ho) as Hb. by rewrite Ef in Hb. }
    match goal with |- I (exec ?m s) => enough (preserves I m) as Hm by exact (Hm s Hs) end.
    st_walk ltac:(first [apply stable_command_changed|apply stable_bridge_changed|by apply (st_space _ _ _ H)]).
Qed.

Lemma stable_config_write bdf offset sz value : 0 <= offset -> preserves I (config_write on_callback bdf offset sz value).
Proof. intros Ho. unfold config_write. st_walk ltac:(by apply stable_function_write). Qed.

Lemma stable_ecam_write8 addr value : preserves I (ecam_write8 on_callback addr value).
Proof. unfold ecam_write8. st_walk ltac:(apply stable_config_write, land_nonneg; lia). Qed.

Lemma stable_set_function_present id present fresh : preserves I (set_function_present on_callback id present fresh).
Proof.
  assert (preserves I (s <-- get ;;
     let template := default [] (templates s !! id) in
     on_space id (set_space template) ;;;
     mfor (default [] (bar_numbers <$> devices s !! id)) (fun nr => restart_bar on_callback id nr template) ;;;
     modify (fun s => s <| intx_levels := <[id := false]> (intx_levels s) |>) ;;;
     on_callback (DeviceReset id))) as Hfresh.
  { apply preserves_get. intros s Hs. cbv zeta. set (template := default [] (templates s !! id)).
    pose proof (st_template _ _ _ H s id Hs) as Ht. fold template in Ht.
    match goal with |- I (exec ?m s) => enough (preserves I m) as Hm by exact (Hm s Hs) end.
    unfold restart_bar, move_io_bar, move_memory_bar.
    st_walk ltac:(first [apply stable_move_bar | apply (st_space _ _ _ H); exact Ht]). }
  unfold set_function_present. apply preserves_bind; [apply preserves_get_only|intros s0].
  apply preserves_bind; [apply preserves_when, (st_callback _ _ _ H)|intros _]. apply preserves_bind; [by apply stable_frame|intros _].
  apply preserves_bind; [apply preserves_when, Hfresh|intros _].
  st_walk ltac:(first [apply stable_set_irq_level | apply stable_upstream_changed]).
Qed.

Lemma stable_op o : op_ok o -> preserves I (run_op on_callback o).
Proof.
  intros Ho. destruct o; cbn [run_op op_ok] in *.
  - by apply stable_frame.
  - unfold data_write, config_write_cf8. st_walk ltac:(apply stable_config_write, land_nonneg; lia).
  - apply stable_ecam_write8.
  - unfold ecam_write32. st_walk ltac:(idtac; lazymatch goal with
      | |- preserves _ (ecam_write8 _ _ _) => apply stable_ecam_write8
      | |- _ => apply stable_config_write, land_nonneg; lia end).
  - unfold reset_write. st_walk idtac.
  - by apply stable_frame.
  - apply stable_lines.
  - apply stable_set_irq_level.
  - apply stable_set_function_present.
  - by apply (st_msi _ _ _ H).
  - unfold set_ecam. st_walk idtac.
  - by apply stable_frame.
Qed.

End stable.

(** ** Identity of the functions *)

(** Vendor and device, revision and class, header type and interrupt pin. *)
Definition identity_byte (o : Z) : bool :=
  (0 <=? o) && (o <? 4) || (8 <=? o) && (o <? 0xC) || (o =? 0xE) || (o =? 0x3D).

Section identity.
Context (ident : Z -> Z -> Z).

Definition same_ident (id : Z) (sp : space) : Prop :=
  space_ok sp /\ forall o, identity_byte o = true -> get8 sp o = ident id o.

Definition identified (s : t) : Prop :=
  map_Forall same_ident (device_spaces s) /\ map_Forall same_ident (templates s).

Lemma identified_space id f :
  (forall sp, same_ident id sp -> same_ident id (f sp)) -> preserves identified (on_space id f).
Proof.
  intros Hf s [H1 H2]. split; [|exact H2]. intros x sp. rewrite lookup_on_space. destruct (decide (x = id)) as [->|]; [|apply H1].
  intros (sp0 & E & ->)%fmap_Some. apply Hf. by apply H1.
Qed.

(** A 32-bit register that holds no identity byte. *)
Lemma ident_set32 id i v sp :
  i = 1 \/ 4 <= i < 15 -> same_ident id sp -> same_ident id (set32 sp i v).
Proof.
  intros Hi [Hs Ho]. split; [by apply set32_ok|]. intros o Hid. rewrite <- Ho by done. destruct Hs as [_ Hl].
  unfold identity_byte in Hid. rewrite !orb_true_iff, !andb_true_iff, !Z.leb_le, !Z.ltb_lt, !Z.eqb_eq in Hid.
  rewrite get8_set32 by lia. destruct (_ && _) eqn:E; [|done]. apply andb_true_iff in E as [E1 E2]. lia.
Qed.

Lemma ident_set8 id o v sp : identity_byte o = false -> 0 <= o -> same_ident id sp -> same_ident id (set8 sp o v).
Proof.
  intros Hno Hpos [Hs Ho]. split; [by apply set8_ok|]. intros o' Hid. rewrite <- Ho by done.
  assert (0 <= o') by (unfold identity_byte in Hid; rewrite !orb_true_iff, !andb_true_iff, !Z.leb_le, !Z.ltb_lt, !Z.eqb_eq in Hid; lia).
  apply byte_ext; [apply get8_byte, set8_ok, Hs|apply get8_byte, Hs|]. intros j Hj. rewrite set8_testbit by (apply Hs || lia).
  rewrite (proj2 (Z.eqb_neq o' o)); [done|]. intros ->. congruence.
Qed.

Lemma ident_write_byte id bridge offset value acc i :
  0 <= offset + i -> same_ident id acc.1.1 -> same_ident id (write_byte bridge offset value acc i).1.1.
Proof.
  destruct acc as [[sp hw] ww]. cbn [fst]. intros Ho Hi. unfold write_byte. set (o := offset + i) in *.
  assert (forall v, identity_byte o = false -> same_ident id (set8 sp o v)) as Hset by (intros v Hn; by apply ident_set8).
  destruct (0x40 <=? o) eqn:E40; [cbn [fst]; apply Hset; unfold identity_byte; lia|].
  destruct (bridge && (0x18 <=? o)) eqn:Eb.
  { destruct (o =? BRIDGE_SECONDARY_STATUS + 1) eqn:Es; [cbn [fst]; apply Hset; apply Z.eqb_eq in Es as ->; done|].
    cbn [fst]. destruct (identity_byte o) eqn:Ei; [|by apply Hset]. apply andb_true_iff in Eb as [_ Eb].
    assert (o = 0x3D) as -> by (unfold identity_byte in Ei; lia).
    change (get8 BRIDGE_HEADER_WRITABLE 0x3D) with 0. rewrite Z.land_0_r, Z.lor_0_r. change (~. 0) with (-1). rewrite Z.land_m1_r.
    destruct Hi as [Hs Hr]. split; [by apply set8_ok|]. intros o' Ho'. rewrite <- Hr by done.
    assert (0 <= o') by (unfold identity_byte in Ho'; lia).
    apply byte_ext; [apply get8_byte, set8_ok, Hs|apply get8_byte, Hs|]. intros j Hj. rewrite set8_testbit by (apply Hs || lia).
    destruct (o' =? 0x3D) eqn:E; [apply Z.eqb_eq in E as ->; by destruct (_ <? _)|done]. }
  destruct ((o =? 4) || (o =? 5)) eqn:E4; [cbn [fst]; apply Hset; unfold identity_byte; lia|].
  destruct ((o =? 6) || (o =? 7)) eqn:E6; [cbn [fst]; apply Hset; unfold identity_byte; lia|].
  destruct (header_byte_writable o) eqn:Eh; [|exact Hi]. cbn [fst]. apply Hset.
  unfold header_byte_writable in Eh. unfold identity_byte. lia.
Qed.

Lemma identified_template s id sp : identified s -> same_ident id sp -> same_ident id (set_space (default [] (templates s !! id)) sp).
Proof.
  intros [_ Ht] [Hsp Ho]. destruct (templates s !! id) as [template|] eqn:E; [|done]. destruct (Ht id template E) as [Hts Hto]. cbn [default].
  split; [apply set_space_ok; auto|]. intros o Hid. rewrite <- Hto by done.
  unfold get8, arr_get, set_space. cbn. rewrite lookup_app_l; [done|]. destruct Hts as [_ Hl]. unfold identity_byte in Hid. lia.
Qed.

Lemma identified_stable on_callback :
  (forall cb, preserves identified (on_callback cb)) ->
  stable on_callback identified (fun id f => forall sp, same_ident id sp -> same_ident id (f sp)).
Proof.
  intros Hcb. split.
  - intros s s' (E1 & E2 & _) [H1 H2]. split; by rewrite ?E1, ?E2.
  - intros id nr f s Hs. exact Hs.
  - apply identified_space.
  - intros id i v Hi sp. by apply ident_set32.
  - intros s id sp bridge offset sz value [Hs _] Hsp Ho _ _.
    assert (Forall (fun i => 0 <= i) (seqZ 0 sz)) as Hl by (apply Forall_forall; intros x Hx%elem_of_seqZ; lia).
    assert (same_ident id ((sp, false, false) : space * bool * bool).1.1) as H0 by exact (Hs id sp Hsp).
    clear -H0 Hl Ho. revert H0. generalize ((sp, false, false) : space * bool * bool). induction Hl as [|i l Hi Hl IH]; intros acc H0; [done|].
    cbn [fold_left]. apply IH, ident_write_byte; [lia|done].
  - intros id cap next Hc. apply identified_space. intros sp Hsp. cbv zeta.
    assert (forall o v sp, cap <= o -> same_ident id sp -> same_ident id (set8 sp o v)) as H
      by (intros; apply ident_set8; [unfold identity_byte; lia|lia|done]).
    repeat (apply H; [lia|]). exact Hsp.
  - intros s id Hs sp. by apply identified_template.
  - exact Hcb.
Qed.

End identity.

(** The identity bytes the machine was built with. *)
Fixpoint built_ident (ds : list device) (id o : Z) : Z :=
  match ds with
  | [] => 0
  | d :: ds => if pci_id d =? id then u8 (get8 (pci_space d) o) else built_ident ds id o
  end.

Lemma built_ident_in ds d o : NoDup (map pci_id ds) -> d ∈ ds -> built_ident ds (pci_id d) o = u8 (get8 (pci_space d) o).
Proof.
  induction ds as [|d' ds IH]; intros Hnd Hin; [set_solver|]. cbn [map] in Hnd. apply NoDup_cons in Hnd as [Hn Hnd].
  cbn [built_ident]. apply elem_of_cons in Hin as [->|Hin]; [by rewrite Z.eqb_refl|].
  rewrite (proj2 (Z.eqb_neq _ _)); [by apply IH|]. intros E. apply Hn. rewrite E. by apply list_elem_of_fmap_2.
Qed.

Lemma identified_register ident d :
  device_ok d -> (forall o, ident (pci_id d) o = u8 (get8 (pci_space d) o)) -> preserves (identified ident) (register_device d).
Proof.
  intros Hd Hid. assert (same_ident ident (pci_id d) (initial_space d)) as Hs.
  { split; [by apply initial_space_ok|]. intros o _. rewrite Hid. apply initial_space_get. apply Hd. }
  unfold register_device. cbv zeta. apply preserves_bind.
  { destruct (256 <=? pci_id d); apply preserves_modify; intros s [H1 H2]; (split; [by apply map_Forall_insert_2|]);
      first [by apply map_Forall_insert_2 | done]. }
  intros _. apply preserves_bind.
  { destruct (_ =? _); [|apply preserves_skip]. destruct (pci_secondary_bus d); [|apply preserves_skip]. by apply preserves_modify. }
  intros _. apply preserves_mfor. intros nr. apply preserves_bind; [apply preserves_get_only|]. intros s.
  destruct (bar_at d nr); [|apply preserves_skip]. apply preserves_bind; [by apply preserves_modify|].
  intros _. apply preserves_when.
  apply (stable_update_io_bar (identified_stable ident (fun _ => skip) (fun _ => preserves_skip _))).
Qed.

(** C34: A function keeps its identity: whatever is written to configuration space at any offset and width, through
    the ports or the window, and whatever happens to pins, bridges and hot plug slots, its vendor
    and device, class and revision, header type and interrupt pin stay those it was built with. *)
Theorem pci_identity (on_callback : callback -> M t unit) (c : chip) (io_ports : gmap Z Z) (next : Z)
    (ds : list device) (ops : list op) (d : device) (sp : space) (o : Z) :
  (forall ident cb, preserves (identified ident) (on_callback cb)) ->
  Forall device_ok ds -> NoDup (map pci_id ds) -> Forall op_ok ops -> d ∈ ds -> identity_byte o = true ->
  device_spaces (exec (machine on_callback ds ops) (create c io_ports next)) !! pci_id d = Some sp ->
  get8 sp o = u8 (get8 (pci_space d) o).
Proof.
  intros Hcb Hds Hnd Hops Hin Ho Hsp. set (ident := built_ident ds).
  assert (identified ident (exec (machine on_callback ds ops) (create c io_ports next))) as [Hi _].
  { unfold machine. rewrite exec_bind.
    assert (preserves (identified ident) (mfor ops (run_op on_callback))) as Hrun.
    { clear -Hops Hcb. induction Hops as [|p ops Hp Hops IH]; [apply preserves_skip|].
      apply preserves_bind; [by eapply stable_op, Hp; apply identified_stable|done]. }
    apply Hrun. assert (forall l, Forall (fun d => device_ok d /\ d ∈ ds) l -> preserves (identified ident) (mfor l register_device)) as Hboot.
    { intros l Hl. induction Hl as [|d' l [Hd' Hin'] Hl IH]; [apply preserves_skip|].
      apply preserves_bind; [|done]. apply identified_register; [done|]. intros x. by apply built_ident_in. }
    apply Hboot; [|by split]. apply Forall_forall. intros d' Hd'. split; [|done]. rewrite Forall_forall in Hds. by apply Hds. }
  destruct (Hi _ _ Hsp) as [_ H]. rewrite H by done. by apply built_ident_in.
Qed.

(** ** Routing of configuration accesses *)

(** Buses are numbered from the root: a bridge leads to a bus of a higher number. *)
Definition bus_ok (d : device) : Prop :=
  match pci_secondary_bus d with Some b => 0 <= pci_id d /\ pci_id d .>> 8 < b < 256 | None => True end.

Record tree (s : t) : Prop := {
  tree_devices : forall id d, devices s !! id = Some d -> pci_id d = id /\ bus_ok d;
  tree_up : forall bus b, bridge_for_bus s !! bus = Some b -> 0 <= b /\ b .>> 8 < bus < 256;
  tree_down : forall bus l b, bridges_on s !! bus = Some l -> b ∈ l -> b .>> 8 = bus /\ exists d, devices s !! b = Some d /\ is_bridge d = true
}.

Lemma take_bridge_next s bdf bus l at_ behind :
  tree s -> (forall b, b ∈ l -> b .>> 8 = at_ /\ exists d, devices s !! b = Some d /\ is_bridge d = true) ->
  take_bridge s bdf bus l = Next behind -> at_ < behind < 256.
Proof.
  intros Ht. induction l as [|b l IH]; intros Hl; [done|]. cbn [take_bridge].
  destruct (Hl b ltac:(by left)) as (Hb & d & Hd & Hbr). rewrite Hd. cbn [mbind option_bind].
  destruct (_ =? _); [by destruct (_ && _)|]. destruct (_ && _); [|apply IH; intros b' Hb'; apply Hl; by right].
  intros [= <-]. destruct (tree_devices _ Ht b d Hd) as [E Hok]. unfold bus_ok, is_bridge in *.
  destruct (pci_secondary_bus d) as [k|]; [|done]. cbn. rewrite E, Hb in Hok. tauto.
Qed.

Lemma route_from_ends fuel s bdf bus at_ :
  tree s -> at_ < 256 -> 256 - at_ <= Z.of_nat fuel -> exists id, route_from fuel s bdf bus at_ = Some id.
Proof.
  intros Ht. revert at_. induction fuel as [|fuel IH]; intros at_ Ha Hf; [lia|]. cbn [route_from].
  destruct (take_bridge s bdf bus (default [] (bridges_on s !! at_))) as [id|behind] eqn:E; [by exists id|].
  apply (take_bridge_next s bdf bus _ at_) in E; [|done|].
  - apply IH; lia.
  - destruct (bridges_on s !! at_) as [l|] eqn:El; [|cbn; set_solver]. intros b Hb. exact (tree_down _ Ht at_ l b El Hb).
Qed.

Lemma parent_lower s id b : tree s -> parent_bridge s id = b -> b <> -1 -> 256 <= id /\ 0 <= b /\ b .>> 8 < id .>> 8 < 256.
Proof.
  intros Ht. unfold parent_bridge. destruct (256 <=? id) eqn:E; [|congruence]. apply Z.leb_le in E.
  destruct (bridge_for_bus s !! (id .>> 8)) as [k|] eqn:Ek; [|cbn; congruence]. cbn. intros <- _. split; [done|]. exact (tree_up _ Ht _ _ Ek).
Qed.

Lemma last_cons_default {A} (l : list A) x y : List.last (x :: l) y = List.last l x.
Proof. revert x. induction l as [|z l IH]; intros x; [done|]. cbn [List.last] in *. destruct l; [done|]. exact (IH x). Qed.

(** The loops over the bridges above a function reach the root bus. *)
Lemma bridges_above_root fuel s id :
  tree s -> id .>> 8 < Z.of_nat fuel -> parent_bridge s (List.last (bridges_above fuel s id) id) = -1.
Proof.
  intros Ht. revert id. induction fuel as [|fuel IH]; intros id Hf.
  - cbn. unfold parent_bridge. destruct (256 <=? id) eqn:E; [|done]. apply Z.leb_le in E.
    rewrite Z.shiftr_div_pow2 in Hf by lia. assert (1 <= id / 2 ^ 8) by (apply Z.div_le_lower_bound; lia). lia.
  - cbn [bridges_above]. destruct (parent_bridge s id =? -1) eqn:E; [by apply Z.eqb_eq|].
    apply Z.eqb_neq in E. destruct (parent_lower s id _ Ht eq_refl E) as (H1 & H2 & H3).
    rewrite <- (IH (parent_bridge s id)) by lia. f_equal.
    apply last_cons_default.
Qed.

Lemma tree_same s s' : same_tree s s' -> tree s -> tree s'.
Proof. intros (_ & _ & E1 & E2 & E3) []. split; rewrite ?E1, ?E2, ?E3; done. Qed.

Lemma tree_device id f :
  (forall d, pci_id (f d) = pci_id d /\ pci_secondary_bus (f d) = pci_secondary_bus d) -> preserves tree (on_device id f).
Proof.
  intros Hf s [H1 H2 H3].
  assert (forall x, devices (exec (on_device id f) s) !! x = if decide (x = id) then f <$> devices s !! x else devices s !! x) as El.
  { intros x. change (alter f id (devices s) !! x = if decide (x = id) then f <$> devices s !! x else devices s !! x).
    destruct (decide (x = id)) as [->|]; [apply lookup_alter_eq|by apply lookup_alter_ne]. }
  split; [|exact H2|].
  - intros x d. rewrite El. destruct (decide (x = id)) as [->|]; [|apply H1]. intros (d0 & E & ->)%fmap_Some.
    destruct (Hf d0) as [E1 E2]. unfold bus_ok. rewrite E1, E2. by apply H1.
  - intros bus l b Hl Hb. destruct (H3 bus l b Hl Hb) as (E & d & Hd & Hbr). split; [done|]. rewrite El. destruct (decide (b = id)) as [->|]; [|eauto].
    rewrite Hd. exists (f d). split; [done|]. unfold is_bridge in *. by rewrite (proj2 (Hf d)).
Qed.

Lemma tree_stable on_callback : (forall cb, preserves tree (on_callback cb)) -> stable on_callback tree (fun _ _ => True).
Proof.
  intros Hcb. assert (forall id f, preserves tree (on_space id f)) as Hsp by (intros id f s []; by split).
  split; try done.
  - apply tree_same.
  - intros id nr f. by apply tree_device.
  - intros id cap next _. apply Hsp.
Qed.

Lemma unregistered_stable x : stable (fun _ => skip) (fun s => devices s !! x = None) (fun _ _ => True).
Proof.
  assert (forall id f, preserves (fun s => devices s !! x = None) (on_space id f)) as Hsp by (intros id f s Hs; exact Hs).
  split; try done.
  - intros s s' (_ & _ & E & _). by rewrite E.
  - intros id nr f s Hx. change (alter (fun d => d <| pci_bars := alter (fmap f) (Z.to_nat nr) (pci_bars d) |>) id (devices s) !! x = None).
    by rewrite lookup_alter_None.
  - intros id cap next _. apply Hsp.
  - intros _. apply preserves_skip.
Qed.

(** The BARs of a new device. *)
Lemma register_bars I P d sp :
  stable (fun _ => skip) I P ->
  preserves I (mfor (bar_numbers d) (fun nr =>
    s <-- get ;;
    let value := get32 sp (4 + nr) in
    match bar_at d nr with
    | Some b =>
        on_bar (pci_id d) nr (fun _ => register_bar s (pci_id d) value b) ;;;
        when (negb (value .& 1 =? 0) && negb (moves b) && (256 <=? pci_id d)) (update_io_bar (pci_id d) nr)
    | None => skip
    end)).
Proof.
  intros H. apply preserves_mfor. intros nr. apply preserves_bind; [apply preserves_get_only|]. intros s. cbv zeta.
  destruct (bar_at d nr); [|apply preserves_skip]. apply preserves_bind; [apply (st_bar _ _ _ H)|].
  intros _. apply preserves_when, (stable_update_io_bar H).
Qed.

Lemma tree_register d s :
  bus_ok d -> tree s -> devices s !! pci_id d = None ->
  tree (exec (register_device d) s) /\ forall x, x <> pci_id d -> devices s !! x = None -> devices (exec (register_device d) s) !! x = None.
Proof.
  intros Hok [H1 H2 H3] Hnew. unfold register_device. cbv zeta. rewrite exec_modify, exec_bind.
  set (s1 := s <| device_spaces := _ |> <| devices := _ |> <| templates := _ |>).
  match goal with |- context [exec ?m s1] => set (s2 := exec m s1) end.
  assert (devices s2 = <[pci_id d := d]> (devices s)) as Ed by (unfold s2; destruct (_ =? _); [destruct (pci_secondary_bus d)|]; done).
  assert (tree s2) as Ht.
  { assert (forall id d', devices s2 !! id = Some d' -> pci_id d' = id /\ bus_ok d') as G1.
    { intros id d'. rewrite Ed. intros [[<- <-]|[_ E]]%lookup_insert_Some; [done|]. by apply H1. }
    assert (forall bus l b, bridges_on s !! bus = Some l -> b ∈ l -> b .>> 8 = bus /\ exists d', devices s2 !! b = Some d' /\ is_bridge d' = true) as G3.
    { intros bus l b Hl Hb. destruct (H3 bus l b Hl Hb) as (E & d' & Hd' & Hbr). split; [done|]. exists d'. split; [|done].
      rewrite Ed. rewrite lookup_insert_ne; [done|]. intros <-. congruence. }
    unfold s2. destruct (_ =? PCI_HEADER_TYPE_BRIDGE); [|by split]. destruct (pci_secondary_bus d) as [behind|] eqn:Eb; [|by split].
    unfold s2 in G1, G3. rewrite ?Eb in *. split; [exact G1| |].
    - intros bus b. change (<[behind := pci_id d]> (bridge_for_bus s) !! bus = Some b -> 0 <= b /\ b .>> 8 < bus < 256).
      intros [[<- <-]|[_ E]]%lookup_insert_Some; [|by apply H2]. unfold bus_ok in Hok. by rewrite Eb in Hok.
    - intros bus l b Hl Hb.
      change (<[pci_id d .>> 8 := default [] (bridges_on s !! (pci_id d .>> 8)) ++ [pci_id d]]> (bridges_on s) !! bus = Some l) in Hl.
      apply lookup_insert_Some in Hl as [[<- <-]|[_ E]]; [|by eapply G3]. apply elem_of_app in Hb as [Hb|Hb].
      + destruct (bridges_on s !! (pci_id d .>> 8)) as [l|] eqn:El; [by eapply G3|set_solver].
      + apply list_elem_of_singleton in Hb as ->. split; [done|]. exists d. split; [|unfold is_bridge; by rewrite Eb].
        change (<[pci_id d := d]> (devices s) !! pci_id d = Some d). apply lookup_insert_eq. }
  split.
  - by apply (register_bars tree (fun _ _ => True) d (initial_space d)); [apply tree_stable; intros; apply preserves_skip|].
  - intros x Hx Hn. apply (register_bars (fun s => devices s !! x = None) (fun _ _ => True) d (initial_space d)); [apply unregistered_stable|].
    rewrite Ed. by rewrite lookup_insert_ne.
Qed.

Lemma tree_boot ds s :
  Forall bus_ok ds -> NoDup (map pci_id ds) -> tree s -> (forall d, d ∈ ds -> devices s !! pci_id d = None) -> tree (exec (mfor ds register_device) s).
Proof.
  intros Hb. revert s. induction Hb as [|d ds Hd Hb IH]; intros s Hnd Ht Hn; [done|]. cbn [map] in Hnd. apply NoDup_cons in Hnd as [Hni Hnd].
  change (mfor (d :: ds) register_device) with (register_device d ;;; mfor ds register_device). rewrite exec_bind.
  destruct (tree_register d s) as [H1 H2]; [done|done|apply Hn; by left|]. apply IH; [done|done|]. intros d' Hd'. apply H2; [|apply Hn; by right].
  intros E. apply Hni. rewrite <- E. by apply list_elem_of_fmap_2.
Qed.

Lemma tree_create c io_ports next : tree (create c io_ports next).
Proof. by split. Qed.

(** C33: Configuration accesses are always routed: on a machine whose bridges lead to buses of higher numbers, and
    whatever bus numbers the guest writes into the bridges (cycles, overlapping ranges), the search
    for the function an access reaches ends within as many steps as there are buses, and so do the
    walks from a function up to the root bus, which they reach. *)
Theorem pci_routing_ends (on_callback : callback -> M t unit) (c : chip) (io_ports : gmap Z Z) (next : Z)
    (ds : list device) (ops : list op) :
  (forall cb, preserves tree (on_callback cb)) -> Forall bus_ok ds -> NoDup (map pci_id ds) -> Forall op_ok ops ->
  let s := exec (machine on_callback ds ops) (create c io_ports next) in
  (forall bdf, exists id, route_from BUSES s bdf (bdf .>> 8) 0 = Some id)
  /\ (forall id, id < 0x10000 -> parent_bridge s (List.last (upstream s id) id) = -1).
Proof.
  intros Hcb Hds Hnd Hops s. assert (tree s) as Ht.
  { unfold s, machine. rewrite exec_bind. assert (preserves tree (mfor ops (run_op on_callback))) as Hrun.
    { clear -Hops Hcb. induction Hops as [|p ops Hp Hops IH]; [apply preserves_skip|].
      apply preserves_bind; [by eapply stable_op, Hp; apply tree_stable|done]. }
    apply Hrun, tree_boot; [done|done|apply tree_create|done]. }
  split.
  - intros bdf. apply route_from_ends; [done|lia|done].
  - intros id Hid. apply bridges_above_root; [done|]. rewrite Z.shiftr_div_pow2 by lia. change (Z.of_nat BUSES) with 256. apply Z.div_lt_upper_bound; lia.
Qed.

(** ** The two ways to configuration space *)

Lemma land_low v n : 0 <= n -> 0 <= v < 2 ^ n -> v .& (2 ^ n - 1) = v.
Proof. intros Hn Hv. rewrite land_ones_mod by done. by apply Z.mod_small. Qed.

Lemma cf8_target_spec bdf reg :
  0 <= bdf < 0x10000 -> 0 <= reg < 0x100 -> cf8_target (i32 (0x80000000 + bdf * 0x100 + reg)) = bdf * 0x1000 + reg.
Proof.
  intros Hb Hr. set (a := 0x80000000 + bdf * 0x100 + reg).
  assert (i32 a = bdf * 0x100 + reg - 0x80000000) as E.
  { unfold i32. rewrite Z.mod_small by lia. destruct (a <? 2 ^ 31) eqn:Ea; [apply Z.ltb_lt in Ea; lia|lia]. }
  unfold cf8_target. rewrite (proj2 (Z.leb_gt _ _)) by lia. unfold sar32. rewrite i32_id by (unfold int32; lia).
  change (Z.land 8 31) with 8. rewrite Z.shiftr_div_pow2 by lia. change 0xFFFF with (2 ^ 16 - 1). rewrite land_ones_mod by lia.
  assert (i32 a / 2 ^ 8 mod 2 ^ 16 = bdf) as ->.
  { rewrite E. replace (bdf * 0x100 + reg - 0x80000000) with (reg + (bdf - 0x800000) * 2 ^ 8) by lia. rewrite Z.div_add by lia.
    rewrite (Z.div_small reg) by lia. rewrite Z.add_0_l. replace (bdf - 0x800000) with (bdf + (-128) * 2 ^ 16) by lia.
    rewrite Z.mod_add by lia. apply Z.mod_small. lia. }
  assert (i32 a .& 0xFF = reg) as ->.
  { change 0xFF with (2 ^ 8 - 1). rewrite land_ones_mod by lia. rewrite E.
    replace (bdf * 0x100 + reg - 0x80000000) with (reg + (bdf - 0x800000) * 2 ^ 8) by lia. rewrite Z.mod_add by lia. apply Z.mod_small. lia. }
  rewrite shl32_exact by (unfold int32; rewrite ?Z.shiftl_mul_pow2 by lia; lia). rewrite Z.lor_comm, lor_shiftl_add by lia. lia.
Qed.

Lemma target_parts bdf reg :
  0 <= bdf < 0x100000 -> 0 <= reg < 0x1000 ->
  shr32 (bdf * 0x1000 + reg) 12 = bdf /\ (bdf * 0x1000 + reg) .& 0xFFF = reg.
Proof.
  intros Hb Hr. split.
  - unfold shr32. rewrite u32_id by (unfold uint32; lia). change (Z.land 12 31) with 12. rewrite Z.shiftr_div_pow2 by lia.
    change (2 ^ 12) with 0x1000. rewrite Z.div_add_l by lia. rewrite Z.div_small by lia. lia.
  - change 0xFFF with (2 ^ 12 - 1). rewrite land_ones_mod by lia. change (2 ^ 12) with 0x1000. rewrite Z.add_comm, Z.mod_add by lia. by apply Z.mod_small.
Qed.

(** A word within a doubleword is its two bytes. *)
Lemma function_read16 s id o :
  0 <= o -> o mod 2 = 0 -> (forall sp, device_spaces s !! id = Some sp -> Forall byte sp /\ Z.of_nat (length sp) mod 2 = 0) ->
  function_read s id o 2 = function_read s id o 1 .| (function_read s id (o + 1) 1 .<< 8).
Proof.
  intros Ho Ha Hs. unfold function_read. unfold function_space. destruct (id <? 0); [done|]. destruct (device_spaces s !! id) as [sp|]; [|done].
  destruct (Hs sp eq_refl) as [Hb He].
  assert (o + 2 <= Z.of_nat (length sp) \/ Z.of_nat (length sp) < o + 1) as [Hl|Hl] by (clear -Ha He; Z.to_euclidean_division_equations; lia).
  2: { by rewrite !(proj2 (Z.ltb_lt _ _)) by lia. }
  rewrite !(proj2 (Z.ltb_ge _ _)) by lia. assert (o .& 3 = o mod 4) as E by (change 3 with (2 ^ 2 - 1); by rewrite land_ones_mod by lia).
  assert (o mod 4 = 0 \/ o mod 4 = 2) as Hm by (clear -Ha; Z.to_euclidean_division_equations; lia).
  assert ((o + 1) .& 3 = o mod 4 + 1) as E1.
  { change 3 with (2 ^ 2 - 1). rewrite land_ones_mod by lia. change (2 ^ 2) with 4. clear -Hm. Z.to_euclidean_division_equations. lia. }
  assert ((o + 1) .>> 2 = o .>> 2) as E2.
  { rewrite !Z.shiftr_div_pow2 by lia. change (2 ^ 2) with 4. clear -Hm. Z.to_euclidean_division_equations. lia. }
  rewrite E, E1, E2. rewrite !(proj2 (Z.leb_le _ 4)) by lia. change (2 =? 4) with false. change (1 =? 4) with false. cbv iota.
  set (v := get32 sp (o .>> 2)). unfold shr32, js_and.
  assert (forall k, 0 <= k < 4 -> (k .<< 3) .& 31 = 8 * k) as Ek.
  { intros k Hk. rewrite Z.shiftl_mul_pow2 by lia. change 31 with (2 ^ 5 - 1). rewrite land_ones_mod, Z.mod_small by lia. lia. }
  rewrite !Ek by lia. change (i32 (1 .<< (2 .<< 3) - 1)) with (2 ^ 16 - 1). change (i32 (1 .<< (1 .<< 3) - 1)) with (2 ^ 8 - 1).
  apply Z.bits_inj'. intros j Hj.
  rewrite Z.lor_spec, Z.shiftl_spec, !Z.land_spec by lia.
  assert (forall i k, 0 <= k -> 0 <= i -> i < 32 -> Z.testbit (i32 (u32 v .>> k)) i = (i + k <? 32) && Z.testbit v (i + k)) as Et.
  { intros i k Hk Hi Hi'. rewrite i32_testbit by lia. unfold u32 at 1. rewrite Z.mod_pow2_bits_low, Z.shiftr_spec by lia.
    destruct (Z.ltb_spec (i + k) 32); cbn [andb]; [|by apply (testbit_high 32); [apply Z.mod_pos_bound; lia|lia]]. unfold u32. by rewrite Z.mod_pow2_bits_low by lia. }
  change (2 ^ 16 - 1) with (Z.ones 16). change (2 ^ 8 - 1) with (Z.ones 8).
  destruct (decide (j < 8)) as [H8|H8]; [|destruct (decide (j < 16)) as [H16|H16]].
  - rewrite Z.ones_spec_low, Z.ones_spec_low, (Z.testbit_neg_r _ (j - 8)) by lia. by rewrite !andb_true_r, orb_false_r.
  - rewrite Z.ones_spec_low, Z.ones_spec_high, Z.ones_spec_low by lia. rewrite andb_false_r, !andb_true_r. cbn [orb].
    rewrite !Et by lia. replace (j - 8 + 8 * (o mod 4 + 1)) with (j + 8 * (o mod 4)) by lia. done.
  - rewrite !Z.ones_spec_high by lia. by rewrite !andb_false_r.
Qed.

(** C16: Both ways to configuration space are the same registers: for every function and register below 0x100, an
    access of a width the data port has at the register's low bits (a byte anywhere, a word at 0 and 2,
    a doubleword at 0; the address register holding bus, device, function and register with the enable
    bit) is exactly the configuration access of that function and register, and so are the byte and
    the aligned doubleword accesses of the memory-mapped window at the function's offset, wherever the
    window is; a word read from the port is the two bytes the window has there (where no word access
    exists: the memory system makes it two byte accesses); an access of another width at the ports
    reads all ones and writes nothing. *)
Theorem pci_cf8_ecam (on_callback : callback -> M t unit) (s : t) (bdf reg value : Z) :
  0 <= bdf < 0x10000 -> 0 <= reg < 0x100 -> pci_addr32 s = i32 (0x80000000 + bdf * 0x100 + (reg - reg mod 4)) ->
  (forall id sp, device_spaces s !! id = Some sp -> Forall byte sp /\ Z.of_nat (length sp) mod 2 = 0) ->
  let addr := ecam_base s + bdf * 0x1000 + reg in
  (forall sz, sz = 1 \/ sz = 2 /\ reg mod 2 = 0 \/ sz = 4 /\ reg mod 4 = 0 ->
     data_read s (reg mod 4) sz = config_read s bdf reg sz
     /\ data_write on_callback (reg mod 4) sz value s = config_write on_callback bdf reg sz value s)
  /\ (forall sz, sz = 2 /\ reg mod 2 <> 0 \/ sz = 4 /\ reg mod 4 <> 0 ->
     data_read s (reg mod 4) sz = (if sz =? 2 then 0xFFFF else -1) /\ data_write on_callback (reg mod 4) sz value s = (tt, s, []))
  /\ ecam_read8 s addr = config_read s bdf reg 1 /\ ecam_write8 on_callback addr value s = config_write on_callback bdf reg 1 value s
  /\ (reg mod 2 = 0 -> data_read s (reg mod 4) 2 = ecam_read8 s addr .| (ecam_read8 s (addr + 1) .<< 8))
  /\ (reg mod 4 = 0 -> ecam_read32 s addr = config_read s bdf reg 4
        /\ ecam_write32 on_callback addr value s = config_write on_callback bdf reg 4 value s).
Proof.
  intros Hb Hr Ha Hs addr. pose proof (Z.mod_pos_bound reg 4 ltac:(lia)) as Hm. pose proof (Z.mod_le reg 4 ltac:(lia) ltac:(lia)) as Hml.
  assert (data_port s (reg mod 4) = i32 (0x80000000 + bdf * 0x100 + reg)) as Ep.
  { unfold data_port. rewrite Ha. rewrite <- (i32_u32 (i32 _ + _)). unfold u32. rewrite Z.add_mod by lia.
    change (i32 ?z mod 2 ^ 32) with (u32 (i32 z)). rewrite u32_i32. unfold u32. rewrite <- Z.add_mod by lia.
    change (?z mod 2 ^ 32) with (u32 z). rewrite i32_u32. f_equal. lia. }
  destruct (target_parts bdf reg ltac:(lia) ltac:(lia)) as [E1 E2].
  assert (forall r, 0 <= r < 0x1000 -> ecam_offset s (ecam_base s + bdf * 0x1000 + r) = bdf * 0x1000 + r) as Eo.
  { intros r Hr'. unfold ecam_offset. replace (ecam_base s + bdf * 0x1000 + r - ecam_base s) with (bdf * 0x1000 + r) by lia.
    apply u32_id. unfold uint32. lia. }
  assert (forall r, 0 <= r < 0x1000 -> ecam_read8 s (ecam_base s + bdf * 0x1000 + r) = config_read s bdf r 1) as Er.
  { intros r Hr'. unfold ecam_read8. rewrite Eo by lia. destruct (target_parts bdf r ltac:(lia) ltac:(lia)) as [F1 F2]. by rewrite F1, F2. }
  assert (forall sz, sz = 1 \/ sz = 2 /\ reg mod 2 = 0 \/ sz = 4 /\ reg mod 4 = 0 ->
     data_read s (reg mod 4) sz = config_read s bdf reg sz
     /\ data_write on_callback (reg mod 4) sz value s = config_write on_callback bdf reg sz value s) as Hport.
  { intros sz Hsz. assert (data_width (reg mod 4) sz = true) as Ew.
    { unfold data_width. destruct Hsz as [->|[[-> H]|[-> H]]]; [done| |by rewrite H].
      assert (reg mod 4 = 0 \/ reg mod 4 = 2) as [-> | ->] by (Z.to_euclidean_division_equations; lia); done. }
    unfold data_read, data_write. rewrite bind_get, Ep, Ew. cbn [when]. unfold config_read_cf8, config_write_cf8. rewrite cf8_target_spec by lia.
    rewrite (proj2 (Z.eqb_neq _ (-1))) by lia. by rewrite E1, E2. }
  split; [exact Hport|]. split; [|split; [|split; [|split]]].
  - intros sz Hsz. assert (data_width (reg mod 4) sz = false) as Ew.
    { unfold data_width. destruct Hsz as [[-> H]|[-> H]]; [|cbn; apply Z.eqb_neq; done].
      assert (reg mod 4 = 1 \/ reg mod 4 = 3) as [-> | ->] by (Z.to_euclidean_division_equations; lia); done. }
    unfold data_read, data_write. rewrite bind_get, Ew. split; [|done]. destruct Hsz as [[-> _]|[-> _]]; done.
  - apply Er. lia.
  - unfold ecam_write8. rewrite bind_get. cbv zeta. unfold addr. rewrite Eo by lia. by rewrite E1, E2.
  - intros H0. rewrite (proj1 (Hport 2 ltac:(auto))). replace (addr + 1) with (ecam_base s + bdf * 0x1000 + (reg + 1)) by (unfold addr; lia).
    unfold addr. rewrite !Er by lia. apply function_read16; [lia|done|]. intros sp. apply Hs.
  - intros H0. unfold ecam_read32, ecam_write32. rewrite bind_get. cbv zeta. unfold addr. rewrite Eo by lia.
    assert (has (bdf * 0x1000 + reg) 3 = false) as ->.
    { apply has_false_iff. change 3 with (2 ^ 2 - 1). rewrite land_ones_mod by lia. change (2 ^ 2) with 4.
      Z.to_euclidean_division_equations. lia. }
    by rewrite E1, E2.
Qed.

(** ** Memory BARs *)

Lemma get32_set32 sp i v : Forall byte sp -> 0 <= i -> 4 * i + 4 <= Z.of_nat (length sp) -> get32 (set32 sp i v) i = i32 v.
Proof.
  intros Hb Hi Hl. unfold get32, get32u. rewrite !get8_set32 by lia.
  rewrite !(proj2 (andb_true_iff _ _)) by (split; lia).
  replace (4 * i - 4 * i) with 0 by lia. replace (4 * i + 1 - 4 * i) with 1 by lia. replace (4 * i + 2 - 4 * i) with 2 by lia.
  replace (4 * i + 3 - 4 * i) with 3 by lia. rewrite <- (i32_u32 v). f_equal. unfold byte_of, u8, u32. rewrite !Z.shiftr_div_pow2 by lia.
  change (2 ^ (8 * 0)) with 1. change (2 ^ (8 * 1)) with (2 ^ 8). change (2 ^ (8 * 2)) with (2 ^ 16). change (2 ^ (8 * 3)) with (2 ^ 24).
  rewrite Z.div_1_r. clear. Z.to_euclidean_division_equations. lia.
Qed.

Lemma function_read32 s id (sp : space) o :
  0 <= id -> device_spaces s !! id = Some sp -> 0 <= o -> o .& 3 = 0 -> o + 4 <= Z.of_nat (length sp) ->
  function_read s id o 4 = get32 sp (o .>> 2).
Proof.
  intros Hid Hsp Ho Ha Hl. unfold function_read, function_space. rewrite (proj2 (Z.ltb_ge id 0)) by lia. rewrite Hsp.
  rewrite (proj2 (Z.ltb_ge _ _)) by lia. rewrite Ha. cbn [Z.add Z.leb Z.compare]. change (4 =? 4) with true. cbn [andb].
  change (0 + 4 <=? 4) with true. cbv iota. change (shr32 (get32 sp (o .>> 2)) (0 .<< 3)) with (Z.shiftr (u32 (get32 sp (o .>> 2))) 0).
  rewrite Z.shiftr_0_r, i32_u32. apply i32_id, i32_int32.
Qed.

(** A function with a memory BAR that its device decodes where the guest puts it. *)
Record memory_bar (s : t) (id nr : Z) (sp : space) (d : device) (b : bar) (k : Z) : Prop := {
  mb_id : 0 <= id;
  mb_nr : 0 <= nr < (if is_bridge d then 2 else 6);
  mb_space : device_spaces s !! id = Some sp /\ space_ok sp;
  mb_device : devices s !! id = Some d /\ bar_at d nr = Some b;
  mb_size : 4 <= k < 32 /\ size b = 2 ^ k;
  mb_moves : moves b = true;
  mb_type : get32 sp (4 + nr) .& 1 = 0
}.

Lemma function_write_bar on_callback s id nr sp d b k value :
  memory_bar s id nr sp d b k ->
  function_write on_callback id (0x10 + 4 * nr) 4 value s = write_bar on_callback id (0x10 + 4 * nr) value s.
Proof.
  intros [Hid Hnr [Hsp [Hb Hl]] [Hd _] _ _ _]. unfold function_write. rewrite bind_get. unfold function_space.
  assert (nr < 6) by (destruct (is_bridge d); lia).
  rewrite (proj2 (Z.ltb_ge id 0)) by lia. rewrite Hsp, Hd. rewrite (proj2 (Z.ltb_ge _ _)) by lia.
  assert (bar_register (is_bridge d) (0x10 + 4 * nr) = true) as ->.
  { unfold bar_register. destruct (is_bridge d); lia. }
  assert ((0x10 + 4 * nr) .& 3 = 0) as ->.
  { change 3 with (2 ^ 2 - 1). rewrite land_ones_mod by lia. change (2 ^ 2) with 4. Z.to_euclidean_division_equations. lia. }
  rewrite (proj2 (Z.eqb_neq (0x10 + 4 * nr) 0x30)) by lia. done.
Qed.

(** The state after a BAR register was stored. *)
Definition stored (s : t) (id nr v : Z) : t := exec (on_space id (fun sp => set32 sp (4 + nr) v)) s.

Lemma stored_read s id nr sp d b k v :
  memory_bar s id nr sp d b k -> function_read (stored s id nr v) id (0x10 + 4 * nr) 4 = i32 v.
Proof.
  intros [Hid Hnr [Hsp [Hb Hl]] _ _ _ _]. assert (0 <= nr < 6) by (destruct (is_bridge d); lia).
  assert ((0x10 + 4 * nr) .>> 2 = 4 + nr) as E by (rewrite Z.shiftr_div_pow2 by lia; change (2 ^ 2) with 4; Z.to_euclidean_division_equations; lia).
  rewrite (function_read32 _ _ (set32 sp (4 + nr) v)).
  - rewrite E. apply get32_set32; [done|lia|lia].
  - done.
  - unfold stored. rewrite lookup_on_space, decide_True by done. by rewrite Hsp.
  - lia.
  - change 3 with (2 ^ 2 - 1). rewrite land_ones_mod by lia. change (2 ^ 2) with 4. Z.to_euclidean_division_equations. lia.
  - rewrite set32_length. lia.
Qed.

Lemma int32_sign z : int32 z <-> z .>> 31 = 0 \/ z .>> 31 = -1.
Proof. unfold int32. rewrite Z.shiftr_div_pow2 by lia. Z.to_euclidean_division_equations. lia. Qed.

Lemma js_or_range a b : int32 (js_or a b).
Proof.
  unfold js_or. apply int32_sign. rewrite Z.shiftr_lor.
  pose proof (proj1 (int32_sign _) (i32_int32 a)) as [-> | ->]; pose proof (proj1 (int32_sign _) (i32_int32 b)) as [-> | ->]; auto.
Qed.

Lemma lor_block a k : 0 <= k -> a mod 2 ^ k = 0 -> a .| (2 ^ k - 1) = a + 2 ^ k - 1.
Proof.
  intros Hk Ha. assert (a = (a / 2 ^ k) .<< k) as E.
  { rewrite Z.shiftl_mul_pow2 by done. pose proof (Z.div_mod a (2 ^ k)). lia. }
  rewrite Z.lor_comm, E at 1. rewrite lor_shiftl_add by lia. rewrite <- Z.shiftl_mul_pow2, <- E by done. lia.
Qed.

Lemma i32_block a k : 0 <= k < 32 -> a mod 2 ^ k = 0 -> i32 a mod 2 ^ k = 0.
Proof.
  intros Hk Ha. assert (Z.divide (2 ^ k) (2 ^ 32)) as Hd.
  { exists (2 ^ (32 - k)). rewrite <- Z.pow_add_r by lia. f_equal. lia. }
  apply Z.mod_divide in Ha; [|lia]. apply Z.mod_divide; [lia|]. unfold i32.
  assert (Z.divide (2 ^ k) (a mod 2 ^ 32)) as Hm.
  { rewrite Z.mod_eq by lia. apply Z.divide_sub_r; [done|]. by apply Z.divide_mul_l. }
  destruct (_ <? _); [done|]. by apply Z.divide_sub_r.
Qed.

Lemma low_mask k x : 4 <= k -> 0 <= x < 16 -> x .| (2 ^ k - 1) = 2 ^ k - 1.
Proof.
  intros Hk Hx. assert (2 ^ k - 1 = Z.ones k) as -> by (rewrite Z.ones_equiv; lia). apply Z.lor_ones_low; [lia|].
  destruct (decide (x = 0)) as [->|]; [cbn; lia|]. apply Z.log2_lt_pow2; [lia|].
  apply Z.lt_le_trans with 16; [lia|]. change 16 with (2 ^ 4). apply Z.pow_le_mono_r; lia.
Qed.

Lemma int32_mask k : 4 <= k < 32 -> int32 (2 ^ k - 1).
Proof.
  intros Hk. unfold int32. assert (2 ^ k <= 2 ^ 31) by (apply Z.pow_le_mono_r; lia). lia.
Qed.

Lemma divide_pow2 x j k : 0 <= j <= k -> x mod 2 ^ k = 0 -> x mod 2 ^ j = 0.
Proof.
  intros Hj Hx. apply Z.mod_divide; [lia|]. apply Z.mod_divide in Hx; [|lia]. eapply Z.divide_trans; [|exact Hx].
  exists (2 ^ (k - j)). rewrite <- Z.pow_add_r by lia. f_equal. lia.
Qed.

Lemma probing_block b k base :
  4 <= k < 32 -> size b = 2 ^ k -> base mod 2 ^ k = 0 -> probing b base = (i32 base =? - 2 ^ k).
Proof.
  intros Hk Hs Hb. unfold probing. rewrite Hs. unfold js_or. rewrite (i32_id (2 ^ k - 1)) by (by apply int32_mask).
  assert (int32 (i32 base .| 3)) as Hi.
  { unfold int32. pose proof (i32_int32 base) as Hi. unfold int32 in Hi.
    replace (i32 base .| 3) with (i32 base + 3); [|].
    - pose proof (i32_block base 2 ltac:(lia)) as H4. assert (i32 base mod 2 ^ 2 = 0) as E4.
      { apply H4. by apply (divide_pow2 _ 2 k); [lia|]. }
      change (2 ^ 2) with 4 in E4. Z.to_euclidean_division_equations. lia.
    - change 3 with (2 ^ 2 - 1). rewrite lor_block; [lia|lia|]. apply i32_block; [lia|].
      by apply (divide_pow2 _ 2 k); [lia|]. }
  rewrite (i32_id 3) by (unfold int32; lia). rewrite (i32_id (_ .| 3)) by done. rewrite <- Z.lor_assoc, low_mask by lia.
  rewrite lor_block; [|lia|apply i32_block; [lia|done]]. apply eq_true_iff_eq. rewrite !Z.eqb_eq. lia.
Qed.

Lemma size_mask b k : 4 <= k < 32 -> size b = 2 ^ k -> js_not (size b - 1) = - size b /\ int32 (- size b).
Proof.
  intros Hk Hs. rewrite Hs. split.
  - unfold js_not. rewrite (i32_id (2 ^ k - 1)) by (by apply int32_mask). unfold Z.lnot. lia.
  - unfold int32. assert (2 ^ k <= 2 ^ 31) by (apply Z.pow_le_mono_r; lia). lia.
Qed.

(** The base a BAR takes from an aligned address. *)
Lemma block_base b k base :
  4 <= k < 32 -> size b = 2 ^ k -> base mod 2 ^ k = 0 -> js_and (js_and base (js_not (size b - 1))) (js_not 0xF) = i32 base.
Proof.
  intros Hk Hs Hb. destruct (size_mask b k Hk Hs) as [-> Hneg]. unfold js_and, js_not.
  rewrite (i32_id (- size b)), (i32_id 0xF) by (done || unfold int32; lia).
  assert (- size b = ~. (2 ^ k - 1)) as -> by (rewrite Hs; unfold Z.lnot; lia).
  assert (forall x n, 0 <= n -> x mod 2 ^ n = 0 -> x .& ~. (2 ^ n - 1) = x) as Hal.
  { intros x n Hn Hx. rewrite land_lnot_ones by done. pose proof (Z.div_mod x (2 ^ n)). lia. }
  rewrite Hal; [|lia|by apply i32_block; [lia|]]. rewrite (i32_id (i32 base)) by apply i32_int32.
  rewrite (i32_id (~. 0xF)) by (unfold int32, Z.lnot; lia). change 0xF with (2 ^ 4 - 1). apply Hal; [lia|].
  apply i32_block; [lia|]. by apply (divide_pow2 _ 4 k); [lia|].
Qed.

Lemma block_not_probing b k base :
  4 <= k < 32 -> size b = 2 ^ k -> 0 <= base -> base mod 2 ^ k = 0 -> base + 2 ^ k < 2 ^ 32 -> probing b base = false.
Proof.
  intros Hk Hs H0 Hb Hl. rewrite (probing_block b k) by (done || lia). apply Z.eqb_neq. intros E. unfold i32 in E.
  rewrite Z.mod_small in E by lia. destruct (base <? 2 ^ 31); lia.
Qed.

Lemma bind_skip_r (m : M t unit) s : bind m (fun _ => skip) s = m s.
Proof. unfold bind, res, exec, evs. destruct (m s) as [[[] s'] es]. cbn. by rewrite app_nil_r. Qed.

Lemma move_bar_run on_callback s id nr b base :
  devices s !! id ≫= (fun d => bar_at d nr) = Some b ->
  move_bar on_callback id nr base s
  = if Pci.base b =? base then (tt, s, [])
    else on_callback (OnMove id nr base) (exec (on_bar id nr (fun b => b <| Pci.base := base |>)) s).
Proof.
  intros E. unfold move_bar. rewrite bind_get, E. destruct (Pci.base b =? base); [done|]. cbn [negb when].
  by rewrite (bind_quiet _ _ s tt (exec (on_bar id nr (fun b => b <| Pci.base := base |>)) s)).
Qed.

(** C36: The protocol by which the guest places a device's memory: writing all ones to a memory BAR reads back the
    mask of its size with the type bits, and neither moves nor notifies the device; writing an
    aligned address then reads back that address with the type bits, the BAR's base becomes it,
    and the device is told of the move, with the new base, exactly if it is a new one. *)
Theorem pci_memory_bar (on_callback : callback -> M t unit) (s : t) (id nr : Z) (sp : space) (d : device) (b : bar) (k base : Z) :
  memory_bar s id nr sp d b k -> 0 <= base -> base mod 2 ^ k = 0 -> base + 2 ^ k < 2 ^ 32 ->
  let reg := 0x10 + 4 * nr in
  let flags := js_and (original_bar b) 0xF in
  (exists s1, function_write on_callback id reg 4 (-1) s = (tt, s1, []) /\ devices s1 = devices s
     /\ function_read s1 id reg 4 = js_or (- size b) flags)
  /\ exists s2, function_read s2 id reg 4 = js_or base flags
     /\ (devices s2 !! id ≫= fun d => bar_at d nr) = Some (b <| Pci.base := base |>)
     /\ function_write on_callback id reg 4 base s = if Pci.base b =? base then (tt, s2, []) else on_callback (OnMove id nr base) s2.
Proof.
  intros Hm Hb0 Hbk Hbs reg flags. pose proof Hm as [Hid Hnr [Hsp Hok] [Hd Hbar] [Hk Hsz] Hmv Hty].
  assert (0 <= nr < 6) as Hnr6 by (destruct (is_bridge d); lia).
  assert ((reg - 0x10) .>> 2 = nr /\ reg .>> 2 = 4 + nr) as [En Er].
  { unfold reg. rewrite !Z.shiftr_div_pow2 by lia. change (2 ^ 2) with 4. split; Z.to_euclidean_division_equations; lia. }
  assert (devices s !! id ≫= (fun d => bar_at d nr) = Some b) as Hat by (by rewrite Hd).
  assert (forall v, exists s1, (on_space id (fun sp => set32 sp (4 + nr) v)) s = (tt, s1, []) /\ s1 = stored s id nr v) as Hst by (intros v; by eexists).
  assert (space_of s id = sp) as Hso by exact (f_equal (default ([] : space)) Hsp).
  destruct (size_mask b k Hk Hsz) as [Hnot Hneg]. split.
  - exists (stored s id nr (js_or (js_or (js_not (size b - 1)) 0) flags)). unfold reg. rewrite (function_write_bar _ _ _ _ _ _ _ _ _ Hm).
    split; [|split; [done|]].
    + unfold write_bar. fold reg. rewrite En, Er, bind_get, Hat. cbv zeta. rewrite Hso, Hty.
      assert (probing b (-1) = true) as -> by (unfold probing, js_or; by rewrite !Z.lor_m1_l).
      done.
    + rewrite (stored_read _ _ _ _ _ _ _ _ Hm). rewrite Hnot. unfold js_or at 2. rewrite (i32_id (- size b)) by done.
      change (i32 0) with 0. rewrite Z.lor_0_r. apply i32_id, js_or_range.
  - pose proof (block_base b k base Hk Hsz Hbk) as Eb. pose proof (block_not_probing b k base Hk Hsz Hb0 Hbk Hbs) as Hp.
    set (s1 := stored s id nr (js_or (i32 base) flags)).
    exists (if Pci.base b =? base then s1 else exec (on_bar id nr (fun b => b <| Pci.base := base |>)) s1).
    assert (forall s', device_spaces s' = device_spaces s1 -> function_read s' id reg 4 = js_or base flags) as Hread.
    { intros s' E. assert (function_read s' id reg 4 = function_read s1 id reg 4) as -> by (unfold function_read, function_space; by rewrite E).
      unfold s1, reg. rewrite (stored_read _ _ _ _ _ _ _ _ Hm). rewrite i32_id by apply js_or_range. unfold js_or.
      by rewrite (i32_id (i32 base)) by apply i32_int32. }
    split; [apply Hread; by destruct (_ =? _)|]. split.
    + destruct (Pci.base b =? base) eqn:Eq.
      * apply Z.eqb_eq in Eq. change (devices s1) with (devices s). rewrite Hat. f_equal. rewrite <- Eq. by destruct b.
      * change (alter (fun d => d <| pci_bars := alter (fmap (fun b => b <| Pci.base := base |>)) (Z.to_nat nr) (pci_bars d) |>) id (devices s) !! id ≫= (fun d => bar_at d nr) = Some (b <| Pci.base := base |>)).
        rewrite lookup_alter_eq, Hd. cbn [fmap option_fmap option_map mbind option_bind]. unfold bar_at in *.
        change (mjoin (alter (fmap (fun b => b <| Pci.base := base |>)) (Z.to_nat nr) (pci_bars d) !! Z.to_nat nr) = Some (b <| Pci.base := base |>)).
        rewrite list_lookup_alter_eq. destruct (pci_bars d !! Z.to_nat nr) as [[b'|]|]; cbn in *; congruence.
    + unfold reg. rewrite (function_write_bar _ _ _ _ _ _ _ _ _ Hm). unfold write_bar. fold reg. rewrite En, Er, bind_get, Hat. cbv zeta.
      rewrite Hso, Hty, Hp, Hmv, Eb. change (0 =? 0) with true. change (0 =? 1) with false. cbv iota.
      assert (u32 (i32 base) = base) as Eu by (rewrite u32_i32; apply u32_id; unfold uint32; lia).
      unfold move_memory_bar. rewrite Eu. cbn [when]. rewrite bind_skip_r. rewrite (bind_quiet _ _ s tt s1) by done.
      rewrite (move_bar_run on_callback s1 id nr b base Hat). by destruct (_ =? _).
Qed.

End pins.

(** ** A card behind a root port *)

#[local] Existing Instance piix_board.

(** Header bytes from a list of (offset, value). *)
Definition demo_space (l : list (Z * Z)) : list Z := foldr (fun p sp => set8 sp p.1 p.2) (replicate 64 0) l.

Definition demo_port : device :=
  mk_device 0xE0 (demo_space [(0, 0x36); (1, 0x1B); (0xE, 1); (0x3D, 1)]) 4096 [] 0 0 (Some 1) true.
Definition demo_bar : bar := mk_bar 0x4000 false true 0 0 [] None None.
Definition demo_card : device :=
  mk_device 0x100 (demo_space [(0, 0xF4); (1, 0x1A); (0x10, 4); (0x3D, 1)]) 4096 [Some demo_bar] 0 0 None false.

(** A card lowers its pin when it is reset. *)
Definition demo_callback (cb : callback) : M t unit := match cb with DeviceReset id => set_irq_level id false | _ => skip end.

(** The guest routes the card's pin, which reaches PIRQD, to IRQ 11, numbers the bus behind the port and enables the
    card; it interrupts, is unplugged and another is plugged in, which interrupts. *)
Definition demo_ops : list op :=
  [ SetEcam 0xB0000000 0x10000000; EcamWrite8 0xB0008063 11; EcamWrite32 0xB00E0018 0x00010100; EcamWrite32 0xB0100004 6; EcamWrite32 0xB0100010 0xE0000000;
    SetIrqLevel 0x100 true; SetFunctionPresent 0x100 false false; SetFunctionPresent 0x100 true true; SetIrqLevel 0x100 true ].

Definition demo_devices : list device := [host_bridge; isa_bridge (zeros 4); demo_port; demo_card].

Lemma demo_devices_ok : Forall device_ok demo_devices.
Proof. repeat constructor; vm_compute; congruence. Qed.

Lemma demo_ops_ok : Forall op_ok demo_ops.
Proof. repeat constructor. Qed.

Lemma demo_no_reset : ResetLines ∉ demo_ops.
Proof. unfold demo_ops. rewrite !not_elem_of_cons. split_and!; try discriminate. apply not_elem_of_nil. Qed.

Lemma demo_ids : NoDup (map pci_id demo_devices).
Proof. apply NoDup_ListNoDup. vm_compute. repeat constructor; cbn; lia. Qed.

Definition demo_start : t := create (B := piix_board) tt ∅ 0.

Definition demo_run : M t unit := machine demo_callback demo_devices demo_ops.

Lemma pci_intx_witness :
  Irq.level 11 false (evs demo_run demo_start) = true
  /\ asserted_irq_lines (exec demo_run demo_start) !! 0x100 = Some 11
  /\ level_of (exec demo_run demo_start) 0x100 = true.
Proof.
  assert (asserted_irq_lines (exec demo_run demo_start) !! 0x100 = Some 11) as Ha by (vm_compute; reflexivity).
  destruct (pci_intx demo_callback (tt : @chip piix_board) ∅ 0 demo_devices demo_ops 11) as (_ & H1 & H2 & _).
  - intros strict k [] Hk; try apply keeps_skip. by apply keeps_set_irq_level.
  - exact demo_devices_ok.
  - exact demo_ops_ok.
  - unfold Irq.line. lia.
  - vm_compute. reflexivity.
  - split; [exact (H1 demo_no_reset (ex_intro _ 0x100 (or_introl Ha)))|]. split; [exact Ha|]. exact (proj1 (H2 0x100 11 (or_introl Ha))).
Defined.

Lemma pci_identity_witness :
  get8 (space_of (exec demo_run demo_start) 0x100) 0 = 0xF4.
Proof.
  destruct (device_spaces (exec demo_run demo_start) !! 0x100) as [sp|] eqn:E.
  2: { assert (bool_decide (device_spaces (exec demo_run demo_start) !! 0x100 = None) = false) as H by (vm_compute; reflexivity).
       rewrite E in H. discriminate H. }
  transitivity (get8 sp 0); [exact (f_equal (fun o => get8 (default ([] : space) o) 0) E)|].
  apply (pci_identity demo_callback (tt : @chip piix_board) ∅ 0 demo_devices demo_ops demo_card sp 0).
  - intros ident []; try apply preserves_skip.
    apply (stable_set_irq_level (identified_stable ident (fun _ => skip) (fun _ => preserves_skip _))).
  - exact demo_devices_ok.
  - exact demo_ids.
  - exact demo_ops_ok.
  - do 3 right. left.
  - reflexivity.
  - exact E.
Defined.

Lemma pci_routing_ends_witness : route_config (exec demo_run demo_start) 0x100 = 0x100
  /\ exists id, route_from BUSES (exec demo_run demo_start) 0x2300 0x23 0 = Some id.
Proof.
  split; [vm_compute; reflexivity|].
  apply (pci_routing_ends demo_callback (tt : @chip piix_board) ∅ 0 demo_devices demo_ops).
  - intros []; try apply preserves_skip. apply (stable_set_irq_level (tree_stable (fun _ => skip) (fun _ => preserves_skip _))).
  - repeat constructor; vm_compute; congruence.
  - exact demo_ids.
  - exact demo_ops_ok.
Defined.

Definition demo_state : t := exec (machine demo_callback demo_devices [SetEcam 0xB0000000 0x10000000; AddressWrite 1 0xE0; AddressWrite 3 0x80]) demo_start.

Lemma pci_cf8_ecam_witness :
  data_read demo_state 0 1 = 0x36 /\ data_read demo_state 0 4 = 0x1B36
  /\ data_read demo_state 0 2 = ecam_read8 demo_state 0xB00E0000 .| (ecam_read8 demo_state 0xB00E0001 .<< 8).
Proof.
  destruct (pci_cf8_ecam demo_callback demo_state 0xE0 0 0) as (H1 & _ & _ & _ & H2 & _); [lia|lia|vm_compute; reflexivity| |].
  - assert (map_Forall (fun _ (sp : space) => Forall byte sp /\ Z.of_nat (length sp) mod 2 = 0) (device_spaces demo_state)) as H.
    { apply (bool_decide_unpack _). vm_compute. exact I. }
    exact H.
  - split; [etransitivity; [exact (proj1 (H1 1 (or_introl eq_refl)))|vm_compute; reflexivity]|].
    split; [etransitivity; [exact (proj1 (H1 4 (or_intror (or_intror (conj eq_refl eq_refl)))))|vm_compute; reflexivity]|]. exact (H2 eq_refl).
Defined.

Lemma pci_memory_bar_witness :
  exists s1, function_write demo_callback 0x100 0x10 4 (-1) demo_state = (tt, s1, []) /\ function_read s1 0x100 0x10 4 = -0x4000 + 4.
Proof.
  assert (exists sp d b, device_spaces demo_state !! 0x100 = Some sp /\ space_ok sp /\ devices demo_state !! 0x100 = Some d /\ bar_at d 0 = Some b
      /\ size b = 2 ^ 14 /\ moves b = true /\ is_bridge d = false /\ get32 sp 4 .& 1 = 0 /\ original_bar b = 4)
    as (sp & d & b & H1 & H2 & H3 & H4 & H5 & H6 & H7 & H8 & H9).
  { do 3 eexists. split; [vm_compute; reflexivity|]. split; [|split; [vm_compute; reflexivity|]].
    - split; [|vm_compute; lia]. apply (bool_decide_unpack _). vm_compute. exact I.
    - repeat split; vm_compute; reflexivity. }
  destruct (pci_memory_bar demo_callback demo_state 0x100 0 sp d b 14 0xE0000000) as [(s1 & E1 & _ & E2) _].
  - split; [lia|rewrite H7; lia|done|done|split; [lia|exact H5]|exact H6|exact H8].
  - lia.
  - reflexivity.
  - lia.
  - exists s1. split; [exact E1|]. etransitivity; [exact E2|]. rewrite H5, H9. reflexivity.
Defined.
End Pci.
