(* ===== verification/Dma.v ===== *)
(** * src/dma.js: the two 8237 DMA controllers

    Eight channels (0-3 byte wide, 5-7 word wide), programmed a byte at a time
    through a shared low/high flip-flop.  Every port handler and both transfer
    directions are modelled.  A transfer validates and claims its memory range,
    then goes on when the disk buffer calls back; a machine reset in between
    raises [epoch] and the callback drops the transfer. *)

From S2P Require Import Prelude.

Set Default Goal Selector "!".

Module Dma.

Record t := mk {
  channel_page : list Z;
  channel_pagehi : list Z;
  channel_addr : list Z;
  channel_addr_init : list Z;
  channel_count : list Z;
  channel_count_init : list Z;
  channel_mask : list Z;
  channel_mode : list Z;
  unmask_listeners : list (Z * Z);
  lsb_msb_flipflop : Z;
  epoch : Z
}.

Definition zeros : list Z := replicate 8 0.

Definition create : t := mk zeros zeros zeros zeros zeros zeros zeros zeros [] 0 0.

(** ** State images *)

Inductive state_item := SArray (l : list Z) | SNum (z : Z).

Definition get_state (s : t) : list state_item :=
  [ SArray (channel_page s); SArray (channel_pagehi s); SArray (channel_addr s);
    SArray (channel_addr_init s); SArray (channel_count s); SArray (channel_count_init s);
    SArray (channel_mask s); SArray (channel_mode s); SNum (lsb_msb_flipflop s) ].

Definition set_state (state : list state_item) (s : t) : option t :=
  match state with
  | [ SArray a0; SArray a1; SArray a2; SArray a3; SArray a4; SArray a5; SArray a6; SArray a7; SNum f ] =>
      Some (s <| channel_page := a0 |> <| channel_pagehi := a1 |> <| channel_addr := a2 |>
              <| channel_addr_init := a3 |> <| channel_count := a4 |> <| channel_count_init := a5 |>
              <| channel_mask := a6 |> <| channel_mode := a7 |> <| lsb_msb_flipflop := f |>)
  | _ => None
  end.

(** ** The flip-flop *)

Definition flipflop_get (old_dword new_byte : Z) (continuing : bool) : M t Z :=
  when (negb continuing)
    (modify (fun s => s <| lsb_msb_flipflop := lsb_msb_flipflop s .^ 1 |>)) ;;;
  s <-- get ;;
  if negb (lsb_msb_flipflop s =? 0) then
    (* low byte *)
    ret (old_dword .& ~. 0xFF .| new_byte)
  else
    (* high byte *)
    ret (old_dword .& ~. 0xFF00 .| new_byte .<< 8).

Definition flipflop_read (dword : Z) : M t Z :=
  modify (fun s => s <| lsb_msb_flipflop := lsb_msb_flipflop s .^ 1 |>) ;;;
  s <-- get ;;
  if negb (lsb_msb_flipflop s =? 0) then ret (dword .& 0xFF)
  else ret (dword .>> 8 .& 0xFF).

(** ** Port handlers *)

Definition port_count_write (channel data_byte : Z) : M t unit :=
  s <-- get ;;
  v <-- flipflop_get (arr_get (channel_count s) channel) data_byte false ;;
  modify (fun s => s <| channel_count := arr_set (channel_count s) channel (u16 v) |>) ;;;
  s <-- get ;;
  v <-- flipflop_get (arr_get (channel_count_init s) channel) data_byte true ;;
  modify (fun s => s <| channel_count_init := arr_set (channel_count_init s) channel (u16 v) |>).

Definition port_count_read (channel : Z) : M t Z :=
  s <-- get ;; flipflop_read (arr_get (channel_count s) channel).

Definition port_addr_write (channel data_byte : Z) : M t unit :=
  s <-- get ;;
  v <-- flipflop_get (arr_get (channel_addr s) channel) data_byte false ;;
  modify (fun s => s <| channel_addr := arr_set (channel_addr s) channel (u16 v) |>) ;;;
  s <-- get ;;
  v <-- flipflop_get (arr_get (channel_addr_init s) channel) data_byte true ;;
  modify (fun s => s <| channel_addr_init := arr_set (channel_addr_init s) channel (u16 v) |>).

Definition port_addr_read (channel : Z) : M t Z :=
  s <-- get ;; flipflop_read (arr_get (channel_addr s) channel).

Definition port_pagehi_write (channel data_byte : Z) : M t unit :=
  modify (fun s => s <| channel_pagehi := arr_set (channel_pagehi s) channel (u8 data_byte) |>).

Definition port_pagehi_read (channel : Z) : M t Z :=
  s <-- get ;; ret (arr_get (channel_pagehi s) channel).

Definition port_page_write (channel data_byte : Z) : M t unit :=
  modify (fun s => s <| channel_page := arr_set (channel_page s) channel (u8 data_byte) |>).

Definition port_page_read (channel : Z) : M t Z :=
  s <-- get ;; ret (arr_get (channel_page s) channel).

Definition on_unmask (fn this_value : Z) : M t unit :=
  modify (fun s => s <| unmask_listeners := unmask_listeners s ++ [(fn, this_value)] |>).

Definition update_mask (channel value : Z) : M t unit :=
  s <-- get ;;
  when (negb (arr_get (channel_mask s) channel =? value))
    (modify (fun s => s <| channel_mask := arr_set (channel_mask s) channel (u8 value) |>) ;;;
     when (value =? 0)
       (mfor (unmask_listeners s) (fun l => emit (Callback l.1 l.2 channel)))).

Definition port_singlemask_write (channel_offset data_byte : Z) : M t unit :=
  let channel := (data_byte .& 3) + channel_offset in
  let value := if has data_byte 4 then 1 else 0 in
  update_mask channel value.

Definition port_multimask_write (channel_offset data_byte : Z) : M t unit :=
  mfor (seqZ 0 4) (fun i => update_mask (channel_offset + i) (data_byte .& (1 .<< i))).

Definition port_multimask_read (channel_offset : Z) : M t Z :=
  s <-- get ;;
  let m i := arr_get (channel_mask s) (channel_offset + i) in
  ret (m 0 .| (m 1 .<< 1) .| (m 2 .<< 2) .| (m 3 .<< 3)).

Definition port_mode_write (channel_offset data_byte : Z) : M t unit :=
  let channel := (data_byte .& 3) + channel_offset in
  modify (fun s => s <| channel_mode := arr_set (channel_mode s) channel (u8 data_byte) |>).

Definition portC_write (data_byte : Z) : M t unit :=
  modify (fun s => s <| lsb_msb_flipflop := 0 |>).

Definition cancel_transfers : M t unit := modify (fun s => s <| epoch := epoch s + 1 |>).

(** The ports the constructor registers. *)
Definition addr_port (port : Z) : option Z :=
  match port with
  | 0x00 => Some 0 | 0x02 => Some 1 | 0x04 => Some 2 | 0x06 => Some 3
  | 0xC0 => Some 4 | 0xC4 => Some 5 | 0xC8 => Some 6 | 0xCC => Some 7
  | _ => None
  end.
Definition count_port (port : Z) : option Z :=
  match port with
  | 0x01 => Some 0 | 0x03 => Some 1 | 0x05 => Some 2 | 0x07 => Some 3
  | 0xC2 => Some 4 | 0xC6 => Some 5 | 0xCA => Some 6 | 0xCE => Some 7
  | _ => None
  end.
Definition page_port (port : Z) : option Z :=
  match port with
  | 0x87 => Some 0 | 0x83 => Some 1 | 0x81 => Some 2 | 0x82 => Some 3
  | 0x8F => Some 4 | 0x8B => Some 5 | 0x89 => Some 6 | 0x8A => Some 7
  | _ => None
  end.
Definition pagehi_port (port : Z) : option Z :=
  match port with
  | 0x487 => Some 0 | 0x483 => Some 1 | 0x481 => Some 2 | 0x482 => Some 3
  | 0x48B => Some 5 | 0x489 => Some 6 | 0x48A => Some 7
  | _ => None
  end.

Definition port_write (port data_byte : Z) : M t unit :=
  match addr_port port, count_port port, page_port port, pagehi_port port with
  | Some c, _, _, _ => port_addr_write c data_byte
  | _, Some c, _, _ => port_count_write c data_byte
  | _, _, Some c, _ => port_page_write c data_byte
  | _, _, _, Some c => port_pagehi_write c data_byte
  | _, _, _, _ =>
      match port with
      | 0x0A => port_singlemask_write 0 data_byte
      | 0xD4 => port_singlemask_write 4 data_byte
      | 0x0F => port_multimask_write 0 data_byte
      | 0xDE => port_multimask_write 4 data_byte
      | 0x0B => port_mode_write 0 data_byte
      | 0xD6 => port_mode_write 4 data_byte
      | 0x0C | 0xD8 => portC_write data_byte
      | _ => skip
      end
  end.

Definition port_read (port : Z) : M t Z :=
  match addr_port port, count_port port, page_port port, pagehi_port port with
  | Some c, _, _, _ => port_addr_read c
  | _, Some c, _, _ => port_count_read c
  | _, _, Some c, _ => port_page_read c
  | _, _, _, Some c => port_pagehi_read c
  | _, _, _, _ =>
      match port with
      | 0x0F => port_multimask_read 0
      | 0xDE => port_multimask_read 4
      | _ => ret 0xFF
      end
  end.

(** ** Addresses and counts *)

Definition address_get_8bit (s : t) (channel : Z) : Z :=
  let addr := arr_get (channel_addr s) channel in
  let addr := if 5 <=? channel then addr .<< 1 else addr in
  let addr := addr .& 0xFFFF in
  let addr := addr .| (arr_get (channel_page s) channel .<< 16) in
  let addr := addr .| shl32 (arr_get (channel_pagehi s) channel) 24 in
  u32 addr.

Definition count_get_8bit (s : t) (channel : Z) : Z :=
  let count := arr_get (channel_count s) channel + 1 in
  if 5 <=? channel then count * 2 else count.

(** ** Transfers *)

(** What the CPU's physical memory promises the controller (the [None] and
    [false] results are the RangeErrors of src/cpu.js). *)
Class PhysMem (W : Type) := {
  validate_physical_range : W -> Z -> Z -> bool;
  read_blob_physical : W -> Z -> Z -> option (list Z);
  write_blob_physical : W -> list Z -> Z -> option W
}.

(** Reads return as many bytes as asked for, and succeed on a valid range. *)
Class PhysMemLaws (W : Type) `{PhysMem W} := {
  read_blob_length : forall w a n d,
    0 <= n -> read_blob_physical w a n = Some d -> Z.of_nat (length d) = n;
  read_blob_valid : forall w a n,
    validate_physical_range w a n = true -> is_Some (read_blob_physical w a n)
}.

(** A transfer waiting for the buffer: what its callback captured. *)
Record pending_read := mk_pending_read {
  pr_addr : Z; pr_start : Z; pr_count : Z; pr_epoch : Z
}.

Record pending_write := mk_pending_write {
  pw_start : Z; pw_data : list Z; pw_epoch : Z;
  pw_again : bool;   (* want_more && autoinit *)
  pw_next_start : Z; pw_next_len : Z
}.

(** The end of a transfer as the device that asked for it sees it: its
    callback called with an error flag, or never (dropped by a reset). *)
Inductive outcome := Called (error : bool) | Dropped.

Section transfers.
Context {W : Type} `{PhysMem W}.

(** [do_read]: [None] is [fn(true)] before anything started. *)
Definition do_read (w : W) (byteLength start len channel : Z) : M t (option pending_read) :=
  s <-- get ;;
  let read_count := count_get_8bit s channel in
  let addr := address_get_8bit s channel in
  if byteLength <? start + read_count then ret None
  else if 0x100000000 <? addr + read_count then ret None
  else if negb (validate_physical_range w addr read_count) then ret None
  else
    modify (fun s => s <| channel_addr :=
      arr_set (channel_addr s) channel (u16 (arr_get (channel_addr s) channel + read_count)) |>) ;;;
    s <-- get ;;
    ret (Some (mk_pending_read addr start read_count (epoch s))).

(** The buffer's callback of [do_read]. *)
Definition complete_read (p : pending_read) (data : list Z) (s : t) (w : W) : outcome * W :=
  if negb (pr_epoch p =? epoch s) then (Dropped, w)
  else match write_blob_physical w data (pr_addr p) with
       | None => (Called true, w)
       | Some w => (Called false, w)
       end.

(** [do_write]: [inl] is an immediate [fn(true)]. *)
Definition do_write (w : W) (byteLength start len channel : Z) : M t (unit + pending_write) :=
  s <-- get ;;
  let read_count := (arr_get (channel_count s) channel + 1) .& 0xFFFF in
  let bytes_per_count := if 5 <=? channel then 2 else 1 in
  let read_bytes := read_count * bytes_per_count in
  let addr := address_get_8bit s channel in
  let autoinit := has (arr_get (channel_mode s) channel) 0x10 in
  let unfinished := len <? read_bytes in
  let want_more := negb unfinished && (read_bytes <? len) in
  let read_count := if unfinished then len / bytes_per_count else read_count in
  let read_bytes := if unfinished then read_count * bytes_per_count else read_bytes in
  if byteLength <? start + read_bytes then ret (inl tt)
  else if 0x100000000 <? addr + read_bytes then ret (inl tt)
  else match read_blob_physical w addr read_bytes with
  | None => ret (inl tt)
  | Some data =>
      modify (fun s => s
        <| channel_addr :=
             arr_set (channel_addr s) channel (u16 (arr_get (channel_addr s) channel + read_count)) |>
        <| channel_count :=
             arr_set (channel_count s) channel (u16 (arr_get (channel_count s) channel - read_count)) |>) ;;;
      when (negb unfinished && autoinit)
        (modify (fun s => s
          <| channel_addr := arr_set (channel_addr s) channel (arr_get (channel_addr_init s) channel) |>
          <| channel_count := arr_set (channel_count s) channel (arr_get (channel_count_init s) channel) |>)) ;;;
      s <-- get ;;
      ret (inr (mk_pending_write start data (epoch s) (want_more && autoinit)
                  (start + read_bytes) (len - read_bytes)))
  end.

(** The whole of a [do_write] whose buffer calls back at once, so that nothing happens between a round and its
    completion: the chunks written to the buffer, and the end.  (One round by itself is [do_write]; its [pending_write] carries the
    epoch that a later completion compares.)  [None]: not finished within [fuel]
    rounds. *)
Fixpoint run_write (fuel : nat) (w : W) (byteLength start len channel : Z) (s : t)
  : option (list (Z * list Z) * outcome * t) :=
  match fuel with
  | O => None
  | S fuel =>
      let r := res (do_write w byteLength start len channel) s in
      let s' := exec (do_write w byteLength start len channel) s in
      match r with
      | inl _ => Some ([], Called true, s')
      | inr p =>
          if negb (pw_epoch p =? epoch s') then Some ([(pw_start p, pw_data p)], Dropped, s')
          else if pw_again p then
            match run_write fuel w byteLength (pw_next_start p) (pw_next_len p) channel s' with
            | None => None
            | Some (chunks, o, s'') => Some ((pw_start p, pw_data p) :: chunks, o, s'')
            end
          else Some ([(pw_start p, pw_data p)], Called false, s')
      end
  end.

End transfers.

(** ** The invariant: every register within its width *)

Record wf (s : t) : Prop := {
  wf_page : length (channel_page s) = 8%nat /\ Forall byte (channel_page s);
  wf_pagehi : length (channel_pagehi s) = 8%nat /\ Forall byte (channel_pagehi s);
  wf_addr : length (channel_addr s) = 8%nat /\ Forall word16 (channel_addr s);
  wf_addr_init : length (channel_addr_init s) = 8%nat /\ Forall word16 (channel_addr_init s);
  wf_count : length (channel_count s) = 8%nat /\ Forall word16 (channel_count s);
  wf_count_init : length (channel_count_init s) = 8%nat /\ Forall word16 (channel_count_init s);
  wf_mask : length (channel_mask s) = 8%nat /\ Forall byte (channel_mask s);
  wf_mode : length (channel_mode s) = 8%nat /\ Forall byte (channel_mode s);
  wf_flipflop : lsb_msb_flipflop s = 0 \/ lsb_msb_flipflop s = 1
}.

Lemma arr_set_u8 l c v :
  length l = 8%nat /\ Forall byte l -> length (arr_set l c (u8 v)) = 8%nat /\ Forall byte (arr_set l c (u8 v)).
Proof. intros []. rewrite arr_set_length. auto using arr_set_Forall, u8_byte. Qed.

Lemma arr_set_u16 l c v :
  length l = 8%nat /\ Forall word16 l ->
  length (arr_set l c (u16 v)) = 8%nat /\ Forall word16 (arr_set l c (u16 v)).
Proof. intros []. rewrite arr_set_length. auto using arr_set_Forall, u16_word16. Qed.

Lemma arr_set_init l l' c :
  length l = 8%nat /\ Forall word16 l -> Forall word16 l' ->
  length (arr_set l c (arr_get l' c)) = 8%nat /\ Forall word16 (arr_set l c (arr_get l' c)).
Proof.
  intros [] ?. rewrite arr_set_length. split; [done|]. apply arr_set_Forall; [done|].
  apply arr_get_Forall; [unfold word16; lia|done].
Qed.

Lemma flip_flop f : f = 0 \/ f = 1 -> f .^ 1 = 0 \/ f .^ 1 = 1.
Proof. intros [-> | ->]; cbn; auto. Qed.

#[local] Hint Resolve arr_set_u8 arr_set_u16 arr_set_init flip_flop : dev.

(** Re-establishes [wf] after a register update. *)
Ltac wf_update :=
  let s := fresh "s" in let H := fresh "H" in
  intros s H; destruct H; split; cbn; auto with dev.

Lemma dma_create_wf : wf create.
Proof.
  split; try (by left); (split; [done|apply Forall_replicate; unfold byte, word16; lia]).
Qed.

Lemma flipflop_get_wf old b c : preserves wf (flipflop_get old b c).
Proof.
  apply preserves_bind.
  - apply preserves_when, preserves_modify. wf_update.
  - intros []. apply preserves_get. intros s Hs. by destruct (negb _).
Qed.

Lemma flipflop_read_wf d : preserves wf (flipflop_read d).
Proof.
  apply preserves_bind; [apply preserves_modify; wf_update|].
  intros []. apply preserves_get. intros s Hs. by destruct (negb _).
Qed.

Lemma update_mask_wf c v : preserves wf (update_mask c v).
Proof.
  apply preserves_get. intros s Hs. apply preserves_when; [|done].
  apply preserves_bind; [apply preserves_modify; wf_update|].
  intros []. apply preserves_when, preserves_mfor. intros l. apply preserves_emit.
Qed.

Ltac dma_wf :=
  preserve ltac:(first [ apply flipflop_get_wf | apply flipflop_read_wf | apply update_mask_wf
                       | apply preserves_modify; wf_update ]).

Lemma port_write_preserves_wf port b : preserves wf (port_write port b).
Proof.
  unfold port_write.
  destruct (addr_port port); [unfold port_addr_write; dma_wf|].
  destruct (count_port port); [unfold port_count_write; dma_wf|].
  destruct (page_port port); [unfold port_page_write; dma_wf|].
  destruct (pagehi_port port); [unfold port_pagehi_write; dma_wf|].
  unfold port_singlemask_write, port_multimask_write, port_mode_write, portC_write.
  repeat case_match; dma_wf.
Qed.

(** ** Everything that happens to the controller *)

Section steps.
Context {W : Type} `{PhysMem W}.

Inductive step : t -> t -> Prop :=
| step_write port b s : step s (exec (port_write port b) s)
| step_read port s : step s (exec (port_read port) s)
| step_listen fn this_value s : step s (exec (on_unmask fn this_value) s)
| step_cancel s : step s (exec cancel_transfers s)
| step_do_read w bl start len c s : step s (exec (do_read w bl start len c) s)
| step_do_write w bl start len c s : step s (exec (do_write w bl start len c) s).

Lemma port_read_wf port : preserves wf (port_read port).
Proof.
  unfold port_read, port_addr_read, port_count_read, port_page_read, port_pagehi_read,
    port_multimask_read.
  repeat case_match; dma_wf.
Qed.

Lemma do_read_wf w bl start len c : preserves wf (do_read w bl start len c).
Proof. unfold do_read. dma_wf. Qed.

Lemma do_write_wf w bl start len c : preserves wf (do_write w bl start len c).
Proof.
  unfold do_write. apply preserves_bind; [apply preserves_get_only|intros s].
  apply preserves_if; [apply preserves_ret|]. apply preserves_if; [apply preserves_ret|].
  destruct (read_blob_physical _ _ _); [|apply preserves_ret].
  preserve ltac:(apply preserves_modify; wf_update).
  all: apply arr_set_init; tauto.
Qed.

Lemma step_wf s s' : step s s' -> wf s -> wf s'.
Proof.
  destruct 1; intros Hwf.
  - by apply port_write_preserves_wf.
  - by apply port_read_wf.
  - revert s Hwf. wf_update.
  - revert s Hwf. wf_update.
  - by apply do_read_wf.
  - by apply do_write_wf.
Qed.

(** Only a reset moves the epoch, and only forward. *)
Lemma epoch_same {A} (m : M t A) s :
  preserves (fun s' => epoch s' = epoch s) m -> epoch s <= epoch (exec m s).
Proof. intros Hm. rewrite (Hm s eq_refl). lia. Qed.

Lemma flipflop_get_epoch e old b k : preserves (fun s => epoch s = e) (flipflop_get old b k).
Proof. unfold flipflop_get. preserve ltac:(apply preserves_modify; done). Qed.
Lemma flipflop_read_epoch e d : preserves (fun s => epoch s = e) (flipflop_read d).
Proof. unfold flipflop_read. preserve ltac:(apply preserves_modify; done). Qed.

Ltac dma_epoch :=
  preserve ltac:(first [ apply flipflop_get_epoch | apply flipflop_read_epoch
                       | apply preserves_modify; done ]).

Lemma step_epoch s s' : step s s' -> epoch s <= epoch s'.
Proof.
  destruct 1.
  - apply epoch_same.
    unfold port_write, port_addr_write, port_count_write, port_page_write, port_pagehi_write,
      port_singlemask_write, port_multimask_write, port_mode_write, portC_write, update_mask.
    repeat case_match; dma_epoch.
  - apply epoch_same.
    unfold port_read, port_addr_read, port_count_read, port_page_read, port_pagehi_read,
      port_multimask_read.
    repeat case_match; dma_epoch.
  - cbn. lia.
  - cbn. lia.
  - apply epoch_same. unfold do_read. dma_epoch.
  - apply epoch_same. unfold do_write. apply preserves_bind; [apply preserves_get_only|intros s0].
    apply preserves_if; [apply preserves_ret|]. apply preserves_if; [apply preserves_ret|].
    destruct (read_blob_physical _ _ _); [|apply preserves_ret]. dma_epoch.
Qed.
End steps.

Lemma address_value s c : wf s ->
  address_get_8bit s c =
    arr_get (channel_pagehi s) c * 2 ^ 24 + arr_get (channel_page s) c * 2 ^ 16
    + (if 5 <=? c then 2 * arr_get (channel_addr s) c else arr_get (channel_addr s) c) mod 2 ^ 16.
Proof.
  intros Hwf.
  assert (byte (arr_get (channel_pagehi s) c)) as Hh
    by (apply arr_get_Forall; [unfold byte; lia|apply Hwf]).
  assert (byte (arr_get (channel_page s) c)) as Hp
    by (apply arr_get_Forall; [unfold byte; lia|apply Hwf]).
  unfold address_get_8bit. rewrite land_ffff.
  set (a := if 5 <=? c then arr_get (channel_addr s) c .<< 1 else arr_get (channel_addr s) c).
  assert (a = if 5 <=? c then 2 * arr_get (channel_addr s) c else arr_get (channel_addr s) c) as <-.
  { subst a. destruct (5 <=? c); [|done]. rewrite Z.shiftl_mul_pow2 by lia. lia. }
  pose proof (Z.mod_pos_bound a 65536 ltac:(lia)) as Ha.
  change (2 ^ 16) with 65536. set (b := a mod 65536) in *. unfold byte in *.
  rewrite lor_shiftl_add by lia.
  assert (u32 ((b + arr_get (channel_page s) c * 2 ^ 16) .| shl32 (arr_get (channel_pagehi s) c) 24)
    = u32 ((b + arr_get (channel_page s) c * 2 ^ 16) .| (arr_get (channel_pagehi s) c .<< 24))) as ->.
  { unfold u32 at 1 2. rewrite <- !Z.land_ones by lia. rewrite !Z.land_lor_distr_l. f_equal.
    rewrite !Z.land_ones by lia. unfold shl32. rewrite (i32_id (arr_get _ _)) by (unfold int32; lia).
    apply (u32_i32 (arr_get (channel_pagehi s) c .<< 24)). }
  rewrite lor_shiftl_add by lia. unfold u32. rewrite Z.mod_small by lia. lia.
Qed.

(** C15: Starting from power-on, whatever the guest writes to and reads from any
    port, whatever transfers a drive starts and whenever a reset cancels them,
    every register keeps its width, and the physical address of every channel is
    the page registers' 64 KiB bank plus the (for 16-bit channels doubled)
    address register wrapped to 16 bits: a transfer starts inside the bank and
    below 4 GiB. *)
Theorem dma_reachable {W} `{PhysMem W} (s : t) (Hs : rtc (step (W:=W)) create s) :
  wf s /\
  forall c,
    address_get_8bit s c =
      arr_get (channel_pagehi s) c * 2 ^ 24 + arr_get (channel_page s) c * 2 ^ 16
      + (if 5 <=? c then 2 * arr_get (channel_addr s) c else arr_get (channel_addr s) c) mod 2 ^ 16
    /\ 0 <= address_get_8bit s c < 2 ^ 32.
Proof.
  assert (wf s) as Hwf.
  { revert Hs. generalize dma_create_wf. generalize create. intros s0 H0 Hs.
    induction Hs; eauto using step_wf. }
  split; [done|]. intros c. split; [by apply address_value|].
  apply u32_uint32.
Qed.

(** ** Programming a channel *)

Lemma flipflop_combine old lo hi :
  byte lo -> byte hi ->
  u16 (u16 (old .& ~. 0xFF .| lo) .& ~. 0xFF00 .| hi .<< 8) = lo + 256 * hi.
Proof.
  intros Hlo Hhi. unfold byte in *.
  replace (lo + 256 * hi) with (lo .| (hi .<< 8)) by (rewrite lor_shiftl_add by lia; lia).
  unfold u16. rewrite <- !Z.land_ones by lia.
  change 0xFF with (Z.ones 8). change 0xFF00 with (Z.ones 8 .<< 8).
  zbits i. rewrite !Z.testbit_ones by lia. zbit_specs i. rewrite ?Z.testbit_ones by lia.
  destruct (Z.ltb_spec i 8).
  - rewrite (Z.testbit_neg_r hi) by lia.
    rewrite (proj2 (Z.ltb_lt i 16)), (proj2 (Z.leb_le 0 i)), (proj2 (Z.leb_gt 0 (i - 8))) by lia.
    by destruct (Z.testbit old i), (Z.testbit lo i).
  - rewrite (testbit_high 8 lo) by lia. destruct (Z.ltb_spec i 16).
    + rewrite (proj2 (Z.ltb_lt (i - 8) 8)), (proj2 (Z.leb_le 0 (i - 8))),
        (proj2 (Z.leb_le 0 i)) by lia.
      by destruct (Z.testbit old i), (Z.testbit hi (i - 8)).
    + rewrite (testbit_high 8 hi) by lia. rewrite !andb_false_r. done.
Qed.

Lemma low_byte lo hi : byte lo -> byte hi -> (lo + 256 * hi) .& 0xFF = lo.
Proof. unfold byte. intros. rewrite land_ff, Z.mul_comm, Z.mod_add by lia. apply Z.mod_small. lia. Qed.

Lemma high_byte lo hi : byte lo -> byte hi -> (lo + 256 * hi) .>> 8 .& 0xFF = hi.
Proof.
  unfold byte. intros. rewrite land_ff, Z.shiftr_div_pow2, Z.mul_comm by lia.
  change (2 ^ 8) with 256. rewrite Z.div_add, (Z.div_small lo) by lia. apply Z.mod_small. lia.
Qed.

(** Evaluates handlers whose flip-flop is a known bit. *)
Ltac flip_eval :=
  repeat (progress (cbn -[u16 arr_set arr_get Z.land Z.shiftr];
    change (0 .^ 1) with 1; change (1 .^ 1) with 0;
    change (0 =? 0) with true; change (1 =? 0) with false)).

(** A 16-bit register programmed through its port: reset the flip-flop, low
    byte, high byte; and read back the same way. *)
Definition program (port lo hi : Z) : M t unit :=
  port_write 0x0C 0 ;;; port_write port lo ;;; port_write port hi.
Definition read_back (port : Z) : M t (Z * Z) :=
  port_write 0x0C 0 ;;; lo <-- port_read port ;; hi <-- port_read port ;; ret (lo, hi).

Lemma addr_port_range p c : addr_port p = Some c -> 0 <= c < 8.
Proof. unfold addr_port. intros. repeat case_match; simplify_eq; lia. Qed.
Lemma count_port_range p c : count_port p = Some c -> 0 <= c < 8 /\ addr_port p = None.
Proof. unfold count_port, addr_port. intros. repeat case_match; simplify_eq; split; done || lia. Qed.

Lemma addr_program_exec s c p lo hi :
  wf s -> byte lo -> byte hi -> addr_port p = Some c ->
  exec (program p lo hi) s = s
    <| channel_addr := arr_set (channel_addr s) c (lo + 256 * hi) |>
    <| channel_addr_init := arr_set (channel_addr_init s) c (lo + 256 * hi) |>
    <| lsb_msb_flipflop := 0 |>.
Proof.
  intros Hwf Hlo Hhi Hp. pose proof (addr_port_range _ _ Hp).
  assert (length (channel_addr s) = 8%nat) as Hl1 by apply Hwf.
  assert (length (channel_addr_init s) = 8%nat) as Hl2 by apply Hwf.
  assert (0 <= c < Z.of_nat (length (channel_addr s))) by lia.
  assert (0 <= c < Z.of_nat (length (channel_addr_init s))) by lia.
  unfold program, port_write. rewrite Hp.
  unfold port_addr_write, flipflop_get. flip_eval.
  rewrite !arr_get_set_eq by done.
  rewrite !flipflop_combine by done.
  unfold arr_set. rewrite !list_insert_insert_eq. by destruct s.
Qed.

Lemma count_program_exec s c p lo hi :
  wf s -> byte lo -> byte hi -> count_port p = Some c ->
  exec (program p lo hi) s = s
    <| channel_count := arr_set (channel_count s) c (lo + 256 * hi) |>
    <| channel_count_init := arr_set (channel_count_init s) c (lo + 256 * hi) |>
    <| lsb_msb_flipflop := 0 |>.
Proof.
  intros Hwf Hlo Hhi Hp. destruct (count_port_range _ _ Hp) as [? Hp'].
  assert (length (channel_count s) = 8%nat) as Hl1 by apply Hwf.
  assert (length (channel_count_init s) = 8%nat) as Hl2 by apply Hwf.
  assert (0 <= c < Z.of_nat (length (channel_count s))) by lia.
  assert (0 <= c < Z.of_nat (length (channel_count_init s))) by lia.
  unfold program, port_write. rewrite Hp, Hp'.
  unfold port_count_write, flipflop_get. flip_eval.
  rewrite !arr_get_set_eq by done.
  rewrite !flipflop_combine by done.
  unfold arr_set. rewrite !list_insert_insert_eq. by destruct s.
Qed.

Lemma addr_read_back s c p lo hi :
  addr_port p = Some c -> byte lo -> byte hi -> arr_get (channel_addr s) c = lo + 256 * hi ->
  res (read_back p) s = (lo, hi).
Proof.
  intros Hp Hlo Hhi Hv. unfold read_back, port_read. rewrite Hp.
  unfold port_addr_read, flipflop_read. flip_eval.
  rewrite Hv. by rewrite low_byte, high_byte.
Qed.

Lemma count_read_back s c p lo hi :
  count_port p = Some c -> byte lo -> byte hi -> arr_get (channel_count s) c = lo + 256 * hi ->
  res (read_back p) s = (lo, hi).
Proof.
  intros Hp Hlo Hhi Hv. destruct (count_port_range _ _ Hp) as [? Hp'].
  unfold read_back, port_read. rewrite Hp, Hp'.
  unfold port_count_read, flipflop_read. flip_eval.
  rewrite Hv. by rewrite low_byte, high_byte.
Qed.

(** Programming a register a byte at a time works for every channel and
    both register files: after resetting the flip-flop, two writes of [lo] and
    [hi] to a channel's address (count) port set its current and its initial
    address (count) to [lo + 256 * hi], change nothing else but the flip-flop,
    and two reads after another reset return [lo] and [hi]. *)
Theorem dma_program_roundtrip (s : t) (p c lo hi : Z)
    (Hwf : wf s) (Hlo : byte lo) (Hhi : byte hi) :
  let s' := exec (program p lo hi) s in
  let v := lo + 256 * hi in
  (addr_port p = Some c ->
     s' = s <| channel_addr := arr_set (channel_addr s) c v |>
            <| channel_addr_init := arr_set (channel_addr_init s) c v |>
            <| lsb_msb_flipflop := 0 |>
     /\ arr_get (channel_addr s') c = v
     /\ res (read_back p) s' = (lo, hi))
  /\ (count_port p = Some c ->
     s' = s <| channel_count := arr_set (channel_count s) c v |>
            <| channel_count_init := arr_set (channel_count_init s) c v |>
            <| lsb_msb_flipflop := 0 |>
     /\ arr_get (channel_count s') c = v
     /\ res (read_back p) s' = (lo, hi)).
Proof.
  cbv zeta. split; intros Hp.
  - rewrite (addr_program_exec s c p lo hi) by done.
    pose proof (addr_port_range _ _ Hp).
    pose proof (proj1 (wf_addr s Hwf)).
    assert (arr_get (arr_set (channel_addr s) c (lo + 256 * hi)) c = lo + 256 * hi)
      by (apply arr_get_set_eq; lia).
    repeat split; [done|]. by apply (addr_read_back _ c).
  - rewrite (count_program_exec s c p lo hi) by done.
    destruct (count_port_range _ _ Hp).
    pose proof (proj1 (wf_count s Hwf)).
    assert (arr_get (arr_set (channel_count s) c (lo + 256 * hi)) c = lo + 256 * hi)
      by (apply arr_get_set_eq; lia).
    repeat split; [done|]. by apply (count_read_back _ c).
Qed.

Lemma dma_program_roundtrip_witness :
  arr_get (channel_addr (exec (program 0xC4 0x34 0x12) create)) 5 = 0x1234 /\
  arr_get (channel_count (exec (program 0x05 0xFF 0x01) create)) 2 = 0x1FF.
Proof.
  split.
  - apply (dma_program_roundtrip create 0xC4 5 0x34 0x12); [apply dma_create_wf|unfold byte; lia..|done].
  - apply (dma_program_roundtrip create 0x05 2 0xFF 0x01); [apply dma_create_wf|unfold byte; lia..|done].
Defined.

(** ** Transfers *)

Section transfer_theorems.
Context {W : Type} `{PhysMemLaws W}.

(** What one round of [do_write] moves: whole counts of the channel, at most
    what it was asked for. *)
Definition unit_size (c : Z) : Z := if 5 <=? c then 2 else 1.
Definition round_bytes (s : t) (len c : Z) : Z :=
  let n := ((arr_get (channel_count s) c + 1) mod 65536) * unit_size c in
  if len <? n then len / unit_size c * unit_size c else n.
Definition autoinit (s : t) (c : Z) : bool := has (arr_get (channel_mode s) c) 0x10.
Definition more (s : t) (len c : Z) : bool :=
  ((arr_get (channel_count s) c + 1) mod 65536 * unit_size c <? len) && autoinit s c.

Lemma unit_size_pos c : 0 < unit_size c <= 2.
Proof. unfold unit_size. destruct (5 <=? c); lia. Qed.

Lemma round_bytes_bound s len c : 0 <= len -> 0 <= round_bytes s len c <= len.
Proof.
  intros Hl. unfold round_bytes. pose proof (unit_size_pos c) as Hu.
  pose proof (Z.mod_pos_bound (arr_get (channel_count s) c + 1) 65536 ltac:(lia)).
  destruct (Z.ltb_spec len ((arr_get (channel_count s) c + 1) mod 65536 * unit_size c)).
  - pose proof (Z.div_mod len (unit_size c) ltac:(lia)).
    pose proof (Z.mod_pos_bound len (unit_size c) ltac:(lia)).
    pose proof (Z.div_pos len (unit_size c)). nia.
  - nia.
Qed.

Lemma do_write_cases w bl start len c s :
  wf s -> 0 <= c < 8 -> 0 <= len ->
  let r := do_write w bl start len c s in
  r = (inl tt, s, []) \/
  exists data, r.1.1 =
      inr (mk_pending_write start data (epoch s) (more s len c)
             (start + round_bytes s len c) (len - round_bytes s len c))
    /\ Z.of_nat (length data) = round_bytes s len c
    /\ read_blob_physical w (address_get_8bit s c) (round_bytes s len c) = Some data
    /\ start + round_bytes s len c <= bl
    /\ epoch r.1.2 = epoch s
    /\ channel_mode r.1.2 = channel_mode s
    /\ channel_count_init r.1.2 = channel_count_init s
    /\ (more s len c = true ->
         arr_get (channel_count r.1.2) c = arr_get (channel_count_init s) c).
Proof.
  intros Hwf Hc Hlen r. subst r. pose proof (round_bytes_bound s len c Hlen) as Hb. revert Hb.
  assert (length (channel_count s) = 8%nat) by apply Hwf.
  unfold do_write, more, round_bytes, autoinit. rewrite bind_get. cbv zeta.
  rewrite land_ffff. fold (unit_size c).
  set (n := (arr_get (channel_count s) c + 1) mod 65536 * unit_size c).
  set (rb := if len <? n then len / unit_size c * unit_size c else n).
  replace (if len <? n then (if len <? n then len / unit_size c else _) * unit_size c else n)
    with rb by (unfold rb; by destruct (len <? n)).
  intros Hb.
  destruct (Z.ltb_spec bl (start + rb)); [by left|].
  destruct (Z.ltb_spec 0x100000000 (address_get_8bit s c + rb)); [by left|].
  destruct (read_blob_physical w (address_get_8bit s c) rb) as [data|] eqn:E; [|by left].
  right. exists data. rewrite bind_modify.
  assert (negb (len <? n) && (n <? len) = (n <? len)) as Hmore
    by (destruct (Z.ltb_spec len n), (Z.ltb_spec n len); done || lia).
  rewrite Hmore. pose proof (read_blob_length _ _ _ _ (proj1 Hb) E).
  destruct (negb (len <? n) && has (arr_get (channel_mode s) c) 16) eqn:Ea;
    cbn -[arr_get arr_set u16 has]; split_and!; try done.
  - intros _. apply arr_get_set_eq. rewrite arr_set_length. lia.
  - rewrite <- Hmore. intros Hm. apply andb_true_iff in Hm as [Hm ?].
    apply andb_true_iff in Hm as [Hm ?]. rewrite Hm in Ea. cbn in Ea. congruence.
Qed.

(** The chunks of a transfer follow each other in the buffer. *)
Fixpoint contiguous (start : Z) (chunks : list (Z * list Z)) : Prop :=
  match chunks with
  | [] => True
  | (a, d) :: rest => a = start /\ contiguous (start + Z.of_nat (length d)) rest
  end.
Definition total (chunks : list (Z * list Z)) : Z :=
  fold_right (fun ch acc => Z.of_nat (length ch.2) + acc) 0 chunks.

(** What a finished transfer of [len] bytes has done. *)
Definition finished (bl start len c : Z) (auto : bool) (chunks : list (Z * list Z)) (o : outcome) : Prop :=
  contiguous start chunks /\ total chunks <= len /\
  Forall (fun ch => ch.1 + Z.of_nat (length ch.2) <= bl) chunks /\
  o <> Dropped /\
  (o = Called false -> auto = true -> total chunks = len - len mod unit_size c).

Lemma finished_error bl start len c auto : 0 <= len -> finished bl start len c auto [] (Called true).
Proof. intros. unfold finished. split_and!; done. Qed.

Lemma finished_last bl start len c s d :
  0 <= len -> Z.of_nat (length d) = round_bytes s len c -> start + round_bytes s len c <= bl ->
  more s len c = false ->
  finished bl start len c (autoinit s c) [(start, d)] (Called false).
Proof.
  intros Hl Hd Hb Hm. pose proof (round_bytes_bound s len c Hl). pose proof (unit_size_pos c).
  unfold finished; split_and!; cbn; try (done || lia).
  - constructor; [cbn; lia|constructor].
  - intros _ Ha. rewrite Hd. unfold more in Hm. rewrite Ha, andb_true_r in Hm.
    unfold round_bytes. apply Z.ltb_ge in Hm.
    destruct (Z.ltb_spec len ((arr_get (channel_count s) c + 1) mod 65536 * unit_size c)).
    + pose proof (Z.div_mod len (unit_size c) ltac:(lia)). lia.
    + assert (len = (arr_get (channel_count s) c + 1) mod 65536 * unit_size c) as -> by lia.
      rewrite Z.mod_mul by lia. lia.
Qed.

Lemma finished_cons bl start len c auto d chunks o :
  start + Z.of_nat (length d) <= bl -> 
  Z.of_nat (length d) mod unit_size c = 0 ->
  finished bl (start + Z.of_nat (length d)) (len - Z.of_nat (length d)) c auto chunks o ->
  finished bl start len c auto ((start, d) :: chunks) o.
Proof.
  intros Hb Hd (Hc & Ht & HF & Ho & Hall). pose proof (unit_size_pos c).
  unfold finished; split_and!; cbn; fold (total chunks); try (done || lia).
  - by constructor.
  - intros -> Ha. rewrite (Hall eq_refl Ha).
    apply Z.mod_divide in Hd as [k ->]; [|lia].
    replace (len - k * unit_size c) with (len + (- k) * unit_size c) by lia.
    rewrite Z.mod_add by lia. lia.
Qed.

Lemma more_round s len c :
  more s len c = true ->
  autoinit s c = true /\
  round_bytes s len c = (arr_get (channel_count s) c + 1) mod 65536 * unit_size c /\
  round_bytes s len c < len.
Proof.
  unfold more, round_bytes. intros [Hm Ha]%andb_true_iff. apply Z.ltb_lt in Hm.
  rewrite (proj2 (Z.ltb_ge _ _)) by lia. done.
Qed.

(** One round, by the lemma on what is left after it. *)
Lemma run_write_round w bl start len c s fuel :
  wf s -> 0 <= c < 8 -> 0 <= len ->
  (forall start' len' s', wf s' ->
     len' = len - round_bytes s len c -> more s len c = true ->
     channel_count_init s' = channel_count_init s ->
     channel_mode s' = channel_mode s ->
     arr_get (channel_count s') c = arr_get (channel_count_init s') c ->
     exists chunks o s'', run_write fuel w bl start' len' c s' = Some (chunks, o, s'') /\
       finished bl start' len' c (autoinit s' c) chunks o) ->
  exists chunks o s', run_write (S fuel) w bl start len c s = Some (chunks, o, s') /\
    finished bl start len c (autoinit s c) chunks o.
Proof.
  intros Hwf Hc Hlen IH. pose proof (round_bytes_bound s len c Hlen) as Hrb.
  pose proof (do_write_wf w bl start len c s Hwf) as Hwf'. cbn [run_write].
  destruct (do_write_cases w bl start len c s Hwf Hc Hlen)
    as [E|(data & E & Hd & _ & Hb & Hep & Hmo & Hci & Hco)].
  - unfold res, exec. rewrite E. cbn. eexists _, _, _. split; [done|]. by apply finished_error.
  - unfold res, exec in *. rewrite E. cbn [pw_epoch pw_again pw_start pw_data pw_next_start pw_next_len].
    rewrite Hep, Z.eqb_refl. cbn [negb].
    destruct (more s len c) eqn:Hm.
    + destruct (more_round _ _ _ Hm) as (Ha & Hr & Hlt).
      destruct (IH (start + round_bytes s len c) _ (do_write w bl start len c s).1.2 Hwf'
                  eq_refl eq_refl Hci Hmo) as (chunks & o & s'' & -> & Hfin).
      { rewrite Hci. by apply Hco. }
      eexists _, _, _. split; [done|]. apply finished_cons.
      * lia.
      * rewrite Hd, Hr. apply Z.mod_mul. pose proof (unit_size_pos c). lia.
      * rewrite Hd. unfold autoinit in *. by rewrite Hmo in Hfin.
    + eexists _, _, _. split; [done|]. by apply finished_last.
Qed.

Lemma run_write_steady w bl c fuel : forall start len s,
  wf s -> 0 <= c < 8 -> 0 <= len < Z.of_nat fuel ->
  arr_get (channel_count s) c = arr_get (channel_count_init s) c ->
  arr_get (channel_count_init s) c <> 0xFFFF ->
  exists chunks o s', run_write fuel w bl start len c s = Some (chunks, o, s') /\
    finished bl start len c (autoinit s c) chunks o.
Proof.
  induction fuel as [|fuel IH]; intros start len s Hwf Hc Hlen Hcnt Hne; [lia|].
  apply run_write_round; [done..|lia|]. intros start' len' s' Hwf' -> Hm Hci Hmo Hcnt'.
  destruct (more_round _ _ _ Hm) as (_ & Hr & Hlt). rewrite Hcnt in Hr.
  assert (word16 (arr_get (channel_count_init s) c)) as Hw
    by (apply arr_get_Forall; [unfold word16; lia|apply Hwf]).
  unfold word16 in Hw. rewrite Z.mod_small in Hr by lia.
  pose proof (unit_size_pos c).
  apply IH; [done|done|nia|done|by rewrite Hci].
Qed.

(** A device-to-disk transfer to a buffer that calls back at once (as the buffers held in memory do) ends.  Unless the channel's initial count is
    0xFFFF, a [do_write] of [len] bytes (autoinitialising or not, whatever the
    current count) is over after at most [len + 2] rounds; the chunks it stored
    follow each other in the buffer, stay inside it and add up to at most [len]
    bytes; the caller's callback is called; and a transfer reported as good on
    an autoinitialising channel has moved every whole count of the [len] bytes
    asked for. *)
Theorem do_write_terminates (w : W) (bl start len c : Z) (s : t)
    (Hwf : wf s) (Hc : 0 <= c < 8) (Hlen : 0 <= len)
    (Hne : arr_get (channel_count_init s) c <> 0xFFFF) :
  exists chunks o s',
    run_write (Z.to_nat len + 2) w bl start len c s = Some (chunks, o, s') /\
    contiguous start chunks /\ total chunks <= len /\
    Forall (fun ch => ch.1 + Z.of_nat (length ch.2) <= bl) chunks /\
    o <> Dropped /\
    (o = Called false -> autoinit s c = true -> total chunks = len - len mod unit_size c).
Proof.
  replace (Z.to_nat len + 2)%nat with (S (Z.to_nat len + 1)) by lia.
  apply run_write_round; [done..|]. intros start' len' s' Hwf' -> Hm Hci Hmo Hcnt.
  pose proof (round_bytes_bound s len c Hlen).
  apply run_write_steady; [done|done|lia|done|by rewrite Hci].
Qed.

(** The count 0xFFFF, which asks the controller for 64 KiB, is masked to a
    transfer of no bytes: on an autoinitialising channel programmed with it (and
    memory that allows empty reads) [do_write] goes round for ever, at any fuel,
    without moving a byte or calling back. *)
Theorem do_write_spins (w : W) (bl start len c : Z) (s : t) (fuel : nat)
    (Hwf : wf s) (Hc : 0 <= c < 8) (Hlen : 0 < len) (Hst : 0 <= start <= bl)
    (Ha : autoinit s c = true)
    (H1 : arr_get (channel_count s) c = 0xFFFF)
    (H2 : arr_get (channel_count_init s) c = 0xFFFF)
    (Hmem : forall a, is_Some (read_blob_physical w a 0)) :
  run_write fuel w bl start len c s = None.
Proof.
  revert s Hwf Ha H1 H2.
  induction fuel as [|fuel IH]; intros s Hwf Ha H1 H2; [done|].
  assert (round_bytes s len c = 0) as Hr.
  { unfold round_bytes. rewrite H1. change ((65535 + 1) mod 65536) with 0. rewrite Z.mul_0_l.
    rewrite (proj2 (Z.ltb_ge _ _)) by lia. done. }
  assert (more s len c = true) as Hm.
  { unfold more. rewrite H1, Ha, andb_true_r. apply Z.ltb_lt.
    change ((65535 + 1) mod 65536) with 0. lia. }
  pose proof (do_write_wf w bl start len c s Hwf) as Hwf'. unfold exec in Hwf'.
  cbn [run_write].
  destruct (do_write_cases w bl start len c s Hwf Hc ltac:(lia))
    as [E|(data & E & Hd & _ & Hb & Hep & Hmo & Hci & Hco)].
  - exfalso. revert E. unfold do_write. rewrite bind_get. cbv zeta.
    rewrite land_ffff, H1. change ((65535 + 1) mod 65536) with 0. rewrite Z.mul_0_l.
    rewrite (proj2 (Z.ltb_ge len 0)) by lia. rewrite !Z.add_0_r.
    rewrite (proj2 (Z.ltb_ge bl start)) by lia.
    pose proof (u32_uint32 (address_get_8bit s c)) as Hu. unfold uint32 in Hu.
    assert (u32 (address_get_8bit s c) = address_get_8bit s c) as Hid
      by (apply u32_id, u32_uint32).
    rewrite Hid in Hu. rewrite (proj2 (Z.ltb_ge 0x100000000 (address_get_8bit s c))) by lia.
    destruct (Hmem (address_get_8bit s c)) as [d ->]. rewrite bind_modify. intros E.
    apply (f_equal (fun r => r.1.1)) in E. by destruct (_ && _) in E.
  - unfold res, exec. rewrite E. cbn [pw_epoch pw_again pw_start pw_data pw_next_start pw_next_len].
    rewrite Hep, Z.eqb_refl, Hm, Hr, Z.add_0_r, Z.sub_0_r. cbn [negb].
    rewrite (IH _ Hwf'); [done|..].
    + unfold autoinit in *. by rewrite Hmo.
    + rewrite (Hco Hm). done.
    + by rewrite Hci.
Qed.

(** A disk-to-memory transfer that a reset overtakes has no effect.  When
    [do_read] accepts a transfer, the whole range was valid memory below 4 GiB
    and inside the buffer; if the machine is reset ([cancel_transfers]) any
    number of times, and at least once, before the disk delivers, whatever else
    happens to the controller in between, the delivery leaves memory as it is
    and does not call back; a refused transfer changes nothing at all. *)
Theorem do_read_reset (w : W) (bl start len c : Z) (s s' : t) (data : list Z)
    (Hs : rtc (fun a b => step (W:=W) a b) (exec cancel_transfers
            (exec (do_read w bl start len c) s)) s') :
  match res (do_read w bl start len c) s with
  | None => do_read w bl start len c s = (None, s, [])
  | Some p =>
      validate_physical_range w (pr_addr p) (pr_count p) = true /\
      pr_addr p = address_get_8bit s c /\ pr_count p = count_get_8bit s c /\
      pr_addr p + pr_count p <= 2 ^ 32 /\ pr_start p + pr_count p <= bl /\
      forall w', complete_read p data s' w' = (Dropped, w')
  end.
Proof.
  assert (forall a b, rtc (fun a b => step (W:=W) a b) a b -> epoch a <= epoch b) as Hmono.
  { intros a b Hr. induction Hr as [|a b b' Hst _ IH]; [lia|].
    enough (epoch a <= epoch b) by lia. by apply (step_epoch (W:=W)). }
  apply Hmono in Hs. cbn in Hs. revert Hs. unfold do_read, res, exec. rewrite bind_get. cbv zeta.
  destruct (Z.ltb_spec bl (start + count_get_8bit s c)); [done|].
  destruct (Z.ltb_spec 0x100000000 (address_get_8bit s c + count_get_8bit s c)); [done|].
  destruct (validate_physical_range w _ _) eqn:E; [|done].
  cbn [negb]. rewrite bind_modify, bind_get. cbn -[address_get_8bit count_get_8bit arr_set arr_get u16].
  intros Hs. split_and!; try (done || lia). intros w'. unfold complete_read. cbn [pr_epoch].
  by rewrite (proj2 (Z.eqb_neq _ _)) by lia.
Qed.

End transfer_theorems.

(** The all-mask register does not read back what was written to it: the
    stored bits are shifted a second time. *)
Example multimask_readback :
  res (port_multimask_write 0 0xF ;;; port_multimask_read 0) create = 0x55.
Proof. vm_compute. reflexivity. Qed.

(** ** A flat memory, for the examples *)

#[local] Instance flat_mem : PhysMem (list Z) := {
  validate_physical_range m a n := (0 <=? a) && (0 <=? n) && (a + n <=? Z.of_nat (length m));
  read_blob_physical m a n :=
    if (0 <=? a) && (0 <=? n) && (a + n <=? Z.of_nat (length m))
    then Some (take (Z.to_nat n) (drop (Z.to_nat a) m)) else None;
  write_blob_physical m d a :=
    if (0 <=? a) && (a + Z.of_nat (length d) <=? Z.of_nat (length m))
    then Some (take (Z.to_nat a) m ++ d ++ drop (Z.to_nat a + length d) m) else None
}.

#[local] Instance flat_mem_laws : PhysMemLaws (list Z).
Proof.
  split; cbn.
  - intros m a n d Hn. destruct (_ && _) eqn:E; [|done]. intros [= <-].
    apply andb_true_iff in E as [[E1 E2]%andb_true_iff E3].
    apply Z.leb_le in E1, E2, E3. rewrite length_take, length_drop. lia.
  - intros m a n ->. eauto.
Defined.

(** Memory in which every empty read succeeds. *)
#[local] Instance open_mem : PhysMem unit := {
  validate_physical_range _ _ _ := true;
  read_blob_physical _ _ n := Some (replicate (Z.to_nat n) 0);
  write_blob_physical _ _ _ := Some tt
}.

#[local] Instance open_mem_laws : PhysMemLaws unit.
Proof.
  split; cbn; [|eauto]. intros _ _ n d Hn [= <-]. rewrite length_replicate. lia.
Defined.

Definition demo : t :=
  exec (port_write 0x0A 0x02 ;;; program 0x04 0x02 0x00 ;;; program 0x05 0x02 0x00 ;;;
        port_write 0x0B 0x16) create.
Lemma dma_demo_wf : wf demo.
Proof.
  split; vm_compute; try (by left);
    split; try done; repeat constructor; try done.
Qed.

Lemma dma_reachable_witness :
  address_get_8bit (exec (port_write 0x81 0x12) create) 2 = 0x120000.
Proof.
  assert (rtc (step (W:=list Z)) create (exec (port_write 0x81 0x12) create)) as Hs
    by (apply rtc_once, step_write).
  destruct (dma_reachable (exec (port_write 0x81 0x12) create) Hs) as [_ Ha].
  rewrite (proj1 (Ha 2)). vm_compute. reflexivity.
Defined.

Lemma do_write_terminates_witness :
  exists chunks o s', run_write 9 (seqZ 0 16) 100 10 7 2 demo = Some (chunks, o, s') /\
    total chunks = 7.
Proof.
  destruct (do_write_terminates (seqZ 0 16) 100 10 7 2 demo dma_demo_wf)
    as (chunks & o & s' & E & _ & _ & _ & _ & Hall).
  - lia.
  - lia.
  - vm_compute. discriminate.
  - exists chunks, o, s'. split; [exact E|]. apply Hall.
    + revert E. vm_compute. intros [= <- <- <-]. reflexivity.
    + vm_compute. reflexivity.
Defined.

Lemma do_write_spins_witness :
  run_write 1000 tt 0x20000 0 512 2 (exec (program 0x05 0xFF 0xFF) demo) = None.
Proof.
  apply do_write_spins; try (vm_compute; reflexivity); try lia.
  - rewrite (count_program_exec demo 2); [|apply dma_demo_wf|unfold byte; lia..|done].
    split; vm_compute; try (by left); split; try done; repeat constructor; done.
  - intros a. cbn. eauto.
Defined.

Lemma do_read_reset_witness :
  let m := seqZ 0 16 in
  exists p, res (do_read m 512 0 512 2) demo = Some p /\
    complete_read p (replicate 3 7) (exec cancel_transfers (exec (do_read m 512 0 512 2) demo)) m = (Dropped, m).
Proof.
  cbv zeta.
  pose proof (do_read_reset (seqZ 0 16) 512 0 512 2 demo _ (replicate 3 7) (rtc_refl _ _)) as Hr.
  destruct (res (do_read (seqZ 0 16) 512 0 512 2) demo) as [p|] eqn:E.
  - exists p. split; [done|]. apply Hr.
  - exfalso. revert E. vm_compute. discriminate.
Defined.

End Dma.
