(* ===== verification/Uart.v ===== *)
(** * src/uart.js: the serial port

    The whole of the UART: the port handlers, the interrupt encoder, the
    receive queue and the modem lines.  Debug logging and the line buffer it
    uses ([current_line]) are left out. *)

From S2P Require Import Prelude.

Set Default Goal Selector "!".

Module Uart.

Definition DLAB : Z := 0x80.
Definition UART_IER_MSI : Z := 0x08.
Definition UART_IER_THRI : Z := 0x02.
Definition UART_IER_RDI : Z := 0x01.
Definition UART_IIR_MSI : Z := 0x00.
Definition UART_IIR_NO_INT : Z := 0x01.
Definition UART_IIR_THRI : Z := 0x02.
Definition UART_IIR_RDI : Z := 0x04.
Definition UART_IIR_CTI : Z := 0x0c.
Definition UART_MCR_LOOPBACK : Z := 0x10.
Definition UART_MCR_RTS : Z := 0x2.
Definition UART_MCR_DTR : Z := 0x1.
Definition UART_LSR_DATA_READY : Z := 0x1.
Definition UART_LSR_TX_EMPTY : Z := 0x20.
Definition UART_LSR_TRANSMITTER_EMPTY : Z := 0x40.
Definition UART_MSR_DCD : Z := 0x7.
Definition UART_MSR_RI : Z := 0x6.
Definition UART_MSR_DSR : Z := 0x5.
Definition UART_MSR_CTS : Z := 0x4.

Record t := mk {
  ints : Z;
  baud_rate : Z;
  line_control : Z;
  lsr : Z;
  fifo_control : Z;
  ier : Z;
  iir : Z;
  modem_control : Z;
  modem_status : Z;
  scratch_register : Z;
  irq : Z;
  com : Z;
  input : list Z
}.

(** The number of the port and its interrupt, from its base address. *)
Definition com_irq (port : Z) : Z * Z :=
  match port with
  | 0x3F8 => (0, 4)
  | 0x2F8 => (1, 3)
  | 0x3E8 => (2, 4)
  | 0x2E8 => (3, 3)
  | _ => (0, 4)
  end.

Definition create (port : Z) : t :=
  mk (1 .<< UART_IIR_THRI) 0 0 (UART_LSR_TRANSMITTER_EMPTY .| UART_LSR_TX_EMPTY) 0 0
     UART_IIR_NO_INT 0 0 0 (com_irq port).2 (com_irq port).1 [].

Definition com_name (n : Z) : string :=
  match n with 0 => "0" | 1 => "1" | 2 => "2" | _ => "3" end.
Definition bus_name (s : t) (suffix : string) : string :=
  String.app "serial" (String.app (com_name (com s)) suffix).

(** ** State images *)

Definition get_state (s : t) : list Z :=
  [ ints s; baud_rate s; line_control s; lsr s; fifo_control s; ier s; iir s;
    modem_control s; modem_status s; scratch_register s; irq s ].

(** A missing element is [undefined]; images have all eleven. *)
Definition set_state (state : list Z) : M t unit :=
  let at_ i := arr_get state i in
  modify (fun s => s
    <| ints := at_ 0 |> <| baud_rate := at_ 1 |> <| line_control := at_ 2 |>
    <| lsr := at_ 3 |> <| fifo_control := at_ 4 |> <| ier := at_ 5 |> <| iir := at_ 6 |>
    <| modem_control := at_ 7 |> <| modem_status := at_ 8 |>
    <| scratch_register := at_ 9 |> <| irq := at_ 10 |>).

(** ** Interrupts *)

Definition CheckInterrupt : M t unit :=
  s <-- get ;;
  if has (ints s) (1 .<< UART_IIR_CTI) && has (ier s) UART_IER_RDI then
    modify (fun s => s <| iir := UART_IIR_CTI |>) ;;; emit (DeviceRaiseIrq (irq s))
  else if has (ints s) (1 .<< UART_IIR_RDI) && has (ier s) UART_IER_RDI then
    modify (fun s => s <| iir := UART_IIR_RDI |>) ;;; emit (DeviceRaiseIrq (irq s))
  else if has (ints s) (1 .<< UART_IIR_THRI) && has (ier s) UART_IER_THRI then
    modify (fun s => s <| iir := UART_IIR_THRI |>) ;;; emit (DeviceRaiseIrq (irq s))
  else if has (ints s) (1 .<< UART_IIR_MSI) && has (ier s) UART_IER_MSI then
    modify (fun s => s <| iir := UART_IIR_MSI |>) ;;; emit (DeviceRaiseIrq (irq s))
  else
    modify (fun s => s <| iir := UART_IIR_NO_INT |>) ;;; emit (DeviceLowerIrq (irq s)).

Definition ThrowInterrupt (line : Z) : M t unit :=
  modify (fun s => s <| ints := ints s .| (1 .<< line) |>) ;;; CheckInterrupt.

Definition ClearInterrupt (line : Z) : M t unit :=
  modify (fun s => s <| ints := ints s .& ~. (1 .<< line) |>) ;;; CheckInterrupt.

(** ** Data *)

Definition data_received (data : Z) : M t unit :=
  modify (fun s => s <| input := input s ++ [data] |>) ;;;
  modify (fun s => s <| lsr := lsr s .| UART_LSR_DATA_READY |>) ;;;
  s <-- get ;;
  if has (fifo_control s) 1 then ThrowInterrupt UART_IIR_CTI
  else ThrowInterrupt UART_IIR_RDI.

Definition write_data (out_byte : Z) : M t unit :=
  s <-- get ;;
  if has (line_control s) DLAB then
    modify (fun s => s <| baud_rate := baud_rate s .& ~. 0xFF .| out_byte |>)
  else
    ThrowInterrupt UART_IIR_THRI ;;;
    (if has (modem_control s) UART_MCR_LOOPBACK then data_received out_byte
     else emit (BusSend (bus_name s "-output-byte") (PNum out_byte))).

Definition read_data : M t Z :=
  s <-- get ;;
  if has (line_control s) DLAB then ret (baud_rate s .& 0xFF)
  else
    data <-- (match input s with
              | [] => ret 0
              | d :: rest => modify (fun s => s <| input := rest |>) ;;; ret d
              end) ;;
    s <-- get ;;
    when (Nat.eqb (length (input s)) 0)
      (modify (fun s => s <| lsr := lsr s .& ~. UART_LSR_DATA_READY |>) ;;;
       ClearInterrupt UART_IIR_CTI ;;;
       ClearInterrupt UART_IIR_RDI) ;;;
    ret data.

(** ** The other registers *)

Definition write_ier (out_byte : Z) : M t unit :=
  s <-- get ;;
  if has (line_control s) DLAB then
    modify (fun s => s <| baud_rate := baud_rate s .& 0xFF .| out_byte .<< 8 |>)
  else
    when (negb (has (ier s) UART_IIR_THRI) && has out_byte UART_IIR_THRI)
      (ThrowInterrupt UART_IIR_THRI) ;;;
    modify (fun s => s <| ier := out_byte .& 0xF |>) ;;;
    CheckInterrupt.

Definition read_ier : M t Z :=
  s <-- get ;;
  if has (line_control s) DLAB then ret (baud_rate s .>> 8)
  else ret (ier s .& 0xF).

Definition read_iir : M t Z :=
  s <-- get ;;
  let r := iir s .& 0xF in
  when (iir s =? UART_IIR_THRI) (ClearInterrupt UART_IIR_THRI) ;;;
  s <-- get ;;
  ret (if has (fifo_control s) 1 then r .| 0xC0 else r).

Definition write_modem_control (out_byte : Z) : M t unit :=
  s <-- get ;;
  let bits_changed := modem_control s .^ out_byte in
  modify (fun s => s <| modem_control := out_byte |>) ;;;
  when (has bits_changed UART_MCR_DTR)
    (emit (BusSend (bus_name s "-data-terminal-ready-output") (PBool (has out_byte UART_MCR_DTR)))) ;;;
  when (has bits_changed UART_MCR_RTS)
    (emit (BusSend (bus_name s "-request-to-send-output") (PBool (has out_byte UART_MCR_RTS)))).

Definition read_modem_status : M t Z :=
  s <-- get ;;
  let result := modem_status s in
  modify (fun s => s <| modem_status := modem_status s .& 0xF0 |>) ;;;
  ClearInterrupt UART_IIR_MSI ;;;
  ret result.

Definition set_modem_status_bit (msr_bit : Z) (set_bit : bool) : M t unit :=
  s <-- get ;;
  let new_modem_status :=
    if set_bit then modem_status s .| (1 .<< msr_bit) else modem_status s .& ~. (1 .<< msr_bit) in
  let new_delta_bits := (modem_status s .^ new_modem_status) .>> 4 in
  modify (fun s => s <| modem_status := new_modem_status .| new_delta_bits |>) ;;;
  s <-- get ;;
  when (has (modem_status s) 0x0F) (ThrowInterrupt UART_IIR_MSI).

(** ** The ports, by their offset from the base *)

Definition port_write8 (reg out_byte : Z) : M t unit :=
  match reg with
  | 0 => write_data out_byte
  | 1 => write_ier out_byte
  | 2 => modify (fun s => s <| fifo_control := out_byte |>)
  | 3 => modify (fun s => s <| line_control := out_byte |>)
  | 4 => write_modem_control out_byte
  | 7 => modify (fun s => s <| scratch_register := out_byte |>)
  | _ => skip
  end.

(** The data port also takes 16 bits at once. *)
Definition port_write16 (out_word : Z) : M t unit :=
  write_data (out_word .& 0xFF) ;;; write_data (out_word .>> 8).

Definition port_read8 (reg : Z) : M t Z :=
  match reg with
  | 0 => read_data
  | 1 => read_ier
  | 2 => read_iir
  | 3 => s <-- get ;; ret (line_control s)
  | 4 => s <-- get ;; ret (modem_control s)
  | 5 => s <-- get ;; ret (lsr s)
  | 6 => read_modem_status
  | 7 => s <-- get ;; ret (scratch_register s)
  | _ => ret 0xFF
  end.

(** The messages of the host side, by name. *)
Definition bus_input (suffix : string) (data : Z) : M t unit :=
  if String.eqb suffix "-input" then data_received data
  else if String.eqb suffix "-carrier-detect-input" then set_modem_status_bit UART_MSR_DCD (negb (data =? 0))
  else if String.eqb suffix "-ring-indicator-input" then set_modem_status_bit UART_MSR_RI (negb (data =? 0))
  else if String.eqb suffix "-data-set-ready-input" then set_modem_status_bit UART_MSR_DSR (negb (data =? 0))
  else if String.eqb suffix "-clear-to-send-input" then set_modem_status_bit UART_MSR_CTS (negb (data =? 0))
  else skip.

(** ** The interrupt encoder *)

(** The pending interrupt of highest priority that is enabled. *)
Definition encode (i e : Z) : Z :=
  if has i 0x1000 && has e 1 then 12
  else if has i 0x10 && has e 1 then 4
  else if has i 4 && has e 2 then 2
  else if has i 1 && has e 8 then 0
  else 1.

Definition signal (n e : Z) : event := if e =? 1 then DeviceLowerIrq n else DeviceRaiseIrq n.

Lemma line_level_signal n l e : line_level n l [signal n e] = negb (e =? 1).
Proof. unfold signal. destruct (e =? 1); cbn; by rewrite Z.eqb_refl. Qed.

Lemma CheckInterrupt_spec s :
  CheckInterrupt s = (tt, s <| iir := encode (ints s) (ier s) |>,
                      [signal (irq s) (encode (ints s) (ier s))]).
Proof.
  unfold CheckInterrupt, encode. rewrite bind_get.
  change (1 .<< UART_IIR_CTI) with 0x1000. change (1 .<< UART_IIR_RDI) with 0x10.
  change (1 .<< UART_IIR_THRI) with 4. change (1 .<< UART_IIR_MSI) with 1.
  unfold UART_IER_RDI, UART_IER_THRI, UART_IER_MSI. by repeat case_match.
Qed.

Lemma ThrowInterrupt_spec line s (i := ints s .| (1 .<< line)) :
  ThrowInterrupt line s = (tt, s <| ints := i |> <| iir := encode i (ier s) |>,
                           [signal (irq s) (encode i (ier s))]).
Proof. unfold ThrowInterrupt. by rewrite bind_modify, CheckInterrupt_spec. Qed.

Lemma ClearInterrupt_spec line s (i := ints s .& ~. (1 .<< line)) :
  ClearInterrupt line s = (tt, s <| ints := i |> <| iir := encode i (ier s) |>,
                           [signal (irq s) (encode i (ier s))]).
Proof. unfold ClearInterrupt. by rewrite bind_modify, CheckInterrupt_spec. Qed.

(** ** Operations and their invariant *)

Inductive op :=
| Write8 (reg out_byte : Z)
| Write16 (out_word : Z)
| Read8 (reg : Z)
| Input (suffix : string) (data : Z).

Definition run_op (o : op) : M t Z :=
  match o with
  | Write8 reg b => port_write8 reg b ;;; ret 0
  | Write16 w => port_write16 w ;;; ret 0
  | Read8 reg => port_read8 reg
  | Input suffix d => bus_input suffix d ;;; ret 0
  end.

Definition nonempty (s : t) : bool := match input s with [] => false | _ => true end.

(** The registers that do not depend on the encoder. *)
Record status_ok (s : t) : Prop := {
  ok_lsr : lsr s = 0x60 .| b2z (nonempty s);
  ok_rx : has (ints s) 0x1000 || has (ints s) 0x10 = nonempty s;
  ok_msi : has (ints s) 1 = has (modem_status s) 0xF
}.

(** [l] is the level of the port's interrupt line. *)
Record inv (s : t) (l : bool) : Prop := {
  inv_status : status_ok s;
  inv_iir : iir s = encode (ints s) (ier s);
  inv_line : l = negb (iir s =? UART_IIR_NO_INT)
}.

(** What an operation does to the invariant, line included. *)
Definition keeps {A} (P Q : t -> bool -> Prop) (m : M t A) : Prop :=
  forall s l, P s l -> Q (exec m s) (line_level (irq s) l (evs m s)) /\ irq (exec m s) = irq s.

Lemma keeps_bind {A B} P Q R (m : M t A) (k : A -> M t B) :
  keeps P Q m -> (forall a, keeps Q R (k a)) -> keeps P R (bind m k).
Proof.
  intros Hm Hk s l Hp. destruct (Hm s l Hp) as [Hq He].
  destruct (Hk (res m s) _ _ Hq) as [Hr He']. rewrite He in Hr, He'.
  rewrite exec_bind, evs_bind, line_level_app. done.
Qed.

Lemma keeps_ret {A} P (a : A) : keeps P P (ret a).
Proof. by intros s l H. Qed.

(** The state alone, before the encoder runs. *)
Definition pre (s : t) (_ : bool) : Prop := status_ok s.

Lemma CheckInterrupt_keeps : keeps pre inv CheckInterrupt.
Proof.
  intros s l Hp. unfold exec, evs. rewrite CheckInterrupt_spec. cbn [fst snd]. split; [|done].
  rewrite line_level_signal. split; [|done|done]. destruct Hp. by split.
Qed.

Lemma clear_bits : forall x, (has (x .& ~. (1 .<< 12)) 0x1000 = false)
  /\ has (x .& ~. (1 .<< 4)) 0x10 = false /\ has (x .& ~. (1 .<< 0)) 1 = false.
Proof. intros x. split_and!; apply has_clear_same. Qed.

Lemma lsr_ready b : (0x60 .| b2z b) .| UART_LSR_DATA_READY = 0x61.
Proof. by destruct b. Qed.
Lemma lsr_unready b : (0x60 .| b2z b) .& ~. UART_LSR_DATA_READY = 0x60.
Proof. by destruct b. Qed.

Lemma data_received_keeps d : keeps pre inv (data_received d).
Proof.
  intros s l [H1 H2 H3]. unfold exec, evs, data_received.
  rewrite !bind_modify, bind_get. cbn -[ThrowInterrupt].
  assert (nonempty (s <| input := input s ++ [d] |> <| lsr := lsr s .| UART_LSR_DATA_READY |>) = true)
    as Hne by (unfold nonempty; cbn; by destruct (input s)).
  case_match; rewrite ThrowInterrupt_spec; cbn [fst snd]; (split; [|done]);
    rewrite line_level_signal; split; try done; split; cbn; rewrite ?H1, ?lsr_ready;
    unfold nonempty in *; cbn in *; rewrite ?Hne, ?has_lor, ?H3; try done.
  - by rewrite !orb_true_r.
  - by rewrite orb_false_r.
  - by rewrite orb_true_r, orb_true_r.
  - by rewrite orb_false_r.
Qed.

Lemma throw_thri_keeps : keeps pre inv (ThrowInterrupt UART_IIR_THRI).
Proof.
  intros s l [H1 H2 H3]. unfold exec, evs. rewrite ThrowInterrupt_spec. cbn [fst snd].
  split; [|done]. rewrite line_level_signal. split; [|done|done].
  split; cbn; [done|..]; rewrite !has_lor, ?orb_false_r; done.
Qed.

Lemma keeps_weaken {A} (P P' Q : t -> bool -> Prop) (m : M t A) :
  (forall s l, P s l -> P' s l) -> keeps P' Q m -> keeps P Q m.
Proof. intros H Hm s l Hp. by apply Hm, H. Qed.

Lemma inv_pre s l : inv s l -> pre s l.
Proof. by intros []. Qed.

Lemma keeps_get {A} P Q (k : t -> M t A) :
  (forall s l, P s l -> Q (exec (k s) s) (line_level (irq s) l (evs (k s) s)) /\ irq (exec (k s) s) = irq s) ->
  keeps P Q (bind get k).
Proof. intros H s l Hp. unfold exec, evs. rewrite bind_get. by apply H. Qed.

(** An assignment to registers the invariant does not mention. *)
Lemma keeps_modify (f : t -> t) :
  (forall s l, inv s l -> inv (f s) l) -> (forall s, irq (f s) = irq s) -> keeps inv inv (modify f).
Proof. intros H Hi s l Hs. split; [by apply H|apply Hi]. Qed.

Ltac inv_frame := first [by intros ? ? [[] ? ?]; split; [split|..] | done].

Lemma write_data_keeps b : keeps inv inv (write_data b).
Proof.
  apply keeps_get. intros s l Hs. destruct (has (line_control s) DLAB).
  - refine (keeps_modify _ _ _ s l Hs); inv_frame.
  - revert s l Hs. intros s. apply keeps_bind with (Q := inv).
    + eapply keeps_weaken; [apply inv_pre|apply throw_thri_keeps].
    + intros _. case_match.
      * eapply keeps_weaken; [apply inv_pre|apply data_received_keeps].
      * by intros s' l Hs.
Qed.

Lemma read_data_keeps : keeps inv inv read_data.
Proof.
  apply keeps_get. intros s l Hs. destruct (has (line_control s) DLAB); [by split|].
  destruct Hs as [[H1 H2 H3] H4 H5]. destruct (input s) as [|d [|d' rest]] eqn:Ein.
  all: unfold exec, evs, bind, res, exec, evs; cbn -[ClearInterrupt line_level]; rewrite ?Ein; cbn -[ClearInterrupt line_level].
  1, 2: rewrite !ClearInterrupt_spec; cbn -[line_level]; split; [|done];
    change ([?a; ?b]) with ([a] ++ [b]); rewrite line_level_app, line_level_signal;
    split; [|done|done]; split; cbn; unfold nonempty; cbn; rewrite ?Ein.
  1, 4: by rewrite H1, lsr_unready.
  1, 3: rewrite has_clear_same, has_clear_other by done; by rewrite has_clear_same.
  1, 2: by rewrite !has_clear_other by done.
  split; [|done]. split; [|done|done]. unfold nonempty in *. rewrite Ein in *. by split.
Qed.

Lemma write_ier_keeps b : keeps inv inv (write_ier b).
Proof.
  apply keeps_get. intros s l Hs. destruct (has (line_control s) DLAB).
  - refine (keeps_modify _ _ _ s l Hs); inv_frame.
  - revert s l Hs. intros s. apply keeps_bind with (Q := inv).
    + unfold when. case_match; [|by apply keeps_ret].
      eapply keeps_weaken; [apply inv_pre|apply throw_thri_keeps].
    + intros _. apply keeps_bind with (Q := pre); [|intros _; apply CheckInterrupt_keeps].
      intros s' l [[] ? ?]. split; [|done]. by split.
Qed.

Lemma read_iir_keeps : keeps inv inv read_iir.
Proof.
  apply keeps_get. intros s l Hs. revert s l Hs. intros s. cbv zeta. apply keeps_bind with (Q := inv).
  - unfold when. case_match; [|by apply keeps_ret]. intros s' l [[H1 H2 H3] _ _].
    unfold exec, evs. rewrite ClearInterrupt_spec. cbn [fst snd]. split; [|done].
    rewrite line_level_signal. split; [|done|done].
    split; cbn; [done|..]; rewrite !has_clear_other by done; done.
  - intros _. by intros s' l Hs.
Qed.

Lemma throw_msi_keeps s l : status_ok (s <| ints := ints s .| 1 |>) -> inv (exec (ThrowInterrupt UART_IIR_MSI) s)
   (line_level (irq s) l (evs (ThrowInterrupt UART_IIR_MSI) s)).
Proof.
  intros [H1 H2 H3]. unfold exec, evs. rewrite ThrowInterrupt_spec. cbn [fst snd].
  rewrite line_level_signal. split; [|done|done]. by split.
Qed.

Lemma read_modem_status_keeps : keeps inv inv read_modem_status.
Proof.
  apply keeps_get. intros s l Hs. revert s l Hs. intros s. cbv zeta.
  apply keeps_bind with (Q := fun s l => status_ok (s <| ints := ints s .& ~. 1 |>)).
  - intros s' l [[H1 H2 H3] _ _]. split; [|done]. split; cbn; [done|..].
    + by rewrite !has_clear_other by done.
    + rewrite has_clear_same. symmetry. apply has_false_iff.
      rewrite <- Z.land_assoc. apply Z.land_0_r.
  - intros _. apply keeps_bind with (Q := inv); [|intros; apply keeps_ret].
    intros s' l Hs'. unfold exec, evs. rewrite ClearInterrupt_spec. cbn [fst snd].
    split; [|done]. rewrite line_level_signal. split; [|done|done]. destruct Hs'. by split.
Qed.

Lemma set_modem_status_bit_keeps b v : 4 <= b -> keeps inv inv (set_modem_status_bit b v).
Proof.
  intros Hb. apply keeps_get. intros s l [[H1 H2 H3] H4 H5]. cbv zeta.
  set (n := if v then _ else _). set (ms := n .| (modem_status s .^ n) .>> 4).
  unfold exec, evs. rewrite bind_modify, bind_get. cbn [modem_status].
  change (modem_status (s <| modem_status := ms |>)) with ms.
  unfold when. destruct (has ms 0xF) eqn:Eh.
  - split; [|by rewrite ThrowInterrupt_spec].
    refine (throw_msi_keeps (s <| modem_status := ms |>) l _). split; cbn; [done|..].
    + rewrite !has_lor, ?orb_false_r. done.
    + by rewrite has_lor, Eh, orb_true_r.
  - cbn. split; [|done]. split; [split|..]; cbn; try done. rewrite H3, Eh.
    unfold ms in Eh. rewrite has_lor in Eh. apply orb_false_iff in Eh as [En _].
    rewrite <- En. unfold n. destruct v.
    + rewrite has_lor. assert (has (1 .<< b) 0xF = false) as ->; [|by rewrite orb_false_r].
      apply has_false_iff. change 0xF with (Z.ones 4).
      rewrite Z.land_ones, Z.shiftl_1_l by lia. replace b with ((b - 4) + 4) by lia.
      rewrite Z.pow_add_r by lia. apply Z.mod_mul. lia.
    + symmetry. apply has_clear_other. change 0xF with (Z.ones 4).
      rewrite Z.land_ones, Z.shiftl_1_l by lia. replace b with ((b - 4) + 4) by lia.
      rewrite Z.pow_add_r by lia. apply Z.mod_mul. lia.
Qed.

Lemma keeps_then {A B} (m : M t A) (b : B) : keeps inv inv m -> keeps inv inv (m ;;; ret b).
Proof. intros H. apply keeps_bind with (Q := inv); [done|]. intros _. apply keeps_ret. Qed.

Lemma bus_input_keeps suffix d : keeps inv inv (bus_input suffix d).
Proof.
  unfold bus_input. repeat case_match;
    [|apply set_modem_status_bit_keeps; vm_compute; discriminate..|by apply keeps_ret].
  eapply keeps_weaken; [apply inv_pre|apply data_received_keeps].
Qed.

Lemma write_modem_control_keeps b : keeps inv inv (write_modem_control b).
Proof.
  apply keeps_get. intros s l Hs. revert s l Hs. intros s. cbv zeta.
  apply keeps_bind with (Q := inv); [apply keeps_modify; inv_frame|intros _].
  apply keeps_bind with (Q := inv); [|intros _]; unfold when; case_match; try (by apply keeps_ret);
    by intros s' l Hs.
Qed.

Lemma port_write8_keeps reg b : keeps inv inv (port_write8 reg b).
Proof.
  unfold port_write8. repeat case_match;
    first [ by apply keeps_ret | apply write_data_keeps | apply write_ier_keeps
          | apply write_modem_control_keeps | apply keeps_modify; inv_frame ].
Qed.

Lemma port_read8_keeps reg : keeps inv inv (port_read8 reg).
Proof.
  unfold port_read8. repeat case_match;
    first [ by apply keeps_ret | by intros s l Hs | apply read_data_keeps
          | apply read_modem_status_keeps | apply read_iir_keeps | idtac ].
  apply keeps_get. intros s l Hs. by destruct (has _ _).
Qed.

Lemma run_op_keeps o : keeps inv inv (run_op o).
Proof.
  destruct o; cbn [run_op].
  - apply keeps_then, port_write8_keeps.
  - apply keeps_then. apply keeps_bind with (Q := inv); [|intros _]; apply write_data_keeps.
  - apply port_read8_keeps.
  - apply keeps_then, bus_input_keeps.
Qed.

Definition run_ops (ops : list op) : M t unit := mfor ops (fun o => run_op o ;;; skip).

Lemma run_ops_keeps ops : keeps inv inv (run_ops ops).
Proof.
  induction ops as [|o ops IH]; [apply keeps_ret|]. apply keeps_bind with (Q := inv); [|by intros _].
  apply keeps_then, run_op_keeps.
Qed.

Lemma uart_create_inv port : inv (create port) false.
Proof. split; [split|..]; done. Qed.

(** C1: After any sequence of guest accesses and host messages, the interrupt
    identification register is the priority encoding (character timeout, data,
    transmitter, modem) of the pending interrupts that are enabled, and the
    interrupt line, as raised and lowered along the way, is asserted exactly
    when that register reports an interrupt.  Line status always reports an
    empty transmitter, and data ready exactly when bytes wait in the queue; a
    receive interrupt is pending exactly then, and a modem interrupt exactly
    when some delta bit is set. *)
Theorem uart_interrupts (port : Z) (ops : list op) :
  let s := exec (run_ops ops) (create port) in
  let line := line_level (irq (create port)) false (evs (run_ops ops) (create port)) in
  iir s = encode (ints s) (ier s)
  /\ line = negb (iir s =? UART_IIR_NO_INT)
  /\ lsr s = 0x60 .| b2z (nonempty s)
  /\ has (ints s) 0x1000 || has (ints s) 0x10 = nonempty s
  /\ has (ints s) 1 = has (modem_status s) 0xF.
Proof.
  destruct (run_ops_keeps ops _ _ (uart_create_inv port)) as [[[H1 H2 H3] H4 H5] _]. done.
Qed.

(** ** The receive queue *)

(** The bytes an operation puts into the queue: from the host, or from the
    guest itself in loopback mode. *)
Definition received (o : op) (s : t) : list Z :=
  let loop := negb (has (line_control s) DLAB) && has (modem_control s) UART_MCR_LOOPBACK in
  match o with
  | Write8 reg b => if (reg =? 0) && loop then [b] else []
  | Write16 w => if loop then [w .& 0xFF; w .>> 8] else []
  | Read8 _ => []
  | Input suffix d => if String.eqb suffix "-input" then [d] else []
  end.

(** The byte a read of the data port takes out. *)
Definition delivered (o : op) (s : t) : list Z :=
  match o with
  | Read8 0 => if has (line_control s) DLAB then [] else if nonempty s then [res (run_op o) s] else []
  | _ => []
  end.

Fixpoint all_received (ops : list op) (s : t) : list Z :=
  match ops with
  | [] => []
  | o :: ops => received o s ++ all_received ops (exec (run_op o) s)
  end.
Fixpoint all_delivered (ops : list op) (s : t) : list Z :=
  match ops with
  | [] => []
  | o :: ops => delivered o s ++ all_delivered ops (exec (run_op o) s)
  end.

Lemma data_received_input d s :
  input (exec (data_received d) s) = input s ++ [d] /\
  line_control (exec (data_received d) s) = line_control s /\
  modem_control (exec (data_received d) s) = modem_control s.
Proof.
  unfold exec, data_received. rewrite !bind_modify, bind_get.
  case_match; by rewrite ThrowInterrupt_spec.
Qed.

Lemma write_data_input b s :
  let loop := negb (has (line_control s) DLAB) && has (modem_control s) UART_MCR_LOOPBACK in
  input (exec (write_data b) s) = input s ++ (if loop then [b] else []) /\
  line_control (exec (write_data b) s) = line_control s /\
  modem_control (exec (write_data b) s) = modem_control s.
Proof.
  cbv zeta. unfold write_data, exec at 1 2 3. rewrite bind_get.
  destruct (has (line_control s) DLAB); cbn [negb andb]; [by rewrite app_nil_r|].
  fold (exec (S := t) (A := unit)).
  destruct (has (modem_control s) UART_MCR_LOOPBACK).
  - unfold bind. cbn [fst snd].
    pose proof (data_received_input b (exec (ThrowInterrupt UART_IIR_THRI) s)) as Hd.
    unfold exec in *. rewrite ThrowInterrupt_spec in *. exact Hd.
  - unfold bind. cbn [fst snd emit]. unfold exec. rewrite ThrowInterrupt_spec. cbn. by rewrite app_nil_r.
Qed.

Lemma exec_then {A B} (m : M t A) (b : B) s : exec (m ;;; ret b) s = exec m s.
Proof. done. Qed.

Lemma set_modem_status_bit_input b v s : input (exec (set_modem_status_bit b v) s) = input s.
Proof.
  unfold exec, set_modem_status_bit. rewrite bind_get, bind_modify, bind_get. unfold when.
  case_match; [by rewrite ThrowInterrupt_spec|done].
Qed.

Lemma write_ier_input b s : input (exec (write_ier b) s) = input s.
Proof.
  unfold exec, write_ier. rewrite bind_get. case_match; [done|]. unfold when. case_match.
  - unfold bind, exec, res, evs. rewrite ThrowInterrupt_spec. cbn -[CheckInterrupt].
    by rewrite CheckInterrupt_spec.
  - rewrite bind_skip, bind_modify. by rewrite CheckInterrupt_spec.
Qed.

Lemma read_iir_input s : input (exec read_iir s) = input s.
Proof.
  unfold exec, read_iir. rewrite bind_get. cbv zeta. unfold when. case_match.
  - unfold bind, exec, res, evs. by rewrite ClearInterrupt_spec.
  - by rewrite bind_skip, bind_get.
Qed.

Lemma read_ier_input s : input (exec read_ier s) = input s.
Proof. unfold exec, read_ier. rewrite bind_get. by case_match. Qed.

Lemma read_modem_status_input s : input (exec read_modem_status s) = input s.
Proof.
  unfold exec, read_modem_status. rewrite bind_get. cbv zeta. rewrite bind_modify.
  unfold bind, exec. by rewrite ClearInterrupt_spec.
Qed.

Lemma read_data_queue s :
  delivered (Read8 0) s ++ input (exec read_data s) = input s.
Proof.
  cbn [delivered run_op port_read8]. unfold exec, res, read_data, nonempty. rewrite bind_get.
  destruct (has (line_control s) DLAB); [done|].
  destruct (input s) as [|d [|d' rest]] eqn:Ein;
    unfold bind, exec, evs, res; cbn -[ClearInterrupt]; rewrite ?Ein; cbn -[ClearInterrupt];
    rewrite ?ClearInterrupt_spec; by cbn.
Qed.

Lemma queue_step o s :
  input s ++ received o s = delivered o s ++ input (exec (run_op o) s).
Proof.
  destruct o as [reg b|w|reg|suffix d]; cbn [run_op received]; rewrite ?exec_then.
  - cbn [delivered]. destruct (Z.eqb_spec reg 0) as [->|Hne].
    + cbn [port_write8 andb app]. by rewrite (proj1 (write_data_input b s)).
    + cbn [andb app]. rewrite app_nil_r. unfold port_write8.
      repeat case_match; rewrite ?write_ier_input; try done.
      unfold write_modem_control, exec. rewrite bind_get. cbv zeta. rewrite bind_modify.
      unfold when. by repeat case_match.
  - cbn [delivered]. unfold port_write16. rewrite exec_bind.
    destruct (write_data_input (w .& 0xFF) s) as (H1 & H2 & H3).
    rewrite (proj1 (write_data_input (w .>> 8) _)), H1, H2, H3.
    case_match; [by rewrite <- app_assoc|by rewrite !app_nil_r].
  - rewrite app_nil_r. destruct (Z.eq_dec reg 0) as [->|Hne]; [by rewrite read_data_queue|].
    unfold delivered, port_read8.
    repeat case_match; rewrite ?read_ier_input, ?read_modem_status_input, ?read_iir_input; done.
  - cbn [delivered]. unfold bus_input. case_match; [by rewrite (proj1 (data_received_input d s))|].
    rewrite app_nil_r. repeat case_match; by rewrite ?set_modem_status_bit_input.
Qed.

(** C14: No byte is lost, duplicated or reordered by the receiver.  Over any
    sequence of operations from any state, the bytes already queued followed by
    those received meanwhile (from the host, or looped back) are exactly the
    bytes the guest read from the data port followed by those still queued. *)
Theorem uart_fifo (ops : list op) (s : t) :
  input s ++ all_received ops s = all_delivered ops s ++ input (exec (run_ops ops) s).
Proof.
  revert s. induction ops as [|o ops IH]; intros s; cbn [all_received all_delivered].
  - by rewrite app_nil_r.
  - change (exec (run_ops (o :: ops)) s) with (exec (run_ops ops) (exec (run_op o) s)).
    rewrite app_assoc, (queue_step o s), <- !app_assoc. f_equal. apply IH.
Qed.

(** ** Modem lines *)

(** A modem line (4 to 7) set or cleared by the host appears in the upper
    nibble of the modem status; its delta bit becomes set if the line
    changed and stays as it was otherwise; no other bit of the register changes; and the guest's next read
    of the register returns it and clears the delta bits only. *)
Theorem uart_modem_status (s : t) (b : Z) (v : bool) (i : Z)
    (Hb : 4 <= b <= 7) (Hs : byte (modem_status s)) (Hi : 0 <= i < 8) :
  let s' := exec (set_modem_status_bit b v) s in
  Z.testbit (modem_status s') i =
    (if i =? b then v
     else if i =? b - 4 then Z.testbit (modem_status s) i || xorb v (Z.testbit (modem_status s) b)
     else Z.testbit (modem_status s) i)
  /\ res read_modem_status s' = modem_status s'
  /\ modem_status (exec read_modem_status s') = modem_status s' .& 0xF0.
Proof.
  cbv zeta. split; [|split].
  - unfold exec, set_modem_status_bit. rewrite bind_get, bind_modify, bind_get. unfold when.
    set (n := if v then _ else _). set (ms := n .| (modem_status s .^ n) .>> 4).
    assert (Z.testbit ms i = if i =? b then v
     else if i =? b - 4 then Z.testbit (modem_status s) i || xorb v (Z.testbit (modem_status s) b)
     else Z.testbit (modem_status s) i) as H;
     [|destruct (has (modem_status _) 0x0F); [rewrite ThrowInterrupt_spec|]; exact H].
    unfold ms. rewrite Z.lor_spec, Z.shiftr_spec, Z.lxor_spec by lia.
    assert (forall j, 0 <= j -> Z.testbit n j = if j =? b then v else Z.testbit (modem_status s) j) as Hn.
    { intros j Hj. unfold n. rewrite Z.shiftl_1_l.
      destruct (Z.eqb_spec j b) as [->|Hne].
      - destruct v; [rewrite Z.lor_spec|rewrite Z.land_spec, Z.lnot_spec by lia];
          rewrite Z.pow2_bits_true by lia; [by rewrite orb_true_r|by rewrite andb_false_r].
      - destruct v; [rewrite Z.lor_spec|rewrite Z.land_spec, Z.lnot_spec by lia];
          rewrite Z.pow2_bits_false by lia; [by rewrite orb_false_r|by rewrite andb_true_r]. }
    rewrite !Hn by lia. unfold byte in Hs.
    destruct (Z.eqb_spec i b), (Z.eqb_spec (i + 4) b), (Z.eqb_spec i (b - 4)); try lia.
    + rewrite xorb_nilpotent. by rewrite orb_false_r.
    + replace (i + 4) with b by lia. f_equal. by destruct v, (Z.testbit (modem_status s) b).
    + rewrite xorb_nilpotent. by rewrite orb_false_r.
  - done.
  - unfold exec at 1, read_modem_status. rewrite bind_get. cbv zeta. rewrite bind_modify.
    unfold bind, exec. by rewrite ClearInterrupt_spec.
Qed.

Lemma uart_modem_status_witness :
  modem_status (exec (set_modem_status_bit UART_MSR_CTS true) (create 0x3F8)) .& 0xF0 = 0x10.
Proof.
  destruct (uart_modem_status (create 0x3F8) UART_MSR_CTS true 4) as (H1 & H2 & H3).
  - split; vm_compute; discriminate.
  - split; vm_compute; done.
  - lia.
  - rewrite <- H3. vm_compute. reflexivity.
Defined.

(** ** The divisor latch *)

Lemma write_data_dlab b s : has (line_control s) DLAB = true ->
  write_data b s = (tt, s <| baud_rate := baud_rate s .& ~. 0xFF .| b |>, []).
Proof. intros H. unfold write_data. by rewrite bind_get, H. Qed.

Lemma write_ier_dlab b s : has (line_control s) DLAB = true ->
  write_ier b s = (tt, s <| baud_rate := baud_rate s .& 0xFF .| b .<< 8 |>, []).
Proof. intros H. unfold write_ier. by rewrite bind_get, H. Qed.

Lemma read_dlab s : has (line_control s) DLAB = true ->
  read_data s = (baud_rate s .& 0xFF, s, []) /\ read_ier s = (baud_rate s .>> 8, s, []).
Proof. intros H. unfold read_data, read_ier. by rewrite !bind_get, H. Qed.

(** The baud rate divisor round-trips through the data and interrupt enable
    ports while DLAB is set, in either order of the two writes, and touches
    nothing else: no byte is sent, no interrupt is signalled. *)
Theorem uart_divisor_latch (s : t) (lo hi : Z)
    (Hd : has (line_control s) DLAB = true) (Hlo : byte lo) (Hhi : byte hi) :
  let v := lo + 256 * hi in
  (port_write8 0 lo ;;; port_write8 1 hi) s = (tt, s <| baud_rate := v |>, [])
  /\ (port_write8 1 hi ;;; port_write8 0 lo) s = (tt, s <| baud_rate := v |>, [])
  /\ res (l <-- port_read8 0 ;; h <-- port_read8 1 ;; ret (l, h)) (s <| baud_rate := v |>) = (lo, hi).
Proof.
  unfold byte in *. cbn [port_write8 port_read8]. split_and!.
  - erewrite bind_quiet by (by apply write_data_dlab). rewrite write_ier_dlab by done.
    cbn [baud_rate]. replace (_ .| hi .<< 8) with (lo + 256 * hi); [done|].
    change (baud_rate (s <| baud_rate := ?x |>)) with x.
    rewrite Z.land_lor_distr_l, <- Z.land_assoc. change (~. 0xFF .& 0xFF) with 0.
    rewrite Z.land_0_r, Z.lor_0_l, land_ff, Z.mod_small, lor_shiftl_add by lia. lia.
  - erewrite bind_quiet by (by apply write_ier_dlab). rewrite write_data_dlab by done.
    replace (_ .| lo) with (lo + 256 * hi); [done|].
    change (baud_rate (s <| baud_rate := ?x |>)) with x.
    rewrite Z.land_lor_distr_l, <- Z.land_assoc. change (0xFF .& ~. 0xFF) with 0.
    rewrite Z.land_0_r, Z.lor_0_l, (land_lnot_ones _ 8), Z.shiftl_mul_pow2, Z.div_mul by lia.
    rewrite Z.lor_comm, <- Z.shiftl_mul_pow2, lor_shiftl_add by lia. lia.
  - unfold res. set (s' := s <| baud_rate := lo + 256 * hi |>).
    assert (has (line_control s') DLAB = true) as Hd' by exact Hd.
    destruct (read_dlab s' Hd') as [H1 H2].
    erewrite bind_quiet by exact H1. erewrite bind_quiet by exact H2. cbn [fst ret].
    change (baud_rate s') with (lo + 256 * hi).
    rewrite land_ff, Z.shiftr_div_pow2, Z.mul_comm, Z.mod_add, Z.mod_small by lia.
    change (2 ^ 8) with 256. rewrite Z.div_add, Z.div_small by lia. done.
Qed.

Lemma uart_divisor_latch_witness :
  res (port_write8 3 0x83 ;;; port_write8 0 0x0C ;;; port_write8 1 0x01 ;;; port_read8 0) (create 0x3F8) = 0x0C.
Proof.
  set (s := exec (port_write8 3 0x83) (create 0x3F8)).
  assert (has (line_control s) DLAB = true) as Hd by (vm_compute; reflexivity).
  destruct (uart_divisor_latch s 0x0C 0x01 Hd ltac:(unfold byte; lia) ltac:(unfold byte; lia)) as (H1 & _ & H3).
  vm_compute. reflexivity.
Defined.

End Uart.
