(* ===== verification/Ps2.v ===== *)
(** * src/ps2.js: the 8042 controller with its keyboard and mouse

    Both ports, every command, the messages of the host side and the two byte
    queues (the ring buffers of Lib.v).  The movement accumulators are exact
    rationals; wheel steps are integers.  The time of the last mouse packet,
    which nothing reads, and debug logging are left out. *)

From Stdlib Require Import QArith.
From S2P Require Import Prelude Lib.

Set Default Goal Selector "!".
Open Scope Z_scope.

Module Ps2.

Record t := mk {
  enable_mouse_stream : bool;
  use_mouse : bool;
  have_mouse : bool;
  mouse_delta_x : Q;
  mouse_delta_y : Q;
  mouse_clicks : Z;
  have_keyboard : bool;
  enable_keyboard_stream : bool;
  next_is_mouse_command : bool;
  next_read_sample : bool;
  next_read_led : bool;
  next_handle_scan_code_set : bool;
  next_read_rate : bool;
  next_read_resolution : bool;
  kbd_buffer : ByteQueue.t;
  last_port60_byte : Z;
  sample_rate : Z;
  mouse_detect_state : Z;
  mouse_id : Z;
  mouse_reset_workaround : bool;
  wheel_movement : Z;
  resolution : Z;
  scaling2 : bool;
  mouse_buffer : ByteQueue.t;
  next_byte_is_ready : bool;
  next_byte_is_aux : bool;
  command_register : Z;
  controller_output_port : Z;
  read_output_register : bool;
  read_command_register : bool;
  read_controller_output_port : bool
}.

(** [reset] assigns every field. *)
Definition create : t :=
  mk false false true 0%Q 0%Q 0 true false false false false false false false
     (ByteQueue.create 1024) 0 100 0 0 false 0 4 false (ByteQueue.create 1024)
     false false (1 .| 4) 0 false false false.

Definition reset : M t unit := put create.

(** ** State images *)

Inductive item := IBool (b : bool) | INum (z : Z) | IQ (q : Q) | IHole.

Definition get_state (s : t) : list item :=
  [ IBool (enable_mouse_stream s); IBool (use_mouse s); IBool (have_mouse s);
    IQ (mouse_delta_x s); IQ (mouse_delta_y s); INum (mouse_clicks s);
    IBool (have_keyboard s); IBool (enable_keyboard_stream s);
    IBool (next_is_mouse_command s); IBool (next_read_sample s); IBool (next_read_led s);
    IBool (next_handle_scan_code_set s); IBool (next_read_rate s);
    IBool (next_read_resolution s); IHole; INum (last_port60_byte s);
    INum (sample_rate s); INum (resolution s); IBool (scaling2 s); IHole;
    INum (command_register s); IBool (read_output_register s);
    IBool (read_command_register s); INum (controller_output_port s);
    IBool (read_controller_output_port s); INum (mouse_id s);
    INum (mouse_detect_state s); IBool (mouse_reset_workaround s) ].

Definition set_state (state : list item) (s : t) : option (t * list event) :=
  match state with
  | [ IBool a0; IBool a1; IBool a2; IQ a3; IQ a4; INum a5; IBool a6; IBool a7; IBool a8;
      IBool a9; IBool a10; IBool a11; IBool a12; IBool a13; _; INum a15; INum a16; INum a17;
      IBool a18; _; INum a20; IBool a21; IBool a22; INum a23; IBool a24; INum a25; INum a26;
      IBool a27 ] =>
      Some (mk a0 a1 a2 a3 a4 a5 a6 a7 a8 a9 a10 a11 a12 a13
              (ByteQueue.clear (kbd_buffer s)) a15 a16 a26 a25 a27 (wheel_movement s) a17 a18
              (ByteQueue.clear (mouse_buffer s)) false false a20 a23 a21 a22 a24,
            [BusSend "mouse-enable" (PBool a1)])
  | _ => None
  end.

(** ** The output buffer *)

Definition mouse_stream_active (s : t) : bool :=
  enable_mouse_stream s && negb (has (command_register s) 0x20).

Definition kbd_push (b : Z) : M t unit :=
  modify (fun s => s <| kbd_buffer := ByteQueue.push (kbd_buffer s) b |>).
Definition mouse_push (b : Z) : M t unit :=
  modify (fun s => s <| mouse_buffer := ByteQueue.push (mouse_buffer s) b |>).
Definition kbd_clear : M t unit :=
  modify (fun s => s <| kbd_buffer := ByteQueue.clear (kbd_buffer s) |>).
Definition mouse_clear : M t unit :=
  modify (fun s => s <| mouse_buffer := ByteQueue.clear (mouse_buffer s) |>).

Definition mouse_irq : M t unit :=
  modify (fun s => s <| next_byte_is_ready := true |> <| next_byte_is_aux := true |>) ;;;
  s <-- get ;;
  when (has (command_register s) 2)
    (emit (DeviceLowerIrq 12) ;;; emit (DeviceRaiseIrq 12)).

Definition kbd_irq : M t unit :=
  modify (fun s => s <| next_byte_is_ready := true |> <| next_byte_is_aux := false |>) ;;;
  s <-- get ;;
  when (has (command_register s) 1)
    (emit (DeviceLowerIrq 1) ;;; emit (DeviceRaiseIrq 1)).

Definition raise_irq : M t unit :=
  s <-- get ;;
  if next_byte_is_ready s then skip
  else if negb (ByteQueue.length (kbd_buffer s) =? 0) then kbd_irq
  else if negb (ByteQueue.length (mouse_buffer s) =? 0) then mouse_irq
  else skip.

(** ** The host side *)

Definition kbd_send_code (code : Z) : M t unit :=
  s <-- get ;;
  when (enable_keyboard_stream s) (kbd_push code ;;; raise_irq).

Definition send_mouse_packet (dx dy : Z) : M t unit :=
  s <-- get ;;
  let info_byte :=
    (b2z (dy <? 0) .<< 5) .| (b2z (dx <? 0) .<< 4) .| (1 .<< 3) .| mouse_clicks s in
  mouse_push info_byte ;;;
  mouse_push dx ;;;
  mouse_push dy ;;;
  (if mouse_id s =? 0x04 then
     mouse_push ((0 .<< 5) .| (0 .<< 4) .| (wheel_movement s .& 0x0F)) ;;;
     modify (fun s => s <| wheel_movement := 0 |>)
   else if mouse_id s =? 0x03 then
     mouse_push (wheel_movement s .& 0xFF) ;;;
     modify (fun s => s <| wheel_movement := 0 |>)
   else skip) ;;;
  raise_irq.

(** [x | 0] on a fractional number: truncation, then ToInt32. *)
Definition trunc32 (q : Q) : Z := i32 (Z.quot (Qnum q) (Zpos (Qden q))).

Definition mouse_send_delta (delta_x delta_y : Q) : M t unit :=
  s <-- get ;;
  if negb (have_mouse s) || negb (use_mouse s) then skip
  else
    modify (fun s => s <| mouse_delta_x := Qred (mouse_delta_x s + delta_x) |>
                       <| mouse_delta_y := Qred (mouse_delta_y s + delta_y) |>) ;;;
    s <-- get ;;
    when (mouse_stream_active s)
      (let change_x := trunc32 (mouse_delta_x s) in
       let change_y := trunc32 (mouse_delta_y s) in
       when (negb (change_x =? 0) || negb (change_y =? 0))
         (modify (fun s => s <| mouse_delta_x := Qred (mouse_delta_x s - inject_Z change_x) |>
                             <| mouse_delta_y := Qred (mouse_delta_y s - inject_Z change_y) |>) ;;;
          send_mouse_packet change_x change_y)).

Definition mouse_send_click (left_ middle right_ : bool) : M t unit :=
  s <-- get ;;
  if negb (have_mouse s) || negb (use_mouse s) then skip
  else
    modify (fun s => s <| mouse_clicks := b2z left_ .| (b2z right_ .<< 1) .| (b2z middle .<< 2) |>) ;;;
    s <-- get ;;
    when (mouse_stream_active s) (send_mouse_packet 0 0).

Definition mouse_wheel (d0 d1 : Z) : M t unit :=
  s <-- get ;;
  if negb (have_mouse s) || negb (use_mouse s) || negb (mouse_stream_active s) then skip
  else
    modify (fun s => s <| wheel_movement :=
      Z.min 7 (Z.max (-8) (wheel_movement s - d0 - d1 * 2)) |>) ;;;
    send_mouse_packet 0 0.

Definition apply_scaling2 (n : Z) : Z :=
  let sign := n .>> 31 in
  match Z.abs n with
  | 0 | 1 | 3 => n
  | 2 => sign
  | 4 => 6 * sign
  | 5 => 9 * sign
  | _ => shl32 n 1
  end.

(** ** Port 0x60 *)

(** The byte announced leaves its queue. *)
Definition take_byte : M t unit :=
  s <-- get ;;
  if next_byte_is_aux s then
    emit (DeviceLowerIrq 12) ;;;
    modify (fun s => s <| last_port60_byte := (ByteQueue.shift (mouse_buffer s)).1 |>
                       <| mouse_buffer := (ByteQueue.shift (mouse_buffer s)).2 |>)
  else
    emit (DeviceLowerIrq 1) ;;;
    modify (fun s => s <| last_port60_byte := (ByteQueue.shift (kbd_buffer s)).1 |>
                       <| kbd_buffer := (ByteQueue.shift (kbd_buffer s)).2 |>).

Definition port60_read : M t Z :=
  modify (fun s => s <| next_byte_is_ready := false |>) ;;;
  s <-- get ;;
  if (ByteQueue.length (kbd_buffer s) =? 0) && (ByteQueue.length (mouse_buffer s) =? 0) then
    ret (last_port60_byte s)
  else
    take_byte ;;;
    s <-- get ;;
    when (negb (ByteQueue.length (kbd_buffer s) =? 0) || negb (ByteQueue.length (mouse_buffer s) =? 0))
      raise_irq ;;;
    s <-- get ;;
    ret (last_port60_byte s).

Definition port64_read : M t Z :=
  s <-- get ;;
  let status_byte := 0x10 in
  let status_byte := if next_byte_is_ready s then status_byte .| 0x1 else status_byte in
  let status_byte := if next_byte_is_aux s then status_byte .| 0x20 else status_byte in
  ret status_byte.

(** The [switch] on [mouse_detect_state] while a sample rate is set. *)
Definition detect_mouse (write_byte : Z) : M t unit :=
  s <-- get ;;
  match mouse_detect_state s with
  | -1 =>
      if write_byte =? 60 then
        modify (fun s => s <| mouse_reset_workaround := true |> <| mouse_detect_state := 0 |>)
      else
        modify (fun s => s <| mouse_reset_workaround := false |>
                           <| mouse_detect_state := if write_byte =? 200 then 1 else 0 |>)
  | 0 => when (write_byte =? 200) (modify (fun s => s <| mouse_detect_state := 1 |>))
  | 1 =>
      if write_byte =? 100 then modify (fun s => s <| mouse_detect_state := 2 |>)
      else if write_byte =? 200 then modify (fun s => s <| mouse_detect_state := 3 |>)
      else modify (fun s => s <| mouse_detect_state := 0 |>)
  | 2 =>
      when (write_byte =? 80) (modify (fun s => s <| mouse_id := 0x03 |>)) ;;;
      modify (fun s => s <| mouse_detect_state := -1 |>)
  | 3 =>
      when (write_byte =? 80) (modify (fun s => s <| mouse_id := 0x04 |>)) ;;;
      modify (fun s => s <| mouse_detect_state := -1 |>)
  | _ => skip
  end.

Definition clear_movement : M t unit :=
  modify (fun s => s <| mouse_clicks := 0 |> <| mouse_delta_x := 0%Q |> <| mouse_delta_y := 0%Q |>).

(** The [switch] of a byte sent to the mouse. *)
Definition mouse_command (write_byte : Z) : M t unit :=
  match write_byte with
  | 0xE6 => modify (fun s => s <| scaling2 := false |>)
  | 0xE7 => modify (fun s => s <| scaling2 := true |>)
  | 0xE8 => modify (fun s => s <| next_read_resolution := true |>)
  | 0xE9 | 0xEB => send_mouse_packet 0 0
  | 0xF2 =>
      s <-- get ;;
      mouse_push (mouse_id s) ;;;
      clear_movement ;;;
      raise_irq
  | 0xF3 => modify (fun s => s <| next_read_sample := true |>)
  | 0xF4 =>
      modify (fun s => s <| enable_mouse_stream := true |> <| use_mouse := true |>) ;;;
      emit (BusSend "mouse-enable" (PBool true)) ;;;
      clear_movement
  | 0xF5 => modify (fun s => s <| enable_mouse_stream := false |>)
  | 0xF6 =>
      modify (fun s => s <| enable_mouse_stream := false |> <| sample_rate := 100 |>
                         <| scaling2 := false |> <| resolution := 4 |>)
  | 0xFF =>
      mouse_push 0xAA ;;;
      mouse_push 0 ;;;
      modify (fun s => s <| use_mouse := true |>) ;;;
      emit (BusSend "mouse-enable" (PBool true)) ;;;
      modify (fun s => s <| enable_mouse_stream := false |> <| sample_rate := 100 |>
                         <| scaling2 := false |> <| resolution := 4 |>) ;;;
      s <-- get ;;
      when (negb (mouse_reset_workaround s)) (modify (fun s => s <| mouse_id := 0x00 |>)) ;;;
      clear_movement
  | _ => skip
  end.

(** The [switch] of a byte sent to the keyboard. *)
Definition kbd_command (write_byte : Z) : M t unit :=
  match write_byte with
  | 0xED => modify (fun s => s <| next_read_led := true |>)
  | 0xF0 => modify (fun s => s <| next_handle_scan_code_set := true |>)
  | 0xF2 => kbd_push 0xAB ;;; kbd_push 0x83
  | 0xF3 => modify (fun s => s <| next_read_rate := true |>)
  | 0xF4 => modify (fun s => s <| enable_keyboard_stream := true |>)
  | 0xF5 => modify (fun s => s <| enable_keyboard_stream := false |>)
  | 0xFF => kbd_clear ;;; kbd_push 0xFA ;;; kbd_push 0xAA ;;; kbd_push 0
  | _ => skip
  end.

Definition port60_write (write_byte : Z) : M t unit :=
  s <-- get ;;
  if read_command_register s then
    modify (fun s => s <| command_register := write_byte |> <| read_command_register := false |>)
  else if read_output_register s then
    modify (fun s => s <| read_output_register := false |>) ;;;
    mouse_clear ;;;
    mouse_push write_byte ;;;
    mouse_irq
  else if next_read_sample s then
    modify (fun s => s <| next_read_sample := false |>) ;;;
    mouse_clear ;;;
    mouse_push 0xFA ;;;
    modify (fun s => s <| sample_rate := write_byte |>) ;;;
    detect_mouse write_byte ;;;
    s <-- get ;;
    when (sample_rate s =? 0) (modify (fun s => s <| sample_rate := 100 |>)) ;;;
    mouse_irq
  else if next_read_resolution s then
    modify (fun s => s <| next_read_resolution := false |>) ;;;
    mouse_clear ;;;
    mouse_push 0xFA ;;;
    (if 3 <? write_byte then modify (fun s => s <| resolution := 4 |>)
     else modify (fun s => s <| resolution := 1 .<< write_byte |>)) ;;;
    mouse_irq
  else if next_read_led s then
    modify (fun s => s <| next_read_led := false |>) ;;;
    kbd_push 0xFA ;;;
    kbd_irq
  else if next_handle_scan_code_set s then
    modify (fun s => s <| next_handle_scan_code_set := false |>) ;;;
    kbd_push 0xFA ;;;
    kbd_irq ;;;
    when (write_byte =? 0) (kbd_push 1)
  else if next_read_rate s then
    modify (fun s => s <| next_read_rate := false |>) ;;;
    kbd_push 0xFA ;;;
    kbd_irq
  else if next_is_mouse_command s then
    modify (fun s => s <| next_is_mouse_command := false |>) ;;;
    when (have_mouse s)
      (kbd_clear ;;;
       mouse_clear ;;;
       mouse_push 0xFA ;;;
       mouse_command write_byte ;;;
       mouse_irq)
  else if read_controller_output_port s then
    modify (fun s => s <| read_controller_output_port := false |>
                       <| controller_output_port := write_byte |>)
  else
    mouse_clear ;;;
    kbd_clear ;;;
    kbd_push 0xFA ;;;
    kbd_command write_byte ;;;
    kbd_irq.

(** ** Port 0x64 *)

(** An answer of the controller itself. *)
Definition answer (b : Z) : M t unit := kbd_clear ;;; mouse_clear ;;; kbd_push b ;;; kbd_irq.

Definition port64_write (write_byte : Z) : M t unit :=
  match write_byte with
  | 0x20 => s <-- get ;; answer (command_register s)
  | 0x60 => modify (fun s => s <| read_command_register := true |>)
  | 0xD0 => s <-- get ;; answer (controller_output_port s)
  | 0xD1 => modify (fun s => s <| read_controller_output_port := true |>)
  | 0xD3 => modify (fun s => s <| read_output_register := true |>)
  | 0xD4 => modify (fun s => s <| next_is_mouse_command := true |>)
  | 0xA7 => modify (fun s => s <| command_register := command_register s .| 0x20 |>)
  | 0xA8 => modify (fun s => s <| command_register := command_register s .& ~. 0x20 |>)
  | 0xA9 => answer 0
  | 0xAA => answer 0x55
  | 0xAB => answer 0
  | 0xAD => modify (fun s => s <| command_register := command_register s .| 0x10 |>)
  | 0xAE => modify (fun s => s <| command_register := command_register s .& ~. 0x10 |>)
  | 0xFE => emit (CpuReboot "8042")
  | _ => skip
  end.

(** ** The invariant *)

Definition klen (s : t) : Z := ByteQueue.length (kbd_buffer s).
Definition mlen (s : t) : Z := ByteQueue.length (mouse_buffer s).

(** Registers within their ranges, queues well formed. *)
Record regs (s : t) : Prop := {
  regs_kbd : ByteQueue.wf (kbd_buffer s);
  regs_mouse : ByteQueue.wf (mouse_buffer s);
  regs_id : mouse_id s = 0 \/ mouse_id s = 3 \/ mouse_id s = 4;
  regs_detect : -1 <= mouse_detect_state s <= 3;
  regs_resolution : resolution s = 1 \/ resolution s = 2 \/ resolution s = 4 \/ resolution s = 8;
  regs_rate : 1 <= sample_rate s <= 255;
  regs_wheel : -8 <= wheel_movement s <= 7;
  regs_command : byte (command_register s);
  regs_output : byte (controller_output_port s);
  regs_last : byte (last_port60_byte s)
}.

(** A byte announced is a byte there. *)
Definition half (s : t) : Prop :=
  regs s /\ (next_byte_is_ready s = true -> if next_byte_is_aux s then mlen s <> 0 else klen s <> 0).
(** And every byte there is announced. *)
Definition inv (s : t) : Prop :=
  half s /\ (next_byte_is_ready s = false -> klen s = 0 /\ mlen s = 0).

Definition kbd_waiting (s : t) : Prop := regs s /\ klen s <> 0.
Definition mouse_waiting (s : t) : Prop := regs s /\ mlen s <> 0.

(** The queue after a push is not empty. *)
Ltac regs_update :=
  match goal with H : regs _ |- _ => destruct H end;
  split; cbn; auto using ByteQueue.bq_push_wf, ByteQueue.clear_wf, ByteQueue.shift_wf; try lia.

Lemma kbd_push_regs b : hoare regs (kbd_push b) kbd_waiting.
Proof.
  apply hoare_modify. intros s H. split; [regs_update|].
  apply ByteQueue.push_nonempty. by apply regs_kbd.
Qed.
Lemma mouse_push_regs b : hoare regs (mouse_push b) mouse_waiting.
Proof.
  apply hoare_modify. intros s H. split; [regs_update|].
  apply ByteQueue.push_nonempty. by apply regs_mouse.
Qed.
Lemma kbd_push_half b : hoare half (kbd_push b) half.
Proof.
  apply hoare_modify. intros s [H Hr]. split; [regs_update|]. intros E. specialize (Hr E).
  cbn -[ByteQueue.push klen mlen] in *. destruct (next_byte_is_aux s); [done|].
  apply ByteQueue.push_nonempty. by apply regs_kbd.
Qed.
Lemma mouse_push_half b : hoare half (mouse_push b) half.
Proof.
  apply hoare_modify. intros s [H Hr]. split; [regs_update|]. intros E. specialize (Hr E).
  cbn -[ByteQueue.push klen mlen] in *. destruct (next_byte_is_aux s); [|done].
  apply ByteQueue.push_nonempty. by apply regs_mouse.
Qed.

Lemma kbd_irq_inv : hoare kbd_waiting kbd_irq (fun s => inv s /\ next_byte_is_ready s = true).
Proof.
  intros s [H Hk]. unfold exec, kbd_irq. rewrite bind_modify, bind_get. unfold when.
  case_match; (split; [|done]); (split; [split; [regs_update|done]|done]).
Qed.
Lemma mouse_irq_inv : hoare mouse_waiting mouse_irq inv.
Proof.
  intros s [H Hk]. unfold exec, mouse_irq. rewrite bind_modify, bind_get. unfold when.
  case_match; (split; [split; [regs_update|done]|done]).
Qed.
Lemma kbd_irq_inv' : hoare kbd_waiting kbd_irq inv.
Proof. intros s H. by apply kbd_irq_inv. Qed.

Lemma raise_irq_inv : hoare half raise_irq inv.
Proof.
  apply hoare_get. intros s Hs.
  destruct (next_byte_is_ready s) eqn:Er; [split; [done|]; cbn; congruence|].
  destruct (Z.eqb_spec (ByteQueue.length (kbd_buffer s)) 0); cbn [negb].
  - destruct (Z.eqb_spec (ByteQueue.length (mouse_buffer s)) 0); cbn [negb].
    + by split.
    + apply mouse_irq_inv. by split; [apply Hs|].
  - apply kbd_irq_inv'. by split; [apply Hs|].
Qed.

Lemma inv_half s : inv s -> half s.
Proof. by intros []. Qed.
Lemma inv_regs s : inv s -> regs s.
Proof. by intros [[] _]. Qed.
Lemma kbd_waiting_regs s : kbd_waiting s -> regs s.
Proof. by intros []. Qed.
Lemma mouse_waiting_regs s : mouse_waiting s -> regs s.
Proof. by intros []. Qed.

Lemma regs_clear_mouse : hoare regs mouse_clear regs.
Proof. apply hoare_modify. intros s H. regs_update. Qed.
Lemma regs_clear_kbd : hoare regs kbd_clear regs.
Proof. apply hoare_modify. intros s H. regs_update. Qed.

(** ** Every operation keeps it *)

Lemma wheel_regs : hoare half (modify (fun s => s <| wheel_movement := 0 |>)) half.
Proof. apply hoare_modify. intros s [H Hr]. split; [regs_update|done]. Qed.

Lemma send_mouse_packet_half dx dy : hoare half (send_mouse_packet dx dy) inv.
Proof.
  apply hoare_get_any. intros s0. cbv zeta.
  do 3 (apply hoare_bind with (Q := half); [apply mouse_push_half|intros _]).
  apply hoare_bind with (Q := half); [|intros _; apply raise_irq_inv].
  apply hoare_if; [|apply hoare_if; [|by intros s]];
    (apply hoare_bind with (Q := half); [apply mouse_push_half|intros _; apply wheel_regs]).
Qed.

Lemma mouse_push_waiting b : hoare mouse_waiting (mouse_push b) mouse_waiting.
Proof. eapply hoare_weaken; [apply mouse_waiting_regs|apply mouse_push_regs]. Qed.
Lemma kbd_push_waiting b : hoare kbd_waiting (kbd_push b) kbd_waiting.
Proof. eapply hoare_weaken; [apply kbd_waiting_regs|apply kbd_push_regs]. Qed.

(** Assignments that leave the queues alone. *)
Ltac waiting_update :=
  apply hoare_modify; let H := fresh in intros ? [H ?]; split; [regs_update|done].

Lemma irq_waiting : hoare mouse_waiting mouse_irq mouse_waiting /\ hoare mouse_waiting kbd_irq mouse_waiting.
Proof.
  split; intros s [H Hk]; unfold exec, mouse_irq, kbd_irq; rewrite bind_modify, bind_get;
    unfold when; case_match; (split; [regs_update|done]).
Qed.

Lemma raise_irq_waiting : hoare mouse_waiting raise_irq mouse_waiting.
Proof.
  apply hoare_get_any. intros s0.
  apply hoare_if; [by intros s|]. apply hoare_if; [apply irq_waiting|].
  apply hoare_if; [apply irq_waiting|by intros s].
Qed.

Lemma send_mouse_packet_waiting dx dy : hoare mouse_waiting (send_mouse_packet dx dy) mouse_waiting.
Proof.
  apply hoare_get_any. intros s0. cbv zeta.
  do 3 (apply hoare_bind with (Q := mouse_waiting); [apply mouse_push_waiting|intros _]).
  apply hoare_bind with (Q := mouse_waiting); [|intros _; apply raise_irq_waiting].
  apply hoare_if; [|apply hoare_if; [|by intros s]];
    (apply hoare_bind with (Q := mouse_waiting); [apply mouse_push_waiting|intros _; waiting_update]).
Qed.

Lemma mouse_reset_waiting : hoare mouse_waiting (mouse_command 0xFF) mouse_waiting.
Proof.
  cbn [mouse_command].
  do 2 (apply hoare_bind with (Q := mouse_waiting); [apply mouse_push_waiting|intros _]).
  apply hoare_bind with (Q := mouse_waiting); [waiting_update|intros _].
  apply hoare_bind with (Q := mouse_waiting); [by intros s|intros _].
  apply hoare_bind with (Q := mouse_waiting); [waiting_update|intros _].
  apply hoare_get_any. intros s0.
  apply hoare_bind with (Q := mouse_waiting); [|intros _; unfold clear_movement; waiting_update].
  unfold when. apply hoare_if; [waiting_update|by intros s].
Qed.

Lemma mouse_identify_waiting : hoare mouse_waiting (mouse_command 0xF2) mouse_waiting.
Proof.
  cbn [mouse_command]. apply hoare_get_any. intros s0.
  apply hoare_bind with (Q := mouse_waiting); [apply mouse_push_waiting|intros _].
  apply hoare_bind with (Q := mouse_waiting); [unfold clear_movement; waiting_update|intros _].
  apply raise_irq_waiting.
Qed.

Lemma mouse_enable_waiting : hoare mouse_waiting (mouse_command 0xF4) mouse_waiting.
Proof.
  cbn [mouse_command]. apply hoare_bind with (Q := mouse_waiting); [waiting_update|intros _].
  apply hoare_bind with (Q := mouse_waiting); [by intros s|intros _].
  unfold clear_movement; waiting_update.
Qed.

Lemma mouse_command_waiting b : hoare mouse_waiting (mouse_command b) mouse_waiting.
Proof.
  pose proof mouse_reset_waiting as H1. pose proof mouse_identify_waiting as H2.
  pose proof mouse_enable_waiting as H3. cbn [mouse_command] in H1, H2, H3.
  unfold mouse_command. repeat case_match;
    first [exact H1 | exact H2 | exact H3 | by intros s | apply send_mouse_packet_waiting | waiting_update].
Qed.

Lemma kbd_command_waiting b : hoare kbd_waiting (kbd_command b) kbd_waiting.
Proof.
  unfold kbd_command. repeat case_match; try (by intros s); try waiting_update.
  - apply hoare_bind with (Q := regs).
    + eapply hoare_weaken; [apply kbd_waiting_regs|apply regs_clear_kbd].
    + intros _. apply hoare_bind with (Q := kbd_waiting); [apply kbd_push_regs|intros _].
      apply hoare_bind with (Q := kbd_waiting); [apply kbd_push_waiting|intros _].
      apply kbd_push_waiting.
  - apply hoare_bind with (Q := kbd_waiting); [apply kbd_push_waiting|intros _].
    apply kbd_push_waiting.
Qed.

(** While a sample rate is being set it may be 0. *)
Definition rate_pending (s : t) : Prop :=
  mouse_waiting (s <| sample_rate := 100 |>) /\ 0 <= sample_rate s <= 255.

Lemma detect_mouse_pending b : hoare rate_pending (detect_mouse b) rate_pending.
Proof.
  assert (forall f : t -> t,
    (forall s, regs (s <| sample_rate := 100 |>) -> regs ((f s) <| sample_rate := 100 |>)) ->
    (forall s, mouse_buffer (f s) = mouse_buffer s /\ sample_rate (f s) = sample_rate s) ->
    hoare rate_pending (modify f) rate_pending) as Hm.
  { intros f Hf Hq. apply hoare_modify. intros s [[Hr Hl] Hs]. destruct (Hq s) as [Hb Hs'].
    split; [|by rewrite Hs']. split; [by apply Hf|]. unfold mlen in *. cbn in *. by rewrite Hb. }
  apply hoare_get_any. intros s0. repeat case_match; unfold when;
    repeat first
      [ apply hoare_if
      | by intros s
      | apply Hm; [intros s H'; cbn in H'; destruct H'; split; cbn in *; auto; try (case_match; lia); try lia|done]
      | apply hoare_bind with (Q := rate_pending); [|intros _] ].
Qed.

(** The branches of [port60_write]. *)
Section branches.
Variable (f : t -> t).
Hypothesis (Hf : forall s, regs s -> regs (f s)).

Lemma output_register_inv b : hoare regs (modify f ;;; mouse_clear ;;; mouse_push b ;;; mouse_irq) inv.
Proof.
  apply hoare_bind with (Q := regs); [by apply hoare_modify|intros _].
  apply hoare_bind with (Q := regs); [apply regs_clear_mouse|intros _].
  apply hoare_bind with (Q := mouse_waiting); [apply mouse_push_regs|intros _; apply mouse_irq_inv].
Qed.

Lemma sample_rate_inv b : byte b -> hoare regs
  (modify f ;;; mouse_clear ;;; mouse_push 0xFA ;;; modify (fun s => s <| sample_rate := b |>) ;;;
   detect_mouse b ;;; s <-- get ;;
   when (sample_rate s =? 0) (modify (fun s => s <| sample_rate := 100 |>)) ;;; mouse_irq) inv.
Proof.
  intros Hb. apply hoare_bind with (Q := regs); [by apply hoare_modify|intros _].
  apply hoare_bind with (Q := regs); [apply regs_clear_mouse|intros _].
  apply hoare_bind with (Q := mouse_waiting); [apply mouse_push_regs|intros _].
  apply hoare_bind with (Q := rate_pending).
  { apply hoare_modify. intros s' [H Hl]. unfold byte in Hb. split; [|cbn; lia].
    split; [regs_update|done]. }
  intros _. apply hoare_bind with (Q := rate_pending); [apply detect_mouse_pending|intros _].
  apply hoare_get. intros s' [[H Hl] H0]. rewrite exec_bind. apply mouse_irq_inv.
  unfold when. destruct (Z.eqb_spec (sample_rate s') 0); [by split|]. split; [|done].
  destruct H. cbn in *. split; auto. lia.
Qed.

Lemma resolution_inv b : byte b -> hoare regs
  (modify f ;;; mouse_clear ;;; mouse_push 0xFA ;;;
   (if 3 <? b then modify (fun s => s <| resolution := 4 |>)
    else modify (fun s => s <| resolution := 1 .<< b |>)) ;;; mouse_irq) inv.
Proof.
  intros Hb. apply hoare_bind with (Q := regs); [by apply hoare_modify|intros _].
  apply hoare_bind with (Q := regs); [apply regs_clear_mouse|intros _].
  apply hoare_bind with (Q := mouse_waiting); [apply mouse_push_regs|intros _].
  apply hoare_bind with (Q := mouse_waiting); [|intros _; apply mouse_irq_inv].
  destruct (Z.ltb_spec 3 b); [waiting_update|]. apply hoare_modify. intros s' [H' Hl].
  split; [|done]. unfold byte in Hb.
  assert (b = 0 \/ b = 1 \/ b = 2 \/ b = 3) as [-> | [-> | [-> | ->]]] by lia; regs_update.
Qed.

Lemma ack_inv : hoare regs (modify f ;;; kbd_push 0xFA ;;; kbd_irq) inv.
Proof.
  apply hoare_bind with (Q := regs); [by apply hoare_modify|intros _].
  apply hoare_bind with (Q := kbd_waiting); [apply kbd_push_regs|intros _; apply kbd_irq_inv'].
Qed.

Lemma scan_code_set_inv b : hoare regs
  (modify f ;;; kbd_push 0xFA ;;; kbd_irq ;;; when (b =? 0) (kbd_push 1)) inv.
Proof.
  apply hoare_bind with (Q := regs); [by apply hoare_modify|intros _].
  apply hoare_bind with (Q := kbd_waiting); [apply kbd_push_regs|intros _].
  apply hoare_bind with (Q := fun s => inv s /\ next_byte_is_ready s = true); [apply kbd_irq_inv|intros _].
  unfold when. apply hoare_if; [|by intros s' []]. intros s' [[Hh _] Hrd].
  split; [by apply kbd_push_half|]. cbn. congruence.
Qed.

Lemma mouse_branch_inv b : hoare regs
  (modify f ;;; (kbd_clear ;;; mouse_clear ;;; mouse_push 0xFA ;;; mouse_command b ;;; mouse_irq)) inv.
Proof.
  apply hoare_bind with (Q := regs); [by apply hoare_modify|intros _].
  apply hoare_bind with (Q := regs); [apply regs_clear_kbd|intros _].
  apply hoare_bind with (Q := regs); [apply regs_clear_mouse|intros _].
  apply hoare_bind with (Q := mouse_waiting); [apply mouse_push_regs|intros _].
  apply hoare_bind with (Q := mouse_waiting); [apply mouse_command_waiting|intros _; apply mouse_irq_inv].
Qed.
End branches.

Lemma kbd_branch_inv b : hoare regs
  (mouse_clear ;;; kbd_clear ;;; kbd_push 0xFA ;;; kbd_command b ;;; kbd_irq) inv.
Proof.
  apply hoare_bind with (Q := regs); [apply regs_clear_mouse|intros _].
  apply hoare_bind with (Q := regs); [apply regs_clear_kbd|intros _].
  apply hoare_bind with (Q := kbd_waiting); [apply kbd_push_regs|intros _].
  apply hoare_bind with (Q := kbd_waiting); [apply kbd_command_waiting|intros _; apply kbd_irq_inv'].
Qed.

(** An assignment to fields the queues do not depend on. *)
Ltac inv_update := match goal with H : inv _ |- _ => destruct H as [[] ?] end;
  split; [split; [cbn; regs_update|done]|done].

Lemma port60_write_inv b : byte b -> hoare inv (port60_write b) inv.
Proof.
  intros Hb. apply hoare_get. intros s Hs. pose proof (inv_regs s Hs) as Hr.
  destruct (read_command_register s); [inv_update|].
  destruct (read_output_register s); [apply output_register_inv; [intros; regs_update|done]|].
  destruct (next_read_sample s); [apply sample_rate_inv; [intros; regs_update|done..]|].
  destruct (next_read_resolution s); [apply resolution_inv; [intros; regs_update|done..]|].
  destruct (next_read_led s); [apply ack_inv; [intros; regs_update|done]|].
  destruct (next_handle_scan_code_set s); [apply scan_code_set_inv; [intros; regs_update|done]|].
  destruct (next_read_rate s); [apply ack_inv; [intros; regs_update|done]|].
  destruct (next_is_mouse_command s).
  { destruct (have_mouse s); [apply mouse_branch_inv; [intros; regs_update|done]|]. inv_update. }
  destruct (read_controller_output_port s); [inv_update|]. by apply kbd_branch_inv.
Qed.

Lemma answer_inv b : hoare regs (answer b) inv.
Proof.
  apply hoare_bind with (Q := regs); [apply regs_clear_kbd|intros _].
  apply hoare_bind with (Q := regs); [apply regs_clear_mouse|intros _].
  apply hoare_bind with (Q := kbd_waiting); [apply kbd_push_regs|intros _; apply kbd_irq_inv'].
Qed.

Lemma command_byte c m : byte c -> 0 <= m < 2 ^ 8 -> byte (c .| m) /\ byte (c .& ~. m).
Proof.
  intros Hc Hm. unfold byte in *. split; [by apply lor_bound|].
  pose proof (land_nonneg_l c (~. m)). lia.
Qed.

Lemma port64_write_inv b : hoare inv (port64_write b) inv.
Proof.
  intros s Hs. pose proof (inv_regs s Hs) as Hr.
  destruct (command_byte (command_register s) 0x20 (regs_command s Hr) ltac:(lia)).
  destruct (command_byte (command_register s) 0x10 (regs_command s Hr) ltac:(lia)).
  assert (forall f, hoare inv (bind get (fun s => answer (f s))) inv) as Hq.
  { intros f. apply hoare_get_any. intros s0. eapply hoare_weaken; [apply inv_regs|apply answer_inv]. }
  unfold port64_write. repeat case_match;
    lazymatch goal with
    | |- inv (exec (modify _) _) => inv_update
    | |- inv (exec (answer _) _) => exact (answer_inv _ s Hr)
    | |- inv (exec (bind _ _) _) => exact (Hq _ s Hs)
    | _ => exact Hs
    end.
Qed.

Lemma kbd_send_code_inv c : hoare inv (kbd_send_code c) inv.
Proof.
  apply hoare_get_any. intros s0. unfold when. apply hoare_if; [|by intros s].
  apply hoare_bind with (Q := half); [|intros _; apply raise_irq_inv].
  eapply hoare_weaken; [apply inv_half|apply kbd_push_half].
Qed.

(** An assignment to fields the queues do not depend on, before a packet. *)
Ltac inv_modify :=
  apply hoare_modify; let Hi := fresh "Hi" in intros ? Hi; inv_update.

Lemma packet_inv dx dy : hoare inv (send_mouse_packet dx dy) inv.
Proof. eapply hoare_weaken; [apply inv_half|apply send_mouse_packet_half]. Qed.

Lemma mouse_send_delta_inv dx dy : hoare inv (mouse_send_delta dx dy) inv.
Proof.
  apply hoare_get_any. intros s0. apply hoare_if; [by intros s|].
  apply hoare_bind with (Q := inv); [inv_modify|intros _].
  apply hoare_get_any. intros s1. unfold when. apply hoare_if; [|by intros s].
  cbv zeta. apply hoare_if; [|by intros s].
  apply hoare_bind with (Q := inv); [inv_modify|intros _; apply packet_inv].
Qed.

Lemma mouse_send_click_inv l m r : hoare inv (mouse_send_click l m r) inv.
Proof.
  apply hoare_get_any. intros s0. apply hoare_if; [by intros s|].
  apply hoare_bind with (Q := inv); [inv_modify|intros _].
  apply hoare_get_any. intros s1. unfold when. apply hoare_if; [apply packet_inv|by intros s].
Qed.

Lemma mouse_wheel_inv a b : hoare inv (mouse_wheel a b) inv.
Proof.
  apply hoare_get_any. intros s0. apply hoare_if; [by intros s|].
  apply hoare_bind with (Q := inv); [inv_modify|intros _; apply packet_inv].
Qed.

(** The state in which a read with a byte waiting has taken it from the
    announced queue, before the next byte is announced. *)
Definition taken (s : t) : t :=
  if next_byte_is_aux s
  then s <| next_byte_is_ready := false |>
         <| last_port60_byte := (ByteQueue.shift (mouse_buffer s)).1 |>
         <| mouse_buffer := (ByteQueue.shift (mouse_buffer s)).2 |>
  else s <| next_byte_is_ready := false |>
         <| last_port60_byte := (ByteQueue.shift (kbd_buffer s)).1 |>
         <| kbd_buffer := (ByteQueue.shift (kbd_buffer s)).2 |>.

Lemma raise_irq_last s : last_port60_byte (exec raise_irq s) = last_port60_byte s.
Proof.
  unfold exec, raise_irq. rewrite bind_get. destruct (next_byte_is_ready s); [done|].
  destruct (negb _); [|destruct (negb _); [|done]]; unfold kbd_irq, mouse_irq;
    rewrite bind_modify, bind_get; unfold when; by case_match.
Qed.

Lemma raise_irq_empty s :
  negb (klen s =? 0) || negb (mlen s =? 0) = false -> raise_irq s = skip s.
Proof.
  intros [H1 H2]%orb_false_iff. unfold raise_irq. rewrite bind_get.
  unfold klen, mlen in *. rewrite H1, H2. by destruct (next_byte_is_ready s).
Qed.

Lemma take_byte_taken s : exec take_byte (s <| next_byte_is_ready := false |>) = taken s.
Proof.
  unfold exec, take_byte, taken. rewrite bind_get.
  change (next_byte_is_aux (s <| next_byte_is_ready := false |>)) with (next_byte_is_aux s).
  by destruct (next_byte_is_aux s).
Qed.

Lemma port60_read_taken s : klen s <> 0 \/ mlen s <> 0 ->
  exec port60_read s = exec raise_irq (taken s) /\
  res port60_read s = last_port60_byte (taken s).
Proof.
  intros H. unfold port60_read. rewrite exec_modify, res_modify, exec_get, res_get.
  assert ((klen s =? 0) && (mlen s =? 0) = false) as Hne
    by (destruct (Z.eqb_spec (klen s) 0), (Z.eqb_spec (mlen s) 0); done || lia).
  unfold klen, mlen in Hne. rewrite <- (take_byte_taken s).
  set (s0 := s <| next_byte_is_ready := false |>).
  change (kbd_buffer s0) with (kbd_buffer s). change (mouse_buffer s0) with (mouse_buffer s).
  rewrite Hne, (exec_bind take_byte), (res_bind take_byte).
  generalize (exec take_byte s0). intros s1. rewrite exec_get, res_get. unfold when.
  fold (klen s1) (mlen s1).
  destruct (negb (klen s1 =? 0) || negb (mlen s1 =? 0)) eqn:E.
  - split; [done|]. exact (raise_irq_last s1).
  - unfold exec, res. by rewrite bind_skip, raise_irq_empty.
Qed.

Lemma taken_inv s : inv s -> klen s <> 0 \/ mlen s <> 0 -> half (taken s) /\ byte (last_port60_byte (taken s)).
Proof.
  intros [[Hr Ha] Hn] Hne.
  assert (next_byte_is_ready s = true) as Hrd
    by (destruct (next_byte_is_ready s); [done|]; destruct (Hn eq_refl); lia).
  specialize (Ha Hrd). unfold taken. destruct (next_byte_is_aux s).
  - assert (byte (ByteQueue.shift (mouse_buffer s)).1)
      by (apply ByteQueue.shift_byte; [apply Hr|done]).
    split; [|done]. split; [regs_update|done].
  - assert (byte (ByteQueue.shift (kbd_buffer s)).1)
      by (apply ByteQueue.shift_byte; [apply Hr|done]).
    split; [|done]. split; [regs_update|done].
Qed.

Lemma port60_read_inv s : inv s -> inv (exec port60_read s) /\ byte (res port60_read s).
Proof.
  intros Hs. destruct (Z.eq_dec (klen s) 0) as [Ek|Ek], (Z.eq_dec (mlen s) 0) as [Em|Em].
  1: { pose proof (inv_regs s Hs) as Hr. unfold exec, res, port60_read. rewrite bind_modify, bind_get.
       unfold klen, mlen in *. cbn -[Z.eqb]. rewrite Ek, Em. cbn. destruct Hs as [[] ?].
       split; [split; [split; [regs_update|done]|done]|apply Hr]. }
  all: destruct (port60_read_taken s) as [-> ->]; [by auto|];
    destruct (taken_inv s Hs) as [? ?]; [by auto|]; split; [by apply raise_irq_inv|done].
Qed.

(** ** Reachable states *)

Inductive op :=
| Read60 | Read64 | Write60 (b : Z) | Write64 (b : Z)
| Key (code : Z) | Delta (dx dy : Q) | Click (l m r : bool) | Wheel (a b : Z) | Reset.

Definition run_op (o : op) : M t Z :=
  match o with
  | Read60 => port60_read
  | Read64 => port64_read
  | Write60 b => port60_write b ;;; ret 0
  | Write64 b => port64_write b ;;; ret 0
  | Key code => kbd_send_code code ;;; ret 0
  | Delta dx dy => mouse_send_delta dx dy ;;; ret 0
  | Click l m r => mouse_send_click l m r ;;; ret 0
  | Wheel a b => mouse_wheel a b ;;; ret 0
  | Reset => reset ;;; ret 0
  end.

Definition op_ok (o : op) : Prop :=
  match o with Write60 b | Write64 b => byte b | _ => True end.

Inductive reachable : t -> Prop :=
| reach_create : reachable create
| reach_op s o : reachable s -> op_ok o -> reachable (exec (run_op o) s).

Lemma ps2_create_inv : inv create.
Proof.
  assert (ByteQueue.wf (ByteQueue.create 1024)) by (apply ByteQueue.bq_create_wf; exists 10; lia).
  split; [split|]; [|done|done]. split; try done; unfold byte; cbn; lia || auto.
Qed.

Lemma ps2_run_op_inv o : op_ok o -> hoare inv (run_op o) inv.
Proof.
  intros Ho s Hs. destruct o; cbn [run_op] in *.
  - by apply port60_read_inv.
  - done.
  - by apply port60_write_inv.
  - by apply port64_write_inv.
  - by apply kbd_send_code_inv.
  - by apply mouse_send_delta_inv.
  - by apply mouse_send_click_inv.
  - by apply mouse_wheel_inv.
  - apply ps2_create_inv.
Qed.

Lemma reachable_inv s : reachable s -> inv s.
Proof. induction 1 as [|s o _ IH Ho]; [apply ps2_create_inv|by apply ps2_run_op_inv]. Qed.

(** C26: In every state the controller can reach, whatever the guest and the host
    do, the status port announces output exactly when a byte is waiting, and the
    queue it says the byte is in is not empty, so a read of port 0x60 always
    returns a byte; the mouse stays one of the three kinds, its resolution,
    sample rate and wheel counter within their ranges. *)
Theorem ps2_output_buffer (s : t) (Hs : reachable s) :
  (has (res port64_read s) 1 = true <-> klen s <> 0 \/ mlen s <> 0)
  /\ (has (res port64_read s) 1 = true ->
      if has (res port64_read s) 0x20 then mlen s <> 0 else klen s <> 0)
  /\ byte (res port60_read s)
  /\ (mouse_id s = 0 \/ mouse_id s = 3 \/ mouse_id s = 4)
  /\ (resolution s = 1 \/ resolution s = 2 \/ resolution s = 4 \/ resolution s = 8)
  /\ 1 <= sample_rate s <= 255 /\ -8 <= wheel_movement s <= 7.
Proof.
  pose proof (reachable_inv s Hs) as Hi. pose proof (port60_read_inv s Hi) as [_ Hb].
  assert (has (res port64_read s) 1 = next_byte_is_ready s) as ->
    by (unfold res, port64_read; rewrite bind_get; by destruct (next_byte_is_ready s), (next_byte_is_aux s)).
  assert (has (res port64_read s) 0x20 = next_byte_is_aux s) as ->
    by (unfold res, port64_read; rewrite bind_get; by destruct (next_byte_is_ready s), (next_byte_is_aux s)).
  destruct Hi as [[[] Ha] Hn]. split_and!; try done; try lia.
  split.
  - intros E. specialize (Ha E). destruct (next_byte_is_aux s); auto.
  - intros Hne. destruct (next_byte_is_ready s); [done|]. destruct (Hn eq_refl). lia.
Qed.

Lemma ps2_output_buffer_witness :
  let s := exec (run_op (Key 0x1C)) (exec (run_op (Write60 0xF4)) create) in
  byte (res port60_read s) /\ klen s = 2.
Proof.
  cbv zeta.
  assert (reachable (exec (run_op (Key 0x1C)) (exec (run_op (Write60 0xF4)) create))) as Hr.
  { apply reach_op; [apply reach_op; [constructor|split; vm_compute; done]|done]. }
  split; [apply (ps2_output_buffer _ Hr)|vm_compute; reflexivity].
Defined.

(** ** The keyboard stream *)

Definition send_codes (cs : list Z) : M t unit := mfor cs kbd_send_code.
Fixpoint read_bytes (n : nat) : M t (list Z) :=
  match n with
  | O => ret []
  | S n => b <-- port60_read ;; bs <-- read_bytes n ;; ret (b :: bs)
  end.

(** Only the keyboard has anything to say, and it is streaming. *)
Record kbd_only (s : t) : Prop := {
  ko_inv : inv s;
  ko_aligned : ByteQueue.aligned (kbd_buffer s);
  ko_stream : enable_keyboard_stream s = true;
  ko_mouse : mlen s = 0
}.

Lemma raise_irq_queues s :
  kbd_buffer (exec raise_irq s) = kbd_buffer s /\ mouse_buffer (exec raise_irq s) = mouse_buffer s /\
  enable_keyboard_stream (exec raise_irq s) = enable_keyboard_stream s.
Proof.
  unfold exec, raise_irq. rewrite bind_get. destruct (next_byte_is_ready s); [done|].
  destruct (negb _); [|destruct (negb _); [|done]]; unfold kbd_irq, mouse_irq;
    rewrite bind_modify, bind_get; unfold when; by case_match.
Qed.

Lemma kbd_send_code_stream s c :
  kbd_only s -> klen s < ByteQueue.size (kbd_buffer s) ->
  let s' := exec (kbd_send_code c) s in
  kbd_only s' /\ klen s' = klen s + 1 /\
  ByteQueue.size (kbd_buffer s') = ByteQueue.size (kbd_buffer s) /\
  ByteQueue.contents (kbd_buffer s') = ByteQueue.contents (kbd_buffer s) ++ [u8 c].
Proof.
  intros [Hi Ha He Hm] Hl. cbv zeta. pose proof (kbd_send_code_inv c s Hi) as Hi'. revert Hi'.
  pose proof (inv_regs s Hi) as Hr.
  destruct (ByteQueue.bq_push_contents (kbd_buffer s) c (regs_kbd s Hr) Ha Hl) as [Hc Ha'].
  unfold kbd_send_code, kbd_push. rewrite exec_get, He. cbn [when]. rewrite exec_modify.
  destruct (raise_irq_queues (s <| kbd_buffer := ByteQueue.push (kbd_buffer s) c |>)) as (E1 & E2 & E3).
  intros Hi'. unfold klen, mlen. split_and!.
  - split; [done|by rewrite E1|by rewrite E3|unfold mlen; by rewrite E2].
  - rewrite E1. cbn [kbd_buffer]. unfold ByteQueue.push, klen in *. cbn.
    rewrite (proj2 (Z.eqb_neq _ _)) by lia. done.
  - rewrite E1. cbn. unfold ByteQueue.push. by case_match.
  - by rewrite E1.
Qed.

Lemma port60_read_stream s x l :
  kbd_only s -> ByteQueue.contents (kbd_buffer s) = x :: l ->
  let s' := exec port60_read s in
  kbd_only s' /\ res port60_read s = x /\ ByteQueue.contents (kbd_buffer s') = l.
Proof.
  intros [Hi Ha He Hm] Hc. cbv zeta. pose proof (inv_regs s Hi) as Hr.
  pose proof (ByteQueue.contents_length _ (regs_kbd s Hr)) as Hl. rewrite Hc in Hl. cbn in Hl.
  assert (klen s <> 0) as Hk by (unfold klen; lia).
  destruct (port60_read_inv s Hi) as [Hi' _]. revert Hi'.
  destruct (port60_read_taken s (or_introl Hk)) as [-> ->].
  destruct (raise_irq_queues (taken s)) as (E1 & E2 & E3). intros Hi'.
  assert (next_byte_is_aux s = false) as Hx.
  { destruct Hi as [[_ Hd] Hn]. destruct (next_byte_is_ready s).
    - specialize (Hd eq_refl). by destruct (next_byte_is_aux s).
    - destruct (Hn eq_refl). lia. }
  pose proof (ByteQueue.bq_shift_contents _ (regs_kbd s Hr)) as Hs. rewrite Hc in Hs.
  destruct Hs as [Hs1 Hs2].
  assert (kbd_buffer (taken s) = (ByteQueue.shift (kbd_buffer s)).2 /\
    mouse_buffer (taken s) = mouse_buffer s /\
    enable_keyboard_stream (taken s) = true /\ last_port60_byte (taken s) = x) as (F1 & F2 & F3 & F4)
    by (unfold taken; by rewrite Hx).
  split_and!; [|done|by rewrite E1, F1]. split; [done|..].
  - rewrite E1, F1. apply ByteQueue.shift_aligned; [apply Hr|done].
  - by rewrite E3.
  - unfold mlen. by rewrite E2, F2.
Qed.

Lemma read_bytes_stream l : forall s, kbd_only s -> ByteQueue.contents (kbd_buffer s) = l ->
  res (read_bytes (length l)) s = l.
Proof.
  induction l as [|x l IH]; intros s Hs Hc; [done|]. cbn [length read_bytes].
  destruct (port60_read_stream s x l Hs Hc) as (Hs' & Hr & Hc').
  rewrite !res_bind. rewrite Hr. cbn [res ret fst]. f_equal. by apply IH.
Qed.

Lemma send_codes_stream cs : forall s, kbd_only s ->
  klen s + Z.of_nat (length cs) <= ByteQueue.size (kbd_buffer s) ->
  kbd_only (exec (send_codes cs) s) /\
  ByteQueue.contents (kbd_buffer (exec (send_codes cs) s)) = ByteQueue.contents (kbd_buffer s) ++ map u8 cs.
Proof.
  induction cs as [|c cs IH]; intros s Hs Hl; [by rewrite app_nil_r|]. cbn [length] in Hl.
  change (exec (send_codes (c :: cs)) s) with (exec (send_codes cs) (exec (kbd_send_code c) s)).
  destruct (kbd_send_code_stream s c Hs ltac:(lia)) as (Hs' & Hk & Hz & Hc).
  destruct (IH (exec (kbd_send_code c) s) Hs') as [H1 H2].
  - rewrite Hk, Hz. lia.
  - split; [done|]. by rewrite H2, Hc, <- app_assoc.
Qed.

(** Key presses reach the guest complete and in order: while the keyboard is
    streaming and the mouse silent, and as long as the codes fit into the queue,
    reading port 0x60 once per byte returns the bytes that were waiting followed
    by the codes sent (modulo 256). *)
Theorem ps2_keyboard_stream (s : t) (cs : list Z)
    (Hs : kbd_only s)
    (Hroom : klen s + Z.of_nat (length cs) <= ByteQueue.size (kbd_buffer s)) :
  let waiting := ByteQueue.contents (kbd_buffer s) ++ map u8 cs in
  res (send_codes cs ;;; read_bytes (length waiting)) s = waiting.
Proof.
  cbv zeta. rewrite res_bind. destruct (send_codes_stream cs s Hs Hroom) as [H1 H2].
  by apply read_bytes_stream.
Qed.

Lemma ps2_keyboard_stream_witness :
  let s := exec (run_op (Write60 0xF4)) create in
  kbd_only s /\ res (send_codes [0x1C; 0x9C] ;;; read_bytes 3) s = [0xFA; 0x1C; 0x9C].
Proof.
  cbv zeta.
  assert (kbd_only (exec (run_op (Write60 0xF4)) create)) as Hk.
  { split; [|vm_compute; reflexivity..]. apply ps2_run_op_inv; [split; vm_compute; done|apply ps2_create_inv]. }
  split; [exact Hk|].
  exact (ps2_keyboard_stream _ [0x1C; 0x9C] Hk ltac:(vm_compute; discriminate)).
Defined.

(** ** Detecting the mouse *)

(** A byte for the mouse, as drivers send it, and a sample rate set with two
    of them. *)
Definition aux_write (b : Z) : M t unit := port64_write 0xD4 ;;; port60_write b.
Definition set_rate (r : Z) : M t unit := aux_write 0xF3 ;;; aux_write r.

(** No argument byte is outstanding. *)
Record idle (s : t) : Prop := {
  idle_command : read_command_register s = false;
  idle_output : read_output_register s = false;
  idle_sample : next_read_sample s = false;
  idle_resolution : next_read_resolution s = false;
  idle_led : next_read_led s = false;
  idle_set : next_handle_scan_code_set s = false;
  idle_rate : next_read_rate s = false;
  idle_have : have_mouse s = true
}.

Lemma detect_mouse_frame r s :
  let s' := exec (detect_mouse r) s in
  s' = s <| mouse_id := mouse_id s' |> <| mouse_detect_state := mouse_detect_state s' |>
         <| mouse_reset_workaround := mouse_reset_workaround s' |>.
Proof.
  cbv zeta. unfold detect_mouse. rewrite exec_get. destruct s as []. cbn [mouse_detect_state].
  repeat case_match; unfold when; repeat case_match; reflexivity.
Qed.

Lemma mouse_irq_exec s :
  exec mouse_irq s = s <| next_byte_is_ready := true |> <| next_byte_is_aux := true |>.
Proof. unfold mouse_irq. rewrite exec_modify, exec_get. unfold when. by case_match. Qed.

(** The detection looks at and changes its own registers only. *)
Lemma detect_mouse_local r s s' :
  mouse_id s = mouse_id s' -> mouse_detect_state s = mouse_detect_state s' ->
  mouse_id (exec (detect_mouse r) s) = mouse_id (exec (detect_mouse r) s') /\
  mouse_detect_state (exec (detect_mouse r) s) = mouse_detect_state (exec (detect_mouse r) s').
Proof.
  intros E1 E2. unfold detect_mouse. rewrite !exec_get, E2. destruct s, s'. cbn in *. subst.
  repeat case_match; unfold when; repeat case_match; done.
Qed.

Lemma set_rate_command s : idle s ->
  exec (aux_write 0xF3) s =
    s <| next_is_mouse_command := false |>
      <| kbd_buffer := ByteQueue.clear (kbd_buffer s) |>
      <| mouse_buffer := ByteQueue.push (ByteQueue.clear (mouse_buffer s)) 0xFA |>
      <| next_read_sample := true |> <| next_byte_is_ready := true |> <| next_byte_is_aux := true |>.
Proof.
  intros [H1 H2 H3 H4 H5 H6 H7 H8]. unfold aux_write, port60_write. cbn [port64_write].
  rewrite exec_modify, exec_get. set (s0 := s <| next_is_mouse_command := true |>).
  change (read_command_register s0) with (read_command_register s).
  change (read_output_register s0) with (read_output_register s).
  change (next_read_sample s0) with (next_read_sample s).
  change (next_read_resolution s0) with (next_read_resolution s).
  change (next_read_led s0) with (next_read_led s).
  change (next_handle_scan_code_set s0) with (next_handle_scan_code_set s).
  change (next_read_rate s0) with (next_read_rate s).
  change (next_is_mouse_command s0) with true. change (have_mouse s0) with (have_mouse s).
  rewrite H1, H2, H3, H4, H5, H6, H7, H8. cbn [when].
  unfold mouse_clear, kbd_clear, mouse_push. cbn [mouse_command].
  rewrite !exec_modify, mouse_irq_exec. reflexivity.
Qed.

Lemma sample_branch r s :
  read_command_register s = false -> read_output_register s = false -> next_read_sample s = true ->
  exec (aux_write r) s =
    let s1 := s <| next_is_mouse_command := true |> <| next_read_sample := false |>
                <| mouse_buffer := ByteQueue.push (ByteQueue.clear (mouse_buffer s)) 0xFA |>
                <| sample_rate := r |> in
    let d := exec (detect_mouse r) s1 in
    d <| sample_rate := if r =? 0 then 100 else r |>
      <| next_byte_is_ready := true |> <| next_byte_is_aux := true |>.
Proof.
  intros H1 H2 H3. unfold aux_write, port60_write. cbn [port64_write]. rewrite exec_modify, exec_get.
  cbv zeta. set (s0 := s <| next_is_mouse_command := true |>).
  change (read_command_register s0) with (read_command_register s).
  change (read_output_register s0) with (read_output_register s).
  change (next_read_sample s0) with (next_read_sample s). rewrite H1, H2, H3.
  unfold mouse_clear, mouse_push. rewrite !exec_modify, exec_bind.
  set (s1 := _ <| sample_rate := r |>).
  change (s1) with (s0 <| next_read_sample := false |>
     <| mouse_buffer := ByteQueue.push (ByteQueue.clear (mouse_buffer s)) 0xFA |> <| sample_rate := r |>).
  clear s1. set (s1 := _ <| sample_rate := r |>).
  rewrite (detect_mouse_frame r s1). generalize (exec (detect_mouse r) s1). intros d.
  rewrite exec_get, exec_bind, mouse_irq_exec.
  unfold when. cbn [sample_rate]. subst s1. cbn. by destruct (r =? 0).
Qed.

(** Setting a rate runs one step of the detection and leaves the controller
    idle, but with the next byte of port 0x60 marked as one for the mouse. *)
Lemma set_rate_idle r s : idle s ->
  let d := exec (detect_mouse r) s in
  let s' := exec (set_rate r) s in
  idle s' /\ next_is_mouse_command s' = true /\
  mouse_id s' = mouse_id d /\ mouse_detect_state s' = mouse_detect_state d.
Proof.
  intros Hi. cbv zeta. unfold set_rate. rewrite exec_bind, set_rate_command by done.
  destruct Hi. rewrite sample_branch by done. cbv zeta. set (s1 := _ <| sample_rate := r |>).
  destruct (detect_mouse_local r s1 s eq_refl eq_refl) as [E1 E2].
  pose proof (detect_mouse_frame r s1) as Hf. cbv zeta in Hf.
  split_and!; [|by rewrite Hf|done|done].
  split; rewrite Hf; done.
Qed.

(** The extended mice are unlocked by their knock sequences only: from a
    plain mouse with the detection at rest, setting the sample rates [r1], [r2],
    [r3] turns it into a wheel mouse for 200, 100, 80, into a five-button mouse
    for 200, 200, 80, and leaves it plain otherwise. *)
Theorem ps2_mouse_detection (s : t) (r1 r2 r3 : Z)
    (Hi : idle s) (Hid : mouse_id s = 0) (Hd : mouse_detect_state s = 0) :
  mouse_id (exec (set_rate r1 ;;; set_rate r2 ;;; set_rate r3) s) =
    if (r1 =? 200) && (r2 =? 100) && (r3 =? 80) then 3
    else if (r1 =? 200) && (r2 =? 200) && (r3 =? 80) then 4 else 0.
Proof.
  rewrite !exec_bind.
  destruct (set_rate_idle r1 s Hi) as (Hi1 & _ & M1 & D1).
  destruct (set_rate_idle r2 _ Hi1) as (Hi2 & _ & M2 & D2).
  destruct (set_rate_idle r3 _ Hi2) as (_ & _ & M3 & _).
  revert M1 D1 M2 D2 M3.
  generalize (exec (set_rate r3) (exec (set_rate r2) (exec (set_rate r1) s))). intros s3.
  generalize (exec (set_rate r2) (exec (set_rate r1) s)). intros s2.
  generalize (exec (set_rate r1) s). intros s1.
  unfold detect_mouse. rewrite !exec_get, Hd. unfold when. intros M1 D1 M2 D2 M3. rewrite M3.
  destruct (Z.eqb_spec r1 200); cbn in M1, D1; rewrite Hid in M1; rewrite ?Hd in D1;
    rewrite D1 in M2, D2.
  - destruct (Z.eqb_spec r2 100) as [->|]; [|destruct (Z.eqb_spec r2 200)];
      cbn in M2, D2; rewrite D2; cbn -[Z.eqb].
    + destruct (r3 =? 80); cbn; congruence.
    + destruct (r3 =? 80); cbn; congruence.
    + destruct (r3 =? 200); cbn; congruence.
  - destruct (Z.eqb_spec r2 200); cbn in M2, D2; rewrite D2, ?D1; cbn -[Z.eqb].
    + destruct (r3 =? 100); [|destruct (r3 =? 200)]; cbn; congruence.
    + destruct (r3 =? 200); cbn; congruence.
Qed.

Lemma create_idle : idle create.
Proof. by split. Qed.

Lemma ps2_mouse_detection_witness :
  mouse_id (exec (set_rate 200 ;;; set_rate 100 ;;; set_rate 80) create) = 3 /\
  mouse_id (exec (set_rate 200 ;;; set_rate 200 ;;; set_rate 80) create) = 4.
Proof.
  split.
  - exact (ps2_mouse_detection create 200 100 80 create_idle eq_refl eq_refl).
  - exact (ps2_mouse_detection create 200 200 80 create_idle eq_refl eq_refl).
Defined.

(** The prefix 0xD4 that drivers send before the argument of a mouse command
    is not consumed by it: after a sample rate is set that way, the next byte
    written to port 0x60 is executed by the mouse, also when it was a command
    for the keyboard (0xED does not make the keyboard expect its LEDs, and
    nothing is queued for it). *)
Theorem ps2_stale_prefix (s : t) (r : Z) (Hi : idle s) :
  let s1 := exec (set_rate r) s in
  let s2 := exec (port60_write 0xED) s1 in
  next_is_mouse_command s1 = true /\ next_read_led s2 = false /\
  klen s2 = 0 /\ mouse_buffer s2 = ByteQueue.push (ByteQueue.clear (mouse_buffer s1)) 0xFA.
Proof.
  cbv zeta. destruct (set_rate_idle r s Hi) as ([H1 H2 H3 H4 H5 H6 H7 H8] & Hn & _).
  revert H1 H2 H3 H4 H5 H6 H7 H8 Hn. generalize (exec (set_rate r) s). intros s1 H1 H2 H3 H4 H5 H6 H7 H8 Hn.
  unfold port60_write. rewrite !exec_get, H1, H2, H3, H4, H5, H6, H7, H8, Hn. cbn [when].
  unfold mouse_clear, kbd_clear, mouse_push. cbn [mouse_command].
  rewrite !exec_modify, exec_bind, mouse_irq_exec. done.
Qed.

Lemma ps2_stale_prefix_witness :
  next_is_mouse_command (exec (set_rate 100) create) = true.
Proof. apply (ps2_stale_prefix create 100 create_idle). Defined.

(** ** Mouse packets *)

(** A driver's reading of the first three bytes: buttons and two 9-bit two's
    complement movements. *)
Definition decode_packet (info x y : Z) : Z * Z * Z :=
  (info .& 7, x - (if has info 0x10 then 256 else 0), y - (if has info 0x20 then 256 else 0)).

Lemma byte_signed d : -256 <= d < 256 -> u8 d - (if d <? 0 then 256 else 0) = d.
Proof.
  intros H. unfold u8. destruct (Z.ltb_spec d 0).
  - replace (d mod 2 ^ 8) with (d + 256); [lia|]. apply Z.mod_unique with (-1); lia.
  - rewrite Z.mod_small by lia. lia.
Qed.

Lemma info_byte_decode (bx by_ : bool) c : 0 <= c < 8 ->
  let info := (b2z by_ .<< 5) .| (b2z bx .<< 4) .| (1 .<< 3) .| c in
  u8 info .& 7 = c /\ has (u8 info) 0x10 = bx /\ has (u8 info) 0x20 = by_.
Proof.
  intros Hc. cbv zeta.
  assert (c = 0 \/ c = 1 \/ c = 2 \/ c = 3 \/ c = 4 \/ c = 5 \/ c = 6 \/ c = 7) as H by lia.
  by destruct H as [->|[->|[->|[->|[->|[->|[->| ->]]]]]]], bx, by_.
Qed.

Lemma mouse_push3 q a b c :
  ByteQueue.wf q -> ByteQueue.aligned q -> ByteQueue.length q + 3 <= ByteQueue.size q ->
  ByteQueue.contents (ByteQueue.push (ByteQueue.push (ByteQueue.push q a) b) c)
    = ByteQueue.contents q ++ [u8 a; u8 b; u8 c].
Proof.
  intros Hw Ha Hl.
  assert (forall q x, ByteQueue.length q < ByteQueue.size q ->
    ByteQueue.length (ByteQueue.push q x) = ByteQueue.length q + 1 /\
    ByteQueue.size (ByteQueue.push q x) = ByteQueue.size q) as Hp.
  { intros q' x H. unfold ByteQueue.push. rewrite (proj2 (Z.eqb_neq _ _)) by lia. done. }
  destruct (Hp q a ltac:(lia)) as [L1 S1]. destruct (Hp (ByteQueue.push q a) b ltac:(lia)) as [L2 S2].
  destruct (ByteQueue.bq_push_contents q a Hw Ha ltac:(lia)) as [C1 A1].
  pose proof (ByteQueue.bq_push_wf q a Hw) as W1.
  destruct (ByteQueue.bq_push_contents _ b W1 A1 ltac:(lia)) as [C2 A2].
  pose proof (ByteQueue.bq_push_wf _ b W1) as W2.
  destruct (ByteQueue.bq_push_contents _ c W2 A2 ltac:(lia)) as [C3 _].
  rewrite C3, C2, C1. by rewrite <- !app_assoc.
Qed.

(** A movement packet of a plain mouse tells the guest what happened: with
    room for three bytes in the mouse queue, the bytes appended to it decode, in
    the 9-bit format drivers use, to the buttons held and to the movement, for
    every movement from -256 to 255. *)
Theorem ps2_mouse_packet (s : t) (dx dy : Z)
    (Hr : regs s) (Ha : ByteQueue.aligned (mouse_buffer s)) (Hid : mouse_id s = 0)
    (Hroom : mlen s + 3 <= ByteQueue.size (mouse_buffer s))
    (Hc : 0 <= mouse_clicks s < 8) (Hx : -256 <= dx < 256) (Hy : -256 <= dy < 256) :
  exists info x y,
    ByteQueue.contents (mouse_buffer (exec (send_mouse_packet dx dy) s))
      = ByteQueue.contents (mouse_buffer s) ++ [info; x; y]
    /\ decode_packet info x y = (mouse_clicks s, dx, dy).
Proof.
  unfold send_mouse_packet. rewrite exec_get. cbv zeta.
  set (info := _ .| mouse_clicks s). exists (u8 info), (u8 dx), (u8 dy).
  unfold mouse_push. rewrite !exec_modify, Hid. cbn [Z.eqb Pos.eqb].
  rewrite exec_bind. destruct (raise_irq_queues (exec skip
    (s <| mouse_buffer := ByteQueue.push (ByteQueue.push (ByteQueue.push (mouse_buffer s) info) dx) dy |>)))
    as (_ & E & _).
  split.
  - etransitivity; [exact (f_equal ByteQueue.contents E)|].
    apply mouse_push3; [apply Hr|done|done].
  - unfold decode_packet. destruct (info_byte_decode (dx <? 0) (dy <? 0) (mouse_clicks s) Hc) as (I1 & I2 & I3).
    fold info in I1, I2, I3. rewrite I1, I2, I3, !byte_signed by done. done.
Qed.

Lemma ps2_mouse_packet_witness :
  exists info x y,
    ByteQueue.contents (mouse_buffer (exec (send_mouse_packet (-3) 200) create)) = [info; x; y]
    /\ decode_packet info x y = (0, -3, 200).
Proof.
  apply (ps2_mouse_packet create (-3) 200); try (split; vm_compute; done); try reflexivity.
  - apply inv_regs, ps2_create_inv.
  - vm_compute. discriminate.
Defined.

(** Beyond that range the movement arrives modulo 256, with no overflow bit. *)
Example mouse_packet_overflow :
  ByteQueue.contents (mouse_buffer (exec (send_mouse_packet 300 0) create)) = [8; 44; 0].
Proof. vm_compute. reflexivity. Qed.

End Ps2.
