(* ===== verification/Smbus.v ===== *)
(** * src/smbus.js: the SMBus host controller and its EEPROMs

    Every register access, every protocol, the byte-by-byte transfers and the
    interrupt.  The place of the registers in I/O space is a function of what
    src/pci.js reports (I/O decoding enabled, HOSTC, the BAR). *)

From S2P Require Import Prelude.

Set Default Goal Selector "!".

Module Smbus.

Definition ICH9_SMBUS_PCI_ID : Z := (0x1F .<< 3) .| 3.
Definition IO_SIZE : Z := 32.
Definition HOSTC_HST_EN : Z := 1.
Definition HOSTC_I2C_EN : Z := 4.
Definition HOSTC_WRITABLE : Z := 0x1F.

Definition STS_HOST_BUSY : Z := 1.
Definition STS_INTR : Z := 2.
Definition STS_DEV_ERR : Z := 4.
Definition STS_BUS_ERR : Z := 8.
Definition STS_FAILED : Z := 16.
Definition STS_INUSE : Z := 64.
Definition STS_BYTE_DONE : Z := 128.
Definition STS_INTERRUPTS : Z :=
  STS_INTR .| STS_DEV_ERR .| STS_BUS_ERR .| STS_FAILED .| STS_BYTE_DONE.

Definition CNT_INTREN : Z := 1.
Definition CNT_KILL : Z := 2.
Definition CNT_LAST_BYTE : Z := 32.
Definition CNT_START : Z := 64.

Definition AUX_E32B : Z := 2.
Definition BLOCK_MAX : Z := 32.

(** ** The EEPROM *)

Record eeprom := mk_eeprom {
  e_address : Z;
  e_data : list Z;
  e_offset : Z
}.

Definition SMBusEEPROM (address : Z) : eeprom := mk_eeprom address (replicate 256 0) 0.

Definition e_receive_byte (e : eeprom) : Z * eeprom :=
  (arr_get (e_data e) (e_offset e), e <| e_offset := (e_offset e + 1) .& 0xFF |>).

Definition e_send_byte (value : Z) (e : eeprom) : eeprom := e <| e_offset := value .& 0xFF |>.

Definition e_write_byte (offset value : Z) (e : eeprom) : eeprom :=
  e <| e_data := arr_set (e_data e) (offset .& 0xFF) (u8 value) |>
    <| e_offset := (offset + 1) .& 0xFF |>.

(** ** The controller *)

(** The [transfer] under way: the strings "", "read", "write", "i2c". *)
Inductive transfer_kind := TNone | TRead | TWrite | TI2c.

#[export] Instance transfer_kind_eq_dec : EqDecision transfer_kind.
Proof. solve_decision. Defined.

Record t := mk {
  devices : list eeprom;
  io_base : Z;
  irq_level : bool;
  status : Z;
  control : Z;
  command : Z;
  address : Z;
  data0 : Z;
  data1 : Z;
  pec : Z;
  aux_status : Z;
  aux_control : Z;
  block : list Z;
  index : Z;
  block_byte : Z;
  transfer : transfer_kind
}.

Definition transferring (s : t) : bool := match transfer s with TNone => false | _ => true end.

Definition update_irq : M t unit :=
  s <-- get ;;
  let level := has (control s) CNT_INTREN && has (status s) STS_INTERRUPTS in
  when (negb (Bool.eqb level (irq_level s)))
    (modify (fun s => s <| irq_level := level |>) ;;;
     emit (PciIrq ICH9_SMBUS_PCI_ID level)).

Definition reset : M t unit :=
  modify (fun s => s
    <| status := 0 |> <| control := 0 |> <| command := 0 |> <| address := 0 |>
    <| data0 := 0 |> <| data1 := 0 |> <| pec := 0 |> <| aux_status := 0 |>
    <| aux_control := 0 |> <| block := replicate (length (block s)) 0 |>
    <| index := 0 |> <| block_byte := 0 |> <| transfer := TNone |>) ;;;
  update_irq.

Definition blank : t :=
  mk (map SMBusEEPROM (seqZ 0x50 8)) (-1) false 0 0 0 0 0 0 0 0 0 (replicate 32 0) 0 0 TNone.

Definition create : t := exec reset blank.

(** Where the registers are decoded, from the function's configuration. *)
Definition decode_base (io_enabled : bool) (hostc : Z) (bar_base : Z) : Z :=
  if io_enabled && has hostc HOSTC_HST_EN && negb (has hostc HOSTC_I2C_EN)
     && negb (bar_base =? 0) && (bar_base + IO_SIZE <=? 0x10000)
  then bar_base else -1.

Definition update_decode (io_enabled : bool) (hostc bar_base : Z) : M t unit :=
  s <-- get ;;
  let base := decode_base io_enabled hostc bar_base in
  if base =? io_base s then skip
  else
    when (negb (io_base s =? -1)) (emit (IoUndecode "smbus" (io_base s) IO_SIZE)) ;;;
    modify (fun s => s <| io_base := base |>) ;;;
    when (negb (base =? -1)) (emit (IoDecode "smbus" base IO_SIZE)).

(** The device at a 7-bit address, by its place in [devices]. *)
Definition device (s : t) (addr : Z) : option nat :=
  fst <$> list_find (fun e => e_address e = addr) (devices s).

Definition on_device (i : nat) (f : eeprom -> eeprom) : M t unit :=
  modify (fun s => s <| devices := alter f i (devices s) |>).

Definition send_byte (i : nat) (value : Z) : M t unit := on_device i (e_send_byte value).
Definition write_byte (i : nat) (offset value : Z) : M t unit := on_device i (e_write_byte offset value).
Definition receive_byte (i : nat) : M t Z :=
  s <-- get ;;
  match devices s !! i with
  | Some e => on_device i (fun e => (e_receive_byte e).2) ;;; ret (e_receive_byte e).1
  | None => ret 0
  end.

(** [count] bytes received in turn. *)
Fixpoint receive_bytes (i : nat) (count : nat) : M t (list Z) :=
  match count with
  | O => ret []
  | S count => b <-- receive_byte i ;; bs <-- receive_bytes i count ;; ret (b :: bs)
  end.

(** Stores [data] from the start of the block buffer. *)
Definition block_set (data : list Z) (b : list Z) : list Z := map u8 data ++ drop (length data) b.

Definition write_block (i : nat) : M t unit :=
  s <-- get ;;
  let count := Z.min (data0 s) BLOCK_MAX in
  write_byte i (command s) count ;;;
  mfor (seqZ 0 count) (fun k => write_byte i (command s + 1 + k) (arr_get (block s) k)).

Definition end_transfer : M t unit :=
  modify (fun s => s <| transfer := TNone |> <| index := 0 |>
                     <| status := status s .& ~. STS_HOST_BUSY .| STS_INTR |>).

Definition begin_transfer (k : transfer_kind) : M t unit :=
  modify (fun s => s <| transfer := k |>
                     <| status := status s .| (STS_HOST_BUSY .| STS_BYTE_DONE) |>).

(** A block read: the device sends the byte count first.  The results of these
    three say whether the command ended here ([true]) or goes on byte by byte. *)
Definition block_read (i : nat) : M t bool :=
  s <-- get ;;
  send_byte i (command s) ;;;
  n <-- receive_byte i ;;
  let count := Z.min n BLOCK_MAX in
  data <-- receive_bytes i (Z.to_nat count) ;;
  modify (fun s => s <| data0 := count |>
    <| block := block_set (data ++ replicate (32 - length data) 0) (block s) |>
    <| index := 0 |>) ;;;
  if negb (has (aux_control s) AUX_E32B) then
    modify (fun s => s <| block_byte := arr_get (block s) 0 |>) ;;;
    begin_transfer TRead ;;;
    ret false
  else ret true.

(** A block write through HOST_BLOCK_DB: the bytes come one by one. *)
Definition block_write_bytes : M t bool :=
  modify (fun s => s <| block := arr_set (block s) 0 (u8 (block_byte s)) |> <| index := 0 |>) ;;;
  begin_transfer TWrite ;;;
  ret false.

(** A block write from the block buffer, with the read half of a process call. *)
Definition block_write (process : bool) (i : nat) : M t bool :=
  s <-- get ;;
  write_block i ;;;
  when process
    (send_byte i (command s) ;;;
     n <-- receive_byte i ;;
     let count := Z.min n BLOCK_MAX in
     data <-- receive_bytes i (Z.to_nat count) ;;
     modify (fun s => s <| block := block_set data (block s) |> <| data0 := count |>)) ;;;
  modify (fun s => s <| index := 0 |>) ;;;
  ret true.

(** The [switch] on the protocol. *)
Definition run_protocol (protocol : Z) (read : bool) (i : nat) : M t bool :=
  s <-- get ;;
  match protocol with
  | 0 => ret true
  | 1 =>
      (if read then b <-- receive_byte i ;; modify (fun s => s <| data0 := b |>)
       else send_byte i (command s)) ;;;
      ret true
  | 2 =>
      (if read then
         send_byte i (command s) ;;; b <-- receive_byte i ;; modify (fun s => s <| data0 := b |>)
       else write_byte i (command s) (data0 s)) ;;;
      ret true
  | 3 =>
      (if read then
         send_byte i (command s) ;;;
         b <-- receive_byte i ;; modify (fun s => s <| data0 := b |>) ;;;
         b <-- receive_byte i ;; modify (fun s => s <| data1 := b |>)
       else write_byte i (command s) (data0 s) ;;; write_byte i (command s + 1) (data1 s)) ;;;
      ret true
  | 4 =>
      write_byte i (command s) (data0 s) ;;;
      write_byte i (command s + 1) (data1 s) ;;;
      send_byte i (command s) ;;;
      b <-- receive_byte i ;; modify (fun s => s <| data0 := b |>) ;;;
      b <-- receive_byte i ;; modify (fun s => s <| data1 := b |>) ;;;
      ret true
  | 5 | 7 =>
      if read && (protocol =? 5) then block_read i
      else if negb (has (aux_control s) AUX_E32B) then block_write_bytes
      else block_write (protocol =? 7) i
  | 6 =>
      send_byte i (data1 s) ;;;
      b <-- receive_byte i ;;
      modify (fun s => s <| block_byte := b |>) ;;;
      begin_transfer TI2c ;;;
      ret false
  | _ => ret true
  end.

Definition start : M t unit :=
  s <-- get ;;
  let protocol := (control s .>> 2) .& 7 in
  let read := has (address s) 1 in
  if has (status s) (STS_DEV_ERR .| STS_BUS_ERR .| STS_FAILED) || transferring s then
    modify (fun s => s <| status := status s .| STS_DEV_ERR |>)
  else
    match device s (address s .>> 1) with
    | None => modify (fun s => s <| status := status s .| STS_DEV_ERR |>)
    | Some i =>
        done <-- run_protocol protocol read i ;;
        when done (modify (fun s => s <| status := status s .| STS_INTR |>))
    end.

(** The three kinds of transfer in [next_byte]. *)
Definition next_write (i : nat) : M t unit :=
  modify (fun s => s <| index := index s + 1 |>) ;;;
  s <-- get ;;
  if Z.min (data0 s) BLOCK_MAX <=? index s then write_block i ;;; end_transfer
  else
    modify (fun s => s <| block := arr_set (block s) (index s) (u8 (block_byte s)) |>
                       <| status := status s .| STS_BYTE_DONE |>).

Definition next_read (i2c : bool) (i : nat) : M t unit :=
  modify (fun s => s <| index := index s + 1 |>) ;;;
  s <-- get ;;
  b <-- (if i2c then receive_byte i else ret (arr_get (block s) (index s .& (BLOCK_MAX - 1)))) ;;
  modify (fun s => s <| block_byte := b |>) ;;;
  if has (control s) CNT_LAST_BYTE then end_transfer
  else modify (fun s => s <| status := status s .| STS_BYTE_DONE |>).

Definition next_byte : M t unit :=
  s <-- get ;;
  match transfer s, device s (address s .>> 1) with
  | TNone, _ | _, None => skip
  | TWrite, Some i => next_write i
  | TRead, Some i => next_read false i
  | TI2c, Some i => next_read true i
  end.

(** HOST_BLOCK_DB: the block buffer, or the byte of a byte-by-byte transfer. *)
Definition read_block_db : M t Z :=
  s <-- get ;;
  if has (aux_control s) AUX_E32B && negb (transferring s) then
    modify (fun s => s <| index := (index s + 1) .& (BLOCK_MAX - 1) |>) ;;;
    ret (arr_get (block s) (index s))
  else ret (block_byte s).

Definition write_block_db (value : Z) : M t unit :=
  s <-- get ;;
  if has (aux_control s) AUX_E32B && negb (transferring s) then
    modify (fun s => s <| block := arr_set (block s) (index s) (u8 value) |>
                       <| index := (index s + 1) .& (BLOCK_MAX - 1) |>)
  else modify (fun s => s <| block_byte := value |>).

Definition read (offset : Z) : M t Z :=
  s <-- get ;;
  match offset with
  | 0x00 => modify (fun s => s <| status := status s .| STS_INUSE |>) ;;; ret (status s)
  | 0x02 => modify (fun s => s <| index := 0 |>) ;;; ret (control s)
  | 0x03 => ret (command s)
  | 0x04 => ret (address s)
  | 0x05 => ret (data0 s)
  | 0x06 => ret (data1 s)
  | 0x07 => read_block_db
  | 0x08 => ret (pec s)
  | 0x0C => ret (aux_status s)
  | 0x0D => ret (aux_control s)
  | 0x0F => ret 0x07
  | _ => ret 0
  end.

Definition kill : M t unit :=
  s <-- get ;;
  when (has (status s) STS_HOST_BUSY || transferring s)
    (modify (fun s => s <| transfer := TNone |>
       <| status := status s .& ~. (STS_HOST_BUSY .| STS_BYTE_DONE) .| STS_FAILED |>)) ;;;
  modify (fun s => s <| index := 0 |>).

(** HST_STS: write one to clear (HOST_BUSY is read-only). *)
Definition write_status (value : Z) : M t unit :=
  s <-- get ;;
  let byte_done := has (status s .& value) STS_BYTE_DONE in
  modify (fun s => s <| status := status s .& ~. (value .& ~. STS_HOST_BUSY) |>) ;;;
  when byte_done next_byte ;;;
  update_irq.

(** HST_CNT. *)
Definition write_control (value : Z) : M t unit :=
  modify (fun s => s <| control := value .& ~. CNT_START |>) ;;;
  (if has value CNT_KILL then kill
   else when (has value CNT_START) start) ;;;
  update_irq.

Definition write (offset value : Z) : M t unit :=
  match offset with
  | 0x00 => write_status value
  | 0x02 => write_control value
  | 0x03 => modify (fun s => s <| command := value |>)
  | 0x04 => modify (fun s => s <| address := value |>)
  | 0x05 => modify (fun s => s <| data0 := value |>)
  | 0x06 => modify (fun s => s <| data1 := value |>)
  | 0x07 => write_block_db value
  | 0x08 => modify (fun s => s <| pec := value |>)
  | 0x0C => modify (fun s => s <| aux_status := aux_status s .& ~. value |>)
  | 0x0D => modify (fun s => s <| aux_control := value .& 0x03 |>)
  | _ => skip
  end.

(** ** State images *)

Definition get_state (s : t) : list Z * transfer_kind * list Z * list (list Z * Z) :=
  ([ status s; control s; command s; address s; data0 s; data1 s; pec s; aux_status s;
     aux_control s; index s; block_byte s; b2z (irq_level s) ],
   transfer s, block s, map (fun e => (e_data e, e_offset e)) (devices s)).

Definition set_state (state : list Z * transfer_kind * list Z * list (list Z * Z)) : M t unit :=
  let '(regs, tr, blk, devs) := state in
  let r i := arr_get regs i in
  modify (fun s => s
    <| status := r 0 |> <| control := r 1 |> <| command := r 2 |> <| address := r 3 |>
    <| data0 := r 4 |> <| data1 := r 5 |> <| pec := r 6 |> <| aux_status := r 7 |>
    <| aux_control := r 8 |> <| index := r 9 |> <| block_byte := r 10 |>
    <| irq_level := negb (r 11 =? 0) |>
    <| transfer := tr |> <| block := block_set blk (block s) |>
    <| devices := zip_with (fun e d => e <| e_data := d.1 |> <| e_offset := d.2 |>) (devices s) devs |>).

(** ** The invariant *)

Record e_wf (e : eeprom) : Prop := {
  e_wf_length : length (e_data e) = 256%nat;
  e_wf_bytes : Forall byte (e_data e);
  e_wf_offset : byte (e_offset e)
}.

(** [mx] bounds the index of a byte-by-byte write: 32 between accesses, 33 while
    the byte after the last is counted. *)
Record wf_ (mx : Z) (s : t) : Prop := {
  wf_devices : Forall e_wf (devices s);
  wf_addresses : map e_address (devices s) = seqZ 0x50 8;
  wf_block : length (block s) = 32%nat /\ Forall byte (block s);
  wf_index : 0 <= index s;
  wf_index_max : match transfer s with TNone => index s < 32 | TWrite => index s < mx | _ => True end;
  wf_busy : has (status s) STS_HOST_BUSY = transferring s
}.

(** The level of the function's interrupt pin. *)
Definition pin (l : bool) (e : event) : bool :=
  match e with
  | PciIrq id level => if id =? ICH9_SMBUS_PCI_ID then level else l
  | _ => l
  end.

(** Inside an access: the pin is what [irq_level] says. *)
Definition openm (mx : Z) (s : t) (l : bool) : Prop := wf_ mx s /\ l = irq_level s.
(** Between accesses: and it is what the registers say. *)
Definition inv (s : t) (l : bool) : Prop :=
  (openm 32) s l /\ l = has (control s) CNT_INTREN && has (status s) STS_INTERRUPTS.

Lemma update_irq_inv : ghoare pin (openm 32) update_irq inv.
Proof.
  intros s l [Hw ->]. unfold update_irq, exec, evs. rewrite bind_get. cbv zeta.
  destruct (has (control s) CNT_INTREN && has (status s) STS_INTERRUPTS) eqn:E, (irq_level s) eqn:E';
    cbn; (split; [split|]); cbn; rewrite ?E, ?E'; try done; by destruct Hw; split.
Qed.

Lemma e_wf_send v e : e_wf e -> e_wf (e_send_byte v e).
Proof.
  intros []. split; cbn; try done. unfold byte. pose proof (land_nonneg_r v 0xFF). lia.
Qed.
Lemma e_wf_receive e : e_wf e -> e_wf (e_receive_byte e).2.
Proof.
  intros []. split; cbn; try done. unfold byte.
  pose proof (land_nonneg_r (e_offset e + 1) 0xFF). lia.
Qed.
Lemma e_wf_write o v e : e_wf e -> e_wf (e_write_byte o v e).
Proof.
  intros []. split; cbn.
  - by rewrite arr_set_length.
  - apply arr_set_Forall; [done|apply u8_byte].
  - unfold byte. pose proof (land_nonneg_r (o + 1) 0xFF). lia.
Qed.

Lemma on_device_open mx i f :
  (forall e, e_wf e -> e_wf (f e)) -> (forall e, e_address (f e) = e_address e) ->
  ghoare pin (openm mx) (on_device i f) (openm mx).
Proof.
  intros Hf Ha. apply ghoare_modify. intros s l [[] ->]. split; [|done]. split; cbn; try done.
  - apply Forall_alter; auto.
  - rewrite <- wf_addresses0. clear -Ha. revert i. induction (devices s) as [|e es IH]; intros [|i]; cbn; f_equal; auto.
Qed.

Lemma receive_byte_open i : ghoare pin (openm 32) (receive_byte i) (openm 32).
Proof.
  apply ghoare_get_any. intros s0. case_match; [|apply ghoare_ret].
  apply ghoare_bind with (Q := (openm 32)); [|intros _; apply ghoare_ret].
  by apply on_device_open; [apply e_wf_receive|].
Qed.

Lemma receive_bytes_open i n : ghoare pin (openm 32) (receive_bytes i n) (openm 32).
Proof.
  induction n as [|n IH]; [apply ghoare_ret|].
  apply ghoare_bind with (Q := (openm 32)); [apply receive_byte_open|intros b].
  apply ghoare_bind with (Q := (openm 32)); [done|intros bs; apply ghoare_ret].
Qed.

Lemma receive_bytes_length i n : forall s, length (res (receive_bytes i n) s) = n.
Proof.
  induction n as [|n IH]; intros s; [done|]. cbn [receive_bytes]. rewrite !res_bind. cbn. f_equal. apply IH.
Qed.

Lemma block_set_wf d b :
  (length d <= 32)%nat -> length b = 32%nat /\ Forall byte b ->
  length (block_set d b) = 32%nat /\ Forall byte (block_set d b).
Proof.
  intros Hd [Hl Hb]. unfold block_set. split.
  - rewrite length_app, length_map, length_drop. lia.
  - apply Forall_app. split; [|by apply Forall_drop]. apply Forall_map, Forall_true. intros. apply u8_byte.
Qed.

Lemma arr_set_wf b k v : length b = 32%nat /\ Forall byte b ->
  length (arr_set b k (u8 v)) = 32%nat /\ Forall byte (arr_set b k (u8 v)).
Proof. intros []. rewrite arr_set_length. auto using arr_set_Forall, u8_byte. Qed.

(** Assignments that keep the invariant field by field. *)
Ltac open_update :=
  apply ghoare_modify; let s := fresh "s" in let l := fresh "l" in
  intros s l [[] ->]; split; [|done]; split; cbn;
  rewrite ?has_lor, ?orb_false_r; auto using arr_set_wf, block_set_wf; try done; try lia.

Lemma begin_transfer_open k : k = TRead \/ k = TI2c -> ghoare pin (openm 32) (begin_transfer k) (openm 32).
Proof.
  intros Hk. apply ghoare_modify. intros s l [[] ->]. split; [|done].
  split; cbn; rewrite ?has_lor, ?orb_true_r; try done; by destruct Hk as [-> | ->].
Qed.

Lemma block_write_bytes_open : ghoare pin (openm 32) block_write_bytes (openm 32).
Proof.
  apply ghoare_bind with (Q := fun s l => (openm 32) s l /\ index s = 0).
  - apply ghoare_modify. intros s l [[] ->]. split; [|done]. split; [|done].
    split; cbn; auto using arr_set_wf; try lia. by case_match.
  - intros _. apply ghoare_bind with (Q := (openm 32)); [|intros _; apply ghoare_ret].
    apply ghoare_modify. intros s l [[[] ->] Hi]. split; [|done].
    split; cbn; rewrite ?has_lor, ?orb_true_r; try done. lia.
Qed.

Lemma end_transfer_open mx : ghoare pin (openm mx) end_transfer (openm 32).
Proof.
  apply ghoare_modify. intros s l [[] ->]. split; [|done]. split; cbn; try done; try lia.
  by rewrite has_lor, has_clear_same.
Qed.

Lemma send_byte_open i v : ghoare pin (openm 32) (send_byte i v) (openm 32).
Proof. by apply on_device_open; [apply e_wf_send|]. Qed.
Lemma write_byte_open mx i o v : ghoare pin (openm mx) (write_byte i o v) (openm mx).
Proof. by apply on_device_open; [apply e_wf_write|]. Qed.

Lemma write_block_open mx i : ghoare pin (openm mx) (write_block i) (openm mx).
Proof.
  apply ghoare_get_any. intros s0. cbv zeta.
  apply ghoare_bind with (Q := openm mx); [apply write_byte_open|intros _].
  apply ghoare_mfor. intros k. apply write_byte_open.
Qed.

Lemma min_block n : (Z.to_nat (Z.min n BLOCK_MAX) <= 32)%nat.
Proof. unfold BLOCK_MAX. lia. Qed.

Lemma block_data_open i n k :
  (forall d, (length d <= 32)%nat -> ghoare pin (openm 32) (k d) (openm 32)) ->
  ghoare pin (openm 32) (bind (receive_bytes i (Z.to_nat (Z.min n BLOCK_MAX))) k : M t unit) (openm 32).
Proof.
  intros Hk. apply ghoare_bind_res with (Q := (openm 32)) (T := fun d => (length d <= 32)%nat).
  - intros s. rewrite receive_bytes_length. apply min_block.
  - apply receive_bytes_open.
  - done.
Qed.

Lemma index_reset_open (f : t -> t) :
  (forall s, wf_ 32 (s <| index := 0 |>) -> wf_ 32 (f s)) -> (forall s, irq_level (f s) = irq_level s) ->
  ghoare pin (openm 32) (modify f) (openm 32).
Proof.
  intros Hf Hi. apply ghoare_modify. intros s l [[] ->]. split; [|by rewrite Hi].
  apply Hf. split; cbn; try done; try lia. by case_match.
Qed.

Lemma block_read_open i : ghoare pin (openm 32) (block_read i) (openm 32).
Proof.
  apply ghoare_get_any. intros s0.
  apply ghoare_bind with (Q := (openm 32)); [apply send_byte_open|intros _].
  apply ghoare_bind with (Q := (openm 32)); [apply receive_byte_open|intros n]. cbv zeta.
  apply ghoare_bind_res with (Q := (openm 32)) (T := fun d => (length d <= 32)%nat).
  { intros s. rewrite receive_bytes_length. apply min_block. }
  { apply receive_bytes_open. }
  intros d Hd. apply ghoare_bind with (Q := (openm 32)).
  - apply index_reset_open; [|done]. intros s []. split; cbn; try done.
    apply block_set_wf; [|done]. rewrite length_app, length_replicate. lia.
  - intros _. apply ghoare_if; [|apply ghoare_ret].
    apply ghoare_bind with (Q := (openm 32)); [open_update|intros _].
    apply ghoare_bind with (Q := (openm 32)); [by apply begin_transfer_open; left|intros _; apply ghoare_ret].
Qed.

(** Steps through the device operations of a command. *)
Ltac smbus_step :=
  gstep (openm 32) ltac:(idtac; lazymatch goal with
    | |- ghoare _ _ (send_byte _ _) _ => apply send_byte_open
    | |- ghoare _ _ (write_byte _ _ _) _ => apply write_byte_open
    | |- ghoare _ _ (receive_byte _) _ => apply receive_byte_open
    | |- ghoare _ _ (receive_bytes _ _) _ => apply receive_bytes_open
    | |- ghoare _ _ (write_block _) _ => apply write_block_open
    | |- ghoare _ _ (begin_transfer _) _ => apply begin_transfer_open; tauto
    | |- ghoare _ _ end_transfer _ => apply end_transfer_open
    | |- ghoare _ _ (block_read _) _ => apply block_read_open
    | |- ghoare _ _ block_write_bytes _ => apply block_write_bytes_open
    | |- ghoare _ _ (modify _) _ => open_update
    end).

Lemma block_write_open p i : ghoare pin (openm 32) (block_write p i) (openm 32).
Proof.
  apply ghoare_get_any. intros s0.
  apply ghoare_bind with (Q := (openm 32)); [apply write_block_open|intros _].
  apply ghoare_bind with (Q := (openm 32)).
  - apply ghoare_when. apply ghoare_bind with (Q := (openm 32)); [apply send_byte_open|intros _].
    apply ghoare_bind with (Q := (openm 32)); [apply receive_byte_open|intros n]. cbv zeta.
    apply block_data_open. intros d Hd. open_update.
  - intros _. apply ghoare_bind with (Q := (openm 32)); [|intros _; apply ghoare_ret].
    by apply index_reset_open.
Qed.

Lemma run_protocol_open p r i : ghoare pin (openm 32) (run_protocol p r i) (openm 32).
Proof.
  apply ghoare_get_any. intros s0. repeat case_match; smbus_step; apply block_write_open.
Qed.

Lemma start_open : ghoare pin (openm 32) start (openm 32).
Proof.
  apply ghoare_get_any. intros s0. cbv zeta. apply ghoare_if; [open_update|].
  case_match; [|open_update]. apply ghoare_bind with (Q := (openm 32)); [apply run_protocol_open|intros b].
  apply ghoare_when. open_update.
Qed.

Definition during (k : transfer_kind) (s : t) (l : bool) : Prop := openm 32 s l /\ transfer s = k.

Lemma next_read_open b i k : k = TRead \/ k = TI2c ->
  ghoare pin (during k) (next_read b i) (openm 32).
Proof.
  intros Hk. apply ghoare_bind with (Q := openm 32); [|intros _; smbus_step].
  apply ghoare_modify. intros s l [[[] ->] Et]. split; [|done].
  split; cbn; try done; [lia|]. rewrite Et. by destruct Hk as [-> | ->].
Qed.

Lemma next_write_open i : ghoare pin (during TWrite) (next_write i) (openm 32).
Proof.
  apply ghoare_bind with (Q := fun s l => openm 33 s l /\ transfer s = TWrite).
  - apply ghoare_modify. intros s l [[[] ->] Et]. split; [|done]. split; [|done].
    split; cbn; try done; [lia|]. rewrite Et in *. lia.
  - intros _. apply ghoare_get. intros s l [Hs Et].
    destruct (Z.leb_spec (Z.min (data0 s) BLOCK_MAX) (index s)).
    + revert s l Hs Et H. intros s l Hs _ _. revert s l Hs.
      apply ghoare_bind with (Q := openm 33); [apply write_block_open|intros _; apply end_transfer_open].
    + destruct Hs as [[] ->]. split; [|done]. unfold BLOCK_MAX in *.
      split; cbn; rewrite ?has_lor, ?orb_false_r; auto using arr_set_wf. rewrite Et. lia.
Qed.

Lemma next_byte_open : ghoare pin (openm 32) next_byte (openm 32).
Proof.
  apply ghoare_get. intros s l Hs.
  destruct (transfer s) eqn:Et; [done|..]; (destruct (device s _) as [i|]; [|done]).
  - by apply (next_read_open _ _ TRead); [left|].
  - by apply next_write_open.
  - by apply (next_read_open _ _ TI2c); [right|].
Qed.

Lemma kill_open : ghoare pin (openm 32) kill (openm 32).
Proof.
  apply ghoare_get. intros s l [Hw ->].
  assert (wf_ 32 (s <| index := 0 |>)) as Hw0 by (destruct Hw; split; cbn; try done; try lia; by case_match).
  unfold exec, evs. unfold when. destruct (has (status s) STS_HOST_BUSY || transferring s).
  - cbn. split; [|done]. destruct Hw0. split; cbn; try done; try lia.
    rewrite has_lor, orb_false_r. apply has_false_iff. rewrite <- Z.land_assoc.
    replace (~. (STS_HOST_BUSY .| STS_BYTE_DONE) .& STS_HOST_BUSY) with 0 by done. apply Z.land_0_r.
  - by cbn.
Qed.

(** ** Every access *)

Inductive op :=
| Read (offset : Z)
| Write (offset value : Z)
| Reset
| Decode (io_enabled : bool) (hostc bar_base : Z).

#[export] Instance op_eq_dec : EqDecision op.
Proof. solve_decision. Defined.

Definition run_op (o : op) : M t Z :=
  match o with
  | Read offset => read offset
  | Write offset value => write offset value ;;; ret 0
  | Reset => reset ;;; ret 0
  | Decode e h b => update_decode e h b ;;; ret 0
  end.

(** Assignments to registers the invariant does not mention. *)
Ltac inv_update :=
  apply ghoare_modify; let s := fresh "s" in let l := fresh "l" in
  intros s l [[[] ->] ?]; split; [split; [split|]|]; cbn; rewrite ?has_lor, ?orb_false_r;
  auto using arr_set_wf; try lia.

Lemma index_next i : 0 <= (i + 1) .& (BLOCK_MAX - 1) < 32.
Proof. pose proof (land_nonneg_r (i + 1) (BLOCK_MAX - 1)). unfold BLOCK_MAX in *. lia. Qed.

Lemma index_next_wf s b :
  wf_ 32 s -> transferring s = false -> length b = 32%nat /\ Forall byte b ->
  wf_ 32 (s <| block := b |> <| index := (index s + 1) .& (BLOCK_MAX - 1) |>).
Proof.
  intros [] Ht Hb. pose proof (index_next (index s)).
  split; cbn; try done; [lia|]. unfold transferring in Ht. destruct (transfer s); done || lia.
Qed.

Lemma read_block_db_inv : ghoare pin inv read_block_db inv.
Proof.
  apply ghoare_get. intros s l Hs.
  destruct (has (aux_control s) AUX_E32B && negb (transferring s)) eqn:E; [|done].
  apply andb_true_iff in E as [_ Ht%negb_true_iff]. destruct Hs as [[Hw ->] Hi].
  split; [split; [|done]|done]. cbn.
  exact (index_next_wf s (block s) Hw Ht (wf_block _ _ Hw)).
Qed.

Lemma write_block_db_inv v : ghoare pin inv (write_block_db v) inv.
Proof.
  apply ghoare_get. intros s l Hs.
  destruct (has (aux_control s) AUX_E32B && negb (transferring s)) eqn:E.
  - apply andb_true_iff in E as [_ Ht%negb_true_iff]. destruct Hs as [[Hw ->] Hi].
    split; [split; [|done]|done]. cbn. apply (index_next_wf s); [done..|].
    apply arr_set_wf, Hw.
  - revert s l Hs E. intros s l Hs _. revert s l Hs. inv_update.
Qed.

Lemma read_inv offset : ghoare pin inv (read offset) inv.
Proof.
  apply ghoare_get_any. intros s0. repeat case_match;
    lazymatch goal with
    | |- ghoare _ _ (ret _) _ => apply ghoare_ret
    | |- ghoare _ _ read_block_db _ => apply read_block_db_inv
    | _ => apply ghoare_bind with (Q := inv); [|intros _; apply ghoare_ret]
    end.
  - inv_update.
  - apply ghoare_modify. intros s l [[[] ->] Hi].
    split; [split; [split|]|]; cbn; try done; try lia; by case_match.
Qed.

Lemma write_status_inv v : ghoare pin inv (write_status v) inv.
Proof.
  apply ghoare_get_any. intros s0. cbv zeta.
  apply ghoare_bind with (Q := openm 32).
  - apply ghoare_modify. intros s l [[[] ->] _]. split; [|done]. split; cbn; try done.
    rewrite has_clear_other; [done|]. rewrite <- Z.land_assoc.
    replace (~. STS_HOST_BUSY .& STS_HOST_BUSY) with 0 by done. apply Z.land_0_r.
  - intros _. apply ghoare_bind with (Q := openm 32); [|intros _; apply update_irq_inv].
    apply ghoare_when, next_byte_open.
Qed.

Lemma write_control_open v : ghoare pin (openm 32) (write_control v) inv.
Proof.
  apply ghoare_bind with (Q := openm 32).
  - open_update.
  - intros _. apply ghoare_bind with (Q := openm 32); [|intros _; apply update_irq_inv].
    apply ghoare_if; [apply kill_open|apply ghoare_when, start_open].
Qed.

Lemma write_control_inv v : ghoare pin inv (write_control v) inv.
Proof. eapply ghoare_weaken; [by intros s l [? _]|apply write_control_open]. Qed.

Lemma write_inv offset v : ghoare pin inv (write offset v) inv.
Proof.
  unfold write. repeat case_match;
    lazymatch goal with
    | |- ghoare _ _ skip _ => apply ghoare_skip
    | |- ghoare _ _ (write_status _) _ => apply write_status_inv
    | |- ghoare _ _ (write_control _) _ => apply write_control_inv
    | |- ghoare _ _ (write_block_db _) _ => apply write_block_db_inv
    | |- ghoare _ _ (modify _) _ => inv_update
    end.
Qed.

Lemma smbus_reset_inv : ghoare pin inv reset inv.
Proof.
  apply ghoare_bind with (Q := openm 32); [|intros _; apply update_irq_inv].
  apply ghoare_modify. intros s l [[[] ->] _]. split; [|done]. split; cbn; try done; try lia.
  destruct wf_block0 as [-> _]. split; [done|]. apply Forall_replicate. unfold byte. lia.
Qed.

Lemma update_decode_inv e h b : ghoare pin inv (update_decode e h b) inv.
Proof.
  apply ghoare_get_any. intros s0. cbv zeta. apply ghoare_if; [apply ghoare_skip|].
  apply ghoare_bind with (Q := inv); [apply ghoare_when; by apply ghoare_emit|intros _].
  apply ghoare_bind with (Q := inv); [inv_update|intros _]. apply ghoare_when. by apply ghoare_emit.
Qed.

Lemma smbus_run_op_inv o : ghoare pin inv (run_op o) inv.
Proof.
  destruct o; cbn [run_op]; [apply read_inv|..];
    (apply ghoare_bind with (Q := inv); [|intros _; apply ghoare_ret]);
    auto using write_inv, smbus_reset_inv, update_decode_inv.
Qed.

Definition run_ops (ops : list op) : M t unit := mfor ops (fun o => run_op o ;;; skip).

Lemma run_ops_inv ops : ghoare pin inv (run_ops ops) inv.
Proof.
  apply ghoare_mfor. intros o. apply ghoare_bind with (Q := inv); [apply smbus_run_op_inv|].
  intros _. apply ghoare_skip.
Qed.

Lemma eeprom_wf a : e_wf (SMBusEEPROM a).
Proof.
  split; [apply length_replicate|apply Forall_replicate; unfold byte; lia|].
  unfold byte. change (e_offset (SMBusEEPROM a)) with 0. lia.
Qed.

Lemma blank_inv : inv blank false.
Proof.
  split; [split|]; [|done..]. split; try done.
  - apply Forall_map, Forall_true. intros a. apply eeprom_wf.
  - split; [apply length_replicate|]. apply Forall_replicate. unfold byte. lia.
Qed.

Lemma smbus_create_inv : inv create false.
Proof.
  pose proof (smbus_reset_inv blank false blank_inv) as H.
  replace (fold_left pin (evs reset blank) false) with false in H by reflexivity. exact H.
Qed.

(** C27: After any sequence of register accesses, resets and relocations, HOST_BUSY
    is set exactly while a byte-by-byte transfer is under way, the block buffer
    is indexed within its 32 bytes outside of one, the EEPROMs keep 256 bytes
    and an 8-bit offset, and the interrupt pin, as driven along the way, is
    high exactly when interrupts are enabled and some ending or byte-done
    status is set. *)
Theorem smbus_invariant (ops : list op) :
  let s := exec (run_ops ops) create in
  let l := fold_left pin (evs (run_ops ops) create) false in
  has (status s) STS_HOST_BUSY = transferring s
  /\ (transferring s = false -> 0 <= index s < 32)
  /\ Forall e_wf (devices s) /\ map e_address (devices s) = seqZ 0x50 8
  /\ length (block s) = 32%nat
  /\ l = has (control s) CNT_INTREN && has (status s) STS_INTERRUPTS.
Proof.
  destruct (run_ops_inv ops create false smbus_create_inv) as [[[] _] Hi]. cbv zeta.
  split_and!; try done; [|tauto].
  unfold transferring. case_match; done || lia.
Qed.

(** ** Blocks in an EEPROM *)

(** A run of bytes written from an offset on, wrapping at 256. *)
Fixpoint e_writes (o : Z) (vs : list Z) (e : eeprom) : eeprom :=
  match vs with
  | [] => e
  | v :: vs => e_writes (o + 1) vs (e_write_byte o v e)
  end.

Lemma e_write_get o v e j : e_wf e -> 0 <= j < 256 ->
  arr_get (e_data (e_write_byte o v e)) j = if j =? o mod 256 then u8 v else arr_get (e_data e) j.
Proof.
  intros [Hl _ _] Hj. cbn. rewrite land_ff. pose proof (Z.mod_pos_bound o 256 ltac:(lia)).
  destruct (Z.eqb_spec j (o mod 256)) as [->|].
  - apply arr_get_set_eq. lia.
  - apply arr_get_set_ne; lia.
Qed.

Lemma e_writes_wf vs : forall o e, e_wf e -> e_wf (e_writes o vs e).
Proof. induction vs as [|v vs IH]; intros o e He; [done|]. by apply IH, e_wf_write. Qed.

Lemma e_writes_other vs : forall o e j, e_wf e -> 0 <= j < 256 ->
  (forall k, 0 <= k < Z.of_nat (length vs) -> j <> (o + k) mod 256) ->
  arr_get (e_data (e_writes o vs e)) j = arr_get (e_data e) j.
Proof.
  induction vs as [|v vs IH]; intros o e j He Hj Hk; [done|]. cbn [e_writes].
  rewrite IH; [|by apply e_wf_write|done|].
  - rewrite e_write_get by done. rewrite (proj2 (Z.eqb_neq _ _)); [done|].
    specialize (Hk 0). rewrite Z.add_0_r in Hk. apply Hk. cbn. lia.
  - intros k Hk'. replace (o + 1 + k) with (o + (k + 1)) by lia. apply Hk. cbn [length]. lia.
Qed.

Lemma offset_distinct o k : 0 < k < 256 -> o mod 256 <> (o + k) mod 256.
Proof.
  intros Hk H. pose proof (Z.div_mod o 256 ltac:(lia)). pose proof (Z.div_mod (o + k) 256 ltac:(lia)). lia.
Qed.

Lemma e_writes_get vs : forall o e k v, e_wf e -> (length vs <= 256)%nat -> vs !! k = Some v ->
  arr_get (e_data (e_writes o vs e)) ((o + Z.of_nat k) mod 256) = u8 v.
Proof.
  induction vs as [|w vs IH]; intros o e k v He Hl Hv; [done|]. cbn [length] in Hl.
  cbn [e_writes]. destruct k as [|k].
  - cbn in Hv. simplify_eq. cbn [Z.of_nat]. rewrite Z.add_0_r.
    pose proof (Z.mod_pos_bound o 256 ltac:(lia)).
    rewrite e_writes_other; [|by apply e_wf_write|done|].
    + rewrite e_write_get by done. by rewrite Z.eqb_refl.
    + intros k Hk. replace (o + 1 + k) with (o + (1 + k)) by lia. apply offset_distinct. lia.
  - cbn in Hv. rewrite <- (IH (o + 1) (e_write_byte o w e) k v); [|by apply e_wf_write|lia|done].
    do 2 f_equal. lia.
Qed.

Lemma write_bytes_exec i (l : list Z) : forall (f g : Z -> Z) s,
  exec (mfor l (fun k => write_byte i (f k) (g k))) s =
  s <| devices := alter (fun e => fold_left (fun e k => e_write_byte (f k) (g k) e) l e) i (devices s) |>.
Proof.
  induction l as [|k l IH]; intros f g s.
  - cbn [mfor fold_left]. rewrite list_alter_id by done. by destruct s.
  - change (exec (mfor (k :: l) (fun k => write_byte i (f k) (g k))) s)
      with (exec (mfor l (fun k => write_byte i (f k) (g k))) (exec (write_byte i (f k) (g k)) s)).
    rewrite IH. cbn [fold_left]. unfold write_byte, on_device. cbn [exec modify fst snd].
    change (devices (s <| devices := ?d |>)) with d. by rewrite list_alter_alter.
Qed.

Lemma fold_e_writes o f m : forall n e, 0 <= m ->
  fold_left (fun e k => e_write_byte (o + k) (f k) e) (seqZ n m) e = e_writes (o + n) (map f (seqZ n m)) e.
Proof.
  intros n e Hm. revert n e. pattern m. apply natlike_ind; [done| |done]. clear m Hm.
  intros m Hm IH n e. rewrite seqZ_cons by lia. cbn [map fold_left e_writes].
  replace (Z.pred (Z.succ m)) with m by lia. rewrite IH. f_equal. lia.
Qed.

(** A block write stores the count and the bytes. *)
Lemma write_block_exec i s : 0 <= data0 s ->
  let count := Z.min (data0 s) BLOCK_MAX in
  exec (write_block i) s = s <| devices :=
    alter (e_writes (command s) (count :: map (arr_get (block s)) (seqZ 0 count))) i (devices s) |>.
Proof.
  intros Hd count. unfold write_block. rewrite exec_get. cbv zeta. rewrite exec_bind, write_bytes_exec.
  unfold write_byte, on_device. cbn [exec modify fst snd].
  change (devices (s <| devices := ?d |>)) with d. rewrite list_alter_alter.
  change (s <| devices := ?a |> <| devices := ?b |>) with (s <| devices := b |>).
  f_equal. f_equal. apply list_alter_ext; [|done]. intros e _. cbn [e_writes].
  rewrite fold_e_writes by (unfold count, BLOCK_MAX; lia). by rewrite Z.add_0_r.
Qed.

Lemma receive_byte_exec i s e : devices s !! i = Some e -> byte (e_offset e) ->
  exec (receive_byte i) s = s <| devices := <[i := e <| e_offset := (e_offset e + 1) mod 256 |>]> (devices s) |>
  /\ res (receive_byte i) s = arr_get (e_data e) (e_offset e).
Proof.
  intros Hi Ho. unfold receive_byte. rewrite exec_get, res_get, Hi. split; [|done].
  rewrite exec_bind. unfold on_device. cbn [exec modify ret fst snd]. do 2 f_equal.
  unfold e_receive_byte. cbn [snd]. rewrite <- land_ff. clear Ho.
  revert i Hi. induction (devices s) as [|e' es IH]; intros [|i] Hi; cbn in *; [done..| |].
  - by simplify_eq.
  - f_equal. by apply IH.
Qed.

Lemma receive_bytes_res i n : forall s e, devices s !! i = Some e -> byte (e_offset e) ->
  res (receive_bytes i n) s =
    map (fun k => arr_get (e_data e) ((e_offset e + Z.of_nat k) mod 256)) (seq 0 n) /\
  exists d, exec (receive_bytes i n) s = s <| devices := d |>.
Proof.
  induction n as [|n IH]; intros s e Hi Ho.
  - split; [done|]. exists (devices s). by destruct s.
  - cbn [receive_bytes]. rewrite !res_bind, !exec_bind.
    destruct (receive_byte_exec i s e Hi Ho) as [-> ->].
    assert (byte ((e_offset e + 1) mod 256)) as Ho' by (unfold byte; apply Z.mod_pos_bound; lia).
    destruct (IH (s <| devices := <[i := e <| e_offset := (e_offset e + 1) mod 256 |>]> (devices s) |>)
                (e <| e_offset := (e_offset e + 1) mod 256 |>)) as [Hr [d Hd]].
    + cbn. apply list_lookup_insert_eq. by eapply lookup_lt_Some.
    + done.
    + split.
      * cbn [res ret fst]. rewrite Hr. cbn [seq map]. f_equal.
        -- f_equal. unfold byte in Ho. rewrite Z.add_0_r, Z.mod_small by lia. done.
        -- rewrite <- seq_shift, map_map. apply map_ext. intros k. f_equal.
           cbn [e_offset]. change (e_offset (e <| e_offset := ?x |>)) with x.
           rewrite Zplus_mod_idemp_l. f_equal. lia.
      * exists d. by rewrite Hd.
Qed.

Lemma take_block_set d b : (length d <= 32)%nat -> take (length d) (block_set d b) = map u8 d.
Proof. intros. unfold block_set. rewrite take_app_le by (by rewrite length_map). rewrite take_ge by (by rewrite length_map). done. Qed.

(** A block read with the block buffer, of an EEPROM holding a count and that
    many bytes at the command's offset. *)
Lemma block_read_exec i s e n vs :
  wf_ 32 s -> devices s !! i = Some e -> has (aux_control s) AUX_E32B = true ->
  0 <= n <= 32 -> length vs = Z.to_nat n -> Forall byte vs ->
  arr_get (e_data e) (command s mod 256) = n ->
  (forall k v, vs !! k = Some v -> arr_get (e_data e) ((command s + 1 + Z.of_nat k) mod 256) = v) ->
  let s' := exec (block_read i) s in
  data0 s' = n /\ take (Z.to_nat n) (block s') = vs /\ res (block_read i) s = true /\
  transferring s' = transferring s /\ status s' = status s.
Proof.
  intros Hw Hi Hx Hn Hl Hb Hc Hv. cbv zeta. unfold block_read. rewrite exec_get, res_get, !exec_bind, !res_bind.
  set (s1 := exec (send_byte i (command s)) s).
  pose (e1 := e <| e_offset := command s mod 256 |>).
  assert (s1 = s <| devices := <[i := e1]> (devices s) |>) as E1.
  { unfold s1, send_byte, on_device, e1. cbn [exec modify fst snd]. do 2 f_equal.
    rewrite <- land_ff. fold (e_send_byte (command s) e). clear -Hi. revert i Hi.
    induction (devices s) as [|e' es IH]; intros [|i] Hi; cbn in *; [done..| |].
    - by simplify_eq.
    - f_equal. by apply IH. }
  assert (devices s1 !! i = Some e1) as Hi1.
  { rewrite E1. cbn. apply list_lookup_insert_eq. by eapply lookup_lt_Some. }
  assert (byte (e_offset e1)) as Ho1 by (unfold byte, e1; cbn; apply Z.mod_pos_bound; lia).
  destruct (receive_byte_exec i s1 e1 Hi1 Ho1) as [E2 R2]. rewrite E2, R2.
  change (arr_get (e_data e1) (e_offset e1)) with (arr_get (e_data e) (command s mod 256)). rewrite Hc.
  rewrite Z.min_l by (unfold BLOCK_MAX; lia). clear E2 R2.
  set (s2 := s1 <| devices := _ |>). pose (e2 := e1 <| e_offset := (e_offset e1 + 1) mod 256 |>).
  assert (devices s2 !! i = Some e2) as Hi2.
  { unfold s2, e2. cbn. apply list_lookup_insert_eq. by eapply lookup_lt_Some. }
  assert (byte (e_offset e2)) as Ho2 by (unfold byte, e2; cbn; apply Z.mod_pos_bound; lia).
  destruct (receive_bytes_res i (Z.to_nat n) s2 e2 Hi2 Ho2) as [R3 [d E3]]. rewrite R3, E3.
  assert (map (fun k => arr_get (e_data e2) ((e_offset e2 + Z.of_nat k) mod 256)) (seq 0 (Z.to_nat n)) = vs) as ->.
  { apply list_eq. intros k. rewrite list_lookup_fmap. destruct (vs !! k) as [v|] eqn:Ev.
    - pose proof (lookup_lt_Some _ _ _ Ev). rewrite lookup_seq_lt by lia. cbn [fmap option_fmap option_map].
      f_equal. rewrite <- (Hv k v Ev). cbn. f_equal. rewrite Zplus_mod_idemp_l, <- Z.add_assoc, Zplus_mod_idemp_l.
      f_equal. lia.
    - rewrite lookup_seq_ge; [done|]. apply lookup_ge_None in Ev. lia. }
  rewrite Hx. cbn [negb]. cbn [exec res modify ret fst snd].
  subst s2. rewrite E1. split_and!; try done.
  cbn [block]. unfold block_set. cbn.
  rewrite map_app, <- app_assoc, take_app_le by (rewrite length_map; lia).
  rewrite take_ge by (rewrite length_map; lia).
  clear -Hb. induction Hb as [|v vs Hv _ IH]; [done|]. cbn. by rewrite u8_id, IH.
Qed.

Lemma device_address s j e : wf_ 32 s -> devices s !! j = Some e ->
  e_address e = 0x50 + Z.of_nat j /\ (j < 8)%nat.
Proof.
  intros Hw Hj. assert (map e_address (devices s) !! j = Some (e_address e)) as H
    by (by rewrite list_lookup_fmap, Hj).
  rewrite (wf_addresses _ _ Hw) in H. apply lookup_seqZ in H. lia.
Qed.

Lemma device_found s k : wf_ 32 s -> 0 <= k < 8 ->
  exists e, devices s !! Z.to_nat k = Some e /\ e_wf e /\ device s (0x50 + k) = Some (Z.to_nat k).
Proof.
  intros Hw Hk. assert (length (devices s) = 8%nat) as Hlen
    by (rewrite <- (length_map e_address), (wf_addresses _ _ Hw); done).
  destruct (lookup_lt_is_Some_2 (devices s) (Z.to_nat k)) as [e He]; [lia|].
  exists e. split_and!; [done| |].
  - eapply Forall_lookup_1; [apply Hw|done].
  - unfold device. rewrite (proj2 (list_find_Some _ _ (Z.to_nat k) e)); [done|].
    destruct (device_address _ _ _ Hw He). split_and!; [done|lia|].
    intros j y Hj Hlt. destruct (device_address _ _ _ Hw Hj). lia.
Qed.

Lemma update_irq_exec s : exec update_irq s = s <| irq_level := irq_level (exec update_irq s) |>.
Proof. unfold update_irq. rewrite exec_get. cbv zeta. unfold when. case_match; by destruct s. Qed.

(** The addressed device runs a block command from the block buffer. *)
Definition block_command (address : Z) : M t unit := write 0x04 address ;;; write 0x02 0x54.

(** Ready for a command: no error pending, nothing under way, buffer enabled. *)
Record ready (s : t) : Prop := {
  ready_errors : has (status s) (STS_DEV_ERR .| STS_BUS_ERR .| STS_FAILED) = false;
  ready_idle : transferring s = false;
  ready_buffer : has (aux_control s) AUX_E32B = true
}.

Lemma block_command_exec s a i : ready s -> device s (a .>> 1) = Some i ->
  let s0 := s <| address := a |> <| control := 0x14 |> in
  let m := if has a 1 then block_read i else block_write false i in
  exists l, exec (block_command a) s =
    (exec (when (res m s0) (modify (fun s => s <| status := status s .| STS_INTR |>))) (exec m s0))
      <| irq_level := l |>.
Proof.
  intros [He Ht Hx] Hd. cbv zeta. unfold block_command. rewrite exec_bind.
  change (write 2 0x54) with (write_control 0x54).
  change (exec (write 4 a) s) with (s <| address := a |>).
  unfold write_control. rewrite exec_modify, exec_bind, update_irq_exec.
  eexists. change (has 0x54 CNT_KILL) with false. change (has 0x54 CNT_START) with true.
  cbn [when]. change (0x54 .& ~. CNT_START) with 0x14.
  set (s0 := s <| address := a |> <| control := 0x14 |>).
  assert (exec start s0 = exec (when (res (if has a 1 then block_read i else block_write false i) s0)
     (modify (fun s => s <| status := status s .| STS_INTR |>)))
     (exec (if has a 1 then block_read i else block_write false i) s0)) as ->; [|done].
  unfold start. rewrite exec_get. cbv zeta.
  change (has (status s0) (STS_DEV_ERR .| STS_BUS_ERR .| STS_FAILED) || transferring s0)
    with (has (status s) (STS_DEV_ERR .| STS_BUS_ERR .| STS_FAILED) || transferring s).
  rewrite He, Ht. cbn [orb]. change (device s0 (address s0 .>> 1)) with (device s (a .>> 1)). rewrite Hd.
  rewrite exec_bind. change ((control s0 .>> 2) .& 7) with 5. change (address s0) with a.
  unfold run_protocol. rewrite exec_get, res_get.
  change (5 =? 5) with true. rewrite andb_true_r. change (5 =? 7) with false.
  change (aux_control s0) with (aux_control s). rewrite Hx. by destruct (has a 1).
Qed.

Lemma has_irq_frame s l : ready s -> ready (s <| irq_level := l |>).
Proof. by intros []. Qed.

Lemma slave_address k b : 0 <= k < 8 -> ((0x50 + k) * 2 + b2z b) .>> 1 = 0x50 + k /\
  has ((0x50 + k) * 2 + b2z b) 1 = b.
Proof.
  intros Hk. assert (k = 0 \/ k = 1 \/ k = 2 \/ k = 3 \/ k = 4 \/ k = 5 \/ k = 6 \/ k = 7) as H by lia.
  by destruct H as [->|[->|[->|[->|[->|[->|[->| ->]]]]]]], b.
Qed.

Lemma block_command_wf a s : wf_ 32 s -> wf_ 32 (exec (block_command a) s).
Proof.
  intros Hw. apply (ghoare_bind pin (openm 32) (openm 32) inv (write 4 a) (fun _ => write 2 0x54)) with (s := s) (g := irq_level s).
  - change (write 4 a) with (modify (fun s => s <| address := a |>)). open_update.
  - intros _. apply write_control_open.
  - done.
Qed.

Lemma block_write_exec i s : 0 <= data0 s ->
  let count := Z.min (data0 s) BLOCK_MAX in
  exec (block_write false i) s = s
    <| devices := alter (e_writes (command s) (count :: map (arr_get (block s)) (seqZ 0 count))) i (devices s) |>
    <| index := 0 |> /\ res (block_write false i) s = true.
Proof.
  intros Hd count. unfold block_write. rewrite exec_get, res_get, !exec_bind, !res_bind, write_block_exec by done.
  done.
Qed.

(** The registers a block write command leaves behind. *)
Lemma block_write_command s k e : wf_ 32 s -> ready s -> 0 <= k < 8 -> 0 <= data0 s <= 32 ->
  devices s !! Z.to_nat k = Some e -> e_wf e -> device s (0x50 + k) = Some (Z.to_nat k) ->
  let s1 := exec (block_command ((0x50 + k) * 2)) s in
  wf_ 32 s1 /\ ready s1 /\ data0 s1 = data0 s /\ command s1 = command s /\ block s1 = block s /\
  device s1 (0x50 + k) = Some (Z.to_nat k) /\
  devices s1 !! Z.to_nat k =
    Some (e_writes (command s) (data0 s :: map (arr_get (block s)) (seqZ 0 (data0 s))) e).
Proof.
  intros Hw Hr Hk Hd Hi Hew Hdev. cbv zeta.
  destruct (slave_address k false Hk) as [Ha1 Ha2]. cbn [b2z] in *. rewrite Z.add_0_r in Ha1, Ha2.
  pose proof (block_command_wf ((0x50 + k) * 2) s Hw) as Hw1. revert Hw1.
  destruct (block_command_exec s ((0x50 + k) * 2) (Z.to_nat k) Hr) as [l ->]; [by rewrite Ha1|].
  rewrite Ha2. set (s0 := s <| address := _ |> <| control := _ |>).
  destruct (block_write_exec (Z.to_nat k) s0 ltac:(cbn; lia)) as [-> ->].
  change (data0 s0) with (data0 s). change (command s0) with (command s). change (block s0) with (block s).
  change (devices s0) with (devices s). rewrite Z.min_l by (unfold BLOCK_MAX; lia).
  intros Hw1. destruct Hr as [He Ht Hx]. split_and!; try done.
  - split; [|done|done]. cbn. rewrite has_lor, He. done.
  - by destruct (device_found _ k Hw1 Hk) as (? & _ & _ & ->).
  - change (alter (e_writes (command s) (data0 s :: map (arr_get (block s)) (seqZ 0 (data0 s))))
      (Z.to_nat k) (devices s) !! Z.to_nat k
      = Some (e_writes (command s) (data0 s :: map (arr_get (block s)) (seqZ 0 (data0 s))) e)).
    by rewrite list_lookup_alter_eq, Hi.
Qed.

(** A block written to an EEPROM reads back.  With the 32-byte buffer enabled
    and no error pending, a block write command to any of the eight devices
    followed by a block read of the same command offset returns, whatever the
    offset (it may wrap) and the rest of the state, the byte count that was in
    HST_D0 and exactly the bytes that were in the buffer, and ends with INTR
    and no error. *)
Theorem smbus_block_roundtrip (s : t) (k : Z)
    (Hw : wf_ 32 s) (Hr : ready s) (Hk : 0 <= k < 8) (Hd : 0 <= data0 s <= 32) :
  let s' := exec (block_command ((0x50 + k) * 2) ;;; block_command ((0x50 + k) * 2 + 1)) s in
  data0 s' = data0 s
  /\ take (Z.to_nat (data0 s)) (block s') = take (Z.to_nat (data0 s)) (block s)
  /\ has (status s') STS_INTR = true
  /\ has (status s') (STS_DEV_ERR .| STS_BUS_ERR .| STS_FAILED) = false.
Proof.
  cbv zeta. rewrite exec_bind. destruct (device_found s k Hw Hk) as (e & Hi & Hew & Hdev).
  destruct (block_write_command s k e Hw Hr Hk Hd Hi Hew Hdev) as (Hw1 & Hr1 & D1 & C1 & B1 & V1 & I1).
  set (n := data0 s) in *. set (vs := map (arr_get (block s)) (seqZ 0 n)) in *.
  revert Hw1 Hr1 D1 C1 B1 V1 I1. generalize (exec (block_command ((0x50 + k) * 2)) s).
  intros s1 Hw1 Hr1 D1 C1 B1 V1 I1.
  destruct (slave_address k true Hk) as [Hb1 Hb2]. cbn [b2z] in Hb1, Hb2.
  destruct (block_command_exec s1 ((0x50 + k) * 2 + 1) (Z.to_nat k) Hr1) as [l ->]; [by rewrite Hb1|].
  rewrite Hb2. set (s0 := s1 <| address := _ |> <| control := _ |>).
  assert (length vs = Z.to_nat n) as Hlen by (unfold vs; rewrite length_map, length_seqZ; done).
  assert (forall j v, vs !! j = Some v -> v = arr_get (block s) (Z.of_nat j) /\ (j < 32)%nat) as Hvs.
  { intros j v Hj. unfold vs in Hj. rewrite list_lookup_fmap in Hj.
    destruct (seqZ 0 n !! j) as [z|] eqn:Ez; [|done]. apply lookup_seqZ in Ez as [-> ?].
    cbn in Hj. simplify_eq. split; [f_equal; lia|lia]. }
  assert (Forall byte vs) as Hbv.
  { apply Forall_map, Forall_true. intros j. apply arr_get_Forall; [unfold byte; lia|apply Hw]. }
  assert (byte n) as Hbn by (unfold byte; lia).
  destruct (block_read_exec (Z.to_nat k) s0 (e_writes (command s) (n :: vs) e) n vs) as (R1 & R2 & R3 & R4 & R5);
    try done.
  - destruct Hw1. by split.
  - by destruct Hr1.
  - change (command s0) with (command s1). rewrite C1.
    pose proof (e_writes_get (n :: vs) (command s) e 0 n Hew ltac:(cbn; lia) eq_refl) as H0.
    change (Z.of_nat 0) with 0 in H0. rewrite Z.add_0_r in H0. rewrite H0. by apply u8_id.
  - intros j v Hj. change (command s0) with (command s1). rewrite C1.
    replace (command s + 1 + Z.of_nat j) with (command s + Z.of_nat (S j)) by lia.
    rewrite (e_writes_get (n :: vs) _ _ (S j) v); [|done|cbn; lia|done].
    apply u8_id. eapply Forall_lookup_1; [apply Hbv|done].
  - rewrite R3. cbn [when exec modify fst snd data0 block status].
    change (status (?x <| status := ?y |> <| irq_level := l |>)) with y.
    change (data0 (?x <| status := ?y |> <| irq_level := l |>)) with (data0 x).
    change (block (?x <| status := ?y |> <| irq_level := l |>)) with (block x).
    rewrite R1, R2, R5, !has_lor, (ready_errors _ Hr1 : has (status s0) _ = false), orb_true_r.
    split_and!; try done. apply list_eq. intros j. destruct (vs !! j) as [v|] eqn:Ej.
    + destruct (Hvs j v Ej) as [-> Hlt]. pose proof (lookup_lt_Some _ _ _ Ej).
      rewrite lookup_take_lt by lia. unfold arr_get. rewrite Nat2Z.id.
      destruct (lookup_lt_is_Some_2 (block s) j) as [x ->]; [|done]. destruct (wf_block _ _ Hw). lia.
    + symmetry. apply lookup_ge_None. apply lookup_ge_None in Ej. rewrite length_take.
      destruct (wf_block _ _ Hw). lia.
Qed.

Lemma smbus_block_roundtrip_witness :
  let ops := [Write 0x0D 2; Write 0x05 3; Write 0x03 0xFE; Write 0x07 7; Write 0x07 8; Write 0x07 9] in
  let s := exec (run_ops ops) create in
  take 3 (block (exec (block_command 0xA2 ;;; block_command 0xA3) s)) = [7; 8; 9].
Proof.
  cbv zeta.
  set (ops := [Write 0x0D 2; Write 0x05 3; Write 0x03 0xFE; Write 0x07 7; Write 0x07 8; Write 0x07 9]).
  pose proof (run_ops_inv ops create false smbus_create_inv) as [[Hw _] _].
  destruct (smbus_block_roundtrip (exec (run_ops ops) create) 1 Hw) as (_ & H & _).
  - split; vm_compute; reflexivity.
  - lia.
  - split; vm_compute; discriminate.
  - exact H.
Defined.

(** ** The semaphore *)

Definition held (s : t) (_ : unit) : Prop := has (status s) STS_INUSE = true.
Definition no_ghost (u : unit) (_ : event) : unit := u.

Ltac held_update :=
  apply ghoare_modify; intros ? ? ?; unfold held in *; cbn;
  rewrite ?has_lor, ?has_clear_other by done;
  repeat match goal with H : has _ _ = true |- _ => rewrite H end; done.

(** No command, ending, kill or byte gives the semaphore back. *)
Ltac held_step :=
  gstep held ltac:(idtac; lazymatch goal with
    | |- ghoare _ _ (modify _) _ => held_update
    | |- ghoare _ _ (emit _) _ => by apply ghoare_emit
    | |- ghoare _ _ (match ?x with _ => _ end) _ => destruct x
    end).

Lemma receive_bytes_held i n : ghoare no_ghost held (receive_bytes i n) held.
Proof. induction n as [|n IH]; [apply ghoare_ret|]. unfold receive_bytes, receive_byte, on_device. held_step. apply IH. Qed.

Lemma start_held : ghoare no_ghost held start held.
Proof.
  unfold start. apply ghoare_get_any. intros s0. cbv zeta. apply ghoare_if; [held_update|].
  destruct (device s0 (address s0 .>> 1)) as [i|]; [|held_update].
  apply ghoare_bind with (Q := held); [|intros b; held_step].
  unfold run_protocol, block_read, block_write, block_write_bytes, write_block, begin_transfer,
    send_byte, write_byte, receive_byte, on_device.
  gstep held ltac:(idtac; lazymatch goal with
    | |- ghoare _ _ (modify _) _ => held_update
    | |- ghoare _ _ (receive_bytes _ _) _ => apply receive_bytes_held
    | |- ghoare _ _ (match ?x with _ => _ end) _ => destruct x
    end).
Qed.

Lemma next_byte_held : ghoare no_ghost held next_byte held.
Proof.
  unfold next_byte, next_write, next_read, end_transfer, write_block, write_byte, receive_byte, on_device.
  apply ghoare_get_any. intros s0. destruct (transfer s0), (device s0 (address s0 .>> 1)); held_step.
Qed.

(** An operation that does not release the semaphore. *)
Definition no_release (o : op) : Prop :=
  match o with
  | Write 0 v => has v STS_INUSE = false
  | Reset => False
  | _ => True
  end.

Lemma run_op_held o : no_release o -> ghoare no_ghost held (run_op o) held.
Proof.
  destruct o as [offset|offset value| |e h b]; cbn [run_op no_release]; intros Ho; [|..|done|].
  - unfold read, read_block_db. apply ghoare_get_any. intros s0. repeat case_match; held_step.
  - apply ghoare_bind with (Q := held); [|intros _; apply ghoare_ret].
    destruct (Z.eq_dec offset 0) as [->|Hne].
    + cbn [write]. unfold write_status, update_irq.
      apply ghoare_get_any. intros s0. cbv zeta. apply ghoare_bind with (Q := held).
      * apply ghoare_modify. intros s g Hs. unfold held in *. cbn. rewrite has_clear_other; [done|].
        apply has_false_iff in Ho.
        rewrite (Z.land_comm value), <- Z.land_assoc, Ho. apply Z.land_0_r.
      * intros _. apply ghoare_bind with (Q := held); [apply ghoare_when, next_byte_held|intros _].
        held_step.
    + unfold write, write_control, write_block_db, kill, update_irq.
      repeat case_match; try done; gstep held ltac:(idtac; lazymatch goal with
        | |- ghoare _ _ (modify _) _ => held_update
        | |- ghoare _ _ (emit _) _ => by apply ghoare_emit
        | |- ghoare _ _ start _ => apply start_held end).
  - unfold update_decode. held_step.
Qed.

(** The status reads that find the semaphore free, and so take it. *)
Fixpoint grants (ops : list op) (s : t) : nat :=
  match ops with
  | [] => 0
  | o :: ops =>
      (match o with
       | Read 0 => if has (res (run_op o) s) STS_INUSE then 0 else 1
       | _ => 0
       end + grants ops (exec (run_op o) s))%nat
  end.

Lemma grants_held ops : forall s, Forall no_release ops -> held s tt -> grants ops s = 0%nat.
Proof.
  induction ops as [|o ops IH]; intros s Hf Hs; [done|]. apply Forall_cons in Hf as [Ho Hf]. cbn [grants].
  rewrite (IH _ Hf (run_op_held o Ho s tt Hs)).
  destruct o as [[]| | |]; try done. cbn. unfold held in Hs. by rewrite Hs.
Qed.

(** INUSE_STS is a lock: over any sequence of accesses that neither writes a
    one to it nor resets the controller, whatever commands run in between, at
    most one read of the status register finds it free. *)
Theorem smbus_semaphore (ops : list op) (s : t) (Hf : Forall no_release ops) :
  (grants ops s <= 1)%nat.
Proof.
  revert s. induction ops as [|o ops IH]; intros s; [cbn; lia|].
  apply Forall_cons in Hf as [Ho Hf]. specialize (IH Hf).
  destruct (decide (o = Read 0)) as [->|Hne].
  - cbn [grants]. rewrite (grants_held ops); [case_match; lia|done|].
    unfold held. cbn. by rewrite has_lor, orb_true_r.
  - cbn [grants]. specialize (IH (exec (run_op o) s)).
    destruct o as [[]| | |]; try done; lia.
Qed.

Lemma smbus_semaphore_witness :
  let ops := [Read 0; Write 0x02 0x54; Read 0; Write 0x00 0x1E; Read 0] in
  (grants ops create <= 1)%nat /\ grants ops create = 1%nat.
Proof.
  split.
  - apply smbus_semaphore. repeat constructor; vm_compute; reflexivity.
  - vm_compute. reflexivity.
Defined.

End Smbus.
