(* ===== verification/Clock.v ===== *)
(** * src/machine_clock.js: the machine's one time domain

    Milliseconds are doubles: rationals, with every operation rounded as the program's are ([Double.v]).  The host clock and the counter of
    committed instructions are read through callbacks: a method takes what they
    return when it calls them ([host], [None] for a value that is not finite;
    [source], the instructions committed since the last call).  [None] as a
    result is the Error the method throws. *)

From Stdlib Require Import QArith Qminmax Lqa.
From S2P Require Import Prelude Rat Double.

Import Double.

Set Default Goal Selector "!".
Open Scope Z_scope.

Module Clock.

Inductive mode_kind := Normal | Deterministic.

Record t := mk {
  mode : mode_kind;
  instructions_per_ms : Q;
  max_host_delta_ms : Q;
  wall_epoch_ms : Q;
  time_ms : Q;
  instruction_count : Z;
  idle_ms : Q;
  paused : bool;
  host_last : Q;
  host_pause_count : Z;
  discarded_host_ms : Q;
  host_backwards_count : Z;
  instruction_source : bool
}.

Definition MAX_SAFE_INTEGER : Z := 2 ^ 53 - 1.
Definition is_safe_integer (z : Z) : bool := Z.abs z <=? MAX_SAFE_INTEGER.

Definition qlt (a b : Q) : bool := negb (Qle_bool b a).

(** The constructor, with its options resolved. *)
Definition create (m : mode_kind) (ipms max_delta epoch : Q) (host : option Q) : option t :=
  if Qle_bool ipms 0 || Qle_bool max_delta 0 then None
  else match host with
       | None => None
       | Some h => Some (mk m ipms max_delta epoch 0 0 0 false h 0 0 0 false)
       end.

Definition commit_instructions (count : Z) (s : t) : option t :=
  if negb (is_safe_integer count) || (count <? 0) || negb (is_safe_integer (instruction_count s + count))
  then None
  else
    match mode s, paused s with
    | Deterministic, false =>
        let n := instruction_count s + count in
        Some (s <| instruction_count := n |>
                <| time_ms := fadd (fdiv (inject_Z n) (instructions_per_ms s)) (idle_ms s) |>)
    | _, _ => Some s
    end.

(** The part of [now] that samples the host clock. *)
Definition sample_host (host : option Q) (s : t) : option t :=
  match host with
  | None => None
  | Some h =>
      let delta := fsub h (host_last s) in
      if qlt delta 0 then Some (s <| host_backwards_count := host_backwards_count s + 1 |>)
      else
        let s := s <| host_last := h |> in
        let s :=
          if qlt (max_host_delta_ms s) delta
          then s <| host_pause_count := host_pause_count s + 1 |>
                 <| discarded_host_ms := fadd (discarded_host_ms s) (fsub delta (max_host_delta_ms s)) |>
          else s in
        Some (s <| time_ms := fadd (time_ms s) (Qmin delta (max_host_delta_ms s)) |>)
  end.

Definition now (host : option Q) (source : Z) (s : t) : option (Q * t) :=
  s1 ← (match paused s, mode s, instruction_source s with
        | false, Deterministic, true => commit_instructions source s
        | _, _, _ => Some s
        end);
  s2 ← (match paused s1, mode s1 with
        | false, Normal => sample_host host s1
        | _, _ => Some s1
        end);
  Some (time_ms s2, s2).

Definition wall_time (host : option Q) (source : Z) (s : t) : option (Q * t) :=
  r ← now host source s;
  Some (fadd (wall_epoch_ms s) r.1, r.2).

Definition advance_instructions (count : Z) (host : option Q) (source : Z) (s : t) : option (Q * t) :=
  s ← commit_instructions count s;
  now host source s.

Definition set_instruction_source (present : bool) (host : option Q) (source : Z) (s : t) : option t :=
  r ← now host source s;
  Some (r.2 <| instruction_source := present |>).

(** [advance_to] reads the clock twice. *)
Definition advance_to (deadline : Q) (host1 host2 : option Q) (source1 source2 : Z) (s : t) : option (Q * t) :=
  r ← now host1 source1 s;
  let s := r.2 in
  if qlt deadline 0 then None
  else
    let s := match mode s, paused s with
             | Deterministic, false =>
                 if qlt (time_ms s) deadline
                 then s <| idle_ms := fadd (idle_ms s) (fsub deadline (time_ms s)) |> <| time_ms := deadline |>
                 else s
             | _, _ => s
             end in
    now host2 source2 s.

Definition pause (host : option Q) (source : Z) (s : t) : option t :=
  r ← now host source s;
  Some (r.2 <| paused := true |>).

(** [host_now] is not checked here. *)
Definition resume (host : Q) (s : t) : t :=
  if paused s then s <| host_last := host |> <| paused := false |> else s.

(** ** State images *)

Definition image : Type := Z * mode_kind * Q * Q * Q * Q * Z * Q * Z * Q * Z.

Definition get_state (host : option Q) (source : Z) (s : t) : option (image * t) :=
  r ← now host source s;
  let s := r.2 in
  Some ((1, mode s, r.1, wall_epoch_ms s, instructions_per_ms s, max_host_delta_ms s,
         instruction_count s, idle_ms s, host_pause_count s, discarded_host_ms s,
         host_backwards_count s), s).

Definition set_state (i : image) (host : Q) (s : t) : option t :=
  let '(v, m, time, epoch, ipms, maxd, count, idle, pauses, discarded, backwards) := i in
  if negb (v =? 1) || qlt time 0 || Qle_bool ipms 0 || Qle_bool maxd 0
     || negb (is_safe_integer count) || (count <? 0) || qlt idle 0
     || negb (is_safe_integer pauses) || (pauses <? 0) || qlt discarded 0
     || negb (is_safe_integer backwards) || (backwards <? 0)
  then None
  else Some (mk m ipms maxd epoch time count idle (paused s) host pauses discarded backwards
               (instruction_source s)).

(** ** Invariant *)

Lemma qlt_spec a b : reflect (a < b)%Q (qlt a b).
Proof.
  unfold qlt. destruct (Qle_bool b a) eqn:E; cbn; constructor.
  - apply Qle_bool_iff in E. lra.
  - apply Qnot_le_lt. intros H. apply Qle_bool_iff in H. congruence.
Qed.

(** Times are doubles; a deterministic clock stands where the committed instructions and the idle time put it. *)
Record wf (s : t) : Prop := {
  wf_rate : (0 < instructions_per_ms s)%Q;
  wf_delta : (0 < max_host_delta_ms s)%Q;
  wf_time : (0 <= time_ms s)%Q;
  wf_double : (rnd (time_ms s) == time_ms s)%Q;
  wf_count : 0 <= instruction_count s;
  wf_idle : (0 <= idle_ms s)%Q;
  wf_discarded : (0 <= discarded_host_ms s)%Q;
  wf_deterministic : mode s = Deterministic ->
    (time_ms s == fadd (fdiv (inject_Z (instruction_count s)) (instructions_per_ms s)) (idle_ms s))%Q
}.

(** What every operation keeps: the configuration, and time that does not go
    back. *)
Definition later (s s' : t) : Prop :=
  (time_ms s <= time_ms s')%Q /\ mode s' = mode s /\ instructions_per_ms s' = instructions_per_ms s /\
  max_host_delta_ms s' = max_host_delta_ms s /\ wall_epoch_ms s' = wall_epoch_ms s.

Lemma later_refl s : later s s.
Proof. split_and!; [lra|done..]. Qed.

Lemma later_trans a b c : later a b -> later b c -> later a c.
Proof. intros (?&?&?&?&?) (?&?&?&?&?). split_and!; [lra|congruence..]. Qed.

Lemma rnd_nonneg x : (0 <= x)%Q -> (0 <= rnd x)%Q.
Proof. intros H. apply (rnd_mono 0 x H). Qed.

(** A double plus something that is not negative, rounded, is not below it. *)
Lemma fadd_grows x d : (rnd x == x)%Q -> (0 <= d)%Q -> (x <= fadd x d)%Q.
Proof. intros Hx Hd. rewrite <- Hx at 1. apply rnd_mono. lra. Qed.

Lemma deterministic_time_mono n n' r idle : (0 < r)%Q -> n <= n' -> (fadd (fdiv (inject_Z n) r) idle <= fadd (fdiv (inject_Z n') r) idle)%Q.
Proof.
  intros Hr Hn. apply rnd_mono. apply Qplus_le_compat; [|lra]. apply rnd_mono. unfold Qdiv. apply Qmult_le_compat_r; [by rewrite <- Zle_Qle|].
  by apply Qlt_le_weak, Qinv_lt_0_compat.
Qed.

Lemma commit_instructions_spec n s s' :
  wf s -> commit_instructions n s = Some s' -> wf s' /\ later s s' /\ paused s' = paused s.
Proof.
  intros Hw. unfold commit_instructions.
  destruct (negb _ || _ || _) eqn:E; [done|]. apply orb_false_iff in E as [E _].
  apply orb_false_iff in E as [_ Hn%Z.ltb_ge].
  destruct (mode s) eqn:Em, (paused s) eqn:Ep; intros [= <-];
    try (split_and!; [done|apply later_refl|done..]).
  pose proof Hw as []. specialize (wf_deterministic0 Em).
  pose proof (deterministic_time_mono (instruction_count s) (instruction_count s + n) (instructions_per_ms s) (idle_ms s) wf_rate0 ltac:(lia)) as Ht.
  set (time := fadd _ _) in *. assert (time_ms s <= fadd (fdiv (inject_Z (instruction_count s + n)) (instructions_per_ms s)) (idle_ms s))%Q as Hl by lra.
  split_and!; [|split_and!; [exact Hl|done..]|done].
  split; cbn; try done; [lra|apply rnd_idem|lia].
Qed.

Lemma sample_host_spec h s s' :
  wf s -> sample_host h s = Some s' -> mode s = Normal ->
  wf s' /\ later s s' /\ paused s' = paused s /\ (time_ms s' <= fadd (time_ms s) (max_host_delta_ms s))%Q.
Proof.
  intros Hw. unfold sample_host. destruct h as [h|]; [|done]. intros E Em.
  pose proof Hw as [? ? ? Hd ? ? ? _]. set (delta := fsub h (host_last s)) in *.
  destruct (qlt_spec delta 0) as [Hlt|Hge].
  - injection E as <-. split_and!; [|split_and!; cbn; [lra|done..]|done|].
    + split; cbn; try done. congruence.
    + apply fadd_grows; [done|lra].
  - cbv zeta in E. change (max_host_delta_ms (s <| host_last := h |>)) with (max_host_delta_ms s) in E.
    change (discarded_host_ms (s <| host_last := h |>)) with (discarded_host_ms s) in E.
    pose proof (Q.min_spec delta (max_host_delta_ms s)) as Hmin. set (d := Qmin delta (max_host_delta_ms s)) in *.
    assert (0 <= d /\ d <= max_host_delta_ms s)%Q as [Hd0 Hd1] by (destruct Hmin as [[? ?]|[? ?]]; lra).
    pose proof (fadd_grows (time_ms s) d Hd Hd0) as Hgrow.
    assert (fadd (time_ms s) d <= fadd (time_ms s) (max_host_delta_ms s))%Q as Hbound by (apply rnd_mono; lra).
    assert (rnd (fadd (time_ms s) d) == fadd (time_ms s) d)%Q as Hdouble by apply rnd_idem.
    assert (0 <= fadd (time_ms s) d)%Q as Hnn by lra.
    destruct (qlt_spec (max_host_delta_ms s) delta) as [Hmax|Hmax]; injection E as <-.
    + assert (0 <= fadd (discarded_host_ms s) (fsub delta (max_host_delta_ms s)))%Q as Hdisc.
      { apply rnd_nonneg. pose proof (rnd_nonneg (delta - max_host_delta_ms s) ltac:(lra)) as Hsub. unfold fsub. lra. }
      split_and!; [|split_and!; [exact Hgrow|done..]|done|exact Hbound]. split; first [done|exact Hnn|cbn; congruence].
    + split_and!; [|split_and!; [exact Hgrow|done..]|done|exact Hbound]. split; first [done|exact Hnn|cbn; congruence].
Qed.

Lemma now_spec h n s r : wf s -> now h n s = Some r ->
  wf r.2 /\ later s r.2 /\ r.1 = time_ms r.2 /\ paused r.2 = paused s /\
  (paused s = true -> r.2 = s) /\ (mode s = Normal -> (time_ms r.2 <= fadd (time_ms s) (max_host_delta_ms s))%Q).
Proof.
  intros Hw. unfold now. destruct (paused s) eqn:Ep.
  - cbn. rewrite Ep. intros [= <-]. cbn. pose proof Hw as [].
    split_and!; try done; [apply later_refl|]. intros _. apply fadd_grows; [done|lra].
  - destruct (mode s) eqn:Em.
    + cbn [mbind option_bind]. rewrite Ep, Em. destruct (sample_host h s) as [s'|] eqn:Es; [|done]. intros [= <-].
      destruct (sample_host_spec h s s' Hw Es Em) as (Hw' & Hl & Hp & Hb). cbn [fst snd]. rewrite Ep in Hp. split_and!; try done.
    + assert (forall s', wf s' -> later s s' -> paused s' = paused s ->
        (s2 ← (match paused s', mode s' with false, Normal => sample_host h s' | _, _ => Some s' end);
         Some (time_ms s2, s2)) = Some r ->
        wf r.2 /\ later s r.2 /\ r.1 = time_ms r.2 /\ paused r.2 = false) as Hk.
      { intros s' Hw' Hl Hp. destruct Hl as (? & Em' & ?) eqn:El. rewrite Hp, Ep, Em', Em.
        cbn. intros [= <-]. cbn. by rewrite Hp, Ep. }
      destruct (instruction_source s).
      * destruct (commit_instructions n s) as [s'|] eqn:Ec; [|done]. cbn [mbind option_bind].
        destruct (commit_instructions_spec n s s' Hw Ec) as (Hw' & Hl & Hp).
        intros E. destruct (Hk s' Hw' Hl Hp E) as (? & ? & ? & ?). by split_and!.
      * cbn [mbind option_bind]. intros E.
        destruct (Hk s Hw (later_refl s) eq_refl E) as (? & ? & ? & ?). by split_and!.
Qed.

(** ** Operations in sequence *)

Inductive op :=
| Now (host : option Q) (source : Z)
| Advance (count : Z) (host : option Q) (source : Z)
| AdvanceTo (deadline : Q) (host1 host2 : option Q) (source1 source2 : Z)
| SetSource (present : bool) (host : option Q) (source : Z)
| Pause (host : option Q) (source : Z)
| Resume (host : Q).

(** A run ends with the first error thrown. *)
Definition step (o : op) (s : t) : option t :=
  match o with
  | Now h n => snd <$> now h n s
  | Advance c h n => snd <$> advance_instructions c h n s
  | AdvanceTo d h1 h2 n1 n2 => snd <$> advance_to d h1 h2 n1 n2 s
  | SetSource p h n => set_instruction_source p h n s
  | Pause h n => pause h n s
  | Resume h => Some (resume h s)
  end.

Fixpoint run (ops : list op) (s : t) : option t :=
  match ops with
  | [] => Some s
  | o :: ops => s ← step o s; run ops s
  end.

Definition is_jump (o : op) : bool := match o with AdvanceTo _ _ _ _ _ => true | _ => false end.

Lemma step_spec o s s' : wf s -> (mode s = Deterministic -> is_jump o = false) -> step o s = Some s' -> wf s' /\ later s s'.
Proof.
  intros Hw Hj. assert (forall h n s r, wf s -> now h n s = Some r -> wf r.2 /\ later s r.2) as Hn
    by (intros ? ? ? ? H1 H2; destruct (now_spec _ _ _ _ H1 H2) as (? & ? & _); done).
  destruct o as [h n|c h n|d h1 h2 n1 n2|p h n|h n|h]; cbn [step].
  - destruct (now h n s) as [r|] eqn:E; [|done]. intros [= <-]. by eapply Hn.
  - unfold advance_instructions. destruct (commit_instructions c s) as [s1|] eqn:Ec; [|done].
    destruct (commit_instructions_spec c s s1 Hw Ec) as (Hw1 & Hl1 & _). cbn [mbind option_bind].
    destruct (now h n s1) as [r|] eqn:E; [|done]. intros [= <-].
    destruct (Hn _ _ _ _ Hw1 E). split; [done|]. by eapply later_trans.
  - destruct (mode s) eqn:Em; [|by specialize (Hj eq_refl)]. unfold advance_to. destruct (now h1 n1 s) as [r|] eqn:E; [|done]. cbn [mbind option_bind].
    destruct (Hn _ _ _ _ Hw E) as [Hw1 Hl1]. destruct (qlt d 0); [done|]. cbv zeta. pose proof Hl1 as (_ & Em1 & _). rewrite Em1, Em.
    destruct (now h2 n2 r.2) as [r2|] eqn:E2; [|done]. intros [= <-].
    destruct (Hn _ _ _ _ Hw1 E2) as [Hw3 Hl3]. split; [done|]. by eapply later_trans.
  - unfold set_instruction_source. destruct (now h n s) as [r|] eqn:E; [|done]. intros [= <-].
    destruct (Hn _ _ _ _ Hw E) as [[] ?]. by split.
  - unfold pause. destruct (now h n s) as [r|] eqn:E; [|done]. intros [= <-].
    destruct (Hn _ _ _ _ Hw E) as [[] ?]. by split.
  - intros [= <-]. unfold resume. destruct (paused s); [|split; [done|apply later_refl]].
    destruct Hw. split; [by split|split_and!; cbn; [lra|done..]].
Qed.

(** C38: Guest time does not run backwards, in the arithmetic of doubles the code uses: from a state as the constructor
    makes it (a positive rate, a time that is a double and not negative and that, in deterministic mode, is the
    committed instructions divided by their rate plus the idle time), over any sequence of reads, committed
    instructions, changes of the instruction source, pauses and resumes in which no argument is refused, whatever the
    host clock does (stand still, go back, leap), the machine clock does not decrease; a normal clock does not either
    when it is told to jump to a deadline (it does not jump).  A deterministic clock that was not told to jump stands
    at exactly the committed instructions divided by their rate, plus the idle time, each rounded once.  Jumps of a
    deterministic clock are excluded: after one it can go back by the rounding (see [clock_steps_back]). *)
Theorem clock_monotone (s s' : t) (ops : list op) (Hw : wf s)
    (Hj : mode s = Deterministic -> Forall (fun o => is_jump o = false) ops) (Hr : run ops s = Some s') :
  (time_ms s <= time_ms s')%Q /\
  (mode s = Deterministic ->
     (time_ms s' == fadd (fdiv (inject_Z (instruction_count s')) (instructions_per_ms s)) (idle_ms s'))%Q).
Proof.
  assert (wf s' /\ later s s') as [Hw' Hl].
  { clear -Hw Hj Hr. revert s Hw Hj Hr. induction ops as [|o ops IH]; intros s Hw Hj; cbn.
    - intros [= <-]. split; [done|apply later_refl].
    - destruct (step o s) as [s1|] eqn:E; [|done]. cbn. intros Hr.
      destruct (step_spec o s s1 Hw) as [Hw1 Hl1]; [intros Em; specialize (Hj Em); by inversion Hj|done|].
      destruct (IH s1 Hw1) as [Hw2 Hl2]; [|done|].
      + pose proof Hl1 as (_ & -> & _). intros Em. specialize (Hj Em). by inversion Hj.
      + split; [done|]. by eapply later_trans. }
  destruct Hl as (? & Em & Er & _). split; [done|]. intros E. destruct Hw'.
  rewrite <- Er. apply wf_deterministic0. congruence.
Qed.

Definition demo (m : mode_kind) : t := mk m 100000 1000 0 0 0 0 false 0 0 0 0 false.
Lemma clock_demo_wf m : wf (demo m).
Proof. split; cbn; try lra; try lia; intros; reflexivity. Qed.

Lemma clock_monotone_witness :
  exists s', run [Now (Some 5%Q) 0; Now (Some 3%Q) 0; Pause (Some 9000%Q) 0; Resume 10000%Q;
                  AdvanceTo 20000%Q (Some 10001%Q) (Some 10002%Q) 0 0] (demo Normal) = Some s' /\ (0 <= time_ms s')%Q.
Proof.
  eexists. split; [vm_compute; reflexivity|].
  apply (clock_monotone (demo Normal) _ [Now (Some 5%Q) 0; Now (Some 3%Q) 0; Pause (Some 9000%Q) 0;
    Resume 10000%Q; AdvanceTo 20000%Q (Some 10001%Q) (Some 10002%Q) 0 0] (clock_demo_wf Normal)).
  - discriminate.
  - vm_compute. reflexivity.
Defined.

(** The double 29.895. *)
Definition deadline_29_895 : Q := 8414694428765061 # 281474976710656.

(** A deterministic clock of 100000 instructions per millisecond that has committed 3064 of them and is advanced to
    29.895 ms shows that time, and after the next commit, of no instructions, less. *)
Theorem clock_steps_back : exists s1 s2,
  run [Advance 3064 None 0; AdvanceTo deadline_29_895 None None 0 0] (demo Deterministic) = Some s1
  /\ time_ms s1 = deadline_29_895
  /\ commit_instructions 0 s1 = Some s2 /\ (time_ms s2 < time_ms s1)%Q.
Proof. eexists _, _. split; [vm_compute; reflexivity|]. split; [vm_compute; reflexivity|]. split; vm_compute; reflexivity. Qed.

(** Deterministic time does not depend on how the instructions were sliced:
    committing [a] and then [b] instructions leaves the same state as committing
    [a + b] at once, and fails for the same totals. *)
Theorem clock_slices (s : t) (a b : Z)
    (Hm : mode s = Deterministic) (Hp : paused s = false)
    (Ha : 0 <= a <= MAX_SAFE_INTEGER) (Hb : 0 <= b <= MAX_SAFE_INTEGER)
    (Hc : 0 <= instruction_count s)
    (Hab : a + b <= MAX_SAFE_INTEGER) :
  (s1 ← commit_instructions a s; commit_instructions b s1) = commit_instructions (a + b) s.
Proof.
  unfold commit_instructions, is_safe_integer. rewrite !(Z.abs_eq a), !(Z.abs_eq (a + b)) by lia.
  rewrite (Z.abs_eq (instruction_count s + a)), (Z.abs_eq (instruction_count s + (a + b))) by lia.
  rewrite (proj2 (Z.leb_le a _)), (proj2 (Z.leb_le (a + b) _)) by lia.
  rewrite (proj2 (Z.ltb_ge a 0)), (proj2 (Z.ltb_ge (a + b) 0)) by lia. cbn [negb orb].
  destruct (Z.leb_spec (instruction_count s + a) MAX_SAFE_INTEGER).
  - cbn [negb]. rewrite Hm, Hp. cbn [mbind option_bind]. cbn -[Z.leb Z.add fadd fdiv inject_Z MAX_SAFE_INTEGER].
    rewrite (Z.abs_eq b), (Z.abs_eq (instruction_count s + a + b)) by lia.
    rewrite (proj2 (Z.leb_le b _)), (proj2 (Z.ltb_ge b 0)) by lia. rewrite Hm, Hp, Z.add_assoc. cbn -[fadd fdiv].
    by destruct (_ <=? _).
  - rewrite (proj2 (Z.leb_gt (instruction_count s + (a + b)) MAX_SAFE_INTEGER)) by lia. done.
Qed.

Lemma clock_slices_witness :
  (s1 ← commit_instructions 70000 (demo Deterministic); commit_instructions 30000 s1)
    = commit_instructions 100000 (demo Deterministic).
Proof. apply (clock_slices (demo Deterministic) 70000 30000); try reflexivity; cbn; unfold MAX_SAFE_INTEGER; lia. Defined.

(** A read of a normal clock advances guest time by at most the configured bound (rounded), and a paused
    clock does not change at all, however often it is read. *)
Theorem clock_bound (s : t) (h : option Q) (n : Z) (r : Q * t)
    (Hw : wf s) (Hr : now h n s = Some r) :
  (paused s = true -> r = (time_ms s, s)) /\
  (mode s = Normal -> (r.1 <= fadd (time_ms s) (max_host_delta_ms s))%Q).
Proof.
  destruct (now_spec h n s r Hw Hr) as (Hw' & Hl & Ht & Hp & Hpause & Hn). split.
  - intros Ep. specialize (Hpause Ep). destruct r as [x s']. cbn in *. congruence.
  - intros Em. rewrite Ht. by apply Hn.
Qed.

Lemma clock_bound_witness :
  exists r, now (Some 2500%Q) 0 (demo Normal) = Some r /\ (r.1 <= 1000)%Q.
Proof.
  eexists. split; [vm_compute; reflexivity|].
  pose proof (proj2 (clock_bound (demo Normal) (Some 2500%Q) 0 _ (clock_demo_wf Normal) eq_refl) eq_refl)
    as H. revert H. vm_compute. done.
Defined.

End Clock.
