(* ===== verification/Tco.v ===== *)
(** * src/ich9_tco.js: the TCO watchdog

    All registers, the countdown, its two timeouts and the reset of the machine.
    [now] is the machine clock (src/machine_clock.js) in milliseconds, a double;
    sums and quotients of times round as doubles do (Double.v).  [expire_time] is
    [None] where the source has -1.  [q35] is what the rest of the chipset says:
    [None] without a Q35 part, [Some b] with the NO_REBOOT bit of its GCS
    register.  [now_] is whether [cpu.reboot_internal] resets the machine, and
    with it this device, before it returns: it does unless a CPU is executing or
    the application processors have to be stopped first. *)

From Stdlib Require Import QArith Qround Qminmax Lqa.
From S2P Require Import Prelude Rat Double.
Import Double.

Set Default Goal Selector "!".
Open Scope Z_scope.

Module Tco.

Definition TICK_MS : Z := 600.
Definition TCO_INT_STS : Z := 4.
Definition SW_TCO_SMI : Z := 2.
Definition TCO_TIMEOUT : Z := 8.
Definition SECOND_TO_STS : Z := 2.
Definition BOOT_STS : Z := 4.
Definition TCO_TMR_HLT : Z := 0x800.
Definition TCO_LOCK : Z := 0x1000.
Definition TCO1_CNT_WRITABLE : Z := 0x1F00.

Record t := mk {
  rld : Z;
  dat_in : Z;
  dat_out : Z;
  sts1 : Z;
  sts2 : Z;
  cnt1 : Z;
  cnt2 : Z;
  message1 : Z;
  message2 : Z;
  wdcnt : Z;
  sw_irq_gen : Z;
  tmr : Z;
  expire_time : option Q;
  timeouts : Z
}.

(** The constructor's [reset]. *)
Definition create : t := mk 0 0 0 0 0 0 0x0008 0 0 0 0x03 0x0004 None 0.
Definition reset : M t unit := put create.

Definition can_start (s : t) : bool := negb (has (cnt1 s) TCO_TMR_HLT) && negb (has (sts2 s) BOOT_STS).

Definition ticks (n : Z) : Q := inject_Z (n * TICK_MS).

Definition reload (now : Q) : M t unit :=
  modify (fun s => s <| timeouts := 0 |>) ;;;
  s <-- get ;;
  if can_start s then
    modify (fun s => s <| rld := tmr s .& 0x3FF |>) ;;;
    modify (fun s => s <| expire_time := Some (fadd now (ticks (rld s))) |>)
  else modify (fun s => s <| expire_time := None |>).

(** The end of [timeout]: the timer goes on from TCO_TMR. *)
Definition rearm : M t unit :=
  emit TcoSmi ;;;
  s <-- get ;;
  if can_start s then
    modify (fun s => s <| rld := tmr s .& 0x3FF |>) ;;;
    modify (fun s => s <| expire_time := (fun e => fadd e (ticks (rld s))) <$> expire_time s |>)
  else modify (fun s => s <| expire_time := None |>).

Definition timeout (now_ : bool) (q35 : option bool) : M t unit :=
  modify (fun s => s <| rld := 0 |> <| sts1 := sts1 s .| TCO_TIMEOUT |>
                     <| timeouts := timeouts s + 1 |>) ;;;
  s <-- get ;;
  if timeouts s =? 2 then
    modify (fun s => s <| sts2 := sts2 s .| (SECOND_TO_STS .| BOOT_STS) |> <| timeouts := 0 |>) ;;;
    match q35 with
    | Some false =>
        modify (fun s => s <| expire_time := None |>) ;;;
        emit (CpuReboot "tco") ;;;
        when now_ reset
    | _ => rearm
    end
  else rearm.

Definition timer (now_ : bool) (q35 : option bool) (now : Q) : M t Q :=
  s <-- get ;;
  match expire_time s with
  | None => ret 100%Q
  | Some e =>
      when (Qle_bool e now) (timeout now_ q35) ;;;
      s <-- get ;;
      match expire_time s with
      | None => ret 100%Q
      | Some e => ret (Qmin 100 (Qmax 0 (fsub e now)))
      end
  end.

(** The ticks left, rounded down. *)
Definition ticks_left (e now : Q) : Z := Z.max 0 (Qfloor (fdiv (fsub e now) (inject_Z TICK_MS))).

Definition read_byte (offset : Z) (now : Q) : M t Z :=
  s <-- get ;;
  let word value at_ := (value .>> ((offset - at_) .<< 3)) .& 0xFF in
  match offset with
  | 0x00 | 0x01 =>
      let r := match expire_time s with None => rld s | Some e => ticks_left e now end in
      ret (word r 0x00)
  | 0x02 => ret (dat_in s)
  | 0x03 => ret (dat_out s)
  | 0x04 | 0x05 => ret (word (sts1 s) 0x04)
  | 0x06 | 0x07 => ret (word (sts2 s) 0x06)
  | 0x08 | 0x09 => ret (word (cnt1 s) 0x08)
  | 0x0A | 0x0B => ret (word (cnt2 s) 0x0A)
  | 0x0C => ret (message1 s)
  | 0x0D => ret (message2 s)
  | 0x0E => ret (wdcnt s)
  | 0x10 => ret (sw_irq_gen s)
  | 0x12 | 0x13 => ret (word (tmr s) 0x12)
  | _ => ret 0
  end.

(** A byte merged into a 16-bit register, at the offset's parity. *)
Definition shift_of (offset : Z) : Z := (offset .& 1) .<< 3.
Definition merge (offset b old : Z) : Z :=
  old .& ~. (0xFF .<< shift_of offset) .| (b .<< shift_of offset).

Definition write_cnt1 (offset b : Z) (now : Q) : M t unit :=
  s <-- get ;;
  let old := cnt1 s in
  modify (fun s => s <| cnt1 := merge offset b (cnt1 s) .& TCO1_CNT_WRITABLE .| (old .& TCO_LOCK) |>) ;;;
  s <-- get ;;
  when (has (old .^ cnt1 s) TCO_TMR_HLT)
    (if can_start s then reload now
     else match expire_time s with
          | None => skip
          | Some e => modify (fun s => s <| rld := ticks_left e now |> <| expire_time := None |>)
          end).

Definition write_byte (offset b : Z) (now : Q) : M t unit :=
  match offset with
  | 0x00 | 0x01 => reload now
  | 0x02 => modify (fun s => s <| dat_in := b |> <| sts1 := sts1 s .| SW_TCO_SMI |>) ;;; emit TcoSmi
  | 0x03 => modify (fun s => s <| dat_out := b |> <| sts1 := sts1 s .| TCO_INT_STS |>)
  | 0x04 | 0x05 => modify (fun s => s <| sts1 := sts1 s .& ~. (b .<< shift_of offset) |>)
  | 0x06 | 0x07 => modify (fun s => s <| sts2 := sts2 s .& ~. (b .<< shift_of offset) |>)
  | 0x08 | 0x09 => write_cnt1 offset b now
  | 0x0A | 0x0B => modify (fun s => s <| cnt2 := merge offset b (cnt2 s) |>)
  | 0x0C => modify (fun s => s <| message1 := b |>)
  | 0x0D => modify (fun s => s <| message2 := b |>)
  | 0x0E => modify (fun s => s <| wdcnt := b |>)
  | 0x10 => modify (fun s => s <| sw_irq_gen := b .& 3 |>)
  | 0x12 | 0x13 => modify (fun s => s <| tmr := merge offset b (tmr s) .& 0x3FF |>)
  | _ => skip
  end.

(** ** State images *)

Definition get_state (s : t) : list Z * option Q * Z :=
  ([ 1; rld s; dat_in s; dat_out s; sts1 s; sts2 s; cnt1 s; cnt2 s; message1 s; message2 s;
     wdcnt s; sw_irq_gen s; tmr s ], expire_time s, timeouts s).

Definition set_state (state : list Z * option Q * Z) : M t unit :=
  let '(r, e, n) := state in
  let g i := arr_get r i in
  put (mk (g 1) (g 2) (g 3) (g 4) (g 5) (g 6) (g 7) (g 8) (g 9) (g 10) (g 11) (g 12) e n).

(** ** The watchdog as software sees it *)

Inductive op :=
| Write (offset b : Z) (now : Q)
| Read (offset : Z) (now : Q)
| Timer (now : Q).

Section ops.
Variable (now_ : bool) (q35 : option bool).

Definition run_op (o : op) : M t unit :=
  match o with
  | Write offset b now => write_byte offset b now
  | Read offset now => read_byte offset now ;;; skip
  | Timer now => timer now_ q35 now ;;; skip
  end.

Definition run (ops : list op) : M t unit := mfor ops run_op.

(** The timer call at which the countdown is found to have ended. *)
Definition expires (o : op) (s : t) : bool :=
  match o, expire_time s with
  | Timer now, Some e => Qle_bool e now
  | _, _ => false
  end.

(** A write that restarts the count of timeouts. *)
Definition reloads (o : op) : bool :=
  match o with Write offset _ _ => (offset =? 0) || (offset =? 1) | _ => false end.

Definition reboots (es : list event) : Prop := CpuReboot "tco" ∈ es.

Lemma rearm_events s : evs rearm s = [TcoSmi].
Proof. unfold evs, rearm. unfold bind. cbn. by case_match. Qed.

Lemma rearm_timeouts s : timeouts (exec rearm s) = timeouts s.
Proof. unfold rearm. rewrite exec_bind, exec_get. by case_match. Qed.

Lemma reload_spec now s : evs (reload now) s = [] /\ timeouts (exec (reload now) s) = 0.
Proof.
  unfold reload, evs, exec. rewrite bind_modify, bind_get. by case_match.
Qed.

Lemma write_cnt1_spec offset b now s :
  evs (write_cnt1 offset b now) s = [] /\
  (timeouts (exec (write_cnt1 offset b now) s) = timeouts s \/
   timeouts (exec (write_cnt1 offset b now) s) = 0).
Proof.
  unfold write_cnt1, evs, exec. rewrite bind_get. cbv zeta. rewrite bind_modify, bind_get. unfold when.
  case_match; [|by auto]. case_match.
  - match goal with |- context [reload now ?x] => destruct (reload_spec now x) as [H1 H2] end.
    unfold evs, exec in H1, H2. rewrite H1, H2. auto.
  - case_match; cbn; auto.
Qed.

Lemma write_spec offset b now s :
  ~ reboots (evs (write_byte offset b now) s) /\
  (timeouts (exec (write_byte offset b now) s) = timeouts s \/
   timeouts (exec (write_byte offset b now) s) = 0).
Proof.
  unfold reboots, write_byte. repeat case_match;
    lazymatch goal with
    | |- context [reload ?n] => destruct (reload_spec n s) as [E1 E2]; rewrite E1, E2; split; [set_solver|by right]
    | |- context [write_cnt1 ?o ?v ?n] =>
        destruct (write_cnt1_spec o v n s) as [E1 E2]; rewrite E1; split; [set_solver|done]
    | _ => split; [cbn; set_solver|by left]
    end.
Qed.

Lemma timer_spec now s :
  expires (Timer now) s = false /\ exec (run_op (Timer now)) s = s /\ evs (run_op (Timer now)) s = [] \/
  expires (Timer now) s = true /\ exec (run_op (Timer now)) s = exec (timeout now_ q35) s /\
    evs (run_op (Timer now)) s = evs (timeout now_ q35) s.
Proof.
  cbn [run_op expires]. unfold evs, exec. destruct (expire_time s) as [e|] eqn:Ee.
  - destruct (Qle_bool e now) eqn:El.
    + right. split; [done|]. unfold timer, bind, exec, evs, res. cbn. rewrite Ee. cbn. rewrite El. cbn.
      case_match; cbn; by rewrite !app_nil_r.
    + left. split; [done|]. unfold timer, bind, exec, evs, res. cbn. rewrite Ee. cbn. rewrite El. cbn.
      rewrite Ee. done.
  - left. split; [done|]. unfold timer, bind, exec, evs, res. cbn. rewrite Ee. done.
Qed.

Lemma timeout_first s : timeouts s = 0 ->
  evs (timeout now_ q35) s = [TcoSmi] /\ timeouts (exec (timeout now_ q35) s) = 1.
Proof.
  intros Ht. unfold timeout. unfold evs at 1, exec at 1. rewrite bind_modify, bind_get. cbn [timeouts].
  change (timeouts (s <| rld := 0 |> <| sts1 := ?a |> <| timeouts := ?b |>)) with b. rewrite Ht.
  change (0 + 1 =? 2) with false. cbn iota.
  match goal with |- context [rearm ?x] => set (s1 := x) end.
  pose proof (rearm_events s1) as H1. pose proof (rearm_timeouts s1) as H2.
  unfold evs in H1. unfold exec in H2. rewrite H1, H2. subst s1. done.
Qed.

Lemma timeout_second s : timeouts s = 1 -> timeouts (exec (timeout now_ q35) s) = 0.
Proof.
  intros Ht. unfold timeout. rewrite exec_modify, exec_get.
  change (timeouts (s <| rld := 0 |> <| sts1 := ?a |> <| timeouts := ?b |>)) with b. rewrite Ht.
  change (1 + 1 =? 2) with true. cbn iota. rewrite exec_modify.
  repeat case_match; rewrite ?rearm_timeouts; [done| |done].
  rewrite exec_modify, exec_emit. by destruct now_.
Qed.

Lemma run_cons o ops s :
  exec (run (o :: ops)) s = exec (run ops) (exec (run_op o) s) /\
  evs (run (o :: ops)) s = evs (run_op o) s ++ evs (run ops) (exec (run_op o) s).
Proof. done. Qed.

(** The operations [ops] from [s] hold two ends of the countdown with no reload
    between them; or one end with no reload before it. *)
Definition two_ends (ops : list op) (s : t) : Prop :=
  exists pre o1 mid o2 post, ops = pre ++ o1 :: mid ++ o2 :: post /\
    expires o1 (exec (run pre) s) = true /\
    expires o2 (exec (run (pre ++ o1 :: mid)) s) = true /\
    forallb (fun o => negb (reloads o)) mid = true.
Definition one_end (ops : list op) (s : t) : Prop :=
  exists mid o2 post, ops = mid ++ o2 :: post /\ expires o2 (exec (run mid) s) = true /\
    forallb (fun o => negb (reloads o)) mid = true.

Lemma two_ends_cons o ops s : two_ends ops (exec (run_op o) s) -> two_ends (o :: ops) s.
Proof.
  intros (pre & o1 & mid & o2 & post & -> & H1 & H2 & H3).
  exists (o :: pre), o1, mid, o2, post. by split_and!.
Qed.

Lemma one_end_cons o ops s : reloads o = false -> one_end ops (exec (run_op o) s) -> one_end (o :: ops) s.
Proof.
  intros Ho (mid & o2 & post & -> & H1 & H2).
  exists (o :: mid), o2, post. split_and!; [done..|]. cbn. by rewrite Ho.
Qed.

Lemma one_two_ends o ops s : expires o s = true -> one_end ops (exec (run_op o) s) -> two_ends (o :: ops) s.
Proof.
  intros Ho (mid & o2 & post & -> & H1 & H2). exists [], o, mid, o2, post. by split_and!.
Qed.

(** An operation other than an expiring timer call: no reset, and the count
    stays or, on a reload, starts again. *)
Lemma quiet_step o s : expires o s = false ->
  ~ reboots (evs (run_op o) s) /\
  (timeouts (exec (run_op o) s) = timeouts s /\ reloads o = false \/ timeouts (exec (run_op o) s) = 0).
Proof.
  destruct o as [offset b now|offset now|now]; intros Hx; cbn [run_op].
  - destruct (write_spec offset b now s) as [H1 H2]. split; [done|].
    destruct (reloads (Write offset b now)) eqn:E; [|tauto]. right. cbn in E.
    apply orb_true_iff in E as [->%Z.eqb_eq | ->%Z.eqb_eq]; apply reload_spec.
  - unfold reboots, evs, exec, read_byte. split; [|left]; unfold bind, evs, exec, res; cbn;
      repeat case_match; cbn; set_solver.
  - destruct (timer_spec now s) as [(_ & E1 & E2)|(E & _)]; [|congruence].
    cbn [run_op] in E1, E2. rewrite E1, E2. unfold reboots. split; [set_solver|by left].
Qed.

(** What happens from a count of 0 or 1 up to a reset. *)
Lemma reset_decomposition ops : forall s,
  reboots (evs (run ops) s) ->
  (timeouts s = 0 -> two_ends ops s) /\ (timeouts s = 1 -> one_end ops s \/ two_ends ops s).
Proof.
  induction ops as [|o ops IH]; intros s Hr.
  { unfold reboots in Hr. cbn in Hr. set_solver. }
  destruct (run_cons o ops s) as [_ Hev]. rewrite Hev in Hr. unfold reboots in Hr.
  apply elem_of_app in Hr. destruct (expires o s) eqn:Hx.
  - split; intros Ht; [|left; exists [], o, ops; by split_and!].
    destruct o as [| |now]; [done..|].
    destruct (timer_spec now s) as [(E & _)|(_ & E1 & E2)]; [congruence|].
    destruct (timeout_first s Ht) as [H1 H2]. rewrite E2, H1 in Hr.
    destruct Hr as [Hr|Hr]; [set_solver|]. destruct (IH _ Hr) as [_ Hone].
    destruct Hone as [H|H]; [by rewrite E1|by apply one_two_ends|by apply two_ends_cons].
  - destruct (quiet_step o s Hx) as [Hq Hs]. destruct Hr as [Hr|Hr]; [done|].
    destruct (IH _ Hr) as [H0 H1]. split; intros Ht.
    + apply two_ends_cons, H0. destruct Hs as [[-> _]| ->]; done.
    + destruct Hs as [[E Hl]|E].
      * rewrite E in H1. destruct (H1 Ht) as [H|H]; [left; by apply one_end_cons|right; by apply two_ends_cons].
      * right. apply two_ends_cons, H0. done.
Qed.
End ops.

(** The watchdog resets the machine only for software that stopped serving
    it: if, over any sequence of register accesses and timer calls from a state
    with no timeout counted, the machine is reset, then the countdown ended
    twice and software did not reload the timer in between. *)
Theorem tco_reset_needs_two (now_ : bool) (q35 : option bool) (ops : list op) (s : t)
    (Ht : timeouts s = 0) (Hr : CpuReboot "tco" ∈ evs (run now_ q35 ops) s) :
  exists pre n1 mid n2 post,
    ops = pre ++ Timer n1 :: mid ++ Timer n2 :: post /\
    expires (Timer n1) (exec (run now_ q35 pre) s) = true /\
    expires (Timer n2) (exec (run now_ q35 (pre ++ Timer n1 :: mid)) s) = true /\
    forallb (fun o => negb (reloads o)) mid = true.
Proof.
  destruct (proj1 (reset_decomposition now_ q35 ops s Hr) Ht) as (pre & o1 & mid & o2 & post & E & H1 & H2 & H3).
  destruct o1 as [| |n1]; [done..|]. destruct o2 as [| |n2]; [done..|].
  exists pre, n1, mid, n2, post. done.
Qed.

Lemma tco_reset_needs_two_witness :
  exists pre n1 mid n2 post,
    [Write 0 1 0%Q; Timer 3000%Q; Timer 6000%Q] = pre ++ Timer n1 :: mid ++ Timer n2 :: post.
Proof.
  destruct (tco_reset_needs_two true (Some false) [Write 0 1 0%Q; Timer 3000%Q; Timer 6000%Q] create eq_refl)
    as (pre & n1 & mid & n2 & post & E & _).
  - vm_compute. right. left.
  - by exists pre, n1, mid, n2, post.
Defined.

Lemma reload_exec now s : can_start s = true ->
  exec (reload now) s = s <| timeouts := 0 |> <| rld := tmr s .& 0x3FF |>
                          <| expire_time := Some (fadd now (ticks (tmr s .& 0x3FF))) |>.
Proof.
  intros Hc. unfold reload. rewrite exec_modify, exec_get.
  change (can_start (s <| timeouts := 0 |>)) with (can_start s). by rewrite Hc.
Qed.

Lemma timer_before now_ q35 now e s : expire_time s = Some e -> (now < e)%Q ->
  exec (timer now_ q35 now) s = s /\ evs (timer now_ q35 now) s = [].
Proof.
  intros He Hn. assert (Qle_bool e now = false) as Hb.
  { apply not_true_is_false. intros H%Qle_bool_iff. lra. }
  unfold timer, exec, evs. rewrite bind_get, He, Hb. cbn [when]. rewrite bind_skip, bind_get, He. done.
Qed.

Lemma timer_stopped now_ q35 now s : expire_time s = None ->
  exec (timer now_ q35 now) s = s /\ evs (timer now_ q35 now) s = [].
Proof. intros He. unfold timer, exec, evs. rewrite bind_get, He. done. Qed.

Lemma timer_after now_ q35 now e s : expire_time s = Some e -> (e <= now)%Q ->
  exec (timer now_ q35 now) s = exec (timeout now_ q35) s /\ evs (timer now_ q35 now) s = evs (timeout now_ q35) s.
Proof.
  intros He Hn. assert (Qle_bool e now = true) as Hb by (by apply Qle_bool_iff).
  unfold timer, exec, evs. rewrite bind_get, He, Hb. cbn [when]. unfold bind, exec, evs, res. cbn.
  case_match; cbn; by rewrite ?app_nil_r.
Qed.

Lemma first_timeout now_ q35 s : timeouts s = 0 -> can_start s = true ->
  exec (timeout now_ q35) s = s <| sts1 := sts1 s .| TCO_TIMEOUT |> <| timeouts := 1 |>
    <| rld := tmr s .& 0x3FF |>
    <| expire_time := (fun e => fadd e (ticks (tmr s .& 0x3FF))) <$> expire_time s |>.
Proof.
  intros Ht Hc. unfold timeout. rewrite exec_modify, exec_get.
  change (timeouts (s <| rld := 0 |> <| sts1 := ?a |> <| timeouts := ?b |>)) with b. rewrite Ht.
  change (0 + 1 =? 2) with false. cbn iota. unfold rearm. rewrite exec_bind, exec_get.
  change (can_start (exec (emit TcoSmi) (s <| rld := 0 |> <| sts1 := ?a |> <| timeouts := ?b |>)))
    with (can_start s). by rewrite Hc.
Qed.

(** The watchdog after its second timeout: the status that tells, and the timer stopped. *)
Definition bitten (s : t) : t :=
  s <| rld := 0 |> <| sts1 := sts1 s .| TCO_TIMEOUT |> <| sts2 := sts2 s .| (SECOND_TO_STS .| BOOT_STS) |>
    <| timeouts := 0 |> <| expire_time := None |>.

Lemma second_timeout now_ q35 s : timeouts s = 1 ->
  evs (timeout now_ q35) s = (if decide (q35 = Some false) then [CpuReboot "tco"] else [TcoSmi]) /\
  exec (timeout now_ q35) s = if decide (q35 = Some false) then (if now_ then create else bitten s) else bitten s.
Proof.
  intros Ht. unfold timeout, evs, exec. rewrite bind_modify, bind_get.
  change (timeouts (s <| rld := 0 |> <| sts1 := ?a |> <| timeouts := ?b |>)) with b. rewrite Ht.
  change (1 + 1 =? 2) with true. cbn iota. rewrite bind_modify.
  assert (forall a b c d, can_start (s <| rld := a |> <| sts1 := b |> <| timeouts := c |>
    <| sts2 := sts2 s .| (SECOND_TO_STS .| BOOT_STS) |> <| timeouts := d |>) = false) as Hc.
  { intros. unfold can_start. cbn. rewrite has_lor. change (has _ BOOT_STS) with true at 2.
    by rewrite orb_true_r, andb_false_r. }
  assert (forall s1, can_start s1 = false -> rearm s1 = (tt, s1 <| expire_time := None |>, [TcoSmi])) as Hr.
  { intros s1 H1. unfold rearm, bind, exec, evs, res. cbn. by rewrite H1. }
  destruct q35 as [[]|]; cbn [decide]; case_decide as E; try congruence.
  - rewrite Hr by apply Hc. done.
  - by destruct now_.
  - rewrite Hr by apply Hc. done.
Qed.

(** The watchdog fires when it should, whatever the chipset.  Once reloaded at [t0], with the timer allowed to
    run, it is due [TCO_TMR] ticks of 600 ms later (times are doubles: the sums round) and, if it is not served, due
    again as many ticks after that deadline, not after the call that noticed it.  A timer call before the first
    deadline changes nothing; the first call at or after it raises the SMI, sets TIMEOUT and leaves every other status
    bit; a call before the second deadline changes nothing; the first call at or after it sets TIMEOUT,
    SECOND_TO_STS and BOOT_STS and stops the timer: with a Q35 part whose NO_REBOOT bit is clear it asks for a reset
    of the machine and raises no SMI (and where the reset happens at once, every register of the watchdog, those
    status bits included, has its power-on value when the call returns), otherwise it raises the SMI and resets
    nothing.  Timer calls after that change nothing. *)
Theorem tco_fires (now_ : bool) (q35 : option bool) (s : t) (b : Z) (t0 n1 n2 n3 n4 n5 : Q)
    (Hc : can_start s = true) :
  let d := ticks (tmr s .& 0x3FF) in
  let due1 := fadd t0 d in
  let due2 := fadd due1 d in
  let s1 := exec (write_byte 0 b t0) s in
  let s2 := exec (timer now_ q35 n2) s1 in
  let s4 := exec (timer now_ q35 n4) s2 in
  (n1 < due1)%Q -> (due1 <= n2)%Q -> (n3 < due2)%Q -> (due2 <= n4)%Q ->
  (exec (timer now_ q35 n1) s1 = s1 /\ evs (timer now_ q35 n1) s1 = [])
  /\ (evs (timer now_ q35 n2) s1 = [TcoSmi] /\ sts1 s2 = sts1 s .| TCO_TIMEOUT /\ sts2 s2 = sts2 s
      /\ expire_time s2 = Some due2)
  /\ (exec (timer now_ q35 n3) s2 = s2 /\ evs (timer now_ q35 n3) s2 = [])
  /\ evs (timer now_ q35 n4) s2 = (if decide (q35 = Some false) then [CpuReboot "tco"] else [TcoSmi])
  /\ (s4 = create /\ now_ = true /\ q35 = Some false
      \/ sts1 s4 = sts1 s .| TCO_TIMEOUT /\ sts2 s4 = sts2 s .| (SECOND_TO_STS .| BOOT_STS)
         /\ ~ (now_ = true /\ q35 = Some false))
  /\ (expire_time s4 = None /\ exec (timer now_ q35 n5) s4 = s4 /\ evs (timer now_ q35 n5) s4 = []).
Proof.
  cbv zeta. change (write_byte 0 b t0) with (reload t0). rewrite reload_exec by done.
  set (d := ticks (tmr s .& 0x3FF)) in *. intros H1 H2 H3 H4.
  set (s1 := s <| timeouts := 0 |> <| rld := tmr s .& 0x3FF |> <| expire_time := Some (fadd t0 d) |>).
  destruct (timer_before now_ q35 n1 (fadd t0 d) s1 eq_refl H1) as [E1 V1].
  destruct (timer_after now_ q35 n2 (fadd t0 d) s1 eq_refl H2) as [E2 V2].
  destruct (timeout_first now_ q35 s1 eq_refl) as [V2' _].
  rewrite E1, V1, E2, V2, V2'. rewrite (first_timeout now_ q35 s1 eq_refl Hc).
  set (s2 := s1 <| sts1 := _ |> <| timeouts := 1 |> <| rld := _ |> <| expire_time := _ |>).
  destruct (timer_before now_ q35 n3 (fadd (fadd t0 d) d) s2 eq_refl H3) as [E3 V3].
  destruct (timer_after now_ q35 n4 (fadd (fadd t0 d) d) s2 eq_refl H4) as [E4 V4]. rewrite E3, V3, E4, V4.
  destruct (second_timeout now_ q35 s2 eq_refl) as [V4' E4']. rewrite V4', E4'.
  assert (sts1 (bitten s2) = sts1 s .| TCO_TIMEOUT /\ sts2 (bitten s2) = sts2 s .| (SECOND_TO_STS .| BOOT_STS)
    /\ expire_time (bitten s2) = None) as (B1 & B2 & B3).
  { cbn. by rewrite <- Z.lor_assoc. }
  split; [done|]. split; [done|]. split; [done|]. split; [done|].
  assert (expire_time (if decide (q35 = Some false) then (if now_ then create else bitten s2) else bitten s2) = None) as Hn.
  { by destruct (decide _), now_. }
  split; [|split; [exact Hn|by apply timer_stopped]].
  clearbody s2. destruct (decide _), now_; [by left|right; split_and!; [done..|by intros []]
    |right; split_and!; [done..|by intros []]|right; split_and!; [done..|by intros []]].
Qed.

(** Both settings of NO_REBOOT, with the reset at once. *)
Lemma tco_fires_witness :
  (let s4 := exec (timer true (Some false) 4800%Q) (exec (timer true (Some false) 2500%Q) (exec (write_byte 0 1 0%Q) create)) in
   evs (timer true (Some false) 4800%Q) (exec (timer true (Some false) 2500%Q) (exec (write_byte 0 1 0%Q) create))
     = [CpuReboot "tco"] /\ s4 = create) /\
  let s4 := exec (timer true (Some true) 4800%Q) (exec (timer true (Some true) 2500%Q) (exec (write_byte 0 1 0%Q) create)) in
  evs (timer true (Some true) 4800%Q) (exec (timer true (Some true) 2500%Q) (exec (write_byte 0 1 0%Q) create))
    = [TcoSmi] /\ sts2 s4 = 6.
Proof.
  pose proof (tco_fires true (Some false) create 1 0%Q 0%Q 2500%Q 0%Q 4800%Q 0%Q eq_refl) as H1.
  pose proof (tco_fires true (Some true) create 1 0%Q 0%Q 2500%Q 0%Q 4800%Q 0%Q eq_refl) as H2.
  split.
  - destruct H1 as (_ & _ & _ & H & [[Hs _]|(_ & _ & Hx)] & _); [vm_compute; done..| |].
    + split; [exact H|exact Hs].
    + exfalso. exact (Hx (conj eq_refl eq_refl)).
  - destruct H2 as (_ & _ & _ & H & [(_ & _ & Hx)|(_ & Hs & _)] & _); [vm_compute; done..|discriminate Hx|].
    split; [exact H|exact Hs].
Defined.

(** The only effects of the watchdog: its SMI, and the reset. *)
Definition tco_event (e : event) : Prop := e = TcoSmi \/ e = CpuReboot "tco".

Lemma write_events offset b now s : Forall tco_event (evs (write_byte offset b now) s).
Proof.
  unfold write_byte. repeat case_match;
    lazymatch goal with
    | |- context [reload ?n] => rewrite (proj1 (reload_spec n s)); constructor
    | |- context [write_cnt1 ?o ?v ?n] => rewrite (proj1 (write_cnt1_spec o v n s)); constructor
    | |- context [emit TcoSmi] => cbn; repeat constructor
    | _ => constructor
    end.
Qed.

Lemma read_events offset now s : evs (read_byte offset now) s = [].
Proof. unfold evs, read_byte. rewrite bind_get. cbv zeta. repeat case_match; done. Qed.

Lemma timeout_events now_ q35 s : Forall tco_event (evs (timeout now_ q35) s).
Proof.
  unfold timeout, evs. rewrite bind_modify, bind_get. case_match.
  - rewrite bind_modify. repeat case_match.
    + match goal with |- context [rearm ?x] => change ((rearm x).2) with (evs rearm x); rewrite rearm_events end.
      constructor; [by left|constructor].
    + unfold when. destruct now_; (constructor; [by right|constructor]).
    + match goal with |- context [rearm ?x] => change ((rearm x).2) with (evs rearm x); rewrite rearm_events end.
      constructor; [by left|constructor].
  - match goal with |- context [rearm ?x] => change ((rearm x).2) with (evs rearm x); rewrite rearm_events end.
    constructor; [by left|constructor].
Qed.

Lemma timer_events now_ q35 now s : Forall tco_event (evs (timer now_ q35 now) s).
Proof.
  assert (evs (timer now_ q35 now) s = evs (run_op now_ q35 (Timer now)) s) as ->
    by (unfold evs; cbn; by rewrite app_nil_r).
  destruct (timer_spec now_ q35 now s) as [(_ & _ & ->)|(_ & _ & ->)]; [constructor|apply timeout_events].
Qed.

End Tco.
