(* ===== verification/Acpi.v ===== *)
(** * src/acpi.js: ACPI fixed hardware (PIIX4 and ICH9)

    The PM1 event and control registers, GPE0, the PM timer, SMI_CMD and the SMI
    registers, the sleep states and the SCI, with the TCO watchdog of Tco.v
    behind the ICH9's block.  Times are doubles, in milliseconds; the CPU's
    part of a wake-up, and the reset the watchdog asks for, are effects, and
    whether the reset of this device they lead to runs at once (as it does while
    no core executes) is an argument. *)

From Stdlib Require Import QArith Qround Qminmax.
From S2P Require Import Prelude Rat Double Tco.
Import Double.

Set Default Goal Selector "!".
Open Scope Z_scope.

Module Acpi.

Definition ACPI_SCI_IRQ : Z := 9.
Definition ACPI_SCI_SOURCE : Z := 0x100.

Definition TMR : Z := 0x1.
Definition BM : Z := 0x10.
Definition GBL : Z := 0x20.
Definition PWRBTN : Z := 0x100.
Definition SLPBTN : Z := 0x200.
Definition RTC : Z := 0x400.
Definition WAK : Z := 0x8000.
Definition PM1_STS_MASK : Z := TMR .| BM .| GBL .| PWRBTN .| SLPBTN .| RTC .| WAK.
Definition PM1_EN_MASK : Z := TMR .| GBL .| PWRBTN .| SLPBTN .| RTC.

Definition SCI_EN : Z := 0x1.
Definition BM_RLS : Z := 0x2.
Definition SLP_TYP : Z := 7 .<< 10.
Definition SLP_EN : Z := 0x2000.
Definition PM1_CNT_WRITABLE : Z := BM_RLS .| SLP_TYP.

Definition PM_GLBCTL : Z := 0x28.
Definition ICH9_PM_SMI_EN : Z := 0x30.
Definition ICH9_PM_SMI_STS : Z := 0x34.
Definition ICH9_PM_TCO : Z := 0x60.
Definition ICH9_TCO_LENGTH : Z := 0x20.
Definition ICH9_SMI_APM : Z := 0x20.
Definition SMI_TCO : Z := 0x2000.
Definition CMOS_SHUTDOWN_STATUS : Z := 0x0F.
Definition CMOS_SHUTDOWN_S3_RESUME : Z := 0xFE.
Definition PM_TIMER_STATUS_PERIOD : Z := 2 ^ 23.

(** The part of src/platform.js the device reads. *)
Record sleep_state := mk_sleep_state { ss_state : Z; ss_slp_typ : Z; ss_supported : bool }.

Record platform := mk_platform {
  ich9 : bool;
  pm_length : Z;
  gpe0_offset : Z;
  gpe0_length : Z;
  acpi_enable : Z;
  acpi_disable : Z;
  sleep_states : list sleep_state
}.

Definition ACPI_SLEEP_STATES : list sleep_state :=
  [ mk_sleep_state 3 1 true; mk_sleep_state 4 2 true; mk_sleep_state 5 0 true ].
Definition Q35_SLEEP_STATES : list sleep_state :=
  map (fun s => mk_sleep_state (ss_state s) (ss_slp_typ s) (ss_state s =? 5)) ACPI_SLEEP_STATES.

Definition piix4 : platform := mk_platform false 0x40 (-1) 4 0xF1 0xF0 ACPI_SLEEP_STATES.
Definition q35 : platform := mk_platform true 0x80 0x20 16 0x02 0x03 Q35_SLEEP_STATES.

Definition acpi_system_states_file (p : platform) : list Z :=
  fold_left (fun states s =>
      arr_set states (ss_state s) (u8 ((if ss_supported s then 0x80 else 0) .| ss_slp_typ s)))
    (sleep_states p) [0x80; 0; 0; 0; 0; 0].

Record t := mk {
  pci_pmba : Z;
  pci_pmregmisc : Z;
  pm_base : Z;
  pm1_sts : Z;
  pm1_en : Z;
  pm1_cnt : Z;
  gpe_sts : Z;
  gpe_en : Z;
  smi_cmd : Z;
  glbctl : Z;
  smi_en : Z;
  smi_sts : Z;
  tco : Tco.t;
  apm_sts : Z;
  soft_off : Z;
  sleeping : Z;
  sci_level : bool;
  timer_last : Z;
  timer_offset : Z;
  timer_period : Z
}.

(** [Math.floor(now * PM_TIMER_TICKS_PER_MS)]. *)
Definition PM_TIMER_TICKS_PER_MS : Q := fdiv 3579545 1000.
Definition raw_ticks (now : Q) : Z := Qfloor (fmul now PM_TIMER_TICKS_PER_MS).

Section acpi.
Variable (P : platform).

(** ** The SCI *)

Definition sci_wanted (s : t) : bool :=
  has (pm1_cnt s) SCI_EN &&
  (has (pm1_sts s .& pm1_en s) PM1_EN_MASK || negb (gpe_sts s .& gpe_en s =? 0)).

Definition update_sci : M t unit :=
  s <-- get ;;
  let level := sci_wanted s in
  when (negb (Bool.eqb level (sci_level s)))
    (modify (fun s => s <| sci_level := level |>) ;;;
     emit (SharedIrqLevel ACPI_SCI_IRQ ACPI_SCI_SOURCE level)).

(** After a snapshot: [asserted] is whether the restored line has this source. *)
Definition sync_sci (asserted : bool) : M t unit :=
  modify (fun s => s <| sci_level := asserted |>) ;;; update_sci.

(** ** Decoding of the PM block *)

Definition set_pm_decode (base : Z) : M t unit :=
  s <-- get ;;
  if base =? pm_base s then skip
  else
    when (negb (pm_base s =? -1)) (emit (IoUndecode "acpi" (pm_base s) (pm_length P))) ;;;
    modify (fun s => s <| pm_base := base |>) ;;;
    when (negb (base =? -1)) (emit (IoDecode "acpi" base (pm_length P))).

Definition update_pm_decode : M t unit :=
  s <-- get ;;
  let pmba := pci_pmba s .& 0xFFC0 in
  modify (fun s => s <| pci_pmba := pmba .| 1 |>) ;;;
  let enabled := has (pci_pmregmisc s) 1 in
  set_pm_decode (if enabled && negb (pmba =? 0) then pmba else -1).

Definition reset_pm_config : M t unit :=
  if ich9 P then skip
  else
    modify (fun s => s <| pci_pmba := 1 |> <| pci_pmregmisc := pci_pmregmisc s .& ~. 0xFF |>) ;;;
    update_pm_decode.

(** ** Reset *)

Definition reset : M t unit :=
  modify (fun s => s
    <| pm1_sts := 0 |> <| pm1_en := 0 |> <| pm1_cnt := 0 |> <| gpe_sts := 0 |> <| gpe_en := 0 |>
    <| smi_cmd := 0 |> <| glbctl := 0 |> <| smi_en := 0 |> <| smi_sts := 0 |> <| apm_sts := 0 |>
    <| tco := if ich9 P then Tco.create else tco s |> <| soft_off := 0 |> <| sleeping := 0 |>) ;;;
  update_sci ;;;
  reset_pm_config.

(** ** SMIs *)

Definition raise_smi (bit : Z) (core : option Z) : M t unit :=
  s <-- get ;;
  if negb (has (smi_en s) bit) then skip
  else
    modify (fun s => s <| smi_sts := u32 (smi_sts s .| bit) |>) ;;;
    emit (CpuSmi core).

(** What [cpu.reboot_internal] does to this device: its reset, where the machine is reset at once. *)
Definition machine_reset (now_ : bool) : M t unit := when now_ reset.

(** A method of the watchdog, its SMI callback included; [now_] is whether a reset of the machine it asks for
    happens (and with it the reset of this device) before it returns. *)
Definition on_tco {A} (now_ : bool) (m : M Tco.t A) : M t A :=
  s <-- get ;;
  modify (fun s => s <| tco := exec m (tco s) |>) ;;;
  mfor (evs m (tco s)) (fun e =>
    match e with
    | TcoSmi => raise_smi SMI_TCO (Some 0)
    | CpuReboot reason => emit (CpuReboot reason) ;;; machine_reset now_
    | e => emit e
    end) ;;;
  ret (res m (tco s)).

Definition smi_cmd_write (value : Z) : M t unit :=
  modify (fun s => s <| smi_cmd := value |>) ;;;
  if value =? acpi_enable P then
    modify (fun s => s <| pm1_cnt := pm1_cnt s .| SCI_EN |>) ;;; update_sci
  else if value =? acpi_disable P then
    modify (fun s => s <| pm1_cnt := pm1_cnt s .& ~. SCI_EN |>) ;;; update_sci
  else when (ich9 P) (raise_smi ICH9_SMI_APM None).

(** ** The PM timer *)

Definition timer_ticks (now : Q) : M t Z :=
  s <-- get ;;
  let ticks := raw_ticks now + timer_offset s in
  when (timer_last s <? ticks) (modify (fun s => s <| timer_last := ticks |>)) ;;;
  s <-- get ;;
  ret (timer_last s).

Definition update_timer_status (ticks : Z) : M t unit :=
  let period := ticks / PM_TIMER_STATUS_PERIOD in
  s <-- get ;;
  when (negb (period =? timer_period s))
    (modify (fun s => s <| timer_period := period |> <| pm1_sts := pm1_sts s .| TMR |>) ;;;
     update_sci).

(** [q35_reboot] is the chipset's NO_REBOOT as Tco.v takes it. *)
Definition timer (now_ : bool) (q35_reboot : option bool) (now : Q) : M t Q :=
  ticks <-- timer_ticks now ;;
  update_timer_status ticks ;;;
  tco_wait <-- (if ich9 P then on_tco now_ (Tco.timer now_ q35_reboot now) else ret 100%Q) ;;
  s <-- get ;;
  if has (pm1_en s) TMR && has (pm1_cnt s) SCI_EN then
    let next := (timer_period s + 1) * PM_TIMER_STATUS_PERIOD in
    ret (Qmin (Qmin 100 tco_wait) (fdiv (inject_Z (next - ticks)) PM_TIMER_TICKS_PER_MS))
  else ret tco_wait.

(** ** GPE0 *)

Definition gpe_half : Z := gpe0_length P .>> 1.

Definition gpe_read_byte (s : t) (o : Z) : Z :=
  let register := if o <? gpe_half then gpe_sts s else gpe_en s in
  let index := if o <? gpe_half then o else o - gpe_half in
  if index <? 4 then shr32 register (index .<< 3) .& 0xFF else 0.

(** Bytes assembled with [value |= byte << (i << 3)]. *)
Fixpoint assemble (bs : list Z) (i : Z) : Z :=
  match bs with
  | [] => 0
  | b :: bs => (b .<< (i .<< 3)) .| assemble bs (i + 1)
  end.

Definition gpe_read (offset size : Z) : M t Z :=
  s <-- get ;;
  ret (i32 (assemble (map (fun i => gpe_read_byte s (offset + i)) (seqZ 0 size)) 0)).

Definition gpe_write_byte (o byte : Z) : M t unit :=
  let bits_mask := if 4 <=? gpe_half then -1 else (1 .<< (gpe_half .<< 3)) - 1 in
  let index := if o <? gpe_half then o else o - gpe_half in
  if 4 <=? index then skip
  else
    let shift := index .<< 3 in
    let bits := shl32 byte shift in
    if o <? gpe_half then
      modify (fun s => s <| gpe_sts := (i32 (gpe_sts s) .& ~. bits) .& bits_mask |>)
    else
      modify (fun s => s <| gpe_en := (i32 (gpe_en s) .& ~. (shl32 0xFF shift) .| bits) .& bits_mask |>).

Definition gpe_write (offset size value : Z) : M t unit :=
  mfor (filter (fun i => offset + i < gpe0_length P) (seqZ 0 size)) (fun i =>
    gpe_write_byte (offset + i) (shr32 value (i .<< 3) .& 0xFF)) ;;;
  update_sci.

(** ** Reads of the PM block *)

Definition in_range (o base length : Z) : bool := (base <=? o) && (o <? base + length).

Definition pm_read_byte (now : Q) (timer_value o : Z) : M t Z :=
  s <-- get ;;
  if ich9 P && in_range o (gpe0_offset P) (gpe0_length P) then gpe_read (o - gpe0_offset P) 1
  else if ich9 P && in_range o ICH9_PM_SMI_EN 4 then
    ret (shr32 (smi_en s) ((o - ICH9_PM_SMI_EN) .<< 3) .& 0xFF)
  else if ich9 P && in_range o ICH9_PM_SMI_STS 4 then
    ret (shr32 (smi_sts s) ((o - ICH9_PM_SMI_STS) .<< 3) .& 0xFF)
  else if ich9 P && in_range o PM_GLBCTL 4 then ret 0
  else if ich9 P && in_range o ICH9_PM_TCO ICH9_TCO_LENGTH then
    on_tco false (Tco.read_byte (o - ICH9_PM_TCO) now)
  else
    match o with
    | 0 => ret (pm1_sts s .& 0xFF)
    | 1 => ret (pm1_sts s .>> 8)
    | 2 => ret (pm1_en s .& 0xFF)
    | 3 => ret (pm1_en s .>> 8)
    | 4 => ret (pm1_cnt s .& 0xFF)
    | 5 => ret (pm1_cnt s .>> 8)
    | 8 => ret (timer_value .& 0xFF)
    | 9 => ret ((timer_value .>> 8) .& 0xFF)
    | 10 => ret ((timer_value .>> 16) .& 0xFF)
    | 0x28 | 0x29 | 0x2A | 0x2B => ret (shr32 (glbctl s) ((o - PM_GLBCTL) .<< 3) .& 0xFF)
    | _ => ret 0
    end.

Fixpoint pm_read_bytes (now : Q) (timer_value o : Z) (n : nat) : M t (list Z) :=
  match n with
  | O => ret []
  | S n => b <-- pm_read_byte now timer_value o ;; bs <-- pm_read_bytes now timer_value (o + 1) n ;; ret (b :: bs)
  end.

Definition pm_read (now : Q) (offset size : Z) : M t Z :=
  timer_value <-- (if (offset <? 12) && (8 <? offset + size) || (offset <? 2) then
             ticks <-- timer_ticks now ;;
             update_timer_status ticks ;;;
             ret (ticks .& 0xFFFFFF)
           else ret 0) ;;
  bs <-- pm_read_bytes now timer_value offset (Z.to_nat size) ;;
  ret (i32 (assemble bs 0)).

(** ** Sleep *)

(** The announcement may come later, once writes to the disks in flight have
    landed. *)
Definition power_off (state : Z) : M t unit :=
  s <-- get ;;
  if negb (soft_off s =? 0) then skip
  else
    modify (fun s => s <| soft_off := state |>) ;;;
    emit (BusSend "acpi-power-off" (PStr (if state =? 4 then "S4" else "S5"))).

Definition suspend : M t unit :=
  s <-- get ;;
  if negb (sleeping s =? 0) || negb (soft_off s =? 0) then skip
  else
    modify (fun s => s <| sleeping := 3 |>) ;;;
    emit (CmosWrite CMOS_SHUTDOWN_STATUS CMOS_SHUTDOWN_S3_RESUME) ;;;
    emit CpuEnterSleep ;;;
    emit (BusSend "acpi-sleep" (PStr "S3")).

Definition enter_sleep_state (slp_typ : Z) : M t unit :=
  match list_find (fun s => ss_slp_typ s = slp_typ) (sleep_states P) with
  | Some (_, st) =>
      if (4 <=? ss_state st) && ss_supported st then power_off (ss_state st)
      else if (ss_state st =? 3) && ss_supported st then suspend
      else modify (fun s => s <| pm1_sts := pm1_sts s .| WAK |>)
  | None => modify (fun s => s <| pm1_sts := pm1_sts s .| WAK |>)
  end.

(** ** Writes to the PM block *)

Definition pm_write_ich9 (now : Q) (o byte : Z) : M t unit :=
  if in_range o (gpe0_offset P) (gpe0_length P) then gpe_write (o - gpe0_offset P) 1 byte
  else if in_range o ICH9_PM_SMI_EN 4 then
    let shift := (o - ICH9_PM_SMI_EN) .<< 3 in
    modify (fun s => s <| smi_en := u32 (i32 (smi_en s) .& ~. (shl32 0xFF shift) .| shl32 byte shift) |>)
  else if in_range o ICH9_PM_SMI_STS 4 then
    modify (fun s => s <| smi_sts :=
      u32 (i32 (smi_sts s) .& ~. (shl32 byte ((o - ICH9_PM_SMI_STS) .<< 3))) |>)
  else if in_range o ICH9_PM_TCO ICH9_TCO_LENGTH then
    on_tco false (Tco.write_byte (o - ICH9_PM_TCO) byte now)
  else skip.

(** One byte; the result says whether it asks to sleep (SLP_EN). *)
Definition pm_write_byte (now : Q) (o byte : Z) : M t bool :=
  let shift := (o .& 1) .<< 3 in
  let bits := byte .<< shift in
  let byte_mask := 0xFF .<< shift in
  match o with
  | 0 | 1 =>
      modify (fun s => s <| pm1_sts := pm1_sts s .& ~. (bits .& PM1_STS_MASK) |>) ;;; ret false
  | 2 | 3 =>
      modify (fun s => s <| pm1_en := (pm1_en s .& ~. byte_mask .| bits) .& PM1_EN_MASK |>) ;;; ret false
  | 4 | 5 =>
      modify (fun s => s <| pm1_cnt :=
        pm1_cnt s .& ~. (byte_mask .& PM1_CNT_WRITABLE) .| (bits .& PM1_CNT_WRITABLE) |>) ;;;
      ret (has bits SLP_EN)
  | 0x28 | 0x29 | 0x2A | 0x2B =>
      (if ich9 P then pm_write_ich9 now o byte
       else
         let glbctl_shift := (o - PM_GLBCTL) .<< 3 in
         modify (fun s => s <| glbctl :=
           i32 (glbctl s) .& ~. (shl32 0xFF glbctl_shift) .| shl32 byte glbctl_shift |>)) ;;;
      ret false
  | _ => when (ich9 P) (pm_write_ich9 now o byte) ;;; ret false
  end.

Fixpoint pm_write_bytes (now : Q) (o value i : Z) (n : nat) : M t bool :=
  match n with
  | O => ret false
  | S n =>
      a <-- pm_write_byte now (o + i) (shr32 value (i .<< 3) .& 0xFF) ;;
      b <-- pm_write_bytes now o value (i + 1) n ;;
      ret (a || b)
  end.

Definition pm_write (now : Q) (offset size value : Z) : M t unit :=
  sleep <-- pm_write_bytes now offset value 0 (Z.to_nat size) ;;
  update_sci ;;;
  s <-- get ;;
  when sleep (enter_sleep_state ((pm1_cnt s .& SLP_TYP) .>> 10)).

(** ** Wake *)

(** [now_] is whether [cpu.resume_from_sleep] resets the machine (and with it
    this device) before it returns. *)
Definition wake (now_ : bool) (status : Z) : M t bool :=
  s <-- get ;;
  if negb (sleeping s =? 3) then ret false
  else
    modify (fun s => s <| sleeping := 0 |>) ;;;
    emit CpuResumeFromSleep ;;;
    when now_ reset ;;;
    modify (fun s => s <| pm1_sts := pm1_sts s .| (WAK .| status) |>) ;;;
    update_sci ;;;
    emit (BusSend "acpi-wake"
      (PStr (if has status PWRBTN then "power-button" else if has status RTC then "rtc" else "other"))) ;;;
    ret true.

Definition rtc_alarm (now_ : bool) : M t unit :=
  s <-- get ;;
  if negb (sleeping s =? 0) then
    when (has (pm1_en s) RTC) (wake now_ RTC ;;; skip)
  else
    modify (fun s => s <| pm1_sts := pm1_sts s .| RTC |>) ;;; update_sci.

Definition press_power_button (now_ : bool) : M t unit :=
  s <-- get ;;
  if negb (sleeping s =? 0) then wake now_ PWRBTN ;;; skip
  else
    modify (fun s => s <| pm1_sts := pm1_sts s .| PWRBTN |>) ;;; update_sci.

(** Power on at machine time [now]. *)
Definition create (now : Q) : t :=
  exec reset_pm_config
    (mk 1 0 (-1) 0 0 0 0 0 0 0 0 0 Tco.create 0 0 0 false 0 (- raw_ticks now) 0).

(** ** State images *)

Record image := mk_image {
  i_pm1_cnt : Z; i_pm1_sts : Z; i_pm1_en : Z; i_gpe : list Z; i_format : option Z;
  i_ticks : Z; i_timer_period : Z; i_smi_cmd : Z; i_glbctl : Z; i_soft_off : Z; i_sleeping : Z;
  i_smi_en : Z; i_smi_sts : Z; i_tco : option (list Z * option Q * Z); i_apm_sts : Z
}.

Definition get_state (now : Q) : M t image :=
  ticks <-- timer_ticks now ;;
  s <-- get ;;
  let bytes r := map (fun i => if i <? 4 then shr32 r (i .<< 3) .& 0xFF else 0) (seqZ 0 gpe_half) in
  ret (mk_image (pm1_cnt s) (pm1_sts s) (pm1_en s) (bytes (gpe_sts s) ++ bytes (gpe_en s)) (Some 3)
         ticks (timer_period s) (smi_cmd s) (glbctl s) (soft_off s) (sleeping s)
         (smi_en s) (smi_sts s) (if ich9 P then Some (Tco.get_state (tco s)) else None) (apm_sts s)).

Definition gpe_bytes (gpe : list Z) (start : Z) : Z :=
  let half := Z.of_nat (length gpe) .>> 1 in
  u32 (assemble (map (fun i => arr_get gpe (start + i)) (seqZ 0 (Z.min half 4))) 0).

Definition set_state (i : image) (now : Q) : M t unit :=
  let half := Z.of_nat (length (i_gpe i)) .>> 1 in
  modify (fun s => s
    <| pm1_sts := i_pm1_sts i .& PM1_STS_MASK |> <| pm1_en := i_pm1_en i .& PM1_EN_MASK |>
    <| gpe_en := gpe_bytes (i_gpe i) half |> <| smi_en := i_smi_en i |> <| smi_sts := i_smi_sts i |>
    <| tco := match i_tco i with
              | Some ti => if ich9 P then exec (Tco.set_state ti) (tco s) else tco s
              | None => tco s
              end |>
    <| apm_sts := i_apm_sts i |>
    <| pm1_cnt := i_pm1_cnt i .& (SCI_EN .| PM1_CNT_WRITABLE) |>) ;;;
  match i_format i with
  | None =>
      modify (fun s => s <| gpe_sts := 0 |> <| smi_cmd := 0 |> <| glbctl := 0 |> <| soft_off := 0 |>
        <| sleeping := 0 |> <| timer_offset := 0 - raw_ticks now |> <| timer_last := 0 |>
        <| timer_period := 0 |>)
  | Some f =>
      modify (fun s => s <| gpe_sts := gpe_bytes (i_gpe i) 0 |> <| timer_period := i_timer_period i |>
        <| smi_cmd := i_smi_cmd i |> <| glbctl := i_glbctl i |> <| soft_off := i_soft_off i |>
        <| sleeping := if 3 <=? f then i_sleeping i else 0 |>
        <| timer_offset := i_ticks i - raw_ticks now |> <| timer_last := i_ticks i |>)
  end.

(** ** The invariant *)

(** The level this device drives on the SCI line. *)
Definition sci_line (l : bool) (e : event) : bool :=
  match e with
  | SharedIrqLevel irq source level =>
      if (irq =? ACPI_SCI_IRQ) && (source =? ACPI_SCI_SOURCE) then level else l
  | _ => l
  end.

(** Registers have no bits outside those that exist; [l] is what the device
    last said. *)
Record open_ (s : t) (l : bool) : Prop := {
  open_sts : within PM1_STS_MASK (pm1_sts s);
  open_en : within PM1_EN_MASK (pm1_en s);
  open_cnt : within (SCI_EN .| PM1_CNT_WRITABLE) (pm1_cnt s);
  open_sleeping : sleeping s = 0 \/ sleeping s = 3;
  open_level : l = sci_level s
}.

(** Between accesses the line is what the registers ask for. *)
Definition inv (s : t) (l : bool) : Prop := open_ s l /\ l = sci_wanted s.

Lemma update_sci_inv : ghoare sci_line open_ update_sci inv.
Proof.
  intros s l [H1 H2 H3 H4 ->]. unfold update_sci, exec, evs. rewrite bind_get. cbv zeta.
  destruct (sci_wanted s) eqn:E, (sci_level s) eqn:E'; cbn; (split; [split|]);
    try done; cbn; rewrite ?E, ?E'; try done; symmetry; exact E.
Qed.

Lemma inv_open s l : inv s l -> open_ s l.
Proof. by intros []. Qed.

Lemma update_sci_keeps : ghoare sci_line inv update_sci inv.
Proof. eapply ghoare_weaken; [apply inv_open|apply update_sci_inv]. Qed.

(** An assignment to the SCI's registers within their masks. *)
Ltac open_update :=
  apply ghoare_modify; intros ? ? []; split; cbn;
  eauto using within_lor, within_land_l, within_land_r, within_0; try done.
(** An assignment to other registers. *)
Ltac inv_update := apply ghoare_modify; intros ? ? [[] ?]; split; [split|]; done.

(** Assign, then update the SCI. *)
Lemma then_sci f : ghoare sci_line open_ (modify f) open_ ->
  ghoare sci_line inv (modify f ;;; update_sci) inv.
Proof.
  intros H. apply ghoare_bind with (Q := open_); [|intros _; apply update_sci_inv].
  eapply ghoare_weaken; [apply inv_open|done].
Qed.

Lemma set_pm_decode_inv b : ghoare sci_line inv (set_pm_decode b) inv.
Proof.
  unfold set_pm_decode. gstep inv ltac:(idtac; lazymatch goal with
    | |- ghoare _ _ (modify _) _ => inv_update
    | |- ghoare _ _ (emit _) _ => by apply ghoare_emit end).
Qed.

Lemma update_pm_decode_inv : ghoare sci_line inv update_pm_decode inv.
Proof.
  unfold update_pm_decode. gstep inv ltac:(idtac; lazymatch goal with
    | |- ghoare _ _ (modify _) _ => inv_update
    | |- ghoare _ _ (set_pm_decode _) _ => apply set_pm_decode_inv end).
Qed.

Lemma reset_pm_config_inv : ghoare sci_line inv reset_pm_config inv.
Proof.
  unfold reset_pm_config. gstep inv ltac:(idtac; lazymatch goal with
    | |- ghoare _ _ (modify _) _ => inv_update
    | |- ghoare _ _ update_pm_decode _ => apply update_pm_decode_inv end).
Qed.

(** Steps that keep a predicate the SMI and TCO registers do not appear in. *)
Lemma raise_smi_keeps (I : t -> bool -> Prop) bit core :
  (forall s l v, I s l -> I (s <| smi_sts := v |>) l) ->
  ghoare sci_line I (raise_smi bit core) I.
Proof.
  intros HI. unfold raise_smi. gstep I ltac:(idtac; lazymatch goal with
    | |- ghoare _ _ (modify _) _ => apply ghoare_modify; intros; by apply HI
    | |- ghoare _ _ (emit _) _ => by apply ghoare_emit end).
Qed.

Lemma on_tco_keeps {A} (I : t -> bool -> Prop) now_ (m : M Tco.t A) :
  (now_ = true -> ghoare sci_line I reset I) ->
  (forall s l v, I s l -> I (s <| smi_sts := v |>) l) ->
  (forall s l v, I s l -> I (s <| tco := v |>) l) ->
  (forall s irq source level, SharedIrqLevel irq source level ∉ evs m s) ->
  ghoare sci_line I (on_tco now_ m) I.
Proof.
  intros H0 H1 H2 Hm. apply ghoare_get. intros s0 l0 Hs0.
  assert (forall es, (forall irq source level, SharedIrqLevel irq source level ∉ es) ->
    ghoare sci_line I (mfor es (fun e => match e with
      | TcoSmi => raise_smi SMI_TCO (Some 0) | CpuReboot reason => emit (CpuReboot reason) ;;; machine_reset now_ | e => emit e end)) I) as Hes.
  { induction es as [|e es IH]; intros Hes; [apply ghoare_skip|].
    apply ghoare_bind with (Q := I); [|intros _; apply IH; set_solver].
    destruct e; try (by apply ghoare_emit).
    - exfalso. eapply Hes. left.
    - apply ghoare_bind with (Q := I); [by apply ghoare_emit|intros _].
      destruct now_; [by apply H0|apply ghoare_skip].
    - by apply raise_smi_keeps. }
  revert s0 l0 Hs0. intros s0 l0 Hs0.
  apply (ghoare_bind sci_line I I I (modify (fun s => s <| tco := exec m (tco s) |>))
    (fun _ => mfor (evs m (tco s0)) (fun e => match e with
      | TcoSmi => raise_smi SMI_TCO (Some 0) | CpuReboot reason => emit (CpuReboot reason) ;;; machine_reset now_ | e => emit e end) ;;;
       ret (res m (tco s0)))); [apply ghoare_modify; auto| |done].
  intros _. apply ghoare_bind with (Q := I); [|intros _; apply ghoare_ret]. apply Hes. apply Hm.
Qed.

Lemma on_tco_events {A} (I : t -> bool -> Prop) now_ (m : M Tco.t A) :
  (now_ = true -> ghoare sci_line I reset I) ->
  (forall s l v, I s l -> I (s <| smi_sts := v |>) l) ->
  (forall s l v, I s l -> I (s <| tco := v |>) l) ->
  (forall s, Forall Tco.tco_event (evs m s)) -> ghoare sci_line I (on_tco now_ m) I.
Proof.
  intros H0 H1 H2 Hm. apply on_tco_keeps; [done..|]. intros s irq source level Hin.
  apply (Forall_forall _ _) with (x := SharedIrqLevel irq source level) in Hm; [|exact Hin].
  by destruct Hm.
Qed.

Lemma open_smi s l v : open_ s l -> open_ (s <| smi_sts := v |>) l.
Proof. intros []. by split. Qed.
Lemma open_tco s l v : open_ s l -> open_ (s <| tco := v |>) l.
Proof. intros []. by split. Qed.
Lemma inv_smi s l v : inv s l -> inv (s <| smi_sts := v |>) l.
Proof. intros [[] ?]. by split; [split|]. Qed.
Lemma inv_tco s l v : inv s l -> inv (s <| tco := v |>) l.
Proof. intros [[] ?]. by split; [split|]. Qed.

Lemma gpe_write_open o n v : ghoare sci_line open_ (gpe_write o n v) inv.
Proof.
  unfold gpe_write. apply ghoare_bind with (Q := open_); [|intros _; apply update_sci_inv].
  apply ghoare_mfor. intros i. unfold gpe_write_byte. cbv zeta.
  apply ghoare_if; [apply ghoare_skip|]. apply ghoare_if; open_update.
Qed.

Lemma gpe_write_open' o n v : ghoare sci_line open_ (gpe_write o n v) open_.
Proof. eapply ghoare_post; [apply inv_open|apply gpe_write_open]. Qed.

Lemma pm_write_ich9_open now o b : ghoare sci_line open_ (pm_write_ich9 now o b) open_.
Proof.
  unfold pm_write_ich9. gstep open_ ltac:(idtac; lazymatch goal with
    | |- ghoare _ _ (modify _) _ => open_update
    | |- ghoare _ _ (gpe_write _ _ _) _ => apply gpe_write_open'
    | |- ghoare _ _ (on_tco _ _) _ =>
        apply on_tco_events; [done|apply open_smi|apply open_tco|apply Tco.write_events] end).
Qed.

Lemma within_writable (m : Z) : within (SCI_EN .| PM1_CNT_WRITABLE) (m .& PM1_CNT_WRITABLE).
Proof.
  unfold within. rewrite <- Z.land_assoc. f_equal.
Qed.

Lemma pm_write_byte_open now o b : ghoare sci_line open_ (pm_write_byte now o b) open_.
Proof.
  unfold pm_write_byte. cbv zeta. repeat case_match;
    gstep open_ ltac:(idtac; lazymatch goal with
    | |- ghoare _ _ (modify _) _ => open_update; eauto using within_lor, within_land_l, within_writable
    | |- ghoare _ _ (pm_write_ich9 _ _ _) _ => apply pm_write_ich9_open end).
Qed.

Lemma pm_write_bytes_open now o v n : forall i, ghoare sci_line open_ (pm_write_bytes now o v i n) open_.
Proof.
  induction n as [|n IH]; intros i; [apply ghoare_ret|].
  apply ghoare_bind with (Q := open_); [apply pm_write_byte_open|intros a].
  apply ghoare_bind with (Q := open_); [apply IH|intros b; apply ghoare_ret].
Qed.

Lemma wak_inv : ghoare sci_line inv (modify (fun s => s <| pm1_sts := pm1_sts s .| WAK |>)) inv.
Proof.
  apply ghoare_modify. intros s l [[] ->]. split.
  - split; cbn; try done. by apply within_lor.
  - unfold sci_wanted. cbn. f_equal. f_equal. rewrite Z.land_lor_distr_l, has_lor.
    assert (has (WAK .& pm1_en s) PM1_EN_MASK = false) as ->; [|by rewrite orb_false_r].
    apply has_false_iff. rewrite <- Z.land_assoc, (Z.land_comm (pm1_en s)), Z.land_assoc. done.
Qed.

Lemma enter_sleep_state_inv n : ghoare sci_line inv (enter_sleep_state n) inv.
Proof.
  unfold enter_sleep_state, power_off, suspend. case_match; [|apply wak_inv]. case_match.
  gstep inv ltac:(idtac; lazymatch goal with
    | |- ghoare _ _ (modify (fun s => s <| pm1_sts := _ |>)) _ => apply wak_inv
    | |- ghoare _ _ (modify _) _ =>
        apply ghoare_modify; intros ? ? [[] ?]; split; [split|]; cbn; auto; done
    | |- ghoare _ _ (emit _) _ => by apply ghoare_emit end).
Qed.

Lemma pm_write_inv now o n v : ghoare sci_line inv (pm_write now o n v) inv.
Proof.
  unfold pm_write. apply ghoare_bind with (Q := open_).
  { eapply ghoare_weaken; [apply inv_open|apply pm_write_bytes_open]. }
  intros sleep. apply ghoare_bind with (Q := inv); [apply update_sci_inv|intros _].
  apply ghoare_get_any. intros s0. apply ghoare_when, enter_sleep_state_inv.
Qed.

Lemma timer_ticks_inv now : ghoare sci_line inv (timer_ticks now) inv.
Proof. unfold timer_ticks. gstep inv ltac:(inv_update). Qed.

Lemma update_timer_status_inv n : ghoare sci_line inv (update_timer_status n) inv.
Proof.
  unfold update_timer_status. cbv zeta. apply ghoare_get_any. intros s0. apply ghoare_when.
  apply then_sci. open_update. by apply within_lor.
Qed.

Lemma acpi_reset_inv : ghoare sci_line open_ reset inv.
Proof.
  unfold reset. apply ghoare_bind with (Q := open_); [open_update|intros _].
  apply ghoare_bind with (Q := inv); [apply update_sci_inv|intros _; apply reset_pm_config_inv].
Qed.

Lemma timer_inv b q now : ghoare sci_line inv (timer b q now) inv.
Proof.
  unfold timer. gstep inv ltac:(idtac; lazymatch goal with
    | |- ghoare _ _ (timer_ticks _) _ => apply timer_ticks_inv
    | |- ghoare _ _ (update_timer_status _) _ => apply update_timer_status_inv
    | |- ghoare _ _ (on_tco _ _) _ =>
        apply on_tco_events; [intros _; eapply ghoare_weaken; [apply inv_open|apply acpi_reset_inv]
          |apply inv_smi|apply inv_tco|apply Tco.timer_events] end).
Qed.

Lemma pm_read_byte_inv now v o : ghoare sci_line inv (pm_read_byte now v o) inv.
Proof.
  unfold pm_read_byte. gstep inv ltac:(idtac; lazymatch goal with
    | |- ghoare _ _ (gpe_read _ _) _ => unfold gpe_read
    | |- ghoare _ _ (on_tco _ _) _ =>
        apply on_tco_events; [done|apply inv_smi|apply inv_tco
          |let s := fresh in intros s; rewrite Tco.read_events; constructor]
    | |- ghoare _ _ (match ?x with _ => _ end) _ => destruct x end).
Qed.

Lemma pm_read_bytes_inv now v n : forall o, ghoare sci_line inv (pm_read_bytes now v o n) inv.
Proof.
  induction n as [|n IH]; intros o; [apply ghoare_ret|].
  apply ghoare_bind with (Q := inv); [apply pm_read_byte_inv|intros a].
  apply ghoare_bind with (Q := inv); [apply IH|intros b; apply ghoare_ret].
Qed.

Lemma pm_read_inv now o n : ghoare sci_line inv (pm_read now o n) inv.
Proof.
  unfold pm_read. gstep inv ltac:(idtac; lazymatch goal with
    | |- ghoare _ _ (timer_ticks _) _ => apply timer_ticks_inv
    | |- ghoare _ _ (update_timer_status _) _ => apply update_timer_status_inv
    | |- ghoare _ _ (pm_read_bytes _ _ _ _) _ => apply pm_read_bytes_inv end).
Qed.

Lemma smi_cmd_write_inv v : ghoare sci_line inv (smi_cmd_write v) inv.
Proof.
  unfold smi_cmd_write. apply ghoare_bind with (Q := inv); [inv_update|intros _].
  apply ghoare_if; [apply then_sci; open_update; by apply within_lor|].
  apply ghoare_if; [apply then_sci; open_update|].
  apply ghoare_when, raise_smi_keeps, inv_smi.
Qed.

Lemma wake_inv b status : within PM1_STS_MASK status -> ghoare sci_line inv (wake b status) inv.
Proof.
  intros Hst. unfold wake. apply ghoare_get_any. intros s0.
  apply ghoare_if; [apply ghoare_ret|].
  apply ghoare_bind with (Q := open_).
  { eapply ghoare_weaken; [apply inv_open|]. open_update. }
  intros _. apply ghoare_bind with (Q := open_); [by apply ghoare_emit|intros _].
  apply ghoare_bind with (Q := open_).
  { unfold when. apply ghoare_if; [|apply ghoare_skip].
    eapply ghoare_post; [apply inv_open|apply acpi_reset_inv]. }
  intros _. apply ghoare_bind with (Q := open_).
  { open_update. apply within_lor; [done|]. by apply within_lor. }
  intros _. apply ghoare_bind with (Q := inv); [apply update_sci_inv|intros _].
  apply ghoare_bind with (Q := inv); [by apply ghoare_emit|intros _; apply ghoare_ret].
Qed.

Lemma rtc_alarm_inv b : ghoare sci_line inv (rtc_alarm b) inv.
Proof.
  unfold rtc_alarm. apply ghoare_get_any. intros s0. apply ghoare_if.
  - apply ghoare_when. apply ghoare_bind with (Q := inv); [by apply wake_inv|intros _; apply ghoare_skip].
  - apply then_sci. open_update. by apply within_lor.
Qed.

Lemma press_power_button_inv b : ghoare sci_line inv (press_power_button b) inv.
Proof.
  unfold press_power_button. apply ghoare_get_any. intros s0. apply ghoare_if.
  - apply ghoare_bind with (Q := inv); [by apply wake_inv|intros _; apply ghoare_skip].
  - apply then_sci. open_update. by apply within_lor.
Qed.

(** Everything that happens to the device. *)
Inductive op :=
| PmRead (now : Q) (offset size : Z)
| PmWrite (now : Q) (offset size value : Z)
| GpeWrite (offset size value : Z)
| SmiCmd (value : Z)
| Timer (now_ : bool) (q35_reboot : option bool) (now : Q)
| RtcAlarm (now_ : bool)
| PowerButton (now_ : bool)
| Reset
| SetDecode (base : Z)
| UpdateDecode.

Definition run_op (o : op) : M t unit :=
  match o with
  | PmRead now offset size => pm_read now offset size ;;; skip
  | PmWrite now offset size value => pm_write now offset size value
  | GpeWrite offset size value => gpe_write offset size value
  | SmiCmd value => smi_cmd_write value
  | Timer b q now => timer b q now ;;; skip
  | RtcAlarm b => rtc_alarm b
  | PowerButton b => press_power_button b
  | Reset => reset
  | SetDecode base => set_pm_decode base
  | UpdateDecode => update_pm_decode
  end.
Definition run (ops : list op) : M t unit := mfor ops run_op.

Lemma acpi_run_op_inv o : ghoare sci_line inv (run_op o) inv.
Proof.
  destruct o; cbn [run_op];
    try (apply ghoare_bind with (Q := inv); [|intros _; apply ghoare_skip]);
    first [ apply pm_read_inv | apply pm_write_inv | apply smi_cmd_write_inv | apply timer_inv
          | apply rtc_alarm_inv | apply press_power_button_inv | apply set_pm_decode_inv
          | apply update_pm_decode_inv
          | (eapply ghoare_weaken; [apply inv_open|]); first [apply gpe_write_open | apply acpi_reset_inv] ].
Qed.

Lemma acpi_create_inv now : inv (create now) false.
Proof.
  set (s0 := mk 1 0 (-1) 0 0 0 0 0 0 0 0 0 Tco.create 0 0 0 false 0 (- raw_ticks now) 0).
  assert (inv s0 false) as H0 by (split; [split; try done; by left|done]).
  pose proof (reset_pm_config_inv s0 false H0) as H. unfold create. fold s0.
  replace (fold_left sci_line (evs reset_pm_config s0) false) with false in H; [done|].
  unfold reset_pm_config. destruct (ich9 P); reflexivity.
Qed.

(** C28: The SCI is level-triggered and exact: after any sequence of register
    accesses, timer ticks, alarms, button presses, sleeps, wakes and resets, the
    level the device drives on IRQ 9 (as sent along the way) is high exactly when
    SCI_EN is set and an enabled fixed event or GPE is pending; status, enable
    and control registers never hold a bit that does not exist, and the machine
    is running or in S3. *)
Theorem acpi_sci (now : Q) (ops : list op) :
  let s := exec (run ops) (create now) in
  let line := fold_left sci_line (evs (run ops) (create now)) false in
  line = (has (pm1_cnt s) SCI_EN &&
          (has (pm1_sts s .& pm1_en s) PM1_EN_MASK || negb (gpe_sts s .& gpe_en s =? 0)))
  /\ within PM1_STS_MASK (pm1_sts s) /\ within PM1_EN_MASK (pm1_en s)
  /\ within (SCI_EN .| PM1_CNT_WRITABLE) (pm1_cnt s)
  /\ (sleeping s = 0 \/ sleeping s = 3).
Proof.
  assert (ghoare sci_line inv (run ops) inv) as H by (apply ghoare_mfor, acpi_run_op_inv).
  destruct (H _ _ (acpi_create_inv now)) as [[] ?]. by split_and!.
Qed.

(** ** Suspend to RAM *)

Definition asleep (s : t) (_ : unit) : Prop := sleeping s = 3.
Definition no_ghost (u : unit) (_ : event) : unit := u.

(** Steps through the device's methods for a predicate on registers they do not
    assign; [tac] for the rest. *)
Ltac frame_step I tac :=
  gstep I ltac:(idtac; lazymatch goal with
    | |- ghoare _ _ (modify _) _ => by apply ghoare_modify
    | |- ghoare _ _ (emit _) _ => by apply ghoare_emit
    | |- ghoare _ _ update_sci _ => unfold update_sci
    | |- ghoare _ _ (raise_smi _ _) _ => unfold raise_smi
    | |- ghoare _ _ (on_tco _ _) _ => unfold on_tco
    | |- ghoare _ _ (machine_reset false) _ => apply ghoare_skip
    | |- ghoare _ _ (machine_reset _) _ => unfold machine_reset, reset, reset_pm_config
    | |- ghoare _ _ (set_pm_decode _) _ => unfold set_pm_decode
    | |- ghoare _ _ (update_timer_status _) _ => unfold update_timer_status
    | |- ghoare _ _ (gpe_write _ _ _) _ => unfold gpe_write, gpe_write_byte
    | |- ghoare _ _ (gpe_read _ _) _ => unfold gpe_read
    | |- ghoare _ _ (pm_write_ich9 _ _ _) _ => unfold pm_write_ich9
    | |- ghoare _ _ (match ?x with _ => _ end) _ => destruct x
    | _ => tac
    end).
Ltac asleep_step tac := frame_step asleep ltac:(first [tac | unfold timer_ticks]).

Lemma enter_sleep_state_asleep n : ghoare no_ghost asleep (enter_sleep_state n) asleep.
Proof.
  assert (ghoare no_ghost asleep suspend asleep) as Hs.
  { apply ghoare_get. intros s g Hs. by rewrite Hs. }
  unfold enter_sleep_state, power_off. asleep_step ltac:(apply Hs).
Qed.

Lemma pm_write_bytes_asleep now o v n : forall i, ghoare no_ghost asleep (pm_write_bytes now o v i n) asleep.
Proof.
  induction n as [|n IH]; intros i; [apply ghoare_ret|].
  apply ghoare_bind with (Q := asleep); [unfold pm_write_byte; cbv zeta|intros a].
  - asleep_step ltac:(fail).
  - apply ghoare_bind with (Q := asleep); [apply IH|intros b; apply ghoare_ret].
Qed.

Lemma pm_read_bytes_asleep now v n : forall o, ghoare no_ghost asleep (pm_read_bytes now v o n) asleep.
Proof.
  induction n as [|n IH]; intros o; [apply ghoare_ret|].
  apply ghoare_bind with (Q := asleep); [unfold pm_read_byte|intros a].
  - asleep_step ltac:(fail).
  - apply ghoare_bind with (Q := asleep); [apply IH|intros b; apply ghoare_ret].
Qed.

(** The operations that can end S3. *)
Definition wakes (o : op) : bool :=
  match o with RtcAlarm _ | PowerButton _ | Reset => true | Timer b _ _ => b | _ => false end.

Lemma run_op_asleep o : wakes o = false -> ghoare no_ghost asleep (run_op o) asleep.
Proof.
  destruct o; try done; intros Hw; cbn [run_op wakes] in *; subst;
    unfold pm_read, pm_write, smi_cmd_write, timer, update_pm_decode;
    asleep_step ltac:(first [ apply pm_read_bytes_asleep | apply pm_write_bytes_asleep
                            | apply enter_sleep_state_asleep ]).
Qed.

Lemma update_sci_exec s : exec update_sci s = s <| sci_level := sci_level (exec update_sci s) |>.
Proof. unfold update_sci. rewrite exec_get. cbv zeta. unfold when. case_match; by destruct s. Qed.

Lemma reset_pm_config_frame s :
  pm1_sts (exec reset_pm_config s) = pm1_sts s /\ sleeping (exec reset_pm_config s) = sleeping s.
Proof.
  unfold reset_pm_config. destruct (ich9 P); [done|]. rewrite exec_modify. unfold update_pm_decode.
  rewrite exec_get. cbv zeta. rewrite exec_modify. unfold set_pm_decode. rewrite exec_get.
  unfold when. repeat case_match; done.
Qed.

Lemma reset_exec s : pm1_sts (exec reset s) = 0 /\ sleeping (exec reset s) = 0.
Proof.
  unfold reset. rewrite exec_modify, exec_bind. set (s1 := s <| pm1_sts := 0 |> <| pm1_en := 0 |> <| pm1_cnt := 0 |>
    <| gpe_sts := 0 |> <| gpe_en := 0 |> <| smi_cmd := 0 |> <| glbctl := 0 |> <| smi_en := 0 |>
    <| smi_sts := 0 |> <| apm_sts := 0 |> <| tco := if ich9 P then Tco.create else tco s |>
    <| soft_off := 0 |> <| sleeping := 0 |>).
  destruct (reset_pm_config_frame (exec update_sci s1)) as [-> ->]. by rewrite update_sci_exec.
Qed.

Lemma update_sci_frame s :
  pm1_sts (exec update_sci s) = pm1_sts s /\ sleeping (exec update_sci s) = sleeping s.
Proof. rewrite update_sci_exec. done. Qed.

(** The end of [wake], after the reset. *)
Lemma wake_status status name (s : t) :
  let s' := exec (modify (fun s => s <| pm1_sts := pm1_sts s .| (WAK .| status) |>) ;;;
                  update_sci ;;; emit (BusSend "acpi-wake" name) ;;; ret true) s in
  pm1_sts s' = pm1_sts s .| (WAK .| status) /\ sleeping s' = sleeping s.
Proof.
  cbv zeta. rewrite exec_modify, exec_bind, exec_emit, exec_ret.
  destruct (update_sci_frame (s <| pm1_sts := pm1_sts s .| (WAK .| status) |>)) as [-> ->]. done.
Qed.

Lemma wake_exec status s : sleeping s = 3 ->
  sleeping (exec (wake true status) s) = 0 /\
  pm1_sts (exec (wake true status) s) = WAK .| status /\
  CpuResumeFromSleep ∈ evs (wake true status) s.
Proof.
  intros Hs. unfold wake. rewrite exec_get. unfold evs. rewrite bind_get, Hs.
  change (negb (3 =? 3)) with false. cbn iota. split_and!.
  - rewrite exec_modify, exec_emit, exec_bind. cbn [when].
    rewrite (proj2 (wake_status _ _ _)). apply reset_exec.
  - rewrite exec_modify, exec_emit, exec_bind. cbn [when].
    rewrite (proj1 (wake_status _ _ _)), (proj1 (reset_exec _)). apply Z.lor_0_l.
  - rewrite bind_modify. unfold bind at 1. cbn [evs emit fst snd app]. left.
Qed.

(** S3 ends by a wake event only, and the guest learns which one.  While the
    machine sleeps no register access, relocation or timer call wakes it (unless
    the watchdog resets the machine in that call), and an RTC alarm does not either unless RTC_EN is set; the power button, and the
    alarm with RTC_EN, resume the CPUs and leave WAK_STS and the cause, and
    nothing else, in PM1_STS. *)
Theorem acpi_wake (s : t) (Hs : sleeping s = 3) :
  (forall o, wakes o = false -> sleeping (exec (run_op o) s) = 3)
  /\ (forall b, has (pm1_en s) RTC = false -> rtc_alarm b s = (tt, s, []))
  /\ (let s' := exec (press_power_button true) s in
      sleeping s' = 0 /\ pm1_sts s' = WAK .| PWRBTN /\
      CpuResumeFromSleep ∈ evs (press_power_button true) s)
  /\ (has (pm1_en s) RTC = true ->
      let s' := exec (rtc_alarm true) s in
      sleeping s' = 0 /\ pm1_sts s' = WAK .| RTC /\ CpuResumeFromSleep ∈ evs (rtc_alarm true) s).
Proof.
  split_and!.
  - intros o Ho. exact (run_op_asleep o Ho s tt Hs).
  - intros b Hr. unfold rtc_alarm. by rewrite bind_get, Hs, Hr.
  - destruct (wake_exec PWRBTN s Hs) as (E1 & E2 & E3). cbv zeta. unfold press_power_button.
    rewrite exec_get. unfold evs. rewrite bind_get, Hs. change (negb (3 =? 0)) with true. cbn iota.
    rewrite exec_bind. split_and!; [done|done|]. unfold bind. cbn. apply elem_of_app. by left.
  - intros Hr. destruct (wake_exec RTC s Hs) as (E1 & E2 & E3). cbv zeta. unfold rtc_alarm.
    rewrite exec_get. unfold evs. rewrite bind_get, Hs, Hr. change (negb (3 =? 0)) with true. cbn [when].
    cbn iota. rewrite exec_bind. split_and!; [done|done|]. unfold bind. cbn. apply elem_of_app. by left.
Qed.

(** ** The PM timer *)

Definition counted (n : Z) (s : t) (_ : unit) : Prop := n <= timer_last s.

Lemma timer_ticks_spec now s :
  let n := Z.max (timer_last s) (raw_ticks now + timer_offset s) in
  timer_ticks now s = (n, s <| timer_last := n |>, []).
Proof.
  cbv zeta. unfold timer_ticks. rewrite bind_get. cbv zeta. unfold when.
  destruct (Z.ltb_spec (timer_last s) (raw_ticks now + timer_offset s)).
  - rewrite bind_modify, bind_get. rewrite Z.max_r by lia. done.
  - rewrite bind_skip, bind_get, Z.max_l by lia. by destruct s.
Qed.

Lemma timer_ticks_counted n now : ghoare no_ghost (counted n) (timer_ticks now) (counted n).
Proof.
  intros s g Hs. unfold exec, counted in *. rewrite timer_ticks_spec. cbn. lia.
Qed.

Lemma counted_writes n now o v k : forall i,
  ghoare no_ghost (counted n) (pm_write_bytes now o v i k) (counted n).
Proof.
  induction k as [|k IH]; intros i; [apply ghoare_ret|].
  apply ghoare_bind with (Q := counted n); [unfold pm_write_byte; cbv zeta|intros a].
  - frame_step (counted n) ltac:(fail).
  - apply ghoare_bind with (Q := counted n); [apply IH|intros b; apply ghoare_ret].
Qed.

Lemma counted_reads n now v k : forall i,
  ghoare no_ghost (counted n) (pm_read_bytes now v i k) (counted n).
Proof.
  induction k as [|k IH]; intros i; [apply ghoare_ret|].
  apply ghoare_bind with (Q := counted n); [unfold pm_read_byte|intros a].
  - frame_step (counted n) ltac:(fail).
  - apply ghoare_bind with (Q := counted n); [apply IH|intros b; apply ghoare_ret].
Qed.

Lemma run_op_counted n o : ghoare no_ghost (counted n) (run_op o) (counted n).
Proof.
  destruct o; cbn [run_op];
    unfold pm_read, pm_write, smi_cmd_write, timer, rtc_alarm, press_power_button, wake, reset,
      reset_pm_config, update_pm_decode, enter_sleep_state, power_off, suspend;
    frame_step (counted n) ltac:(first [ apply timer_ticks_counted | apply counted_writes | apply counted_reads
      | unfold update_pm_decode ]).
Qed.

Lemma pm_read_timer_bytes now v s : ich9 P = false ->
  res (pm_read_bytes now v 8 4) s = [v .& 0xFF; (v .>> 8) .& 0xFF; (v .>> 16) .& 0xFF; 0].
Proof.
  intros Hp. cbn [pm_read_bytes]. rewrite !res_bind.
  assert (forall o s, exec (pm_read_byte now v o) s = s /\ res (pm_read_byte now v o) s =
    match o with 8 => v .& 0xFF | 9 => (v .>> 8) .& 0xFF | 10 => (v .>> 16) .& 0xFF | 11 => 0
    | _ => res (pm_read_byte now v o) s end) as Hb.
  { intros o s0. unfold pm_read_byte. rewrite exec_get, res_get, Hp. cbn [andb].
    repeat case_match; done. }
  change (8 + 1) with 9. change (9 + 1) with 10. change (10 + 1) with 11.
  rewrite (proj2 (Hb 8 _)), !(proj1 (Hb 8 _)), (proj2 (Hb 9 _)), !(proj1 (Hb 9 _)),
    (proj2 (Hb 10 _)), !(proj1 (Hb 10 _)), (proj2 (Hb 11 _)). done.
Qed.

Lemma timer_assembled n :
  i32 (assemble [(n .& 0xFFFFFF) .& 0xFF; ((n .& 0xFFFFFF) .>> 8) .& 0xFF;
                 ((n .& 0xFFFFFF) .>> 16) .& 0xFF; 0] 0) = n mod 2 ^ 24.
Proof.
  pose proof (land_ones_mod n 24 ltac:(lia)) as E. change (2 ^ 24 - 1) with 0xFFFFFF in E. rewrite E. clear E.
  pose proof (Z.mod_pos_bound n (2 ^ 24) ltac:(lia)) as Hb. set (m := n mod 2 ^ 24) in *.
  rewrite !land_ff, !Z.shiftr_div_pow2 by lia. cbn [assemble].
  change (0 .<< 3) with 0. change ((0 + 1) .<< 3) with 8. change ((0 + 1 + 1) .<< 3) with 16.
  rewrite (Z.shiftl_0_l _), Z.shiftl_0_r, !Z.lor_0_r.
  change (2 ^ 8) with 256. change (2 ^ 16) with 65536. change (2 ^ 24) with 16777216 in *.
  pose proof (Z.mod_pos_bound m 256 ltac:(lia)). pose proof (Z.mod_pos_bound (m / 256) 256 ltac:(lia)).
  pose proof (Z.div_mod m 256 ltac:(lia)). pose proof (Z.div_mod (m / 256) 256 ltac:(lia)) as Hd.
  rewrite Z.div_div in Hd by lia. change (256 * 256) with 65536 in Hd.
  assert (0 <= m / 65536 < 256) by (split; [apply Z.div_pos; lia|apply Z.div_lt_upper_bound; lia]).
  rewrite (Z.mod_small (m / 65536)) by lia.
  rewrite (lor_shiftl_add (((m / 256) mod 256) .<< 8)) by (try apply (shiftl_bound _ 8 8); lia).
  rewrite Z.shiftl_mul_pow2 by lia. change (2 ^ 8) with 256. change (2 ^ 16) with 65536.
  replace ((m / 256) mod 256 * 256 + m / 65536 * 65536)
    with (((m / 256) mod 256 + m / 65536 * 256) .<< 8) by (rewrite Z.shiftl_mul_pow2 by lia; lia).
  rewrite lor_shiftl_add by lia. change (2 ^ 8) with 256. rewrite i32_id; [lia|]. unfold int32. lia.
Qed.

(** The PM timer is monotonic and reads of it do not tear: whatever happens
    between two reads, and also if the machine clock handed in went back, the
    second count is not smaller; a count follows the clock exactly once it has
    caught up; and the 32-bit read of the timer register returns the low 24 bits
    of one count. *)
Theorem acpi_pm_timer (s : t) (ops : list op) (now1 now2 : Q) :
  let s1 := exec (timer_ticks now1) s in
  let s2 := exec (run ops) s1 in
  res (timer_ticks now1) s <= res (timer_ticks now2) s2
  /\ res (timer_ticks now2) s2 = Z.max (timer_last s2) (raw_ticks now2 + timer_offset s2)
  /\ (ich9 P = false -> res (pm_read now1 8 4) s = res (timer_ticks now1) s mod 2 ^ 24).
Proof.
  cbv zeta. set (s1 := exec (timer_ticks now1) s).
  assert (res (timer_ticks now1) s = timer_last s1) as E1.
  { unfold s1, res, exec. by rewrite timer_ticks_spec. }
  assert (counted (timer_last s1) (exec (run ops) s1) tt) as Hc.
  { assert (ghoare no_ghost (counted (timer_last s1)) (run ops) (counted (timer_last s1))) as H
      by (apply ghoare_mfor, run_op_counted). exact (H s1 tt (Z.le_refl _)). }
  unfold counted in Hc. split_and!.
  - rewrite E1. unfold res. rewrite timer_ticks_spec. cbn [fst]. lia.
  - unfold res. by rewrite timer_ticks_spec.
  - intros Hp. rewrite E1. unfold pm_read. change ((8 <? 12) && (8 <? 8 + 4) || (8 <? 2)) with true.
    cbn iota. rewrite !res_bind. change (Z.to_nat 4) with 4%nat.
    rewrite (pm_read_timer_bytes _ _ _ Hp). fold s1. rewrite E1.
    apply timer_assembled.
Qed.

End acpi.

Lemma acpi_wake_witness :
  let s := exec (pm_write piix4 0%Q 4 2 0x2400) (create piix4 0%Q) in
  sleeping s = 3 /\ pm1_sts (exec (press_power_button piix4 true) s) = 0x8100.
Proof.
  cbv zeta.
  assert (sleeping (exec (pm_write piix4 0%Q 4 2 0x2400) (create piix4 0%Q)) = 3) as Hs
    by (vm_compute; reflexivity).
  split; [exact Hs|]. destruct (acpi_wake piix4 _ Hs) as (_ & _ & [_ [H _]] & _). exact H.
Defined.

Lemma acpi_pm_timer_witness :
  res (pm_read piix4 1%Q 8 4) (create piix4 0%Q)
  = res (timer_ticks 1%Q) (create piix4 0%Q) mod 2 ^ 24.
Proof.
  destruct (acpi_pm_timer piix4 (create piix4 0%Q) [] 1%Q 2%Q) as (_ & _ & H).
  apply H. reflexivity.
Defined.

End Acpi.
