(* ===== verification/Pit.v ===== *)
(** * The programmable interval timer ([pit.js])

    Three counters driven by a 1.193 MHz oscillator; counter 0 drives IRQ 0,
    counter 2 the speaker.  A counter is not decremented but computed from the
    time it was started.  Times are rationals in milliseconds, the current time
    ([cpu.clock.now()]) is an argument, and [None] is [NaN], which a counter's
    start time becomes when it is serviced while its reload value is 0. *)


From S2P Require Import Prelude Rat.

Open Scope Z_scope.

Module Pit.

Definition OSCILLATOR_FREQ : Q := 11931816666 # 10000000.

Record t := mk {
  counter_start_time : list (option Q);
  counter_start_value : list Z;
  counter_next_low : list Z;
  counter_enabled : list Z;
  counter_mode : list Z;
  counter_read_mode : list Z;
  counter_latch : list Z;
  counter_latch_value : list Z;
  counter_reload : list Z
}.

Definition create : t :=
  mk (replicate 3 (Some 0%Q)) (replicate 3 0) (replicate 4 0) (replicate 4 0) (replicate 4 0)
    (replicate 4 0) (replicate 4 0) (replicate 3 0) (replicate 3 0).

Definition start_time (s : t) (i : Z) : option Q := default None (counter_start_time s !! Z.to_nat i).
Definition set_start_time (i : Z) (v : option Q) (s : t) : t :=
  s <| counter_start_time := <[Z.to_nat i := v]> (counter_start_time s) |>.

(** [n] ticks of the oscillator, in milliseconds. *)
Definition ticks (n : Z) : Q := (inject_Z n / OSCILLATOR_FREQ)%Q.

Definition deadline (s : t) (i : Z) : option Q :=
  st ← start_time s i; Some (st + ticks (arr_get (counter_start_value s) i))%Q.

Definition did_rollover (s : t) (i : Z) (now : Q) : bool :=
  match start_time s i, deadline s i with
  | Some st, Some d => negb (Qle_bool 0 (now - st)) || Qle_bool d now
  | _, _ => false
  end.

(** [None]: NaN, which the bitwise operators turn into 0. *)
Definition get_counter_value (s : t) (i : Z) (now : Q) : option Z :=
  if arr_get (counter_enabled s) i =? 0 then Some 0
  else
    match start_time s i, deadline s i with
    | Some st, Some d =>
        if Qle_bool d now then
          let reload := arr_get (counter_reload s) i in
          if arr_get (counter_mode s) i =? 0 then Some 0
          else if reload =? 0 then None
          else Some (reload - Z.rem (Qfloor ((now - d) * OSCILLATOR_FREQ)) reload)
        else
          let elapsed := Qfloor ((now - st) * OSCILLATOR_FREQ) in
          Some (Z.max 1 (arr_get (counter_start_value s) i - elapsed))
    | _, _ => None
    end.

(** ** Ports *)

Definition counter_read (i : Z) (now : Q) : M t Z :=
  s <-- get ;;
  let latch := arr_get (counter_latch s) i in
  if negb (latch =? 0) then
    modify (fun s => s <| counter_latch := arr_set (counter_latch s) i (u8 (latch - 1)) |>) ;;;
    ret (if latch =? 2 then arr_get (counter_latch_value s) i .& 0xFF
         else arr_get (counter_latch_value s) i .>> 8)
  else
    let next_low := arr_get (counter_next_low s) i in
    when (arr_get (counter_mode s) i =? 3)
      (modify (fun s => s <| counter_next_low := arr_set (counter_next_low s) i (next_low .^ 1) |>)) ;;;
    s <-- get ;;
    let value := default 0 (get_counter_value s i now) in
    ret (if negb (next_low =? 0) then value .& 0xFF else value .>> 8).

Definition counter_write (i value : Z) (now : Q) : M t unit :=
  s <-- get ;;
  let next_low := arr_get (counter_next_low s) i in
  let reload := arr_get (counter_reload s) i in
  let read_mode := arr_get (counter_read_mode s) i in
  modify (fun s => s <| counter_reload := arr_set (counter_reload s) i
    (u16 (if negb (next_low =? 0) then reload .& ~. 0xFF .| value
          else reload .& 0xFF .| (value .<< 8))) |>) ;;;
  when (negb (read_mode =? 3) || (next_low =? 0))
    (s <-- get ;;
     when (arr_get (counter_reload s) i =? 0)
       (modify (fun s => s <| counter_reload := arr_set (counter_reload s) i 0xFFFF |>)) ;;;
     modify (fun s => set_start_time i (Some now)
       (s <| counter_start_value := arr_set (counter_start_value s) i (arr_get (counter_reload s) i) |>
          <| counter_enabled := arr_set (counter_enabled s) i 1 |>))) ;;;
  when (read_mode =? 3)
    (modify (fun s => s <| counter_next_low := arr_set (counter_next_low s) i (next_low .^ 1) |>)).

Definition speaker_update : M t unit :=
  s <-- get ;;
  emit (BusSend "pcspeaker-update" (PNums [arr_get (counter_mode s) 2; arr_get (counter_reload s) 2])).

(** [drives]: the result of [drives_irq0()]. *)
Definition port43_write (drives : bool) (reg_byte : Z) (now : Q) : M t unit :=
  let mode := (reg_byte .>> 1) .& 7 in
  let i := (reg_byte .>> 6) .& 3 in
  let read_mode := (reg_byte .>> 4) .& 3 in
  if i =? 3 then skip
  else if read_mode =? 0 then
    modify (fun s => s <| counter_latch := arr_set (counter_latch s) i 2 |>) ;;;
    modify (fun s =>
      let value := default 0 (get_counter_value s i now) in
      s <| counter_latch_value := arr_set (counter_latch_value s) i
             (u16 (if value =? 0 then 0 else value - 1)) |>)
  else
    let mode := if 6 <=? mode then mode .& ~. 4 else mode in
    modify (fun s => s <| counter_next_low := arr_set (counter_next_low s) i (if read_mode =? 2 then 0 else 1) |>) ;;;
    when ((i =? 0) && drives) (emit (DeviceLowerIrq 0)) ;;;
    modify (fun s => s <| counter_mode := arr_set (counter_mode s) i mode |>
                       <| counter_read_mode := arr_set (counter_read_mode s) i read_mode |>) ;;;
    when (i =? 2) speaker_update.

Definition port61_read (now : Q) : M t Z :=
  s <-- get ;;
  let x := (now * (1000000 # 15000))%Q in
  let ref_toggle := Z.quot (Qnum x) (Zpos (Qden x)) .& 1 in
  ret ((ref_toggle .<< 4) .| (b2z (did_rollover s 2 now) .<< 5)).

Definition port61_write (data : Z) : M t unit :=
  emit (BusSend (if has data 1 then "pcspeaker-enable" else "pcspeaker-disable") PNone).

Definition port42_write (data : Z) (now : Q) : M t unit := counter_write 2 data now ;;; speaker_update.

(** ** The timer *)

Definition qmax0 (q : Q) : Q := if Qle_bool 0 q then q else 0.

(** The new start time: missed periods are skipped and the phase is kept. *)
Definition next_start (d now : Q) (reload : Z) : option Q :=
  if reload =? 0 then None
  else Some (d + inject_Z (Qfloor ((now - d) / ticks reload)) * ticks reload)%Q.

Definition timer (drives no_irq : bool) (now : Q) : M t (option Q) :=
  if no_irq then ret (Some 100%Q)
  else
    s <-- get ;;
    (if negb (arr_get (counter_enabled s) 0 =? 0) && did_rollover s 0 now then
       let reload := arr_get (counter_reload s) 0 in
       modify (set_start_time 0 (d ← deadline s 0; next_start d now reload)) ;;;
       modify (fun s => s <| counter_start_value := arr_set (counter_start_value s) 0 reload |>) ;;;
       when drives (emit (DeviceLowerIrq 0) ;;; emit (DeviceRaiseIrq 0)) ;;;
       when (arr_get (counter_mode s) 0 =? 0)
         (modify (fun s => s <| counter_enabled := arr_set (counter_enabled s) 0 0 |>))
     else when drives (emit (DeviceLowerIrq 0))) ;;;
    s <-- get ;;
    ret (if arr_get (counter_enabled s) 0 =? 0 then Some 100%Q
         else d ← deadline s 0; Some (qmax0 (d - now)))%Q.

(** ** State images *)

Inductive state_item := SNums (l : list Z) | STimes (l : list (option Q)).

Definition get_state (s : t) : list state_item :=
  [SNums (counter_next_low s); SNums (counter_enabled s); SNums (counter_mode s);
   SNums (counter_read_mode s); SNums (counter_latch s); SNums (counter_latch_value s);
   SNums (counter_reload s); STimes (counter_start_time s); SNums (counter_start_value s)].

Definition set_state (state : list state_item) (s : t) : option t :=
  match state with
  | [SNums nl; SNums en; SNums mo; SNums rm; SNums la; SNums lv; SNums re; STimes st; SNums sv] =>
      Some (mk st sv nl en mo rm la lv re)
  | _ => None
  end.

(** ** Periodic interrupts keep their phase *)

(** The number of the ideal deadlines [d], [d + P], [d + 2 P], ... (with the
    period [P] of the reload value [r]) that are not after [now]. *)
Definition phase (d : Q) (r : Z) (now : Q) : Z :=
  if Qle_bool d now then 1 + Qfloor ((now - d) / ticks r) else 0.

Lemma ticks_pos r : 0 < r -> (0 < ticks r)%Q.
Proof.
  intros H. unfold ticks. apply Qlt_shift_div_l; [reflexivity|].
  rewrite Qmult_0_l. change 0%Q with (inject_Z 0). by rewrite <- Zlt_Qlt.
Qed.

(** Where [now] lies between the ideal deadlines. *)
Lemma phase_bounds d r now :
  0 < r -> 0 <= phase d r now
  /\ (now < d + inject_Z (phase d r now) * ticks r)%Q
  /\ (0 < phase d r now -> (d + inject_Z (phase d r now - 1) * ticks r <= now)%Q).
Proof.
  intros Hr. pose proof (ticks_pos r Hr) as HP. unfold phase. destruct (Qle_bool d now) eqn:E.
  - apply Qle_bool_iff in E. destruct (floor_periods_bounds d (ticks r) now HP) as [H1 H2].
    set (k := Qfloor _) in *. split; [|split].
    + enough (0 <= k) by lia.
      apply Z.lt_succ_r. rewrite Zlt_Qlt. unfold Z.succ.
      apply (Qmult_lt_r _ _ (ticks r) HP). rewrite Qmult_0_l. lra.
    + by rewrite Z.add_comm.
    + intros _. by replace (1 + k - 1) with k by lia.
  - split; [done|]. split; [|lia]. rewrite Qmult_0_l.
    assert (~ (d <= now)%Q) as H by (intros H; apply Qle_bool_iff in H; congruence). lra.
Qed.

Lemma phase_unique d r now k :
  0 < r -> 0 <= k -> (now < d + inject_Z k * ticks r)%Q ->
  (0 < k -> (d + inject_Z (k - 1) * ticks r <= now)%Q) -> phase d r now = k.
Proof.
  intros Hr Hk H1 H2. pose proof (ticks_pos r Hr) as HP. unfold phase. destruct (Z.eqb_spec k 0) as [->|Hk0].
  - destruct (Qle_bool d now) eqn:E; [|done]. apply Qle_bool_iff in E. rewrite Qmult_0_l in H1. lra.
  - specialize (H2 ltac:(lia)). pose proof (Qmult_pos_le (k - 1) (ticks r) ltac:(lia) HP).
    rewrite (proj2 (Qle_bool_iff d now)) by lra.
    rewrite (floor_periods d (ticks r) now (k - 1) HP H2); [lia|]. by replace (k - 1 + 1) with k by lia.
Qed.

(** Counter 0 is running periodically, and its next deadline is the first ideal
    one after [n], the time of the last service. *)
Record tracks (d : Q) (r : Z) (n : Q) (s : t) : Prop := {
  tr_enabled : arr_get (counter_enabled s) 0 <> 0;
  tr_mode : arr_get (counter_mode s) 0 <> 0;
  tr_reload : arr_get (counter_reload s) 0 = r;
  tr_times : length (counter_start_time s) = 3%nat;
  tr_values : length (counter_start_value s) = 3%nat;
  tr_start : exists st, start_time s 0 = Some st /\ (st <= n)%Q /\
    (st + ticks (arr_get (counter_start_value s) 0) == d + inject_Z (phase d r n) * ticks r)%Q
}.

Lemma tracks_rollover d r n s now :
  0 < r -> tracks d r n s -> (n <= now)%Q ->
  did_rollover s 0 now = (phase d r n <? phase d r now).
Proof.
  intros Hr [_ _ _ _ _ (st & Hst & Hle & Hd)] Hn. unfold did_rollover, deadline. rewrite Hst.
  cbn [mbind option_bind]. pose proof (ticks_pos r Hr) as HP.
  destruct (phase_bounds d r n Hr) as (_ & Hb1 & _). destruct (phase_bounds d r now Hr) as (Hk0 & Hb2 & Hb3).
  rewrite (proj2 (Qle_bool_iff 0 (now - st))) by lra. cbn [negb orb].
  set (D := (st + _)%Q) in *. set (k := phase d r n) in *. set (k' := phase d r now) in *.
  destruct (Z.ltb_spec k k') as [Hlt|Hge].
  - apply Qle_bool_iff. specialize (Hb3 ltac:(destruct (phase_bounds d r n Hr); lia)).
    assert (inject_Z k <= inject_Z (k' - 1))%Q as Hk by (rewrite <- Zle_Qle; lia).
    assert (inject_Z k * ticks r <= inject_Z (k' - 1) * ticks r)%Q as Hm
      by (apply Qmult_le_compat_r; [done|by apply Qlt_le_weak]). lra.
  - destruct (Qle_bool D now) eqn:E; [|done]. apply Qle_bool_iff in E.
    assert (inject_Z k' <= inject_Z k)%Q as Hk by (by rewrite <- Zle_Qle).
    assert (inject_Z k' * ticks r <= inject_Z k * ticks r)%Q as Hm
      by (apply Qmult_le_compat_r; [done|by apply Qlt_le_weak]). lra.
Qed.

(** No ideal deadline passed. *)
Lemma phase_same d r n now :
  0 < r -> (n <= now)%Q -> (phase d r n <? phase d r now) = false -> phase d r now = phase d r n.
Proof.
  intros Hr Hn E. apply Z.ltb_ge in E. pose proof (ticks_pos r Hr) as HP.
  destruct (phase_bounds d r n Hr) as (Hn0 & _ & Hn2). destruct (phase_bounds d r now Hr) as (Hk0 & Hk1 & _).
  apply phase_unique; [done|done| |].
  - assert (inject_Z (phase d r now) <= inject_Z (phase d r n))%Q as Hk by (by rewrite <- Zle_Qle).
    assert (inject_Z (phase d r now) * ticks r <= inject_Z (phase d r n) * ticks r)%Q as Hm
      by (apply Qmult_le_compat_r; [done|by apply Qlt_le_weak]). lra.
  - intros H. specialize (Hn2 H). lra.
Qed.

(** Skipping whole periods from the deadline of [n] leads to that of [now]. *)
Lemma phase_next d r n now D :
  0 < r -> (D == d + inject_Z (phase d r n) * ticks r)%Q -> (D <= now)%Q ->
  let k := Qfloor ((now - D) / ticks r) in
  phase d r now = phase d r n + k + 1 /\ (D + inject_Z k * ticks r <= now)%Q.
Proof.
  intros Hr HD Hle k. pose proof (ticks_pos r Hr) as HP.
  destruct (floor_periods_bounds D (ticks r) now HP) as [H1 H2]. fold k in H1, H2.
  assert (0 <= k) as Hk.
  { apply Z.lt_succ_r. rewrite Zlt_Qlt. apply (Qmult_lt_r _ _ (ticks r) HP). rewrite Qmult_0_l.
    unfold Z.succ. lra. }
  split; [|done]. destruct (phase_bounds d r n Hr) as (Hn0 & _). apply phase_unique; [done|lia| |].
  - rewrite <- Z.add_assoc, inject_Z_plus. lra.
  - intros _. replace (phase d r n + k + 1 - 1) with (phase d r n + k) by lia. rewrite inject_Z_plus. lra.
Qed.

(** The state after an interrupt of a periodic counter 0. *)
Definition rearmed (st : option Q) (s : t) : t :=
  set_start_time 0 st s
    <| counter_start_value := arr_set (counter_start_value s) 0 (arr_get (counter_reload s) 0) |>.

Lemma rearmed_value st s :
  counter_start_value (rearmed st s) = arr_set (counter_start_value s) 0 (arr_get (counter_reload s) 0).
Proof. done. Qed.

Definition until (s : t) (now : Q) : option Q :=
  if arr_get (counter_enabled s) 0 =? 0 then Some 100%Q else d ← deadline s 0; Some (qmax0 (d - now)).

Lemma timer_fires drives s now :
  arr_get (counter_enabled s) 0 <> 0 -> arr_get (counter_mode s) 0 <> 0 -> did_rollover s 0 now = true ->
  let s' := rearmed (d ← deadline s 0; next_start d now (arr_get (counter_reload s) 0)) s in
  timer drives false now s = (until s' now, s', if drives then [DeviceLowerIrq 0; DeviceRaiseIrq 0] else []).
Proof.
  intros He Hm Hr. unfold timer. rewrite bind_get. rewrite (proj2 (Z.eqb_neq _ _) He), Hr. cbn [negb andb].
  rewrite (proj2 (Z.eqb_neq _ _) Hm). by destruct drives.
Qed.

Lemma timer_waits drives s now :
  (arr_get (counter_enabled s) 0 = 0 \/ did_rollover s 0 now = false) ->
  timer drives false now s = (until s now, s, if drives then [DeviceLowerIrq 0] else []).
Proof.
  intros H. unfold timer. rewrite bind_get.
  replace (negb (arr_get (counter_enabled s) 0 =? 0) && did_rollover s 0 now) with false.
  - by destruct drives.
  - destruct H as [-> | ->]; [done|]. by rewrite andb_false_r.
Qed.

Lemma start_time_set s q :
  length (counter_start_time s) = 3%nat -> start_time (set_start_time 0 q s) 0 = q.
Proof.
  intros H. unfold start_time, set_start_time. cbn -[insert]. rewrite list_lookup_insert_eq by (cbn; lia).
  done.
Qed.

Lemma until_tracks d r now s :
  0 < r -> tracks d r now s ->
  exists q, until s now = Some q /\ (0 < q)%Q /\ (now + q == d + inject_Z (phase d r now) * ticks r)%Q.
Proof.
  intros Hr [He _ _ _ _ (st & Hst & Hle & Hd)]. unfold until, deadline. rewrite (proj2 (Z.eqb_neq _ _) He), Hst.
  cbn [mbind option_bind]. eexists. split; [done|].
  destruct (phase_bounds d r now Hr) as (_ & Hb & _). unfold qmax0.
  rewrite (proj2 (Qle_bool_iff _ _)) by lra. split; lra.
Qed.

Lemma tracks_timer d r n s now drives :
  0 < r -> tracks d r n s -> (n <= now)%Q ->
  tracks d r now (exec (timer drives false now) s)
  /\ evs (timer drives false now) s =
     (if drives then DeviceLowerIrq 0 :: (if phase d r n <? phase d r now then [DeviceRaiseIrq 0] else [])
      else [])
  /\ res (timer drives false now) s = until (exec (timer drives false now) s) now.
Proof.
  intros Hr Ht Hn. pose proof (tracks_rollover d r n s now Hr Ht Hn) as Hroll.
  destruct (phase d r n <? phase d r now) eqn:E.
  - pose proof (timer_fires drives s now (tr_enabled _ _ _ _ Ht) (tr_mode _ _ _ _ Ht) Hroll) as Hf.
    unfold res, exec, evs. rewrite Hf. cbn [fst snd].
    split; [|by destruct drives]. destruct Ht as [He Hm Hre Hl1 Hl2 (st & Hst & Hle & Hd)].
    unfold deadline. rewrite Hst. cbn [mbind option_bind]. unfold next_start. rewrite Hre.
    rewrite (proj2 (Z.eqb_neq r 0)) by lia. unfold did_rollover, deadline in Hroll. rewrite Hst in Hroll.
    cbn [mbind option_bind] in Hroll. set (D := (st + _)%Q) in *.
    assert (D <= now)%Q as HD.
    { apply orb_true_iff in Hroll as [H|H]; [|by apply Qle_bool_iff].
      apply negb_true_iff in H. exfalso. rewrite (proj2 (Qle_bool_iff _ _)) in H by lra. done. }
    destruct (phase_next d r n now D Hr Hd HD) as [Hp Hk]. split; [done..| | |].
    + cbn -[insert]. by rewrite length_insert.
    + cbn. by rewrite arr_set_length.
    + eexists. split; [by apply start_time_set|]. split; [done|]. rewrite Hp, rearmed_value.
      rewrite arr_get_set_eq by (rewrite Hl2; lia). rewrite Hre, !inject_Z_plus. change (inject_Z 1) with 1%Q. lra.
  - pose proof (timer_waits drives s now (or_intror Hroll)) as Hf.
    unfold res, exec, evs. rewrite Hf. cbn [fst snd]. split; [|by destruct drives].
    destruct Ht as [He Hm Hre Hl1 Hl2 (st & Hst & Hle & Hd)]. split; [done..|].
    exists st. split; [done|]. split; [lra|]. by rewrite (phase_same d r n now Hr Hn E).
Qed.

Definition services (nows : list Q) : M t unit := mfor nows (fun n => timer true false n ;;; skip).

Fixpoint ascending (n : Q) (nows : list Q) : Prop :=
  match nows with [] => True | n' :: nows => (n <= n')%Q /\ ascending n' nows end.

Fixpoint latest (n : Q) (nows : list Q) : Q :=
  match nows with [] => n | n' :: nows => latest n' nows end.

Lemma tracks_services d r nows : forall n s,
  0 < r -> tracks d r n s -> ascending n nows -> tracks d r (latest n nows) (exec (services nows) s).
Proof.
  induction nows as [|n' nows IH]; intros n s Hr Ht Ha; [done|]. destruct Ha as [Hn Ha].
  unfold services. cbn [mfor latest]. rewrite exec_bind. apply IH; [done| |done].
  rewrite exec_bind. by apply tracks_timer with (n := n).
Qed.

(** Periodic interrupts do not drift.  A counter 0 that was started at [st]
    interrupts at the ideal deadlines, one start value after [st] and then every
    reload value, however late, irregular or coalesced the services by the host
    are: over any services at ascending times, a service raises IRQ 0 exactly if
    an ideal deadline passed since the service before it, and the time it reports
    until the next one is exactly the distance to the first ideal deadline that
    lies ahead. *)
Theorem pit_no_drift (s : t) (st : Q) (r : Z) (nows : list Q) (now : Q)
    (He : arr_get (counter_enabled s) 0 <> 0) (Hm : arr_get (counter_mode s) 0 <> 0)
    (Hr : arr_get (counter_reload s) 0 = r) (Hrp : 0 < r)
    (Hv : 0 < arr_get (counter_start_value s) 0)
    (Hl : length (counter_start_time s) = 3%nat /\ length (counter_start_value s) = 3%nat)
    (Hst : start_time s 0 = Some st) (Ha : ascending st (nows ++ [now])) :
  let d := (st + ticks (arr_get (counter_start_value s) 0))%Q in
  let before := phase d r (latest st nows) in
  let s' := exec (services nows) s in
  (DeviceRaiseIrq 0 ∈ evs (timer true false now) s' <-> before < phase d r now)
  /\ exists q, res (timer true false now) s' = Some q /\ (0 < q)%Q
       /\ (now + q == d + inject_Z (phase d r now) * ticks r)%Q.
Proof.
  intros d before s'. pose proof (ticks_pos _ Hv) as Hvp.
  assert (phase d r st = 0) as Hp0 by (apply phase_unique; [done|done|rewrite Qmult_0_l; unfold d; lra|lia]).
  assert (tracks d r st s) as Ht.
  { destruct Hl. split; [done..|]. exists st. split; [done|]. split; [apply Qle_refl|].
    rewrite Hp0, Qmult_0_l. unfold d. lra. }
  assert (ascending st nows /\ (latest st nows <= now)%Q) as [Ha1 Ha2].
  { clear -Ha. revert st Ha. induction nows as [|n nows IH]; intros st Ha; cbn in *; [tauto|].
    destruct Ha as [H Ha]. destruct (IH _ Ha). tauto. }
  pose proof (tracks_services d r nows st s Hrp Ht Ha1) as Hs. fold s' in Hs.
  destruct (tracks_timer d r _ s' now true Hrp Hs Ha2) as (H1 & H2 & H3). split.
  - rewrite H2. fold before. destruct (Z.ltb_spec before (phase d r now)) as [H|H].
    + split; [done|]. intros _. right. left.
    + split; [|lia]. intros Hin. apply list_elem_of_singleton in Hin. done.
  - rewrite H3. by apply until_tracks.
Qed.

(** ** Programming and reading a counter *)

Record sized (s : t) : Prop := {
  sz_times : length (counter_start_time s) = 3%nat;
  sz_values : length (counter_start_value s) = 3%nat;
  sz_low : length (counter_next_low s) = 4%nat;
  sz_enabled : length (counter_enabled s) = 4%nat;
  sz_mode : length (counter_mode s) = 4%nat;
  sz_read_mode : length (counter_read_mode s) = 4%nat;
  sz_latch : length (counter_latch s) = 4%nat;
  sz_latch_value : length (counter_latch_value s) = 3%nat;
  sz_reload : length (counter_reload s) = 3%nat
}.

Lemma control_fields i rm m x :
  0 <= i < 4 -> 0 <= rm < 4 -> 0 <= m < 8 -> 0 <= x < 2 ->
  let b := i * 64 + rm * 16 + m * 2 + x in
  (b .>> 6) .& 3 = i /\ (b .>> 4) .& 3 = rm /\ (b .>> 1) .& 7 = m.
Proof.
  intros Hi Hr Hm Hx b. unfold b. rewrite !Z.shiftr_div_pow2 by lia.
  rewrite (land_ones_mod _ 2), (land_ones_mod _ 2), (land_ones_mod _ 3) by lia.
  Z.to_euclidean_division_equations. lia.
Qed.

(** The latch command freezes the counter for reading: the two reads that
    follow return the low and the high byte of one value, the count at the time
    of the command less one, whenever they are made, and leave everything but
    the latch as it was; a third read sees the running counter again. *)
Theorem pit_latch (s : t) (drives : bool) (i x m : Z) (t0 t1 t2 : Q)
    (Hw : sized s) (Hi : 0 <= i < 3) (Hx : 0 <= x < 2) (Hm : 0 <= m < 8) :
  let v := default 0 (get_counter_value s i t0) in
  let latched := s <| counter_latch := arr_set (counter_latch s) i 0 |>
                   <| counter_latch_value := arr_set (counter_latch_value s) i (Z.max 0 (v - 1)) |> in
  0 <= v <= 0x10000 ->
  exists lo hi,
    (port43_write drives (i * 64 + m * 2 + x) t0 ;;;
     lo <-- counter_read i t1 ;; hi <-- counter_read i t2 ;; ret (lo, hi)) s = ((lo, hi), latched, [])
    /\ byte lo /\ byte hi /\ lo + 256 * hi = Z.max 0 (v - 1).
Proof.
  intros v latched Hv. destruct (control_fields i 0 m x) as (E1 & E2 & E3); [lia..|].
  replace (i * 64 + 0 * 16 + m * 2 + x) with (i * 64 + m * 2 + x) in * by lia.
  set (y := Z.max 0 (v - 1)) in *.
  assert (u16 (if v =? 0 then 0 else v - 1) = y) as Hy.
  { unfold u16, y. change (2 ^ 16) with 65536. destruct (Z.eqb_spec v 0) as [E0|E0]; [by rewrite E0|].
    rewrite Z.mod_small by lia. lia. }
  assert (0 <= y < 65536) as Hyb by lia.
  set (s1 := s <| counter_latch := arr_set (counter_latch s) i 2 |>
               <| counter_latch_value := arr_set (counter_latch_value s) i y |>).
  assert (port43_write drives (i * 64 + m * 2 + x) t0 s = (tt, s1, [])) as H1.
  { unfold port43_write. rewrite E1, E2. rewrite (proj2 (Z.eqb_neq i 3)) by lia. change (0 =? 0) with true.
    cbn iota. rewrite bind_modify. unfold modify.
    change (get_counter_value (s <| counter_latch := arr_set (counter_latch s) i 2 |>) i t0)
      with (get_counter_value s i t0). fold v. by rewrite Hy. }
  set (s2 := s1 <| counter_latch := arr_set (counter_latch s1) i 1 |>).
  assert (arr_get (counter_latch_value s1) i = y /\ arr_get (counter_latch_value s2) i = y) as [Hy1 Hy2].
  { change (counter_latch_value s2) with (counter_latch_value s1).
    change (counter_latch_value s1) with (arr_set (counter_latch_value s) i y).
    rewrite arr_get_set_eq by (rewrite (sz_latch_value s Hw); lia). done. }
  assert (counter_read i t1 s1 = (y .& 0xFF, s2, [])) as H2.
  { unfold counter_read. rewrite bind_get.
    assert (arr_get (counter_latch s1) i = 2) as ->.
    { change (counter_latch s1) with (arr_set (counter_latch s) i 2).
      apply arr_get_set_eq. rewrite (sz_latch s Hw). lia. }
    rewrite Hy1. done. }
  assert (counter_read i t2 s2 = (y .>> 8, latched, [])) as H3.
  { unfold counter_read. rewrite bind_get.
    assert (arr_get (counter_latch s2) i = 1) as ->.
    { change (counter_latch s2) with (arr_set (arr_set (counter_latch s) i 2) i 1).
      apply arr_get_set_eq. rewrite arr_set_length, (sz_latch s Hw). lia. }
    rewrite Hy2. cbn [negb Z.eqb Pos.eqb]. rewrite bind_modify. unfold ret, latched, s2, s1. cbn -[arr_set].
    unfold arr_set. by rewrite !list_insert_insert_eq. }
  exists (y .& 0xFF), (y .>> 8). split; [|rewrite land_ff, Z.shiftr_div_pow2 by lia].
  - rewrite (bind_quiet _ _ _ _ _ H1), (bind_quiet _ _ _ _ _ H2), (bind_quiet _ _ _ _ _ H3). done.
  - unfold byte. change (2 ^ 8) with 256. Z.to_euclidean_division_equations. lia.
Qed.

Lemma counter_write_low i value now s :
  arr_get (counter_next_low s) i = 1 -> arr_get (counter_read_mode s) i = 3 ->
  exec (counter_write i value now) s =
    s <| counter_reload := arr_set (counter_reload s) i (u16 (arr_get (counter_reload s) i .& ~. 0xFF .| value)) |>
      <| counter_next_low := arr_set (counter_next_low s) i 0 |>.
Proof. intros H1 H2. unfold counter_write. rewrite exec_get, H1, H2. done. Qed.

Definition started (i v : Z) (now : Q) (s : t) : t :=
  set_start_time i (Some now)
    (s <| counter_reload := arr_set (counter_reload s) i v |>
       <| counter_start_value := arr_set (counter_start_value s) i v |>
       <| counter_enabled := arr_set (counter_enabled s) i 1 |>
       <| counter_next_low := arr_set (counter_next_low s) i 1 |>).

Definition full_count (v : Z) : Z := if v =? 0 then 0xFFFF else v.

Lemma counter_write_high i value now s :
  sized s -> 0 <= i < 3 ->
  arr_get (counter_next_low s) i = 0 -> arr_get (counter_read_mode s) i = 3 ->
  exec (counter_write i value now) s =
    started i (full_count (u16 (arr_get (counter_reload s) i .& 0xFF .| (value .<< 8)))) now s.
Proof.
  intros Hs Hi H1 H2. unfold counter_write. rewrite exec_get, H1, H2.
  change (negb (0 =? 0)) with false. change (negb (3 =? 3) || (0 =? 0)) with true. change (3 =? 3) with true.
  cbn iota. set (x := u16 _). rewrite exec_modify. set (s1 := s <| counter_reload := _ |>).
  assert (arr_get (counter_reload s1) i = x) as Hx.
  { change (counter_reload s1) with (arr_set (counter_reload s) i x). apply arr_get_set_eq.
    rewrite (sz_reload s Hs). lia. }
  unfold when at 1 2. rewrite exec_bind, exec_get, Hx. unfold full_count, started, when. destruct (x =? 0).
  - rewrite exec_modify. cbn -[arr_set arr_get insert lookup].
    rewrite arr_get_set_eq by (rewrite arr_set_length, (sz_reload s Hs); lia).
    unfold arr_set, set_start_time. cbn -[insert]. by rewrite list_insert_insert_eq.
  - cbn -[arr_set arr_get insert lookup]. fold x.
    rewrite arr_get_set_eq by (rewrite (sz_reload s Hs); lia). done.
Qed.

Lemma combine_bytes old lo hi :
  word16 old -> byte lo -> byte hi ->
  u16 (u16 (old .& ~. 0xFF .| lo) .& 0xFF .| (hi .<< 8)) = lo + 256 * hi.
Proof.
  unfold word16, byte. intros Ho Hl Hh. change (2 ^ 8) with 256 in *.
  assert (u16 (old .& ~. 0xFF .| lo) .& 0xFF = lo) as ->.
  { rewrite land_ff. unfold u16. change 65536 with (2 ^ 16).
    rewrite Z.mod_mod_divide by (by exists 256). change 256 with (2 ^ 8).
    rewrite <- land_ones_mod, Z.land_lor_distr_l, <- Z.land_assoc by lia.
    change (~. 0xFF .& (2 ^ 8 - 1)) with 0. rewrite Z.land_0_r, Z.lor_0_l, land_ones_mod by lia.
    apply Z.mod_small. lia. }
  rewrite lor_shiftl_add by lia. unfold u16. rewrite Z.mod_small; lia.
Qed.

(** The state after a control word that selects both bytes. *)
Definition selected (i m : Z) (s : t) : t :=
  s <| counter_next_low := arr_set (counter_next_low s) i 1 |>
    <| counter_mode := arr_set (counter_mode s) i m |>
    <| counter_read_mode := arr_set (counter_read_mode s) i 3 |>.

Lemma control_exec drives i m now s :
  0 <= i < 3 -> 0 <= m < 6 ->
  exec (port43_write drives (i * 64 + 3 * 16 + m * 2 + 0) now) s = selected i m s.
Proof.
  intros Hi Hm. destruct (control_fields i 3 m 0) as (E1 & E2 & E3); [lia..|].
  unfold port43_write. rewrite E1, E2, E3. rewrite (proj2 (Z.eqb_neq i 3)), (proj2 (Z.leb_gt 6 m)) by lia.
  change (3 =? 0) with false. change (3 =? 2) with false. cbn iota.
  rewrite exec_modify, exec_bind. unfold when. destruct ((i =? 0) && drives), (i =? 2); done.
Qed.

(** A counter that was started with [v] counts down from [v] and stays in range. *)
Lemma counter_value_range s i v st :
  arr_get (counter_enabled s) i = 1 -> start_time s i = Some st ->
  arr_get (counter_reload s) i = v -> arr_get (counter_start_value s) i = v -> 1 <= v ->
  get_counter_value s i st = Some v
  /\ (forall now, (st <= now)%Q -> exists x, get_counter_value s i now = Some x /\ 0 <= x <= v).
Proof.
  intros Hen Hst Hre Hsv Hv. unfold get_counter_value, deadline. rewrite Hen, Hst, Hre, Hsv.
  cbn [mbind option_bind Z.eqb]. pose proof (ticks_pos v ltac:(lia)) as HP. split.
  - destruct (Qle_bool _ st) eqn:Ed; [apply Qle_bool_iff in Ed; lra|].
    assert (Qfloor ((st - st) * OSCILLATOR_FREQ) = 0) as ->; [|f_equal; lia].
    rewrite <- (Qfloor_Z 0). apply Qfloor_comp. unfold Qminus. rewrite Qplus_opp_r. reflexivity.
  - intros now Hn.
    assert (forall x, (0 <= x)%Q -> 0 <= Qfloor (x * OSCILLATOR_FREQ)) as Hf.
    { intros x Hx. rewrite <- (Qfloor_Z 0). apply Qfloor_resp_le. apply Qmult_le_0_compat; [done|]. discriminate. }
    destruct (Qle_bool _ now) eqn:Ed.
    + destruct (arr_get (counter_mode s) i =? 0); [exists 0; split; [done|lia]|].
      rewrite (proj2 (Z.eqb_neq v 0)) by lia. eexists. split; [done|]. apply Qle_bool_iff in Ed.
      pose proof (Z.rem_bound_pos _ v (Hf (now - (st + ticks v))%Q ltac:(lra)) ltac:(lia)). lia.
    + eexists. split; [done|]. specialize (Hf (now - st)%Q ltac:(lra)). lia.
Qed.

(** Programming a counter works for every counter, mode and value: after the
    control word, the low byte and the high byte, the counter runs from the time
    of the last write, from the 16-bit value written (0 counts as 0xFFFF), reads
    exactly that value at that time, and never leaves the range from 0 to it
    afterwards. *)
Theorem pit_program (s : t) (drives : bool) (i m lo hi : Z) (t0 t1 t2 : Q)
    (Hw : sized s) (Hi : 0 <= i < 3) (Hm : 0 <= m < 6) (Hlo : byte lo) (Hhi : byte hi)
    (Hr : word16 (arr_get (counter_reload s) i)) :
  let v := full_count (lo + 256 * hi) in
  let s' := exec (port43_write drives (i * 64 + 3 * 16 + m * 2 + 0) t0 ;;;
                  counter_write i lo t1 ;;; counter_write i hi t2) s in
  arr_get (counter_reload s') i = v /\ start_time s' i = Some t2
  /\ arr_get (counter_mode s') i = m /\ arr_get (counter_next_low s') i = 1
  /\ get_counter_value s' i t2 = Some v
  /\ (forall now, (t2 <= now)%Q -> exists x, get_counter_value s' i now = Some x /\ 0 <= x <= v).
Proof.
  intros v s'.
  assert (s' = started i v t2 ((selected i m s) <| counter_reload := arr_set (counter_reload s) i
      (u16 (arr_get (counter_reload s) i .& ~. 0xFF .| lo)) |>
      <| counter_next_low := arr_set (arr_set (counter_next_low s) i 1) i 0 |>)) as E.
  { unfold s'. rewrite !exec_bind, control_exec by done.
    rewrite (counter_write_low i lo).
    - rewrite (counter_write_high i hi).
      + f_equal. cbn -[arr_set arr_get]. rewrite arr_get_set_eq by (rewrite (sz_reload s Hw); lia).
        unfold v. by rewrite combine_bytes.
      + destruct Hw. split; cbn -[arr_set]; rewrite ?arr_set_length; done.
      + done.
      + cbn -[arr_set arr_get]. apply arr_get_set_eq. rewrite arr_set_length, (sz_low s Hw). lia.
      + cbn -[arr_set arr_get]. apply arr_get_set_eq. rewrite (sz_read_mode s Hw). lia.
    - cbn -[arr_set arr_get]. apply arr_get_set_eq. rewrite (sz_low s Hw). lia.
    - cbn -[arr_set arr_get]. apply arr_get_set_eq. rewrite (sz_read_mode s Hw). lia. }
  assert (1 <= v <= 65535) as Hv.
  { unfold v, full_count. unfold byte in *. destruct (Z.eqb_spec (lo + 256 * hi) 0); lia. }
  assert (arr_get (counter_reload s') i = v) as Hre
    by (rewrite E; cbn -[arr_set arr_get]; apply arr_get_set_eq; rewrite arr_set_length, (sz_reload s Hw); lia).
  assert (arr_get (counter_start_value s') i = v) as Hsv
    by (rewrite E; cbn -[arr_set arr_get]; apply arr_get_set_eq; rewrite (sz_values s Hw); lia).
  assert (arr_get (counter_enabled s') i = 1) as Hen
    by (rewrite E; cbn -[arr_set arr_get]; apply arr_get_set_eq; rewrite (sz_enabled s Hw); lia).
  assert (start_time s' i = Some t2) as Hst.
  { rewrite E. unfold start_time, started, set_start_time. cbn -[insert lookup arr_set].
    rewrite list_lookup_insert_eq by (rewrite (sz_times s Hw); lia). done. }
  destruct (counter_value_range s' i v t2 Hen Hst Hre Hsv ltac:(lia)) as [H0 Hbound].
  split_and!; [done|done| | |done|done].
  - rewrite E. cbn -[arr_set arr_get]. apply arr_get_set_eq. rewrite (sz_mode s Hw). lia.
  - rewrite E. cbn -[arr_set arr_get]. apply arr_get_set_eq. rewrite !arr_set_length, (sz_low s Hw). lia.
Qed.

(** Without the latch, the two bytes of a counter can only be read in mode 3:
    in every other mode the reads of a counter programmed for low byte then high
    byte return the low byte again and again, since [counter_read] looks at the
    counting mode where it means the access mode. *)
Theorem pit_unlatched_read (s : t) (i : Z) (t1 t2 : Q)
    (Hl : arr_get (counter_latch s) i = 0) (Hm : arr_get (counter_mode s) i <> 3)
    (Hn : arr_get (counter_next_low s) i = 1) :
  let value now := default 0 (get_counter_value s i now) in
  (lo <-- counter_read i t1 ;; hi <-- counter_read i t2 ;; ret (lo, hi)) s
  = ((value t1 .& 0xFF, value t2 .& 0xFF), s, []).
Proof.
  intros value.
  assert (forall now, counter_read i now s = (value now .& 0xFF, s, [])) as H.
  { intros now. unfold counter_read. rewrite bind_get, Hl, Hn, (proj2 (Z.eqb_neq _ _) Hm).
    change (negb (0 =? 0)) with false. cbn [when]. rewrite bind_skip, bind_get. done. }
  rewrite (bind_quiet _ _ _ _ _ (H t1)), (bind_quiet _ _ _ _ _ (H t2)). done.
Qed.

(** ** One-shot interrupts *)

Definition raises (es : list event) : nat := length (filter (fun e => e = DeviceRaiseIrq 0) es).

Lemma raises_app es1 es2 : raises (es1 ++ es2) = (raises es1 + raises es2)%nat.
Proof. unfold raises. by rewrite filter_app, length_app. Qed.

Lemma services_cons n nows s :
  raises (evs (services (n :: nows)) s)
  = (raises (evs (timer true false n) s) + raises (evs (services nows) (exec (timer true false n) s)))%nat.
Proof.
  unfold services. cbn [mfor]. rewrite evs_bind, raises_app. f_equal.
  change (evs (timer true false n ;;; skip) s) with (evs (timer true false n) s ++ []). by rewrite app_nil_r.
Qed.

Lemma disabled_silent nows : forall s,
  arr_get (counter_enabled s) 0 = 0 -> raises (evs (services nows) s) = 0%nat.
Proof.
  induction nows as [|n nows IH]; intros s He; [done|]. rewrite services_cons.
  pose proof (timer_waits true s n (or_introl He)) as Hw. unfold evs at 1, exec. rewrite Hw.
  cbn [fst snd]. by rewrite IH.
Qed.

(** A one-shot counter 0 (mode 0) interrupts at most once, however often it is
    serviced, until the guest writes a new count. *)
Theorem pit_one_shot (s : t) (nows : list Q)
    (Hm : arr_get (counter_mode s) 0 = 0) (Hl : length (counter_enabled s) = 4%nat) :
  (raises (evs (services nows) s) <= 1)%nat.
Proof.
  revert s Hm Hl. induction nows as [|n nows IH]; intros s Hm Hl; [unfold raises; cbn; lia|].
  rewrite services_cons.
  destruct (Z.eqb_spec (arr_get (counter_enabled s) 0) 0) as [He|He].
  - pose proof (timer_waits true s n (or_introl He)) as Hw. unfold evs at 1, exec. rewrite Hw. cbn [fst snd].
    specialize (IH s Hm Hl). change (raises [DeviceLowerIrq 0]) with 0%nat. lia.
  - destruct (did_rollover s 0 n) eqn:Hr.
    + assert (exists s', exec (timer true false n) s = s' /\ arr_get (counter_enabled s') 0 = 0
        /\ evs (timer true false n) s = [DeviceLowerIrq 0; DeviceRaiseIrq 0]) as (s' & -> & Hd & ->).
      { eexists. split; [done|]. unfold timer. rewrite exec_get.
        unfold evs. rewrite bind_get. rewrite (proj2 (Z.eqb_neq _ _) He), Hr, Hm. cbn [negb andb]. split; [|done].
        change (0 =? 0) with true. cbn -[arr_set arr_get insert Z.eqb]. apply arr_get_set_eq. rewrite Hl. lia. }
      rewrite (disabled_silent nows s' Hd). change (raises [DeviceLowerIrq 0; DeviceRaiseIrq 0]) with 1%nat. lia.
    + pose proof (timer_waits true s n (or_intror Hr)) as Hw. unfold evs at 1, exec. rewrite Hw. cbn [fst snd].
      specialize (IH s Hm Hl). change (raises [DeviceLowerIrq 0]) with 0%nat. lia.
Qed.

(** ** Witnesses *)

(** Counter 0 in mode 2 with a period of 1193 ticks, started at time 0. *)
Definition demo (mode : Z) : t :=
  exec (port43_write true (0 * 64 + 3 * 16 + mode * 2 + 0) 0%Q ;;; counter_write 0 0xA9 0%Q ;;;
        counter_write 0 4 0%Q) create.

Lemma pit_no_drift_witness :
  let s := demo 2 in
  DeviceRaiseIrq 0 ∈ evs (timer true false (5 # 2)) (exec (services [1 # 2; 7 # 5]%Q) s).
Proof.
  cbv zeta.
  destruct (pit_no_drift (demo 2) 0%Q 0x4A9 [1 # 2; 7 # 5]%Q (5 # 2)%Q) as [[_ H] _].
  - vm_compute. discriminate.
  - vm_compute. discriminate.
  - vm_compute. reflexivity.
  - lia.
  - vm_compute. reflexivity.
  - split; vm_compute; reflexivity.
  - vm_compute. reflexivity.
  - cbn. split; [discriminate|]. split; [discriminate|]. split; [discriminate|exact I].
  - apply H. vm_compute. reflexivity.
Defined.

Lemma pit_latch_witness :
  exists lo hi,
    res (port43_write true (0 * 64 + 0 * 2 + 0) (1 # 2) ;;;
         lo <-- counter_read 0 1%Q ;; hi <-- counter_read 0 2%Q ;; ret (lo, hi)) (demo 2) = (lo, hi)
    /\ lo + 256 * hi = 596.
Proof.
  destruct (pit_latch (demo 2) true 0 0 0 (1 # 2) 1%Q 2%Q) as (lo & hi & H1 & _ & _ & H2).
  - split; vm_compute; reflexivity.
  - lia.
  - lia.
  - lia.
  - vm_compute. split; discriminate.
  - exists lo, hi. split; [unfold res; rewrite H1; reflexivity|]. rewrite H2. vm_compute. reflexivity.
Defined.

Lemma pit_program_witness :
  get_counter_value (exec (port43_write true (2 * 64 + 3 * 16 + 3 * 2 + 0) 0%Q ;;;
    counter_write 2 0x34 1%Q ;;; counter_write 2 0x12 2%Q) create) 2 2%Q = Some 0x1234.
Proof.
  apply (pit_program create true 2 3 0x34 0x12 0%Q 1%Q 2%Q).
  - split; reflexivity.
  - lia.
  - lia.
  - unfold byte. lia.
  - unfold byte. lia.
  - vm_compute. split; [discriminate|reflexivity].
Defined.

Lemma pit_unlatched_read_witness :
  let value now := default 0 (get_counter_value (demo 2) 0 now) in
  (lo <-- counter_read 0 (1 # 2) ;; hi <-- counter_read 0 (1 # 2) ;; ret (lo, hi)) (demo 2)
  = ((value (1 # 2)%Q .& 0xFF, value (1 # 2)%Q .& 0xFF), demo 2, []).
Proof.
  apply pit_unlatched_read; vm_compute; [reflexivity|discriminate|reflexivity].
Defined.

Lemma pit_one_shot_witness : (raises (evs (services [1; 2; 3]%Q) (demo 0)) <= 1)%nat.
Proof. apply pit_one_shot; vm_compute; reflexivity. Defined.

End Pit.
