(* ===== verification/Rtc.v ===== *)
(** * The real time clock and CMOS memory ([rtc.js])

    The calendar is not counted: the registers show the fields of [rtc_time], a
    time in milliseconds that follows the machine clock.  The current time
    ([cpu.clock.now()]) is an argument; times are doubles, and sums, products
    and quotients of them round (Double.v); [None] as a time is [Infinity].  The
    argument [drives] is the result of [drives_irq8()]. *)

From S2P Require Import Prelude Rat Double Date.
Import Double.

Module Rtc.

Definition CMOS_RTC_SECONDS : Z := 0x00.
Definition CMOS_RTC_SECONDS_ALARM : Z := 0x01.
Definition CMOS_RTC_MINUTES : Z := 0x02.
Definition CMOS_RTC_MINUTES_ALARM : Z := 0x03.
Definition CMOS_RTC_HOURS : Z := 0x04.
Definition CMOS_RTC_HOURS_ALARM : Z := 0x05.
Definition CMOS_RTC_DAY_WEEK : Z := 0x06.
Definition CMOS_RTC_DAY_MONTH : Z := 0x07.
Definition CMOS_RTC_MONTH : Z := 0x08.
Definition CMOS_RTC_YEAR : Z := 0x09.
Definition CMOS_STATUS_A : Z := 0x0a.
Definition CMOS_STATUS_B : Z := 0x0b.
Definition CMOS_STATUS_C : Z := 0x0c.
Definition CMOS_STATUS_D : Z := 0x0d.
Definition CMOS_DIAG_STATUS : Z := 0x0e.
Definition CMOS_CENTURY : Z := 0x32.
Definition CMOS_CENTURY2 : Z := 0x37.

Record t := mk {
  cmos_index : Z;
  cmos_data : list Z;
  rtc_time : Q;
  last_update : Q;
  next_interrupt : option Q;
  next_interrupt_alarm : Q;
  periodic_interrupt : bool;
  periodic_interrupt_time : option Q;
  cmos_a : Z;
  cmos_b : Z;
  cmos_c : Z;
  cmos_diag_status : Z;
  nmi_disabled : Z;
  update_interrupt : bool;
  update_interrupt_time : Q
}.

Definition create (wall now : Q) : t :=
  mk 0 (replicate 128 0) wall now (Some 0%Q) 0 false (Some (1000 # 1024)%Q) 0x26 2 0 0 0 false 0.

Definition update_time (time : Q) : M t unit :=
  modify (fun s => s <| rtc_time := fadd (rtc_time s) (fsub time (last_update s)) |> <| last_update := time |>).

(** ** The timer *)

Definition qle (a b : Q) : bool := Qle_bool a b.
Definition qzero (a : Q) : bool := Qeq_bool a 0.
Definition qmin (a b : Q) : Q := if qle a b then a else b.
Definition qmax (a b : Q) : Q := if qle a b then b else a.

Definition raise_irq (drives : bool) (flags : Z) : M t unit :=
  when drives (emit (DeviceRaiseIrq 8)) ;;;
  modify (fun s => s <| cmos_c := cmos_c s .| flags |>).

(** The first periodic deadline after [time]. *)
Definition advance (next time : Q) (period : option Q) : option Q :=
  p ← period; Some (fadd next (fmul p (inject_Z (Qfloor (fdiv (fsub time next) p) + 1)))).

Definition timer_periodic (drives : bool) (time : Q) : M t unit :=
  s <-- get ;;
  match periodic_interrupt s, next_interrupt s with
  | true, Some next =>
      when (qle next time)
        (raise_irq drives ((1 .<< 6) .| (1 .<< 7)) ;;;
         modify (fun s => s <| next_interrupt := advance next time (periodic_interrupt_time s) |>))
  | _, _ => skip
  end.

Definition timer_alarm (drives : bool) (time : Q) : M t unit :=
  s <-- get ;;
  when (negb (qzero (next_interrupt_alarm s)) && qle (next_interrupt_alarm s) time)
    (raise_irq drives ((1 .<< 5) .| (1 .<< 7)) ;;;
     modify (fun s => s <| next_interrupt_alarm := 0%Q |>) ;;;
     emit (Call "acpi.rtc_alarm" [])).

Definition timer_update (drives : bool) (time : Q) : M t unit :=
  s <-- get ;;
  when (update_interrupt s && qle (update_interrupt_time s) time)
    (raise_irq drives ((1 .<< 4) .| (1 .<< 7)) ;;;
     modify (fun s => s <| update_interrupt_time := fadd time 1000 |>)).

Definition wait (time t deadline : Q) : Q := qmin t (qmax 0 (fsub deadline time)).

Definition timer (drives : bool) (time : Q) : M t Q :=
  update_time time ;;;
  timer_periodic drives time ;;;
  timer_alarm drives time ;;;
  timer_update drives time ;;;
  s <-- get ;;
  let t := 100%Q in
  let t := match periodic_interrupt s, next_interrupt s with
           | true, Some next => if qzero next then t else wait time t next
           | _, _ => t
           end in
  let t := if qzero (next_interrupt_alarm s) then t else wait time t (next_interrupt_alarm s) in
  let t := if update_interrupt s then wait time t (update_interrupt_time s) else t in
  ret t.

(** ** BCD *)

(** The loop, [i] digits done; [n] rounds are more than enough for [n]. *)
Fixpoint bcd_pack_from (fuel : nat) (i n result : Z) : Z :=
  match fuel with
  | O => result
  | S fuel =>
      if n =? 0 then result
      else
        let digit := Z.rem n 10 in
        bcd_pack_from fuel (i + 1) ((n - digit) / 10) (result .| shl32 digit (4 * i))
  end.
Definition bcd_pack (n : Z) : Z := bcd_pack_from (Z.to_nat n + 1) 0 n 0.

Definition bcd_unpack (n : Z) : Z :=
  let low := n .& 0xF in
  let high := (n .>> 4) .& 0xF in
  low + 10 * high.

Definition encode_time (s : t) (x : Z) : Z := if has (cmos_b s) 4 then x else bcd_pack x.
Definition decode_time (s : t) (x : Z) : Z := if has (cmos_b s) 4 then x else bcd_unpack x.

(** ** Ports *)

Definition port70_write (out_byte : Z) : M t unit :=
  modify (fun s => s <| cmos_index := out_byte .& 0x7F |> <| nmi_disabled := out_byte .>> 7 |>).

(** [new Date(q)] as its time value. *)
Definition date_of (q : Q) : Z := Z.quot (Qnum q) (Zpos (Qden q)).

(** [rtc_time % 1000 >= 999] *)
Definition updating (q : Q) : bool :=
  qle 999 (q - 1000 * inject_Z (Z.quot (Qnum q) (1000 * Zpos (Qden q)))).

Definition cmos_port_read (drives : bool) (now : Q) : M t Z :=
  update_time now ;;;
  s <-- get ;;
  let index := cmos_index s in
  let d := date_of (rtc_time s) in
  if index =? CMOS_RTC_SECONDS then ret (encode_time s (Date.getUTCSeconds d))
  else if index =? CMOS_RTC_MINUTES then ret (encode_time s (Date.getUTCMinutes d))
  else if index =? CMOS_RTC_HOURS then ret (encode_time s (Date.getUTCHours d))
  else if index =? CMOS_RTC_DAY_WEEK then ret (encode_time s (Date.getUTCDay d + 1))
  else if index =? CMOS_RTC_DAY_MONTH then ret (encode_time s (Date.getUTCDate d))
  else if index =? CMOS_RTC_MONTH then ret (encode_time s (Date.getUTCMonth d + 1))
  else if index =? CMOS_RTC_YEAR then ret (encode_time s (Z.rem (Date.getUTCFullYear d) 100))
  else if index =? CMOS_STATUS_A then
    ret (if updating (rtc_time s) then cmos_a s .| 0x80 else cmos_a s)
  else if index =? CMOS_STATUS_B then ret (cmos_b s)
  else if index =? CMOS_STATUS_C then
    when drives (emit (DeviceLowerIrq 8)) ;;;
    modify (fun s => s <| cmos_c := cmos_c s .& ~. 0xF0 |>) ;;;
    ret (cmos_c s)
  else if index =? CMOS_STATUS_D then ret (1 .<< 7)
  else if index =? CMOS_DIAG_STATUS then ret (cmos_diag_status s)
  else if (index =? CMOS_CENTURY) || (index =? CMOS_CENTURY2) then
    ret (encode_time s (i32 (Z.quot (Date.getUTCFullYear d) 100)))
  else ret (arr_get (cmos_data s) index).

Definition cmos_write (index value : Z) : M t unit :=
  modify (fun s => s <| cmos_data := arr_set (cmos_data s) index (u8 value) |>).
Definition cmos_read (index : Z) : M t Z := s <-- get ;; ret (arr_get (cmos_data s) index).

(** [1000 / (32768 >> (a & 0xF) - 1)] *)
Definition period_of (a : Z) : option Q :=
  let hz := sar32 32768 ((a .& 0xF) - 1) in
  if hz =? 0 then None else Some (fdiv 1000 (inject_Z hz)).

Definition alarm_ms (s : t) : Z :=
  let now := date_of (rtc_time s) in
  let seconds := decode_time s (arr_get (cmos_data s) CMOS_RTC_SECONDS_ALARM) in
  let minutes := decode_time s (arr_get (cmos_data s) CMOS_RTC_MINUTES_ALARM) in
  let hours := decode_time s (arr_get (cmos_data s) CMOS_RTC_HOURS_ALARM) in
  Date.UTC (Date.getUTCFullYear now) (Date.getUTCMonth now) (Date.getUTCDate now) hours minutes seconds - now.

Definition write_b (time : Q) (data_byte : Z) : M t unit :=
  modify (fun s => s <| cmos_b := if has data_byte 0x80 then data_byte .& 0xEF else data_byte |>) ;;;
  s <-- get ;;
  when (has (cmos_b s) 0x40)
    (modify (fun s => s <| next_interrupt := p ← periodic_interrupt_time s; Some (fadd time p) |>)) ;;;
  when (has (cmos_b s) 0x20)
    (modify (fun s => s <| next_interrupt_alarm := fadd time (inject_Z (alarm_ms s)) |>)) ;;;
  when (has (cmos_b s) 0x10)
    (modify (fun s => s <| update_interrupt_time := fadd time 1000 |>)).

Definition cmos_port_write (data_byte : Z) (time : Q) : M t unit :=
  update_time time ;;;
  s <-- get ;;
  let index := cmos_index s in
  (if index =? 0xA then
     modify (fun s => s <| cmos_a := data_byte .& 0x7F |>
                        <| periodic_interrupt_time := period_of (data_byte .& 0x7F) |>)
   else if index =? 0xB then write_b time data_byte
   else if index =? CMOS_DIAG_STATUS then modify (fun s => s <| cmos_diag_status := data_byte |>)
   else if (index =? CMOS_RTC_SECONDS_ALARM) || (index =? CMOS_RTC_MINUTES_ALARM)
        || (index =? CMOS_RTC_HOURS_ALARM) then cmos_write index data_byte
   else when ((CMOS_DIAG_STATUS + 1 <=? index) && (index <? 0x80)) (cmos_write index data_byte)) ;;;
  modify (fun s => s
    <| update_interrupt := (cmos_b s .& 0x10 =? 0x10) && (0 <? cmos_a s .& 0xF) |>
    <| periodic_interrupt := (cmos_b s .& 0x40 =? 0x40) && (0 <? cmos_a s .& 0xF) |>).

(** ** State images *)

(** [state[0..15]]; elements 12 to 15 are missing in old images. *)
Record image := mk_image {
  im_regs : Z * list Z * Q * Q * option Q * Q * bool * option Q * Z * Z * Z * Z;
  im_update_interrupt : option bool;
  im_update_interrupt_time : option Q;
  im_diag_status : option Z;
  im_format : option Z
}.

Definition get_state (now : Q) : M t image :=
  update_time now ;;;
  s <-- get ;;
  ret (mk_image (cmos_index s, cmos_data s, rtc_time s, last_update s, next_interrupt s,
                 next_interrupt_alarm s, periodic_interrupt s, periodic_interrupt_time s,
                 cmos_a s, cmos_b s, cmos_c s, nmi_disabled s)
         (Some (update_interrupt s)) (Some (update_interrupt_time s)) (Some (cmos_diag_status s)) (Some 1)).

Definition set_state (i : image) (now : Q) : M t unit :=
  let '(index, data, time, last, next, alarm, periodic, period, a, b, c, nmi) := im_regs i in
  let s := mk index data time last next alarm periodic period a b c
             (default 0 (im_diag_status i)) nmi
             (default false (im_update_interrupt i)) (default 0%Q (im_update_interrupt_time i)) in
  match im_format i with
  | Some _ => put s
  | None =>
      let offset := fsub now last in
      put (s <| last_update := fadd last offset |>
             <| next_interrupt := n ← next; Some (fadd n offset) |>
             <| next_interrupt_alarm := if qzero alarm then alarm else fadd alarm offset |>
             <| update_interrupt_time :=
                  if update_interrupt s then fadd (update_interrupt_time s) offset else update_interrupt_time s |>)
  end.

(** ** The interrupt line *)

Definition irq8 (l : bool) (e : event) : bool :=
  match e with
  | DeviceRaiseIrq 8 => true
  | DeviceLowerIrq 8 => false
  | _ => l
  end.

(** The line is high exactly while register C has a flag that was not read. *)
Definition line_ok (s : t) (l : bool) : Prop :=
  within 0xF0 (cmos_c s) /\ has (cmos_c s) 0x70 = l /\ has (cmos_c s) 0x80 = l.

Inductive op :=
| Timer (time : Q) | ReadData (now : Q) | WriteData (data : Z) (now : Q) | WriteIndex (data : Z)
| GetState (now : Q).

Definition run_op (o : op) : M t unit :=
  match o with
  | Timer time => timer true time ;;; skip
  | ReadData now => cmos_port_read true now ;;; skip
  | WriteData data now => cmos_port_write data now
  | WriteIndex data => port70_write data
  | GetState now => get_state now ;;; skip
  end.
Definition run (ops : list op) : M t unit := mfor ops run_op.

Lemma keep_line f : (forall s, cmos_c (f s) = cmos_c s) -> ghoare irq8 line_ok (modify f) line_ok.
Proof. intros H. apply ghoare_modify. intros s g. unfold line_ok. by rewrite H. Qed.

Lemma raise_irq_line flags :
  within 0xF0 flags -> has flags 0x70 = true -> has flags 0x80 = true ->
  ghoare irq8 line_ok (raise_irq true flags) line_ok.
Proof.
  intros H1 H2 H3 s g (Hw & _ & _). unfold raise_irq. cbn. unfold line_ok. cbn.
  rewrite !has_lor, H2, H3, !orb_true_r. split; [by apply within_lor|done].
Qed.

Ltac line_step :=
  gstep line_ok ltac:(idtac; lazymatch goal with
    | |- ghoare _ _ (modify _) _ => apply keep_line; intros; reflexivity
    | |- ghoare _ _ (emit _) _ => apply ghoare_emit; intros; assumption
    | |- ghoare _ _ (raise_irq _ _) _ => apply raise_irq_line; reflexivity
    | |- ghoare _ _ (match ?x with _ => _ end) _ => destruct x
    end).

Lemma read_c_line now : ghoare irq8 line_ok (cmos_port_read true now) line_ok.
Proof.
  unfold cmos_port_read. apply ghoare_bind with (Q := line_ok); [apply keep_line; intros; reflexivity|].
  intros _. apply ghoare_get. intros s g Hs.
  repeat (match goal with |- context [if ?b then _ else _] =>
    lazymatch b with
    | cmos_index s =? CMOS_STATUS_C => destruct (b); [cbn|]
    | _ =? _ => destruct b; [cbn; exact Hs|]
    | _ => destruct b; [cbn; exact Hs|]
    end end).
  - destruct Hs as (Hw & H1 & H2). unfold line_ok. cbn. split; [by apply within_land_l|].
    unfold within in Hw. rewrite <- Hw.
    split; apply has_false_iff; zbits i; change 0xF0 with (Z.lor 0x70 0x80); rewrite ?Z.lor_spec;
      destruct (Z.testbit (cmos_c s) i), (Z.testbit 0x70 i), (Z.testbit 0x80 i); done.
  - cbn. exact Hs.
Qed.

Lemma run_op_line o : ghoare irq8 line_ok (run_op o) line_ok.
Proof.
  destruct o; cbn [run_op].
  - unfold timer, update_time, timer_periodic, timer_alarm, timer_update. line_step.
  - apply ghoare_bind with (Q := line_ok); [apply read_c_line|intros; apply ghoare_skip].
  - unfold cmos_port_write, update_time, write_b, cmos_write. line_step.
  - apply keep_line. done.
  - unfold get_state, update_time. line_step.
Qed.

(** The clock's interrupt follows register C: after any sequence of timer calls
    and port accesses, IRQ 8, as raised and lowered along the way, is asserted
    exactly while a periodic, alarm or update flag waits in register C, and the
    summary flag (bit 7) says so; reading register C returns the flags, clears
    them and releases the line. *)
Theorem rtc_irq (wall now : Q) (ops : list op) :
  let s := exec (run ops) (create wall now) in
  let line := fold_left irq8 (evs (run ops) (create wall now)) false in
  line = has (cmos_c s) 0x70 /\ line = has (cmos_c s) 0x80 /\ within 0xF0 (cmos_c s)
  /\ (cmos_index s = CMOS_STATUS_C -> forall time,
        res (cmos_port_read true time) s = cmos_c s
        /\ cmos_c (exec (cmos_port_read true time) s) = 0
        /\ fold_left irq8 (evs (cmos_port_read true time) s) line = false).
Proof.
  intros s line.
  assert (line_ok s line) as (Hw & H1 & H2).
  { apply (ghoare_mfor irq8 line_ok ops run_op run_op_line). done. }
  split_and!; [done..|]. intros Hi time.
  assert (cmos_c s .& ~. 0xF0 = 0) as Hc.
  { unfold within in Hw. rewrite <- Hw, <- Z.land_assoc, Z.land_lnot_diag. apply Z.land_0_r. }
  unfold cmos_port_read. unfold res, exec, evs. unfold update_time. rewrite bind_modify, bind_get.
  set (s1 := s <| rtc_time := _ |> <| last_update := _ |>). change (cmos_index s1) with (cmos_index s).
  change (cmos_c s1) with (cmos_c s). rewrite Hi. cbn -[Z.land]. done.
Qed.

(** ** The calendar *)

Definition bcd_ok (n : Z) : bool :=
  let b := bcd_pack n in
  (0 <=? b) && (b <? 256) && (b .& 0xF <=? 9) && (b .>> 4 <=? 9) && (bcd_unpack b =? n).

Lemma bcd_roundtrip n : 0 <= n < 100 -> bcd_ok n = true.
Proof.
  intros Hn. assert (forallb bcd_ok (seqZ 0 100) = true) as H by (vm_compute; reflexivity).
  rewrite forallb_forall in H. apply H, list_elem_of_In, elem_of_seqZ. lia.
Qed.

Lemma encode_decode s n :
  0 <= n < 100 -> decode_time s (encode_time s n) = n /\ byte (encode_time s n).
Proof.
  intros Hn. unfold decode_time, encode_time, byte. change (2 ^ 8) with 256. destruct (has (cmos_b s) 4); [lia|].
  pose proof (bcd_roundtrip n Hn) as H. unfold bcd_ok in H.
  rewrite !andb_true_iff, !Z.leb_le, Z.ltb_lt, Z.eqb_eq in H. lia.
Qed.

(** What the guest reads at [index] at time [now]. *)
Definition read_at (drives : bool) (now : Q) (index : Z) (s : t) : Z :=
  res (port70_write index ;;; cmos_port_read drives now) s.

(** The time the registers show at [now]. *)
Definition shown (now : Q) (s : t) : Z := date_of (fadd (rtc_time s) (fsub now (last_update s))).

Lemma read_at_field drives now index s :
  0 <= index < 0x80 ->
  read_at drives now index s =
    res (cmos_port_read drives now) (s <| cmos_index := index |> <| nmi_disabled := index .>> 7 |>).
Proof.
  intros Hi. unfold read_at, port70_write. rewrite res_modify. rewrite (land_ones_mod _ 7) by lia.
  by rewrite Z.mod_small by lia.
Qed.

Lemma date_of_nonneg q : (0 <= q)%Q -> 0 <= date_of q.
Proof. intros H. unfold date_of. apply Z.quot_pos; [|lia]. unfold Qle in H. cbn in H. lia. Qed.

(** C39: The calendar registers show the time, in BCD and in binary mode.  In any
    state in which the clock's time, brought up to the machine clock (sums of
    doubles, rounded), is not before 1970 and its year is below 10000, the
    seconds, minutes, hours, day, month, year and century the guest reads (each
    decoded as the data mode of register B says) are all bytes and make up, as a
    date of the Gregorian calendar, exactly that time in whole seconds.  The hours
    are those of a 24-hour clock, 0 to 23: the 12-hour mode of register B is a
    TODO of the source, its bit has no effect on what is read, and a guest that
    selects it is not shown 12-hour values. *)
Theorem rtc_calendar (s : t) (drives : bool) (now : Q)
    (Hq : (0 <= fadd (rtc_time s) (fsub now (last_update s)))%Q)
    (Hy : Date.getUTCFullYear (shown now s) < 10000) :
  let field index := decode_time s (read_at drives now index s) in
  Date.UTC (100 * field CMOS_CENTURY + field CMOS_RTC_YEAR) (field CMOS_RTC_MONTH - 1)
    (field CMOS_RTC_DAY_MONTH) (field CMOS_RTC_HOURS) (field CMOS_RTC_MINUTES) (field CMOS_RTC_SECONDS)
  = shown now s / 1000 * 1000
  /\ Forall (fun index => byte (read_at drives now index s))
       [CMOS_CENTURY; CMOS_RTC_YEAR; CMOS_RTC_MONTH; CMOS_RTC_DAY_MONTH; CMOS_RTC_HOURS;
        CMOS_RTC_MINUTES; CMOS_RTC_SECONDS].
Proof.
  set (d := shown now s) in *. intros field.
  assert (0 <= d) as Hd by (apply date_of_nonneg, Hq).
  assert (1970 <= Date.getUTCFullYear d) as Hy0.
  { pose proof (Date.year_from_day (Date.Day d)) as [_ H]. fold (Date.getUTCFullYear d) in H.
    assert (0 <= Date.Day d) as H0 by (unfold Date.Day, Date.msPerDay; by apply Z.div_pos).
    unfold Date.DayFromYear in H. Z.to_euclidean_division_equations. lia. }
  pose proof (Date.month_date_range d) as [Hm Hdt]. pose proof (Date.time_fields_range d) as (Hh & Hmi & Hs & _).
  set (y := Date.getUTCFullYear d) in *.
  assert (0 <= Z.rem y 100 < 100 /\ 0 <= i32 (Z.quot y 100) < 100
    /\ 100 * i32 (Z.quot y 100) + Z.rem y 100 = y) as (Hyr & Hyc & Hyy).
  { rewrite i32_id by (unfold int32; Z.to_euclidean_division_equations; lia).
    Z.to_euclidean_division_equations. lia. }
  assert (forall index x, 0 <= index < 0x80 -> read_at drives now index s = encode_time s x -> 0 <= x < 100 ->
    field index = x /\ byte (read_at drives now index s)) as Hf.
  { intros index x Hi Hr Hx. unfold field. rewrite Hr. by apply encode_decode. }
  assert (forall index, 0 <= index < 0x80 -> read_at drives now index s =
    res (cmos_port_read drives now) (s <| cmos_index := index |> <| nmi_disabled := index .>> 7 |>)) as Hrd
    by (intros; by apply read_at_field).
  destruct (Hf CMOS_CENTURY (i32 (Z.quot y 100))) as [-> B1]; [done|by rewrite Hrd|done|].
  destruct (Hf CMOS_RTC_YEAR (Z.rem y 100)) as [-> B2]; [done|by rewrite Hrd|done|].
  destruct (Hf CMOS_RTC_MONTH (Date.getUTCMonth d + 1)) as [-> B3]; [done|by rewrite Hrd|lia|].
  destruct (Hf CMOS_RTC_DAY_MONTH (Date.getUTCDate d)) as [-> B4]; [done|by rewrite Hrd|lia|].
  destruct (Hf CMOS_RTC_HOURS (Date.getUTCHours d)) as [-> B5]; [done|by rewrite Hrd|lia|].
  destruct (Hf CMOS_RTC_MINUTES (Date.getUTCMinutes d)) as [-> B6]; [done|by rewrite Hrd|lia|].
  destruct (Hf CMOS_RTC_SECONDS (Date.getUTCSeconds d)) as [-> B7]; [done|by rewrite Hrd|lia|].
  split; [|repeat (apply Forall_cons; split; [assumption|]); apply Forall_nil_2]. rewrite Hyy, Z.add_simpl_r. apply Date.utc_fields. fold y. lia.
Qed.

(** ** Periodic interrupts and the alarm *)

(** The alarm time of the day, as the alarm registers say. *)
Definition alarm_time (s : t) : Z :=
  let get i := decode_time s (arr_get (cmos_data s) i) in
  get CMOS_RTC_HOURS_ALARM * 3600000 + get CMOS_RTC_MINUTES_ALARM * 60000 + get CMOS_RTC_SECONDS_ALARM * 1000.

Lemma alarm_ms_spec s :
  100 <= Date.getUTCFullYear (date_of (rtc_time s)) ->
  alarm_ms s = alarm_time s - Date.TimeWithinDay (date_of (rtc_time s)).
Proof.
  intros Hy. unfold alarm_ms, alarm_time. rewrite Date.utc_same_day by done. lia.
Qed.

Lemma alarm_ms_ext s s' :
  rtc_time s = rtc_time s' -> cmos_data s = cmos_data s' -> cmos_b s = cmos_b s' -> alarm_ms s = alarm_ms s'.
Proof. intros H1 H2 H3. unfold alarm_ms, decode_time. by rewrite H1, H2, H3. Qed.

(** What the three assignments of [write_b] leave alone, and the alarm. *)
Lemma write_b_fields time b s :
  let s1 := exec (write_b time b) s in
  let b' := if has b 0x80 then b .& 0xEF else b in
  cmos_b s1 = b' /\ cmos_data s1 = cmos_data s /\ rtc_time s1 = rtc_time s /\ last_update s1 = last_update s
  /\ next_interrupt_alarm s1 =
       if has b' 0x20 then fadd time (inject_Z (alarm_ms s1)) else next_interrupt_alarm s.
Proof.
  intros s1 b'. unfold s1, write_b. fold b'. rewrite exec_modify, exec_get.
  set (s2 := s <| cmos_b := b' |>). change (cmos_b s2) with b'. rewrite !exec_bind. unfold when.
  destruct (has b' 0x40), (has b' 0x20), (has b' 0x10); rewrite ?exec_modify1.
  all: split; [reflexivity|]; split; [reflexivity|]; split; [reflexivity|]; split; [reflexivity|].
  all: lazymatch goal with
    | |- _ = fadd _ _ => apply (f_equal (fun z => fadd time (inject_Z z))), alarm_ms_ext; reflexivity
    | |- _ => reflexivity
    end.
Qed.

Lemma write_b_exec b time s :
  cmos_index s = 0xB ->
  let s1 := exec (cmos_port_write b time) s in
  let b' := if has b 0x80 then b .& 0xEF else b in
  cmos_b s1 = b' /\ cmos_data s1 = cmos_data s /\ rtc_time s1 = fadd (rtc_time s) (fsub time (last_update s))
  /\ last_update s1 = time
  /\ next_interrupt_alarm s1 =
       if has b' 0x20 then fadd time (inject_Z (alarm_ms s1)) else next_interrupt_alarm s.
Proof.
  intros Hi s1 b'. unfold s1, cmos_port_write, update_time. rewrite !exec_modify, !exec_get.
  set (s0 := s <| rtc_time := _ |> <| last_update := _ |>). change (cmos_index s0) with (cmos_index s). rewrite Hi.
  change (0xB =? 0xA) with false. change (0xB =? 0xB) with true. cbn iota. rewrite exec_bind.
  destruct (write_b_fields time b s0) as (H1 & H2 & H3 & H4 & H5). fold b' in H1, H5.
  revert H1 H2 H3 H4 H5. generalize (exec (write_b time b) s0). intros s3 H1 H2 H3 H4 H5.
  rewrite exec_modify1. split; [exact H1|]. split; [exact H2|]. split; [exact H3|]. split; [exact H4|].
  etransitivity; [exact H5|]. destruct (has b' 0x20); [|reflexivity].
  apply (f_equal (fun z => fadd time (inject_Z z))). by apply alarm_ms_ext.
Qed.

Lemma timer_alarm_fires s time :
  qzero (next_interrupt_alarm s) = false ->
  (DeviceRaiseIrq 8 ∈ evs (timer_alarm true time) s <-> (next_interrupt_alarm s <= time)%Q).
Proof.
  intros Hz. unfold timer_alarm, evs. rewrite bind_get, Hz. cbn [negb andb].
  destruct (qle (next_interrupt_alarm s) time) eqn:E.
  - apply Qle_bool_iff in E. split; [done|]. intros _. cbn. by left.
  - split; [intros H; cbn in H; by apply not_elem_of_nil in H|]. intros H. exfalso.
    apply Qle_bool_iff in H. unfold qle in E. congruence.
Qed.

(** The alarm rings when the clock shows its time.  After register B is written
    with the alarm enabled, with alarm registers that lie ahead on the current day,
    the alarm interrupt is raised by the first timer call at or after the time of
    the write plus what the calendar is short of the hours, minutes and seconds in
    the alarm registers (a sum of doubles, rounded), and by none before it. *)
Theorem rtc_alarm (s : t) (b : Z) (time time' : Q)
    (Hi : cmos_index s = 0xB) (Ha : has b 0x20 = true)
    (Hy : 100 <= Date.getUTCFullYear (shown time s)) (Htime : (0 < time)%Q) :
  let s1 := exec (cmos_port_write b time) s in
  let remaining := alarm_time s1 - Date.TimeWithinDay (shown time s) in
  0 <= remaining ->
  (DeviceRaiseIrq 8 ∈ evs (timer_alarm true time') s1 <-> (fadd time (inject_Z remaining) <= time')%Q).
Proof.
  intros s1 remaining Hr. destruct (write_b_exec b time s Hi) as (Hb & Hd & Ht & Hl & Hn).
  fold s1 in Hb, Hd, Ht, Hl, Hn.
  assert (has (if has b 0x80 then b .& 0xEF else b) 0x20 = true) as Hb20.
  { destruct (has b 0x80); [|done]. unfold has in *. rewrite <- Z.land_assoc. exact Ha. }
  rewrite Hb20 in Hn.
  assert (date_of (rtc_time s1) = shown time s) as Hsh by (by rewrite Ht).
  assert (alarm_ms s1 = remaining) as Hms by (rewrite alarm_ms_spec; rewrite Hsh; [done|exact Hy]).
  rewrite Hms in Hn.
  assert (0 <= inject_Z remaining)%Q as H0 by (change 0%Q with (inject_Z 0); by rewrite <- Zle_Qle).
  rewrite timer_alarm_fires; [by rewrite Hn|]. rewrite Hn. unfold qzero.
  assert (0 < time + inject_Z remaining)%Q as Hp by lra.
  apply not_true_iff_false. rewrite Qeq_bool_iff. intros E.
  destruct (rnd_sign (time + inject_Z remaining)) as (_ & Hs & _). specialize (Hs Hp).
  pose proof (rnd_pos_pos _ Hp) as Hpp. unfold fadd in E. rewrite E in Hs. rewrite <- Hs in Hpp. by apply Qlt_irrefl in Hpp.
Qed.

(** Switching the alarm off does not: writing register B without the alarm
    enable bit leaves a scheduled alarm in place, and it still interrupts when its
    time has come. *)
Theorem rtc_alarm_stays (s : t) (b : Z) (time time' : Q)
    (Hi : cmos_index s = 0xB) (Hb : has b 0x20 = false)
    (Hz : qzero (next_interrupt_alarm s) = false) (Ht : (next_interrupt_alarm s <= time')%Q) :
  let s1 := exec (cmos_port_write b time) s in
  has (cmos_b s1) 0x20 = false /\ DeviceRaiseIrq 8 ∈ evs (timer_alarm true time') s1.
Proof.
  intros s1. destruct (write_b_exec b time s Hi) as (H1 & _ & _ & _ & H5). fold s1 in H1, H5.
  assert (has (if has b 0x80 then b .& 0xEF else b) 0x20 = false) as Hb'.
  { destruct (has b 0x80); [|done]. unfold has in *. rewrite <- Z.land_assoc. exact Hb. }
  rewrite Hb' in H5. split; [by rewrite H1|]. apply timer_alarm_fires; by rewrite H5.
Qed.

(** ** Witnesses *)

(** 2024-02-29 12:34:56 UTC *)
Definition leap_noon : Q := inject_Z 1709210096789.

(** With the alarm registers at 12:35:00 and register B selected. *)
Definition demo : t :=
  (create leap_noon 1%Q) <| cmos_index := 0xB |>
    <| cmos_data := [0; 0x00; 0; 0x35; 0; 0x12] ++ replicate 122 0 |>.

Lemma rtc_calendar_witness :
  let field index := decode_time demo (read_at true 1%Q index demo) in
  Date.UTC (100 * field CMOS_CENTURY + field CMOS_RTC_YEAR) (field CMOS_RTC_MONTH - 1)
    (field CMOS_RTC_DAY_MONTH) (field CMOS_RTC_HOURS) (field CMOS_RTC_MINUTES) (field CMOS_RTC_SECONDS)
  = 1709210096000 /\ field CMOS_RTC_DAY_MONTH = 29.
Proof.
  split; [|vm_compute; reflexivity].
  apply (rtc_calendar demo true 1%Q); vm_compute; [discriminate|reflexivity].
Defined.

(** After an alarm has gone off, register C reads back its flags. *)
Definition demo_irq_ops : list op :=
  [WriteIndex 0x05; WriteData 0x12 0; WriteIndex 0x0B; WriteData 0x20 0; Timer (inject_Z 100000000); WriteIndex 0x0C].

Lemma rtc_irq_witness :
  res (cmos_port_read true 0) (exec (run demo_irq_ops) (create leap_noon 0)) = 0xA0.
Proof.
  assert (cmos_index (exec (run demo_irq_ops) (create leap_noon 0)) = CMOS_STATUS_C) as H by (vm_compute; reflexivity).
  pose proof (proj1 (proj2 (proj2 (proj2 (rtc_irq leap_noon 0 demo_irq_ops))) H 0%Q)) as H1.
  etransitivity; [exact H1|vm_compute; reflexivity].
Defined.

Lemma rtc_alarm_witness :
  DeviceRaiseIrq 8 ∈ evs (timer_alarm true 3212%Q) (exec (cmos_port_write 0x22 1%Q) demo).
Proof.
  apply (rtc_alarm demo 0x22 1%Q 3212%Q); vm_compute; try reflexivity; discriminate.
Defined.

Definition demo_alarm : t := demo <| next_interrupt_alarm := 5%Q |>.

Lemma rtc_alarm_stays_witness :
  DeviceRaiseIrq 8 ∈ evs (timer_alarm true 6%Q) (exec (cmos_port_write 2 1%Q) demo_alarm).
Proof.
  apply (rtc_alarm_stays demo_alarm 2 1%Q 6%Q);
    vm_compute; try reflexivity; discriminate.
Defined.

End Rtc.
