(* ===== verification/Hpet.v ===== *)
(** * The high precision event timer ([hpet.js])

    A main counter and three timers that compare it with their comparators and
    interrupt through a legacy IRQ, an I/O APIC input or a message.  The counter
    is computed from the time it was enabled.  Counter values and times are doubles, and every
    operation rounds as the program's do ([Double.v]); a deadline of [None] is [Infinity].  The current time ([cpu.clock.now()]) is an argument;
    [has_msi] is whether the CPU has the function [apic_msi]. *)

From S2P Require Import Prelude Rat Double.

Import Double.

Module Hpet.

Definition HPET_ADDRESS : Z := 0xFED00000.
Definition PERIOD_FS : Z := 69841279.
Definition TICKS_PER_MS : Q := fdiv 1000000000000 (inject_Z PERIOD_FS).
Definition TIMER_COUNT : Z := 3.
Definition HPET_BLOCK_ID : Z := 0x8086A201.
Definition GCAP_ID : Z := 0x000.
Definition GEN_CONF : Z := 0x010.
Definition GINTR_STA : Z := 0x020.
Definition MAIN_CNT : Z := 0x0F0.
Definition TIMER_BASE : Z := 0x100.
Definition TIMER_STRIDE : Z := 0x20.
Definition TN_CONF : Z := 0x00.
Definition TN_COMPARATOR : Z := 0x08.
Definition TN_FSB_ROUTE : Z := 0x10.
Definition ENABLE_CNF : Z := 1.
Definition LEG_RT_CNF : Z := 2.
Definition TN_INT_TYPE_LEVEL : Z := 0x2.
Definition TN_INT_ENB : Z := 0x4.
Definition TN_TYPE_PERIODIC : Z := 0x8.
Definition TN_PER_INT_CAP : Z := 0x10.
Definition TN_SIZE_CAP : Z := 0x20.
Definition TN_VAL_SET : Z := 0x40.
Definition TN_32MODE : Z := 0x100.
Definition TN_INT_ROUTE_SHIFT : Z := 9.
Definition TN_FSB_EN : Z := 0x4000.
Definition TN_FSB_INT_DEL_CAP : Z := 0x8000.
Definition TN_CONF_WRITABLE : Z :=
  TN_INT_TYPE_LEVEL .| TN_INT_ENB .| TN_TYPE_PERIODIC .| TN_VAL_SET .| TN_32MODE
  .| (0x1F .<< TN_INT_ROUTE_SHIFT) .| TN_FSB_EN.
Definition TN_INT_ROUTE_CAP : Z := 0x00F00000.
Definition HPET_SOURCE : Z := 0x10000.

(** A line is the pair of the fields [irq] and [gsi]. *)
Record timer_t := mk_timer {
  tconfig : Z;
  comparator : Z * Z;
  period : Z * Z;
  fsb_value : Z;
  fsb_address : Z;
  deadline : option Z;
  line : option (Z * Z)
}.

Record t := mk {
  config : Z;
  isr : Z;
  counter_base : Z;
  base_time : Q;
  timers : list timer_t
}.

Definition no_timer : timer_t := mk_timer 0 (0, 0) (0, 0) 0 0 None None.
Definition timer_at (s : t) (i : nat) : timer_t := default no_timer (timers s !! i).
Definition on_timer (i : nat) (f : timer_t -> timer_t) : M t unit :=
  modify (fun s => s <| timers := alter f i (timers s) |>).

Definition legacy_replacement (s : t) : bool := has (config s) LEG_RT_CNF.

Definition counter (now : Q) (s : t) : Z :=
  if has (config s) ENABLE_CNF
  then dbl (counter_base s + Qfloor (fmul (fsub now (base_time s)) TICKS_PER_MS))
  else counter_base s.

Definition width (tm : timer_t) : Z := if has (tconfig tm) TN_32MODE then 2 ^ 32 else 2 ^ 64.

Definition value64 (halves : Z * Z) : Z := dbl (halves.2 * 0x100000000 + halves.1).
Definition set64 (value : Z) : Z * Z :=
  (u32 (Z.rem value 0x100000000), u32 (Z.rem (value / 0x100000000) 0x100000000)).

Definition arm (i : nat) (counter : Z) : M t unit :=
  s <-- get ;;
  let tm := timer_at s i in
  if negb (has (config s) ENABLE_CNF) then on_timer i (fun tm => tm <| deadline := None |>)
  else
    let delta := dbl (value64 (comparator tm) - Z.rem counter (width tm)) in
    let delta := if delta <? 0 then dbl (delta + width tm) else delta in
    on_timer i (fun tm => tm <| deadline := Some (dbl (counter + delta)) |>).

(** ** Interrupts *)

Definition fsb (s : t) (i : nat) : bool := has (tconfig (timer_at s i)) TN_FSB_EN.

Definition route (s : t) (i : nat) : option (Z * Z) :=
  if fsb s i then None
  else if has (config s) LEG_RT_CNF && (i <? 2)%nat then Some (if (i =? 0)%nat then 0 else 8, -1)
  else
    let gsi := (tconfig (timer_at s i) .>> TN_INT_ROUTE_SHIFT) .& 0x1F in
    if has TN_INT_ROUTE_CAP (1 .<< gsi) then Some (-1, gsi) else None.

Section hpet.
Variable has_msi : bool.

Definition drive (i : nat) (l : Z * Z) (level : bool) : M t unit :=
  if 0 <=? l.1 then emit (if level then DeviceRaiseIrq l.1 else DeviceLowerIrq l.1)
  else emit (SharedGsiLevel l.2 (HPET_SOURCE + Z.of_nat i) level).

(** [set_line(i, false)] *)
Definition release (i : nat) : M t unit :=
  s <-- get ;;
  match line (timer_at s i) with
  | Some l => on_timer i (fun tm => tm <| line := None |>) ;;; drive i l false
  | None => skip
  end.

Definition set_line (i : nat) (level : bool) : M t unit :=
  if level then
    s <-- get ;;
    let tm := timer_at s i in
    if fsb s i then when has_msi (emit (ApicMsi (i32 (fsb_address tm)) (i32 (fsb_value tm))))
    else
      match route s i with
      | None => skip
      | Some l =>
          if bool_decide (line tm = Some l) then skip
          else
            (match line tm with Some _ => release i | None => skip end) ;;;
            on_timer i (fun tm => tm <| line := Some l |>) ;;; drive i l true
      end
  else release i.

Definition update_level (i : nat) : M t unit :=
  s <-- get ;;
  let active :=
    has (isr s) (1 .<< Z.of_nat i)
    && (tconfig (timer_at s i) .& (TN_INT_ENB .| TN_INT_TYPE_LEVEL) =? TN_INT_ENB .| TN_INT_TYPE_LEVEL)
    && negb (fsb s i) in
  if negb active then set_line i false else set_line i true.

Definition fire (i : nat) : M t unit :=
  s <-- get ;;
  let tm := timer_at s i in
  if negb (has (tconfig tm) TN_INT_ENB) then skip
  else if has (tconfig tm) TN_INT_TYPE_LEVEL && negb (fsb s i) then
    modify (fun s => s <| isr := isr s .| (1 .<< Z.of_nat i) |>) ;;; set_line i true
  else set_line i true ;;; set_line i false.

(** The deadline and comparator after a match. *)
Definition advance (c d : Z) (tm : timer_t) : timer_t :=
  let p := value64 (period tm) in
  if has (tconfig tm) TN_TYPE_PERIODIC && negb (p =? 0) then
    let periods := dbl (Qfloor (fdiv (inject_Z (dbl (c - d))) (inject_Z p)) + 1) in
    tm <| deadline := Some (dbl (d + dbl (periods * p))) |>
       <| comparator := set64 (Z.rem (dbl (value64 (comparator tm) + dbl (periods * p))) (width tm)) |>
  else tm <| deadline := Some (dbl (d + width tm)) |>.

Definition service (c : Z) (i : nat) : M t unit :=
  s <-- get ;;
  match deadline (timer_at s i) with
  | Some d => when (d <=? c) (fire i ;;; on_timer i (advance c d))
  | None => skip
  end.

(** [Math.min] with [Infinity]. *)
Definition min_deadline (a b : option Z) : option Z :=
  match a, b with Some x, Some y => Some (Z.min x y) | Some x, None => Some x | None, y => y end.

Definition timer (now : Q) : M t Q :=
  s <-- get ;;
  if negb (has (config s) ENABLE_CNF) then ret 100%Q
  else
    let c := counter now s in
    mfor [0; 1; 2]%nat (service c) ;;;
    s <-- get ;;
    let next := foldl (fun n tm => min_deadline n (deadline tm)) None (timers s) in
    ret (match next with
         | None => 100%Q
         | Some n =>
             let w := fdiv (inject_Z (dbl (n - c))) TICKS_PER_MS in
             let w := if Qle_bool 0 w then w else 0%Q in
             if Qle_bool w 100 then w else 100%Q
         end).

Definition reset_timer (tm : timer_t) : timer_t :=
  mk_timer 0 (0xFFFFFFFF, 0xFFFFFFFF) (0, 0) 0 0 None (line tm).

Definition reset : M t unit :=
  mfor [0; 1; 2]%nat (fun i => set_line i false) ;;;
  modify (fun s => mk 0 0 0 0 (map reset_timer (timers s))).

Definition create : t := exec reset (mk 0 0 0 0 (replicate 3 no_timer)).

(** ** Registers *)

Definition timer_index (offset : Z) : option nat :=
  if (TIMER_BASE <=? offset) && (offset <? TIMER_BASE + TIMER_COUNT * TIMER_STRIDE)
  then Some (Z.to_nat ((offset - TIMER_BASE) .>> 5)) else None.

Definition half (high : bool) (p : Z * Z) : Z := if high then p.2 else p.1.
Definition set_half (high : bool) (v : Z) (p : Z * Z) : Z * Z := if high then (p.1, v) else (v, p.2).

Definition read32 (offset : Z) (now : Q) (s : t) : Z :=
  let offset := u32 offset in
  let high := has offset 4 in
  i32 (match timer_index offset with
  | Some i =>
      let tm := timer_at s i in
      let r := offset .& (TIMER_STRIDE - 1) .& ~. 4 in
      if r =? TN_CONF then
        if high then TN_INT_ROUTE_CAP
        else tconfig tm .| TN_PER_INT_CAP .| TN_SIZE_CAP .| TN_FSB_INT_DEL_CAP
      else if r =? TN_COMPARATOR then half high (comparator tm)
      else if r =? TN_FSB_ROUTE then (if high then fsb_address tm else fsb_value tm)
      else 0
  | None =>
      let r := offset .& ~. 4 in
      if r =? GCAP_ID then (if high then PERIOD_FS else HPET_BLOCK_ID)
      else if r =? GEN_CONF then (if high then 0 else config s)
      else if r =? GINTR_STA then (if high then 0 else isr s)
      else if r =? MAIN_CNT then
        let c := counter now s in
        if high then c / 0x100000000 else Z.rem c 0x100000000
      else 0
  end).

Definition write_conf (i : nat) (value c : Z) : M t unit :=
  on_timer i (fun tm =>
    let tm := tm <| tconfig := value .& TN_CONF_WRITABLE |> in
    if has (tconfig tm) TN_32MODE
    then tm <| comparator := set_half true 0 (comparator tm) |> <| period := set_half true 0 (period tm) |>
    else tm) ;;;
  update_level i ;;; arm i c.

Definition write_comparator (i : nat) (high : bool) (value c : Z) : M t unit :=
  s <-- get ;;
  let cfg := tconfig (timer_at s i) in
  if high && has cfg TN_32MODE then skip
  else
    when (negb (has cfg TN_TYPE_PERIODIC) || has cfg TN_VAL_SET)
      (on_timer i (fun tm => tm <| comparator := set_half high value (comparator tm) |>)) ;;;
    when (has cfg TN_TYPE_PERIODIC)
      (on_timer i (fun tm => tm <| period := set_half high value (period tm) |>)) ;;;
    when (high || has cfg TN_32MODE)
      (on_timer i (fun tm => tm <| tconfig := tconfig tm .& ~. TN_VAL_SET |>)) ;;;
    arm i c.

Definition write_gen_conf (value c : Z) (now : Q) : M t unit :=
  s <-- get ;;
  let old := config s in
  let new := value .& (ENABLE_CNF .| LEG_RT_CNF) in
  modify (fun s => s <| config := new |>) ;;;
  when (has (old .^ new) ENABLE_CNF)
    (modify (fun s => s <| counter_base := c |> <| base_time := now |>) ;;;
     mfor [0; 1; 2]%nat (fun i => arm i c)) ;;;
  when (has (old .^ new) LEG_RT_CNF)
    (set_line 0 false ;;; set_line 1 false ;;;
     emit (DeviceLowerIrq 0) ;;; emit (DeviceLowerIrq 8) ;;;
     update_level 0 ;;; update_level 1).

Definition write_counter (high : bool) (value : Z) : M t unit :=
  s <-- get ;;
  when (negb (has (config s) ENABLE_CNF))
    (modify (fun s => s <| counter_base :=
       if high then dbl (Z.rem (counter_base s) 0x100000000 + value * 0x100000000)
       else dbl (counter_base s / 0x100000000 * 0x100000000 + value) |>)).

Definition write32 (offset value : Z) (now : Q) : M t unit :=
  let offset := u32 offset in
  let value := u32 value in
  let high := has offset 4 in
  s <-- get ;;
  let c := counter now s in
  match timer_index offset with
  | Some i =>
      let r := offset .& (TIMER_STRIDE - 1) .& ~. 4 in
      if r =? TN_CONF then when (negb high) (write_conf i value c)
      else if r =? TN_COMPARATOR then write_comparator i high value c
      else if r =? TN_FSB_ROUTE then
        on_timer i (fun tm => if high then tm <| fsb_address := value |> else tm <| fsb_value := value |>)
      else skip
  | None =>
      let r := offset .& ~. 4 in
      if r =? GEN_CONF then when (negb high) (write_gen_conf value c now)
      else if r =? GINTR_STA then
        when (negb high)
          (modify (fun s => s <| isr := isr s .& ~. value |>) ;;; mfor [0; 1; 2]%nat update_level)
      else if r =? MAIN_CNT then write_counter high value
      else skip
  end.

(** The handlers the constructor maps for bytes. *)
Definition read8 (addr : Z) (now : Q) (s : t) : Z :=
  shr32 (read32 ((addr - HPET_ADDRESS) .& ~. 3) now s) ((addr .& 3) .<< 3) .& 0xFF.

Definition write8 (addr value : Z) (now : Q) : M t unit :=
  s <-- get ;;
  let shift := (addr .& 3) .<< 3 in
  let offset := (addr - HPET_ADDRESS) .& ~. 3 in
  let others := if offset .& ~. 4 =? GINTR_STA then 0 else read32 offset now s .& ~. (shl32 0xFF shift) in
  write32 offset (others .| shl32 (value .& 0xFF) shift) now.

(** ** State images *)

Definition timer_image (tm : timer_t) : list Z :=
  [tconfig tm; (comparator tm).1; (comparator tm).2; (period tm).1; (period tm).2; fsb_value tm;
   fsb_address tm; default (-1) (deadline tm);
   match line tm with Some l => l.1 | None => -2 end; match line tm with Some l => l.2 | None => -2 end].

Definition get_state (s : t) : Z * Z * Z * Z * Q * list (list Z) :=
  (1, config s, isr s, counter_base s, base_time s, map timer_image (timers s)).

Definition timer_of_image (tm : timer_t) (l : list Z) : timer_t :=
  match l with
  | [c; c0; c1; p0; p1; fv; fa; d; irq; gsi] =>
      mk_timer c (u32 c0, u32 c1) (u32 p0, u32 p1) fv fa (if d =? -1 then None else Some d)
        (if irq =? -2 then None else Some (irq, gsi))
  | _ => tm
  end.

Definition set_state (i : Z * Z * Z * Z * Q * list (list Z)) (s : t) : t :=
  let '(_, cfg, isr', base, time, l) := i in
  mk cfg isr' base time (zip_with timer_of_image (timers s) l ++ drop (length l) (timers s)).

(** ** Interrupt lines *)

(** What the interrupt controllers see: the levels of IRQ 0 and 8, and the pairs
    of a GSI and a source that are asserted. *)
Record levels := mk_levels { irq0 : bool; irq8 : bool; gsis : gset (Z * Z) }.

Definition see (g : levels) (e : event) : levels :=
  match e with
  | DeviceRaiseIrq n =>
      if n =? 0 then g <| irq0 := true |> else if n =? 8 then g <| irq8 := true |> else g
  | DeviceLowerIrq n =>
      if n =? 0 then g <| irq0 := false |> else if n =? 8 then g <| irq8 := false |> else g
  | SharedGsiLevel gsi source level =>
      g <| gsis := if level then {[(gsi, source)]} ∪ gsis g else gsis g ∖ {[(gsi, source)]} |>
  | _ => g
  end.

Definition line_of (s : t) (i : nat) : option (Z * Z) := line (timer_at s i).

(** A line a timer can have: its legacy IRQ, or an I/O APIC input. *)
Definition own_line (i : nat) (l : Z * Z) : Prop :=
  (i = 0%nat /\ l = (0, -1)) \/ (i = 1%nat /\ l = (8, -1)) \/ (l.1 = -1 /\ 0 <= l.2).

Record shows (s : t) (g : levels) : Prop := {
  sh_len : length (timers s) = 3%nat;
  sh_own i l : line_of s i = Some l -> own_line i l;
  sh_irq0 : irq0 g = bool_decide (line_of s 0 = Some (0, -1));
  sh_irq8 : irq8 g = bool_decide (line_of s 1 = Some (8, -1));
  sh_gsis gsi source : (gsi, source) ∈ gsis g <->
    exists i, (i < 3)%nat /\ source = HPET_SOURCE + Z.of_nat i /\ line_of s i = Some (-1, gsi)
}.

Lemma timer_at_alter f i j s :
  (i < length (timers s))%nat ->
  timer_at (s <| timers := alter f i (timers s) |>) j
  = if decide (j = i) then f (timer_at s i) else timer_at s j.
Proof.
  intros Hi. unfold timer_at. cbn -[alter]. case_decide as E.
  - subst. rewrite list_lookup_alter_eq. destruct (timers s !! i) eqn:E; [done|].
    apply lookup_ge_None in E. lia.
  - by rewrite list_lookup_alter_ne.
Qed.

Lemma line_of_out s i : length (timers s) = 3%nat -> (3 <= i)%nat -> line_of s i = None.
Proof. intros H Hi. unfold line_of, timer_at. by rewrite lookup_ge_None_2 by lia. Qed.

Definition with_line (i : nat) (o : option (Z * Z)) (s : t) : t :=
  s <| timers := alter (fun tm => tm <| line := o |>) i (timers s) |>.

Lemma line_of_with i o j s :
  (i < length (timers s))%nat -> line_of (with_line i o s) j = if decide (j = i) then o else line_of s j.
Proof.
  intros Hi. unfold line_of, with_line. rewrite timer_at_alter by done. by case_decide.
Qed.

Lemma with_line_len i o s : length (timers (with_line i o s)) = length (timers s).
Proof. unfold with_line. cbn -[alter]. apply length_alter. Qed.

Lemma own_line_neg i a b : own_line i (a, b) -> (0 <=? a) = false -> a = -1.
Proof. by intros [[_ [= -> ->]]|[[_ [= -> ->]]|[H _]]] E. Qed.

(** Dropping and taking a line, with the effect that tells the controllers. *)
Lemma shows_off i l s g :
  shows s g -> line_of s i = Some l ->
  shows (with_line i None s) (fold_left see (evs (drive i l false) s) g).
Proof.
  intros [Hlen Hown H0 H8 Hg] Hl.
  assert (i < 3)%nat as Hi by (destruct (decide (i < 3)%nat); [done|]; rewrite line_of_out in Hl by lia; done).
  assert (forall j, line_of (with_line i None s) j = if decide (j = i) then None else line_of s j) as Hw
    by (intros j; apply line_of_with; lia).
  split; [by rewrite with_line_len| | | |].
  - intros j l' Hj. rewrite Hw in Hj. case_decide; [done|by apply Hown].
  - rewrite Hw. unfold drive. destruct (Hown i l Hl) as [[-> ->]|[[-> ->]|[E _]]].
    + done.
    + rewrite decide_False by lia. exact H0.
    + rewrite E. cbn. rewrite H0. destruct (decide (0%nat = i)) as [<-|]; [|done].
      rewrite Hl. destruct l as [a b]. cbn in E. subst. by repeat case_bool_decide.
  - rewrite Hw. unfold drive. destruct (Hown i l Hl) as [[-> ->]|[[-> ->]|[E _]]].
    + rewrite decide_False by lia. exact H8.
    + done.
    + rewrite E. cbn. rewrite H8. destruct (decide (1%nat = i)) as [<-|]; [|done].
      rewrite Hl. destruct l as [a b]. cbn in E. subst. by repeat case_bool_decide.
  - intros gsi source. unfold drive. destruct (0 <=? l.1) eqn:E.
    + assert (gsis (fold_left see (evs (emit (DeviceLowerIrq l.1) : M t unit) s) g) = gsis g) as ->
        by (cbn; destruct (l.1 =? 0); [|destruct (l.1 =? 8)]; reflexivity).
      rewrite Hg. split; intros (j & Hj & Hs & Hlj); exists j; (split; [done|]; split; [done|]).
      * rewrite Hw. destruct (decide (j = i)) as [->|]; [|done]. rewrite Hl in Hlj. by simplify_eq.
      * rewrite Hw in Hlj. by destruct (decide (j = i)).
    + destruct l as [a b]. cbn [fst] in E. pose proof (own_line_neg i a b (Hown i _ Hl) E) as ->. cbn. rewrite elem_of_difference, elem_of_singleton, Hg.
      split.
      * intros [(j & Hj & Hs & Hlj) Hne]. exists j. split; [done|]. split; [done|]. rewrite Hw.
        destruct (decide (j = i)) as [->|]; [|done]. rewrite Hl in Hlj. exfalso. apply Hne. congruence.
      * intros (j & Hj & Hs & Hlj). rewrite Hw in Hlj. destruct (decide (j = i)) as [|Eji]; [done|].
        split; [by exists j|]. intros [= -> Hs2]. apply Eji. lia.
Qed.

Lemma shows_on i l s g :
  shows s g -> (i < 3)%nat -> line_of s i = None -> own_line i l ->
  shows (with_line i (Some l) s) (fold_left see (evs (drive i l true) s) g).
Proof.
  intros [Hlen Hown H0 H8 Hg] Hi Hl Ho.
  assert (forall j, line_of (with_line i (Some l) s) j = if decide (j = i) then Some l else line_of s j) as Hw
    by (intros j; apply line_of_with; lia).
  split; [by rewrite with_line_len| | | |].
  - intros j l' Hj. rewrite Hw in Hj. case_decide; [by simplify_eq|by apply Hown].
  - rewrite Hw. unfold drive. destruct Ho as [[-> ->]|[[-> ->]|[E _]]].
    + done.
    + rewrite decide_False by lia. exact H0.
    + rewrite E. cbn. rewrite H0. destruct (decide (0%nat = i)) as [<-|]; [|done].
      rewrite Hl. destruct l as [a b]. cbn in E. subst. by repeat case_bool_decide.
  - rewrite Hw. unfold drive. destruct Ho as [[-> ->]|[[-> ->]|[E _]]].
    + rewrite decide_False by lia. exact H8.
    + done.
    + rewrite E. cbn. rewrite H8. destruct (decide (1%nat = i)) as [<-|]; [|done].
      rewrite Hl. destruct l as [a b]. cbn in E. subst. by repeat case_bool_decide.
  - intros gsi source. unfold drive. destruct (0 <=? l.1) eqn:E.
    + assert (gsis (fold_left see (evs (emit (DeviceRaiseIrq l.1) : M t unit) s) g) = gsis g) as ->
        by (cbn; destruct (l.1 =? 0); [|destruct (l.1 =? 8)]; reflexivity).
      rewrite Hg. split; intros (j & Hj & Hs & Hlj); exists j; (split; [done|]; split; [done|]).
      * rewrite Hw. destruct (decide (j = i)) as [->|]; [congruence|done].
      * rewrite Hw in Hlj. destruct (decide (j = i)); [by simplify_eq|done].
    + destruct l as [a b]. cbn [fst] in E. pose proof (own_line_neg i a b Ho E) as ->. cbn. rewrite elem_of_union, elem_of_singleton, Hg.
      split.
      * intros [[= -> ->]|(j & Hj & Hs & Hlj)].
        -- exists i. split; [done|]. split; [done|]. by rewrite Hw, decide_True by done.
        -- exists j. split; [done|]. split; [done|]. rewrite Hw. destruct (decide (j = i)); [congruence|done].
      * intros (j & Hj & Hs & Hlj). rewrite Hw in Hlj. destruct (decide (j = i)) as [Eji|Eji].
        -- left. subst j. congruence.
        -- right. by exists j.
Qed.

Lemma shows_ext s s' g :
  length (timers s') = length (timers s) -> (forall i, line_of s' i = line_of s i) -> shows s g -> shows s' g.
Proof.
  intros Hl Hi [H1 H2 H3 H4 H5]. split; [by rewrite Hl| |by rewrite Hi|by rewrite Hi|].
  - intros i l. rewrite Hi. apply H2.
  - intros gsi source. rewrite H5. by setoid_rewrite Hi.
Qed.

Lemma modify_shows f : (forall s, timers (f s) = timers s) -> ghoare see shows (modify f) shows.
Proof.
  intros H. apply ghoare_modify. intros s g. apply shows_ext; [by rewrite H|].
  intros i. unfold line_of, timer_at. by rewrite H.
Qed.

Lemma on_timer_line f i j s :
  (forall tm, line (f tm) = line tm) -> line_of (s <| timers := alter f i (timers s) |>) j = line_of s j.
Proof.
  intros H. unfold line_of. destruct (decide (i < length (timers s))%nat) as [Hi|Hi].
  - rewrite timer_at_alter by done. case_decide; [by subst|done].
  - unfold timer_at. cbn -[alter]. destruct (decide (j = i)) as [->|].
    + rewrite list_lookup_alter_eq. by rewrite lookup_ge_None_2 by lia.
    + by rewrite list_lookup_alter_ne.
Qed.

Lemma on_timer_shows i f : (forall tm, line (f tm) = line tm) -> ghoare see shows (on_timer i f) shows.
Proof.
  intros H. apply ghoare_modify. intros s g. apply shows_ext; [apply length_alter|].
  intros j. by apply on_timer_line.
Qed.

(** What [release] and [set_line] do to the state. *)
Lemma release_exec i s :
  exec (release i) s = match line_of s i with Some _ => with_line i None s | None => s end.
Proof.
  unfold release. rewrite exec_get. fold (line_of s i). destruct (line_of s i); [|done].
  unfold on_timer. rewrite exec_modify. unfold drive. by destruct (0 <=? _).
Qed.

Lemma release_shows i : ghoare see shows (release i) shows.
Proof.
  intros s g Hs. unfold release, exec, evs. rewrite bind_get. fold (line_of s i).
  destruct (line_of s i) as [l|] eqn:Hl; [|done].
  unfold on_timer. rewrite bind_modify. fold (with_line i None s).
  pose proof (shows_off i l s g Hs Hl) as H. unfold drive in *. by destruct (0 <=? _).
Qed.

Lemma route_own s i l : route s i = Some l -> own_line i l.
Proof.
  unfold route, own_line. destruct (fsb s i); [done|].
  destruct (has (config s) LEG_RT_CNF && (i <? 2)%nat) eqn:E.
  - apply andb_true_iff in E as [_ E]. apply Nat.ltb_lt in E. intros [= <-].
    destruct i as [|[|i]]; [auto|auto|lia].
  - case_match; [|done]. intros [= <-]. right. right. split; [done|]. cbn.
    apply Z.land_nonneg. lia.
Qed.

(** The line after [set_line(i, true)]. *)
Definition raised (s : t) (i : nat) : option (Z * Z) :=
  match route s i with Some l => Some l | None => line_of s i end.

Lemma with_line_twice i o o' s : with_line i o (with_line i o' s) = with_line i o s.
Proof. unfold with_line. cbn -[alter]. by rewrite list_alter_alter. Qed.

Lemma fsb_route s i : fsb s i = true -> route s i = None.
Proof. intros H. unfold route. by rewrite H. Qed.

Lemma alter_line_same (ts : list timer_t) (i : nat) :
  alter (fun tm => tm <| line := line (default no_timer (ts !! i)) |>) i ts = ts.
Proof.
  revert i. induction ts as [|x ts IH]; intros [|i]; [done|done|by destruct x|].
  change (x :: alter (fun tm => tm <| line := line (default no_timer (ts !! i)) |>) i ts = x :: ts).
  by rewrite IH.
Qed.

Lemma with_line_same s i : with_line i (line_of s i) s = s.
Proof.
  unfold with_line, line_of, timer_at. rewrite alter_line_same. by destruct s.
Qed.

Lemma set_line_true_exec i s : exec (set_line i true) s = with_line i (raised s i) s.
Proof.
  unfold set_line, raised. rewrite exec_get. destruct (fsb s i) eqn:Ef.
  - rewrite (fsb_route s i Ef), with_line_same. by destruct has_msi.
  - destruct (route s i) as [l|]; [|by rewrite with_line_same]. fold (line_of s i).
    case_bool_decide as E; [by rewrite <- E, with_line_same|].
    rewrite exec_bind.
    assert (exec (match line_of s i with Some _ => release i | None => skip end) s
            = match line_of s i with Some _ => with_line i None s | None => s end) as ->.
    { destruct (line_of s i) eqn:El; [|done]. rewrite release_exec. by rewrite El. }
    unfold on_timer. rewrite exec_modify.
    transitivity (with_line i (Some l) (match line_of s i with Some _ => with_line i None s | None => s end)).
    + unfold drive. by destruct (0 <=? _).
    + destruct (line_of s i); [apply with_line_twice|done].
Qed.

Lemma set_line_shows i level : (i < 3)%nat -> ghoare see shows (set_line i level) shows.
Proof.
  intros Hi. destruct level; [|apply release_shows]. intros s g Hs.
  unfold set_line, exec, evs. rewrite bind_get. destruct (fsb s i); [by destruct has_msi|].
  destruct (route s i) as [l|] eqn:Hr; [|done]. fold (line_of s i). case_bool_decide; [done|].
  set (m := match line_of s i with Some _ => release i | None => skip end).
  assert (shows (exec m s) (fold_left see (evs m s) g) /\ line_of (exec m s) i = None) as [H1 H2].
  { unfold m. destruct (line_of s i) eqn:El; [|done]. split; [by apply release_shows|].
    rewrite release_exec, El, line_of_with by (rewrite (sh_len _ _ Hs); lia). by rewrite decide_True. }
  pose proof (shows_on i l _ _ H1 Hi H2 (route_own s i l Hr)) as H3.
  assert (forall k : M t unit, (bind m (fun _ => k) s).1.2 = exec k (exec m s)
    /\ (bind m (fun _ => k) s).2 = evs m s ++ evs k (exec m s)) as Hb by done.
  rewrite (proj1 (Hb _)), (proj2 (Hb _)), fold_left_app. clear Hb.
  revert H3. generalize (exec m s), (fold_left see (evs m s) g). intros s1 g1 H3.
  unfold on_timer, exec, evs. rewrite bind_modify. fold (with_line i (Some l) s1).
  unfold drive in *. by destruct (0 <=? _).
Qed.

Ltac shows_step :=
  gstep shows ltac:(idtac; lazymatch goal with
    | |- ghoare _ _ (modify _) _ => apply modify_shows; intros; reflexivity
    | |- ghoare _ _ (on_timer _ _) _ => apply on_timer_shows; intros; repeat case_match; reflexivity
    | |- ghoare _ _ (set_line _ _) _ => apply set_line_shows; lia
    | |- ghoare _ _ (release _) _ => apply release_shows
    | |- ghoare _ _ (match ?x with _ => _ end) _ => destruct x
    end).

Lemma update_level_shows i : (i < 3)%nat -> ghoare see shows (update_level i) shows.
Proof. intros Hi. unfold update_level. shows_step. Qed.

Lemma arm_shows i c : ghoare see shows (arm i c) shows.
Proof. unfold arm. shows_step. Qed.

Lemma fire_shows i : (i < 3)%nat -> ghoare see shows (fire i) shows.
Proof. intros Hi. unfold fire. shows_step. Qed.

(** A pass over the three timers. *)
Lemma shows_for_all f :
  (forall i, (i < 3)%nat -> ghoare see shows (f i) shows) -> ghoare see shows (mfor [0; 1; 2]%nat f) shows.
Proof.
  intros H. cbn [mfor]. repeat (apply ghoare_bind with (Q := shows); [apply H; lia|intros _]). apply ghoare_skip.
Qed.

Lemma service_shows c i : (i < 3)%nat -> ghoare see shows (service c i) shows.
Proof.
  intros Hi. unfold service. apply ghoare_get_any. intros s. destruct (deadline (timer_at s i)) as [d|]; [|apply ghoare_skip].
  apply ghoare_when. apply ghoare_bind with (Q := shows); [by apply fire_shows|intros _].
  apply on_timer_shows. intros tm. unfold advance. by destruct (_ && _).
Qed.

Lemma timer_shows now : ghoare see shows (timer now) shows.
Proof.
  unfold timer. apply ghoare_get_any. intros s. apply ghoare_if; [apply ghoare_ret|].
  apply ghoare_bind with (Q := shows); [apply shows_for_all; intros; by apply service_shows|intros _].
  shows_step.
Qed.

Lemma reset_shows : ghoare see shows reset shows.
Proof.
  unfold reset. apply ghoare_bind with (Q := shows).
  - apply shows_for_all. intros i Hi. by apply set_line_shows.
  - intros _. apply ghoare_modify. intros s g. apply shows_ext; [cbn; apply length_map|].
    intros i. unfold line_of, timer_at. cbn. rewrite list_lookup_fmap. by destruct (timers s !! i).
Qed.

(** The lowering of IRQ 0 and 8 when the legacy route changes hits released lines. *)
Lemma lower_legacy_shows :
  ghoare see shows (set_line 0 false ;;; set_line 1 false ;;; emit (DeviceLowerIrq 0) ;;; emit (DeviceLowerIrq 8)) shows.
Proof.
  intros s g Hs.
  pose proof (release_shows 0 s g Hs) as H1. pose proof (release_shows 1 _ _ H1) as H2.
  assert (forall m1 m2 : M t unit, exec (m1 ;;; m2 ;;; emit (DeviceLowerIrq 0) ;;; emit (DeviceLowerIrq 8)) s
      = exec m2 (exec m1 s) /\
    fold_left see (evs (m1 ;;; m2 ;;; emit (DeviceLowerIrq 0) ;;; emit (DeviceLowerIrq 8)) s) g
      = see (see (fold_left see (evs m2 (exec m1 s)) (fold_left see (evs m1 s) g)) (DeviceLowerIrq 0)) (DeviceLowerIrq 8))
    as Hb.
  { intros m1 m2. split; [done|]. rewrite !evs_bind, !fold_left_app. done. }
  rewrite (proj1 (Hb _ _)), (proj2 (Hb _ _)). clear Hb. unfold set_line.
  assert (line_of (exec (release 1) (exec (release 0) s)) 0 = None
    /\ line_of (exec (release 1) (exec (release 0) s)) 1 = None) as [L0 L1].
  { assert (forall i s0, length (timers s0) = 3%nat -> (i < 3)%nat ->
      forall j, line_of (exec (release i) s0) j = if decide (j = i) then None else line_of s0 j) as Hrel.
    { intros i s0 Hl0 Hi j. rewrite release_exec. destruct (line_of s0 i) eqn:E.
      - apply line_of_with. lia.
      - case_decide; [by subst|done]. }
    rewrite !Hrel by (rewrite ?(sh_len _ _ H1), ?(sh_len _ _ Hs); lia). done. }
  revert H2 L0 L1. unfold set_line. generalize (exec (release 1) (exec (release 0) s)).
  generalize (fold_left see (evs (release 1) (exec (release 0) s)) (fold_left see (evs (release 0) s) g)).
  intros g2 s2 [H2a H2b H2c H2d H2e] L0 L1. split; [done|done| | |done].
  - by rewrite L0.
  - by rewrite L1.
Qed.

Lemma write_gen_conf_shows value c now : ghoare see shows (write_gen_conf value c now) shows.
Proof.
  unfold write_gen_conf. apply ghoare_get_any. intros s. cbv zeta.
  apply ghoare_bind with (Q := shows); [apply modify_shows; done|intros _].
  apply ghoare_bind with (Q := shows); [|intros _].
  - apply ghoare_when. apply ghoare_bind with (Q := shows); [apply modify_shows; done|intros _].
    apply ghoare_mfor. intros i. apply arm_shows.
  - apply ghoare_when. intros s0 g Hs.
    pose proof (lower_legacy_shows s0 g Hs) as H1.
    pose proof (update_level_shows 0 ltac:(lia) _ _ H1) as H2.
    pose proof (update_level_shows 1 ltac:(lia) _ _ H2) as H3.
    revert H3. rewrite !exec_bind, !evs_bind, !fold_left_app. done.
Qed.

Lemma timer_index_bound offset i : timer_index offset = Some i -> (i < 3)%nat.
Proof.
  unfold timer_index, TIMER_BASE, TIMER_COUNT, TIMER_STRIDE. case_match eqn:E; [|done].
  apply andb_true_iff in E as [E1 E2]. apply Z.leb_le in E1. apply Z.ltb_lt in E2. intros [= <-].
  rewrite Z.shiftr_div_pow2 by lia. change (2 ^ 5) with 32.
  assert (0 <= (offset - 256) / 32 < 3); [|lia]. Z.to_euclidean_division_equations. lia.
Qed.

Lemma write32_shows offset value now : ghoare see shows (write32 offset value now) shows.
Proof.
  unfold write32. apply ghoare_get_any. intros s. cbv zeta. destruct (timer_index _) as [i|] eqn:Ei.
  - pose proof (timer_index_bound _ _ Ei) as Hi.
    apply ghoare_if; [apply ghoare_when|apply ghoare_if; [|apply ghoare_if; [|apply ghoare_skip]]].
    + unfold write_conf. apply ghoare_bind with (Q := shows).
      * apply on_timer_shows. intros tm. cbv zeta. by destruct (has _ _).
      * intros _. apply ghoare_bind with (Q := shows); [by apply update_level_shows|intros _; apply arm_shows].
    + unfold write_comparator. apply ghoare_get_any. intros s0. cbv zeta. apply ghoare_if; [apply ghoare_skip|].
      shows_step. intros. apply arm_shows.
    + apply on_timer_shows. intros tm. by case_match.
  - apply ghoare_if; [apply ghoare_when|apply ghoare_if; [apply ghoare_when|apply ghoare_if; [|apply ghoare_skip]]].
    + apply write_gen_conf_shows.
    + apply ghoare_bind with (Q := shows); [apply modify_shows; done|intros _].
      apply shows_for_all. intros i Hi. by apply update_level_shows.
    + unfold write_counter. shows_step.
Qed.

Inductive op :=
| Timer (now : Q) | Write32 (offset value : Z) (now : Q) | Write8 (addr value : Z) (now : Q) | Reset.

Definition run_op (o : op) : M t unit :=
  match o with
  | Timer now => timer now ;;; skip
  | Write32 offset value now => write32 offset value now
  | Write8 addr value now => write8 addr value now
  | Reset => reset
  end.
Definition run (ops : list op) : M t unit := mfor ops run_op.

Lemma run_op_shows o : ghoare see shows (run_op o) shows.
Proof.
  destruct o; cbn [run_op].
  - apply ghoare_bind with (Q := shows); [apply timer_shows|intros _; apply ghoare_skip].
  - apply write32_shows.
  - unfold write8. apply ghoare_get_any. intros s. apply write32_shows.
  - apply reset_shows.
Qed.

(** ** Levels follow the status *)

(** A level-triggered interrupt of timer [i] is active. *)
Definition active (s : t) (i : nat) : bool :=
  has (isr s) (1 .<< Z.of_nat i)
  && (tconfig (timer_at s i) .& (TN_INT_ENB .| TN_INT_TYPE_LEVEL) =? TN_INT_ENB .| TN_INT_TYPE_LEVEL)
  && negb (fsb s i).

(** The line of timer [i] is the one its status and its route ask for. *)
Definition line_ok (s : t) (i : nat) : Prop :=
  match line_of s i with
  | Some l => active s i = true /\ (route s i = None \/ route s i = Some l)
  | None => active s i = true -> route s i = None
  end.

(** The lines of all timers but those of [D] are as they should be. *)
Definition ok_but (D : list nat) (s : t) : Prop :=
  length (timers s) = 3%nat /\ forall i, (i < 3)%nat -> i ∉ D -> line_ok s i.

Lemma with_line_timer i o s j :
  timer_at (with_line i o s) j = if decide (j = i) then (timer_at s j) <| line := line_of (with_line i o s) j |> else timer_at s j.
Proof.
  unfold line_of, with_line, timer_at. cbn -[alter]. destruct (decide (j = i)) as [->|Hj].
  - rewrite list_lookup_alter_eq. by destruct (timers s !! i).
  - by rewrite list_lookup_alter_ne.
Qed.

Lemma with_line_active i o s j : active (with_line i o s) j = active s j.
Proof. unfold active, fsb. rewrite with_line_timer. by destruct (decide (j = i)). Qed.

Lemma with_line_route i o s j : route (with_line i o s) j = route s j.
Proof. unfold route, fsb. rewrite with_line_timer. by destruct (decide (j = i)). Qed.

Lemma line_ok_with i o s j :
  length (timers s) = 3%nat -> (i < 3)%nat -> j <> i -> line_ok s j -> line_ok (with_line i o s) j.
Proof.
  intros Hl Hi Hj. unfold line_ok. rewrite with_line_active, with_line_route, line_of_with, decide_False by (done || lia).
  done.
Qed.

Lemma line_ok_set i o s :
  length (timers s) = 3%nat -> (i < 3)%nat -> line_ok (with_line i o s) i <->
  match o with
  | Some l => active s i = true /\ (route s i = None \/ route s i = Some l)
  | None => active s i = true -> route s i = None
  end.
Proof.
  intros Hl Hi. unfold line_ok. rewrite with_line_active, with_line_route, line_of_with, decide_True by (done || lia).
  done.
Qed.

Lemma set_line_false_exec i s : exec (set_line i false) s = with_line i None s.
Proof.
  unfold set_line. rewrite release_exec. destruct (line_of s i) eqn:E; [done|]. by rewrite <- E, with_line_same.
Qed.

Lemma update_level_exec i s :
  exec (update_level i) s = with_line i (if active s i then raised s i else None) s.
Proof.
  unfold update_level. rewrite exec_get. fold (active s i). destruct (active s i); cbn [negb].
  - apply set_line_true_exec.
  - apply set_line_false_exec.
Qed.

(** Giving timer [i] the line of its status and route repairs it. *)
Lemma ok_repair D i s :
  ok_but (i :: D) s -> (i < 3)%nat -> ok_but D (with_line i (if active s i then raised s i else None) s).
Proof.
  intros [Hl Hok] Hi. split; [by rewrite with_line_len|]. intros j Hj HD. destruct (decide (j = i)) as [->|Hji].
  - apply line_ok_set; [done|done|]. destruct (active s i) eqn:Ea; [|done].
    unfold raised. destruct (route s i) as [l|]; [auto|]. destruct (line_of s i); auto.
  - apply line_ok_with; [done|done|done|]. apply Hok; [done|]. set_solver.
Qed.

Lemma update_level_ok D i : (i < 3)%nat -> hoare (ok_but (i :: D)) (update_level i) (ok_but D).
Proof. intros Hi s Hs. rewrite update_level_exec. by apply ok_repair. Qed.

(** Steps that change nothing a line depends on. *)
Definition wires (s s' : t) : Prop :=
  length (timers s') = length (timers s) /\
  forall i, line_of s' i = line_of s i /\ active s' i = active s i /\ route s' i = route s i.

Lemma ok_wires D s s' : wires s s' -> ok_but D s -> ok_but D s'.
Proof.
  intros [Hl Hw] [Hl' Hok]. split; [by rewrite Hl|]. intros i Hi HD. specialize (Hok i Hi HD).
  unfold line_ok in *. by destruct (Hw i) as (-> & -> & ->).
Qed.

(** A change of a timer that keeps the bits of its configuration that steer interrupts. *)
Definition steer (c : Z) : Z * bool * bool :=
  ((c .>> TN_INT_ROUTE_SHIFT) .& 0x1F, has c TN_FSB_EN,
   c .& (TN_INT_ENB .| TN_INT_TYPE_LEVEL) =? TN_INT_ENB .| TN_INT_TYPE_LEVEL).

Lemma on_timer_wires i f s :
  (forall tm, line (f tm) = line tm /\ steer (tconfig (f tm)) = steer (tconfig tm)) ->
  wires s (s <| timers := alter f i (timers s) |>).
Proof.
  intros H. split; [apply length_alter|]. intros j.
  assert (line_of (s <| timers := alter f i (timers s) |>) j = line_of s j
    /\ steer (tconfig (timer_at (s <| timers := alter f i (timers s) |>) j)) = steer (tconfig (timer_at s j))) as [E1 E2].
  { split; [apply on_timer_line; apply H|]. unfold timer_at. cbn -[alter]. destruct (decide (j = i)) as [->|].
    - rewrite list_lookup_alter_eq. destruct (timers s !! i); [apply H|done].
    - by rewrite list_lookup_alter_ne. }
  split; [done|]. unfold active, route, fsb. unfold steer in E2. injection E2 as E2 E3 E4. by rewrite E2, E3, E4.
Qed.

Lemma on_timer_ok D i f :
  (forall tm, line (f tm) = line tm /\ steer (tconfig (f tm)) = steer (tconfig tm)) ->
  preserves (ok_but D) (on_timer i f).
Proof. intros H s. unfold on_timer. rewrite exec_modify1. apply ok_wires, on_timer_wires, H. Qed.

Lemma arm_ok D i c : preserves (ok_but D) (arm i c).
Proof.
  intros s Hs. unfold arm. rewrite exec_get. cbv zeta. destruct (negb _).
  all: apply (on_timer_ok D i); [done|exact Hs].
Qed.

Lemma ok_less D D' s : D ⊆ D' -> ok_but D s -> ok_but D' s.
Proof. intros HD [Hl Hok]. split; [done|]. intros i Hi HD'. apply Hok; [done|set_solver]. Qed.

(** Changes of the status or the configuration that concern the timers of [D]. *)
Lemma ok_status D f :
  (forall s, timers (f s) = timers s /\
    forall i, (i < 3)%nat -> i ∉ D -> has (isr (f s)) (1 .<< Z.of_nat i) = has (isr s) (1 .<< Z.of_nat i)
      /\ (has (config (f s)) LEG_RT_CNF && (i <? 2)%nat) = (has (config s) LEG_RT_CNF && (i <? 2)%nat)) ->
  hoare (ok_but D) (modify f) (ok_but D).
Proof.
  intros H. apply hoare_modify. intros s [Hl Hok]. destruct (H s) as [Ht Hi]. split; [by rewrite Ht|].
  intros i Hi3 HD. specialize (Hok i Hi3 HD). destruct (Hi i Hi3 HD) as [E1 E2].
  revert Hok. unfold line_ok, active, route, fsb, line_of, timer_at. by rewrite Ht, E1, E2.
Qed.

Lemma has_bit_other x i j : i <> j -> has (x .| (1 .<< Z.of_nat i)) (1 .<< Z.of_nat j) = has x (1 .<< Z.of_nat j).
Proof.
  intros Hij. rewrite !Z.shiftl_1_l, !has_testbit by lia. rewrite Z.lor_spec, Z.pow2_bits_false by lia.
  apply orb_false_r.
Qed.

Lemma has_bit_same x i : has (x .| (1 .<< Z.of_nat i)) (1 .<< Z.of_nat i) = true.
Proof.
  rewrite !Z.shiftl_1_l, has_testbit by lia. rewrite Z.lor_spec, Z.pow2_bits_true by lia. apply orb_true_r.
Qed.

Lemma active_when s i :
  has (isr s) (1 .<< Z.of_nat i) = true -> has (tconfig (timer_at s i)) TN_INT_ENB = true ->
  has (tconfig (timer_at s i)) TN_INT_TYPE_LEVEL = true -> fsb s i = false -> active s i = true.
Proof.
  intros H1 H2 H3 H4. unfold active. rewrite H1, H4, andb_true_r. cbn [andb].
  apply Z.eqb_eq. change TN_INT_ENB with (2 ^ 2) in H2. change TN_INT_TYPE_LEVEL with (2 ^ 1) in H3.
  rewrite has_testbit in H2, H3 by lia. unfold TN_INT_ENB, TN_INT_TYPE_LEVEL.
  change (4 .| 2) with 6. apply Z.bits_inj'. intros n Hn. rewrite Z.land_spec.
  destruct (decide (n = 1)) as [->|H1n]; [by rewrite H3|].
  destruct (decide (n = 2)) as [->|H2n]; [by rewrite H2|].
  change 6 with (2 ^ 1 .| 2 ^ 2). rewrite Z.lor_spec, !Z.pow2_bits_false by lia.
  apply andb_false_r.
Qed.

Lemma inactive_edge s i :
  has (tconfig (timer_at s i)) TN_INT_TYPE_LEVEL && negb (fsb s i) = false -> active s i = false.
Proof.
  unfold active. destruct (fsb s i); [intros _; apply andb_false_r|]. rewrite !andb_true_r. intros H.
  apply andb_false_iff. right. apply Z.eqb_neq. intros E.
  apply has_false_iff in H. unfold TN_INT_ENB, TN_INT_TYPE_LEVEL in *.
  apply (f_equal (fun x => x .& 2)) in E. rewrite <- Z.land_assoc in E. change ((4 .| 2) .& 2) with 2 in E. lia.
Qed.

Lemma fire_ok D i : (i < 3)%nat -> preserves (ok_but D) (fire i).
Proof.
  intros Hi s Hs. unfold fire. rewrite exec_get. cbv zeta.
  destruct (has (tconfig (timer_at s i)) TN_INT_ENB) eqn:Ee; cbn [negb]; [|done].
  destruct (has (tconfig (timer_at s i)) TN_INT_TYPE_LEVEL && negb (fsb s i)) eqn:El.
  - rewrite exec_modify, set_line_true_exec. apply andb_true_iff in El as [El Ef]. apply negb_true_iff in Ef.
    set (s1 := s <| isr := isr s .| (1 .<< Z.of_nat i) |>).
    assert (active s1 i = true) as Ha by (apply active_when; [apply has_bit_same|done..]).
    assert (ok_but (i :: D) s1) as H1.
    { refine (ok_status (i :: D) (fun s => s <| isr := isr s .| (1 .<< Z.of_nat i) |>) _ s _).
      - intros s0. split; [done|]. intros j Hj HD. split; [|done]. apply has_bit_other. set_solver.
      - eapply ok_less; [|exact Hs]. set_solver. }
    pose proof (ok_repair D i s1 H1 Hi) as H2. by rewrite Ha in H2.
  - rewrite exec_bind, set_line_true_exec, set_line_false_exec, with_line_twice.
    pose proof (ok_repair D i s (ok_less D (i :: D) s ltac:(set_solver) Hs) Hi) as H2.
    by rewrite (inactive_edge s i El) in H2.
Qed.

Lemma service_ok c i : (i < 3)%nat -> preserves (ok_but []) (service c i).
Proof.
  intros Hi s Hs. unfold service. rewrite exec_get. destruct (deadline _) as [d|]; [|done].
  destruct (d <=? c); [|done]. unfold when. rewrite exec_bind.
  apply on_timer_ok; [|by apply fire_ok]. intros tm. unfold advance. by destruct (_ && _).
Qed.

(** A pass over the timers, each of which repairs its own line. *)
Lemma update_all_ok : hoare (ok_but [0; 1; 2]%nat) (mfor [0; 1; 2]%nat update_level) (ok_but []).
Proof.
  cbn [mfor]. apply hoare_bind with (Q := ok_but [1; 2]%nat); [apply update_level_ok; lia|intros _].
  apply hoare_bind with (Q := ok_but [2]%nat); [apply update_level_ok; lia|intros _].
  apply hoare_bind with (Q := ok_but []); [apply update_level_ok; lia|intros _]. by intros s.
Qed.

Lemma timer_ok now : preserves (ok_but []) (timer now ;;; skip).
Proof.
  intros s Hs. rewrite exec_bind. unfold timer. rewrite exec_get. destruct (negb _); [done|]. cbv zeta.
  rewrite exec_bind. cbn [mfor]. rewrite !exec_bind.
  repeat (apply service_ok; [lia|]). done.
Qed.

Lemma reset_ok s : length (timers s) = 3%nat -> ok_but [] (exec reset s).
Proof.
  intros Hl. unfold reset. rewrite exec_bind. cbn [mfor]. rewrite !exec_bind, !set_line_false_exec.
  set (s1 := with_line 2 None (with_line 1 None (with_line 0 None s))).
  assert (length (timers s1) = 3%nat) as Hl1 by (unfold s1; by rewrite !with_line_len).
  rewrite exec_modify1. change (exec skip s1) with s1. split; [cbn; by rewrite length_map|].
  intros i Hi _. unfold line_ok.
  assert (active (mk 0 0 0 0 (map reset_timer (timers s1))) i = false) as ->
    by (unfold active; unfold has; cbn [isr]; by rewrite Z.land_0_l).
  assert (line_of (mk 0 0 0 0 (map reset_timer (timers s1))) i = line_of s1 i) as ->.
  { unfold line_of, timer_at. cbn [timers]. change (map reset_timer (timers s1)) with (reset_timer <$> timers s1). rewrite list_lookup_fmap. by destruct (timers s1 !! i). }
  assert (line_of s1 i = None) as ->; [|done].
  unfold s1. rewrite !line_of_with by (rewrite ?with_line_len, Hl; lia).
  repeat (destruct (decide _); [done|]). lia.
Qed.

Lemma on_timer_dirty D i f :
  (forall tm, line (f tm) = line tm) -> hoare (ok_but D) (on_timer i f) (ok_but (i :: D)).
Proof.
  intros H s [Hl Hok]. unfold on_timer. rewrite exec_modify1. split; [cbn -[alter]; by rewrite length_alter|].
  intros j Hj HD. specialize (Hok j Hj ltac:(set_solver)).
  assert (timer_at (s <| timers := alter f i (timers s) |>) j = timer_at s j) as E.
  { unfold timer_at. cbn -[alter]. rewrite list_lookup_alter_ne by set_solver. done. }
  revert Hok. unfold line_ok, active, route, fsb, line_of. by rewrite E.
Qed.

Lemma write_conf_ok i value c : (i < 3)%nat -> preserves (ok_but []) (write_conf i value c).
Proof.
  intros Hi. unfold write_conf. apply hoare_bind with (Q := ok_but [i]).
  - apply on_timer_dirty. intros tm. cbv zeta. by destruct (has _ _).
  - intros _. apply hoare_bind with (Q := ok_but []); [by apply update_level_ok|intros _; apply arm_ok].
Qed.

Lemma steer_val_set c : steer (c .& ~. TN_VAL_SET) = steer c.
Proof.
  unfold steer. rewrite has_clear_other by done. rewrite Z.shiftr_land, <- !Z.land_assoc. f_equal.
Qed.

Lemma write_comparator_ok i high value c : preserves (ok_but []) (write_comparator i high value c).
Proof.
  intros s Hs. unfold write_comparator. rewrite exec_get. cbv zeta. destruct (high && _); [done|].
  revert s Hs. intros s0. generalize (timer_at s0 i). revert s0. intros s0 tm.
  enough (preserves (ok_but []) (
    when (negb (has (tconfig tm) TN_TYPE_PERIODIC) || has (tconfig tm) TN_VAL_SET)
      (on_timer i (fun tm => tm <| comparator := set_half high value (comparator tm) |>)) ;;;
    when (has (tconfig tm) TN_TYPE_PERIODIC)
      (on_timer i (fun tm => tm <| period := set_half high value (period tm) |>)) ;;;
    when (high || has (tconfig tm) TN_32MODE)
      (on_timer i (fun tm => tm <| tconfig := tconfig tm .& ~. TN_VAL_SET |>)) ;;;
    arm i c)) as H by apply H.
  repeat (apply preserves_bind; [apply preserves_when, on_timer_ok; intros; split; [done|]; try done; apply steer_val_set|intros _]).
  apply arm_ok.
Qed.

Lemma write_gen_conf_ok value c now : preserves (ok_but []) (write_gen_conf value c now).
Proof.
  intros s0 Hs0. unfold write_gen_conf. rewrite exec_get. cbv zeta. rewrite exec_modify, exec_bind.
  set (new := value .& _). set (s1 := s0 <| config := new |>).
  assert (forall D s, ok_but D s ->
    ok_but D (exec (when (has (config s0 .^ new) ENABLE_CNF)
      (modify (fun s => s <| counter_base := c |> <| base_time := now |>) ;;; mfor [0; 1; 2]%nat (fun i => arm i c))) s)) as Harm.
  { intros D. apply preserves_when, preserves_bind; [|intros _; apply preserves_mfor; intros; apply arm_ok].
    apply ok_status. done. }
  destruct (has (config s0 .^ new) LEG_RT_CNF) eqn:El; unfold when at 1.
  - assert (ok_but [0; 1]%nat s1) as H1.
    { destruct Hs0 as [Hl Hok]. split; [done|]. intros i Hi HD. specialize (Hok i Hi ltac:(set_solver)).
      assert (i = 2)%nat as -> by (destruct i as [|[|[|i]]]; [set_solver..|done|lia]).
      revert Hok. unfold line_ok, active, route, fsb, line_of, timer_at. cbn. by rewrite !andb_false_r. }
    apply (Harm _ s1) in H1. revert H1. generalize (exec (when (has (config s0 .^ new) ENABLE_CNF)
      (modify (fun s => s <| counter_base := c |> <| base_time := now |>) ;;; mfor [0; 1; 2]%nat (fun i => arm i c))) s1).
    intros s2 H2. rewrite !exec_bind, !set_line_false_exec.
    apply (update_level_ok [] 1); [lia|]. apply (update_level_ok [1%nat] 0); [lia|].
    change (ok_but [0; 1]%nat (with_line 1 None (with_line 0 None s2))). split; [by rewrite !with_line_len; apply H2|].
    intros i Hi HD. repeat (apply line_ok_with; [rewrite ?with_line_len; apply H2|lia|set_solver|]). by apply H2.
  - apply Harm. destruct Hs0 as [Hl Hok]. split; [done|]. intros i Hi HD. specialize (Hok i Hi HD).
    assert (has new LEG_RT_CNF = has (config s0) LEG_RT_CNF) as E.
    { change LEG_RT_CNF with (2 ^ 1) in *. rewrite has_testbit in El by lia. rewrite !has_testbit by lia. rewrite Z.lxor_spec in El.
      revert El. by destruct (Z.testbit (config s0) 1), (Z.testbit new 1). }
    revert Hok. unfold line_ok, active, route, fsb, line_of, timer_at. cbn. by rewrite E.
Qed.

Lemma write32_ok offset value now : preserves (ok_but []) (write32 offset value now).
Proof.
  unfold write32. cbv zeta. apply preserves_get. intros s. revert s.
  intros s0 Hs0. generalize (counter now s0). intros c. revert s0 Hs0.
  destruct (timer_index _) as [i|] eqn:Ei.
  - pose proof (timer_index_bound _ _ Ei) as Hi. apply preserves_if; [|apply preserves_if; [|apply preserves_if]].
    + by apply preserves_when, write_conf_ok.
    + apply write_comparator_ok.
    + apply on_timer_ok. intros tm. by destruct (has _ 4).
    + apply preserves_skip.
  - apply preserves_if; [|apply preserves_if; [|apply preserves_if]].
    + apply preserves_when, write_gen_conf_ok.
    + apply preserves_when. apply hoare_bind with (Q := ok_but [0; 1; 2]%nat); [|intros _; apply update_all_ok].
      apply hoare_weaken with (P := ok_but [0; 1; 2]%nat); [intros s; apply ok_less; set_solver|].
      apply ok_status. intros s. split; [done|]. intros i Hi HD. exfalso. apply HD. set_unfold. lia.
    + unfold write_counter. apply preserves_get. intros s. destruct (negb _); [|done].
      apply ok_status. done.
    + apply preserves_skip.
Qed.

Lemma run_op_ok o : preserves (ok_but []) (run_op o).
Proof.
  destruct o; cbn [run_op].
  - apply timer_ok.
  - apply write32_ok.
  - unfold write8. apply preserves_get. intros s. apply write32_ok.
  - intros s [Hl _]. by apply reset_ok.
Qed.

(** Timer [i] asserts the line [l]. *)
Definition asserted (g : levels) (i : nat) (l : Z * Z) : Prop :=
  (l = (0, -1) /\ i = 0%nat /\ irq0 g = true) \/ (l = (8, -1) /\ i = 1%nat /\ irq8 g = true) \/
  (l.1 = -1 /\ (l.2, HPET_SOURCE + Z.of_nat i) ∈ gsis g).

Lemma shows_asserted s g i l : shows s g -> (i < 3)%nat -> asserted g i l <-> line_of s i = Some l.
Proof.
  intros [Hlen Hown H0 H8 Hg] Hi. unfold asserted. split.
  - intros [(-> & -> & H)|[(-> & -> & H)|[H1 H]]].
    + rewrite H0 in H. by apply bool_decide_eq_true in H.
    + rewrite H8 in H. by apply bool_decide_eq_true in H.
    + apply Hg in H as (j & Hj & Hs & Hl). assert (j = i) as -> by lia. destruct l as [a b]. cbn in *. by subst.
  - intros Hl. destruct (Hown i l Hl) as [[-> ->]|[[-> ->]|[E _]]].
    + left. rewrite H0. by rewrite bool_decide_true.
    + right. left. rewrite H8. by rewrite bool_decide_true.
    + right. right. split; [done|]. apply Hg. exists i. destruct l as [a b]. cbn in *. by subst.
Qed.

Lemma create_ok : ok_but [] create /\ shows create (mk_levels false false ∅).
Proof.
  split; [by apply reset_ok|]. apply (reset_shows (mk 0 0 0 0 (replicate 3 no_timer)) (mk_levels false false ∅)).
  assert (forall i, line_of (mk 0 0 0 0 (replicate 3 no_timer)) i = None) as H.
  { intros i. unfold line_of, timer_at. by destruct i as [|[|[|[|i]]]]. }
  split; [done| |by rewrite H|by rewrite H|].
  - intros i l. by rewrite H.
  - intros gsi source. split; [set_solver|]. intros (i & _ & _ & E). by rewrite H in E.
Qed.

(** C31: Whatever sequence of register writes, timer expiries and resets the HPET goes through, the
    interrupt controllers see its level-triggered interrupts as the registers have them: a timer whose
    interrupt is not active (its status bit is clear, it is disabled, edge-triggered or set to messages)
    asserts no line at all, and a timer whose interrupt is active and that has a route asserts that line
    and no other, also after the legacy replacement route was switched or the route was rewritten. *)
Theorem hpet_lines (ops : list op) :
  let s := exec (run ops) create in
  let g := fold_left see (evs (run ops) create) (mk_levels false false ∅) in
  forall i, (i < 3)%nat ->
    (active s i = false -> forall l, ~ asserted g i l) /\
    (forall l, active s i = true -> route s i = Some l -> forall l', asserted g i l' <-> l' = l).
Proof.
  intros s g i Hi. destruct create_ok as [H1 H2].
  assert (ok_but [] s) as [_ Hok] by (apply (preserves_mfor _ ops run_op run_op_ok), H1).
  assert (shows s g) as Hg by (apply (ghoare_mfor see shows ops run_op run_op_shows), H2).
  specialize (Hok i Hi ltac:(set_solver)). unfold line_ok in Hok. split.
  - intros Ha l. rewrite (shows_asserted s g) by done. intros E. rewrite E in Hok. destruct Hok; congruence.
  - intros l Ha Hr l'. rewrite (shows_asserted s g) by done. destruct (line_of s i) as [l0|].
    + destruct Hok as [_ [?|?]]; [congruence|]. split; congruence.
    + rewrite Hok in Hr by done. congruence.
Qed.

(** ** The type of the registers *)

Definition half_pair (p : Z * Z) : Prop := uint32 p.1 /\ uint32 p.2.

Record timer_wf (tm : timer_t) : Prop := {
  tw_config : tconfig tm .& TN_CONF_WRITABLE = tconfig tm;
  tw_comparator : half_pair (comparator tm);
  tw_period : half_pair (period tm);
  tw_fsb : uint32 (fsb_value tm) /\ uint32 (fsb_address tm);
  tw_32 : has (tconfig tm) TN_32MODE = true -> (comparator tm).2 = 0 /\ (period tm).2 = 0
}.

Record wf (s : t) : Prop := {
  wf_config : 0 <= config s < 4;
  wf_isr : 0 <= isr s < 8;
  wf_timers : Forall timer_wf (timers s)
}.

Lemma value64_nonneg p : half_pair p -> 0 <= value64 p.
Proof. intros [[? ?] [? ?]]. apply dbl_nonneg. lia. Qed.

Lemma set64_pair v : half_pair (set64 v).
Proof. split; apply u32_uint32. Qed.

Lemma set64_small v : 0 <= v < 2 ^ 32 -> (set64 v).2 = 0.
Proof. intros Hv. unfold set64. cbn. by rewrite (Z.div_small v) by lia. Qed.

Lemma on_timer_wf i f : (forall tm, timer_wf tm -> timer_wf (f tm)) -> preserves wf (on_timer i f).
Proof.
  intros H. apply preserves_modify. intros s [H1 H2 H3]. split; [done|done|]. cbn -[alter].
  apply Forall_alter; auto.
Qed.

Lemma line_wf tm o : timer_wf tm -> timer_wf (tm <| line := o |>).
Proof. by intros [H1 H2 H3 H4 H5]. Qed.

Lemma deadline_wf tm o : timer_wf tm -> timer_wf (tm <| deadline := o |>).
Proof. by intros [H1 H2 H3 H4 H5]. Qed.

Lemma set_line_wf i level : preserves wf (set_line i level).
Proof.
  intros s Hs. destruct level.
  - rewrite set_line_true_exec. refine (on_timer_wf i _ _ s Hs). intros tm. apply line_wf.
  - rewrite set_line_false_exec. refine (on_timer_wf i _ _ s Hs). intros tm. apply line_wf.
Qed.

Lemma update_level_wf i : preserves wf (update_level i).
Proof. intros s Hs. unfold update_level. rewrite exec_get. destruct (negb _); by apply set_line_wf. Qed.

Lemma arm_wf i c : preserves wf (arm i c).
Proof.
  intros s Hs. unfold arm. rewrite exec_get. cbv zeta. destruct (negb _).
  all: apply (on_timer_wf i); [intros tm; apply deadline_wf|exact Hs].
Qed.

Lemma isr_set x i : 0 <= x < 8 -> (i < 3)%nat -> 0 <= x .| (1 .<< Z.of_nat i) < 8.
Proof.
  intros Hx Hi. rewrite Z.shiftl_1_l. apply (lor_bound 3); [lia|lia|].
  split; [lia|]. apply Z.pow_lt_mono_r; lia.
Qed.

Lemma fire_wf i : (i < 3)%nat -> preserves wf (fire i).
Proof.
  intros Hi s Hs. unfold fire. rewrite exec_get. cbv zeta. destruct (negb _); [done|]. destruct (_ && _).
  - rewrite exec_modify. apply set_line_wf. destruct Hs. split; [done|by apply isr_set|done].
  - rewrite exec_bind. by do 2 apply set_line_wf.
Qed.

Lemma advance_wf c d tm : d <= c -> timer_wf tm -> timer_wf (advance c d tm).
Proof.
  intros Hd Hw. pose proof (value64_nonneg _ (tw_comparator tm Hw)) as Hc. pose proof (value64_nonneg _ (tw_period tm Hw)) as Hp. unfold advance.
  destruct (_ && negb _) eqn:E; [|by apply deadline_wf].
  apply andb_true_iff in E as [_ E]. apply negb_true_iff, Z.eqb_neq in E.
  destruct Hw as [H1 H2 H3 H4 H5]. split; [done|apply set64_pair|done|done|].
  intros E32. split; [|by apply H5]. apply set64_small.
  change (has (tconfig tm) TN_32MODE = true) in E32. unfold width in *. rewrite E32 in *.
  set (q := Qfloor _). assert (0 <= q) as Hq.
  { unfold q. rewrite <- (Qfloor_Z 0). apply Qfloor_resp_le. apply (rnd_mono 0). unfold Qdiv. apply Qmult_le_0_compat.
    - rewrite <- (Zle_Qle 0). apply dbl_nonneg. lia.
    - apply Qinv_le_0_compat. rewrite <- (Zle_Qle 0). lia. }
  set (k := dbl (q + 1)). assert (0 <= k) as Hk by (apply dbl_nonneg; lia). pose proof (dbl_nonneg (k * value64 (period tm)) ltac:(nia)) as Hkp.
  pose proof (dbl_nonneg (value64 (comparator tm) + dbl (k * value64 (period tm))) ltac:(lia)) as Hv.
  rewrite Z.rem_mod_nonneg by lia. by apply Z.mod_pos_bound.
Qed.

Lemma write_conf_wf i value c : preserves wf (write_conf i value c).
Proof.
  unfold write_conf. apply preserves_bind; [|intros _; apply preserves_bind;
    [apply update_level_wf|intros _; apply arm_wf]].
  apply on_timer_wf. intros tm [H1 H2 H3 H4 H5]. cbv zeta.
  assert ((value .& TN_CONF_WRITABLE) .& TN_CONF_WRITABLE = value .& TN_CONF_WRITABLE) as Hc
    by (by rewrite <- Z.land_assoc, Z.land_diag).
  match goal with |- timer_wf (if ?b then _ else _) => destruct b eqn:E end.
  - split; [exact Hc|..|done|done]; (split; [apply H2 || apply H3|done]).
  - split; [exact Hc|done..|]. intros E'. change (has (value .& TN_CONF_WRITABLE) TN_32MODE = true) in E'.
    change (has (value .& TN_CONF_WRITABLE) TN_32MODE = false) in E. congruence.
Qed.

Lemma set_half_pair high v p : uint32 v -> half_pair p -> half_pair (set_half high v p).
Proof. intros Hv [H1 H2]. by destruct high; split. Qed.

Lemma clear_val_set_wf tm : timer_wf tm -> timer_wf (tm <| tconfig := tconfig tm .& ~. TN_VAL_SET |>).
Proof.
  intros [H1 H2 H3 H4 H5]. split; [|done..|].
  - cbn. rewrite <- Z.land_assoc, (Z.land_comm (~. _)), Z.land_assoc. by rewrite H1.
  - cbn [tconfig]. intros E. change (has (tconfig tm .& ~. TN_VAL_SET) TN_32MODE = true) in E.
    rewrite has_clear_other in E by done. by apply H5.
Qed.

(** A write to a half of the comparator: the upper one is only reached in 64-bit mode. *)
Definition wf_at (i : nat) (b : bool) (s : t) : Prop :=
  wf s /\ forall tm, timers s !! i = Some tm -> has (tconfig tm) TN_32MODE = b.

Lemma on_timer_wf_at i b f :
  (forall tm, has (tconfig tm) TN_32MODE = b -> timer_wf tm -> timer_wf (f tm) /\ has (tconfig (f tm)) TN_32MODE = b) ->
  preserves (wf_at i b) (on_timer i f).
Proof.
  intros H. apply preserves_modify. intros s [[H1 H2 H3] H4]. split.
  - split; [done|done|]. cbn -[alter]. apply Forall_alter; [done|]. intros tm Ht Hw. apply H; [by apply H4|done].
  - cbn -[alter]. intros tm. rewrite list_lookup_alter_eq. destruct (timers s !! i) as [tm'|] eqn:E; [|done].
    intros [= <-]. apply H; [by apply H4|]. rewrite Forall_forall in H3. eapply H3, list_elem_of_lookup_2, E.
Qed.

Lemma write_comparator_wf i high value c : uint32 value -> preserves wf (write_comparator i high value c).
Proof.
  intros Hv s Hs. unfold write_comparator. rewrite exec_get. cbv zeta.
  set (cfg := tconfig (timer_at s i)). destruct (high && has cfg TN_32MODE) eqn:Eh; [done|].
  assert (wf_at i (has cfg TN_32MODE) s) as Hat.
  { split; [done|]. intros tm E. unfold cfg, timer_at. by rewrite E. }
  enough (preserves (wf_at i (has cfg TN_32MODE)) (
    when (negb (has cfg TN_TYPE_PERIODIC) || has cfg TN_VAL_SET)
      (on_timer i (fun tm => tm <| comparator := set_half high value (comparator tm) |>)) ;;;
    when (has cfg TN_TYPE_PERIODIC)
      (on_timer i (fun tm => tm <| period := set_half high value (period tm) |>)) ;;;
    when (high || has cfg TN_32MODE)
      (on_timer i (fun tm => tm <| tconfig := tconfig tm .& ~. TN_VAL_SET |>)))) as H.
  { assert (forall (m1 m2 m3 m4 : M t unit) s, exec (m1 ;;; m2 ;;; m3 ;;; m4) s = exec m4 (exec (m1 ;;; m2 ;;; m3) s)) as E by done.
    rewrite E. apply arm_wf, H, Hat. }
  clearbody cfg. apply preserves_bind; [|intros _; apply preserves_bind; [|intros _]]; apply preserves_when, on_timer_wf_at.
  all: intros tm E Hw; split; [|try done].
  - destruct Hw as [H1 H2 H3 H4 H5]. split; [done|by apply set_half_pair|done|done|].
    intros E32. change (has (tconfig tm) TN_32MODE = true) in E32. rewrite <- E, E32 in Eh. destruct high; [done|].
    by apply H5.
  - destruct Hw as [H1 H2 H3 H4 H5]. split; [done|done|by apply set_half_pair|done|].
    intros E32. change (has (tconfig tm) TN_32MODE = true) in E32. rewrite <- E, E32 in Eh. destruct high; [done|].
    by apply H5.
  - by apply clear_val_set_wf.
  - change (has (tconfig tm .& ~. TN_VAL_SET) TN_32MODE = has cfg TN_32MODE). by rewrite has_clear_other.
Qed.

Lemma mfor3_wf f : (forall i, (i < 3)%nat -> preserves wf (f i)) -> preserves wf (mfor [0; 1; 2]%nat f).
Proof. intros H. cbn [mfor]. repeat (apply preserves_bind; [apply H; lia|intros _]). apply preserves_skip. Qed.

Lemma write_gen_conf_wf value c now : preserves wf (write_gen_conf value c now).
Proof.
  unfold write_gen_conf. apply preserves_get. intros s0 Hs0. cbv zeta.
  set (new := value .& _). generalize (config s0). intros old. revert s0 Hs0.
  apply preserves_bind; [|intros _; apply preserves_bind; [|intros _]].
  - apply preserves_modify. intros s [H1 H2 H3]. split; [|done|done]. cbn.
    unfold new, ENABLE_CNF, LEG_RT_CNF. change (1 .| 2) with 3.
    pose proof (land_nonneg_r value 3). lia.
  - apply preserves_when, preserves_bind; [apply preserves_modify; by intros s []|intros _].
    apply mfor3_wf. intros. apply arm_wf.
  - apply preserves_when. repeat (apply preserves_bind; [apply set_line_wf || apply preserves_emit || apply update_level_wf|intros _]).
    apply update_level_wf.
Qed.

Lemma write32_wf offset value now : preserves wf (write32 offset value now).
Proof.
  unfold write32. apply preserves_get. intros s0 Hs0. cbv zeta. generalize (counter now s0). intros c. revert s0 Hs0.
  destruct (timer_index _) as [i|] eqn:Ei.
  - apply preserves_if; [|apply preserves_if; [|apply preserves_if]].
    + apply preserves_when, write_conf_wf.
    + apply write_comparator_wf, u32_uint32.
    + apply on_timer_wf. intros tm [H1 H2 H3 [H4 H5] H6].
      destruct (has _ 4); (split; [done..|split; first [done|apply u32_uint32]|done]).
    + apply preserves_skip.
  - apply preserves_if; [|apply preserves_if; [|apply preserves_if]].
    + apply preserves_when, write_gen_conf_wf.
    + apply preserves_when, preserves_bind; [|intros _; apply mfor3_wf; intros; apply update_level_wf].
      apply preserves_modify. intros s [H1 H2 H3]. split; [done| |done]. cbn.
      pose proof (land_nonneg_l (isr s) (~. u32 value)). lia.
    + unfold write_counter. apply preserves_get. intros s Hs. destruct (negb _); [|done]. by destruct Hs.
    + apply preserves_skip.
Qed.

Lemma reset_wf : preserves wf reset.
Proof.
  unfold reset. apply preserves_bind; [apply mfor3_wf; intros; apply set_line_wf|intros _].
  apply preserves_modify. intros s _. split; cbn; [lia|lia|]. apply Forall_fmap, Forall_true. intros tm.
  by split.
Qed.

Lemma service_wf c i : (i < 3)%nat -> preserves wf (service c i).
Proof.
  intros Hi s Hs. unfold service. rewrite exec_get. destruct (deadline _) as [d|]; [|done].
  destruct (d <=? c) eqn:E; [|done]. unfold when. rewrite exec_bind. apply on_timer_wf; [|by apply fire_wf].
  intros tm. apply advance_wf. lia.
Qed.

(** Whatever the guest writes and whenever the timers expire, every register of the HPET keeps its type:
    the configuration has only its two defined bits, the status only the bits of the three timers,
    each timer's configuration only its writable bits, comparators, periods and messages are 32-bit
    halves, and a timer in 32-bit mode has no upper half of comparator or period. *)
Theorem hpet_wf (ops : list op) : wf (exec (run ops) create).
Proof.
  apply (preserves_mfor wf ops run_op).
  - intros [now|offset value now|addr value now|]; cbn [run_op].
    + apply preserves_bind; [|intros; apply preserves_skip]. unfold timer. apply preserves_get. intros s Hs.
      destruct (negb _); [done|]. cbv zeta. rewrite exec_bind.
      assert (wf (exec (mfor [0; 1; 2]%nat (service (counter now s))) s)) as H
        by (apply mfor3_wf; [intros; by apply service_wf|done]).
      exact H.
    + apply write32_wf.
    + unfold write8. apply preserves_get. intros s. apply write32_wf.
    + apply reset_wf.
  - apply reset_wf. split; cbn; [lia|lia|]. repeat constructor; done.
Qed.

(** ** The counter *)

Lemma has_xor_same x y : has (x .^ y) ENABLE_CNF = false <-> has y ENABLE_CNF = has x ENABLE_CNF.
Proof.
  change ENABLE_CNF with (2 ^ 0). rewrite !has_testbit by lia. rewrite Z.lxor_spec.
  by destruct (Z.testbit x 0), (Z.testbit y 0).
Qed.

(** What the counter depends on. *)
Definition time_base (s : t) : Z * Z * Q := (config s, counter_base s, base_time s).

Lemma counter_time_base now s s' : time_base s' = time_base s -> counter now s' = counter now s.
Proof. unfold time_base, counter. by intros [= -> -> ->]. Qed.

Lemma on_timer_base b i f : preserves (fun s => time_base s = b) (on_timer i f).
Proof. by apply preserves_modify. Qed.

Lemma set_line_base b i level : preserves (fun s => time_base s = b) (set_line i level).
Proof. intros s Hs. destruct level; [by rewrite set_line_true_exec|by rewrite set_line_false_exec]. Qed.

Lemma update_level_base b i : preserves (fun s => time_base s = b) (update_level i).
Proof. intros s Hs. by rewrite update_level_exec. Qed.

Lemma arm_base b i c : preserves (fun s => time_base s = b) (arm i c).
Proof. intros s Hs. unfold arm. rewrite exec_get. cbv zeta. by destruct (negb _). Qed.

Ltac base_step :=
  repeat (intros; lazymatch goal with
    | |- preserves _ (bind _ _) => apply preserves_bind
    | |- preserves _ (when _ _) => apply preserves_when
    | |- preserves _ (mfor _ _) => apply preserves_mfor
    | |- preserves _ (set_line _ _) => apply set_line_base
    | |- preserves _ (update_level _) => apply update_level_base
    | |- preserves _ (arm _ _) => apply arm_base
    | |- preserves _ (on_timer _ _) => apply on_timer_base
    | |- preserves _ (emit _) => apply preserves_emit
    | |- preserves _ skip => apply preserves_skip
    end).

Lemma fire_base b i : preserves (fun s => time_base s = b) (fire i).
Proof.
  unfold fire. apply preserves_get. intros s Hs. cbv zeta. destruct (negb _); [done|]. destruct (_ && _).
  - rewrite exec_modify. by apply set_line_base.
  - rewrite exec_bind. by do 2 apply set_line_base.
Qed.

Lemma timer_base b now : preserves (fun s => time_base s = b) (timer now ;;; skip).
Proof.
  intros s Hs. rewrite exec_bind. unfold timer. rewrite exec_get. destruct (negb _); [done|]. cbv zeta.
  rewrite exec_bind. generalize (counter now s). intros c.
  apply (preserves_mfor (fun s => time_base s = b) [0; 1; 2]%nat (service c)); [|done].
  intros i s1 Hs1. unfold service. rewrite exec_get. destruct (deadline _) as [d|]; [|done].
  destruct (d <=? c); [|done]. unfold when. rewrite exec_bind. by apply on_timer_base, fire_base.
Qed.

(** The state after a write to the general configuration register, up to the lines. *)
Lemma write_gen_conf_base value c now s :
  time_base (exec (write_gen_conf value c now) s)
  = let new := value .& (ENABLE_CNF .| LEG_RT_CNF) in
    if has (config s .^ new) ENABLE_CNF then (new, c, now) else (new, counter_base s, base_time s).
Proof.
  unfold write_gen_conf. rewrite exec_get. cbv zeta. rewrite exec_modify, exec_bind.
  set (new := value .& _).
  assert (forall b s1, time_base s1 = b -> time_base (exec (when (has (config s .^ new) LEG_RT_CNF)
    (set_line 0 false ;;; set_line 1 false ;;; emit (DeviceLowerIrq 0) ;;; emit (DeviceLowerIrq 8) ;;;
     update_level 0 ;;; update_level 1)) s1) = b) as H.
  { intros b. change (preserves (fun s1 => time_base s1 = b) (when (has (config s .^ new) LEG_RT_CNF)
    (set_line 0 false ;;; set_line 1 false ;;; emit (DeviceLowerIrq 0) ;;; emit (DeviceLowerIrq 8) ;;;
     update_level 0 ;;; update_level 1))). base_step. }
  apply H. destruct (has (config s .^ new) ENABLE_CNF); [|done]. unfold when. rewrite exec_modify.
  apply (preserves_mfor (fun s1 => time_base s1 = (new, c, now)) [0; 1; 2]%nat (fun i => arm i c)); [|done].
  intros i. apply arm_base.
Qed.

Lemma counter_at_base (s : t) c now new :
  time_base s = (new, c, now) -> (has new ENABLE_CNF = true -> dbl c = c) -> counter now s = c.
Proof.
  unfold time_base, counter. intros [= -> -> ->] Hc. destruct (has _ _) eqn:E; [|done].
  assert (Qfloor (fmul (fsub now now) TICKS_PER_MS) = 0) as ->; [|by rewrite Z.add_0_r; apply Hc].
  assert (fsub now now = 0%Q) as -> by (apply rnd_sign; ring).
  assert (fmul 0 TICKS_PER_MS = 0%Q) as -> by (apply rnd_sign; ring). done.
Qed.

Lemma write32_base offset value now s :
  (u32 offset .& ~. 4 = GEN_CONF -> has (u32 offset) 4 = true) ->
  u32 offset .& ~. 4 <> MAIN_CNT \/ has (config s) ENABLE_CNF = true ->
  time_base (exec (write32 offset value now) s) = time_base s.
Proof.
  intros Hg Hm. unfold write32. rewrite exec_get. cbv zeta. generalize (counter now s). intros c.
  destruct (timer_index _) as [i|].
  - assert (forall b, preserves (fun s => time_base s = b) (
      if (u32 offset .& (TIMER_STRIDE - 1)) .& ~. 4 =? TN_CONF then when (negb (has (u32 offset) 4)) (write_conf i (u32 value) c)
      else if (u32 offset .& (TIMER_STRIDE - 1)) .& ~. 4 =? TN_COMPARATOR then write_comparator i (has (u32 offset) 4) (u32 value) c
      else if (u32 offset .& (TIMER_STRIDE - 1)) .& ~. 4 =? TN_FSB_ROUTE then
        on_timer i (fun tm => if has (u32 offset) 4 then tm <| fsb_address := u32 value |> else tm <| fsb_value := u32 value |>)
      else skip)) as H.
    { intros b. apply preserves_if; [|apply preserves_if; [|apply preserves_if]].
      - unfold write_conf. base_step.
      - unfold write_comparator. apply preserves_get. intros s1 Hs1. cbv zeta. destruct (_ && _); [done|].
        generalize (tconfig (timer_at s1 i)). intros cfg. revert s1 Hs1.
        match goal with |- forall s, _ -> time_base (exec ?m s) = _ =>
          enough (preserves (fun s => time_base s = b) m) as H by exact H end. base_step.
      - base_step.
      - base_step. }
    by apply H.
  - destruct (_ =? GEN_CONF) eqn:E1.
    { apply Z.eqb_eq in E1. by rewrite Hg. }
    destruct (_ =? GINTR_STA) eqn:E2.
    { destruct (negb _); [|done]. unfold when. rewrite exec_modify.
      apply (preserves_mfor (fun s1 => time_base s1 = time_base s) [0; 1; 2]%nat update_level); [|done].
      intros i. apply update_level_base. }
    destruct (_ =? MAIN_CNT) eqn:E3; [|done]. apply Z.eqb_eq in E3.
    unfold write_counter. rewrite exec_get. destruct Hm as [Hm|Hm]; [done|]. by rewrite Hm.
Qed.

Lemma timer_index_low offset : u32 offset .& ~. 4 < TIMER_BASE - 4 -> timer_index (u32 offset) = None.
Proof.
  intros H. assert (u32 offset = (u32 offset .& ~. 4) + (u32 offset .& 4)) as E.
  { rewrite <- lor_disjoint.
    - zbits i. by destruct (Z.testbit (u32 offset) i), (Z.testbit 4 i).
    - zbits i. by destruct (Z.testbit (u32 offset) i), (Z.testbit 4 i). }
  pose proof (land_nonneg_r (u32 offset) 4). unfold timer_index, TIMER_BASE in *.
  destruct (256 <=? u32 offset) eqn:El; [apply Z.leb_le in El; lia|done].
Qed.

(** Only a write to the general configuration register changes the configuration. *)
Lemma write32_config offset value now s :
  (u32 offset .& ~. 4 = GEN_CONF -> has (u32 offset) 4 = true) ->
  config (exec (write32 offset value now) s) = config s.
Proof.
  intros Hg. destruct (decide (u32 offset .& ~. 4 = MAIN_CNT)) as [E|E].
  - unfold write32. rewrite exec_get. cbv zeta. rewrite timer_index_low by (rewrite E; done).
    rewrite E. change (config (exec (write_counter (has (u32 offset) 4) (u32 value)) s) = config s). unfold write_counter. rewrite exec_get. by destruct (negb (has (config s) ENABLE_CNF)).
  - pose proof (write32_base offset value now s Hg (or_introl E)) as H. by injection H.
Qed.

(** No register write makes the running counter jump: a write to any register other than the counter
    (and, while the counter runs, to the counter as well, which ignores it) leaves the value the counter
    has at that moment, also when the write starts or stops it; and as long as it neither starts nor
    stops it, the values at every other moment too. The base the counter counts from is a double,
    as the field that holds it is. *)
Theorem hpet_counter offset value now s :
  dbl (counter_base s) = counter_base s ->
  u32 offset .& ~. 4 <> MAIN_CNT \/ has (config s) ENABLE_CNF = true ->
  let s' := exec (write32 offset value now) s in
  counter now s' = counter now s /\
  (has (config s') ENABLE_CNF = has (config s) ENABLE_CNF -> forall later, counter later s' = counter later s).
Proof.
  intros Hd Hm s'. destruct (decide (u32 offset .& ~. 4 = GEN_CONF /\ has (u32 offset) 4 = false)) as [[E1 E2]|HE].
  - assert (time_base s' = let new := u32 value .& (ENABLE_CNF .| LEG_RT_CNF) in
      if has (config s .^ new) ENABLE_CNF then (new, counter now s, now) else (new, counter_base s, base_time s)) as Hb.
    { rewrite <- write_gen_conf_base. f_equal. unfold s', write32. rewrite exec_get. cbv zeta. rewrite E1, E2.
      by rewrite timer_index_low by (rewrite E1; done). }
    destruct (has (config s .^ (u32 value .& (ENABLE_CNF .| LEG_RT_CNF))) ENABLE_CNF) eqn:Ex; cbv zeta in Hb;
      rewrite Ex in Hb.
    + split.
      { eapply counter_at_base; [exact Hb|]. intros Hn. unfold counter.
        destruct (has (config s) ENABLE_CNF) eqn:Eo; [|done].
        exfalso. assert (has (u32 value .& (ENABLE_CNF .| LEG_RT_CNF)) ENABLE_CNF = has (config s) ENABLE_CNF) as E by congruence.
        apply has_xor_same in E. congruence. }
      intros E. exfalso.
      injection Hb as Hc _ _. rewrite Hc in E. rewrite <- has_xor_same in E. congruence.
    + injection Hb as Hc Hb1 Hb2. assert (has (config s') ENABLE_CNF = has (config s) ENABLE_CNF) as E.
      { rewrite Hc. by apply has_xor_same. }
      assert (forall later, counter later s' = counter later s) as H.
      { intros later. unfold counter. by rewrite E, Hb1, Hb2. }
      split; [apply H|done].
  - assert (time_base s' = time_base s) as Hb.
    { apply write32_base; [|done]. intros E. destruct (has (u32 offset) 4) eqn:E4; [done|]. exfalso. by apply HE. }
    split; [by apply counter_time_base|]. intros _ later. by apply counter_time_base.
Qed.

(** ** Deadlines *)

Lemma width_pos tm : 0 < width tm <= 2 ^ 64.
Proof. unfold width. destruct (has _ _); lia. Qed.

Lemma timer_at_wf s i : wf s -> timer_wf (timer_at s i).
Proof.
  intros [_ _ H]. unfold timer_at. destruct (timers s !! i) as [tm|] eqn:E; cbn.
  - rewrite Forall_forall in H. eapply H, list_elem_of_lookup_2, E.
  - by split.
Qed.

(** The exact number in two halves. *)
Definition halves (p : Z * Z) : Z := p.2 * 2 ^ 32 + p.1.

(** An armed timer matches the next time the counter reaches its comparator, in the arithmetic of doubles the code
    uses: from a state with well-typed registers and a running counter at [c] below 2^53, for a timer in 32-bit mode whose next
    revolution ends below 2^53 the deadline lies less than one revolution ahead of the count, and the counter's low
    half then shows the comparator; a 64-bit timer whose comparator is not behind the count and not above 2^53 gets
    exactly the comparator as its deadline; and one whose comparator is behind or larger, where doubles round, gets one
    that is not below 2^53 (twenty years of counting). *)
Theorem hpet_deadline s i c :
  wf s -> length (timers s) = 3%nat -> (i < 3)%nat -> 0 <= c <= 2 ^ 53 -> has (config s) ENABLE_CNF = true ->
  let v := halves (comparator (timer_at s i)) in
  exists d, deadline (timer_at (exec (arm i c) s) i) = Some d
    /\ if has (tconfig (timer_at s i)) TN_32MODE then c + 2 ^ 32 <= 2 ^ 53 -> c <= d < c + 2 ^ 32 /\ d mod 2 ^ 32 = v
       else if (c <=? v) && (v <=? 2 ^ 53) then d = v else 2 ^ 53 <= d.
Proof.
  intros Hw Hl Hi Hc He v. unfold arm. rewrite exec_get. cbv zeta. rewrite He. cbn [negb].
  unfold on_timer. rewrite exec_modify1, timer_at_alter, decide_True by (done || lia).
  pose proof (timer_at_wf s i Hw) as Ht. set (tm := timer_at s i) in *. clearbody tm. eexists. split; [reflexivity|].
  change (value64 (comparator tm)) with (dbl v).
  assert (0 <= v < 2 ^ 64) as Hv by (destruct Ht as [_ [[? ?] [? ?]] _ _ _]; unfold v, halves; lia).
  unfold width. destruct (has (tconfig tm) TN_32MODE) eqn:E32.
  - intros Hend. assert (v < 2 ^ 32) as Hv32.
    { destruct Ht as [_ [[? ?] _] _ _ H5]. destruct (H5 E32) as [E _]. unfold v, halves. rewrite E. lia. }
    rewrite Z.rem_mod_nonneg by lia. pose proof (Z.mod_pos_bound c (2 ^ 32) ltac:(lia)) as Hm. pose proof (Z.div_mod c (2 ^ 32) ltac:(lia)) as Hd.
    rewrite (dbl_exact v), (dbl_exact (v - _)) by lia.
    destruct (v - c mod 2 ^ 32 <? 0) eqn:E; [apply Z.ltb_lt in E|apply Z.ltb_ge in E].
    + rewrite (dbl_exact (_ + 2 ^ 32)), dbl_exact by lia. split; [lia|]. symmetry. apply (Z.mod_unique _ _ (c / 2 ^ 32 + 1)); lia.
    + rewrite dbl_exact by lia. split; [lia|]. symmetry. apply (Z.mod_unique _ _ (c / 2 ^ 32)); lia.
  - rewrite Z.rem_small by lia. destruct ((c <=? v) && (v <=? 2 ^ 53)) eqn:E.
    + apply andb_true_iff in E as [E1%Z.leb_le E2%Z.leb_le]. rewrite (dbl_exact v), (dbl_exact (v - c)) by lia.
      rewrite (proj2 (Z.ltb_ge _ _)), dbl_exact by lia. lia.
    + assert (forall x, 2 ^ 53 <= x -> 2 ^ 53 <= dbl x) as Hbig by (intros x Hx; rewrite <- (dbl_exact (2 ^ 53)) by lia; by apply dbl_mono).
      destruct (Z.leb_spec c v) as [H1|H1].
      * cbn [andb] in E. apply Z.leb_gt in E. pose proof (Hbig v ltac:(lia)) as Hdv.
        pose proof (dbl_mono (2 ^ 53 - c) (dbl v - c) ltac:(lia)) as Hdd. rewrite (dbl_exact (2 ^ 53 - c)) in Hdd by lia.
        rewrite (proj2 (Z.ltb_ge _ _)) by lia. apply Hbig. lia.
      * rewrite (dbl_exact v), (dbl_exact (v - c)), (proj2 (Z.ltb_lt _ _)) by lia. apply Hbig. pose proof (Hbig (v - c + 2 ^ 64) ltac:(lia)). lia.
Qed.

Lemma fire_timer i s j :
  length (timers s) = 3%nat -> (i < 3)%nat ->
  exists o, timer_at (exec (fire i) s) j = (timer_at s j) <| line := o |>.
Proof.
  intros Hl Hi. unfold fire. rewrite exec_get. cbv zeta.
  assert (forall tm, tm = tm <| line := line tm |>) as Hid by (by intros []).
  assert (forall o s1, exists o', timer_at (with_line i o s1) j = (timer_at s1 j) <| line := o' |>) as Hwl.
  { intros o s1. rewrite with_line_timer. destruct (decide (j = i)); eexists; [done|apply Hid]. }
  destruct (negb _); [eexists; apply Hid|]. destruct (_ && _).
  - rewrite exec_modify, set_line_true_exec.
    set (s1 := s <| isr := isr s .| (1 .<< Z.of_nat i) |>). change (timer_at s j) with (timer_at s1 j). apply Hwl.
  - rewrite exec_bind, set_line_true_exec, set_line_false_exec, with_line_twice. apply Hwl.
Qed.

Lemma fire_len i s : length (timers (exec (fire i) s)) = length (timers s).
Proof.
  unfold fire. rewrite exec_get. cbv zeta. destruct (negb _); [done|]. destruct (_ && _).
  - by rewrite exec_modify, set_line_true_exec, with_line_len.
  - by rewrite exec_bind, set_line_true_exec, set_line_false_exec, !with_line_len.
Qed.

End hpet.

Definition demo_ops : list op :=
  [Write32 0x100 0x284e 0; Write32 0x108 100 0; Write32 0x10C 0 0; Write32 0x10 1 0; Timer 1].
Definition demo : t := exec (run false demo_ops) (create false).

(** A one-shot timer of 64 bits at 100. *)
Definition demo64 : t := exec (run false [Write32 0x100 0x2804 0; Write32 0x108 100 0; Write32 0x10C 0 0; Write32 0x10 1 0]) (create false).

(** At 1 ms the level-triggered, periodic timer 0 of the demonstration asserts I/O APIC input 20. *)
Lemma hpet_lines_witness :
  active (exec (run false demo_ops) (create false)) 0 = true /\
  route (exec (run false demo_ops) (create false)) 0 = Some (-1, 20) /\
  asserted (fold_left see (evs (run false demo_ops) (create false)) (mk_levels false false ∅)) 0 (-1, 20).
Proof.
  assert (active (exec (run false demo_ops) (create false)) 0 = true) as Ha by (vm_compute; reflexivity).
  assert (route (exec (run false demo_ops) (create false)) 0 = Some (-1, 20)) as Hr by (vm_compute; reflexivity).
  split; [exact Ha|]. split; [exact Hr|].
  exact (proj2 (proj2 (hpet_lines false demo_ops 0%nat (Nat.lt_0_succ 2)) (-1, 20) Ha Hr (-1, 20)) eq_refl).
Defined.

Lemma hpet_counter_witness :
  counter 2 (exec (write32 false 0x10 0 2) demo) = counter 2 demo /\ counter 2 demo = 28636.
Proof.
  assert (has (config demo) ENABLE_CNF = true) as H by (vm_compute; reflexivity).
  assert (dbl (counter_base demo) = counter_base demo) as Hd by (vm_compute; reflexivity).
  split; [exact (proj1 (hpet_counter false 0x10 0 2 demo Hd (or_intror H)))|vm_compute; reflexivity].
Defined.

(** The comparator is at 100: armed at 50 and, too late, at 101. *)
Lemma hpet_deadline_witness :
  deadline (timer_at (exec (arm 0 50) demo64) 0) = Some 100 /\ exists d, deadline (timer_at (exec (arm 0 101) demo64) 0) = Some d /\ 2 ^ 53 <= d.
Proof.
  assert (wf demo64) as Hw by apply hpet_wf.
  assert (has (config demo64) ENABLE_CNF = true) as He by (vm_compute; reflexivity).
  assert (halves (comparator (timer_at demo64 0)) = 100 /\ has (tconfig (timer_at demo64 0)) TN_32MODE = false) as [Hv H32] by (vm_compute; done).
  destruct (hpet_deadline demo64 0 50) as (d & H1 & H2); [exact Hw|vm_compute; reflexivity|lia|lia|exact He|].
  destruct (hpet_deadline demo64 0 101) as (d' & H3 & H4); [exact Hw|vm_compute; reflexivity|lia|lia|exact He|].
  rewrite H32, Hv in H2, H4. split; [rewrite H1, H2; reflexivity|]. exists d'. split; [exact H3|exact H4].
Defined.

End Hpet.
