(* ===== verification/Timers.v ===== *)
(** * The timers together ([pit.js], [rtc.js], [hpet.js] and [run_hardware_timers] of [cpu.js])

    The interval timer, the clock and the HPET share IRQ 0 and IRQ 8: the first
    two ask the HPET, if there is one, whether its legacy replacement route took
    the line before they drive it.  The state is the three devices; the interrupt
    controllers are what [Hpet.see] makes of all their effects. *)

From S2P Require Import Prelude Rat Pit Rtc Hpet.

Module Timers.

Record t := mk { pit : Pit.t; rtc : Rtc.t; hpet : option Hpet.t }.

Definition drives_irq0 (s : t) : bool :=
  match hpet s with Some h => negb (Hpet.legacy_replacement h) | None => true end.

Definition drives_irq8 (s : t) : bool :=
  match hpet s with Some h => negb (Hpet.legacy_replacement h) | None => true end.

Definition on_pit {A} (m : M Pit.t A) : M t A := fun s =>
  (res m (pit s), s <| pit := exec m (pit s) |>, evs m (pit s)).
Definition on_rtc {A} (m : M Rtc.t A) : M t A := fun s =>
  (res m (rtc s), s <| rtc := exec m (rtc s) |>, evs m (rtc s)).
Definition on_hpet {A} (absent : A) (m : M Hpet.t A) : M t A := fun s =>
  match hpet s with
  | Some h => (res m h, s <| hpet := Some (exec m h) |>, evs m h)
  | None => (absent, s, [])
  end.

Section timers.
Variable has_msi : bool.

(** [Math.min], with [None] for NaN. *)
Definition math_min (a b : option Q) : option Q :=
  x ← a; y ← b; Some (if Qle_bool x y then x else y).

(** The times of the display, the power management and the local APIC are arguments. *)
Definition run_hardware_timers (acpi_enabled : bool) (now display_time acpi_time apic_time : Q) : M t (option Q) :=
  s <-- get ;;
  pit_time <-- on_pit (Pit.timer (drives_irq0 s) false now) ;;
  s <-- get ;;
  rtc_time <-- on_rtc (Rtc.timer (drives_irq8 s) now) ;;
  hpet_time <-- on_hpet 100%Q (Hpet.timer has_msi now) ;;
  let acpi_time := if acpi_enabled then acpi_time else 100%Q in
  let apic_time := if acpi_enabled then apic_time else 100%Q in
  ret (foldl math_min pit_time [Some rtc_time; Some display_time; Some hpet_time; Some acpi_time; Some apic_time]).

Inductive op :=
| HardwareTimers (acpi_enabled : bool) (now display_time acpi_time apic_time : Q)
| PitControl (reg_byte : Z) (now : Q)
| PitCounterWrite (i value : Z) (now : Q)
| PitCounterRead (i : Z) (now : Q)
| RtcIndex (data : Z)
| RtcWrite (data : Z) (now : Q)
| RtcRead (now : Q)
| HpetOp (o : Hpet.op).

Definition run_op (o : op) : M t unit :=
  s <-- get ;;
  match o with
  | HardwareTimers acpi now display_time acpi_time apic_time =>
      run_hardware_timers acpi now display_time acpi_time apic_time ;;; skip
  | PitControl reg_byte now => on_pit (Pit.port43_write (drives_irq0 s) reg_byte now)
  | PitCounterWrite i value now => on_pit (Pit.counter_write i value now)
  | PitCounterRead i now => on_pit (Pit.counter_read i now) ;;; skip
  | RtcIndex data => on_rtc (Rtc.port70_write data)
  | RtcWrite data now => on_rtc (Rtc.cmos_port_write data now)
  | RtcRead now => on_rtc (Rtc.cmos_port_read (drives_irq8 s) now) ;;; skip
  | HpetOp o => on_hpet tt (Hpet.run_op has_msi o)
  end.

Definition run (ops : list op) : M t unit := mfor ops run_op.

(** ** Who drives IRQ 0 and IRQ 8 *)

Definition legacy_event (e : event) : bool :=
  match e with DeviceRaiseIrq n | DeviceLowerIrq n => (n =? 0) || (n =? 8) | _ => false end.

(** A method without effect on the two lines. *)
Definition quiet {S A} (m : M S A) : Prop := forall s, Forall (fun e => legacy_event e = false) (evs m s).

Lemma quiet_bind {S A B} (m : M S A) (k : A -> M S B) : quiet m -> (forall a, quiet (k a)) -> quiet (bind m k).
Proof. intros H1 H2 s. rewrite evs_bind. apply Forall_app. split; [apply H1|apply H2]. Qed.
Lemma quiet_none {S A} (m : M S A) : (forall s, evs m s = []) -> quiet m.
Proof. intros H s. by rewrite H. Qed.
Lemma quiet_when {S} b (m : M S unit) : (b = true -> quiet m) -> quiet (when b m).
Proof. intros H. destruct b; [by apply H|by apply quiet_none]. Qed.
Lemma quiet_emit {S} e : legacy_event e = false -> quiet (emit e : M S unit).
Proof. intros H s. by constructor. Qed.

Ltac quiet_step :=
  repeat (intros; cbv zeta; lazymatch goal with
    | |- quiet (bind _ _) => apply quiet_bind
    | |- quiet (when _ _) => apply quiet_when
    | |- quiet (emit _) => apply quiet_emit; try reflexivity
    | |- quiet (if ?b then _ else _) => destruct b
    | |- quiet (match ?x with _ => _ end) => destruct x
    | |- quiet _ => apply quiet_none; reflexivity
    end).

Lemma pit_timer_quiet no_irq now : quiet (Pit.timer false no_irq now).
Proof. unfold Pit.timer. quiet_step. all: discriminate. Qed.

Lemma pit_control_quiet reg_byte now : quiet (Pit.port43_write false reg_byte now).
Proof. unfold Pit.port43_write, Pit.speaker_update. quiet_step. all: try (by rewrite andb_false_r in * ). Qed.

Lemma rtc_timer_quiet now : quiet (Rtc.timer false now).
Proof.
  unfold Rtc.timer, Rtc.update_time, Rtc.timer_periodic, Rtc.timer_alarm, Rtc.timer_update, Rtc.raise_irq. quiet_step.
  all: discriminate.
Qed.

Lemma rtc_read_quiet now : quiet (Rtc.cmos_port_read false now).
Proof. unfold Rtc.cmos_port_read, Rtc.update_time. quiet_step. all: discriminate. Qed.

Lemma pit_counter_quiet i value now : quiet (Pit.counter_write i value now) /\ quiet (Pit.counter_read i now).
Proof. unfold Pit.counter_write, Pit.counter_read. split; quiet_step. Qed.

Lemma rtc_write_quiet data now : quiet (Rtc.cmos_port_write data now) /\ quiet (Rtc.port70_write data).
Proof. unfold Rtc.cmos_port_write, Rtc.update_time, Rtc.write_b, Rtc.cmos_write. split; quiet_step. Qed.

(** The levels of the two lines. *)
Definition lev (g : Hpet.levels) : bool * bool := (Hpet.irq0 g, Hpet.irq8 g).

Lemma see_lev g g' e : lev g = lev g' -> lev (Hpet.see g e) = lev (Hpet.see g' e).
Proof.
  intros H. injection H as H1 H2. destruct e; cbn; try (unfold lev; cbn; congruence).
  all: destruct (irq =? 0); [|destruct (irq =? 8)]; unfold lev; cbn; congruence.
Qed.

Lemma fold_lev es g g' : lev g = lev g' -> lev (fold_left Hpet.see es g) = lev (fold_left Hpet.see es g').
Proof. revert g g'. induction es as [|e es IH]; intros g g' H; [done|]. by apply IH, see_lev. Qed.

Lemma fold_quiet es g : Forall (fun e => legacy_event e = false) es -> lev (fold_left Hpet.see es g) = lev g.
Proof.
  revert g. induction es as [|e es IH]; intros g H; [done|]. apply Forall_cons in H as [He H].
  cbn. rewrite IH by done. destruct e; cbn in *; try done.
  all: apply orb_false_iff in He as [-> ->]; done.
Qed.

(** After the lines were lowered, their levels no longer depend on the past. *)
Lemma fold_forget es g g' :
  DeviceLowerIrq 0 ∈ es -> DeviceLowerIrq 8 ∈ es ->
  lev (fold_left Hpet.see es g) = lev (fold_left Hpet.see es g').
Proof.
  assert (forall es g g', (Hpet.irq0 g = Hpet.irq0 g' \/ DeviceLowerIrq 0 ∈ es) ->
    (Hpet.irq8 g = Hpet.irq8 g' \/ DeviceLowerIrq 8 ∈ es) ->
    lev (fold_left Hpet.see es g) = lev (fold_left Hpet.see es g')) as H; [|intros; apply H; auto].
  clear. intros es. induction es as [|e es IH]; intros g g' H0 H8.
  - destruct H0 as [H0|H0%elem_of_nil]; [|done]. destruct H8 as [H8|H8%elem_of_nil]; [|done]. unfold lev. cbn. congruence.
  - cbn. apply IH.
    + destruct H0 as [H0|[E|H0]%elem_of_cons]; [left|subst e; left; reflexivity|by right].
      destruct e; cbn; try done; destruct (irq =? 0); [|destruct (irq =? 8)|..|destruct (irq =? 8)]; done.
    + destruct H8 as [H8|[E|H8]%elem_of_cons]; [left|subst e; left; reflexivity|by right].
      destruct e; cbn; try done; destruct (irq =? 0); [|destruct (irq =? 8)|..|destruct (irq =? 8)]; done.
Qed.

(** The legacy replacement route is only switched by a write to the general
    configuration register, which lowers both lines. *)
Lemma write32_switch offset value now h :
  Hpet.legacy_replacement h = false -> Hpet.legacy_replacement (exec (Hpet.write32 has_msi offset value now) h) = true ->
  DeviceLowerIrq 0 ∈ evs (Hpet.write32 has_msi offset value now) h
  /\ DeviceLowerIrq 8 ∈ evs (Hpet.write32 has_msi offset value now) h.
Proof.
  intros H1 H2. unfold Hpet.legacy_replacement in *.
  destruct (decide (u32 offset .& ~. 4 = Hpet.GEN_CONF /\ has (u32 offset) 4 = false)) as [[E1 E2]|HE].
  - assert (evs (Hpet.write32 has_msi offset value now) h
      = evs (Hpet.write_gen_conf has_msi (u32 value) (Hpet.counter now h) now) h
      /\ exec (Hpet.write32 has_msi offset value now) h
      = exec (Hpet.write_gen_conf has_msi (u32 value) (Hpet.counter now h) now) h) as [-> E].
    { unfold Hpet.write32, evs, exec. rewrite bind_get. cbv zeta. rewrite Hpet.timer_index_low by (rewrite E1; done).
      by rewrite E1, E2. }
    rewrite E in H2. pose proof (Hpet.write_gen_conf_base has_msi (u32 value) (Hpet.counter now h) now h) as Hb.
    revert H2 Hb. generalize (Hpet.counter now h) as c. intros c H2 Hb.
    assert (has (Hpet.config h .^ (u32 value .& (Hpet.ENABLE_CNF .| Hpet.LEG_RT_CNF))) Hpet.LEG_RT_CNF = true) as Hx.
    { assert (has (u32 value .& (Hpet.ENABLE_CNF .| Hpet.LEG_RT_CNF)) Hpet.LEG_RT_CNF = true) as Hn.
      { rewrite <- H2. f_equal. symmetry. cbv zeta in Hb. destruct (has _ Hpet.ENABLE_CNF) in Hb; by injection Hb. }
      change Hpet.LEG_RT_CNF with (2 ^ 1) in *. rewrite has_testbit in * by lia. rewrite Z.lxor_spec, Hn, H1. done. }
    unfold Hpet.write_gen_conf, evs. rewrite bind_get. cbv zeta. rewrite bind_modify. rewrite Hx.
    match goal with |- context [(bind ?m ?k ?s).2] => change (bind m k s).2 with (evs (bind m k) s) end.
    rewrite !evs_bind. cbn [when]. rewrite !evs_bind.
    split; rewrite !elem_of_app; cbn [evs emit snd]; rewrite !list_elem_of_singleton; tauto.
  - rewrite Hpet.write32_config in H2; [congruence|]. intros E. destruct (has (u32 offset) 4) eqn:E4; [done|]. tauto.
Qed.

Lemma hpet_switch o h :
  Hpet.legacy_replacement h = false -> Hpet.legacy_replacement (exec (Hpet.run_op has_msi o) h) = true ->
  DeviceLowerIrq 0 ∈ evs (Hpet.run_op has_msi o) h /\ DeviceLowerIrq 8 ∈ evs (Hpet.run_op has_msi o) h.
Proof.
  intros H1 H2. destruct o as [now|offset value now|addr value now|]; cbn [Hpet.run_op] in *.
  - exfalso. pose proof (Hpet.timer_base has_msi (Hpet.time_base h) now h eq_refl) as Hb.
    unfold Hpet.legacy_replacement in *. injection Hb as Hc _ _. congruence.
  - by apply write32_switch.
  - unfold Hpet.write8, evs, exec in *. rewrite bind_get in *. by apply write32_switch.
  - exfalso. unfold Hpet.legacy_replacement, Hpet.reset in H2. rewrite exec_bind, exec_modify1 in H2. done.
Qed.

(** With the legacy route on, the two lines are what the HPET alone would make of them. *)
Definition inv (s : t) (g : Hpet.levels) : Prop :=
  match hpet s with
  | Some h => Hpet.ok_but [] h /\
      exists g0, Hpet.shows h g0 /\ (Hpet.legacy_replacement h = true -> lev g = lev g0)
  | None => True
  end.

Lemma inv_quiet {A} s g (m : M t A) :
  hpet (exec m s) = hpet s ->
  (drives_irq0 s = false -> Forall (fun e => legacy_event e = false) (evs m s)) ->
  inv s g -> inv (exec m s) (fold_left Hpet.see (evs m s) g).
Proof.
  unfold inv, drives_irq0. intros Hh Hq. rewrite Hh. destruct (hpet s) as [h|]; [|done].
  intros (Hok & g0 & Hs & Hl). split; [done|]. exists g0. split; [done|]. intros HL. rewrite fold_quiet; [by apply Hl|].
  apply Hq. by rewrite HL.
Qed.

Lemma inv_hpet o s g :
  inv s g -> inv (exec (on_hpet tt (Hpet.run_op has_msi o)) s)
                 (fold_left Hpet.see (evs (on_hpet tt (Hpet.run_op has_msi o)) s) g).
Proof.
  unfold inv, on_hpet, exec, evs. destruct (hpet s) as [h|] eqn:Eh; [|intros _; cbn; by rewrite Eh].
  intros (Hok & g0 & Hs & Hl). cbn [fst snd hpet]. split; [by apply Hpet.run_op_ok|].
  exists (fold_left Hpet.see (evs (Hpet.run_op has_msi o) h) g0). split; [by apply Hpet.run_op_shows|].
  intros HL. destruct (Hpet.legacy_replacement h) eqn:E.
  - by apply fold_lev, Hl.
  - destruct (hpet_switch o h E HL). by apply fold_forget.
Qed.

Lemma drives_same s : drives_irq8 s = drives_irq0 s.
Proof. done. Qed.

Lemma hpet_timer_events h now : evs (Hpet.timer has_msi now) h = evs (Hpet.run_op has_msi (Hpet.Timer now)) h.
Proof. cbn [Hpet.run_op]. rewrite evs_bind. symmetry. apply app_nil_r. Qed.

Lemma inv_bind {A B} (m : M t A) (k : A -> M t B) s g :
  inv (exec m s) (fold_left Hpet.see (evs m s) g) -> (forall a, ghoare Hpet.see inv (k a) inv) ->
  inv (exec (bind m k) s) (fold_left Hpet.see (evs (bind m k) s) g).
Proof. intros H Hk. rewrite exec_bind, evs_bind, fold_left_app. by apply Hk. Qed.

Lemma run_hardware_timers_inv acpi now d a p : ghoare Hpet.see inv (run_hardware_timers acpi now d a p) inv.
Proof.
  unfold run_hardware_timers. apply ghoare_get. intros s g H. apply inv_bind.
  { apply inv_quiet; [done| |done]. intros Hd. rewrite Hd. apply pit_timer_quiet. }
  clear s g H. intros r. apply ghoare_get. intros s g H. apply inv_bind.
  { apply inv_quiet; [done| |done]. intros Hd. rewrite drives_same, Hd. apply rtc_timer_quiet. }
  clear s g H. intros r'. apply ghoare_bind with (Q := inv); [|intros r''; apply ghoare_ret].
  intros s g H. apply (inv_hpet (Hpet.Timer now)) in H. revert H.
  unfold on_hpet, exec, evs. destruct (hpet s) as [h|]; [|done]. cbn [fst snd].
  pose proof (hpet_timer_events h now) as E. unfold evs in E. rewrite E. done.
Qed.

Lemma run_op_inv o : ghoare Hpet.see inv (run_op o) inv.
Proof.
  intros s g H. unfold run_op, exec, evs. rewrite bind_get. destruct o as [acpi now d a p|r now|i v now|i now|v|v now|now|o].
  - apply (inv_bind (run_hardware_timers acpi now d a p) (fun _ => skip)); [by apply run_hardware_timers_inv|].
    intros _. apply ghoare_skip.
  - apply (inv_quiet s g (on_pit (Pit.port43_write (drives_irq0 s) r now))); [done| |done].
    intros Hd. rewrite Hd. apply pit_control_quiet.
  - apply (inv_quiet s g (on_pit (Pit.counter_write i v now))); [done|intros _; apply pit_counter_quiet|done].
  - apply (inv_quiet s g (on_pit (Pit.counter_read i now) ;;; skip)); [done| |done].
    intros _. rewrite evs_bind. apply Forall_app. split; [by apply (pit_counter_quiet i 0)|done].
  - apply (inv_quiet s g (on_rtc (Rtc.port70_write v))); [done|intros _; by apply (rtc_write_quiet v 0)|done].
  - apply (inv_quiet s g (on_rtc (Rtc.cmos_port_write v now))); [done|intros _; apply rtc_write_quiet|done].
  - apply (inv_quiet s g (on_rtc (Rtc.cmos_port_read (drives_irq8 s) now) ;;; skip)); [done| |done].
    intros Hd. rewrite evs_bind. apply Forall_app. split; [|done]. rewrite drives_same, Hd. apply rtc_read_quiet.
  - by apply inv_hpet.
Qed.

(** C3: Who owns IRQ 0 and IRQ 8.  In a machine with interval timer, clock and HPET, after any interleaving of
    register accesses and timer runs from power-on: while the HPET's legacy replacement route is on,
    IRQ 0 is asserted exactly while the level-triggered interrupt of HPET timer 0 is active, and IRQ 8
    while that of timer 1 is, whatever the other two devices did, before the route was switched or
    after; nothing of theirs is left on the lines or gets through. *)
Theorem timers_legacy (ops : list op) wall now h :
  let s0 := mk Pit.create (Rtc.create wall now) (Some (Hpet.create has_msi)) in
  let g := fold_left Hpet.see (evs (run ops) s0) (Hpet.mk_levels false false ∅) in
  hpet (exec (run ops) s0) = Some h -> Hpet.legacy_replacement h = true ->
  Hpet.irq0 g = Hpet.active h 0 /\ Hpet.irq8 g = Hpet.active h 1.
Proof.
  intros s0 g Hh HL.
  assert (inv (exec (run ops) s0) g) as Hi.
  { apply (ghoare_mfor Hpet.see inv ops run_op run_op_inv). unfold inv. cbn.
    destruct (Hpet.create_ok has_msi). split; [done|]. exists (Hpet.mk_levels false false ∅). done. }
  unfold inv in Hi. rewrite Hh in Hi. destruct Hi as ([_ Hok] & g0 & Hs & Hl). specialize (Hl HL). injection Hl as -> ->.
  rewrite (Hpet.sh_irq0 _ _ Hs), (Hpet.sh_irq8 _ _ Hs).
  assert (forall i, (i < 2)%nat -> bool_decide (Hpet.line_of h i = Some (if (i =? 0)%nat then 0 else 8, -1)) = Hpet.active h i) as H.
  { intros i Hi. specialize (Hok i ltac:(lia) ltac:(set_solver)). unfold Hpet.line_ok in Hok.
    assert (Hpet.active h i = true -> Hpet.route h i = Some (if (i =? 0)%nat then 0 else 8, -1)) as Hr.
    { unfold Hpet.active, Hpet.route, Hpet.legacy_replacement in *. rewrite HL. destruct (Hpet.fsb h i); [by rewrite andb_false_r|].
      by rewrite (proj2 (Nat.ltb_lt i 2) Hi). }
    destruct (Hpet.active h i) eqn:Ea.
    - apply bool_decide_eq_true. specialize (Hr eq_refl). destruct (Hpet.line_of h i) as [l|]; [|rewrite Hok in Hr; done].
      destruct Hok as [_ [?|?]]; congruence.
    - apply bool_decide_eq_false. destruct (Hpet.line_of h i); [by destruct Hok|done]. }
  split; [apply (H 0%nat)|apply (H 1%nat)]; lia.
Qed.

End timers.

Definition demo_ops : list op :=
  [PitControl 0x34 0; PitCounterWrite 0 0xFF 0; PitCounterWrite 0 0xFF 0; HardwareTimers false 100 100 100 100;
   HpetOp (Hpet.Write32 0x100 0x4e 100); HpetOp (Hpet.Write32 0x108 100 100); HpetOp (Hpet.Write32 0x10C 0 100);
   HpetOp (Hpet.Write32 0x10 3 100); HardwareTimers false 101 100 100 100].
Definition demo_start : t := mk Pit.create (Rtc.create 0 0) (Some (Hpet.create false)).
Definition demo_hpet : Hpet.t := default (Hpet.create false) (hpet (exec (run false demo_ops) demo_start)).

Lemma timers_legacy_witness :
  Hpet.irq0 (fold_left Hpet.see (evs (run false demo_ops) demo_start) (Hpet.mk_levels false false ∅)) = Hpet.active demo_hpet 0
  /\ Hpet.active demo_hpet 0 = true.
Proof.
  assert (hpet (exec (run false demo_ops) demo_start) = Some demo_hpet) as H1 by (vm_compute; reflexivity).
  assert (Hpet.legacy_replacement demo_hpet = true) as H2 by (vm_compute; reflexivity).
  split; [exact (proj1 (timers_legacy false demo_ops 0 0 demo_hpet H1 H2))|vm_compute; reflexivity].
Defined.

End Timers.
