(* ===== verification/Phys.v ===== *)
(** * Guest memory as devices reach it (the physical accessors of [cpu.js])

    A device addresses 36 bits of physical memory.  The WebAssembly core decodes
    an address ([x64_phys_resolve], [x64_phys_kind]) and accesses it
    ([x64_phys_read8] ...); it is the class [Wasm], with what the accessors rely
    on in [WasmLaws].  [ram] is the content the guest sees: the byte at each
    physical address that is memory.  A [RangeError] is [None] (of [validate_physical_range],
    [false]).  Reading a device's registers may act on that device; [W] is the
    memory, which such a read does not change. *)

From S2P Require Import Prelude Dma.

Module Phys.

Definition PHYSICAL_LIMIT : Z := 0x1000000000.

Class Wasm (W : Type) := {
  x64_phys_resolve : W -> Z -> Z -> Z;
  x64_phys_kind : W -> Z -> Z -> Z;
  x64_phys_read : Z -> W -> Z -> Z -> Z;
  x64_phys_write : Z -> W -> Z -> Z -> Z -> option W;
  mem8_subarray : W -> Z -> Z -> list Z;
  mem8_set : W -> list Z -> Z -> W;
  jit_dirty_cache : W -> Z -> Z -> W;
  extended_read : W -> Z -> Z -> list Z;
  extended_write : W -> Z -> list Z -> W
}.

Section accessors.
Context {W : Type} `{Wasm W}.

(** The exports take an address as two 32-bit halves. *)
Definition resolve (w : W) (at_ : Z) : Z := x64_phys_resolve w (u32 at_) (at_ / 0x100000000).
Definition kind (w : W) (at_ : Z) : Z := x64_phys_kind w (u32 at_) (at_ / 0x100000000).

Definition is_safe_integer (z : Z) : bool := (- (2 ^ 53 - 1) <=? z) && (z <=? 2 ^ 53 - 1).

(** The loop over the pages of a range. *)
Fixpoint validate_pages (fuel : nat) (w : W) (at_ stop : Z) : option bool :=
  match fuel with
  | O => None
  | S fuel =>
      if at_ <? stop then
        let end_ := Z.min stop ((at_ / 4096 + 1) * 4096) in
        if (resolve w at_ <? 0) || (resolve w (end_ - 1) <? 0) then Some false
        else validate_pages fuel w end_ stop
      else Some true
  end.

Definition validate_physical_range (w : W) (address length : Z) : bool :=
  if negb (is_safe_integer address) || negb (is_safe_integer length) || (address <? 0)
     || (PHYSICAL_LIMIT <=? address) || (length <? 0) || (PHYSICAL_LIMIT <? address + length) then false
  else default false (validate_pages (Z.to_nat (length / 4096 + 3)) w address (address + length)).

Definition read_physical_scalar (w : W) (address width : Z) : option Z :=
  if validate_physical_range w address (width / 8) then
    let value := x64_phys_read width w (u32 address) (address / 0x100000000) in
    if value <? 0 then None else Some value
  else None.

Definition read8_physical (w : W) (address : Z) : option Z := read_physical_scalar w address 8.
Definition read16_physical (w : W) (address : Z) : option Z := read_physical_scalar w address 16.
Definition read32_physical (w : W) (address : Z) : option Z := read_physical_scalar w address 32.

Definition write_physical_scalar (w : W) (address value width : Z) : option W :=
  if validate_physical_range w address (width / 8)
  then x64_phys_write width w (u32 address) (address / 0x100000000) (u32 value)
  else None.

Definition write8_physical (w : W) (address value : Z) : option W := write_physical_scalar w address value 8.
Definition write16_physical (w : W) (address value : Z) : option W := write_physical_scalar w address value 16.
Definition write32_physical (w : W) (address value : Z) : option W := write_physical_scalar w address value 32.

(** One chunk of a copy: what lies in the page of [at_]. *)
Definition read_chunk (w : W) (at_ count : Z) : option (list Z) :=
  if kind w at_ =? 1 then
    let backing := resolve w at_ in Some (mem8_subarray w backing (backing + count))
  else if kind w at_ =? 3 then Some (extended_read w at_ count)
  else mapM (read8_physical w) (seqZ at_ count).

(** The loop of [read_blob_physical]: the bytes from [at_] on. *)
Fixpoint read_chunks (fuel : nat) (w : W) (at_ length : Z) : option (list Z) :=
  match fuel with
  | O => None
  | S fuel =>
      if 0 <? length then
        let count := Z.min length (4096 - at_ mod 4096) in
        bytes ← read_chunk w at_ count;
        rest ← read_chunks fuel w (at_ + count) (length - count);
        Some (bytes ++ rest)
      else Some []
  end.

Definition read_blob_physical (w : W) (address length : Z) : option (list Z) :=
  if validate_physical_range w address length
  then read_chunks (Z.to_nat (length / 4096 + 3)) w address length
  else None.

Fixpoint write_bytes (w : W) (at_ : Z) (bytes : list Z) : option W :=
  match bytes with
  | [] => Some w
  | b :: bytes => w ← write8_physical w at_ b; write_bytes w (at_ + 1) bytes
  end.

Definition write_chunk (w : W) (at_ : Z) (bytes : list Z) : option W :=
  if kind w at_ =? 1 then
    let backing := resolve w at_ in
    Some (mem8_set (jit_dirty_cache w backing (backing + Z.of_nat (length bytes))) bytes backing)
  else if kind w at_ =? 3 then Some (extended_write w at_ bytes)
  else write_bytes w at_ bytes.

Fixpoint write_chunks (fuel : nat) (w : W) (at_ : Z) (blob : list Z) : option W :=
  match fuel with
  | O => None
  | S fuel =>
      if 0 <? Z.of_nat (length blob) then
        let count := Z.to_nat (Z.min (Z.of_nat (length blob)) (4096 - at_ mod 4096)) in
        w ← write_chunk w at_ (take count blob);
        write_chunks fuel w (at_ + Z.of_nat count) (drop count blob)
      else Some w
  end.

Definition write_blob_physical (w : W) (blob : list Z) (address : Z) : option W :=
  if validate_physical_range w address (Z.of_nat (length blob))
  then write_chunks (Z.to_nat (Z.of_nat (length blob) / 4096 + 3)) w address blob
  else None.

End accessors.

(** ** What the core promises *)

(** The little-endian value of bytes. *)
Definition le (l : list Z) : Z := foldr (fun b acc => b + 256 * acc) 0 l.
Definition le_bytes (n : nat) (v : Z) : list Z := map (fun i => v / 256 ^ Z.of_nat i mod 256) (seq 0 n).

(** [f] with the bytes [l] from [a] on. *)
Definition overwrite (f : Z -> option Z) (a : Z) (l : list Z) (x : Z) : option Z :=
  if decide (a <= x < a + Z.of_nat (length l)) then l !! Z.to_nat (x - a) else f x.

Definition bus (a : Z) : Prop := 0 <= a < PHYSICAL_LIMIT.
Definition in_page (a n : Z) : Prop := 0 <= n /\ a mod 4096 + n <= 4096.

Class WasmLaws (W : Type) `{Wasm W} := {
  (** The memory of the guest. *)
  ram : W -> Z -> option Z;
  ram_byte : forall w a b, ram w a = Some b -> byte b;
  (** An address is memory (1, 3), a device (2) or nothing (0), page by page. *)
  ram_kind : forall w a, bus a -> is_Some (ram w a) <-> kind w a = 1 \/ kind w a = 3;
  kind_resolve : forall w a, bus a -> resolve w a < 0 <-> kind w a = 0;
  kind_page : forall w a k, bus a -> in_page a (k + 1) -> 0 <= k -> kind w (a + k) = kind w a;
  (** A read of something that is there has a result. *)
  read8_value : forall w a, bus a -> kind w a <> 0 -> 0 <= x64_phys_read 8 w (u32 a) (a / 0x100000000);
  (** Memory of the 32-bit bus is contiguous in the backing store within a page. *)
  subarray_length : forall w a n, bus a -> in_page a n -> kind w a = 1 ->
    Z.of_nat (length (mem8_subarray w (resolve w a) (resolve w a + n))) = n;
  subarray_ram : forall w a n k, bus a -> in_page a n -> kind w a = 1 -> 0 <= k < n ->
    mem8_subarray w (resolve w a) (resolve w a + n) !! Z.to_nat k = ram w (a + k);
  set_ram : forall w a l x, bus a -> in_page a (Z.of_nat (length l)) -> kind w a = 1 -> Forall byte l ->
    ram (mem8_set w l (resolve w a)) x = overwrite (ram w) a l x;
  (** So is a page of extended memory. *)
  extended_length : forall w a n, bus a -> in_page a n -> kind w a = 3 ->
    Z.of_nat (length (extended_read w a n)) = n;
  extended_ram : forall w a n k, bus a -> in_page a n -> kind w a = 3 -> 0 <= k < n ->
    extended_read w a n !! Z.to_nat k = ram w (a + k);
  extended_set : forall w a l x, bus a -> in_page a (Z.of_nat (length l)) -> kind w a = 3 -> Forall byte l ->
    ram (extended_write w a l) x = overwrite (ram w) a l x;
  (** Scalars are little-endian and may cross pages. *)
  read_scalar : forall w a width l, width = 8 \/ width = 16 \/ width = 32 -> bus a ->
    Z.of_nat (length l) = width / 8 -> (forall k b, l !! k = Some b -> ram w (a + Z.of_nat k) = Some b) ->
    x64_phys_read width w (u32 a) (a / 0x100000000) = le l;
  write_scalar : forall w a width value, width = 8 \/ width = 16 \/ width = 32 -> bus a ->
    (forall k, 0 <= k < width / 8 -> is_Some (ram w (a + k))) ->
    exists w', x64_phys_write width w (u32 a) (a / 0x100000000) (u32 value) = Some w' /\
      (forall x, ram w' x = overwrite (ram w) a (le_bytes (Z.to_nat (width / 8)) value) x) /\
      (forall x, kind w' x = kind w x);
  (** Neither writes nor the invalidation of compiled code change the map. *)
  dirty_ram : forall w b e x, ram (jit_dirty_cache w b e) x = ram w x;
  dirty_kind : forall w b e x, kind (jit_dirty_cache w b e) x = kind w x /\ resolve (jit_dirty_cache w b e) x = resolve w x;
  set_kind : forall w l b x, kind (mem8_set w l b) x = kind w x;
  extended_kind : forall w a l x, kind (extended_write w a l) x = kind w x
}.

Section spec.
Context {W : Type} {HW : Wasm W} {HL : WasmLaws W}.
Implicit Types (w : W).

Lemma chunk_kind w a n x : bus a -> in_page a n -> a <= x < a + n -> kind w x = kind w a.
Proof.
  intros Ha [Hn Hp] Hx. replace x with (a + (x - a)) by lia. apply kind_page; [done| |lia]. unfold in_page. lia.
Qed.

Lemma chunk_in_page at_ n : 0 <= n -> in_page at_ (Z.min n (4096 - at_ mod 4096)).
Proof. intros Hn. unfold in_page. pose proof (Z.mod_pos_bound at_ 4096). lia. Qed.

Lemma page_end at_ stop : Z.min stop ((at_ / 4096 + 1) * 4096) = at_ + Z.min (stop - at_) (4096 - at_ mod 4096).
Proof. pose proof (Z.div_mod at_ 4096). lia. Qed.

Lemma validate_pages_spec fuel w at_ stop :
  0 <= at_ -> stop <= PHYSICAL_LIMIT -> (1 <= fuel)%nat ->
  (at_ < stop -> (stop + 4095) / 4096 - at_ / 4096 < Z.of_nat fuel) ->
  exists b, validate_pages fuel w at_ stop = Some b /\
    (b = true <-> forall x, at_ <= x < stop -> kind w x <> 0).
Proof.
  revert at_. induction fuel as [|fuel IH]; intros at_ H0 Hs Hf Hp; [lia|]. cbn [validate_pages].
  destruct (at_ <? stop) eqn:E.
  2: { exists true. apply Z.ltb_ge in E. split; [done|]. split; [|done]. intros _ x Hx. lia. }
  apply Z.ltb_lt in E. specialize (Hp E). rewrite page_end.
  set (n := Z.min (stop - at_) (4096 - at_ mod 4096)).
  assert (bus at_) as Hb by (unfold bus; lia).
  pose proof (Z.mod_pos_bound at_ 4096 ltac:(lia)) as Hm.
  assert (in_page at_ n) as Hpg by (apply chunk_in_page; lia).
  assert (0 < n) as Hn by lia.
  assert (bus (at_ + n - 1)) as Hb' by (unfold bus; lia).
  assert (kind w (at_ + n - 1) = kind w at_) as Hlast by (apply (chunk_kind w at_ n); [done|done|lia]).
  pose proof (kind_resolve w at_ Hb) as Hr. pose proof (kind_resolve w _ Hb') as Hr'. rewrite Hlast in Hr'.
  destruct ((resolve w at_ <? 0) || (resolve w (at_ + n - 1) <? 0)) eqn:Ez.
  - exists false. split; [done|]. split; [done|]. intros Hall. exfalso. apply (Hall at_); [lia|].
    apply orb_true_iff in Ez as [Ez|Ez]; apply Z.ltb_lt in Ez; tauto.
  - apply orb_false_iff in Ez as [Ez _]. apply Z.ltb_ge in Ez. assert (kind w at_ <> 0) as Hk by (rewrite <- Hr; lia).
    destruct (IH (at_ + n)) as (b & -> & Hbb); [lia|done| | |].
    + enough (1 <= (stop + 4095) / 4096 - at_ / 4096) by lia.
      pose proof (Z.div_le_mono (at_ + 4096) (stop + 4095) 4096 ltac:(lia) ltac:(lia)) as Hd.
      replace (at_ + 4096) with (at_ + 1 * 4096) in Hd by lia. rewrite Z.div_add in Hd by lia. lia.
    + intros Hlt. assert (n = 4096 - at_ mod 4096) as -> by lia.
      assert ((at_ + (4096 - at_ mod 4096)) / 4096 = at_ / 4096 + 1) as ->; [|lia].
      symmetry. apply (Z.div_unique_pos _ _ _ 0); [lia|]. pose proof (Z.div_mod at_ 4096). lia.
    + exists b. split; [done|]. rewrite Hbb. split; intros Hall x Hx; [|apply Hall; lia].
      destruct (Z.lt_ge_cases x (at_ + n)); [|apply Hall; lia]. by rewrite (chunk_kind w at_ n) by (done || lia).
Qed.

Lemma validate_spec w a n :
  validate_physical_range w a n = true <->
  0 <= a < PHYSICAL_LIMIT /\ 0 <= n /\ a + n <= PHYSICAL_LIMIT /\ forall x, a <= x < a + n -> kind w x <> 0.
Proof.
  unfold validate_physical_range, is_safe_integer.
  destruct (decide (0 <= a < PHYSICAL_LIMIT /\ 0 <= n /\ a + n <= PHYSICAL_LIMIT)) as [(Ha & Hn & Hs)|Hout].
  - unfold PHYSICAL_LIMIT in *.
    match goal with |- (if ?c then _ else _) = true <-> _ => assert (c = false) as -> by lia end.
    destruct (validate_pages_spec (Z.to_nat (n / 4096 + 3)) w a (a + n)) as (b & -> & Hb); [lia|done| | |].
    + pose proof (Z.div_pos n 4096). lia.
    + intros _. rewrite Z2Nat.id by (pose proof (Z.div_pos n 4096); lia). Z.to_euclidean_division_equations. lia.
    + cbn. rewrite Hb. tauto.
  - match goal with |- (if ?c then _ else _) = true <-> _ => destruct c eqn:E end; [split; [done|tauto]|].
    exfalso. apply Hout. repeat rewrite orb_false_iff in E. unfold PHYSICAL_LIMIT in *. lia.
Qed.

(** ** Reading *)

(** The range [a, a + n) lies on the bus. *)
Definition span (a n : Z) : Prop := 0 <= a /\ 0 <= n /\ a + n <= PHYSICAL_LIMIT.
Definition mapped (w : W) (a n : Z) : Prop := forall x, a <= x < a + n -> kind w x <> 0.
Definition memory (w : W) (a n : Z) : Prop := forall x, a <= x < a + n -> is_Some (ram w x).

(** [l] is the content of memory from [a] on. *)
Definition holds (w : W) (a : Z) (l : list Z) : Prop := forall k b, l !! k = Some b -> ram w (a + Z.of_nat k) = Some b.

Lemma memory_mapped w a n : span a n -> memory w a n -> mapped w a n.
Proof.
  intros Hs Hm x Hx. destruct Hs as (? & ? & ?).
  pose proof (proj1 (ram_kind w x ltac:(unfold bus; lia)) (Hm x Hx)). lia.
Qed.

Lemma read8_mapped w a : bus a -> kind w a <> 0 -> is_Some (read8_physical w a).
Proof.
  intros Ha Hk. unfold read8_physical, read_physical_scalar. change (8 / 8) with 1.
  assert (validate_physical_range w a 1 = true) as ->.
  { apply validate_spec. unfold bus in Ha. split_and!; try lia. intros x Hx. by replace x with a by lia. }
  pose proof (read8_value w a Ha Hk). destruct (_ <? 0) eqn:E; [apply Z.ltb_lt in E; lia|by eexists].
Qed.

Lemma read_chunk_spec w a n :
  span a n -> 0 < n -> in_page a n -> mapped w a n ->
  exists l, read_chunk w a n = Some l /\ Z.of_nat (length l) = n /\ (memory w a n -> holds w a l).
Proof.
  intros (Ha & Hn & Hs) Hpos Hp Hm. assert (bus a) as Hb by (unfold bus; lia).
  assert (forall l, Z.of_nat (length l) = n -> (forall k, 0 <= k < n -> l !! Z.to_nat k = ram w (a + k)) -> holds w a l) as Hh.
  { intros l Hl Hk k b Hkb. pose proof (lookup_lt_Some _ _ _ Hkb). rewrite <- Hk by lia. by rewrite Nat2Z.id. }
  unfold read_chunk. destruct (kind w a =? 1) eqn:E1; [|destruct (kind w a =? 3) eqn:E3].
  - apply Z.eqb_eq in E1. eexists. split; [done|]. split; [by apply subarray_length|].
    intros _. apply Hh; [by apply subarray_length|]. intros k Hk. by apply subarray_ram.
  - apply Z.eqb_eq in E3. eexists. split; [done|]. split; [by apply extended_length|].
    intros _. apply Hh; [by apply extended_length|]. intros k Hk. by apply extended_ram.
  - assert (is_Some (mapM (read8_physical w) (seqZ a n))) as [l Hl].
    { apply mapM_is_Some, Forall_forall. intros x Hx. apply elem_of_seqZ in Hx.
      apply read8_mapped; [unfold bus; lia|apply Hm; lia]. }
    exists l. split; [done|]. apply mapM_Some_1, Forall2_length in Hl. rewrite length_seqZ in Hl.
    split; [lia|]. intros Hmem. exfalso.
    pose proof (proj1 (ram_kind w a Hb) (Hmem a ltac:(lia))). lia.
Qed.

Lemma holds_app w a l l' : holds w a l -> holds w (a + Z.of_nat (length l)) l' -> holds w a (l ++ l').
Proof.
  intros H1 H2 k b Hk. apply lookup_app_Some in Hk as [Hk|[Hle Hk]]; [by apply H1|].
  specialize (H2 _ _ Hk). rewrite <- H2. f_equal. lia.
Qed.

(** The chunks left to copy. *)
Definition chunks (a n : Z) : Z := (a + n + 4095) / 4096 - a / 4096.

Lemma chunks_step a n (m := Z.min n (4096 - a mod 4096)) :
  0 < n -> 0 < m /\ 1 <= chunks a n /\ (0 < n - m -> chunks (a + m) (n - m) = chunks a n - 1).
Proof.
  intros Hn. pose proof (Z.mod_pos_bound a 4096 ltac:(lia)) as Hm. pose proof (Z.div_mod a 4096 ltac:(lia)) as Hd.
  split; [lia|]. unfold chunks. split.
  - pose proof (Z.div_le_mono (a + 1 * 4096) (a + n + 4095) 4096 ltac:(lia) ltac:(lia)) as Hx.
    rewrite Z.div_add in Hx by lia. lia.
  - intros Hlt. assert (m = 4096 - a mod 4096) as E by lia. rewrite E.
    replace (a + (4096 - a mod 4096) + (n - (4096 - a mod 4096)) + 4095) with (a + n + 4095) by lia.
    assert ((a + (4096 - a mod 4096)) / 4096 = a / 4096 + 1) as ->; [|lia].
    symmetry. apply (Z.div_unique_pos _ _ _ 0); lia.
Qed.

Lemma chunks_fuel a n : 0 <= n -> chunks a n < Z.of_nat (Z.to_nat (n / 4096 + 3)).
Proof.
  intros Hn. rewrite Z2Nat.id by (pose proof (Z.div_pos n 4096); lia). unfold chunks.
  Z.to_euclidean_division_equations. lia.
Qed.

Lemma read_chunks_spec fuel w a n :
  span a n -> mapped w a n -> (1 <= fuel)%nat -> (0 < n -> chunks a n < Z.of_nat fuel) ->
  exists l, read_chunks fuel w a n = Some l /\ Z.of_nat (length l) = n /\ (memory w a n -> holds w a l).
Proof.
  revert a n. induction fuel as [|fuel IH]; intros a n Hs Hm Hf Hc; [lia|]. cbn [read_chunks].
  destruct (0 <? n) eqn:E.
  2: { apply Z.ltb_ge in E. destruct Hs as (? & ? & ?). exists []. split; [done|]. split; [cbn; lia|]. by intros _ k b. }
  apply Z.ltb_lt in E. specialize (Hc E). pose proof (chunks_step a n E) as (H1 & H2 & H3).
  set (m := Z.min n (4096 - a mod 4096)) in *. destruct Hs as (Hs1 & Hs2 & Hs3).
  destruct (read_chunk_spec w a m) as (l & -> & Hl & Hh); [unfold span; lia|done|by apply chunk_in_page| |].
  { intros x Hx. apply Hm. lia. }
  cbn [mbind option_bind].
  destruct (IH (a + m) (n - m)) as (l' & -> & Hl' & Hh'); [unfold span; lia| |lia|lia|].
  { intros x Hx. apply Hm. lia. }
  exists (l ++ l'). split; [done|]. rewrite length_app. split; [lia|].
  intros Hmem. apply holds_app; [apply Hh; intros x Hx; apply Hmem; lia|].
  rewrite Hl. apply Hh'. intros x Hx. apply Hmem. lia.
Qed.

Lemma read_blob_spec w a n :
  validate_physical_range w a n = true ->
  exists l, read_blob_physical w a n = Some l /\ Z.of_nat (length l) = n /\ (memory w a n -> holds w a l).
Proof.
  intros Hv. unfold read_blob_physical. rewrite Hv. apply validate_spec in Hv as (Ha & Hn & Hs & Hk).
  apply read_chunks_spec; [unfold span; lia|done| |intros _; by apply chunks_fuel].
  pose proof (Z.div_pos n 4096). lia.
Qed.

Lemma read_blob_memory w a n :
  span a n -> a < PHYSICAL_LIMIT -> memory w a n ->
  exists l, read_blob_physical w a n = Some l /\ Z.of_nat (length l) = n /\ holds w a l.
Proof.
  intros Hs Ha Hm. destruct (read_blob_spec w a n) as (l & H1 & H2 & H3).
  - apply validate_spec. pose proof (memory_mapped w a n Hs Hm). unfold span in Hs. split_and!; [lia..|done].
  - exists l. split_and!; auto.
Qed.

(** ** Writing *)

(** [w'] is [w] with the bytes [l] written at [a]. *)
Definition written (w w' : W) (a : Z) (l : list Z) : Prop :=
  (forall x, ram w' x = overwrite (ram w) a l x) /\ forall x, kind w' x = kind w x.

Lemma overwrite_app f a l l' x : overwrite (overwrite f a l) (a + Z.of_nat (length l)) l' x = overwrite f a (l ++ l') x.
Proof.
  unfold overwrite. rewrite length_app. repeat destruct (decide _); try (exfalso; lia); try done.
  - rewrite lookup_app_r by lia. f_equal. lia.
  - by rewrite lookup_app_l by lia.
Qed.

Lemma overwrite_out f a l x : ~ (a <= x < a + Z.of_nat (length l)) -> overwrite f a l x = f x.
Proof. intros Hx. unfold overwrite. by rewrite decide_False. Qed.

Lemma overwrite_in f a l k b : l !! k = Some b -> overwrite f a l (a + Z.of_nat k) = Some b.
Proof.
  intros Hk. pose proof (lookup_lt_Some _ _ _ Hk). unfold overwrite. rewrite decide_True by lia.
  rewrite <- Hk. f_equal. lia.
Qed.

Lemma overwrite_some f a l x : is_Some (f x) -> is_Some (overwrite f a l x).
Proof.
  intros Hf. unfold overwrite. destruct (decide _); [|done]. apply lookup_lt_is_Some. lia.
Qed.

Lemma written_memory w w' a l b n : written w w' a l -> memory w b n -> memory w' b n.
Proof. intros [Hr _] Hm x Hx. rewrite Hr. by apply overwrite_some, Hm. Qed.

Lemma written_app w w1 w2 a l l' :
  written w w1 a l -> written w1 w2 (a + Z.of_nat (length l)) l' -> written w w2 a (l ++ l').
Proof.
  intros [H1 K1] [H2 K2]. split; intros x; [|by rewrite K2].
  rewrite H2, <- overwrite_app. unfold overwrite at 1 2. by rewrite H1.
Qed.

Lemma written_nil w a : written w w a [].
Proof. split; [|done]. intros x. rewrite overwrite_out; [done|cbn; lia]. Qed.

Lemma write_chunk_memory w a l :
  span a (Z.of_nat (length l)) -> 0 < Z.of_nat (length l) -> in_page a (Z.of_nat (length l)) ->
  memory w a (Z.of_nat (length l)) -> Forall byte l ->
  exists w', write_chunk w a l = Some w' /\ written w w' a l.
Proof.
  intros (Ha & Hn & Hs) Hpos Hp Hm Hl. assert (bus a) as Hb by (unfold bus; lia).
  pose proof (proj1 (ram_kind w a Hb) (Hm a ltac:(lia))) as Hk. unfold write_chunk.
  destruct (kind w a =? 1) eqn:E1; [|destruct (kind w a =? 3) eqn:E3; [|lia]].
  - apply Z.eqb_eq in E1. eexists. split; [done|].
    pose proof (dirty_kind w (resolve w a) (resolve w a + Z.of_nat (length l))) as K.
    pose proof (dirty_ram w (resolve w a) (resolve w a + Z.of_nat (length l))) as R.
    revert K R. generalize (jit_dirty_cache w (resolve w a) (resolve w a + Z.of_nat (length l))). intros d K R.
    split; intros x.
    + rewrite <- (proj2 (K a)), set_ram by (try rewrite (proj1 (K a)); done). unfold overwrite. by rewrite R.
    + rewrite set_kind. apply K.
  - apply Z.eqb_eq in E3. eexists. split; [done|]. split; intros x; [by apply extended_set|apply extended_kind].
Qed.

Lemma write_chunks_memory fuel w a l :
  span a (Z.of_nat (length l)) -> memory w a (Z.of_nat (length l)) -> Forall byte l -> (1 <= fuel)%nat ->
  (0 < Z.of_nat (length l) -> chunks a (Z.of_nat (length l)) < Z.of_nat fuel) ->
  exists w', write_chunks fuel w a l = Some w' /\ written w w' a l.
Proof.
  revert w a l. induction fuel as [|fuel IH]; intros w a l Hs Hm Hl Hf Hc; [lia|]. cbn [write_chunks].
  destruct (0 <? Z.of_nat (length l)) eqn:E.
  2: { exists w. split; [done|]. assert (l = []) as -> by (apply Z.ltb_ge in E; destruct l; [done|cbn [length] in E; lia]). apply written_nil. }
  apply Z.ltb_lt in E. specialize (Hc E). pose proof (chunks_step a _ E) as (H1 & H2 & H3).
  pose proof (chunk_in_page a (Z.of_nat (length l)) ltac:(lia)) as Hp.
  set (m := Z.min (Z.of_nat (length l)) (4096 - a mod 4096)) in *. destruct Hs as (Hs1 & Hs2 & Hs3).
  assert (Z.of_nat (length (take (Z.to_nat m) l)) = m) as Ht by (rewrite length_take; lia).
  assert (Z.of_nat (length (drop (Z.to_nat m) l)) = Z.of_nat (length l) - m) as Hd by (rewrite length_drop; lia).
  destruct (write_chunk_memory w a (take (Z.to_nat m) l)) as (w1 & -> & Hw1);
    [rewrite Ht; unfold span; lia|by rewrite Ht|by rewrite Ht| |by apply Forall_take|].
  { rewrite Ht. intros x Hx. apply Hm. lia. }
  cbn [mbind option_bind].
  destruct (IH w1 (a + Z.of_nat (Z.to_nat m)) (drop (Z.to_nat m) l)) as (w2 & -> & Hw2);
    [rewrite Hd; unfold span; lia| |by apply Forall_drop|lia|rewrite Hd, Z2Nat.id by lia; lia|].
  { rewrite Hd. apply (written_memory w w1 a (take (Z.to_nat m) l)); [done|]. intros x Hx. apply Hm. lia. }
  exists w2. split; [done|]. rewrite <- (take_drop (Z.to_nat m) l). apply (written_app w w1); [done|].
  rewrite Ht. by rewrite Z2Nat.id in Hw2 by lia.
Qed.

Lemma write_blob_memory w a l :
  span a (Z.of_nat (length l)) -> a < PHYSICAL_LIMIT -> memory w a (Z.of_nat (length l)) -> Forall byte l ->
  exists w', write_blob_physical w l a = Some w' /\ written w w' a l.
Proof.
  intros Hs Ha Hm Hl. unfold write_blob_physical.
  assert (validate_physical_range w a (Z.of_nat (length l)) = true) as ->.
  { apply validate_spec. pose proof (memory_mapped w a _ Hs Hm). unfold span in Hs. split_and!; [lia..|done]. }
  apply write_chunks_memory; [done|done|done| |intros _; apply chunks_fuel; lia].
  pose proof (Z.div_pos (Z.of_nat (length l)) 4096). lia.
Qed.

(** The content of a range is determined. *)
Lemma holds_unique w a l l' : holds w a l -> holds w a l' -> length l = length l' -> l = l'.
Proof.
  intros H1 H2 Hlen. apply list_eq. intros k. destruct (l !! k) as [b|] eqn:E.
  - destruct (lookup_lt_is_Some_2 l' k) as [b' E']; [rewrite <- Hlen; by eapply lookup_lt_Some|].
    rewrite E'. pose proof (H1 _ _ E). pose proof (H2 _ _ E'). congruence.
  - apply lookup_ge_None in E. symmetry. apply lookup_ge_None. lia.
Qed.

(** What a device writes to guest memory is what it and the guest then find there: a block copy to any range
    of memory, across pages of either kind and of any length, succeeds, reading the range back gives
    exactly the bytes written, and no other byte of memory changes. *)
Theorem phys_blob_roundtrip w a blob :
  0 <= a < PHYSICAL_LIMIT -> a + Z.of_nat (length blob) <= PHYSICAL_LIMIT ->
  memory w a (Z.of_nat (length blob)) -> Forall byte blob ->
  exists w', write_blob_physical w blob a = Some w' /\
    read_blob_physical w' a (Z.of_nat (length blob)) = Some blob /\
    forall x, ~ (a <= x < a + Z.of_nat (length blob)) -> ram w' x = ram w x.
Proof.
  intros Ha Hs Hm Hl. assert (span a (Z.of_nat (length blob))) as Hsp by (unfold span; lia).
  destruct (write_blob_memory w a blob Hsp ltac:(lia) Hm Hl) as (w' & Hw & Hwr). exists w'. split; [done|].
  destruct (read_blob_memory w' a (Z.of_nat (length blob)) Hsp ltac:(lia)) as (l & Hr & Hlen & Hh).
  { by eapply written_memory. }
  split.
  - rewrite Hr. f_equal. apply (holds_unique w' a); [done| |lia]. intros k b Hk. rewrite (proj1 Hwr). by apply overwrite_in.
  - intros x Hx. rewrite (proj1 Hwr). by apply overwrite_out.
Qed.

(** ** Scalars *)

Definition scalar (width : Z) : Prop := width = 8 \/ width = 16 \/ width = 32.

Lemma holds_memory w a l : holds w a l -> memory w a (Z.of_nat (length l)).
Proof.
  intros Hh x Hx. destruct (lookup_lt_is_Some_2 l (Z.to_nat (x - a))) as [b Hb]; [lia|].
  apply Hh in Hb. exists b. rewrite <- Hb. f_equal. lia.
Qed.

Lemma le_nonneg l : Forall (fun b => 0 <= b) l -> 0 <= le l.
Proof. induction 1 as [|b l Hb Hl IH]; [done|]. unfold le in *. cbn [foldr]. lia. Qed.

Lemma holds_bytes w a l : holds w a l -> Forall byte l.
Proof.
  intros Hh. apply Forall_lookup. intros k b Hk. by eapply ram_byte, Hh.
Qed.

Lemma validate_memory w a n : span a n -> a < PHYSICAL_LIMIT -> memory w a n -> validate_physical_range w a n = true.
Proof.
  intros Hs Ha Hm. apply validate_spec. pose proof (memory_mapped w a n Hs Hm). unfold span in Hs. split_and!; [lia..|done].
Qed.

Lemma read_scalar_memory w a width l :
  scalar width -> span a (width / 8) -> a < PHYSICAL_LIMIT -> holds w a l -> Z.of_nat (length l) = width / 8 ->
  read_physical_scalar w a width = Some (le l).
Proof.
  intros Hw Hs Ha Hh Hl. unfold read_physical_scalar.
  rewrite validate_memory; [|done|done|rewrite <- Hl; by apply holds_memory].
  rewrite (read_scalar w a width l); [|done|unfold bus, span in *; lia|done|done].
  destruct (le l <? 0) eqn:E; [|done]. apply Z.ltb_lt in E.
  pose proof (le_nonneg l). exfalso. enough (0 <= le l) by lia. apply le_nonneg.
  eapply Forall_impl; [by apply (holds_bytes w a)|]. unfold byte. lia.
Qed.

Lemma write_scalar_memory w a width value :
  scalar width -> span a (width / 8) -> a < PHYSICAL_LIMIT -> memory w a (width / 8) ->
  exists w', write_physical_scalar w a value width = Some w' /\ written w w' a (le_bytes (Z.to_nat (width / 8)) value).
Proof.
  intros Hw Hs Ha Hm. unfold write_physical_scalar. rewrite validate_memory by done.
  destruct (write_scalar w a width value) as (w' & E & Hr & Hk).
  - done.
  - unfold bus, span in *. lia.
  - intros k Hk. apply Hm. lia.
  - exists w'. split; [done|]. by split.
Qed.

Lemma le_bytes_length n v : length (le_bytes n v) = n.
Proof. unfold le_bytes. by rewrite length_map, length_seq. Qed.

Lemma le_bytes_S n v : le_bytes (S n) v = v mod 256 :: le_bytes n (v / 256).
Proof.
  unfold le_bytes. cbn [seq map]. f_equal; [by rewrite Z.pow_0_r, Z.div_1_r|].
  rewrite <- seq_shift, map_map. apply map_ext. intros i.
  rewrite Nat2Z.inj_succ, Z.pow_succ_r, <- Z.div_div by lia. done.
Qed.

Lemma le_le_bytes n v : le (le_bytes n v) = v mod 256 ^ Z.of_nat n.
Proof.
  revert v. induction n as [|n IH]; intros v; [cbn; by rewrite Z.mod_1_r|].
  rewrite le_bytes_S. cbn [le foldr]. change (foldr _ 0 ?l) with (le l). rewrite IH.
  rewrite Nat2Z.inj_succ, Z.pow_succ_r by lia. rewrite Z.rem_mul_r by lia. lia.
Qed.

Lemma written_holds w w' a l : written w w' a l -> holds w' a l.
Proof. intros [Hr _] k b Hk. rewrite Hr. by apply overwrite_in. Qed.

Lemma written_other w w' a l b l' :
  written w w' a l -> holds w b l' -> b + Z.of_nat (length l') <= a \/ a + Z.of_nat (length l) <= b -> holds w' b l'.
Proof.
  intros [Hr _] Hh Hd k x Hk. pose proof (lookup_lt_Some _ _ _ Hk). rewrite Hr, overwrite_out by lia. by apply Hh.
Qed.

End spec.

(** ** The memory the DMA controllers are written against *)

#[export] Instance phys_dma {W} `{Wasm W} : Dma.PhysMem W := {
  Dma.validate_physical_range := validate_physical_range;
  Dma.read_blob_physical := read_blob_physical;
  Dma.write_blob_physical := write_blob_physical
}.

#[export] Instance phys_dma_laws {W} {HW : Wasm W} {HL : WasmLaws W} : Dma.PhysMemLaws W.
Proof.
  split.
  - intros w a n d Hn Hr. cbn in Hr. unfold read_blob_physical in Hr.
    destruct (validate_physical_range w a n) eqn:Hv; [|done].
    destruct (read_blob_spec w a n Hv) as (l & Hl & Hlen & _). unfold read_blob_physical in Hl. rewrite Hv in Hl. congruence.
  - intros w a n Hv. destruct (read_blob_spec w a n Hv) as (l & Hl & _). by exists l.
Qed.

(** The sizes of a scalar. *)
Lemma scalar_bytes width : width = 8 \/ width = 16 \/ width = 32 -> width / 8 = 1 \/ width / 8 = 2 \/ width / 8 = 4.
Proof. intros [->|[->| ->]]; auto. Qed.

(** ** A machine with 64 KiB of memory *)

Definition FLAT_SIZE : Z := 0x10000.
Definition flat : Type := Z -> Z.
Definition flat_in (a n : Z) : bool := (0 <=? a) && (a + n <=? FLAT_SIZE).
Definition flat_get (w : flat) (a : Z) : Z := w a mod 256.
Definition flat_bytes (w : flat) (a n : Z) : list Z := map (flat_get w) (seqZ a n).
Definition flat_set (w : flat) (l : list Z) (a : Z) : flat := fun x => default (w x) (overwrite (fun _ => None) a l x).
Definition flat_addr (low high : Z) : Z := low + high * 0x100000000.

#[export] Instance flat_wasm : Wasm flat := {
  x64_phys_resolve w low high := if flat_in (flat_addr low high) 1 then flat_addr low high else -1;
  x64_phys_kind w low high := if flat_in (flat_addr low high) 1 then 1 else 0;
  x64_phys_read width w low high :=
    if flat_in (flat_addr low high) (width / 8) then le (flat_bytes w (flat_addr low high) (width / 8)) else -1;
  x64_phys_write width w low high value :=
    if flat_in (flat_addr low high) (width / 8)
    then Some (flat_set w (le_bytes (Z.to_nat (width / 8)) value) (flat_addr low high)) else None;
  mem8_subarray w b e := flat_bytes w b (e - b);
  mem8_set := flat_set;
  jit_dirty_cache w _ _ := w;
  extended_read w _ _ := [];
  extended_write w _ _ := w
}.

Definition flat_ram (w : flat) (a : Z) : option Z := if flat_in a 1 then Some (flat_get w a) else None.

Lemma flat_in_spec a n : flat_in a n = true <-> 0 <= a /\ a + n <= FLAT_SIZE.
Proof. unfold flat_in. rewrite andb_true_iff, !Z.leb_le. done. Qed.

Lemma flat_addr_split a : flat_addr (u32 a) (a / 0x100000000) = a.
Proof. unfold flat_addr, u32. change (2 ^ 32) with 0x100000000. pose proof (Z.div_mod a 0x100000000). lia. Qed.

Lemma flat_kind (w : flat) a : kind w a = if flat_in a 1 then 1 else 0.
Proof. unfold kind. cbn. by rewrite flat_addr_split. Qed.

Lemma flat_resolve (w : flat) a : resolve w a = if flat_in a 1 then a else -1.
Proof. unfold resolve. cbn. by rewrite flat_addr_split. Qed.

Lemma flat_bytes_lookup w a n k : 0 <= k < n -> flat_bytes w a n !! Z.to_nat k = Some (flat_get w (a + k)).
Proof.
  intros Hk. unfold flat_bytes. rewrite list_lookup_fmap. apply fmap_Some. exists (a + k). split; [|done].
  apply lookup_seqZ. lia.
Qed.

Lemma flat_bytes_length w a n : 0 <= n -> Z.of_nat (length (flat_bytes w a n)) = n.
Proof. intros Hn. unfold flat_bytes. rewrite length_map, length_seqZ. lia. Qed.

Lemma flat_set_ram w l a x :
  Forall byte l -> 0 <= a -> a + Z.of_nat (length l) <= FLAT_SIZE ->
  flat_ram (flat_set w l a) x = overwrite (flat_ram w) a l x.
Proof.
  intros Hl Ha Hs. unfold flat_ram, flat_get, flat_set, overwrite. destruct (decide _) as [Hx|Hx].
  - destruct (flat_in x 1) eqn:E; [|exfalso; assert (flat_in x 1 = true) by (apply flat_in_spec; lia); congruence].
    destruct (lookup_lt_is_Some_2 l (Z.to_nat (x - a))) as [b Hb]; [lia|]. rewrite Hb. cbn. f_equal.
    apply Z.mod_small. rewrite Forall_lookup in Hl. by eapply Hl.
  - by destruct (flat_in x 1).
Qed.

Lemma le_bytes_byte n v : Forall byte (le_bytes n v).
Proof. apply Forall_map, Forall_true. intros i. unfold byte. apply Z.mod_pos_bound. lia. Qed.

Lemma flat_le w a l : (forall k b, l !! k = Some b -> flat_ram w (a + Z.of_nat k) = Some b) ->
  flat_bytes w a (Z.of_nat (length l)) = l.
Proof.
  intros Hk. apply list_eq. intros k. destruct (decide (k < length l)%nat) as [Hlt|Hge].
  - destruct (lookup_lt_is_Some_2 l k Hlt) as [b Hb]. rewrite Hb. specialize (Hk k b Hb).
    rewrite <- (Nat2Z.id k), flat_bytes_lookup by lia. unfold flat_ram in Hk. by destruct (flat_in _ _).
  - rewrite lookup_ge_None_2, lookup_ge_None_2; [done|lia|].
    pose proof (flat_bytes_length w a (Z.of_nat (length l))). lia.
Qed.

#[export] Program Instance flat_laws : WasmLaws flat := { ram := flat_ram }.
Next Obligation. intros w a b. unfold flat_ram. destruct (flat_in a 1); [|done]. intros [= <-]. apply Z.mod_pos_bound. lia. Qed.
Next Obligation.
  intros w a _. rewrite flat_kind. unfold flat_ram. destruct (flat_in a 1); [naive_solver|].
  split; [intros [x Hx]; done|lia].
Qed.
Next Obligation.
  intros w a _. rewrite flat_resolve, flat_kind. destruct (flat_in a 1) eqn:E; [|lia]. apply flat_in_spec in E. lia.
Qed.
Next Obligation.
  intros w a k Ha [_ Hp] Hk. rewrite !flat_kind. unfold FLAT_SIZE, bus in *.
  assert (flat_in (a + k) 1 = flat_in a 1) as ->; [|done].
  apply eq_true_iff_eq. rewrite !flat_in_spec. unfold FLAT_SIZE. split; [lia|]. intros [_ H2]. split; [lia|].
  Z.to_euclidean_division_equations. lia.
Qed.
Next Obligation.
  intros w a Ha Hk. rewrite flat_kind in Hk. cbn. rewrite flat_addr_split. change (8 / 8) with 1.
  destruct (flat_in a 1); [|done]. apply le_nonneg. apply Forall_map, Forall_true. intros x. apply Z.mod_pos_bound. lia.
Qed.
Next Obligation.
  intros w a n Ha [Hn _] Hk. change (Z.of_nat (length (flat_bytes w (resolve w a) (resolve w a + n - resolve w a))) = n). replace (resolve w a + n - resolve w a) with n by lia. by apply flat_bytes_length.
Qed.
Next Obligation.
  intros w a n k Ha [Hn Hp] Hk Hkn. rewrite flat_kind in Hk. rewrite flat_resolve. destruct (flat_in a 1) eqn:E; [|done].
  cbn. replace (a + n - a) with n by lia. rewrite flat_bytes_lookup by done. unfold flat_ram.
  assert (flat_in (a + k) 1 = true) as ->; [|done]. apply flat_in_spec in E. apply flat_in_spec. unfold FLAT_SIZE in *.
  split; [lia|]. Z.to_euclidean_division_equations. lia.
Qed.
Next Obligation.
  intros w a l x Ha [Hn Hp] Hk Hl. rewrite flat_kind in Hk. rewrite flat_resolve. destruct (flat_in a 1) eqn:E; [|done].
  cbn. apply flat_in_spec in E. apply flat_set_ram; [done|lia|]. unfold FLAT_SIZE in *.
  Z.to_euclidean_division_equations. lia.
Qed.
Next Obligation. intros w a n _ _ Hk. rewrite flat_kind in Hk. by destruct (flat_in a 1). Qed.
Next Obligation. intros w a n k _ _ Hk. rewrite flat_kind in Hk. by destruct (flat_in a 1). Qed.
Next Obligation. intros w a l x _ _ Hk. rewrite flat_kind in Hk. by destruct (flat_in a 1). Qed.
Next Obligation.
  intros w a width l Hw Ha Hl Hk. cbn. rewrite flat_addr_split, <- Hl. rewrite flat_le by done.
  assert (flat_in a (Z.of_nat (length l)) = true) as ->; [|done]. apply flat_in_spec. unfold bus in Ha. split; [lia|].
  pose proof (scalar_bytes width Hw).
  destruct (lookup_lt_is_Some_2 l (length l - 1)%nat) as [b Hb]; [lia|]. apply Hk in Hb. unfold flat_ram in Hb.
  destruct (flat_in (a + Z.of_nat (length l - 1)) 1) eqn:E; [|done]. apply flat_in_spec in E. lia.
Qed.
Next Obligation.
  intros w a width value Hw Ha Hk. cbn. rewrite flat_addr_split.
  pose proof (scalar_bytes width Hw) as Hpos.
  assert (flat_in a (width / 8) = true) as E.
  { apply flat_in_spec. unfold bus in Ha. split; [lia|]. destruct (Hk (width / 8 - 1) ltac:(lia)) as [b Hb].
    unfold flat_ram in Hb. destruct (flat_in (a + (width / 8 - 1)) 1) eqn:E; [|done]. apply flat_in_spec in E. lia. }
  rewrite E. eexists. split; [done|]. apply flat_in_spec in E. split; intros x; [|reflexivity].
  assert (forall v, le_bytes (Z.to_nat (width / 8)) (u32 v) = le_bytes (Z.to_nat (width / 8)) v) as ->.
  { intros v. apply map_ext_in. intros i Hi. apply in_seq in Hi.
    assert (i < 4)%nat by lia.
    unfold u32. destruct i as [|[|[|[|i]]]]; [..|lia]; cbn; Z.to_euclidean_division_equations; lia. }
  apply flat_set_ram; [apply le_bytes_byte|lia|]. rewrite le_bytes_length. lia.
Qed.
Next Obligation. done. Qed.
Next Obligation. done. Qed.
Next Obligation. intros w l b x. by rewrite !flat_kind. Qed.
Next Obligation. done. Qed.

Definition demo_flat : flat := fun _ => 0.
Definition demo_blob : list Z := [1; 2; 3; 4; 5; 6; 7; 8; 9; 10; 11; 12].

(** A block copy across a page boundary. *)
Lemma phys_blob_roundtrip_witness :
  exists w', write_blob_physical demo_flat demo_blob 4090 = Some w' /\ read_blob_physical w' 4090 12 = Some demo_blob.
Proof.
  destruct (phys_blob_roundtrip demo_flat 4090 demo_blob) as (w' & H1 & H2 & _).
  - unfold PHYSICAL_LIMIT. lia.
  - unfold PHYSICAL_LIMIT. cbn. lia.
  - intros x Hx. cbn. unfold flat_ram. cbn in Hx.
    rewrite (proj2 (flat_in_spec x 1)) by (unfold FLAT_SIZE; lia). by eexists.
  - repeat constructor; unfold byte; lia.
  - exists w'. split; [exact H1|exact H2].
Defined.

End Phys.
