(* ===== verification/Virtio.v ===== *)
(** * Virtio devices over PCI ([virtio.js])

    A virtio device shares rings in guest memory with its driver: the driver
    puts requests (chains of descriptors) on the available ring, the device
    takes them, reads and fills their buffers and puts them on the used ring.
    The rings ([VirtQueue]), the buffers of a request ([VirtQueueBufferChain]) and the
    registers, features and interrupts of a device ([VirtIO]) follow each other below.
    Guest memory is that of [Phys.v].  A [RangeError] is the result [None]; what was stored before it was
    thrown stays stored.  Queue addresses are exact integers; the source rounds those
    beyond 2^53, which no memory map has. *)

From S2P Require Import Prelude Lib Dma Phys.

Module Virtio.

Definition VIRTIO_STATUS_ACKNOWLEDGE : Z := 1.
Definition VIRTIO_STATUS_DRIVER : Z := 2.
Definition VIRTIO_STATUS_DRIVER_OK : Z := 4.
Definition VIRTIO_STATUS_FEATURES_OK : Z := 8.
Definition VIRTIO_STATUS_DEVICE_NEEDS_RESET : Z := 64.
Definition VIRTIO_STATUS_FAILED : Z := 128.
Definition VIRTIO_ISR_QUEUE : Z := 1.
Definition VIRTIO_ISR_DEVICE_CFG : Z := 2.
Definition VIRTIO_F_RING_INDIRECT_DESC : Z := 28.
Definition VIRTIO_F_RING_EVENT_IDX : Z := 29.
Definition VIRTIO_F_VERSION_1 : Z := 32.
Definition VIRTQ_DESC_ENTRYSIZE : Z := 16.
Definition VIRTQ_AVAIL_BASESIZE : Z := 6.
Definition VIRTQ_AVAIL_ENTRYSIZE : Z := 2.
Definition VIRTQ_USED_BASESIZE : Z := 6.
Definition VIRTQ_USED_ENTRYSIZE : Z := 8.
Definition VIRTQ_IDX_MASK : Z := 0xFFFF.
Definition VIRTQ_DESC_F_NEXT : Z := 1.
Definition VIRTQ_DESC_F_WRITE : Z := 2.
Definition VIRTQ_DESC_F_INDIRECT : Z := 4.
Definition VIRTQ_AVAIL_F_NO_INTERRUPT : Z := 1.

(** ** State *)

Record queue := mk_queue {
  size : Z;
  size_supported : Z;
  mask : Z;
  enabled : bool;
  notify_offset : Z;
  address_words : list Z;
  msix_vector : Z;
  desc_addr : Z;
  avail_addr : Z;
  avail_last_idx : Z;
  used_addr : Z;
  num_staged_replies : Z;
  fix_wrapping : bool
}.

(** [absent]: the entry of this function in [pci.absent]. *)
Record device := mk_device {
  pci_id : Z;
  absent : bool;
  qemu_compatible : bool;
  msix_config_vector : Z;
  device_feature_select : Z;
  driver_feature_select : Z;
  device_feature : list Z;
  driver_feature : list Z;
  features_ok : bool;
  device_status : Z;
  config_has_changed : bool;
  config_generation : Z;
  plug_generation : Z;
  queues : list queue;
  queue_select : Z;
  isr_status : Z
}.

Record desc := mk_desc { addr_low : Z; addr_high : Z; address : Z; len : Z; flags : Z; next : Z }.

Record chain := mk_chain {
  head_idx : Z;
  read_buffers : list desc;
  read_buffer_idx : Z;
  read_buffer_offset : Z;
  length_readable : Z;
  write_buffers : list desc;
  write_buffer_idx : Z;
  write_buffer_offset : Z;
  length_written : Z;
  length_writable : Z;
  valid : bool;
  chain_generation : Z
}.

(** The feature words by their selector, which may be any 32-bit number: there is
    nothing at a negative index. *)
Definition word_get (l : list Z) (i : Z) : Z := if i <? 0 then 0 else arr_get l i.
Definition word_set (l : list Z) (i v : Z) : list Z := if i <? 0 then l else arr_set l i v.

Definition no_queue : queue := mk_queue 0 0 (-1) false 0 (replicate 6 0) 0xFFFF 0 0 0 0 0 false.

Section virtio.
Context {W : Type} {HW : Phys.Wasm W}.

(** The device and guest memory. *)
Record t := mk { dev : device; mem : W }.

(** A method that may throw. *)
Definition X (A : Type) : Type := M t (option A).
Definition throw {A} : X A := ret None.
Definition pure {A} (a : A) : X A := ret (Some a).
Definition bindx {A B} (m : X A) (k : A -> X B) : X B :=
  bind m (fun r => match r with Some a => k a | None => ret None end).
(** [try { m } catch(RangeError) { handler }] *)
Definition catch {A} (m : X A) (handler : M t A) : M t A :=
  bind m (fun r => match r with Some a => ret a | None => handler end).
Definition lift {A} (m : M t A) : X A := bind m (fun a => ret (Some a)).

#[local] Notation "x <-! m ;; k" := (bindx m (fun x => k)) (at level 100, m at next level, right associativity).
#[local] Notation "m !;; k" := (bindx m (fun _ => k)) (at level 100, right associativity).

Definition on_dev (f : device -> device) : M t unit := modify (fun s => mk (f (dev s)) (mem s)).
Definition on_queue (i : nat) (f : queue -> queue) : M t unit := on_dev (fun d => d <| queues := alter f i (queues d) |>).
Definition queue_at (d : device) (i : nat) : queue := default no_queue (queues d !! i).

(** ** Interrupts and errors *)

Definition raise_irq (type : Z) : M t unit :=
  s <-- get ;;
  on_dev (fun d => d <| isr_status := isr_status d .| type |>) ;;; emit (PciIrq (pci_id (dev s)) true).

Definition lower_irq : M t unit :=
  s <-- get ;;
  on_dev (fun d => d <| isr_status := 0 |>) ;;; emit (PciIrq (pci_id (dev s)) false).

Definition notify_config_changes : M t unit :=
  on_dev (fun d => d <| config_has_changed := true |>) ;;;
  s <-- get ;;
  when (has (device_status (dev s)) VIRTIO_STATUS_DRIVER_OK)
    (raise_irq (if qemu_compatible (dev s) then VIRTIO_ISR_DEVICE_CFG .| VIRTIO_ISR_QUEUE else VIRTIO_ISR_DEVICE_CFG)).

Definition update_config_generation : M t unit :=
  s <-- get ;;
  when (config_has_changed (dev s))
    (on_dev (fun d => d <| config_generation := (config_generation d + 1) .& 0xFF |>
                        <| config_has_changed := false |>)).

Definition is_feature_negotiated (d : device) (feature : Z) : bool :=
  0 <? js_and (arr_get (driver_feature d) (shr32 feature 5)) (shl32 1 (feature .& 0x1F)).

Definition needs_reset : M t unit :=
  on_dev (fun d => d <| device_status := device_status d .| VIRTIO_STATUS_DEVICE_NEEDS_RESET |>) ;;;
  s <-- get ;;
  when (has (device_status (dev s)) VIRTIO_STATUS_DRIVER_OK) notify_config_changes.

(** ** The rings *)

Definition rd16 (a : Z) : X Z := s <-- get ;; ret (Phys.read16_physical (mem s) a).
Definition rd32 (a : Z) : X Z := s <-- get ;; ret (Phys.read32_physical (mem s) a).
Definition store (r : option W) : X unit :=
  match r with Some w => modify (fun s => mk (dev s) w) ;;; pure tt | None => throw end.
Definition wr16 (a v : Z) : X unit := s <-- get ;; store (Phys.write16_physical (mem s) a v).
Definition wr32 (a v : Z) : X unit := s <-- get ;; store (Phys.write32_physical (mem s) a v).
(** [this] of a method of queue [i]. *)
Definition this_queue (i : nat) : X queue := s <-- get ;; pure (queue_at (dev s) i).

Definition avail_get_flags (i : nat) : X Z := q <-! this_queue i ;; rd16 (avail_addr q).
Definition avail_get_idx (i : nat) : X Z := q <-! this_queue i ;; rd16 (avail_addr q + 2).
Definition avail_get_entry (i : nat) (n : Z) : X Z :=
  q <-! this_queue i ;; rd16 (avail_addr q + 4 + VIRTQ_AVAIL_ENTRYSIZE * (n .& mask q)).
Definition avail_get_used_event (i : nat) : X Z :=
  q <-! this_queue i ;; rd16 (avail_addr q + 4 + VIRTQ_AVAIL_ENTRYSIZE * size q).
Definition used_get_flags (i : nat) : X Z := q <-! this_queue i ;; rd16 (used_addr q).
Definition used_set_flags (i : nat) (v : Z) : X unit := q <-! this_queue i ;; wr16 (used_addr q) v.
Definition used_get_idx (i : nat) : X Z := q <-! this_queue i ;; rd16 (used_addr q + 2).
Definition used_set_idx (i : nat) (v : Z) : X unit := q <-! this_queue i ;; wr16 (used_addr q + 2) v.
Definition used_set_entry (i : nat) (n desc_idx length_written : Z) : X unit :=
  q <-! this_queue i ;;
  wr32 (used_addr q + 4 + VIRTQ_USED_ENTRYSIZE * n) desc_idx !;;
  wr32 (used_addr q + 8 + VIRTQ_USED_ENTRYSIZE * n) length_written.
Definition used_set_avail_event (i : nat) (v : Z) : X unit :=
  q <-! this_queue i ;; wr16 (used_addr q + 4 + VIRTQ_USED_ENTRYSIZE * size q) v.

Definition get_descriptor (w : W) (table_address i : Z) : option desc :=
  addr_low ← Phys.read32_physical w (table_address + i * VIRTQ_DESC_ENTRYSIZE);
  addr_high ← Phys.read32_physical w (table_address + i * VIRTQ_DESC_ENTRYSIZE + 4);
  len ← Phys.read32_physical w (table_address + i * VIRTQ_DESC_ENTRYSIZE + 8);
  flags ← Phys.read16_physical w (table_address + i * VIRTQ_DESC_ENTRYSIZE + 12);
  next ← Phys.read16_physical w (table_address + i * VIRTQ_DESC_ENTRYSIZE + 14);
  Some (mk_desc addr_low addr_high (addr_low + addr_high * 0x100000000) len flags next).

(** ** Buffer chains *)

(** The loop of [collect_buffers]; the outer [None] is an iteration that did not
    end within the fuel, the inner one a RangeError. *)
Fixpoint collect (fuel : nat) (w : W) (has_indirect_feature : bool) (table_address desc_idx chain_length chain_max : Z)
    (writable_region indirect : bool) (rd wr : list desc) : option (option (list desc * list desc)) :=
  match fuel with
  | O => None
  | S fuel =>
      if (chain_max <=? desc_idx) || (chain_max <? chain_length + 1) then Some None
      else
        match get_descriptor w table_address desc_idx with
        | None => Some None
        | Some d =>
            if negb (Phys.validate_physical_range w (address d) (len d)) then Some None
            else if has (flags d) VIRTQ_DESC_F_INDIRECT then
              if negb has_indirect_feature || indirect || has (flags d) VIRTQ_DESC_F_NEXT
                 || (len d =? 0) || negb (Z.rem (len d) VIRTQ_DESC_ENTRYSIZE =? 0)
                 || (65536 <? len d / VIRTQ_DESC_ENTRYSIZE)
              then Some None
              else collect fuel w has_indirect_feature (address d) 0 0 (len d / VIRTQ_DESC_ENTRYSIZE)
                     writable_region true rd wr
            else
              let more rd wr writable_region :=
                if has (flags d) VIRTQ_DESC_F_NEXT
                then collect fuel w has_indirect_feature table_address (next d) (chain_length + 1) chain_max
                       writable_region indirect rd wr
                else Some (Some (rd, wr)) in
              if has (flags d) VIRTQ_DESC_F_WRITE then more rd (wr ++ [d]) true
              else if writable_region then Some None
              else more (rd ++ [d]) wr writable_region
        end
  end.

Definition collect_fuel (q : queue) : nat := Z.to_nat (size q + 65536 + 3).

Definition collect_buffers (w : W) (d : device) (q : queue) (head_idx : Z) : option (option (list desc * list desc)) :=
  collect (collect_fuel q) w (is_feature_negotiated d VIRTIO_F_RING_INDIRECT_DESC) (desc_addr q) head_idx 0 (size q)
    false false [] [].

Definition total_len (l : list desc) : Z := foldr (fun d n => len d + n) 0 l.

(** [new VirtQueueBufferChain(this, head_idx)] of queue [i]. *)
Definition new_chain (i : nat) (head_idx : Z) : M t chain :=
  s <-- get ;;
  let generation := plug_generation (dev s) in
  match collect_buffers (mem s) (dev s) (queue_at (dev s) i) head_idx with
  | Some (Some (rd, wr)) =>
      ret (mk_chain head_idx rd 0 0 (total_len rd) wr 0 0 0 (total_len wr) true generation)
  | _ => needs_reset ;;; ret (mk_chain head_idx [] 0 0 0 [] 0 0 0 0 false generation)
  end.

(** The loops of [get_next_blob] and [set_next_blob]: one buffer per iteration, so
    the buffers from [idx] on bound them.  The result is the bytes read, the new
    position and whether a RangeError ended the loop. *)
Fixpoint blob_loop (bufs : list desc) (idx offset remaining : Z) (w : W) : option (list Z) * Z * Z :=
  if remaining =? 0 then (Some [], idx, offset)
  else
    match bufs with
    | [] => (Some [], idx, offset)
    | buf :: bufs =>
        let read_length := len buf - offset in
        let '(read_length, idx', offset') :=
          if remaining <? read_length then (remaining, idx, offset + remaining) else (read_length, idx + 1, 0) in
        match Phys.read_blob_physical w (address buf + offset) read_length with
        | None => (None, idx', offset')
        | Some bytes =>
            if remaining <? len buf - offset then (Some bytes, idx', offset')
            else
              let '(rest, idx'', offset'') := blob_loop bufs idx' offset' (remaining - read_length) w in
              (r ← rest; Some (bytes ++ r), idx'', offset'')
        end
    end.

Definition get_next_blob (c : chain) (n : Z) (w : W) : option (list Z) * chain :=
  let '(bytes, idx, offset) :=
    blob_loop (drop (Z.to_nat (read_buffer_idx c)) (read_buffers c)) (read_buffer_idx c) (read_buffer_offset c) n w in
  (bytes, c <| read_buffer_idx := idx |> <| read_buffer_offset := offset |>).

Fixpoint store_loop (bufs : list desc) (idx offset : Z) (src : list Z) (w : W) : bool * W * Z * Z * Z :=
  match src with
  | [] => (true, w, idx, offset, 0)
  | _ =>
    match bufs with
    | [] => (true, w, idx, offset, 0)
    | buf :: bufs =>
        let remaining := Z.of_nat (length src) in
        let write_length := len buf - offset in
        let '(write_length, idx', offset') :=
          if remaining <? write_length then (remaining, idx, offset + remaining) else (write_length, idx + 1, 0) in
        match Phys.write_blob_physical w (take (Z.to_nat write_length) src) (address buf + offset) with
        | None => (false, w, idx', offset', 0)
        | Some w =>
            if remaining <? len buf - offset then (true, w, idx', offset', write_length)
            else
              let '(ok, w, idx'', offset'', n) := store_loop bufs idx' offset' (drop (Z.to_nat write_length) src) w in
              (ok, w, idx'', offset'', write_length + n)
        end
    end
  end.

Definition set_next_blob (c : chain) (src : list Z) : M t (option Z * chain) :=
  s <-- get ;;
  if negb (chain_generation c =? plug_generation (dev s)) then ret (Some 0, c)
  else
    let '(ok, w, idx, offset, n) :=
      store_loop (drop (Z.to_nat (write_buffer_idx c)) (write_buffers c)) (write_buffer_idx c) (write_buffer_offset c)
        src (mem s) in
    modify (fun s => mk (dev s) w) ;;;
    let c := c <| write_buffer_idx := idx |> <| write_buffer_offset := offset |> in
    if ok then ret (Some n, c <| length_written := length_written c + n |>) else ret (None, c).

(** ** The queue *)

Definition set_size (i : nat) (n : Z) : M t unit := on_queue i (fun q => q <| size := n |> <| mask := n - 1 |>).

Definition reset_queue (q : queue) : queue :=
  mk_queue (size_supported q) (size_supported q) (size_supported q - 1) false (notify_offset q) (replicate 6 0) 0xFFFF
    0 0 0 0 0 (fix_wrapping q).

Definition set_address_word (i : nat) (index value : Z) : M t unit :=
  on_queue i (fun q =>
    if enabled q then q
    else
      let words := arr_set (address_words q) index (u32 value) in
      q <| address_words := words |>
        <| desc_addr := arr_get words 0 + arr_get words 1 * 0x100000000 |>
        <| avail_addr := arr_get words 2 + arr_get words 3 * 0x100000000 |>
        <| used_addr := arr_get words 4 + arr_get words 5 * 0x100000000 |>).

Definition is_configured (q : queue) : bool :=
  (0 <? size q) && (0 <? desc_addr q) && (0 <? avail_addr q) && (0 <? used_addr q).

Definition enable_valid (w : W) (q : queue) : bool :=
  (desc_addr q mod 16 =? 0) && (avail_addr q mod 2 =? 0) && (used_addr q mod 4 =? 0)
  && Phys.validate_physical_range w (desc_addr q) (size q * VIRTQ_DESC_ENTRYSIZE)
  && Phys.validate_physical_range w (avail_addr q) (VIRTQ_AVAIL_BASESIZE + size q * VIRTQ_AVAIL_ENTRYSIZE)
  && Phys.validate_physical_range w (used_addr q) (VIRTQ_USED_BASESIZE + size q * VIRTQ_USED_ENTRYSIZE).

Definition enable (i : nat) : M t unit :=
  s <-- get ;;
  if enable_valid (mem s) (queue_at (dev s) i) then on_queue i (fun q => q <| enabled := true |>) else needs_reset.

Definition count_requests (i : nat) : X Z :=
  q <-! this_queue i ;;
  (if fix_wrapping q then
     lift (on_queue i (fun q => q <| fix_wrapping := false |>)) !;;
     idx <-! avail_get_idx i ;;
     lift (on_queue i (fun q => q <| avail_last_idx := (idx .& ~. mask q) + (avail_last_idx q .& mask q) |>))
   else pure tt) !;;
  idx <-! avail_get_idx i ;;
  q <-! this_queue i ;;
  pure ((idx - avail_last_idx q) .& 0xFFFF).

Definition has_request (i : nat) : M t bool :=
  s <-- get ;;
  if negb (enabled (queue_at (dev s) i)) || has (device_status (dev s)) VIRTIO_STATUS_DEVICE_NEEDS_RESET then ret false
  else if absent (dev s) then ret false
  else catch (n <-! count_requests i ;; pure (negb (n =? 0))) (needs_reset ;;; ret false).

Definition pop_request (i : nat) : X chain :=
  q <-! this_queue i ;;
  desc_idx <-! avail_get_entry i (avail_last_idx q) ;;
  c <-! lift (new_chain i desc_idx) ;;
  lift (on_queue i (fun q => q <| avail_last_idx := (avail_last_idx q + 1) .& 0xFFFF |>)) !;;
  pure c.

Definition push_reply (i : nat) (c : chain) : X unit :=
  s <-- get ;;
  if negb (valid c) || negb (chain_generation c =? plug_generation (dev s)) then pure tt
  else
    idx <-! used_get_idx i ;;
    q <-! this_queue i ;;
    used_set_entry i ((idx + num_staged_replies q) .& mask q) (head_idx c) (length_written c) !;;
    lift (on_queue i (fun q => q <| num_staged_replies := num_staged_replies q + 1 |>)).

Definition flush_replies (i : nat) : X unit :=
  s <-- get ;;
  if absent (dev s) then lift (on_queue i (fun q => q <| num_staged_replies := 0 |>))
  else if num_staged_replies (queue_at (dev s) i) =? 0 then pure tt
  else
    old_idx <-! used_get_idx i ;;
    used_set_idx i ((old_idx + num_staged_replies (queue_at (dev s) i)) .& VIRTQ_IDX_MASK) !;;
    lift (on_queue i (fun q => q <| num_staged_replies := 0 |>)) !;;
    s <-- get ;;
    if is_feature_negotiated (dev s) VIRTIO_F_RING_EVENT_IDX then
      avail_get_used_event i !;; lift (raise_irq VIRTIO_ISR_QUEUE)
    else
      flags <-! avail_get_flags i ;;
      if has flags VIRTQ_AVAIL_F_NO_INTERRUPT then pure tt else lift (raise_irq VIRTIO_ISR_QUEUE).

Definition notify_me_after (i : nat) (num_skipped_requests : Z) : X unit :=
  idx <-! avail_get_idx i ;;
  used_set_avail_event i ((idx + num_skipped_requests) .& 0xFFFF).

(** ** The device *)

(** [queue_selected], the queue with the number [queue_select], or null. *)
Definition queue_selected (d : device) : option nat :=
  if (0 <=? queue_select d) && (queue_select d <? Z.of_nat (length (queues d))) then Some (Z.to_nat (queue_select d)) else None.

Definition reset : M t unit :=
  on_dev (fun d => d <| device_feature_select := 0 |> <| driver_feature_select := 0 |>
                     <| driver_feature := device_feature d |> <| features_ok := true |> <| device_status := 0 |>
                     <| msix_config_vector := 0xFFFF |> <| queue_select := 0 |>
                     <| queues := map reset_queue (queues d) |>
                     <| config_has_changed := false |> <| config_generation := 0 |>) ;;;
  lower_irq ;;; emit (Call "on_reset" []).

Definition on_unplug : M t unit := on_dev (fun d => d <| plug_generation := plug_generation d + 1 |>).

(** The fields of the common configuration structure. *)
Inductive field :=
| FDeviceFeatureSelect | FDeviceFeature | FDriverFeatureSelect | FDriverFeature | FMsixConfig | FNumQueues
| FDeviceStatus | FConfigGeneration | FQueueSelect | FQueueSize | FQueueMsixVector | FQueueEnable | FQueueNotifyOff
| FQueueAddress (index : Z).

Definition selected_field (d : device) (f : queue -> Z) (none : Z) : Z :=
  match queue_selected d with Some i => f (queue_at d i) | None => none end.

Definition common_read (f : field) (d : device) : Z :=
  match f with
  | FDeviceFeatureSelect => device_feature_select d
  | FDeviceFeature => word_get (device_feature d) (device_feature_select d)
  | FDriverFeatureSelect => driver_feature_select d
  | FDriverFeature => word_get (driver_feature d) (driver_feature_select d)
  | FMsixConfig => msix_config_vector d
  | FNumQueues => Z.of_nat (length (queues d))
  | FDeviceStatus => device_status d
  | FConfigGeneration => config_generation d
  | FQueueSelect => queue_select d
  | FQueueSize => selected_field d size 0
  | FQueueMsixVector => selected_field d msix_vector 0xFFFF
  | FQueueEnable => selected_field d (fun q => b2z (enabled q)) 0
  | FQueueNotifyOff => selected_field d notify_offset 0
  | FQueueAddress index => selected_field d (fun q => arr_get (address_words q) index) 0
  end.

Definition write_driver_feature (data : Z) : M t unit :=
  on_dev (fun d =>
    let supported_feature := word_get (device_feature d) (driver_feature_select d) in
    let d :=
      if driver_feature_select d <? Z.of_nat (length (driver_feature d))
      then d <| driver_feature := word_set (driver_feature d) (driver_feature_select d) (u32 (js_and data supported_feature)) |>
      else d in
    d <| features_ok := features_ok d && (js_and data (js_not supported_feature) =? 0) |>).

(** A write to the status register, after the reset a zero makes. *)
Definition set_status (data : Z) : M t unit :=
  s <-- get ;;
  when (has (data .& ~. device_status (dev s)) VIRTIO_STATUS_DRIVER_OK
        && has (device_status (dev s)) VIRTIO_STATUS_DEVICE_NEEDS_RESET) notify_config_changes ;;;
  s <-- get ;;
  let data := if features_ok (dev s) then data else data .& ~. VIRTIO_STATUS_FEATURES_OK in
  on_dev (fun d => d <| device_status := data |>) ;;;
  s <-- get ;;
  when (has (data .& ~. device_status (dev s)) VIRTIO_STATUS_DRIVER_OK) (emit (Call "on_driver_ok" [])).

Definition write_status (data : Z) : M t unit :=
  when (data =? 0) reset ;;; set_status data.

(** The size the queue gets for what the driver asks. *)
Definition round_size (q : queue) (data : Z) : Z :=
  let data := if data .& (data - 1) =? 0 then data else shl32 1 (int_log2 (data - 1) + 1) in
  if size_supported q <? data then size_supported q else data.

Definition on_selected (f : nat -> M t unit) : M t unit :=
  s <-- get ;; match queue_selected (dev s) with Some i => f i | None => skip end.

Definition common_write (f : field) (data : Z) : M t unit :=
  match f with
  | FDeviceFeatureSelect => on_dev (fun d => d <| device_feature_select := data |>)
  | FDriverFeatureSelect => on_dev (fun d => d <| driver_feature_select := data |>)
  | FDriverFeature => write_driver_feature data
  | FMsixConfig => on_dev (fun d => if qemu_compatible d then d <| msix_config_vector := data |> else d)
  | FDeviceStatus => write_status data
  | FQueueSelect => on_dev (fun d => d <| queue_select := data |>)
  | FQueueSize => on_selected (fun i => s <-- get ;; set_size i (round_size (queue_at (dev s) i) data))
  | FQueueMsixVector =>
      s <-- get ;;
      when (qemu_compatible (dev s)) (on_selected (fun i => on_queue i (fun q => q <| msix_vector := data |>)))
  | FQueueEnable =>
      when (data =? 1) (on_selected (fun i => s <-- get ;; when (is_configured (queue_at (dev s) i)) (enable i)))
  | FQueueAddress index => on_selected (fun i => set_address_word i index data)
  | FDeviceFeature | FNumQueues | FConfigGeneration | FQueueNotifyOff => skip
  end.

Definition isr_read : M t Z :=
  s <-- get ;; lower_irq ;;; ret (isr_status (dev s)).

(** A write to a notification register, with the device's handler. *)
Definition notify_write (handler : option (Z -> X unit)) (data : Z) : M t unit :=
  s <-- get ;;
  match handler with
  | Some h => if has (device_status (dev s)) VIRTIO_STATUS_DEVICE_NEEDS_RESET then skip else catch (h data) needs_reset
  | None => skip
  end.

(** ** State images *)

Record queue_image := mk_queue_image {
  qi_size : Z; qi_size_supported : Z; qi_enabled : bool; qi_notify_offset : Z; qi_desc_addr : Z; qi_avail_addr : Z;
  qi_avail_last_idx : Z; qi_used_addr : Z; qi_num_staged_replies : Z; qi_format : option Z; qi_words : option (list Z)
}.

Definition get_queue_state (q : queue) : queue_image :=
  mk_queue_image (size q) (size_supported q) (enabled q) (notify_offset q) (desc_addr q) (avail_addr q)
    (avail_last_idx q) (used_addr q) (num_staged_replies q) (Some 1) (Some (address_words q)).

Definition set_queue_state (i : queue_image) (q : queue) : queue :=
  let addr a := match qi_words i with Some _ => a | None => u32 a end in
  let desc_addr := addr (qi_desc_addr i) in
  let avail_addr := addr (qi_avail_addr i) in
  let used_addr := addr (qi_used_addr i) in
  mk_queue (qi_size i) (qi_size_supported i) (qi_size i - 1) (qi_enabled i) (qi_notify_offset i)
    (match qi_words i with Some words => words | None => [u32 desc_addr; 0; u32 avail_addr; 0; u32 used_addr; 0] end)
    (msix_vector q) desc_addr avail_addr (qi_avail_last_idx i) used_addr (qi_num_staged_replies i)
    (negb (bool_decide (qi_format i = Some 1))).

Record image := mk_image {
  i_device_feature_select : Z; i_driver_feature_select : Z; i_device_feature : list Z; i_driver_feature : list Z;
  i_features_ok : bool; i_device_status : Z; i_config_has_changed : bool; i_config_generation : Z; i_isr_status : Z;
  i_queue_select : Z; i_queues : list queue_image
}.

Definition get_state (d : device) : image :=
  mk_image (device_feature_select d) (driver_feature_select d) (device_feature d) (driver_feature d) (features_ok d)
    (device_status d) (config_has_changed d) (config_generation d) (isr_status d) (queue_select d)
    (map get_queue_state (queues d)).

(** [None]: more queues in the image than the device has. *)
Definition set_state (i : image) (d : device) : option device :=
  if (length (queues d) <? length (i_queues i))%nat then None
  else Some (mk_device (pci_id d) (absent d) (qemu_compatible d) (msix_config_vector d)
    (i_device_feature_select i) (i_driver_feature_select i) (i_device_feature i) (i_driver_feature i) (i_features_ok i)
    (i_device_status i) (i_config_has_changed i) (i_config_generation i) (plug_generation d)
    (zip_with set_queue_state (i_queues i) (queues d) ++ drop (length (i_queues i)) (queues d))
    (i_queue_select i) (i_isr_status i)).

(** ** Descriptor chains *)

Context {HL : Phys.WasmLaws W}.

(** The buffers of a request as the driver linked them: from an entry of a table
    along the [next] fields, an indirect descriptor standing for the chain of its
    table. *)
Inductive linked (w : W) : Z -> Z -> list desc -> Prop :=
| linked_last table idx d :
    get_descriptor w table idx = Some d -> has (flags d) VIRTQ_DESC_F_INDIRECT = false -> has (flags d) VIRTQ_DESC_F_NEXT = false ->
    linked w table idx [d]
| linked_next table idx d l :
    get_descriptor w table idx = Some d -> has (flags d) VIRTQ_DESC_F_INDIRECT = false -> has (flags d) VIRTQ_DESC_F_NEXT = true ->
    linked w table (next d) l -> linked w table idx (d :: l)
| linked_indirect table idx d l :
    get_descriptor w table idx = Some d -> has (flags d) VIRTQ_DESC_F_INDIRECT = true ->
    linked w (address d) 0 l -> linked w table idx l.

(** How far the loop has to go at most: the entries of the present table, and
    those of an indirect one if none was entered yet. *)
Definition entries_left (indirect : bool) (chain_length chain_max : Z) : Z :=
  chain_max - chain_length + (if indirect then 0 else 65536).
Definition steps_left (indirect : bool) (chain_length chain_max : Z) : Z :=
  entries_left indirect chain_length chain_max + (if indirect then 0 else 1).

(** Buffers the device may access, the readable and the writable ones. *)
Definition buffer_ok (w : W) (d : desc) : Prop := Phys.validate_physical_range w (address d) (len d) = true.
Definition buffers_ok (w : W) (rd wr : list desc) : Prop :=
  Forall (fun d => buffer_ok w d /\ has (flags d) VIRTQ_DESC_F_WRITE = false) rd /\
  Forall (fun d => buffer_ok w d /\ has (flags d) VIRTQ_DESC_F_WRITE = true) wr.

(** What an accepted chain adds to the buffers collected so far. *)
Definition collected (w : W) (table idx left : Z) (rd wr rd' wr' : list desc) : Prop :=
  buffers_ok w rd' wr' /\
  exists l, linked w table idx l /\ rd' ++ wr' = (rd ++ wr) ++ l /\ Z.of_nat (length l) <= left.

Lemma collect_spec fuel w f table idx n max writable indirect rd wr :
  0 <= n -> n <= max -> steps_left indirect n max < Z.of_nat fuel ->
  buffers_ok w rd wr -> (writable = false -> wr = []) ->
  exists r, collect fuel w f table idx n max writable indirect rd wr = Some r /\
    forall rd' wr', r = Some (rd', wr') -> collected w table idx (entries_left indirect n max) rd wr rd' wr'.
Proof.
  revert table idx n max writable indirect rd wr.
  induction fuel as [|fuel IH]; intros table idx n max writable indirect rd wr Hn Hmax Hf Hok Hwb.
  { unfold steps_left, entries_left in Hf. destruct indirect; lia. }
  cbn [collect]. destruct (_ || _) eqn:E0; [by eexists|]. apply orb_false_iff in E0 as [_ E0]. apply Z.ltb_ge in E0.
  destruct (get_descriptor w table idx) as [d|] eqn:Ed; [|by eexists].
  destruct (negb _) eqn:Ev; [by eexists|]. apply negb_false_iff in Ev.
  destruct (has (flags d) VIRTQ_DESC_F_INDIRECT) eqn:Ei.
  - match goal with |- context [if ?c then Some None else _] => destruct c eqn:Ec end; [by eexists|].
    apply orb_false_iff in Ec as [Ec Ebig]. apply Z.ltb_ge in Ebig.
    destruct indirect; [by rewrite orb_true_r in Ec|].
    assert (0 <= len d) by (apply Phys.validate_spec in Ev; lia).
    unfold VIRTQ_DESC_ENTRYSIZE in *. assert (0 <= len d / 16) by (apply Z.div_pos; lia).
    destruct (IH (address d) 0 0 (len d / 16) writable true rd wr) as (r & -> & Hr);
      [lia|done|unfold steps_left, entries_left in *; lia|done|done|].
    exists r. split; [done|]. intros rd' wr' E. destruct (Hr rd' wr' E) as (H3 & l & H4 & H5 & H6). split; [done|].
    exists l. split; [by eapply linked_indirect|]. split; [done|]. unfold entries_left in *. lia.
  - assert (forall rd0 wr0 wb, buffers_ok w rd0 wr0 -> (wb = false -> wr0 = []) -> rd0 ++ wr0 = (rd ++ wr) ++ [d] ->
      exists r, (if has (flags d) VIRTQ_DESC_F_NEXT
         then collect fuel w f table (next d) (n + 1) max wb indirect rd0 wr0 else Some (Some (rd0, wr0))) = Some r /\
      forall rd' wr', r = Some (rd', wr') -> collected w table idx (entries_left indirect n max) rd wr rd' wr') as Hmore.
    { intros rd0 wr0 wb Hok0 Hwb0 Eapp. destruct (has (flags d) VIRTQ_DESC_F_NEXT) eqn:Enx.
      - destruct (IH table (next d) (n + 1) max wb indirect rd0 wr0) as (r & -> & Hr);
          [lia|lia|unfold steps_left, entries_left in *; lia|done|done|].
        exists r. split; [done|]. intros rd' wr' E. destruct (Hr rd' wr' E) as (H3 & l & H4 & H5 & H6). split; [done|].
        exists (d :: l). split; [by eapply linked_next|]. rewrite H5, Eapp, <- app_assoc. split; [done|].
        cbn [length]. unfold entries_left in *. lia.
      - eexists. split; [done|]. intros rd' wr' [= <- <-]. split; [done|]. exists [d]. split; [by eapply linked_last|].
        split; [done|]. unfold entries_left. cbn [length]. destruct indirect; lia. }
    cbv zeta. destruct Hok as [Hrd Hwr]. destruct (has (flags d) VIRTQ_DESC_F_WRITE) eqn:Ew.
    + apply Hmore; [split; [done|apply Forall_app; auto]|done|by rewrite app_assoc].
    + destruct writable; [by eexists|]. rewrite (Hwb eq_refl) in *. rewrite !app_nil_r in *.
      apply Hmore; [split; [apply Forall_app; auto|done]|done|by rewrite app_nil_r].
Qed.

(** C4: a request the driver hands over cannot make the device loop or reach beyond
    the memory map.  Following its descriptor chain ends whatever guest memory
    holds (loops, wild indices, nested indirection), after at most the entries of
    the queue, one indirect descriptor and the 65536 entries of its table.  If
    the chain is accepted, the readable buffers followed by the writable ones are
    exactly the buffers in the order in which the driver linked them, every one of
    them is a range the bus decodes, and there are no more of them than the queue
    and one indirect table have entries. *)
Theorem virtio_chain (w : W) (d : device) (q : queue) (head : Z) :
  0 <= size q ->
  exists r, collect_buffers w d q head = Some r /\
    forall rd wr, r = Some (rd, wr) ->
      linked w (desc_addr q) head (rd ++ wr) /\ buffers_ok w rd wr /\ Z.of_nat (length (rd ++ wr)) <= size q + 65536.
Proof.
  intros Hs. unfold collect_buffers, collect_fuel.
  destruct (collect_spec (Z.to_nat (size q + 65536 + 3)) w (is_feature_negotiated d VIRTIO_F_RING_INDIRECT_DESC)
    (desc_addr q) head 0 (size q) false false [] []) as (r & -> & Hr);
    [lia|done|unfold steps_left, entries_left; lia|by split|done|].
  exists r. split; [done|]. intros rd wr E. destruct (Hr rd wr E) as (H1 & l & H2 & H3 & H4). cbn [app] in H3. rewrite H3.
  split; [done|]. split; [done|]. unfold entries_left in H4. lia.
Qed.

(** ** Reading and filling the buffers *)

(** A buffer in the guest's memory. *)
Definition buffer_mem (w : W) (d : desc) : Prop :=
  Phys.span (address d) (len d) /\ address d < Phys.PHYSICAL_LIMIT /\ Phys.memory w (address d) (len d).

(** The addresses of the bytes of buffers, in order, and what memory has there. *)
Definition addrs (bufs : list desc) : list Z := concat (map (fun d => seqZ (address d) (len d)) bufs).
Definition bytes (w : W) (l : list Z) : list Z := map (fun a => default 0 (Phys.ram w a)) l.

Lemma bytes_app w l l' : bytes w (l ++ l') = bytes w l ++ bytes w l'.
Proof. apply map_app. Qed.

Lemma holds_bytes_eq w a n l : Z.of_nat (length l) = n -> Phys.holds w a l -> l = bytes w (seqZ a n).
Proof.
  intros Hl Hh. apply list_eq. intros k. unfold bytes. rewrite list_lookup_fmap.
  destruct (decide (k < length l)%nat) as [Hk|Hk].
  - destruct (lookup_lt_is_Some_2 l k Hk) as [b Hb].
    assert (seqZ a n !! k = Some (a + Z.of_nat k)) as -> by (apply lookup_seqZ; lia). cbn.
    rewrite Hb. by rewrite (Hh k b Hb).
  - rewrite lookup_ge_None_2 by lia. rewrite lookup_ge_None_2; [done|]. rewrite length_seqZ. lia.
Qed.

Lemma read_buffer_part w d offset n :
  buffer_mem w d -> 0 <= offset -> offset = 0 \/ offset < len d -> 0 <= n -> offset + n <= len d ->
  Phys.read_blob_physical w (address d + offset) n = Some (bytes w (seqZ (address d + offset) n)).
Proof.
  intros (Hs & Ha & Hm) Ho Hlt Hn Hle. unfold Phys.span in Hs.
  destruct (Phys.read_blob_memory w (address d + offset) n) as (l & -> & Hl & Hh); [unfold Phys.span; lia|lia| |].
  - intros x Hx. apply Hm. lia.
  - f_equal. by apply holds_bytes_eq.
Qed.

Lemma seqZ_part a n offset m :
  0 <= offset -> 0 <= m -> offset + m <= n -> take (Z.to_nat m) (drop (Z.to_nat offset) (seqZ a n)) = seqZ (a + offset) m.
Proof.
  intros Ho Hm Hle. replace n with (offset + (m + (n - offset - m))) by lia.
  rewrite seqZ_app, drop_app_length' by (rewrite ?length_seqZ; lia).
  rewrite seqZ_app, take_app_length' by (rewrite ?length_seqZ; lia). done.
Qed.

Lemma seqZ_drop a n offset : 0 <= offset <= n -> drop (Z.to_nat offset) (seqZ a n) = seqZ (a + offset) (n - offset).
Proof.
  intros Ho. rewrite <- (seqZ_part a n offset (n - offset)) by lia. rewrite take_ge; [done|].
  rewrite length_drop, length_seqZ. lia.
Qed.

Lemma addrs_cons d bufs : addrs (d :: bufs) = seqZ (address d) (len d) ++ addrs bufs.
Proof. done. Qed.

(** The rest of a list of buffers, where the first is not used up. *)
Lemma drop_addrs d bufs offset :
  0 <= offset <= len d -> drop (Z.to_nat offset) (addrs (d :: bufs)) = seqZ (address d + offset) (len d - offset) ++ addrs bufs.
Proof.
  intros Ho. rewrite addrs_cons, drop_app_le by (rewrite length_seqZ; lia). by rewrite seqZ_drop.
Qed.

Definition head_ok (bufs : list desc) (offset : Z) : Prop :=
  0 <= offset /\ match bufs with [] => offset = 0 | b :: _ => offset = 0 \/ offset < len b end.

Lemma head_ok_0 bufs : head_ok bufs 0.
Proof. split; [done|]. destruct bufs; auto. Qed.

Lemma blob_loop_spec w bufs idx offset n :
  Forall (buffer_mem w) bufs -> 0 <= n -> head_ok bufs offset ->
  exists k offset', blob_loop bufs idx offset n w
      = (Some (bytes w (take (Z.to_nat n) (drop (Z.to_nat offset) (addrs bufs)))), idx + k, offset')
    /\ 0 <= k /\ head_ok (drop (Z.to_nat k) bufs) offset'
    /\ drop (Z.to_nat offset') (addrs (drop (Z.to_nat k) bufs)) = drop (Z.to_nat n) (drop (Z.to_nat offset) (addrs bufs)).
Proof.
  revert idx offset n. induction bufs as [|d bufs IH]; intros idx offset n Hb Hn [Ho Hh].
  - exists 0, offset. cbn [blob_loop]. subst. cbn. rewrite Z.add_0_r, !drop_nil, take_nil.
    split; [by destruct (n =? 0)|]. done.
  - cbn [blob_loop]. destruct (n =? 0) eqn:En.
    { apply Z.eqb_eq in En as ->. exists 0, offset. rewrite Z.add_0_r. cbn. split; [done|]. split; [done|]. by split. }
    apply Z.eqb_neq in En. apply Forall_cons in Hb as [Hd Hb].
    assert (0 <= len d) by (destruct Hd as [Hd _]; unfold Phys.span in Hd; lia).
    rewrite drop_addrs by lia. destruct (n <? len d - offset) eqn:E.
    + apply Z.ltb_lt in E. rewrite read_buffer_part by (done || lia). exists 0, (offset + n). rewrite Z.add_0_r.
      split; [|split; [done|split]].
      * do 3 f_equal. rewrite take_app_le by (rewrite length_seqZ; lia).
        pose proof (seqZ_part (address d + offset) (len d - offset) 0 n ltac:(lia) ltac:(lia) ltac:(lia)) as Hp.
        rewrite drop_0, Z.add_0_r in Hp. by rewrite Hp.
      * split; [lia|]. right. lia.
      * change (drop (Z.to_nat 0) (d :: bufs)) with (d :: bufs). rewrite drop_addrs by lia.
        rewrite drop_app_le by (rewrite length_seqZ; lia). rewrite seqZ_drop by lia. do 2 f_equal; lia.
    + apply Z.ltb_ge in E. rewrite read_buffer_part by (done || lia).
      destruct (IH (idx + 1) 0 (n - (len d - offset))) as (k & offset' & -> & Hk & Hh' & Hr);
        [done|lia|apply head_ok_0|].
      exists (k + 1), offset'.
      assert (drop (Z.to_nat (k + 1)) (d :: bufs) = drop (Z.to_nat k) bufs) as Hdrop
        by (replace (Z.to_nat (k + 1)) with (S (Z.to_nat k)) by lia; done).
      rewrite Hdrop. change (Z.to_nat 0) with 0%nat in *. rewrite drop_0 in *.
      assert (forall A (f : nat -> list A -> list A) (l : list A), f (Z.to_nat n) l = f (Z.to_nat (len d - offset) + Z.to_nat (n - (len d - offset)))%nat l) as Hsplit.
      { intros A f l. f_equal. lia. }
      split; [|split; [lia|split; [done|]]].
      * cbn [mbind option_bind]. rewrite (Hsplit _ take), take_app_add' by (rewrite length_seqZ; lia).
        rewrite bytes_app. by replace (idx + (k + 1)) with (idx + 1 + k) by lia.
      * rewrite Hr, (Hsplit _ drop). rewrite drop_app_add' by (rewrite length_seqZ; lia). done.
Qed.

(** Memory [f] with the bytes [src] at the addresses [l], in order. *)
Fixpoint patch (f : Z -> option Z) (l src : list Z) (x : Z) : option Z :=
  match l, src with
  | a :: l, b :: src => patch (fun x => if decide (x = a) then Some b else f x) l src x
  | _, _ => f x
  end.

Lemma patch_ext f g l src x : (forall x, f x = g x) -> patch f l src x = patch g l src x.
Proof.
  revert f g src. induction l as [|a l IH]; intros f g src H; [apply H|]. destruct src as [|b src]; [apply H|].
  cbn. apply IH. intros y. by rewrite H.
Qed.

Lemma patch_app f l1 l2 s1 s2 x :
  length l1 = length s1 -> patch f (l1 ++ l2) (s1 ++ s2) x = patch (patch f l1 s1) l2 s2 x.
Proof.
  revert f s1. induction l1 as [|a l1 IH]; intros f [|b s1] H; try done. cbn. rewrite IH by (cbn in H; lia). done.
Qed.

Lemma patch_out f l src x : x ∉ l -> patch f l src x = f x.
Proof.
  revert f src. induction l as [|a l IH]; intros f src H; [done|]. destruct src as [|b src]; [done|]. cbn.
  apply not_elem_of_cons in H as [H1 H2]. rewrite IH by done. by rewrite decide_False.
Qed.

Lemma patch_in f l src k a b : NoDup l -> l !! k = Some a -> src !! k = Some b -> patch f l src a = Some b.
Proof.
  revert f src k. induction l as [|a' l IH]; intros f src k Hn Ha Hb; [done|]. apply NoDup_cons in Hn as [Hn Hn'].
  destruct src as [|b' src]; [done|]. destruct k as [|k]; cbn in *; simplify_eq.
  - rewrite patch_out by done. by rewrite decide_True.
  - by eapply IH.
Qed.

(** An address that is stored to more than once keeps the last byte. *)
Lemma patch_last f l src k a b : l !! k = Some a -> src !! k = Some b -> a ∉ drop (S k) l -> patch f l src a = Some b.
Proof.
  revert f src k. induction l as [|a' l IH]; intros f src k Ha Hb Hn; [done|].
  destruct src as [|b' src]; [done|]. destruct k as [|k]; cbn in *; simplify_eq.
  - rewrite drop_0 in Hn. rewrite patch_out by done. by rewrite decide_True.
  - by eapply IH.
Qed.

Lemma overwrite_patch f a l x : Phys.overwrite f a l x = patch f (seqZ a (Z.of_nat (length l))) l x.
Proof.
  unfold Phys.overwrite. case_decide as Hx.
  - destruct (lookup_lt_is_Some_2 l (Z.to_nat (x - a))) as [b Hb]; [lia|]. rewrite Hb. symmetry.
    apply (patch_in _ _ _ (Z.to_nat (x - a))); [apply NoDup_seqZ| |done]. apply lookup_seqZ. lia.
  - rewrite patch_out; [done|]. rewrite elem_of_seqZ. lia.
Qed.

(** [w'] is [w] with [src] stored at the addresses [l]. *)
Definition filled (w w' : W) (l src : list Z) : Prop :=
  (forall x, Phys.ram w' x = patch (Phys.ram w) l src x) /\ forall x, Phys.kind w' x = Phys.kind w x.

Lemma filled_app w w1 w2 l1 l2 s1 s2 :
  length l1 = length s1 -> filled w w1 l1 s1 -> filled w1 w2 l2 s2 -> filled w w2 (l1 ++ l2) (s1 ++ s2).
Proof.
  intros Hl [H1 K1] [H2 K2]. split; intros x; [|by rewrite K2].
  rewrite H2, patch_app by done. by apply patch_ext.
Qed.

Lemma filled_memory w w' l src a n : filled w w' l src -> Phys.memory w a n -> Phys.memory w' a n.
Proof.
  intros [Hr _] Hm x Hx. rewrite Hr. specialize (Hm x Hx). clear Hr. revert Hm. generalize (Phys.ram w). revert src. clear.
  induction l as [|a l IH]; intros src f Hf; [done|]. destruct src as [|b src]; [done|]. cbn. apply IH.
  destruct (decide (x = a)); [by eexists|done].
Qed.

Lemma filled_buffer w w' l src d : filled w w' l src -> buffer_mem w d -> buffer_mem w' d.
Proof. intros Hf (H1 & H2 & H3). split_and!; [done|done|]. by eapply filled_memory. Qed.

Lemma write_buffer_part w d offset src :
  buffer_mem w d -> 0 <= offset -> offset = 0 \/ offset < len d -> offset + Z.of_nat (length src) <= len d -> Forall byte src ->
  exists w', Phys.write_blob_physical w src (address d + offset) = Some w'
    /\ filled w w' (seqZ (address d + offset) (Z.of_nat (length src))) src.
Proof.
  intros (Hs & Ha & Hm) Ho Hlt Hle Hb. unfold Phys.span in Hs.
  destruct (Phys.write_blob_memory w (address d + offset) src) as (w' & E & Hr & Hk); [unfold Phys.span; lia|lia| |done|].
  - intros x Hx. apply Hm. lia.
  - exists w'. split; [done|]. split; [|done]. intros x. rewrite Hr. apply overwrite_patch.
Qed.

Lemma store_loop_spec bufs : forall w idx offset src,
  Forall (buffer_mem w) bufs -> head_ok bufs offset -> Forall byte src ->
  let R := drop (Z.to_nat offset) (addrs bufs) in
  let n := Nat.min (length src) (length R) in
  exists w' k offset', store_loop bufs idx offset src w = (true, w', idx + k, offset', Z.of_nat n)
    /\ 0 <= k /\ head_ok (drop (Z.to_nat k) bufs) offset'
    /\ drop (Z.to_nat offset') (addrs (drop (Z.to_nat k) bufs)) = drop n R
    /\ filled w w' (take n R) (take n src).
Proof.
  induction bufs as [|d bufs IH]; intros w idx offset src Hb [Ho Hh] Hsrc R n.
  - exists w, 0, offset. subst offset. unfold n, R. cbn [store_loop]. rewrite Z.add_0_r, Nat.min_0_r.
    split; [by destruct src|]. split; [done|]. split; [by split|]. split; [done|]. by split.
  - destruct (decide (src = [])) as [->|Hne].
    { exists w, 0, offset. cbn. rewrite Z.add_0_r. split; [done|]. split; [done|]. split; [by split|]. split; [done|]. by split. }
    apply Forall_cons in Hb as [Hd Hb]. assert (0 <= len d) by (destruct Hd as [Hd _]; unfold Phys.span in Hd; lia).
    unfold n, R. rewrite drop_addrs by lia. rewrite length_app, length_seqZ.
    assert (store_loop (d :: bufs) idx offset src w =
      let '(write_length, idx', offset') :=
        if Z.of_nat (length src) <? len d - offset then (Z.of_nat (length src), idx, offset + Z.of_nat (length src)) else (len d - offset, idx + 1, 0) in
      match Phys.write_blob_physical w (take (Z.to_nat write_length) src) (address d + offset) with
      | None => (false, w, idx', offset', 0)
      | Some w =>
          if Z.of_nat (length src) <? len d - offset then (true, w, idx', offset', write_length)
          else
            let '(ok, w, idx'', offset'', n) := store_loop bufs idx' offset' (drop (Z.to_nat write_length) src) w in
            (ok, w, idx'', offset'', write_length + n)
      end) as -> by (by destruct src).
    destruct (Z.of_nat (length src) <? len d - offset) eqn:E.
    + apply Z.ltb_lt in E. rewrite Nat2Z.id, firstn_all. rewrite Nat.min_l by lia. rewrite firstn_all.
      destruct (write_buffer_part w d offset src) as (w' & -> & Hf); [done|done|lia|lia|done|].
      exists w', 0, (offset + Z.of_nat (length src)). rewrite Z.add_0_r.
      split; [done|]. split; [done|]. split; [split; [lia|]; right; lia|]. split.
      * change (drop (Z.to_nat 0) (d :: bufs)) with (d :: bufs). rewrite drop_addrs by lia.
        rewrite drop_app_le by (rewrite length_seqZ; lia).
        rewrite <- (Nat2Z.id (length src)), seqZ_drop by lia. rewrite Nat2Z.id. do 2 f_equal; lia.
      * rewrite take_app_le by (rewrite length_seqZ; lia).
        pose proof (seqZ_part (address d + offset) (len d - offset) 0 (Z.of_nat (length src)) ltac:(lia) ltac:(lia) ltac:(lia)) as Hp.
        rewrite drop_0, Z.add_0_r, Nat2Z.id in Hp. by rewrite Hp.
    + apply Z.ltb_ge in E. set (m := Z.to_nat (len d - offset)).
      assert (length (take m src) = m) as Hm by (rewrite length_take; lia).
      destruct (write_buffer_part w d offset (take m src)) as (w1 & -> & Hf);
        [done|done|lia|rewrite Hm; lia|by apply Forall_take|]. rewrite Hm in Hf.
      destruct (IH w1 (idx + 1) 0 (drop m src)) as (w' & k & offset' & -> & Hk & Hh' & Hr & Hf');
        [eapply Forall_impl; [exact Hb|]; intros; by eapply filled_buffer|apply head_ok_0|by apply Forall_drop|].
      change (Z.to_nat 0) with 0%nat in *. rewrite drop_0 in *. rewrite length_drop in *.
      set (j := Nat.min (length src - m) (length (addrs bufs))) in *.
      assert (Nat.min (length src) (m + length (addrs bufs)) = m + j)%nat as -> by lia.
      exists w', (k + 1), offset'.
      assert (drop (Z.to_nat (k + 1)) (d :: bufs) = drop (Z.to_nat k) bufs) as -> by (replace (Z.to_nat (k + 1)) with (S (Z.to_nat k)) by lia; done).
      split; [|split; [lia|split; [done|split]]].
      * replace (idx + (k + 1)) with (idx + 1 + k) by lia. f_equal. lia.
      * rewrite Hr. rewrite drop_app_add' by (rewrite length_seqZ; lia). done.
      * rewrite take_app_add' by (rewrite length_seqZ; lia).
        rewrite <- (take_drop m src) at 1. rewrite take_app_add' by lia.
        apply (filled_app w w1); [rewrite length_seqZ; lia| |done].
        by replace (Z.of_nat m) with (len d - offset) in Hf by lia.
Qed.

(** The addresses a chain has still to read and to fill. *)
Definition readable (c : chain) : list Z := drop (Z.to_nat (read_buffer_offset c)) (addrs (drop (Z.to_nat (read_buffer_idx c)) (read_buffers c))).
Definition writable (c : chain) : list Z := drop (Z.to_nat (write_buffer_offset c)) (addrs (drop (Z.to_nat (write_buffer_idx c)) (write_buffers c))).

Definition reading (w : W) (c : chain) : Prop :=
  Forall (buffer_mem w) (read_buffers c) /\ 0 <= read_buffer_idx c
  /\ head_ok (drop (Z.to_nat (read_buffer_idx c)) (read_buffers c)) (read_buffer_offset c).

Definition writing (w : W) (c : chain) : Prop :=
  Forall (buffer_mem w) (write_buffers c) /\ 0 <= write_buffer_idx c
  /\ head_ok (drop (Z.to_nat (write_buffer_idx c)) (write_buffers c)) (write_buffer_offset c).

Lemma get_next_blob_spec w c n :
  reading w c -> 0 <= n ->
  exists c', get_next_blob c n w = (Some (bytes w (take (Z.to_nat n) (readable c))), c')
    /\ reading w c' /\ readable c' = drop (Z.to_nat n) (readable c).
Proof.
  intros (Hb & Hi & Hh) Hn. unfold get_next_blob.
  destruct (blob_loop_spec w (drop (Z.to_nat (read_buffer_idx c)) (read_buffers c)) (read_buffer_idx c) (read_buffer_offset c) n)
    as (k & offset' & -> & Hk & Hh' & Hr); [by apply Forall_drop|done|done|].
  rewrite drop_drop in *. replace (Z.to_nat (read_buffer_idx c) + Z.to_nat k)%nat with (Z.to_nat (read_buffer_idx c + k)) in * by lia.
  eexists. split; [done|]. split; [split; [done|split; [cbn; lia|done]]|]. exact Hr.
Qed.

(** Reads of the given lengths, one after the other. *)
Fixpoint get_blobs (c : chain) (ns : list Z) (w : W) : option (list Z) * chain :=
  match ns with
  | [] => (Some [], c)
  | n :: ns =>
      let '(r, c) := get_next_blob c n w in
      let '(rs, c) := get_blobs c ns w in
      (a ← r; b ← rs; Some (a ++ b), c)
  end.

Definition sum (ns : list Z) : Z := foldr Z.add 0 ns.

Lemma get_blobs_spec w c ns :
  reading w c -> Forall (fun n => 0 <= n) ns ->
  (get_blobs c ns w).1 = Some (bytes w (take (Z.to_nat (sum ns)) (readable c))).
Proof.
  intros Hr Hns. revert c Hr. induction Hns as [|n ns Hn Hns IH]; intros c Hr; [done|]. cbn [get_blobs].
  destruct (get_next_blob_spec w c n Hr Hn) as (c' & -> & Hr' & Hd). specialize (IH c' Hr').
  destruct (get_blobs c' ns w) as [rs c'']. cbn [fst] in *. rewrite IH. cbn [mbind option_bind]. f_equal.
  rewrite <- bytes_app. f_equal. rewrite Hd.
  assert (0 <= sum ns) by (clear -Hns; unfold sum; induction Hns; cbn [foldr]; lia). change (sum (n :: ns)) with (n + sum ns).
  rewrite Z2Nat.inj_add by lia. apply take_take_drop.
Qed.

(** C29: The device reads a request as one stream: of a new chain whose readable buffers lie in RAM, whatever lengths it asks for, one after the other, and however the
    driver cut the request into buffers, what it gets is the concatenation of the device-readable
    buffers' contents, in order, up to the amount asked for, and never anything beyond them. *)
Theorem virtio_read_stream (w : W) (c : chain) (ns : list Z) :
  Forall (buffer_mem w) (read_buffers c) -> read_buffer_idx c = 0 -> read_buffer_offset c = 0 ->
  Forall (fun n => 0 <= n) ns ->
  (get_blobs c ns w).1 = Some (take (Z.to_nat (sum ns)) (bytes w (addrs (read_buffers c)))).
Proof.
  intros Hb H1 H2 Hns. rewrite get_blobs_spec; [|split; [done|]; rewrite H1, H2; split; [done|apply head_ok_0]|done].
  unfold readable. rewrite H1, H2, !drop_0. unfold bytes. by rewrite <- firstn_map.
Qed.

Lemma set_next_blob_spec s c src :
  writing (mem s) c -> chain_generation c = plug_generation (dev s) -> Forall byte src ->
  let n := Nat.min (length src) (length (writable c)) in
  exists w' c', set_next_blob c src s = (Some (Z.of_nat n), c', mk (dev s) w', [])
    /\ writing w' c' /\ writable c' = drop n (writable c) /\ filled (mem s) w' (take n (writable c)) (take n src)
    /\ length_written c' = length_written c + Z.of_nat n /\ chain_generation c' = chain_generation c
    /\ write_buffers c' = write_buffers c.
Proof.
  intros (Hb & Hi & Hh) Hg Hsrc n. unfold set_next_blob. rewrite bind_get. rewrite Hg, Z.eqb_refl. cbn [negb].
  destruct (store_loop_spec (drop (Z.to_nat (write_buffer_idx c)) (write_buffers c)) (mem s) (write_buffer_idx c) (write_buffer_offset c) src)
    as (w' & k & offset' & -> & Hk & Hh' & Hr & Hf); [by apply Forall_drop|done|done|].
  rewrite bind_modify. rewrite drop_drop in *.
  replace (Z.to_nat (write_buffer_idx c) + Z.to_nat k)%nat with (Z.to_nat (write_buffer_idx c + k)) in * by lia.
  eexists w', _. split; [done|]. split; [split; [|split; [cbn; lia|done]]|].
  - eapply Forall_impl; [exact Hb|]. intros d Hd. by eapply filled_buffer.
  - split_and!; done.
Qed.

(** Writes of the given blobs, one after the other. *)
Fixpoint set_blobs (c : chain) (srcs : list (list Z)) : M t (option Z * chain) :=
  match srcs with
  | [] => ret (Some 0, c)
  | src :: srcs =>
      r <-- set_next_blob c src ;;
      match r with
      | (None, c) => ret (None, c)
      | (Some n, c) => r <-- set_blobs c srcs ;; ret (m ← r.1; Some (n + m), r.2)
      end
  end.

Lemma set_blobs_spec srcs : forall s c,
  writing (mem s) c -> chain_generation c = plug_generation (dev s) -> Forall (Forall byte) srcs ->
  let src := concat srcs in
  let n := Nat.min (length src) (length (writable c)) in
  exists w' c', set_blobs c srcs s = (Some (Z.of_nat n), c', mk (dev s) w', [])
    /\ filled (mem s) w' (take n (writable c)) (take n src) /\ length_written c' = length_written c + Z.of_nat n.
Proof.
  induction srcs as [|x srcs IH]; intros s c Hw Hg Hb src n.
  - exists (mem s), c. cbn. destruct s. split; [done|]. split; [by split|lia].
  - apply Forall_cons in Hb as [Hx Hb].
    destruct (set_next_blob_spec s c x Hw Hg Hx) as (w1 & c1 & E1 & Hw1 & Hd1 & Hf1 & Hl1 & Hg1 & _).
    destruct (IH (mk (dev s) w1) c1) as (w2 & c2 & E2 & Hf2 & Hl2); [done|by rewrite Hg1|done|].
    exists w2, c2. cbn [set_blobs]. rewrite (bind_quiet _ _ _ _ _ E1), (bind_quiet _ _ _ _ _ E2).
    rewrite Hd1, length_drop in *. unfold n, src. cbn [concat]. rewrite length_app.
    set (a := Nat.min (length x) (length (writable c))) in *.
    set (b := Nat.min (length (concat srcs)) (length (writable c) - a)) in *.
    assert (Nat.min (length x + length (concat srcs)) (length (writable c)) = a + b)%nat as -> by lia.
    split; [|split].
    + rewrite Nat2Z.inj_add. done.
    + rewrite <- (take_drop a (writable c)) at 1. rewrite take_app_add' by (rewrite length_take; lia).
      assert (take (a + b) (x ++ concat srcs) = take a x ++ take b (concat srcs)) as ->.
      { destruct (decide (length x <= length (writable c))%nat).
        - assert (a = length x) as -> by lia. rewrite firstn_all. by rewrite take_app_add' by done.
        - assert (b = 0)%nat as -> by lia. rewrite Nat.add_0_r, take_0, app_nil_r. apply take_app_le. lia. }
      apply (filled_app _ w1); [rewrite !length_take; lia|done|done].
    + lia.
Qed.

(** C30: the device fills a request as one stream: for a new chain whose writable
    buffers lie in RAM, on a device that has not been unplugged since the chain was
    taken, the blobs it writes, one after the other and of whatever lengths, end
    up in the device-writable buffers in order, each byte at the next address of
    the buffers, until they are full (where the driver made buffers overlap, an
    address keeps the last byte written to it); the return values and
    [length_written] count the bytes stored; no other byte of memory, no register
    and no interrupt is touched. *)
Theorem virtio_write_stream (s : t) (c : chain) (srcs : list (list Z)) :
  Forall (buffer_mem (mem s)) (write_buffers c) ->
  write_buffer_idx c = 0 -> write_buffer_offset c = 0 -> length_written c = 0 ->
  chain_generation c = plug_generation (dev s) -> Forall (Forall byte) srcs ->
  let n := Nat.min (length (concat srcs)) (length (addrs (write_buffers c))) in
  let l := take n (addrs (write_buffers c)) in
  exists w' c', set_blobs c srcs s = (Some (Z.of_nat n), c', mk (dev s) w', []) /\ length_written c' = Z.of_nat n
    /\ (forall k a b, l !! k = Some a -> a ∉ drop (S k) l -> concat srcs !! k = Some b -> Phys.ram w' a = Some b)
    /\ (forall x, x ∉ l -> Phys.ram w' x = Phys.ram (mem s) x).
Proof.
  intros Hb H1 H2 H3 Hg Hsrc n l.
  assert (writable c = addrs (write_buffers c)) as Hw by (unfold writable; by rewrite H1, H2, !drop_0).
  destruct (set_blobs_spec srcs s c) as (w' & c' & E & [Hr _] & Hl); [|done|done|].
  { split; [done|]. rewrite H1, H2. split; [done|apply head_ok_0]. }
  rewrite Hw in *. fold n in E, Hr, Hl. fold l in Hr. exists w', c'. split; [done|]. split; [lia|]. split.
  - intros k a b Ha Hlast Hbk. rewrite Hr. apply (patch_last _ _ _ k); [done| |done].
    rewrite lookup_take_lt; [done|]. apply lookup_lt_Some in Ha. unfold l in Ha. rewrite length_take in Ha. lia.
  - intros x Hx. rewrite Hr. by apply patch_out.
Qed.

(** ** The rings *)

Lemma bindx_run {A B} (m : X A) (k : A -> X B) s a s' es :
  m s = (Some a, s', es) -> bindx m k s = let r := k a s' in (r.1.1, r.1.2, es ++ r.2).
Proof. intros E. unfold bindx, bind, res, exec, evs. by rewrite E. Qed.

Lemma bindx_quiet {A B} (m : X A) (k : A -> X B) s a s' :
  m s = (Some a, s', []) -> bindx m k s = k a s'.
Proof. intros E. rewrite (bindx_run _ _ _ _ _ _ E). cbn. by destruct (k a s') as [[] ?]. Qed.

Lemma lift_run {A} (m : M t A) s a s' es : m s = (a, s', es) -> lift m s = (Some a, s', es).
Proof. intros E. unfold lift, bind, res, exec, evs. rewrite E. cbn. by rewrite app_nil_r. Qed.

Lemma this_queue_run i s : this_queue i s = (Some (queue_at (dev s) i), s, []).
Proof. done. Qed.

Lemma on_queue_run i f s :
  on_queue i f s = (tt, mk ((dev s) <| queues := alter f i (queues (dev s)) |>) (mem s), []).
Proof. done. Qed.

Lemma queue_at_alter f i d :
  (i < length (queues d))%nat -> queue_at (d <| queues := alter f i (queues d) |>) i = f (queue_at d i).
Proof.
  intros Hi. unfold queue_at. cbn -[alter]. rewrite list_lookup_alter_eq.
  destruct (lookup_lt_is_Some_2 _ _ Hi) as [q ->]. done.
Qed.

(** The 16 bits at an address of memory. *)
Definition val16 (w : W) (a : Z) : Z := default 0 (Phys.ram w a) + 256 * default 0 (Phys.ram w (a + 1)).

Definition in_memory (w : W) (a n : Z) : Prop := Phys.span a n /\ Phys.memory w a n.

Lemma in_memory_part w a n b m : in_memory w a n -> a <= b -> 0 <= m -> b + m <= a + n -> in_memory w b m.
Proof.
  intros [Hs Hm] H1 H2 H3. unfold Phys.span in *. split; [unfold Phys.span; lia|]. intros x Hx. apply Hm. lia.
Qed.

Lemma read16_val w a : in_memory w a 2 -> Phys.read16_physical w a = Some (val16 w a).
Proof.
  intros [Hs Hm]. unfold Phys.span in Hs.
  destruct (Hm a ltac:(lia)) as [b0 H0]. destruct (Hm (a + 1) ltac:(lia)) as [b1 H1].
  unfold Phys.read16_physical. rewrite (Phys.read_scalar_memory w a 16 [b0; b1]).
  - unfold val16. rewrite H0, H1. cbn. f_equal. lia.
  - right. left. done.
  - unfold Phys.span. change (16 / 8) with 2. lia.
  - lia.
  - intros [|[|k]] b Hk; cbn in Hk; simplify_eq.
    + by replace (a + Z.of_nat 0) with a by lia.
    + by replace (a + Z.of_nat 1) with (a + 1) by lia.
  - done.
Qed.

Lemma val16_range w a : in_memory w a 2 -> 0 <= val16 w a < 65536.
Proof.
  intros [Hs Hm]. unfold Phys.span in Hs.
  destruct (Hm a ltac:(lia)) as [b0 H0]. destruct (Hm (a + 1) ltac:(lia)) as [b1 H1].
  unfold val16. rewrite H0, H1. cbn. apply Phys.ram_byte in H0, H1. unfold byte in *. lia.
Qed.

Lemma rd16_run a s : in_memory (mem s) a 2 -> rd16 a s = (Some (val16 (mem s) a), s, []).
Proof. intros Hm. unfold rd16. rewrite bind_get. unfold ret. by rewrite read16_val. Qed.

(** A queue whose rings lie in memory, of a size the protocol allows. *)
Record rings_ok (w : W) (q : queue) : Prop := {
  ro_size : exists k, 0 <= k <= 15 /\ size q = 2 ^ k;
  ro_mask : mask q = size q - 1;
  ro_avail : in_memory w (avail_addr q) (VIRTQ_AVAIL_BASESIZE + size q * VIRTQ_AVAIL_ENTRYSIZE);
  ro_used : in_memory w (used_addr q) (VIRTQ_USED_BASESIZE + size q * VIRTQ_USED_ENTRYSIZE)
}.

Lemma ring_slot w q n : rings_ok w q -> n .& mask q = n mod size q /\ 0 <= n mod size q < size q /\ 0 < size q <= 32768.
Proof.
  intros [(k & Hk & Hs) Hm _ _].
  assert (0 < size q <= 32768) as Hp.
  { rewrite Hs. split; [lia|]. change 32768 with (2 ^ 15). apply Z.pow_le_mono_r; lia. }
  split; [|split; [apply Z.mod_pos_bound; lia|done]]. rewrite Hm, Hs. apply land_ones_mod. lia.
Qed.

(** The index wraps at 65536, of which the size of the queue is a divisor. *)
Lemma slot_wrap w q n : rings_ok w q -> (n mod 65536) mod size q = n mod size q.
Proof.
  intros [(k & Hk & Hs) _ _ _]. rewrite Hs. apply Z.mod_mod_divide.
  exists (2 ^ (16 - k)). rewrite <- Z.pow_add_r by lia. by replace (16 - k + k) with 16 by lia.
Qed.

(** The entry of the available ring for the request number [n]. *)
Definition avail_entry (w : W) (q : queue) (n : Z) : Z := val16 w (avail_addr q + 4 + 2 * (n mod size q)).

Lemma avail_get_entry_run i n s :
  rings_ok (mem s) (queue_at (dev s) i) ->
  avail_get_entry i n s = (Some (avail_entry (mem s) (queue_at (dev s) i) n), s, []).
Proof.
  intros Hr. unfold avail_get_entry. rewrite (bindx_quiet _ _ _ _ _ (this_queue_run i s)).
  destruct (ring_slot _ _ n Hr) as (E & Hn & Hs). rewrite E. apply rd16_run.
  eapply in_memory_part; [apply (ro_avail _ _ Hr)|unfold VIRTQ_AVAIL_ENTRYSIZE, VIRTQ_AVAIL_BASESIZE; lia..].
Qed.

Lemma avail_get_idx_run i s :
  rings_ok (mem s) (queue_at (dev s) i) ->
  avail_get_idx i s = (Some (val16 (mem s) (avail_addr (queue_at (dev s) i) + 2)), s, []).
Proof.
  intros Hr. unfold avail_get_idx. rewrite (bindx_quiet _ _ _ _ _ (this_queue_run i s)).
  destruct (ring_slot _ _ 0 Hr) as (_ & _ & Hs). apply rd16_run.
  eapply in_memory_part; [apply (ro_avail _ _ Hr)|unfold VIRTQ_AVAIL_ENTRYSIZE, VIRTQ_AVAIL_BASESIZE; lia..].
Qed.

Lemma count_requests_run i s (q := queue_at (dev s) i) :
  rings_ok (mem s) q -> fix_wrapping q = false ->
  count_requests i s = (Some ((val16 (mem s) (avail_addr q + 2) - avail_last_idx q) mod 65536), s, []).
Proof.
  intros Hr Hf. unfold count_requests. rewrite (bindx_quiet _ _ _ _ _ (this_queue_run i s)). fold q. rewrite Hf.
  rewrite (bindx_quiet _ _ _ tt s) by done.
  rewrite (bindx_quiet _ _ _ _ _ (avail_get_idx_run i s Hr)). rewrite (bindx_quiet _ _ _ _ _ (this_queue_run i s)).
  fold q. unfold pure, ret. by rewrite land_ffff.
Qed.

(** A new chain has its head, and at most marks the device as broken. *)
Lemma new_chain_run i h s :
  exists c s' es, new_chain i h s = (c, s', es) /\ head_idx c = h /\ mem s' = mem s /\ queues (dev s') = queues (dev s).
Proof.
  assert (exists s' es, needs_reset s = (tt, s', es) /\ mem s' = mem s /\ queues (dev s') = queues (dev s)) as (s' & es & E & Hm & Hq).
  { unfold needs_reset, on_dev. rewrite bind_modify, bind_get. unfold when, notify_config_changes, raise_irq, on_dev.
    set (s1 := mk _ _). destruct (has (device_status (dev s1)) VIRTIO_STATUS_DRIVER_OK) eqn:Ed; [|do 2 eexists; split; [reflexivity|done]].
    rewrite bind_modify, bind_get. unfold when. cbn [dev device_status]. destruct (has _ _); do 2 eexists; (split; [reflexivity|done]). }
  unfold new_chain. rewrite bind_get.
  destruct (collect_buffers (mem s) (dev s) (queue_at (dev s) i) h) as [[[rd wr]|]|]; [do 3 eexists; split; [reflexivity|done]| |];
    unfold bind, res, exec, evs; rewrite E; do 3 eexists; (split; [reflexivity|done]).
Qed.

Lemma pop_request_run i s (q := queue_at (dev s) i) :
  (i < length (queues (dev s)))%nat -> rings_ok (mem s) q ->
  exists c s' es, pop_request i s = (Some c, s', es) /\ head_idx c = avail_entry (mem s) q (avail_last_idx q)
    /\ mem s' = mem s /\ length (queues (dev s')) = length (queues (dev s))
    /\ queue_at (dev s') i = q <| avail_last_idx := (avail_last_idx q + 1) mod 65536 |>.
Proof.
  intros Hi Hr. unfold pop_request. rewrite (bindx_quiet _ _ _ _ _ (this_queue_run i s)). fold q.
  rewrite (bindx_quiet _ _ _ _ _ (avail_get_entry_run i _ s Hr)). fold q.
  destruct (new_chain_run i (avail_entry (mem s) q (avail_last_idx q)) s) as (c & s1 & es & E & Hh & Hm & Hq).
  rewrite (bindx_run _ _ _ _ _ _ (lift_run _ _ _ _ _ E)).
  rewrite (bindx_quiet _ _ _ tt _ (lift_run _ _ _ _ _ (on_queue_run i _ s1))).
  do 3 eexists. split; [reflexivity|]. split; [done|]. split; [exact Hm|]. split.
  - rewrite <- Hq. apply length_alter.
  - etransitivity; [apply queue_at_alter; by rewrite Hq|]. unfold q, queue_at. by rewrite Hq, land_ffff.
Qed.

(** [n] requests taken one after the other. *)
Fixpoint pop_requests (i : nat) (n : nat) : X (list chain) :=
  match n with
  | O => pure []
  | S n => c <-! pop_request i ;; cs <-! pop_requests i n ;; pure (c :: cs)
  end.

Lemma rings_ok_idx w q v : rings_ok w q -> rings_ok w (q <| avail_last_idx := v |>).
Proof. by intros []. Qed.

(** Requests are taken in the order the driver published them, across the wrap of the ring and of the 16-bit
    index: with [n] requests waiting by [count_requests], taking [m <= n] of them succeeds, the j-th
    has the descriptor of ring entry (last index + j) modulo the queue size, and [n - m] are waiting
    afterwards, whatever the descriptors say. *)
Theorem virtio_pop_order (s : t) (i m : nat) (q := queue_at (dev s) i) (n := (val16 (mem s) (avail_addr q + 2) - avail_last_idx q) mod 65536) :
  (i < length (queues (dev s)))%nat -> rings_ok (mem s) q -> fix_wrapping q = false -> Z.of_nat m <= n ->
  count_requests i s = (Some n, s, []) /\
  exists cs s' es, pop_requests i m s = (Some cs, s', es)
    /\ map head_idx cs = map (fun j => avail_entry (mem s) q (avail_last_idx q + Z.of_nat j)) (seq 0 m)
    /\ count_requests i s' = (Some (n - Z.of_nat m), s', []).
Proof.
  intros Hi Hr Hf Hm. split; [by apply count_requests_run|].
  enough (forall m s q', (i < length (queues (dev s)))%nat -> rings_ok (mem s) q' -> queue_at (dev s) i = q' -> exists cs s' es,
      pop_requests i m s = (Some cs, s', es)
      /\ map head_idx cs = map (fun j => avail_entry (mem s) q' (avail_last_idx q' + Z.of_nat j)) (seq 0 m)
      /\ mem s' = mem s /\ exists v, v mod 65536 = (avail_last_idx q' + Z.of_nat m) mod 65536
      /\ queue_at (dev s') i = q' <| avail_last_idx := v |>) as H.
  { destruct (H m s q Hi Hr eq_refl) as (cs & s' & es & E & Hh & Hmem & v & Hv & Hq).
    exists cs, s', es. split; [done|]. split; [done|].
    rewrite count_requests_run; rewrite Hq; [|rewrite Hmem; by apply rings_ok_idx|done].
    do 3 f_equal. rewrite Hmem. change (avail_last_idx (q <| avail_last_idx := v |>)) with v.
    change (avail_addr (q <| avail_last_idx := v |>)) with (avail_addr q).
    unfold n in *. set (x := val16 (mem s) (avail_addr q + 2)) in *.
    rewrite <- (Zminus_mod_idemp_r x v), Hv, Zminus_mod_idemp_r.
    rewrite <- (Z.mod_small (_ - Z.of_nat m) 65536) by (pose proof (Z.mod_pos_bound (x - avail_last_idx q) 65536); lia).
    rewrite Zminus_mod_idemp_l. f_equal. lia. }
  clear. intros m. induction m as [|m IH]; intros s q' Hi Hr Hq.
  - exists [], s, []. split; [done|]. split; [done|]. split; [done|]. exists (avail_last_idx q'). split; [f_equal; lia|].
    rewrite Hq. by destruct q'.
  - destruct (pop_request_run i s) as (c & s1 & es1 & E1 & Hh1 & Hm1 & Hl1 & Hq1); [done|by rewrite Hq|].
    rewrite Hq in *.
    destruct (IH s1 (q' <| avail_last_idx := (avail_last_idx q' + 1) mod 65536 |>)) as (cs & s2 & es2 & E2 & Hh2 & Hm2 & v & Hv & Hq2);
      [lia|rewrite Hm1; by apply rings_ok_idx|done|].
    cbn [pop_requests]. rewrite (bindx_run _ _ _ _ _ _ E1), (bindx_run _ _ _ _ _ _ E2).
    exists (c :: cs), s2, (es1 ++ es2 ++ []). split; [done|]. split; [|split; [congruence|]].
    + cbn [map seq]. f_equal; [by rewrite Hh1, Z.add_0_r|]. rewrite Hh2, <- seq_shift, map_map. apply map_ext. intros j.
      unfold avail_entry. rewrite Hm1. do 3 f_equal. 
      change (size (q' <| avail_last_idx := _ |>)) with (size q').
      change (avail_last_idx (q' <| avail_last_idx := ?v |>)) with v.
      rewrite <- (slot_wrap (mem s) q') by done. rewrite Zplus_mod_idemp_l, (slot_wrap (mem s)) by done. f_equal. lia.
    + exists v. split; [|done]. rewrite Hv. change (avail_last_idx (q' <| avail_last_idx := ?v |>)) with v.
      rewrite Zplus_mod_idemp_l. f_equal. lia.
Qed.

(** ** Replies *)

(** The 32 bits at an address of memory. *)
Definition val32 (w : W) (a : Z) : Z := val16 w a + 65536 * val16 w (a + 2).

Lemma store_run r w s : r = Some w -> store r s = (Some tt, mk (dev s) w, []).
Proof. by intros ->. Qed.

Lemma wr16_run a v s :
  in_memory (mem s) a 2 -> exists w', wr16 a v s = (Some tt, mk (dev s) w', []) /\ Phys.written (mem s) w' a (Phys.le_bytes 2 v).
Proof.
  intros [Hs Hm]. destruct (Phys.write_scalar_memory (mem s) a 16 v) as (w' & E & Hw);
    [right; by left|done|unfold Phys.span in Hs; lia|done|].
  exists w'. split; [|done]. unfold wr16. rewrite bind_get. by apply store_run.
Qed.

Lemma wr32_run a v s :
  in_memory (mem s) a 4 -> exists w', wr32 a v s = (Some tt, mk (dev s) w', []) /\ Phys.written (mem s) w' a (Phys.le_bytes 4 v).
Proof.
  intros [Hs Hm]. destruct (Phys.write_scalar_memory (mem s) a 32 v) as (w' & E & Hw);
    [by right; right|done|unfold Phys.span in Hs; lia|done|].
  exists w'. split; [|done]. unfold wr32. rewrite bind_get. by apply store_run.
Qed.

(** The addresses [a, a + n) have the same content. *)
Definition same_at (w w' : W) (a n : Z) : Prop := forall x, a <= x < a + n -> Phys.ram w' x = Phys.ram w x.

Lemma val16_same w w' a : same_at w w' a 2 -> val16 w' a = val16 w a.
Proof. intros H. unfold val16. by rewrite !H by lia. Qed.

Lemma val32_same w w' a : same_at w w' a 4 -> val32 w' a = val32 w a.
Proof. intros H. unfold val32. rewrite !(val16_same w w'); [done|intros x Hx; apply H; lia..]. Qed.

Lemma written_same w w' a l b n :
  Phys.written w w' a l -> b + n <= a \/ a + Z.of_nat (length l) <= b -> same_at w w' b n.
Proof. intros [Hr _] Hd x Hx. rewrite Hr. apply Phys.overwrite_out. lia. Qed.

Lemma written_ram w w' a l k b : Phys.written w w' a l -> l !! k = Some b -> Phys.ram w' (a + Z.of_nat k) = Some b.
Proof. intros Hw Hk. by eapply Phys.written_holds. Qed.

Lemma val16_written w w' a v : Phys.written w w' a (Phys.le_bytes 2 v) -> val16 w' a = v mod 65536.
Proof.
  intros Hw. pose proof (written_ram w w' a _ 0 _ Hw eq_refl) as H0. pose proof (written_ram w w' a _ 1 _ Hw eq_refl) as H1.
  rewrite Z.add_0_r in H0. change (Z.of_nat 1) with 1 in H1. unfold val16. rewrite H0, H1. cbn.
  Z.to_euclidean_division_equations. lia.
Qed.

Lemma val32_written w w' a v : Phys.written w w' a (Phys.le_bytes 4 v) -> val32 w' a = u32 v.
Proof.
  intros Hw. pose proof (written_ram w w' a _ 0 _ Hw eq_refl) as H0. pose proof (written_ram w w' a _ 1 _ Hw eq_refl) as H1.
  pose proof (written_ram w w' a _ 2 _ Hw eq_refl) as H2. pose proof (written_ram w w' a _ 3 _ Hw eq_refl) as H3.
  rewrite Z.add_0_r in H0. change (Z.of_nat 1) with 1 in H1. change (Z.of_nat 2) with 2 in H2. change (Z.of_nat 3) with 3 in H3.
  unfold val32, val16. replace (a + 2 + 1) with (a + 3) by lia. rewrite H0, H1, H2, H3.
  pose proof (Phys.le_le_bytes 4 v) as H. change (256 ^ Z.of_nat 4) with (2 ^ 32) in H. unfold u32. rewrite <- H.
  unfold Phys.le_bytes. cbn. lia.
Qed.

(** The map of memory is the same, so the rings stay where they are. *)
Lemma written_in_memory w w' a l b n : Phys.written w w' a l -> in_memory w b n -> in_memory w' b n.
Proof. intros Hw [Hs Hm]. split; [done|]. by eapply Phys.written_memory. Qed.

Lemma written_rings w w' a l q : Phys.written w w' a l -> rings_ok w q -> rings_ok w' q.
Proof. intros Hw []. split; [done..| |]; by eapply written_in_memory. Qed.

Lemma rings_ok_staged w q v : rings_ok w q -> rings_ok w (q <| num_staged_replies := v |>).
Proof. by intros []. Qed.

(** The slot of the used ring for the reply number [n]. *)
Definition used_slot (q : queue) (n : Z) : Z := used_addr q + 4 + 8 * (n mod size q).

Lemma used_part w q a n : rings_ok w q -> used_addr q <= a -> 0 <= n -> a + n <= used_addr q + 4 + 8 * size q -> in_memory w a n.
Proof. intros Hr H1 H2 H3. eapply in_memory_part; [apply (ro_used _ _ Hr)|unfold VIRTQ_USED_ENTRYSIZE, VIRTQ_USED_BASESIZE; lia..]. Qed.

(** All of the device but its queues is the same. *)
Definition queues_only (d d' : device) : Prop := d' = d <| queues := queues d' |> /\ length (queues d') = length (queues d).

Lemma queues_only_trans d1 d2 d3 : queues_only d1 d2 -> queues_only d2 d3 -> queues_only d1 d3.
Proof. intros [H1 L1] [H2 L2]. split; [|lia]. rewrite H2, H1. by destruct d1, d2, d3. Qed.

Lemma queues_only_alter d f i : queues_only d (d <| queues := alter f i (queues d) |>).
Proof. split; [done|]. apply length_alter. Qed.

Lemma used_get_idx_run i s :
  rings_ok (mem s) (queue_at (dev s) i) ->
  used_get_idx i s = (Some (val16 (mem s) (used_addr (queue_at (dev s) i) + 2)), s, []).
Proof.
  intros Hr. unfold used_get_idx. rewrite (bindx_quiet _ _ _ _ _ (this_queue_run i s)).
  destruct (ring_slot _ _ 0 Hr) as (_ & _ & Hs). apply rd16_run. eapply used_part; [done|lia..].
Qed.

(** One reply: it goes to the next free slot, and only there. *)
Lemma push_reply_run i c s (q := queue_at (dev s) i) (slot := used_slot q (val16 (mem s) (used_addr q + 2) + num_staged_replies q)) :
  (i < length (queues (dev s)))%nat -> rings_ok (mem s) q -> valid c = true -> chain_generation c = plug_generation (dev s) ->
  exists s', push_reply i c s = (Some tt, s', [])
    /\ queues_only (dev s) (dev s') /\ queue_at (dev s') i = q <| num_staged_replies := num_staged_replies q + 1 |>
    /\ rings_ok (mem s') q
    /\ val32 (mem s') slot = u32 (head_idx c) /\ val32 (mem s') (slot + 4) = u32 (length_written c)
    /\ forall x, ~ (slot <= x < slot + 8) -> Phys.ram (mem s') x = Phys.ram (mem s) x.
Proof.
  intros Hi Hr Hv Hg. unfold push_reply. rewrite bind_get, Hv, Hg, Z.eqb_refl. cbn [negb orb].
  rewrite (bindx_quiet _ _ _ _ _ (used_get_idx_run i s Hr)), (bindx_quiet _ _ _ _ _ (this_queue_run i s)). fold q.
  set (n := val16 (mem s) (used_addr q + 2) + num_staged_replies q) in *.
  destruct (ring_slot _ _ n Hr) as (En & Hn & Hsz). rewrite En.
  destruct (wr32_run slot (head_idx c) s) as (w1 & E1 & H1); [eapply used_part; [done|unfold slot, used_slot; lia..]|].
  destruct (wr32_run (slot + 4) (length_written c) (mk (dev s) w1)) as (w2 & E2 & H2).
  { eapply (written_in_memory (mem s)); [done|]. eapply used_part; [done|unfold slot, used_slot; lia..]. }
  assert (used_set_entry i (n mod size q) (head_idx c) (length_written c) s = (Some tt, mk (dev s) w2, [])) as E.
  { unfold used_set_entry. rewrite (bindx_quiet _ _ _ _ _ (this_queue_run i s)). fold q. unfold VIRTQ_USED_ENTRYSIZE.
    unfold slot, used_slot in *. rewrite (bindx_quiet _ _ _ _ _ E1).
    by replace (used_addr q + 8 + 8 * (n mod size q)) with (used_addr q + 4 + 8 * (n mod size q) + 4) by lia. }
  rewrite (bindx_quiet _ _ _ _ _ E). eexists. split; [apply lift_run, on_queue_run|]. cbn [mem dev].
  split; [apply queues_only_alter|]. split; [etransitivity; [by apply queue_at_alter|done]|].
  split; [by eapply written_rings, written_rings|]. split; [|split].
  - rewrite (val32_same w1 w2); [by eapply val32_written|]. eapply written_same; [done|]. lia.
  - by eapply val32_written.
  - intros x Hx. assert (forall n v, Z.of_nat (length (Phys.le_bytes n v)) = Z.of_nat n) as Hl by (intros; by rewrite Phys.le_bytes_length).
    rewrite (proj1 H2), Phys.overwrite_out by (rewrite Hl; lia). rewrite (proj1 H1), Phys.overwrite_out by (rewrite Hl; lia). done.
Qed.

(** Replies to the given requests, one after the other. *)
Fixpoint push_replies (i : nat) (cs : list chain) : X unit :=
  match cs with
  | [] => pure tt
  | c :: cs => push_reply i c !;; push_replies i cs
  end.

(** Different replies of one batch have different slots. *)
Lemma slot_disjoint w q n k :
  rings_ok w q -> 0 < k < size q -> used_slot q n + 8 <= used_slot q (n + k) \/ used_slot q (n + k) + 8 <= used_slot q n.
Proof.
  intros Hr Hk. unfold used_slot. destruct (ring_slot _ _ n Hr) as (_ & Hn & Hs). destruct (ring_slot _ _ (n + k) Hr) as (_ & Hn' & _).
  enough (n mod size q <> (n + k) mod size q) by lia. intros E.
  pose proof (Z.div_mod n (size q) ltac:(lia)) as D1. pose proof (Z.div_mod (n + k) (size q) ltac:(lia)) as D2.
  assert (k = size q * ((n + k) / size q - n / size q)) as Hm by lia.
  destruct (decide ((n + k) / size q - n / size q <= 0)); nia.
Qed.

Lemma used_slot_range w q n : rings_ok w q -> used_addr q + 4 <= used_slot q n /\ used_slot q n + 8 <= used_addr q + 4 + 8 * size q.
Proof. intros Hr. unfold used_slot. destruct (ring_slot _ _ n Hr) as (_ & Hn & _). lia. Qed.

Lemma push_replies_run cs : forall i s (q := queue_at (dev s) i) (idx := val16 (mem s) (used_addr q + 2)) (k := num_staged_replies q),
  (i < length (queues (dev s)))%nat -> rings_ok (mem s) q -> Z.of_nat (length cs) <= size q ->
  Forall (fun c => valid c = true /\ chain_generation c = plug_generation (dev s)) cs ->
  exists s', push_replies i cs s = (Some tt, s', [])
    /\ queues_only (dev s) (dev s') /\ queue_at (dev s') i = q <| num_staged_replies := k + Z.of_nat (length cs) |>
    /\ rings_ok (mem s') q
    /\ (forall j c, cs !! j = Some c -> let slot := used_slot q (idx + k + Z.of_nat j) in
          val32 (mem s') slot = u32 (head_idx c) /\ val32 (mem s') (slot + 4) = u32 (length_written c))
    /\ forall x, (forall j, 0 <= j < Z.of_nat (length cs) -> ~ (used_slot q (idx + k + j) <= x < used_slot q (idx + k + j) + 8)) ->
          Phys.ram (mem s') x = Phys.ram (mem s) x.
Proof.
  induction cs as [|c cs IH]; intros i s q idx k Hi Hr Hn Hv.
  { exists s. split; [done|]. split; [split; [by destruct (dev s)|done]|]. fold q. split; [|split; [done|split; [done|done]]].
    unfold k. cbn. rewrite Z.add_0_r. by destruct q. }
  apply Forall_cons in Hv as [[Hc1 Hc2] Hv].
  destruct (push_reply_run i c s Hi Hr Hc1 Hc2) as (s1 & E1 & Hd1 & Hq1 & Hr1 & Hh1 & Hl1 & Hx1).
  fold q idx k in Hq1, Hh1, Hl1, Hx1. cbn [length] in Hn.
  assert (forall j, used_slot (queue_at (dev s1) i) j = used_slot q j) as Hslot by (intros j; by rewrite Hq1).
  assert (val16 (mem s1) (used_addr (queue_at (dev s1) i) + 2) = idx) as Hidx.
  { rewrite Hq1. apply val16_same. intros x Hx. apply Hx1. cbn in Hx. pose proof (used_slot_range _ q (idx + k) Hr). lia. }
  destruct (IH i s1) as (s2 & E2 & Hd2 & Hq2 & Hr2 & He2 & Hx2);
    [by rewrite (proj2 Hd1)|rewrite Hq1; by apply rings_ok_staged|rewrite Hq1; cbn; lia|by rewrite (proj1 Hd1)|].
  assert (forall j, used_slot (queue_at (dev s1) i) (val16 (mem s1) (used_addr (queue_at (dev s1) i) + 2) + num_staged_replies (queue_at (dev s1) i) + j)
     = used_slot q (idx + k + (j + 1))) as Hj by (intros j; rewrite Hslot, Hidx, Hq1; cbn; f_equal; lia).
  exists s2. cbn [push_replies]. rewrite (bindx_quiet _ _ _ _ _ E1). split; [done|].
  split; [by eapply queues_only_trans|]. split.
  { rewrite Hq2, Hq1. by replace (k + Z.of_nat (length (c :: cs))) with (k + 1 + Z.of_nat (length cs)) by (cbn [length]; lia). }
  split; [rewrite Hq1 in Hr2; by destruct Hr2|]. split.
  - intros [|j] c' Hc'; cbn in Hc'.
    + injection Hc' as <-. cbn zeta. replace (idx + k + Z.of_nat 0) with (idx + k) by lia.
      assert (same_at (mem s1) (mem s2) (used_slot q (idx + k)) 8) as Hs.
      { intros x Hx. apply Hx2. intros j Hjr. rewrite Hj. pose proof (slot_disjoint _ q (idx + k) (j + 1) Hr ltac:(lia)). lia. }
      rewrite !(val32_same (mem s1) (mem s2)); [done|intros x Hx; apply Hs; lia..].
    + specialize (He2 j c' Hc'). cbn zeta in He2 |- *. rewrite Hj in He2. by replace (Z.of_nat (S j)) with (Z.of_nat j + 1) by lia.
  - intros x Hx. rewrite Hx2, Hx1; [done| |].
    + replace (idx + k) with (idx + k + 0) by lia. apply Hx. cbn. lia.
    + intros j Hjr. rewrite Hj. apply Hx. cbn [length]. lia.
Qed.

(** Does the driver get an interrupt for the replies? *)
Definition wants_interrupt (d : device) (q : queue) (w : W) : bool :=
  is_feature_negotiated d VIRTIO_F_RING_EVENT_IDX || negb (has (val16 w (avail_addr q)) VIRTQ_AVAIL_F_NO_INTERRUPT).

Lemma flush_replies_run i s (q := queue_at (dev s) i) :
  (i < length (queues (dev s)))%nat -> rings_ok (mem s) q -> absent (dev s) = false -> num_staged_replies q <> 0 ->
  exists s' es, flush_replies i s = (Some tt, s', es)
    /\ Phys.written (mem s) (mem s') (used_addr q + 2) (Phys.le_bytes 2 (val16 (mem s) (used_addr q + 2) + num_staged_replies q))
    /\ queue_at (dev s') i = q <| num_staged_replies := 0 |>
    /\ isr_status (dev s') = (if wants_interrupt (dev s) q (mem s') then isr_status (dev s) .| VIRTIO_ISR_QUEUE else isr_status (dev s))
    /\ es = if wants_interrupt (dev s) q (mem s') then [PciIrq (pci_id (dev s)) true] else [].
Proof.
  intros Hi Hr Ha Hn. unfold flush_replies. rewrite bind_get, Ha. fold q. rewrite (proj2 (Z.eqb_neq _ _) Hn).
  rewrite (bindx_quiet _ _ _ _ _ (used_get_idx_run i s Hr)). fold q.
  destruct (ring_slot _ _ 0 Hr) as (_ & _ & Hsz).
  set (v := (_ + _) .& VIRTQ_IDX_MASK).
  destruct (wr16_run (used_addr q + 2) v s) as (w1 & E1 & H1); [eapply used_part; [done|lia..]|].
  assert (used_set_idx i v s = (Some tt, mk (dev s) w1, [])) as E.
  { unfold used_set_idx. by rewrite (bindx_quiet _ _ _ _ _ (this_queue_run i s)). }
  rewrite (bindx_quiet _ _ _ _ _ E), (bindx_quiet _ _ _ tt _ (lift_run _ _ _ _ _ (on_queue_run i _ _))). rewrite bind_get.
  cbn [dev mem]. set (d1 := (dev s) <| queues := _ |>).
  assert (queue_at d1 i = q <| num_staged_replies := 0 |>) as Hq1 by (by apply queue_at_alter).
  assert (rings_ok w1 q) as Hr1 by (by eapply written_rings).
  assert (forall a n, avail_addr q <= a -> 0 <= n -> a + n <= avail_addr q + 6 + 2 * size q -> in_memory w1 a n) as Hav.
  { intros a n H2 H3 H4. eapply in_memory_part; [apply (ro_avail _ _ Hr1)|unfold VIRTQ_AVAIL_BASESIZE, VIRTQ_AVAIL_ENTRYSIZE; lia..]. }
  assert (Phys.written (mem s) w1 (used_addr q + 2) (Phys.le_bytes 2 (val16 (mem s) (used_addr q + 2) + num_staged_replies q))) as Hw.
  { unfold v in H1. unfold VIRTQ_IDX_MASK in H1. rewrite land_ffff in H1. revert H1.
    generalize (val16 (mem s) (used_addr q + 2) + num_staged_replies q) as z. intros z.
    by replace (Phys.le_bytes 2 (z mod 65536)) with (Phys.le_bytes 2 z)
      by (unfold Phys.le_bytes; cbn; do 2 (f_equal; try (Z.to_euclidean_division_equations; lia))). }
  assert (is_feature_negotiated d1 VIRTIO_F_RING_EVENT_IDX = is_feature_negotiated (dev s) VIRTIO_F_RING_EVENT_IDX) as -> by done.
  unfold wants_interrupt. destruct (is_feature_negotiated (dev s) VIRTIO_F_RING_EVENT_IDX).
  - assert (avail_get_used_event i (mk d1 w1) = (Some (val16 w1 (avail_addr q + 4 + 2 * size q)), mk d1 w1, [])) as E2.
    { unfold avail_get_used_event. rewrite (bindx_quiet _ _ _ _ _ (this_queue_run i _)). cbn [dev]. rewrite Hq1. apply rd16_run.
      apply Hav; cbn; lia. }
    rewrite (bindx_quiet _ _ _ _ _ E2). do 2 eexists. split; [reflexivity|]. done.
  - assert (avail_get_flags i (mk d1 w1) = (Some (val16 w1 (avail_addr q)), mk d1 w1, [])) as E2.
    { unfold avail_get_flags. rewrite (bindx_quiet _ _ _ _ _ (this_queue_run i _)). cbn [dev]. rewrite Hq1. apply rd16_run.
      apply Hav; cbn; lia. }
    rewrite (bindx_quiet _ _ _ _ _ E2). destruct (has (val16 w1 (avail_addr q)) VIRTQ_AVAIL_F_NO_INTERRUPT) eqn:Ef;
      do 2 eexists; (split; [reflexivity|]); cbn; rewrite Ef; done.
Qed.

(** C13: What the device hands back is what the driver finds: with up to a ring's worth of replies pushed and then
    flushed, the used index advances by their number (modulo 65536), the j-th reply's descriptor
    and byte count are in the j-th slot after the old index (modulo the ring size), nothing outside
    the used ring's index and entries is written, nothing stays staged, and the queue interrupt is
    raised exactly if the driver has not switched it off (with event indices it always is). *)
Theorem virtio_replies (s : t) (i : nat) (cs : list chain) (q := queue_at (dev s) i) (idx := val16 (mem s) (used_addr q + 2)) :
  (i < length (queues (dev s)))%nat -> rings_ok (mem s) q -> num_staged_replies q = 0 -> absent (dev s) = false ->
  0 < Z.of_nat (length cs) <= size q ->
  Forall (fun c => valid c = true /\ chain_generation c = plug_generation (dev s)) cs ->
  exists s' es, (push_replies i cs !;; flush_replies i) s = (Some tt, s', es)
    /\ val16 (mem s') (used_addr q + 2) = (idx + Z.of_nat (length cs)) mod 65536
    /\ (forall j c, cs !! j = Some c -> let slot := used_slot q (idx + Z.of_nat j) in
          val32 (mem s') slot = u32 (head_idx c) /\ val32 (mem s') (slot + 4) = u32 (length_written c))
    /\ (forall x, ~ (used_addr q + 2 <= x < used_addr q + 4 + 8 * size q) -> Phys.ram (mem s') x = Phys.ram (mem s) x)
    /\ queue_at (dev s') i = q
    /\ has (isr_status (dev s')) VIRTIO_ISR_QUEUE = has (isr_status (dev s)) VIRTIO_ISR_QUEUE || wants_interrupt (dev s) q (mem s')
    /\ es = if wants_interrupt (dev s) q (mem s') then [PciIrq (pci_id (dev s)) true] else [].
Proof.
  intros Hi Hr H0 Ha Hn Hv. destruct (push_replies_run cs i s Hi Hr ltac:(fold q; lia) Hv) as (s1 & E1 & [Hd1 Hl1] & Hq1 & Hr1 & He1 & Hx1).
  fold q idx in Hq1, Hr1, He1, Hx1. rewrite H0 in Hq1, He1, Hx1. rewrite Z.add_0_r in He1, Hx1.
  assert (val16 (mem s1) (used_addr q + 2) = idx) as Hidx.
  { apply val16_same. intros x Hx. apply Hx1. intros j _. pose proof (used_slot_range _ q (idx + j) Hr). lia. }
  destruct (flush_replies_run i s1) as (s2 & es & E2 & Hw & Hq2 & Hi2 & Hes);
    [by rewrite Hl1|rewrite Hq1; by apply rings_ok_staged|by rewrite Hd1|rewrite Hq1; cbn; lia|].
  rewrite Hq1 in Hw, Hq2, Hi2, Hes. cbn in Hw. rewrite Hidx in Hw.
  assert (forall w, wants_interrupt (dev s1) (q <| num_staged_replies := 0 + Z.of_nat (length cs) |>) w = wants_interrupt (dev s) q w) as Hwi
    by (intros w; unfold wants_interrupt; by rewrite Hd1).
  rewrite Hwi in Hi2, Hes. assert (isr_status (dev s1) = isr_status (dev s)) as Hisr by (by rewrite Hd1). rewrite Hisr in Hi2.
  exists s2, es. rewrite (bindx_quiet _ _ _ _ _ E1). split; [done|]. split_and!.
  - by eapply val16_written.
  - intros j c Hc slot. pose proof (used_slot_range _ q (idx + Z.of_nat j) Hr).
    rewrite !(val32_same (mem s1) (mem s2)); [by apply He1|eapply written_same; [done|]; cbn; unfold slot; lia..].
  - intros x Hx. rewrite (proj1 Hw), Phys.overwrite_out by (cbn; destruct (ring_slot _ _ 0 Hr) as (_ & _ & ?); lia).
    apply Hx1. intros j _. pose proof (used_slot_range _ q (idx + j) Hr). lia.
  - rewrite Hq2. destruct q. cbn in *. by rewrite H0.
  - rewrite Hi2. destruct (wants_interrupt _ _ _); [|by rewrite orb_false_r]. rewrite orb_true_r.
    unfold has. rewrite Z.land_lor_distr_l. change (VIRTIO_ISR_QUEUE .& VIRTIO_ISR_QUEUE) with 1.
    apply negb_true_iff, Z.eqb_neq. intros E%Z.lor_eq_0_iff. lia.
  - rewrite Hes. by rewrite Hd1.
Qed.

(** ** The device over any sequence of accesses *)

(** What a device model does with its queues, in a handler or when data arrives for it. *)
Inductive action :=
| HasRequest (i : nat)
| PopRequest (i : nat)
| GetNextBlob (c : chain) (n : Z)
| SetNextBlob (c : chain) (src : list Z)
| PushReply (i : nat) (c : chain)
| FlushReplies (i : nat)
| NotifyMeAfter (i : nat) (n : Z)
| NotifyConfigChanges
| NeedsReset.

Definition run_action (a : action) : X unit :=
  match a with
  | HasRequest i => lift (has_request i ;;; skip)
  | PopRequest i => pop_request i !;; pure tt
  | GetNextBlob c n => s <-- get ;; match (get_next_blob c n (mem s)).1 with Some _ => pure tt | None => throw end
  | SetNextBlob c src => r <-- set_next_blob c src ;; match r.1 with Some _ => pure tt | None => throw end
  | PushReply i c => push_reply i c
  | FlushReplies i => flush_replies i
  | NotifyMeAfter i n => notify_me_after i n
  | NotifyConfigChanges => lift notify_config_changes
  | NeedsReset => lift needs_reset
  end.

Fixpoint run_actions (l : list action) : X unit :=
  match l with
  | [] => pure tt
  | a :: l => run_action a !;; run_actions l
  end.

(** The driver's accesses, and what the host does. *)
Inductive op :=
| CommonWrite (f : field) (data : Z)
| IsrRead
| NotifyWrite (handler : option (list action)) (data : Z)
| Backend (l : list action)
| UpdateConfigGeneration
| Unplug.

Definition run_op (o : op) : M t unit :=
  match o with
  | CommonWrite f data => common_write f data
  | IsrRead => isr_read ;;; skip
  | NotifyWrite handler data => notify_write (match handler with Some l => Some (fun _ => run_actions l) | None => None end) data
  | Backend l => run_actions l ;;; skip
  | UpdateConfigGeneration => update_config_generation
  | Unplug => on_unplug
  end.

Definition size_ok (n : Z) : Prop := n = 0 \/ exists k, 0 <= k <= 15 /\ n = 2 ^ k.

(** A queue: a size the protocol allows, addresses as their registers say, and aligned if it is enabled. *)
Record queue_ok (q : queue) : Prop := {
  qo_supported : exists k, 0 <= k <= 15 /\ size_supported q = 2 ^ k;
  qo_size : size_ok (size q) /\ size q <= size_supported q;
  qo_mask : mask q = size q - 1;
  qo_words : length (address_words q) = 6%nat /\ Forall uint32 (address_words q);
  qo_desc : desc_addr q = arr_get (address_words q) 0 + arr_get (address_words q) 1 * 0x100000000;
  qo_avail : avail_addr q = arr_get (address_words q) 2 + arr_get (address_words q) 3 * 0x100000000;
  qo_used : used_addr q = arr_get (address_words q) 4 + arr_get (address_words q) 5 * 0x100000000;
  qo_enabled : enabled q = true -> desc_addr q mod 16 = 0 /\ avail_addr q mod 2 = 0 /\ used_addr q mod 4 = 0;
  qo_staged : 0 <= num_staged_replies q
}.

(** The level of the function's interrupt pin. *)
Definition pin (id : Z) (l : bool) (e : event) : bool :=
  match e with PciIrq n level => if n =? id then level else l | _ => l end.

Record inv (id : Z) (features : list Z) (s : t) (l : bool) : Prop := {
  inv_id : pci_id (dev s) = id;
  inv_device : device_feature (dev s) = features;
  inv_words : Forall uint32 features;
  inv_irq : l = negb (isr_status (dev s) =? 0);
  inv_driver : Forall2 within features (driver_feature (dev s));
  inv_queues : Forall queue_ok (queues (dev s))
}.

Section invariants.
Context (id : Z) (features : list Z).
(** The invariant is kept. *)
#[local] Notation "'keeps' m" := (ghoare (pin id) (inv id features) m (inv id features)) (at level 10, m at level 9).

Lemma keeps_bindx {A B} (m : X A) (k : A -> X B) : keeps m -> (forall a, keeps (k a)) -> keeps (bindx m k).
Proof.
  intros Hm Hk. apply ghoare_bind with (Q := inv id features); [done|]. intros [a|]; [apply Hk|apply ghoare_ret].
Qed.

Lemma keeps_catch {A} (m : X A) (h : M t A) : keeps m -> keeps h -> keeps (catch m h).
Proof. intros Hm Hh. apply ghoare_bind with (Q := inv id features); [done|]. intros [a|]; [apply ghoare_ret|done]. Qed.

Lemma keeps_lift {A} (m : M t A) : keeps m -> keeps (lift m).
Proof. intros Hm. apply ghoare_bind with (Q := inv id features); [done|]. intros a. apply ghoare_ret. Qed.

(** An assignment to none of the fields of the invariant. *)
Lemma keeps_dev f :
  (forall d, pci_id (f d) = pci_id d /\ device_feature (f d) = device_feature d /\ isr_status (f d) = isr_status d
      /\ driver_feature (f d) = driver_feature d /\ queues (f d) = queues d) ->
  keeps (on_dev f).
Proof.
  intros Hf. apply ghoare_modify. intros s l []. destruct (Hf (dev s)) as (E1 & E2 & E3 & E4 & E5).
  split; cbn; rewrite ?E1, ?E2, ?E3, ?E4, ?E5; done.
Qed.

Lemma keeps_queue i f : (forall q, queue_ok q -> queue_ok (f q)) -> keeps (on_queue i f).
Proof. intros Hf. apply ghoare_modify. intros s l []. split; cbn; try done. apply Forall_alter; auto. Qed.

Lemma keeps_mem w : keeps (modify (fun s => mk (dev s) w)).
Proof. apply ghoare_modify. intros s l []. by split. Qed.

Lemma keeps_raise type : type <> 0 -> keeps (raise_irq type).
Proof.
  intros Ht s l [<- ? ? ? ? ?]. unfold raise_irq, exec, evs. rewrite bind_get. cbn. split; cbn; try done.
  rewrite Z.eqb_refl. symmetry. apply negb_true_iff, Z.eqb_neq. intros E%Z.lor_eq_0_iff. lia.
Qed.

Lemma keeps_lower : keeps lower_irq.
Proof.
  intros s l [<- ? ? ? ? ?]. unfold lower_irq, exec, evs. rewrite bind_get. cbn. split; cbn; try done. by rewrite Z.eqb_refl.
Qed.

(** Walks through a method; [tac] closes its assignments. *)
Ltac walk tac :=
  repeat (gstep (inv id features) ltac:(idtac); intros; cbv zeta; lazymatch goal with
    | |- ghoare _ _ (bindx _ _) _ => apply keeps_bindx
    | |- ghoare _ _ (catch _ _) _ => apply keeps_catch
    | |- ghoare _ _ (lift _) _ => apply keeps_lift
    | |- ghoare _ _ (match ?x with _ => _ end) _ => destruct x
    | |- ghoare _ _ (pure _) _ => apply ghoare_ret
    | |- ghoare _ _ throw _ => apply ghoare_ret
    | |- ghoare _ _ (raise_irq _) _ => apply keeps_raise; try done
    | |- ghoare _ _ lower_irq _ => apply keeps_lower
    | |- ghoare _ _ (emit _) _ => apply ghoare_emit; intros; by cbn
    | |- ghoare _ _ (rd16 _) _ => unfold rd16
    | |- ghoare _ _ (wr16 _ _) _ => unfold wr16, store
    | |- ghoare _ _ (wr32 _ _) _ => unfold wr32, store
    | |- ghoare _ _ (this_queue _) _ => unfold this_queue
    | |- ghoare _ _ (modify _) _ => apply keeps_mem
    | |- ghoare _ _ (on_dev _) _ => apply keeps_dev; intros; by split_and!
    | |- ghoare _ _ _ _ => progress tac
    end).

Lemma keeps_notify_config : keeps notify_config_changes.
Proof. unfold notify_config_changes. walk idtac. by case_match. Qed.

Lemma keeps_needs_reset : keeps needs_reset.
Proof. unfold needs_reset. walk ltac:(apply keeps_notify_config). Qed.

Lemma keeps_new_chain i h : keeps (new_chain i h).
Proof. unfold new_chain. walk ltac:(apply keeps_needs_reset). Qed.

Ltac queue_update :=
  apply keeps_queue; let q := fresh "q" in intros q []; split; cbn; auto; lia.

Lemma keeps_count_requests i : keeps (count_requests i).
Proof. unfold count_requests, avail_get_idx. walk ltac:(queue_update). Qed.

Lemma keeps_action a : keeps (run_action a).
Proof.
  destruct a; cbn [run_action];
    unfold has_request, pop_request, set_next_blob, push_reply, flush_replies, notify_me_after, avail_get_entry, avail_get_idx,
      avail_get_used_event, avail_get_flags, used_get_idx, used_set_idx, used_set_entry, used_set_avail_event;
    walk ltac:(first [apply keeps_needs_reset | apply keeps_notify_config | apply keeps_new_chain | apply keeps_count_requests | queue_update]).
Qed.

Lemma keeps_actions l : keeps (run_actions l).
Proof. induction l as [|a l IH]; cbn [run_actions]; [apply ghoare_ret|]. apply keeps_bindx; [apply keeps_action|done]. Qed.

Lemma size_ok_nonneg n : size_ok n -> 0 <= n.
Proof. intros [->|(k & Hk & ->)]; [done|]. lia. Qed.

Lemma within_u32_and data f : uint32 f -> within f (u32 (js_and data f)).
Proof.
  intros Hf. unfold within, js_and. apply Z.bits_inj'. intros k Hk. rewrite Z.land_spec. unfold u32.
  destruct (decide (k < 32)) as [Hlt|Hge].
  - rewrite Z.mod_pow2_bits_low by lia. rewrite Z.land_spec.
    assert (Z.testbit (i32 f) k = Z.testbit f k) as ->; [|by destruct (Z.testbit f k), (Z.testbit (i32 data) k)].
    rewrite i32_testbit by lia. by rewrite u32_id.
  - by rewrite Z.mod_pow2_bits_high by lia.
Qed.

Lemma driver_words_within sel words data :
  Forall uint32 features -> Forall2 within features words ->
  Forall2 within features (word_set words sel (u32 (js_and data (word_get features sel)))).
Proof.
  intros Hw Hf. unfold word_set, word_get, arr_set, arr_get. destruct (sel <? 0) eqn:Es; [done|].
  destruct (features !! Z.to_nat sel) as [f|] eqn:Ef.
  - cbn. rewrite <- (list_insert_id features (Z.to_nat sel) f Ef) at 1. apply Forall2_insert; [done|].
    apply within_u32_and. rewrite Forall_lookup in Hw. by eapply Hw.
  - rewrite list_insert_ge; [done|]. rewrite <- (Forall2_length _ _ _ Hf). by apply lookup_ge_None.
Qed.

Lemma keeps_driver_feature data : keeps (write_driver_feature data).
Proof.
  apply ghoare_modify. intros s l [? Hd Hw ? Hf ?].
  pose proof (driver_words_within (driver_feature_select (dev s)) (driver_feature (dev s)) data Hw Hf) as Hn.
  cbn zeta. destruct (_ <? _); split; cbn; try done. by rewrite Hd.
Qed.

Lemma pow2_le_15 k : 0 <= k <= 15 -> 2 ^ k <= 32768.
Proof. intros Hk. change 32768 with (2 ^ 15). apply Z.pow_le_mono_r; lia. Qed.

Lemma land_pred_pow2 n : 0 < n -> n .& (n - 1) = 0 -> n = 2 ^ Z.log2 n.
Proof.
  intros Hn E. pose proof (Z.log2_spec n Hn) as [Hlo Hhi]. pose proof (Z.log2_nonneg n) as Hk.
  destruct (decide (n = 2 ^ Z.log2 n)) as [?|Hne]; [done|]. exfalso. rewrite Z.pow_succ_r in Hhi by done.
  assert (forall m, 2 ^ Z.log2 n <= m < 2 * 2 ^ Z.log2 n -> Z.testbit m (Z.log2 n) = true) as Hb.
  { intros m Hm. apply Z.testbit_true; [done|]. rewrite <- (Z.div_unique_pos m (2 ^ Z.log2 n) 1 (m - 2 ^ Z.log2 n)) by lia. done. }
  pose proof (f_equal (fun z => Z.testbit z (Z.log2 n)) E) as Et. cbn in Et.
  rewrite Z.land_spec, !Hb, Z.bits_0 in Et by lia. done.
Qed.

Lemma round_size_ok q data : queue_ok q -> 0 <= data < 65536 -> size_ok (round_size q data) /\ round_size q data <= size_supported q.
Proof.
  intros [(k & Hk & Hs) _ _ _ _ _ _ _ _] Hd. unfold round_size.
  assert (forall n, size_ok n \/ 32768 < n -> size_ok (if size_supported q <? n then size_supported q else n)
      /\ (if size_supported q <? n then size_supported q else n) <= size_supported q) as Hmin.
  { intros n Hn. pose proof (pow2_le_15 k Hk). destruct (_ <? _) eqn:E; [|apply Z.ltb_ge in E; split; [|done]; destruct Hn; [done|lia]].
    split; [|lia]. right. eauto. }
  assert (forall j, 0 <= j -> size_ok (2 ^ j) \/ 32768 < 2 ^ j) as Hpow.
  { intros j Hj. destruct (decide (j <= 15)); [left; right; eauto|]. right. change 32768 with (2 ^ 15). apply Z.pow_lt_mono_r; lia. }
  apply Hmin. destruct (_ =? 0) eqn:E.
  - apply Z.eqb_eq in E. destruct (decide (data = 0)) as [->|Hne]; [left; by left|].
    rewrite (land_pred_pow2 data) by (done || lia). apply Hpow, Z.log2_nonneg.
  - assert (2 < data) as H2.
    { apply Z.eqb_neq in E. destruct (decide (data = 0)) as [->|]; [done|]. destruct (decide (data = 1)) as [->|]; [done|].
      destruct (decide (data = 2)) as [->|]; [done|lia]. }
    assert (int_log2 (data - 1) = Z.log2 (data - 1)) as ->.
    { unfold int_log2, clz32. rewrite u32_id by (unfold uint32; lia). rewrite (proj2 (Z.eqb_neq _ 0)) by lia. lia. }
    pose proof (Z.log2_nonneg (data - 1)). assert (Z.log2 (data - 1) < 16) by (apply Z.log2_lt_pow2; lia).
    rewrite shl32_exact; [|unfold int32; lia|lia|].
    + rewrite Z.shiftl_1_l. apply Hpow. lia.
    + rewrite Z.shiftl_1_l. unfold int32. pose proof (Z.pow_le_mono_r 2 (Z.log2 (data - 1) + 1) 16). lia.
Qed.

(** A device as it is built: feature words of 32 bits, queues of a size the protocol allows. *)
Definition built (d : device) : Prop :=
  pci_id d = id /\ device_feature d = features /\ Forall uint32 features
  /\ Forall (fun q => exists k, 0 <= k <= 15 /\ size_supported q = 2 ^ k) (queues d).

Lemma reset_queue_ok q : (exists k, 0 <= k <= 15 /\ size_supported q = 2 ^ k) -> queue_ok (reset_queue q).
Proof.
  intros Hs. split; try done; cbn.
  - split; [by right|done].
  - split; [done|]. repeat constructor; unfold uint32; lia.
Qed.

Lemma reset_inv : ghoare (pin id) (fun s _ => built (dev s)) reset (inv id features).
Proof.
  intros s l (Hid & Hf & Hw & Hq). unfold reset, lower_irq, on_dev, exec, evs.
  rewrite bind_modify. cbn. rewrite Hid, Z.eqb_refl. split; try done; cbn.
  - rewrite Hf. apply Forall2_same_length_lookup. split; [done|]. intros k x y Hx Hy. simplify_eq. apply Z.land_diag.
  - apply Forall_map. eapply Forall_impl; [exact Hq|]. intros q. apply reset_queue_ok.
Qed.

Lemma inv_built s l : inv id features s l -> built (dev s).
Proof.
  intros []. split_and!; [done..|]. eapply Forall_impl; [done|]. by intros q [].
Qed.

Lemma keeps_reset : keeps reset.
Proof. eapply ghoare_weaken; [|apply reset_inv]. intros s l. apply inv_built. Qed.

(** The registers are as wide as their fields: what a write brings. *)
Definition op_ok (o : op) : Prop :=
  match o with
  | CommonWrite FQueueSize data => 0 <= data < 65536
  | CommonWrite (FQueueAddress index) _ => 0 <= index < 6
  | _ => True
  end.

Lemma set_address_word_ok q index data : queue_ok q -> 0 <= index < 6 ->
  let words := arr_set (address_words q) index (u32 data) in length words = 6%nat /\ Forall uint32 words.
Proof.
  intros [] Hi. unfold arr_set. destruct qo_words0. rewrite length_insert. split; [done|]. apply Forall_insert; [done|apply u32_uint32].
Qed.

Lemma keeps_enable i : keeps (enable i).
Proof.
  intros s l Hs. unfold enable. unfold exec, evs. rewrite bind_get.
  destruct (enable_valid (mem s) (queue_at (dev s) i)) eqn:E; [|by apply keeps_needs_reset].
  destruct Hs as [? ? ? ? ? Hq]. split; cbn; try done. apply Forall_alter; [done|]. intros q Hi Hqi. 
  assert (queue_at (dev s) i = q) as Hat by (unfold queue_at; by rewrite Hi). rewrite Hat in E.
  unfold enable_valid in E. rewrite !andb_true_iff, !Z.eqb_eq in E. destruct Hqi. split; cbn; try done. intros _. tauto.
Qed.

Lemma keeps_set_size i data : 0 <= data < 65536 -> keeps (s <-- get ;; set_size i (round_size (queue_at (dev s) i) data)).
Proof.
  intros Hd s l []. unfold exec, evs. rewrite bind_get. split; cbn; try done. apply Forall_alter; [done|]. intros q Hi Hq.
  assert (queue_at (dev s) i = q) as -> by (unfold queue_at; by rewrite Hi). pose proof (round_size_ok q data Hq Hd).
  destruct Hq. by split.
Qed.

Lemma keeps_op o : op_ok o -> keeps (run_op o).
Proof.
  intros Ho. destruct o as [f data| |[l|] data|acts| |]; cbn [run_op];
    unfold isr_read, notify_write, update_config_generation, on_unplug; cbv beta iota;
    [|walk ltac:(first [apply keeps_actions|apply keeps_needs_reset])..].
  destruct f; cbn [common_write op_ok] in *; unfold on_selected, write_status, set_status;
    lazymatch goal with |- context [set_size] => apply ghoare_get_any; intros s0; case_match; [by apply keeps_set_size|apply ghoare_skip] | _ => idtac end;
    walk ltac:(first [apply keeps_driver_feature|apply keeps_notify_config|apply keeps_reset|apply keeps_enable
      |apply keeps_queue; intros q []; by split]).
  - apply keeps_dev. intros d. by destruct (qemu_compatible d).
  - apply keeps_queue. intros q Hq. destruct (enabled q) eqn:Ee; [done|].
    pose proof (set_address_word_ok q index data Hq Ho). destruct Hq. split; cbn; try done. by rewrite Ee.
Qed.

Lemma negotiated_bit w m : uint32 w -> 0 <= m < 32 -> 0 < js_and w (shl32 1 m) -> Z.testbit w m = true.
Proof.
  intros Hw Hm. assert (Z.testbit w m = Z.testbit (i32 w) m) as -> by (by rewrite i32_testbit, u32_id by done). unfold js_and. pose proof (i32_int32 w) as Hi.
  destruct (decide (m = 31)) as [->|Hne].
  - change (i32 (shl32 1 31)) with (~. (2 ^ 31 - 1)). rewrite land_lnot_ones by lia. unfold int32 in Hi.
    intros H. exfalso. assert (i32 w / 2 ^ 31 < 1) by (apply Z.div_lt_upper_bound; lia). lia.
  - assert (2 ^ m < 2 ^ 31) by (apply Z.pow_lt_mono_r; lia). assert (0 < 2 ^ m) by lia.
    assert (int32 (1 .<< m)) as Hs by (rewrite Z.shiftl_1_l; unfold int32; lia).
    rewrite shl32_exact by (done || unfold int32; lia). rewrite (i32_id _ Hs), Z.shiftl_1_l. intros Hp.
    rewrite <- has_testbit by lia. apply has_true_iff. lia.
Qed.

Lemma negotiated_offered s l f :
  inv id features s l -> 0 <= f < 2 ^ 31 -> is_feature_negotiated (dev s) f = true -> Z.testbit (arr_get features (f / 32)) (f mod 32) = true.
Proof.
  intros [_ _ Hw _ Hd _] Hf. unfold is_feature_negotiated. rewrite Z.ltb_lt.
  assert (shr32 f 5 = f / 32) as ->.
  { unfold shr32. rewrite u32_id by (unfold uint32; lia). change (Z.land 5 31) with 5. by rewrite Z.shiftr_div_pow2. }
  assert (f .& 0x1F = f mod 32) as -> by (change 0x1F with (2 ^ 5 - 1); rewrite land_ones_mod; done).
  unfold arr_get. destruct (driver_feature (dev s) !! Z.to_nat (f / 32)) as [w|] eqn:Ew; [|done].
  destruct (Forall2_lookup_r _ _ _ _ _ Hd Ew) as (v & Ev & Hin). rewrite Ev. cbn. intros Hpos.
  pose proof (Z.mod_pos_bound f 32 ltac:(lia)) as Hm. rewrite Forall_lookup in Hw. pose proof (Hw _ _ Ev) as Hv.
  unfold within in Hin. assert (uint32 w) as Hw32 by (rewrite <- Hin; unfold uint32 in *; pose proof (land_nonneg_r w v); lia).
  apply negotiated_bit in Hpos; [|done..]. rewrite <- Hin, Z.land_spec in Hpos. by apply andb_true_iff in Hpos as [_ Hpos].
Qed.

End invariants.

(** C12: Over any sequence of register writes, interrupt acknowledgements, queue notifications (with handlers that do
    anything with the queues) and device activity after a reset, whatever guest memory holds: the
    PCI interrupt line is up exactly while the interrupt status is not zero; reading that status
    returns it, clears it and releases the line; no feature counts as negotiated that the device
    did not offer; and every queue has a power-of-two size within what it supports (or none) and
    is enabled only with aligned rings. *)
Theorem virtio_invariant (s : t) (ops : list op) (level : bool) (id := pci_id (dev s)) :
  built id (device_feature (dev s)) (dev s) -> Forall op_ok ops ->
  let run := reset ;;; mfor ops run_op in
  let s' := exec run s in
  let line := fold_left (pin id) (evs run s) level in
  line = negb (isr_status (dev s') =? 0)
  /\ (res isr_read s' = isr_status (dev s') /\ isr_status (dev (exec isr_read s')) = 0 /\ fold_left (pin id) (evs isr_read s') line = false)
  /\ (forall f, 0 <= f < 2 ^ 31 -> is_feature_negotiated (dev s') f = true ->
        Z.testbit (arr_get (device_feature (dev s)) (f / 32)) (f mod 32) = true)
  /\ Forall queue_ok (queues (dev s')).
Proof.
  intros Hb Hops run s' line. set (features := device_feature (dev s)) in *.
  assert (inv id features s' line) as Hi.
  { assert (ghoare (pin id) (inv id features) (mfor ops run_op) (inv id features)) as Hm.
    { clear run s' line. induction Hops as [|o ops Ho Hops IH]; [apply ghoare_skip|].
      apply ghoare_bind with (Q := inv id features); [by apply keeps_op|done]. }
    unfold s', line, run. eapply (ghoare_bind _ _ (inv id features)); [apply reset_inv|intros _; exact Hm|exact Hb]. }
  split; [apply Hi|]. split; [|split; [intros f Hf; by eapply negotiated_offered|apply Hi]].
  split; [done|]. split; [done|]. pose proof (inv_id _ _ _ _ Hi) as Hid. clearbody s'. cbn. by rewrite Hid, Z.eqb_refl.
Qed.

Lemma set_status_run data s :
  (on_dev (fun d => d <| device_status := data |>) ;;;
   s <-- get ;;
   when (has (data .& ~. device_status (dev s)) VIRTIO_STATUS_DRIVER_OK) (emit (Call "on_driver_ok" []))) s
  = (tt, mk ((dev s) <| device_status := data |>) (mem s), []).
Proof.
  unfold on_dev. rewrite bind_modify, bind_get. cbn [dev device_status].
  assert (has (data .& ~. data) VIRTIO_STATUS_DRIVER_OK = false) as E by (apply has_false_iff; by rewrite Z.land_lnot_diag).
  by cbn; rewrite E.
Qed.

Lemma run_parts {A} (m : M t A) s a s' es : m s = (a, s', es) -> exec m s = s' /\ evs m s = es.
Proof. intros E. unfold exec, evs. by rewrite E. Qed.

(** The rest of a write, once the device was reset if it had to be. *)
Lemma status_rest data s (c := has (data .& ~. device_status (dev s)) VIRTIO_STATUS_DRIVER_OK
    && has (device_status (dev s)) VIRTIO_STATUS_DEVICE_NEEDS_RESET) (m : M t unit) :
  (forall s, exists s', m s = (tt, s', [])
     /\ device_status (dev s') = if features_ok (dev s) then data else data .& ~. VIRTIO_STATUS_FEATURES_OK) ->
  exists s' es, (when c notify_config_changes ;;; m) s = (tt, s', es) /\ (Call "on_driver_ok" [] ∉ es)
    /\ device_status (dev s') = if features_ok (dev s) then data else data .& ~. VIRTIO_STATUS_FEATURES_OK.
Proof.
  intros Hm.
  assert (exists s1 es, when c notify_config_changes s = (tt, s1, es)
    /\ features_ok (dev s1) = features_ok (dev s) /\ (Call "on_driver_ok" [] ∉ es)) as (s1 & es & E1 & Hf & Hes).
  { unfold when. destruct c; [|do 2 eexists; split; [reflexivity|split; [done|set_solver]]].
    unfold notify_config_changes, raise_irq, on_dev, when. rewrite bind_modify, bind_get. cbn [dev device_status].
    destruct (has _ _); do 2 eexists; (split; [reflexivity|split; [done|set_solver]]). }
  destruct (Hm s1) as (s2 & E2 & Hs2). exists s2, es. unfold bind, res, exec, evs. rewrite E1. cbn. rewrite E2. cbn.
  rewrite app_nil_r. by rewrite <- Hf.
Qed.

(** The status register keeps what the driver writes, without FEATURES_OK unless every feature word it wrote was a
    subset of what the device offers (after a reset, which a zero write makes, there is nothing to
    refuse); and whatever is written, also the first DRIVER_OK, the device's [on_driver_ok] is not
    called. *)
Theorem virtio_status (s : t) (data : Z) :
  device_status (dev (exec (write_status data) s))
    = (if (data =? 0) || features_ok (dev s) then data else data .& ~. VIRTIO_STATUS_FEATURES_OK)
  /\ Call "on_driver_ok" [] ∉ evs (write_status data) s.
Proof.
  assert (forall s, exists s' es, set_status data s = (tt, s', es) /\ (Call "on_driver_ok" [] ∉ es)
    /\ device_status (dev s') = if features_ok (dev s) then data else data .& ~. VIRTIO_STATUS_FEATURES_OK) as Hrest.
  { intros s0. unfold set_status. rewrite bind_get. apply status_rest. intros s1. rewrite bind_get. cbv zeta. rewrite set_status_run.
    by eexists. }
  unfold write_status. destruct (data =? 0) eqn:E0; cbn [orb].
  - change (when true reset) with reset. rewrite exec_bind, evs_bind. destruct (Hrest (exec reset s)) as (s' & es & E & Hes & Hs).
    destruct (run_parts _ _ _ _ _ E) as [-> ->]. split; [rewrite Hs; done|].
    rewrite elem_of_app. intros [H|H]; [|done]. cbn in H. set_solver.
  - destruct (Hrest s) as (s' & es & E & Hes & Hs). change (when false reset) with (skip : M t unit).
    unfold exec, evs. rewrite bind_skip, E. done.
Qed.

End virtio.

(** ** A queue in a small memory *)

#[local] Existing Instances Phys.flat_wasm Phys.flat_laws.

(** A request of two buffers, published in the last slot of the ring; the 16-bit index wraps. *)
Definition demo_mem : Phys.flat :=
  foldr (fun p w => Phys.flat_set w (Phys.le_bytes (p.1.1) (p.1.2)) p.2) Phys.demo_flat
    [ (4%nat, 0x4000, 0x1000); (4%nat, 6, 0x1008); (2%nat, VIRTQ_DESC_F_NEXT, 0x100C); (2%nat, 1, 0x100E);
      (4%nat, 0x5000, 0x1010); (4%nat, 8, 0x1018); (2%nat, VIRTQ_DESC_F_WRITE, 0x101C);
      (4%nat, 0x04030201, 0x4000); (2%nat, 0x0605, 0x4004);
      (2%nat, 1, 0x2002); (2%nat, 0, 0x200A); (2%nat, 2, 0x2004); (2%nat, 0xFFFF, 0x3002) ].

Definition demo_queue : queue := mk_queue 4 256 3 true 0 [0x1000; 0; 0x2000; 0; 0x3000; 0] 0xFFFF 0x1000 0x2000 0xFFFF 0x3000 0 false.
Definition demo_device : device :=
  mk_device 0x30 false false 0xFFFF 0 0 [0x30000000; 1; 0; 0] [0; 1; 0; 0] true 15 false 0 0 [demo_queue] 0 0.
Definition demo : t := mk (W := Phys.flat) demo_device demo_mem.

Lemma flat_in_memory (w : Phys.flat) a n : 0 <= a -> 0 <= n -> a + n <= Phys.FLAT_SIZE -> in_memory w a n.
Proof.
  intros Ha Hn Hs. split; [unfold Phys.span, Phys.PHYSICAL_LIMIT, Phys.FLAT_SIZE in *; lia|]. intros x Hx. cbn. unfold Phys.flat_ram.
  rewrite (proj2 (Phys.flat_in_spec x 1)) by lia. by eexists.
Qed.

Lemma demo_rings : rings_ok (mem demo) demo_queue.
Proof. split; [by exists 2|done|apply flat_in_memory; done..]. Qed.

Lemma virtio_chain_witness :
  0 <= size demo_queue /\
  exists rd wr, collect_buffers demo_mem demo_device demo_queue 0 = Some (Some (rd, wr)) /\ linked demo_mem (desc_addr demo_queue) 0 (rd ++ wr)
    /\ map address rd = [0x4000] /\ map address wr = [0x5000].
Proof.
  split; [done|]. destruct (virtio_chain demo_mem demo_device demo_queue 0 ltac:(done)) as (r & E & Hr).
  assert (exists rd wr, collect_buffers demo_mem demo_device demo_queue 0 = Some (Some (rd, wr)) /\ map address rd = [0x4000] /\ map address wr = [0x5000])
    as (rd & wr & E' & H1 & H2) by (do 2 eexists; split; [vm_compute; reflexivity|split; reflexivity]).
  exists rd, wr. split; [exact E'|]. split; [|split; [exact H1|exact H2]]. apply (Hr rd wr). congruence.
Defined.

Definition demo_chain : chain :=
  mk_chain 0 [mk_desc 0x4000 0 0x4000 6 0 0; mk_desc 0x1000 0 0x1000 4 0 0] 0 0 10
    [mk_desc 0x5000 0 0x5000 3 2 0; mk_desc 0x5800 0 0x5800 8 2 0] 0 0 0 11 true 0.

Lemma flat_buffer (w : Phys.flat) a n f x : 0 <= a < Phys.FLAT_SIZE -> 0 <= n -> a + n <= Phys.FLAT_SIZE -> buffer_mem w (mk_desc a 0 a n f x).
Proof.
  intros Ha Hn Hs. destruct (flat_in_memory w a n) as [H1 H2]; [lia..|]. split; [exact H1|]. split; [|exact H2].
  cbn. unfold Phys.PHYSICAL_LIMIT, Phys.FLAT_SIZE in *. lia.
Qed.

(** Two reads, of 4 and 5 bytes, of a request in two buffers. *)
Lemma virtio_read_stream_witness : (get_blobs demo_chain [4; 5] demo_mem).1 = Some [1; 2; 3; 4; 5; 6; 0; 0x40; 0].
Proof.
  etransitivity; [apply virtio_read_stream|].
  - repeat (apply Forall_cons_2; [apply flat_buffer; unfold Phys.FLAT_SIZE; lia|]). constructor.
  - reflexivity.
  - reflexivity.
  - repeat constructor; lia.
  - vm_compute. reflexivity.
Defined.

Lemma virtio_write_stream_witness :
  exists w' c', set_blobs demo_chain [[1; 2]; [3; 4; 5]] demo = (Some 5, c', mk demo_device w', []) /\ length_written c' = 5
    /\ Phys.ram w' 0x5801 = Some 5.
Proof.
  destruct (virtio_write_stream demo demo_chain [[1; 2]; [3; 4; 5]]) as (w' & c' & E & Hl & Hb & _).
  - repeat (apply Forall_cons_2; [apply flat_buffer; unfold Phys.FLAT_SIZE; lia|]). constructor.
  - reflexivity.
  - reflexivity.
  - reflexivity.
  - reflexivity.
  - repeat constructor; unfold byte; lia.
  - exists w', c'. split; [exact E|]. split; [exact Hl|]. apply (Hb 4%nat 0x5801 5); [reflexivity|vm_compute; apply not_elem_of_nil|reflexivity].
Defined.

(** Two requests across the wrap of the index: the entries 3 and 0 of the ring. *)
Lemma virtio_pop_order_witness :
  exists cs s' es, pop_requests 0 2 demo = (Some cs, s', es) /\ map head_idx cs = [0; 2].
Proof.
  destruct (virtio_pop_order demo 0 2) as (_ & cs & s' & es & E & Hh & _).
  - cbn. lia.
  - exact demo_rings.
  - reflexivity.
  - vm_compute. discriminate.
  - exists cs, s', es. split; [exact E|]. etransitivity; [exact Hh|]. vm_compute. reflexivity.
Defined.

Lemma virtio_replies_witness :
  exists s' es, (bindx (push_replies 0 [demo_chain <| length_written := 5 |>; demo_chain <| head_idx := 2 |>]) (fun _ => flush_replies 0)) demo
      = (Some tt, s', es)
    /\ val16 (mem s') 0x3002 = 1 /\ val32 (mem s') 0x3020 = 5 /\ val32 (mem s') 0x3004 = 2 /\ es = [PciIrq 0x30 true].
Proof.
  destruct (virtio_replies demo 0 [demo_chain <| length_written := 5 |>; demo_chain <| head_idx := 2 |>])
    as (s' & es & E & Hi & He & Hx & Hq & Hisr & Hes).
  - cbn. lia.
  - exact demo_rings.
  - reflexivity.
  - reflexivity.
  - cbn. lia.
  - repeat constructor.
  - exists s', es. split; [exact E|]. split; [exact Hi|].
    split; [exact (proj2 (He 0%nat (demo_chain <| length_written := 5 |>) eq_refl))|].
    split; [exact (proj1 (He 1%nat (demo_chain <| head_idx := 2 |>) eq_refl))|].
    assert (wants_interrupt (dev demo) (queue_at (dev demo) 0) (mem s') = true) as Hw.
    { assert (val16 (mem s') 0x2000 = 0) as Hf.
      { etransitivity; [apply (val16_same (mem demo)); intros x Hxr; apply Hx; cbn; lia|]. vm_compute. reflexivity. }
      unfold wants_interrupt. change (avail_addr (queue_at (dev demo) 0)) with 0x2000. rewrite Hf. reflexivity. }
    rewrite Hes, Hw. reflexivity.
Defined.

(** A driver that writes a feature word beyond what is offered, sets up the queue and makes the device act on it. *)
Definition demo_ops : list op :=
  [CommonWrite FDriverFeature 0xFFFFFFFF; CommonWrite FQueueSize 3; CommonWrite (FQueueAddress 0) 0x1000;
   CommonWrite (FQueueAddress 2) 0x2000; CommonWrite (FQueueAddress 4) 0x3000; CommonWrite FQueueEnable 1;
   CommonWrite FDeviceStatus 15; NotifyWrite (Some [PopRequest 0; PushReply 0 demo_chain; FlushReplies 0]) 0].

Lemma virtio_invariant_witness :
  let s' := exec (bind reset (fun _ => mfor demo_ops run_op)) demo in
  fold_left (pin 0x30) (evs (bind reset (fun _ => mfor demo_ops run_op)) demo) false = true
  /\ isr_status (dev s') = 1 /\ device_status (dev s') = 7 /\ map size (queues (dev s')) = [4] /\ Forall queue_ok (queues (dev s')).
Proof.
  assert (isr_status (dev (exec (bind reset (fun _ => mfor demo_ops run_op)) demo)) = 1) as Hisr by (vm_compute; reflexivity).
  destruct (virtio_invariant demo demo_ops false) as (Hl & _ & _ & Hq).
  - split; [reflexivity|]. split; [reflexivity|]. split; [repeat constructor; unfold uint32; cbn; lia|].
    repeat constructor. exists 8. split; [lia|reflexivity].
  - repeat constructor; lia.
  - cbv zeta. split; [etransitivity; [exact Hl|]; rewrite Hisr; reflexivity|]. split; [exact Hisr|].
    split; [vm_compute; reflexivity|]. split; [vm_compute; reflexivity|exact Hq].
Defined.

End Virtio.
