(* ===== verification/Crc.v ===== *)
(** * The checksum of snapshot records ([state.js])

    [stream_crc]: CRC-32 by sixteen tables, sixteen bytes a step, and its
    equality with the bit-by-bit definition of CRC-32. *)

From S2P Require Import Prelude.

Open Scope js_scope.

Module Crc.

(** One bit of the first table: [value >>> 1 ^ (value & 1 ? 0xEDB88320 : 0)]. *)
Definition table_bit (value : Z) : Z := js_xor (shr32 value 1) (if has (js_and value 1) 1 then 0xEDB88320 else 0).

(** [STREAM_CRC_TABLE], filled by the two loops. *)
Definition STREAM_CRC_TABLE : list Z :=
  let table := replicate (16 * 256) 0 in
  let table := fold_left (fun table i => arr_set table i (i32 (Nat.iter 8 table_bit i))) (seqZ 0 256) table in
  fold_left (fun table i =>
    let previous := arr_get table (i - 256) in
    arr_set table i (js_xor (shr32 previous 8) (arr_get table (js_and previous 255)))) (seqZ 256 (16 * 256 - 256)) table.

Definition table (i : Z) : Z := arr_get STREAM_CRC_TABLE i.

(** A byte: [crc >>> 8 ^ table[(crc ^ bytes[i]) & 255]]. *)
Definition crc_byte (crc b : Z) : Z := js_xor (shr32 crc 8) (table (js_and (js_xor crc b) 255)).

(** Element of the [Int32Array] of the bytes from [o] on. *)
Definition word (bytes : list Z) (o : Z) : Z :=
  i32 (arr_get bytes o + 0x100 * arr_get bytes (o + 1) + 0x10000 * arr_get bytes (o + 2) + 0x1000000 * arr_get bytes (o + 3)).

(** Sixteen bytes: four words, a table for each byte. *)
Definition lanes (w base : Z) : Z :=
  table (base + 768 + js_and w 255) .^ table (base + 512 + js_and (shr32 w 8) 255)
    .^ table (base + 256 + js_and (shr32 w 16) 255) .^ table (base + shr32 w 24).
Definition crc_words (crc : Z) (bytes : list Z) (o : Z) : Z :=
  let a := js_xor crc (word bytes o) in
  let b := word bytes (o + 4) in
  let c := word bytes (o + 8) in
  let d := word bytes (o + 12) in
  lanes a 3072 .^ lanes b 2048 .^ lanes c 1024 .^ lanes d 0.

(** [byteOffset]: where the view starts in its buffer, which decides how many bytes come before a word boundary.
    The number of sixteen-byte steps is [(length - i) >> 4] in the source, a 32-bit shift: the quotient for the lengths
    below 2^31 that the callers' pages and chunks have. *)
Definition stream_crc (byteOffset : Z) (bytes : list Z) : Z :=
  let length := Z.of_nat (length bytes) in
  let head := Z.min length (js_and (- byteOffset) 3) in
  let crc := fold_left (fun crc i => crc_byte crc (arr_get bytes i)) (seqZ 0 head) (-1) in
  let count := ((length - head) .>> 4) .<< 2 in
  let crc := fold_left (fun crc w => crc_words crc bytes (head + 4 * (4 * w))) (seqZ 0 (count / 4)) crc in
  let i := head + count * 4 in
  let crc := fold_left (fun crc i => crc_byte crc (arr_get bytes i)) (seqZ i (length - i)) crc in
  u32 (js_xor crc (-1)).

(** ** The definition of CRC-32 *)

Definition bit (c : Z) : Z := (c .>> 1) .^ (if Z.odd c then 0xEDB88320 else 0).
Definition byte_step (c b : Z) : Z := Nat.iter 8 bit (c .^ b).
Definition crc32 (bytes : list Z) : Z := 0xFFFFFFFF .^ fold_left byte_step bytes 0xFFFFFFFF.

(** ** Signed and unsigned words *)

Lemma i32_bit z k : 0 <= k -> Z.testbit (i32 z) k = Z.testbit z (Z.min k 31).
Proof.
  intros Hk. assert (forall j, 0 <= j < 32 -> Z.testbit (i32 z) j = Z.testbit z j) as Hlow.
  { intros j Hj. rewrite i32_testbit by lia. unfold u32. by rewrite Z.mod_pow2_bits_low by lia. }
  destruct (Z.lt_ge_cases k 32) as [H|H]; [replace (Z.min k 31) with k by lia; by apply Hlow|].
  replace (Z.min k 31) with 31 by lia. rewrite <- (Hlow 31) by lia. pose proof (i32_int32 z) as Hi. unfold int32 in Hi.
  destruct (Z.ltb_spec (i32 z) 0) as [E|E]; [|by rewrite !(testbit_high 31) by lia].
  rewrite <- (Z.lnot_involutive (i32 z)), !(Z.lnot_spec (Z.lnot _)) by lia.
  rewrite !(testbit_high 31) by (rewrite ?Z.lnot_eq_pred_opp; unfold Z.pred; lia). done.
Qed.

Lemma i32_lxor a b : i32 (a .^ b) = i32 a .^ i32 b.
Proof. apply Z.bits_inj'. intros k Hk. by rewrite i32_bit, !Z.lxor_spec, !i32_bit by lia. Qed.

Lemma i32_land a b : i32 (a .& b) = i32 a .& i32 b.
Proof. apply Z.bits_inj'. intros k Hk. by rewrite i32_bit, !Z.land_spec, !i32_bit by lia. Qed.

Lemma i32_i32 z : i32 (i32 z) = i32 z.
Proof. apply i32_id, i32_int32. Qed.

Lemma js_xor_i32 a b : js_xor a b = i32 (a .^ b).
Proof. symmetry. apply i32_lxor. Qed.

Lemma js_and_255 z : js_and z 255 = z mod 256.
Proof.
  unfold js_and. rewrite <- i32_land, land_ff. apply i32_id. pose proof (Z.mod_pos_bound z 256 ltac:(lia)). unfold int32. lia.
Qed.

(** ** The shift register is linear *)

Lemma bit_lxor a b : bit (a .^ b) = bit a .^ bit b.
Proof.
  unfold bit. rewrite Z.shiftr_lxor, <- !Z.bit0_odd, Z.lxor_spec.
  destruct (Z.testbit a 0), (Z.testbit b 0); cbn [xorb]; apply Z.bits_inj'; intros k Hk; rewrite !Z.lxor_spec, ?Z.bits_0;
    by destruct (Z.testbit (Z.shiftr a 1) k), (Z.testbit (Z.shiftr b 1) k), (Z.testbit 0xEDB88320 k).
Qed.

Lemma bits_lxor n a b : Nat.iter n bit (a .^ b) = Nat.iter n bit a .^ Nat.iter n bit b.
Proof. induction n as [|n IH]; [done|]. cbn [Nat.iter nat_rect]. rewrite <- bit_lxor. by f_equal. Qed.

Lemma bit_uint32 c : uint32 c -> uint32 (bit c).
Proof.
  intros Hc. unfold bit, uint32 in *. apply lxor_bound; [lia| |destruct (Z.odd c); lia].
  pose proof (shiftr_bound c 1 31 ltac:(lia) ltac:(lia) Hc). lia.
Qed.

Lemma bits_uint32 n c : uint32 c -> uint32 (Nat.iter n bit c).
Proof. intros Hc. induction n as [|n IH]; [done|]. by apply bit_uint32. Qed.

Lemma bits_shiftl n y : Nat.iter n bit (y .<< Z.of_nat n) = y.
Proof.
  revert y. induction n as [|n IH]; intros y; [by rewrite Z.shiftl_0_r|].
  rewrite Nat.iter_succ_r. rewrite <- (IH y) at 2. f_equal. unfold bit.
  rewrite <- Z.bit0_odd, Z.shiftl_spec_low by lia. rewrite Z.lxor_0_r, Z.shiftr_shiftl_l by lia. f_equal. lia.
Qed.

Lemma bits_add n m c : Nat.iter (n + m) bit c = Nat.iter n bit (Nat.iter m bit c).
Proof. apply Nat.iter_add. Qed.

Lemma split8 x : x = ((x .>> 8) .<< 8) .^ (x mod 256).
Proof.
  change 256 with (2 ^ 8). apply Z.bits_inj'. intros k Hk. rewrite Z.lxor_spec. destruct (Z.lt_ge_cases k 8).
  - by rewrite Z.shiftl_spec_low, Z.mod_pow2_bits_low by lia.
  - rewrite Z.shiftl_spec, Z.shiftr_spec, Z.mod_pow2_bits_high, xorb_false_r by lia. f_equal. lia.
Qed.

(** A byte of the register leaves it unchanged apart from the shift: [n] more bits after a shift by a byte. *)
Lemma bits_byte n x : Nat.iter (n + 8) bit x = Nat.iter n bit (x .>> 8) .^ Nat.iter (n + 8) bit (x mod 256).
Proof. rewrite (split8 x) at 1. rewrite bits_lxor. f_equal. by rewrite bits_add, (bits_shiftl 8). Qed.

(** ** The tables *)

Definition entry (k : nat) (b : Z) : Z := Nat.iter (8 * S k) bit b.

Lemma byte_mod x : byte (x mod 256).
Proof. pose proof (Z.mod_pos_bound x 256 ltac:(lia)). unfold byte. lia. Qed.

Lemma i32_mod_256 x : i32 x mod 256 = x mod 256.
Proof.
  change 256 with (2 ^ 8). rewrite <- !Z.land_ones by lia. change (Z.ones 8) with 255. apply Z.bits_inj'. intros j Hj.
  rewrite !Z.land_spec, i32_bit by lia. destruct (Z.lt_ge_cases j 8); [by rewrite Z.min_l by lia|].
  rewrite (testbit_high 8 255) by lia. by rewrite !andb_false_r.
Qed.

Lemma shr32_i32 c n : uint32 c -> 0 <= n < 32 -> shr32 (i32 c) n = c .>> n.
Proof. intros Hc Hn. unfold shr32. by rewrite u32_i32, u32_id, land_small. Qed.

Lemma table_bit_spec c : uint32 c -> table_bit (i32 c) = i32 (bit c).
Proof.
  intros Hc. unfold table_bit, bit. rewrite shr32_i32, js_xor_i32 by (done || lia). f_equal. f_equal.
  assert (has (js_and (i32 c) 1) 1 = Z.odd c) as ->; [|done]. unfold js_and. rewrite i32_i32, <- i32_land.
  change 1 with (2 ^ 0) at 2. rewrite has_testbit by lia. rewrite i32_bit by lia. rewrite Z.land_spec, Z.bit0_odd. cbn. by rewrite andb_true_r.
Qed.

Lemma table_bits_spec n c : uint32 c -> Nat.iter n table_bit (i32 c) = i32 (Nat.iter n bit c).
Proof. intros Hc. induction n as [|n IH]; [done|]. cbn [Nat.iter nat_rect]. fold (Nat.iter n table_bit (i32 c)). rewrite IH. apply table_bit_spec. by apply bits_uint32. Qed.

(** An entry of the next table follows from the entry before and the first table. *)
Lemma entry_succ k b : entry (S k) b = (entry k b .>> 8) .^ entry 0 (entry k b mod 256).
Proof.
  unfold entry. replace (8 * S (S k))%nat with (8 + 8 * S k)%nat by lia. rewrite bits_add. apply (bits_byte 0).
Qed.

Lemma entry_uint32 k b : byte b -> uint32 (entry k b).
Proof. intros Hb. apply bits_uint32. unfold byte, uint32 in *. lia. Qed.

(** The entries below [n] are in place. *)
Definition filled (n : Z) (table : list Z) : Prop :=
  length table = 4096%nat /\ forall k b, byte b -> 256 * Z.of_nat k + b < n -> arr_get table (256 * Z.of_nat k + b) = i32 (entry k b).

Lemma filled_set n k b table v : byte b -> n = 256 * Z.of_nat k + b -> n < 4096 -> filled n table -> v = i32 (entry k b) ->
  filled (n + 1) (arr_set table n v).
Proof.
  intros Hb -> Hn [Hl Hf] ->. split; [by rewrite arr_set_length|]. intros k' b' Hb' Hlt. unfold byte in *.
  destruct (decide (256 * Z.of_nat k' + b' = 256 * Z.of_nat k + b)) as [E|E].
  - assert (k' = k /\ b' = b) as [-> ->] by lia. apply arr_get_set_eq. lia.
  - rewrite arr_get_set_ne by lia. apply Hf; [unfold byte|]; lia.
Qed.

Lemma filled_first n : (n <= 256)%nat ->
  filled (Z.of_nat n) (fold_left (fun table i => arr_set table i (i32 (Nat.iter 8 table_bit i))) (seqZ 0 (Z.of_nat n)) (replicate (16 * 256) 0)).
Proof.
  induction n as [|n IH]; intros Hn; [change (seqZ 0 (Z.of_nat 0)) with (@nil Z); split; [cbn [fold_left]; by rewrite length_replicate|]; unfold byte; lia|].
  rewrite seqZ_S, fold_left_app, Nat2Z.inj_succ. cbn [fold_left]. rewrite Z.add_0_l.
  apply (filled_set _ 0 (Z.of_nat n)); [unfold byte; lia|lia|lia|apply IH; lia|]. rewrite <- (i32_id (Z.of_nat n)) at 1 by (unfold int32; lia).
  rewrite table_bits_spec, i32_i32 by (unfold uint32; lia). unfold entry. by replace (8 * 1)%nat with 8%nat by lia.
Qed.

Lemma filled_rest n table : (n <= 15 * 256)%nat -> filled 256 table ->
  filled (256 + Z.of_nat n) (fold_left (fun table i =>
    let previous := arr_get table (i - 256) in
    arr_set table i (js_xor (shr32 previous 8) (arr_get table (js_and previous 255)))) (seqZ 256 (Z.of_nat n)) table).
Proof.
  intros Hn Ht. induction n as [|n IH]; [done|]. rewrite seqZ_S, fold_left_app, Nat2Z.inj_succ. cbn [fold_left]. cbv zeta.
  specialize (IH ltac:(lia)). set (t := fold_left _ (seqZ 256 (Z.of_nat n)) table) in *. replace (256 + Z.succ (Z.of_nat n)) with (256 + Z.of_nat n + 1) by lia.
  set (k := Z.to_nat (Z.of_nat n / 256)). set (b := Z.of_nat n mod 256). pose proof (byte_mod (Z.of_nat n)) as Hb. fold b in Hb.
  assert (Z.of_nat n = 256 * Z.of_nat k + b) as En.
  { unfold k, b. rewrite Z2Nat.id by (apply Z.div_pos; lia). apply Z.div_mod. lia. }
  destruct IH as [Hl Hf]. apply (filled_set _ (S k) b); [done|lia|lia|by split|].
  replace (256 + Z.of_nat n - 256) with (256 * Z.of_nat k + b) by lia. rewrite Hf by (done || lia).
  rewrite shr32_i32, js_and_255, i32_mod_256 by (lia || by apply entry_uint32).
  pose proof (Hf 0%nat (entry k b mod 256) (byte_mod _)) as H0. change (Z.of_nat 0) with 0 in H0. rewrite Z.mul_0_r, Z.add_0_l in H0.
  rewrite H0 by (pose proof (byte_mod (entry k b)); unfold byte in *; lia). rewrite js_xor_i32, i32_lxor, i32_i32, <- i32_lxor. by rewrite entry_succ.
Qed.

Lemma table_entry k b : (k < 16)%nat -> byte b -> table (256 * Z.of_nat k + b) = i32 (entry k b).
Proof.
  intros Hk Hb. pose proof (filled_rest 3840 _ ltac:(lia) (filled_first 256 ltac:(lia))) as [_ H]. apply H; [done|]. unfold byte in Hb. lia.
Qed.

#[local] Opaque table.

Lemma byte_step_uint32 c b : uint32 c -> byte b -> uint32 (byte_step c b).
Proof. intros Hc Hb. apply bits_uint32. unfold uint32, byte in *. apply lxor_bound; lia. Qed.

Lemma lxor_byte_shift c b n : 8 <= n -> byte b -> (c .^ b) .>> n = c .>> n.
Proof.
  intros Hn Hb. rewrite Z.shiftr_lxor. rewrite (Z.shiftr_div_pow2 b) by lia. rewrite (Z.div_small b), Z.lxor_0_r; [done|].
  unfold byte in Hb. pose proof (Z.pow_le_mono_r 2 8 n ltac:(lia) Hn). lia.
Qed.

(** A byte by the first table is eight bits of the definition. *)
Lemma crc_byte_spec c b : uint32 c -> byte b -> crc_byte (i32 c) b = i32 (byte_step c b).
Proof.
  intros Hc Hb. unfold crc_byte, byte_step. rewrite !js_xor_i32, js_and_255.
  assert (i32 (i32 c .^ b) mod 256 = (c .^ b) mod 256) as ->.
  { rewrite <- !land_ff. apply Z.bits_inj'. intros k Hk. rewrite !Z.land_spec. destruct (Z.lt_ge_cases k 8).
    - by rewrite i32_bit, !Z.lxor_spec, i32_bit, Z.min_l, Z.min_l by lia.
    - rewrite (testbit_high 8 0xFF) by lia. by rewrite !andb_false_r. }
  replace ((c .^ b) mod 256) with (256 * Z.of_nat 0 + (c .^ b) mod 256) by lia. rewrite (table_entry 0 ((c .^ b) mod 256) ltac:(lia) (byte_mod _)). unfold entry. rewrite i32_lxor, i32_i32, <- i32_lxor. f_equal.
  unfold shr32. rewrite (u32_i32 c), (u32_id c Hc). change (Nat.iter 8 bit (c .^ b)) with (Nat.iter (0 + 8) bit (c .^ b)). rewrite bits_byte, lxor_byte_shift by (lia || done). done.
Qed.

(** A word by four tables is its four bytes, each followed by as many bytes as its table is far. *)
Lemma lanes_spec k x :
  (k + 4 <= 16)%nat -> uint32 x -> lanes (i32 x) (256 * Z.of_nat k) = i32 (Nat.iter (8 * (4 + k)) bit x).
Proof.
  intros Hk Hx. unfold lanes, shr32. rewrite (u32_i32 x), (u32_id x Hx).
  change (24 .& 31) with 24. change (16 .& 31) with 16. change (8 .& 31) with 8. rewrite !js_and_255.
  replace (i32 x mod 256) with (x mod 256).
  2: { change 256 with (2 ^ 8). rewrite <- !Z.land_ones by lia. apply Z.bits_inj'. intros j Hj. rewrite !Z.land_spec, i32_bit by lia.
       destruct (Z.lt_ge_cases j 8); [by rewrite Z.min_l by lia|]. change (Z.ones 8) with 255; rewrite (testbit_high 8 255) by lia. by rewrite !andb_false_r. }
  assert (byte (x .>> 24)) as H24 by (apply (shiftr_bound x 24 8); [lia|lia|exact Hx]).
  replace (256 * Z.of_nat k + 768 + x mod 256) with (256 * Z.of_nat (k + 3) + x mod 256) by lia.
  replace (256 * Z.of_nat k + 512 + (x .>> 8) mod 256) with (256 * Z.of_nat (k + 2) + (x .>> 8) mod 256) by lia.
  replace (256 * Z.of_nat k + 256 + (x .>> 16) mod 256) with (256 * Z.of_nat (k + 1) + (x .>> 16) mod 256) by lia.
  rewrite (table_entry (k + 3) _ ltac:(lia) (byte_mod x)), (table_entry (k + 2) _ ltac:(lia) (byte_mod (x .>> 8))),
    (table_entry (k + 1) _ ltac:(lia) (byte_mod (x .>> 16))), (table_entry k _ ltac:(lia) H24). rewrite <- !i32_lxor. f_equal. unfold entry.
  replace (8 * (4 + k))%nat with (8 * S (k + 2) + 8)%nat by lia. rewrite (bits_byte _ x).
  replace (8 * S (k + 2))%nat with (8 * S (k + 1) + 8)%nat by lia. rewrite (bits_byte _ (x .>> 8)).
  replace (8 * S (k + 1))%nat with (8 * S k + 8)%nat by lia. rewrite (bits_byte _ (x .>> 8 .>> 8)). rewrite !Z.shiftr_shiftr by lia.
  replace (8 * S (k + 3))%nat with (8 * S k + 8 + 8 + 8)%nat by lia.
  replace (8 * S (k + 2))%nat with (8 * S k + 8 + 8)%nat by lia.
  change (8 + 8) with 16. change (8 + 16) with 24.
  apply Z.bits_inj'. intros j _. rewrite !Z.lxor_spec.
  repeat match goal with |- context [Z.testbit ?a j] => destruct (Z.testbit a j) end; done.
Qed.

Definition le32 (b0 b1 b2 b3 : Z) : Z := b0 + 0x100 * b1 + 0x10000 * b2 + 0x1000000 * b3.

Lemma lxor_shiftl_add a b n : 0 <= n -> 0 <= a < 2 ^ n -> a .^ (b .<< n) = a + b * 2 ^ n.
Proof.
  intros Hn Ha. rewrite <- lor_shiftl_add by done. apply Z.bits_inj'. intros k Hk. rewrite Z.lxor_spec, Z.lor_spec.
  destruct (Z.lt_ge_cases k n); [by rewrite Z.shiftl_spec_low, orb_false_r, xorb_false_r by lia|].
  by rewrite (testbit_high n a) by lia.
Qed.

Lemma le32_lxor b0 b1 b2 b3 : byte b0 -> byte b1 -> byte b2 -> byte b3 ->
  le32 b0 b1 b2 b3 = b0 .^ (b1 .<< 8) .^ (b2 .<< 16) .^ (b3 .<< 24).
Proof.
  intros H0 H1 H2 H3. unfold byte in *.
  rewrite (lxor_shiftl_add b0 b1 8), (lxor_shiftl_add _ b2 16), (lxor_shiftl_add _ b3 24) by lia. unfold le32. lia.
Qed.

(** Four steps by bytes are a step by a word. *)
Lemma byte_steps c b0 b1 b2 b3 : byte b0 -> byte b1 -> byte b2 -> byte b3 ->
  byte_step (byte_step (byte_step (byte_step c b0) b1) b2) b3 = Nat.iter 32 bit (c .^ le32 b0 b1 b2 b3).
Proof.
  intros H0 H1 H2 H3. rewrite le32_lxor by done. unfold byte_step. rewrite !bits_lxor, <- !bits_add. cbn [Nat.add].
  assert (forall n m y, Nat.iter (n + m) bit (y .<< Z.of_nat m) = Nat.iter n bit y) as L by (intros; by rewrite bits_add, bits_shiftl).
  rewrite (L 24%nat 8%nat b1 : Nat.iter 32 bit (b1 .<< 8) = _), (L 16%nat 16%nat b2 : Nat.iter 32 bit (b2 .<< 16) = _),
    (L 8%nat 24%nat b3 : Nat.iter 32 bit (b3 .<< 24) = _). by rewrite !Z.lxor_assoc.
Qed.

Lemma le32_uint32 b0 b1 b2 b3 : byte b0 -> byte b1 -> byte b2 -> byte b3 -> uint32 (le32 b0 b1 b2 b3).
Proof. unfold byte, uint32, le32. lia. Qed.

Lemma byte_step_bits c b : byte_step c b = Nat.iter 8 bit (c .^ b).
Proof. done. Qed.

#[local] Opaque lanes byte_step.

(** Sixteen bytes, as in the loop over words. *)
Lemma crc_words_spec c bytes o :
  uint32 c -> Forall byte bytes ->
  crc_words (i32 c) bytes o = i32 (fold_left (fun c i => byte_step c (arr_get bytes i)) (seqZ o 16) c).
Proof.
  intros Hc Hb. assert (forall i, byte (arr_get bytes i)) as Hg by (intros i; apply arr_get_Forall; [unfold byte; lia|done]).
  set (w := fun i => le32 (arr_get bytes i) (arr_get bytes (i + 1)) (arr_get bytes (i + 2)) (arr_get bytes (i + 3))).
  assert (forall i, uint32 (w i)) as Hw by (intros i; by apply le32_uint32).
  assert (uint32 (c .^ w o)) as Hcw by (apply lxor_bound; [lia|done|apply Hw]).
  change (crc_words (i32 c) bytes o) with
    (lanes (js_xor (i32 c) (i32 (w o))) (256 * Z.of_nat 12) .^ lanes (i32 (w (o + 4))) (256 * Z.of_nat 8)
     .^ lanes (i32 (w (o + 8))) (256 * Z.of_nat 4) .^ lanes (i32 (w (o + 12))) (256 * Z.of_nat 0)).
  assert (js_xor (i32 c) (i32 (w o)) = i32 (c .^ w o)) as -> by (unfold js_xor; rewrite (i32_lxor c (w o)), !i32_i32; done).
  rewrite (lanes_spec 12 _ ltac:(lia) Hcw), (lanes_spec 8 _ ltac:(lia) (Hw (o + 4))), (lanes_spec 4 _ ltac:(lia) (Hw (o + 8))),
    (lanes_spec 0 _ ltac:(lia) (Hw (o + 12))).
  rewrite <- !i32_lxor. f_equal.
  assert (forall c i, fold_left (fun c i => byte_step c (arr_get bytes i)) [i; i + 1; i + 2; i + 3] c = Nat.iter 32 bit (c .^ w i)) as E4
    by (intros c' i; cbn [fold_left]; by apply byte_steps).
  assert (seqZ o 16 = [o; o + 1; o + 2; o + 3] ++ [o + 4; o + 4 + 1; o + 4 + 2; o + 4 + 3] ++ [o + 8; o + 8 + 1; o + 8 + 2; o + 8 + 3]
    ++ [o + 12; o + 12 + 1; o + 12 + 2; o + 12 + 3]) as ->.
  { unfold seqZ. change (Z.to_nat 16) with 16%nat. cbn [seq fmap list_fmap app]. repeat (apply f_equal2; [lia|]). done. }
  rewrite !fold_left_app, !E4, !bits_lxor, <- !bits_add. done.
Qed.

(** ** The whole loop *)

Definition ref_fold (bytes : list Z) (l : list Z) (c : Z) : Z := fold_left (fun c i => byte_step c (arr_get bytes i)) l c.

Lemma fold_left_cons {A B} (f : A -> B -> A) l x a : fold_left f (x :: l) a = fold_left f l (f a x).
Proof. done. Qed.

Lemma ref_fold_uint32 bytes l c : Forall byte bytes -> uint32 c -> uint32 (ref_fold bytes l c).
Proof.
  intros Hb. revert c. induction l as [|i l IH]; intros c Hc; [done|].
  unfold ref_fold in *. rewrite fold_left_cons. apply IH, byte_step_uint32; [done|]. apply arr_get_Forall; [unfold byte; lia|done].
Qed.

Lemma crc_bytes_spec bytes l c : Forall byte bytes -> uint32 c ->
  fold_left (fun crc i => crc_byte crc (arr_get bytes i)) l (i32 c) = i32 (ref_fold bytes l c).
Proof.
  intros Hb. revert c. induction l as [|i l IH]; intros c Hc; [done|]. unfold ref_fold in *. rewrite !fold_left_cons.
  assert (byte (arr_get bytes i)) as Hg by (apply arr_get_Forall; [unfold byte; lia|done]).
  rewrite (crc_byte_spec c (arr_get bytes i) Hc Hg). apply IH. by apply byte_step_uint32.
Qed.

Lemma crc_groups_spec bytes o n c : Forall byte bytes -> uint32 c ->
  fold_left (fun crc w => crc_words crc bytes (o + 4 * (4 * w))) (seqZ 0 (Z.of_nat n)) (i32 c)
  = i32 (ref_fold bytes (seqZ o (16 * Z.of_nat n)) c).
Proof.
  intros Hb Hc. induction n as [|n IH]; [done|].
  replace (Z.of_nat (S n)) with (Z.of_nat n + 1) by lia. rewrite Z.mul_add_distr_l.
  rewrite !seqZ_app by lia. unfold ref_fold. rewrite !fold_left_app, IH. change (seqZ (0 + Z.of_nat n) 1) with [0 + (0 + Z.of_nat n)].
  cbn [fold_left]. rewrite (crc_words_spec _ bytes _ (ref_fold_uint32 _ _ _ Hb Hc) Hb). unfold ref_fold. do 3 f_equal. lia.
Qed.

Lemma ref_fold_all bytes c : ref_fold bytes (seqZ 0 (Z.of_nat (length bytes))) c = fold_left byte_step bytes c.
Proof.
  unfold ref_fold. revert c. assert (forall l c, fold_left (fun c i => byte_step c (arr_get bytes i)) l c
    = fold_left byte_step (arr_get bytes <$> l) c) as E by (induction l as [|i l IH]; intros; [done|]; rewrite fmap_cons, !fold_left_cons; apply IH).
  intros c. rewrite E. f_equal. apply list_eq. intros i. rewrite list_lookup_fmap.
  destruct (decide (i < length bytes)%nat) as [H|H].
  - rewrite lookup_seqZ_lt by lia. cbn. unfold arr_get. destruct (lookup_lt_is_Some_2 bytes i H) as [x Hx].
    replace (Z.to_nat (0 + Z.of_nat i)) with i by lia. by rewrite Hx.
  - rewrite lookup_seqZ_ge by lia. symmetry. apply lookup_ge_None. lia.
Qed.

Lemma stream_crc_spec (byteOffset : Z) (bytes : list Z) : Forall byte bytes -> stream_crc byteOffset bytes = crc32 bytes.
Proof.
  intros Hb. unfold stream_crc. cbv zeta.
  set (n := Z.of_nat (length bytes)). set (head := Z.min n (js_and (- byteOffset) 3)).
  assert (0 <= head <= n) as Hh.
  { subst head. assert (0 <= js_and (- byteOffset) 3) by (apply Z.land_nonneg; right; vm_compute; discriminate). lia. }
  assert (exists q, ((n - head) .>> 4) .<< 2 = 4 * Z.of_nat q /\ 16 * Z.of_nat q <= n - head) as (q & Eq & Hq).
  { exists (Z.to_nat ((n - head) / 16)). rewrite Z.shiftr_div_pow2, Z.shiftl_mul_pow2 by lia. change (2 ^ 4) with 16. change (2 ^ 2) with 4.
    pose proof (Z.div_pos (n - head) 16 ltac:(lia) ltac:(lia)). pose proof (Z.mul_div_le (n - head) 16 ltac:(lia)). lia. }
  rewrite Eq. replace (4 * Z.of_nat q / 4) with (Z.of_nat q) by (rewrite Z.mul_comm, Z.div_mul; lia).
  change (-1) with (i32 0xFFFFFFFF) at 1. assert (uint32 0xFFFFFFFF) as H0 by (unfold uint32; lia).
  rewrite (crc_bytes_spec bytes (seqZ 0 head) 0xFFFFFFFF Hb H0).
  pose proof (ref_fold_uint32 bytes (seqZ 0 head) 0xFFFFFFFF Hb H0) as H1. remember (ref_fold bytes (seqZ 0 head) 0xFFFFFFFF) as c1 eqn:E1.
  rewrite (crc_groups_spec bytes head q c1 Hb H1).
  pose proof (ref_fold_uint32 bytes (seqZ head (16 * Z.of_nat q)) c1 Hb H1) as H2. remember (ref_fold bytes (seqZ head (16 * Z.of_nat q)) c1) as c2 eqn:E2.
  rewrite (crc_bytes_spec bytes (seqZ (head + 4 * Z.of_nat q * 4) (n - (head + 4 * Z.of_nat q * 4))) c2 Hb H2). rewrite E2, E1. clear E1 E2 H1 H2 c1 c2.
  unfold ref_fold. rewrite <- !fold_left_app.
  assert (seqZ 0 head ++ seqZ head (16 * Z.of_nat q) ++ seqZ (head + 4 * Z.of_nat q * 4) (n - (head + 4 * Z.of_nat q * 4)) = seqZ 0 n) as ->.
  { replace (head + 4 * Z.of_nat q * 4) with (head + 16 * Z.of_nat q) by lia. rewrite <- seqZ_app by lia.
    replace head with (0 + head) at 2 by lia. rewrite <- seqZ_app by lia. f_equal. lia. }
  change (fold_left _ (seqZ 0 n) 0xFFFFFFFF) with (ref_fold bytes (seqZ 0 n) 0xFFFFFFFF).
  pose proof (ref_fold_uint32 bytes (seqZ 0 n) 0xFFFFFFFF Hb H0) as Hu. unfold n in *. rewrite (ref_fold_all bytes) in *.
  unfold js_xor. change (i32 (-1)) with (i32 0xFFFFFFFF). rewrite i32_i32, <- i32_lxor, u32_i32. unfold crc32.
  rewrite u32_id by (by apply lxor_bound). apply Z.lxor_comm.
Qed.

(** C17: The optimised checksum is CRC-32: for every sequence of bytes (shorter than 2^31, the length at which the
    32-bit shift of the source would wrap) and every alignment of the view in its buffer,
    stream_crc (byte by byte to a word boundary, sixteen bytes a step through sixteen tables, byte by byte to
    the end) is the CRC-32 defined bit by bit, with the polynomial 0xEDB88320 and the register inverted
    before and after. *)
Theorem stream_crc_is_crc32 (byteOffset : Z) (bytes : list Z) : Forall byte bytes -> stream_crc byteOffset bytes = crc32 bytes.
Proof. apply stream_crc_spec. Qed.

Lemma stream_crc_bound byteOffset bytes : Forall byte bytes -> uint32 (stream_crc byteOffset bytes).
Proof.
  intros Hb. rewrite stream_crc_spec by done. unfold crc32. apply lxor_bound; [lia|unfold uint32; lia|]. rewrite <- ref_fold_all.
  apply ref_fold_uint32; [done|unfold uint32; lia].
Qed.

(** ** Errors the checksum detects *)

#[local] Opaque stream_crc.

Lemma bit_inj a b : uint32 a -> uint32 b -> bit a = bit b -> a = b.
Proof.
  intros Ha Hb E. assert (forall x, uint32 x -> Z.testbit (bit x) 31 = Z.odd x) as Ht.
  { intros x Hx. unfold bit. rewrite Z.lxor_spec, Z.shiftr_spec, (testbit_high 32 x) by (done || lia). by destruct (Z.odd x). }
  assert (Z.odd a = Z.odd b) as Eo by (by rewrite <- (Ht a Ha), <- (Ht b Hb), E).
  unfold bit in E. rewrite Eo in E. assert (a .>> 1 = b .>> 1) as Es.
  { set (k := if Z.odd b then _ else _) in E. rewrite <- (Z.lxor_0_r (a .>> 1)), <- (Z.lxor_0_r (b .>> 1)), <- (Z.lxor_nilpotent k).
    by rewrite <- !Z.lxor_assoc, E. }
  rewrite !Z.shiftr_div_pow2 in Es by lia. change (2 ^ 1) with 2 in Es.
  pose proof (Z.div_mod a 2 ltac:(lia)) as Da. pose proof (Z.div_mod b 2 ltac:(lia)) as Db. rewrite !Zmod_odd in *. rewrite Es, Eo in Da. lia.
Qed.

Lemma bits_inj_iter n a b : uint32 a -> uint32 b -> Nat.iter n bit a = Nat.iter n bit b -> a = b.
Proof.
  intros Ha Hb. induction n as [|n IH]; [done|]. cbn [Nat.iter nat_rect]. intros E. apply IH, bit_inj; [by apply bits_uint32..|done].
Qed.

Lemma lxor_cancel_r x y k : x .^ k = y .^ k -> x = y.
Proof. intros E. rewrite <- (Z.lxor_0_r x), <- (Z.lxor_0_r y), <- (Z.lxor_nilpotent k), <- !Z.lxor_assoc. by rewrite E. Qed.

Definition le (w : list Z) : Z := foldr (fun b a => b .^ (a .<< 8)) 0 w.

Lemma fold_bits w c : fold_left byte_step w c = Nat.iter (8 * length w) bit (c .^ le w).
Proof.
  revert c. induction w as [|b w IH]; intros c; [cbn; by rewrite Z.lxor_0_r|]. rewrite fold_left_cons, IH. cbn [le foldr length].
  replace (8 * S (length w))%nat with (8 * length w + 8)%nat by lia. rewrite bits_add. f_equal. fold (le w).
  rewrite byte_step_bits, <- Z.lxor_assoc, (bits_lxor 8 (c .^ b)). f_equal. symmetry. apply (bits_shiftl 8).
Qed.

Lemma le_bound w : Forall byte w -> 0 <= le w < 2 ^ (8 * Z.of_nat (length w)).
Proof.
  induction 1 as [|b w Hb Hw IH]; [cbn; lia|]. cbn [le foldr length]. fold (le w).
  replace (8 * Z.of_nat (S (length w))) with (8 * Z.of_nat (length w) + 8) by lia. apply lxor_bound; [lia| |].
  - unfold byte in Hb. pose proof (Z.pow_le_mono_r 2 8 (8 * Z.of_nat (length w) + 8) ltac:(lia) ltac:(lia)). lia.
  - apply shiftl_bound; lia.
Qed.

Lemma le_inj w w' : Forall byte w -> Forall byte w' -> length w = length w' -> le w = le w' -> w = w'.
Proof.
  intros Hw. revert w'. induction Hw as [|b w Hb Hw IH]; intros [|b' w'] Hw' El E; try done. inversion Hw' as [|? ? Hb' Hw'']; subst.
  cbn [le foldr] in E. fold (le w) in E. fold (le w') in E.
  unfold byte in *. rewrite !lxor_shiftl_add in E by lia. change (2 ^ 8) with 256 in *.
  assert (b = b') as -> by lia. f_equal. apply IH; [done|by injection El|lia].
Qed.

Lemma fold_inj q a b : Forall byte q -> uint32 a -> uint32 b -> fold_left byte_step q a = fold_left byte_step q b -> a = b.
Proof.
  intros Hq. revert a b. induction Hq as [|x q Hx Hq IH]; intros a b Ha Hb E; [done|]. rewrite !fold_left_cons in E.
  apply IH in E; [|by apply byte_step_uint32..]. rewrite !byte_step_bits in E.
  apply bits_inj_iter in E; [|apply lxor_bound; unfold uint32, byte in *; lia..]. by apply lxor_cancel_r in E.
Qed.

(** What the checksum detects: two records of the same length that differ only within four consecutive bytes
    (any burst of up to 32 bits, in particular any single changed byte) have different checksums. *)
Theorem crc_detects_bursts (o o' : Z) (before window window' after : list Z) :
  Forall byte (before ++ window ++ after) -> Forall byte window' -> length window' = length window -> (length window <= 4)%nat ->
  window <> window' -> stream_crc o (before ++ window ++ after) <> stream_crc o' (before ++ window' ++ after).
Proof.
  intros Hb Hw' Hl H4 Hne. rewrite (stream_crc_spec o _ Hb). rewrite !Forall_app in Hb. destruct Hb as (Hp & Hw & Hq).
  assert (Forall byte (before ++ window' ++ after)) as Hb' by (by rewrite !Forall_app). rewrite (stream_crc_spec o' _ Hb').
  unfold crc32. rewrite !(Z.lxor_comm 0xFFFFFFFF). intros E.
  apply lxor_cancel_r in E. rewrite !fold_left_app in E.
  assert (uint32 (fold_left byte_step before 0xFFFFFFFF)) as Hc.
  { rewrite <- ref_fold_all. apply ref_fold_uint32; [done|unfold uint32; lia]. }
  set (c := fold_left byte_step before 0xFFFFFFFF) in *.
  assert (forall w, Forall byte w -> (length w <= 4)%nat -> uint32 (c .^ le w)) as Hu.
  { intros w Hwb Hwl. apply lxor_bound; [lia|done|]. pose proof (le_bound w Hwb).
    pose proof (Z.pow_le_mono_r 2 (8 * Z.of_nat (length w)) 32 ltac:(lia) ltac:(lia)). lia. }
  assert (forall w, Forall byte w -> (length w <= 4)%nat -> uint32 (fold_left byte_step w c)) as Hf
    by (intros; rewrite fold_bits; by apply bits_uint32, Hu).
  apply fold_inj in E; [|done|apply Hf; (done || lia)..]. rewrite !fold_bits in E.
  rewrite Hl in E. apply bits_inj_iter in E; [|apply Hu; (done || lia)..].
  rewrite !(Z.lxor_comm c) in E. apply lxor_cancel_r in E. by apply Hne, le_inj.
Qed.

Lemma stream_crc_is_crc32_witness : stream_crc 3 [0x31; 0x32; 0x33; 0x34; 0x35; 0x36; 0x37; 0x38; 0x39] = 0xCBF43926.
Proof. rewrite (stream_crc_is_crc32 3 [0x31; 0x32; 0x33; 0x34; 0x35; 0x36; 0x37; 0x38; 0x39]); [vm_compute; reflexivity|]. repeat constructor; discriminate. Defined.

Lemma crc_detects_bursts_witness : stream_crc 0 [1; 2; 3; 4; 5] <> stream_crc 0 [1; 2; 9; 0; 5].
Proof. apply (crc_detects_bursts 0 0 [1; 2] [3; 4] [9; 0] [5]); repeat constructor; discriminate. Defined.

End Crc.
