(* ===== verification/Text.v ===== *)
(** * Strings and their UTF-8 encoding

    What the sources use of [TextEncoder] and [TextDecoder] (the Encoding
    standard), for snapshots ([state.js]) and for 9p messages ([marshall.js]).  A
    string is its list of UTF-16 code units. *)

From S2P Require Import Prelude.

Open Scope js_scope.

Module Text.

Definition text : Type := list Z.

Definition is_high (u : Z) : bool := (0xD800 <=? u) && (u <=? 0xDBFF).
Definition is_low (u : Z) : bool := (0xDC00 <=? u) && (u <=? 0xDFFF).
Definition is_surrogate (u : Z) : bool := (0xD800 <=? u) && (u <=? 0xDFFF).
Definition REPLACEMENT : Z := 0xFFFD.
Definition BOM : Z := 0xFEFF.

(** The code point of a surrogate pair, and the pair of a code point. *)
Definition pair_value (hi lo : Z) : Z := 0x10000 + (hi - 0xD800) * 0x400 + (lo - 0xDC00).
Definition units (c : Z) : text :=
  if c <? 0x10000 then [c] else [0xD800 + (c - 0x10000) / 0x400; 0xDC00 + (c - 0x10000) mod 0x400].

(** The scalar values of a string; a lone surrogate becomes U+FFFD. *)
Fixpoint scalars (s : text) : list Z :=
  match s with
  | [] => []
  | u :: s' =>
      match s' with
      | v :: s'' =>
          if is_high u && is_low v then pair_value u v :: scalars s''
          else (if is_surrogate u then REPLACEMENT else u) :: scalars s'
      | [] => [if is_surrogate u then REPLACEMENT else u]
      end
  end.

(** No lone surrogates. *)
Fixpoint well_formed (s : text) : bool :=
  match s with
  | [] => true
  | u :: s' =>
      match s' with
      | v :: s'' => if is_high u && is_low v then well_formed s'' else negb (is_surrogate u) && well_formed s'
      | [] => negb (is_surrogate u)
      end
  end.

(** ** Encoding *)

Definition utf8 (c : Z) : list Z :=
  if c <? 0x80 then [c]
  else if c <? 0x800 then [0xC0 + c / 0x40; 0x80 + c mod 0x40]
  else if c <? 0x10000 then [0xE0 + c / 0x1000; 0x80 + c / 0x40 mod 0x40; 0x80 + c mod 0x40]
  else [0xF0 + c / 0x40000; 0x80 + c / 0x1000 mod 0x40; 0x80 + c / 0x40 mod 0x40; 0x80 + c mod 0x40].

(** [new TextEncoder().encode(s)] *)
Definition encode (s : text) : list Z := scalars s ≫= utf8.

(** ** Decoding: the UTF-8 decoder of the Encoding standard *)

Record decoder := mk {
  code_point : Z;
  needed : Z;
  lower : Z;
  upper : Z
}.
Definition initial : decoder := mk 0 0 0x80 0xBF.

(** A byte that starts a sequence; [None] among the outputs is an error. *)
Definition start (b : Z) : list (option Z) * decoder :=
  if b <=? 0x7F then ([Some b], initial)
  else if (0xC2 <=? b) && (b <=? 0xDF) then ([], mk (b .& 0x1F) 1 0x80 0xBF)
  else if (0xE0 <=? b) && (b <=? 0xEF) then
    ([], mk (b .& 0xF) 2 (if b =? 0xE0 then 0xA0 else 0x80) (if b =? 0xED then 0x9F else 0xBF))
  else if (0xF0 <=? b) && (b <=? 0xF4) then
    ([], mk (b .& 0x7) 3 (if b =? 0xF0 then 0x90 else 0x80) (if b =? 0xF4 then 0x8F else 0xBF))
  else ([None], initial).

Definition decode_byte (d : decoder) (b : Z) : list (option Z) * decoder :=
  if needed d =? 0 then start b
  else if negb ((lower d <=? b) && (b <=? upper d)) then let '(out, d') := start b in (None :: out, d')
  else
    let c := (code_point d .<< 6) .| (b .& 0x3F) in
    if needed d =? 1 then ([Some c], initial) else ([], mk c (needed d - 1) 0x80 0xBF).

Fixpoint decode_bytes (d : decoder) (bytes : list Z) : list (option Z) :=
  match bytes with
  | [] => if needed d =? 0 then [] else [None]
  | b :: rest => let '(out, d') := decode_byte d b in out ++ decode_bytes d' rest
  end.

Definition strip_bom (bytes : list Z) : list Z :=
  match bytes with
  | a :: b :: c :: rest => if (a =? 0xEF) && (b =? 0xBB) && (c =? 0xBF) then rest else bytes
  | _ => bytes
  end.

(** [new TextDecoder().decode(bytes)] *)
Definition decode (bytes : list Z) : text := decode_bytes initial (strip_bom bytes) ≫= fun c => units (default REPLACEMENT c).

(** The same with [fatal: true]: an error is an exception. *)
Definition decode_fatal (bytes : list Z) : option text :=
  cs ← mapM id (decode_bytes initial (strip_bom bytes)); Some (cs ≫= units).

(** ** Round trip *)

Definition scalar (c : Z) : Prop := 0 <= c < 0x110000 /\ is_surrogate c = false.

Lemma low_bits k q n : 0 <= n -> 0 <= q < 2 ^ n -> (k * 2 ^ n + q) .& (2 ^ n - 1) = q.
Proof. intros. rewrite land_ones_mod, Z.add_comm, Z.mod_add by lia. by apply Z.mod_small. Qed.

Lemma append_bits q b : 0 <= b < 64 -> (q .<< 6) .| ((0x80 + b) .& 0x3F) = q * 64 + b.
Proof.
  intros Hb. pose proof (low_bits 2 b 6 ltac:(lia) Hb) as E. change (2 * 2 ^ 6 + b) with (0x80 + b) in E. change (2 ^ 6 - 1) with 0x3F in E.
  rewrite E, Z.lor_comm. rewrite lor_shiftl_add by lia. change (2 ^ 6) with 64. lia.
Qed.

(** A continuation byte in the range the decoder expects. *)
Lemma decode_cont cp n lo up b rest :
  0 < n -> 0 <= b < 64 -> lo <= 0x80 + b <= up ->
  decode_bytes (mk cp n lo up) (0x80 + b :: rest)
  = if n =? 1 then Some (cp * 64 + b) :: decode_bytes initial rest else decode_bytes (mk (cp * 64 + b) (n - 1) 0x80 0xBF) rest.
Proof.
  intros Hn Hb Hr. cbn [decode_bytes]. unfold decode_byte. cbn [needed lower upper code_point]. rewrite append_bits by done.
  rewrite (proj2 (Z.eqb_neq n 0)) by lia. replace (lo <=? 0x80 + b) with true by lia. replace (0x80 + b <=? up) with true by lia.
  by destruct (n =? 1).
Qed.

Lemma decode_start b rest : decode_bytes initial (b :: rest) = let '(out, d) := start b in out ++ decode_bytes d rest.
Proof. done. Qed.

Lemma start2 q : 2 <= q < 32 -> start (0xC0 + q) = ([], mk q 1 0x80 0xBF).
Proof.
  intros Hq. unfold start. replace (0xC0 + q <=? 0x7F) with false by lia. replace (0xC2 <=? 0xC0 + q) with true by lia.
  replace (0xC0 + q <=? 0xDF) with true by lia. do 2 f_equal. apply (low_bits 6 q 5); lia.
Qed.

Lemma start3 q : 0 <= q < 16 ->
  start (0xE0 + q) = ([], mk q 2 (if q =? 0 then 0xA0 else 0x80) (if q =? 13 then 0x9F else 0xBF)).
Proof.
  intros Hq. unfold start. replace (0xE0 + q <=? 0x7F) with false by lia. replace (0xE0 + q <=? 0xDF) with false by lia.
  rewrite andb_false_r. replace (0xE0 <=? 0xE0 + q) with true by lia. replace (0xE0 + q <=? 0xEF) with true by lia.
  replace (0xE0 + q =? 0xE0) with (q =? 0) by lia. replace (0xE0 + q =? 0xED) with (q =? 13) by lia.
  cbn [andb]. do 2 f_equal. apply (low_bits 14 q 4); lia.
Qed.

Lemma start4 q : 0 <= q < 5 ->
  start (0xF0 + q) = ([], mk q 3 (if q =? 0 then 0x90 else 0x80) (if q =? 4 then 0x8F else 0xBF)).
Proof.
  intros Hq. assert (q = 0 \/ q = 1 \/ q = 2 \/ q = 3 \/ q = 4) as [->|[->|[->|[->| ->]]]] by lia; reflexivity.
Qed.

Lemma decode_utf8 c rest : scalar c -> decode_bytes initial (utf8 c ++ rest) = Some c :: decode_bytes initial rest.
Proof.
  intros [Hc Hs]. unfold utf8, is_surrogate in *. destruct (Z.ltb_spec c 0x80); [|destruct (Z.ltb_spec c 0x800); [|destruct (Z.ltb_spec c 0x10000)]];
    cbn [app]; rewrite decode_start.
  - unfold start. by replace (c <=? 0x7F) with true by lia.
  - pose proof (Z.div_mod c 64 ltac:(lia)). pose proof (Z.mod_pos_bound c 64 ltac:(lia)). rewrite start2 by lia. cbn [app].
    rewrite decode_cont by lia. cbn [Z.eqb]. do 2 f_equal. lia.
  - pose proof (Z.div_mod c 64 ltac:(lia)). pose proof (Z.mod_pos_bound c 64 ltac:(lia)). set (q := c / 64) in *.
    pose proof (Z.div_mod q 64 ltac:(lia)). pose proof (Z.mod_pos_bound q 64 ltac:(lia)).
    replace (c / 0x1000) with (q / 64) by (unfold q; by rewrite Z.div_div by lia). rewrite start3 by lia. cbn [app].
    rewrite decode_cont by (destruct (Z.eqb_spec (q / 64) 0), (Z.eqb_spec (q / 64) 13); lia). change (2 =? 1) with false. cbn match.
    rewrite decode_cont by lia. cbn [Z.eqb Z.sub]. do 2 f_equal. lia.
  - pose proof (Z.div_mod c 64 ltac:(lia)). pose proof (Z.mod_pos_bound c 64 ltac:(lia)). set (q := c / 64) in *.
    pose proof (Z.div_mod q 64 ltac:(lia)). pose proof (Z.mod_pos_bound q 64 ltac:(lia)). set (p := q / 64) in *.
    pose proof (Z.div_mod p 64 ltac:(lia)). pose proof (Z.mod_pos_bound p 64 ltac:(lia)).
    replace (c / 0x1000) with p by (unfold p, q; by rewrite Z.div_div by lia).
    replace (c / 0x40000) with (p / 64) by (unfold p, q; by rewrite !Z.div_div by lia). rewrite start4 by lia. cbn [app].
    rewrite decode_cont by (destruct (Z.eqb_spec (p / 64) 0), (Z.eqb_spec (p / 64) 4); lia). change (3 =? 1) with false. cbn match.
    rewrite decode_cont by lia. change (3 - 1 =? 1) with false. cbn match. rewrite decode_cont by lia.
    change (3 - 1 - 1 =? 1) with true. cbn match. do 2 f_equal. lia.
Qed.

Lemma decode_scalars cs : Forall scalar cs -> decode_bytes initial (cs ≫= utf8) = Some <$> cs.
Proof.
  induction 1 as [|c cs Hc Hcs IH]; [done|]. cbn [mbind list_bind]. rewrite decode_utf8 by done. cbn. by f_equal.
Qed.

(** Induction that takes surrogate pairs together. *)
Lemma text_ind (P : list Z -> Prop) :
  P [] -> (forall u s, P s -> (forall v s', s = v :: s' -> P s') -> P (u :: s)) -> forall s, P s.
Proof.
  intros H0 Hs s. assert (P s /\ forall v s', s = v :: s' -> P s') as [H _]; [|done].
  induction s as [|u s [IH1 IH2]]; [done|]. split; [by apply Hs|]. intros v s' [= -> ->]. done.
Qed.

Lemma scalars_cons u s :
  scalars (u :: s) = match s with
    | v :: s' => if is_high u && is_low v then pair_value u v :: scalars s' else (if is_surrogate u then REPLACEMENT else u) :: scalars s
    | [] => [if is_surrogate u then REPLACEMENT else u]
    end.
Proof. by destruct s. Qed.

Lemma scalars_scalar (s : list Z) : Forall word16 s -> Forall scalar (scalars s).
Proof.
  induction s as [|u s IH1 IH2] using text_ind; [constructor|]. intros Hw. inversion Hw as [|? ? Hu Hs]; subst. unfold word16 in Hu.
  assert (scalar (if is_surrogate u then REPLACEMENT else u)) as Hr.
  { unfold scalar. destruct (is_surrogate u) eqn:E; [split; [unfold REPLACEMENT; lia|done]|split; [lia|done]]. }
  rewrite scalars_cons. destruct s as [|v s']; [constructor; [done|constructor]|]. inversion Hs as [|? ? Hv Hs']; subst.
  destruct (is_high u && is_low v) eqn:E; [|constructor; [done|by apply IH1]]. constructor; [|by apply (IH2 v)].
  unfold is_high, is_low, pair_value, scalar, is_surrogate in *. lia.
Qed.

Lemma units_pair u v : is_high u && is_low v = true -> units (pair_value u v) = [u; v].
Proof.
  unfold is_high, is_low, units, pair_value. intros E.
  replace (_ <? 0x10000) with false by lia.
  replace (0x10000 + (u - 0xD800) * 0x400 + (v - 0xDC00) - 0x10000) with ((v - 0xDC00) + (u - 0xD800) * 0x400) by lia.
  rewrite Z.div_add, Z.mod_add, Z.div_small, Z.mod_small by lia. f_equal; [lia|]. f_equal. lia.
Qed.

Lemma units_scalars (s : list Z) : Forall word16 s -> well_formed s = true -> scalars s ≫= units = s.
Proof.
  induction s as [|u s IH1 IH2] using text_ind; [done|]. intros Hw Hf. inversion Hw as [|? ? Hu Hs]; subst.
  assert (is_surrogate u = false -> units (if is_surrogate u then REPLACEMENT else u) = [u]) as Hun.
  { intros ->. unfold units. unfold word16 in Hu. by replace (u <? 0x10000) with true by lia. }
  rewrite scalars_cons. destruct s as [|v s'].
  - cbn [mbind list_bind]. rewrite Hun by (cbn in Hf; by destruct (is_surrogate u)). done.
  - change (well_formed (u :: v :: s')) with (if is_high u && is_low v then well_formed s' else negb (is_surrogate u) && well_formed (v :: s')) in Hf.
    destruct (is_high u && is_low v) eqn:E.
    + cbn [mbind list_bind]. rewrite units_pair by done. cbn [app]. do 2 f_equal. apply (IH2 v); [done| |done]. by inversion Hs.
    + apply andb_true_iff in Hf as [Hf1 Hf2]. cbn [mbind list_bind]. rewrite Hun by (by destruct (is_surrogate u)). cbn [app]. f_equal. by apply IH1.
Qed.

Lemma strip_bom_utf8 c rest : scalar c -> c <> BOM -> strip_bom (utf8 c ++ rest) = utf8 c ++ rest.
Proof.
  intros [Hc _] Hb. unfold BOM in Hb.
  assert (exists b l, utf8 c = b :: l /\ (b <> 0xEF \/ exists b2 b3, l = [b2; b3] /\ ~ (b2 = 0xBB /\ b3 = 0xBF))) as (b & l & E & Hbl).
  { unfold utf8. destruct (Z.ltb_spec c 0x80); [|destruct (Z.ltb_spec c 0x800); [|destruct (Z.ltb_spec c 0x10000)]].
    - eexists _, _. split; [done|]. left. lia.
    - eexists _, _. split; [done|]. left. pose proof (Z.div_lt_upper_bound c 64 32 ltac:(lia) ltac:(lia)). lia.
    - eexists _, _. split; [done|]. destruct (decide (0xE0 + c / 0x1000 = 0xEF)) as [E1|]; [right|by left].
      eexists _, _. split; [done|]. replace (c / 0x1000) with (c / 64 / 64) in E1 by (by rewrite Z.div_div by lia).
      pose proof (Z.div_mod c 64 ltac:(lia)). pose proof (Z.div_mod (c / 64) 64 ltac:(lia)). lia.
    - eexists _, _. split; [done|]. left. pose proof (Z.div_le_lower_bound c 0x40000 0 ltac:(lia) ltac:(lia)). lia. }
  rewrite E. destruct Hbl as [Hn|(b2 & b3 & -> & Hn)].
  - unfold strip_bom. cbn [app]. destruct (l ++ rest) as [|x [|y r]]; try done. by replace (b =? 0xEF) with false by lia.
  - unfold strip_bom. cbn [app]. destruct (_ && _) eqn:Ea; [|done]. exfalso. apply Hn. lia.
Qed.

Lemma strip_bom_encode s : Forall word16 s -> head (scalars s) <> Some BOM -> strip_bom (encode s) = encode s.
Proof.
  intros Hw Hb. unfold encode. pose proof (scalars_scalar s Hw) as Hs. destruct Hs as [|c cs Hc Hcs]; [done|].
  cbn [mbind list_bind]. apply strip_bom_utf8; [done|]. intros ->. by apply Hb.
Qed.

(** Decoding what was encoded: lone surrogates become U+FFFD. *)
Lemma decode_encode s : Forall word16 s -> head (scalars s) <> Some BOM -> decode (encode s) = scalars s ≫= units.
Proof.
  intros Hw Hb. unfold decode. rewrite strip_bom_encode by done. unfold encode. rewrite decode_scalars by (by apply scalars_scalar).
  clear Hb. induction (scalars s) as [|c cs IH]; [done|]. cbn [fmap list_fmap mbind list_bind default]. by rewrite IH.
Qed.

(** A string without lone surrogates that does not begin with a byte order mark is decoded from its encoding. *)
Lemma decode_encode_id s : Forall word16 s -> well_formed s = true -> head s <> Some BOM -> decode (encode s) = s.
Proof.
  intros Hw Hf Hb. rewrite decode_encode; [by apply units_scalars|done|]. destruct s as [|u s]; [done|]. rewrite scalars_cons.
  intros Hh. apply Hb. cbn. f_equal. destruct s as [|v s'].
  - cbn in Hh. injection Hh as Hh. cbn in Hf. destruct (is_surrogate u); [done|]. done.
  - change (well_formed (u :: v :: s')) with (if is_high u && is_low v then well_formed s' else negb (is_surrogate u) && well_formed (v :: s')) in Hf.
    destruct (is_high u && is_low v) eqn:E; cbn in Hh; injection Hh as Hh.
    + unfold is_high, is_low, pair_value, BOM in *. lia.
    + by destruct (is_surrogate u).
Qed.

Lemma decode_fatal_encode s : Forall word16 s -> well_formed s = true -> head s <> Some BOM -> decode_fatal (encode s) = Some s.
Proof.
  intros Hw Hf Hb. assert (head (scalars s) <> Some BOM) as Hb'.
  { intros Hh. apply Hb. pose proof (units_scalars s Hw Hf) as E. destruct (scalars s) as [|c cs]; [done|]. cbn in Hh. injection Hh as ->.
    by rewrite <- E. }
  unfold decode_fatal. rewrite strip_bom_encode by done. unfold encode. rewrite decode_scalars by (by apply scalars_scalar).
  assert (forall cs : list Z, mapM id (Some <$> cs) = Some cs) as -> by (induction cs as [|c cs IH]; [done|]; cbn; by rewrite IH).
  cbn. by rewrite units_scalars.
Qed.

Lemma encode_byte s : Forall word16 s -> Forall byte (encode s).
Proof.
  intros Hw. unfold encode. apply scalars_scalar in Hw. induction Hw as [|c cs [Hc _] Hcs IH]; [constructor|]. cbn [mbind list_bind].
  apply Forall_app. split; [|done]. unfold utf8, byte.
  assert (forall x, 0 <= x mod 64 < 64) as Hm by (intros; by apply Z.mod_pos_bound).
  pose proof (Z.div_pos c 64 ltac:(lia) ltac:(lia)). pose proof (Z.div_pos c 0x1000 ltac:(lia) ltac:(lia)). pose proof (Z.div_pos c 0x40000 ltac:(lia) ltac:(lia)).
  destruct (Z.ltb_spec c 0x80); [repeat constructor; lia|].
  destruct (Z.ltb_spec c 0x800); [pose proof (Z.div_lt_upper_bound c 64 32 ltac:(lia) ltac:(lia)); pose proof (Hm c); repeat constructor; lia|].
  pose proof (Hm c); pose proof (Hm (c / 64)); pose proof (Hm (c / 0x1000)).
  destruct (Z.ltb_spec c 0x10000); [pose proof (Z.div_lt_upper_bound c 0x1000 16 ltac:(lia) ltac:(lia))
    |pose proof (Z.div_lt_upper_bound c 0x40000 8 ltac:(lia) ltac:(lia))]; repeat constructor; lia.
Qed.

End Text.
