(* ===== verification/Json.v ===== *)
(** * JSON

    What the sources use of [JSON.stringify] and [JSON.parse] (ECMAScript 25.5),
    for the manifest of a snapshot ([state.js]).  Texts and strings are lists of UTF-16
    code units.  A number is the decimal the language prints for it, an integer
    divided by a power of ten; numbers below 1e-6 and from 1e21 on, which are
    printed with an exponent, are outside the printer's domain. *)

From S2P Require Import Prelude Text.

Import Text.

Module Json.

#[local] Set Warnings "-register-all".

(** [JNum m e] is [m / 10^e]. *)
Inductive json :=
| JNull
| JBool (b : bool)
| JNum (m : Z) (e : nat)
| JStr (s : text)
| JArr (l : list json)
| JObj (l : list (text * json)).

(** ** Printing *)

Fixpoint digits_of (fuel : nat) (n : Z) : text :=
  match fuel with
  | O => []
  | S fuel => if n <? 10 then [48 + n] else digits_of fuel (n / 10) ++ [48 + n mod 10]
  end.
(** A division by ten shortens the binary expansion. *)
Definition digits (n : Z) : text := digits_of (S (Z.to_nat (Z.log2 n))) n.
Fixpoint fixed_digits (k : nat) (n : Z) : text :=
  match k with
  | O => []
  | S k => fixed_digits k (n / 10) ++ [48 + n mod 10]
  end.

Definition print_magnitude (m : Z) (e : nat) : text :=
  match e with
  | O => digits m
  | _ => digits (m / 10 ^ Z.of_nat e) ++ 46 :: fixed_digits e (m mod 10 ^ Z.of_nat e)
  end.
Definition print_number (m : Z) (e : nat) : text := (if m <? 0 then [45] else []) ++ print_magnitude (Z.abs m) e.

Definition hex_digit (d : Z) : Z := if d <? 10 then 48 + d else 87 + d.
Definition hex4 (u : Z) : text := [hex_digit (u / 0x1000 mod 16); hex_digit (u / 0x100 mod 16); hex_digit (u / 0x10 mod 16); hex_digit (u mod 16)].

(** A code unit that is not half of a surrogate pair, inside quotes. *)
Definition escape (u : Z) : text :=
  if u =? 0x22 then [92; 34]
  else if u =? 0x5C then [92; 92]
  else if u =? 8 then [92; 98]
  else if u =? 12 then [92; 102]
  else if u =? 10 then [92; 110]
  else if u =? 13 then [92; 114]
  else if u =? 9 then [92; 116]
  else if (u <? 0x20) || is_surrogate u then [92; 117] ++ hex4 u
  else [u].
Fixpoint escapes (s : text) : text :=
  match s with
  | [] => []
  | u :: s' =>
      match s' with
      | v :: s'' => if is_high u && is_low v then u :: v :: escapes s'' else escape u ++ escapes s'
      | [] => escape u
      end
  end.
Definition print_string (s : text) : text := 34 :: escapes s ++ [34].

Fixpoint separate (parts : list text) : text :=
  match parts with
  | [] => []
  | [p] => p
  | p :: rest => p ++ 44 :: separate rest
  end.

(** [JSON.stringify(j)] *)
Fixpoint print (j : json) : text :=
  match j with
  | JNull => [110; 117; 108; 108]
  | JBool true => [116; 114; 117; 101]
  | JBool false => [102; 97; 108; 115; 101]
  | JNum m e => print_number m e
  | JStr s => print_string s
  | JArr l => 91 :: separate (map print l) ++ [93]
  | JObj l => 123 :: separate (map (fun '(k, v) => print_string k ++ 58 :: print v) l) ++ [125]
  end.

(** ** Parsing *)

Definition is_space (c : Z) : bool := (c =? 32) || (c =? 9) || (c =? 10) || (c =? 13).
Fixpoint skip_spaces (s : text) : text :=
  match s with
  | c :: s' => if is_space c then skip_spaces s' else s
  | [] => []
  end.

Definition is_digit (c : Z) : bool := (48 <=? c) && (c <=? 57).
Fixpoint span_digits (s : text) : text * text :=
  match s with
  | c :: s' => if is_digit c then let '(ds, rest) := span_digits s' in (c :: ds, rest) else ([], s)
  | [] => ([], [])
  end.
Definition value_of (ds : text) : Z := fold_left (fun a d => a * 10 + (d - 48)) ds 0.

(** Numbers that are equal have the same representation. *)
Fixpoint normal (e : nat) (m : Z) : json :=
  match e with
  | O => JNum m 0
  | S e' => if m mod 10 =? 0 then normal e' (m / 10) else JNum m e
  end.

Definition parse_int (s : text) : option (text * text) :=
  let '(ds, rest) := span_digits s in
  match ds with
  | [] => None
  | d :: ds' => if (d =? 48) && (0 <? Z.of_nat (length ds')) then None else Some (ds, rest)
  end.
Definition parse_fraction (s : text) : option (text * text) :=
  match s with
  | c :: s' => if c =? 46 then let '(ds, rest) := span_digits s' in match ds with [] => None | _ => Some (ds, rest) end else Some ([], s)
  | [] => Some ([], s)
  end.
Definition parse_exponent (s : text) : option (Z * text) :=
  match s with
  | c :: s' =>
      if (c =? 101) || (c =? 69) then
        let '(sign, s'') := match s' with
          | x :: r => if x =? 45 then (-1, r) else if x =? 43 then (1, r) else (1, s')
          | [] => (1, s') end in
        let '(ds, rest) := span_digits s'' in
        match ds with [] => None | _ => Some (sign * value_of ds, rest) end
      else Some (0, s)
  | [] => Some (0, s)
  end.
Definition parse_magnitude (sign : Z) (s : text) : option (json * text) :=
  '(int, s) ← parse_int s;
  '(frac, s) ← parse_fraction s;
  '(exp, s) ← parse_exponent s;
  let m := sign * value_of (int ++ frac) in
  let e := Z.of_nat (length frac) - exp in
  Some (if e <=? 0 then JNum (m * 10 ^ (- e)) 0 else normal (Z.to_nat e) m, s).
Definition parse_number (s : text) : option (json * text) :=
  match s with
  | x :: r => if x =? 45 then parse_magnitude (-1) r else parse_magnitude 1 s
  | [] => None
  end.

Definition hex_value (c : Z) : option Z :=
  if is_digit c then Some (c - 48)
  else if (97 <=? c) && (c <=? 102) then Some (c - 87)
  else if (65 <=? c) && (c <=? 70) then Some (c - 55)
  else None.
Definition unescape (c : Z) : option Z :=
  if c =? 34 then Some 34 else if c =? 92 then Some 92 else if c =? 47 then Some 47 else if c =? 98 then Some 8
  else if c =? 102 then Some 12 else if c =? 110 then Some 10 else if c =? 114 then Some 13 else if c =? 116 then Some 9 else None.
Definition cons_unit (u : Z) (r : option (text * text)) : option (text * text) := '(s, rest) ← r; Some (u :: s, rest).

(** After the opening quote. *)
Fixpoint parse_string (s : text) : option (text * text) :=
  match s with
  | [] => None
  | c :: r =>
      if c =? 34 then Some ([], r)
      else if c =? 92 then
        match r with
        | x :: r' =>
            if x =? 117 then
              match r' with
              | a :: b :: c :: d :: r'' =>
                  match hex_value a, hex_value b, hex_value c, hex_value d with
                  | Some a, Some b, Some c, Some d => cons_unit (a * 0x1000 + b * 0x100 + c * 0x10 + d) (parse_string r'')
                  | _, _, _, _ => None
                  end
              | _ => None
              end
            else match unescape x with Some u => cons_unit u (parse_string r') | None => None end
        | [] => None
        end
      else if c <? 0x20 then None
      else cons_unit c (parse_string r)
  end.

Fixpoint literal (word s : text) : option text :=
  match word, s with
  | [], _ => Some s
  | w :: word, c :: s => if w =? c then literal word s else None
  | _, [] => None
  end.

(** A later member of the same name replaces the value. *)
Fixpoint set_member (k : text) (v : json) (l : list (text * json)) : list (text * json) :=
  match l with
  | [] => [(k, v)]
  | (k', v') :: l => if decide (k = k') then (k, v) :: l else (k', v') :: set_member k v l
  end.

Fixpoint parse_value (fuel : nat) (s : text) : option (json * text) :=
  match fuel with
  | O => None
  | S fuel =>
      match skip_spaces s with
      | [] => None
      | c :: r =>
          if c =? 34 then '(str, r) ← parse_string r; Some (JStr str, r)
          else if c =? 91 then
            match skip_spaces r with
            | c' :: r' => if c' =? 93 then Some (JArr [], r') else '(l, r) ← parse_elements fuel r; Some (JArr l, r)
            | [] => None
            end
          else if c =? 123 then
            match skip_spaces r with
            | c' :: r' => if c' =? 125 then Some (JObj [], r') else '(l, r) ← parse_members fuel [] r; Some (JObj l, r)
            | [] => None
            end
          else if c =? 110 then r ← literal [117; 108; 108] r; Some (JNull, r)
          else if c =? 116 then r ← literal [114; 117; 101] r; Some (JBool true, r)
          else if c =? 102 then r ← literal [97; 108; 115; 101] r; Some (JBool false, r)
          else parse_number (c :: r)
      end
  end
with parse_elements (fuel : nat) (s : text) : option (list json * text) :=
  match fuel with
  | O => None
  | S fuel =>
      '(v, r) ← parse_value fuel s;
      match skip_spaces r with
      | c :: r => if c =? 44 then '(l, r) ← parse_elements fuel r; Some (v :: l, r) else if c =? 93 then Some ([v], r) else None
      | [] => None
      end
  end
with parse_members (fuel : nat) (acc : list (text * json)) (s : text) : option (list (text * json) * text) :=
  match fuel with
  | O => None
  | S fuel =>
      match skip_spaces s with
      | q :: r =>
          if q =? 34 then
            '(k, r) ← parse_string r;
            match skip_spaces r with
            | c :: r =>
                if c =? 58 then
                  '(v, r) ← parse_value fuel r;
                  let acc := set_member k v acc in
                  match skip_spaces r with
                  | c :: r => if c =? 44 then parse_members fuel acc r else if c =? 125 then Some (acc, r) else None
                  | [] => None
                  end
                else None
            | [] => None
            end
          else None
      | [] => None
      end
  end.

(** [JSON.parse(s)]: every recursive call follows a code unit, or an element of its array or object. *)
Definition parse (s : text) : option json :=
  '(j, r) ← parse_value (2 * length s + 2) s;
  match skip_spaces r with [] => Some j | _ => None end.

(** ** Numbers *)

Lemma value_snoc ds d : value_of (ds ++ [d]) = value_of ds * 10 + (d - 48).
Proof. unfold value_of. by rewrite fold_left_app. Qed.

Lemma is_digit_48 d : 0 <= d < 10 -> is_digit (48 + d) = true.
Proof. unfold is_digit. lia. Qed.

Lemma digits_of_spec fuel n : 0 <= n -> (Z.to_nat (Z.log2 n) < fuel)%nat ->
  let ds := digits_of fuel n in
  value_of ds = n /\ Forall (fun d => is_digit d = true) ds /\ (exists d t, ds = d :: t /\ (d = 48 -> t = [])).
Proof.
  revert n. induction fuel as [|fuel IH]; intros n Hn Hf; [lia|]. cbn [digits_of]. cbv zeta. destruct (Z.ltb_spec n 10) as [H|H].
  - split; [cbn; lia|]. split; [constructor; [by apply is_digit_48|constructor]|]. by exists (48 + n), [].
  - pose proof (Z.div_mod n 10 ltac:(lia)). pose proof (Z.mod_pos_bound n 10 ltac:(lia)).
    assert (0 < n / 10) as Hq by lia.
    assert (Z.log2 (n / 10) < Z.log2 n) as Hl.
    { pose proof (Z.log2_spec (n / 10) Hq). pose proof (Z.log2_nonneg (n / 10)). apply Z.lt_le_trans with (Z.succ (Z.log2 (n / 10))); [lia|].
      apply Z.log2_le_pow2; [lia|]. rewrite Z.pow_succ_r by lia. lia. }
    pose proof (Z.log2_nonneg (n / 10)).
    destruct (IH (n / 10) ltac:(lia) ltac:(lia)) as (E & Hd & d & t & Et & Hdt). rewrite value_snoc, E. split; [lia|].
    split; [apply Forall_app; split; [done|constructor; [by apply is_digit_48|constructor]]|]. rewrite Et in *. exists d, (t ++ [48 + n mod 10]).
    split; [done|]. intros ->. exfalso. rewrite Hdt in E by done. cbn in E. lia.
Qed.

Lemma digits_spec n : 0 <= n ->
  value_of (digits n) = n /\ Forall (fun d => is_digit d = true) (digits n) /\ (exists d t, digits n = d :: t /\ (d = 48 -> t = [])).
Proof. intros Hn. apply digits_of_spec; lia. Qed.

Lemma fixed_digits_spec k n a : 0 <= n < 10 ^ Z.of_nat k ->
  fold_left (fun a d => a * 10 + (d - 48)) (fixed_digits k n) a = a * 10 ^ Z.of_nat k + n
  /\ length (fixed_digits k n) = k /\ Forall (fun d => is_digit d = true) (fixed_digits k n).
Proof.
  revert n. induction k as [|k IH]; intros n Hn; [cbn in *; split; [lia|by split]|].
  rewrite Nat2Z.inj_succ, Z.pow_succ_r in * by lia.
  pose proof (Z.div_mod n 10 ltac:(lia)). pose proof (Z.mod_pos_bound n 10 ltac:(lia)).
  destruct (IH (n / 10)) as (E & El & Ed); [split; [apply Z.div_pos; lia|apply Z.div_lt_upper_bound; lia]|].
  cbn [fixed_digits]. rewrite fold_left_app, E, length_app, El. cbn [fold_left length]. split; [lia|]. split; [lia|].
  apply Forall_app. split; [done|]. constructor; [by apply is_digit_48|constructor].
Qed.

(** What may follow a number. *)
Definition stops (rest : text) : Prop :=
  match rest with [] => True | c :: _ => is_digit c = false /\ c <> 46 /\ c <> 101 /\ c <> 69 end.

Lemma span_digits_app ds rest : Forall (fun d => is_digit d = true) ds ->
  match rest with [] => True | c :: _ => is_digit c = false end -> span_digits (ds ++ rest) = (ds, rest).
Proof.
  intros Hd Hr. induction Hd as [|d ds Hd Hds IH]; [destruct rest as [|c r]; [done|cbn; by rewrite Hr]|]. cbn. by rewrite Hd, IH.
Qed.

Lemma parse_int_spec n rest : 0 <= n -> match rest with [] => True | c :: _ => is_digit c = false end ->
  parse_int (digits n ++ rest) = Some (digits n, rest).
Proof.
  intros Hn Hr. destruct (digits_spec n Hn) as (_ & Hd & d & t & E & Ht). unfold parse_int. rewrite span_digits_app by done. rewrite E.
  destruct (Z.eqb_spec d 48) as [->|]; [by rewrite Ht|done].
Qed.

Lemma normal_spec e m : (e = 0%nat \/ m mod 10 <> 0) -> normal e m = JNum m e.
Proof. destruct e as [|e]; [done|]. intros [|H]; [done|]. cbn. by rewrite (proj2 (Z.eqb_neq _ _)). Qed.

Lemma parse_exponent_none rest : stops rest -> parse_exponent rest = Some (0, rest).
Proof. destruct rest as [|c r]; [done|]. intros (_ & _ & H1 & H2). unfold parse_exponent. by rewrite !(proj2 (Z.eqb_neq _ _)). Qed.

Lemma print_magnitude_head m e : 0 <= m -> exists c t, print_magnitude m e = c :: t /\ is_digit c = true.
Proof.
  intros Hm. assert (forall n, 0 <= n -> exists c t, digits n = c :: t /\ is_digit c = true) as Hd.
  { intros n Hn. destruct (digits_spec n Hn) as (_ & Hd & d & t & E & _). rewrite E in *. inversion Hd; subst. by exists d, t. }
  destruct e as [|e]; [by apply Hd|]. unfold print_magnitude.
  destruct (Hd (m / 10 ^ Z.of_nat (S e))) as (c & t & -> & Hc); [apply Z.div_pos; lia|]. eexists _, _. by split.
Qed.

Lemma parse_magnitude_int m e rest : 0 <= m -> stops rest ->
  exists int frac, parse_int (print_magnitude m e ++ rest) = Some (int, match e with O => rest | _ => 46 :: frac ++ rest end)
    /\ (match e with O => frac = [] | _ => frac <> [] /\ Forall (fun d => is_digit d = true) frac end)
    /\ length frac = e /\ value_of (int ++ frac) = m.
Proof.
  intros Hm Hs. unfold print_magnitude. destruct e as [|e].
  - exists (digits m), []. split; [apply parse_int_spec; [done|]; by destruct rest as [|c r]; [|apply Hs]|]. split; [done|].
    split; [done|]. rewrite app_nil_r. by apply digits_spec.
  - set (p := 10 ^ Z.of_nat (S e)) in *. assert (0 < p) as Hp by (apply Z.pow_pos_nonneg; lia).
    pose proof (Z.div_mod m p ltac:(lia)). pose proof (Z.mod_pos_bound m p Hp). pose proof (Z.div_pos m p Hm Hp).
    destruct (fixed_digits_spec (S e) (m mod p) (m / p) ltac:(done)) as (Ev & El & Ed).
    exists (digits (m / p)), (fixed_digits (S e) (m mod p)). rewrite <- app_assoc. split; [by apply parse_int_spec|].
    split; [split; [by intros E; rewrite E in El|done]|]. split; [done|].
    unfold value_of. rewrite fold_left_app. destruct (digits_spec (m / p) ltac:(done)) as (E & _). unfold value_of in E. rewrite E, Ev.
    fold p. lia.
Qed.

Lemma parse_magnitude_spec sign m e rest : 0 <= m -> (e = 0%nat \/ (sign * m) mod 10 <> 0) -> stops rest ->
  parse_magnitude sign (print_magnitude m e ++ rest) = Some (JNum (sign * m) e, rest).
Proof.
  intros Hm Hc Hs. destruct (parse_magnitude_int m e rest Hm Hs) as (int & frac & Ei & Hf & El & Ev).
  unfold parse_magnitude. rewrite Ei. cbn [mbind option_bind].
  assert (parse_fraction (match e with O => rest | _ => 46 :: frac ++ rest end) = Some (frac, rest)) as ->.
  { destruct e as [|e].
    - subst frac. destruct rest as [|c r]; [done|]. destruct Hs as (_ & H46 & _). unfold parse_fraction. by rewrite (proj2 (Z.eqb_neq _ _)).
    - destruct Hf as [Hf1 Hf2]. unfold parse_fraction. cbn [Z.eqb Pos.eqb]. rewrite span_digits_app; [by destruct frac|done|].
      destruct rest as [|c r]; [done|]. apply Hs. }
  cbn [mbind option_bind]. rewrite parse_exponent_none by done. cbn [mbind option_bind]. rewrite Ev, El, Z.sub_0_r.
  destruct (Z.leb_spec (Z.of_nat e) 0) as [He|He].
  - assert (e = 0%nat) as -> by lia. cbn. by rewrite Z.mul_1_r.
  - rewrite Nat2Z.id, normal_spec by done. done.
Qed.

Lemma parse_number_spec m e rest : (e = 0%nat \/ m mod 10 <> 0) -> stops rest ->
  parse_number (print_number m e ++ rest) = Some (JNum m e, rest).
Proof.
  intros Hc Hs. unfold parse_number, print_number. destruct (Z.ltb_spec m 0) as [Hm|Hm]; cbn [app].
  - cbn [Z.eqb Pos.eqb]. replace m with (-1 * Z.abs m) at 2 by lia. apply parse_magnitude_spec; [lia| |done].
    by replace (-1 * Z.abs m) with m by lia.
  - destruct (print_magnitude_head (Z.abs m) e ltac:(lia)) as (c & t & E & Hd). rewrite E. cbn [app].
    assert ((c =? 45) = false) as -> by (unfold is_digit in Hd; lia). change (c :: t ++ rest) with ((c :: t) ++ rest). rewrite <- E.
    replace m with (1 * Z.abs m) at 2 by lia. apply parse_magnitude_spec; [lia| |done]. by replace (1 * Z.abs m) with m by lia.
Qed.

(** ** Strings *)

Lemma hex_value_digit d : 0 <= d < 16 -> hex_value (hex_digit d) = Some d.
Proof.
  intros Hd. unfold hex_value, hex_digit, is_digit. destruct (Z.ltb_spec d 10).
  - replace (48 <=? 48 + d) with true by lia. replace (48 + d <=? 57) with true by lia. cbn. f_equal. lia.
  - replace (87 + d <=? 57) with false by lia. rewrite andb_false_r. replace (97 <=? 87 + d) with true by lia.
    replace (87 + d <=? 102) with true by lia. cbn. f_equal. lia.
Qed.

Lemma hex4_value u : word16 u ->
  u / 0x1000 mod 16 * 0x1000 + u / 0x100 mod 16 * 0x100 + u / 0x10 mod 16 * 0x10 + u mod 16 = u.
Proof.
  intros Hu. unfold word16 in Hu. pose proof (Z.div_mod u 16 ltac:(lia)). pose proof (Z.div_mod (u / 16) 16 ltac:(lia)).
  pose proof (Z.div_mod (u / 16 / 16) 16 ltac:(lia)). rewrite !Z.div_div in * by lia. change (16 * 16) with 0x100 in *.
  change (0x100 * 16) with 0x1000 in *. change (16 * 0x100) with 0x1000 in *.
  rewrite (Z.mod_small (u / 0x1000) 16) by (split; [apply Z.div_pos; lia|apply Z.div_lt_upper_bound; lia]). lia.
Qed.

Lemma parse_escape u rest : word16 u -> parse_string (escape u ++ rest) = cons_unit u (parse_string rest).
Proof.
  intros Hu. unfold escape.
  repeat match goal with |- context [if u =? ?k then _ else _] => destruct (Z.eqb_spec u k) as [->|]; [reflexivity|] end.
  destruct ((u <? 32) || is_surrogate u) eqn:E.
  - cbn [app hex4 parse_string Z.eqb Pos.eqb].
    assert (forall x, 0 <= x mod 16 < 16) as Hm by (intros; by apply Z.mod_pos_bound).
    rewrite !hex_value_digit by apply Hm. by rewrite hex4_value.
  - cbn [app parse_string]. rewrite !(proj2 (Z.eqb_neq u _)) by done. apply orb_false_iff in E as [-> _]. done.
Qed.

Lemma parse_plain u rest : 0x5D <= u -> parse_string (u :: rest) = cons_unit u (parse_string rest).
Proof. intros Hu. cbn [parse_string]. rewrite !(proj2 (Z.eqb_neq u _)) by lia. by replace (u <? 32) with false by lia. Qed.

Lemma escapes_cons u s :
  escapes (u :: s) = match s with
    | v :: s' => if is_high u && is_low v then u :: v :: escapes s' else escape u ++ escapes s
    | [] => escape u ++ escapes [] end.
Proof. destruct s; [cbn; by rewrite app_nil_r|done]. Qed.

Lemma parse_escapes (s : list Z) rest : Forall word16 s -> parse_string (escapes s ++ 34 :: rest) = Some (s, rest).
Proof.
  induction s as [|u s IH1 IH2] using text_ind; [done|]. intros Hw. inversion Hw as [|? ? Hu Hs]; subst. rewrite escapes_cons.
  assert (parse_string ((escape u ++ escapes s) ++ 34 :: rest) = Some (u :: s, rest)) as He
    by (rewrite <- app_assoc, parse_escape, IH1 by done; done).
  destruct s as [|v s']; [done|]. inversion Hs as [|? ? Hv Hs']; subst. destruct (is_high u && is_low v) eqn:E; [|done].
  unfold is_high, is_low in E. cbn [app]. rewrite !parse_plain by lia. by rewrite (IH2 v s') by done.
Qed.

(** ** Values *)

Lemma json_ind' (P : json -> Prop) :
  P JNull -> (forall b, P (JBool b)) -> (forall m e, P (JNum m e)) -> (forall s, P (JStr s)) ->
  (forall l, Forall P l -> P (JArr l)) -> (forall l, Forall (fun p => P p.2) l -> P (JObj l)) -> forall j, P j.
Proof.
  intros H1 H2 H3 H4 H5 H6. fix IH 1. intros [|b|m e|s|l|l]; [done..| |].
  - apply H5. induction l as [|x l IHl]; [constructor|]. constructor; [apply IH|apply IHl].
  - apply H6. induction l as [|[k x] l IHl]; [constructor|]. constructor; [apply IH|apply IHl].
Qed.

(** The values that are printed: numbers in normal form, strings of code units, objects with distinct names. *)
Fixpoint wf (j : json) : Prop :=
  match j with
  | JNum m e => e = 0%nat \/ m mod 10 <> 0
  | JStr s => Forall word16 s
  | JArr l => foldr (fun x P => wf x /\ P) True l
  | JObj l => NoDup l.*1 /\ foldr (fun '(k, x) P => (Forall word16 k /\ wf x) /\ P) True l
  | _ => True
  end.

Fixpoint size (j : json) : nat :=
  match j with
  | JArr l => S (foldr (fun x n => S (size x) + n) 0 l)
  | JObj l => S (foldr (fun '(_, x) n => S (size x) + n) 0 l)
  | _ => 1
  end%nat.

Lemma print_head j : exists c t, print j = c :: t /\ is_space c = false /\ c <> 93 /\ c <> 125.
Proof.
  destruct j as [|[]|m e|s|l|l]; cbn [print]; try (eexists _, _; split; [reflexivity|done]).
  assert (forall c, is_digit c = true -> is_space c = false /\ c <> 93 /\ c <> 125) as Hd by (intros c; unfold is_digit, is_space; lia).
  unfold print_number. destruct (m <? 0); [eexists _, _; split; [reflexivity|done]|].
  destruct (print_magnitude_head (Z.abs m) e ltac:(lia)) as (c & t & -> & Hc). eexists _, _. split; [reflexivity|]. by apply Hd.
Qed.

Lemma skip_spaces_print j rest : skip_spaces (print j ++ rest) = print j ++ rest.
Proof. destruct (print_head j) as (c & t & -> & Hs & _). cbn. by rewrite Hs. Qed.

Definition parses (j : json) : Prop := forall fuel rest, (size j <= fuel)%nat -> stops rest -> parse_value fuel (print j ++ rest) = Some (j, rest).

Lemma separate_cons p q l : separate (p :: q :: l) = p ++ 44 :: separate (q :: l).
Proof. done. Qed.

Lemma parse_elements_spec l : Forall parses l -> l <> [] -> forall fuel rest,
  (foldr (fun x n => S (size x) + n) 0 l <= fuel)%nat -> parse_elements fuel (separate (map print l) ++ 93 :: rest) = Some (l, rest).
Proof.
  induction 1 as [|x l Hx Hl IH]; [done|]. intros _ fuel rest Hf. cbn [foldr] in Hf. destruct fuel as [|fuel]; [lia|].
  cbn [parse_elements]. destruct l as [|y l].
  - cbn [map separate]. rewrite Hx by (lia || done). done.
  - cbn [map]. rewrite separate_cons, <- app_assoc. rewrite Hx; [|lia|done]. cbn [mbind option_bind skip_spaces is_space app Z.eqb Pos.eqb orb].
    change (separate (print y :: map print l)) with (separate (map print (y :: l))). rewrite IH by (done || lia). done.
Qed.

Lemma set_member_new k v l : k ∉ l.*1 -> set_member k v l = l ++ [(k, v)].
Proof.
  induction l as [|[k' v'] l IH]; [done|]. intros Hk. cbn in *. apply not_elem_of_cons in Hk as [Hne Hk].
  destruct (decide (k = k')); [done|]. by rewrite IH.
Qed.

Definition print_member (p : text * json) : text := print_string p.1 ++ 58 :: print p.2.

Lemma print_obj l : print (JObj l) = 123 :: separate (map print_member l) ++ [125].
Proof. cbn [print]. do 3 f_equal. apply map_ext. by intros []. Qed.

Lemma parse_members_spec l : Forall (fun p => Forall word16 p.1 /\ parses p.2) l -> l <> [] -> forall fuel acc rest,
  NoDup (acc ++ l).*1 -> (foldr (fun '(_, x) n => S (size x) + n) 0 l <= fuel)%nat ->
  parse_members fuel acc (separate (map print_member l) ++ 125 :: rest) = Some (acc ++ l, rest).
Proof.
  induction 1 as [|[k x] l [Hk Hx] Hl IH]; [done|]. intros _ fuel acc rest Hnd Hf. cbn [foldr] in Hf. destruct fuel as [|fuel]; [lia|].
  cbn [fst snd] in *.
  assert (k ∉ acc.*1) as Hnew.
  { rewrite fmap_app in Hnd. apply NoDup_app in Hnd as (_ & Hd & _). intros Hin. apply (Hd k Hin). cbn. left. }
  assert (forall t, parse_members (S fuel) acc (print_member (k, x) ++ t) = 
    ('(v, r) ← parse_value fuel (print x ++ t);
     match skip_spaces r with
     | c :: r => if c =? 44 then parse_members fuel (set_member k v acc) r else if c =? 125 then Some (set_member k v acc, r) else None
     | [] => None end)) as Es.
  { intros t. unfold print_member, print_string. cbn [fst snd app]. cbn [parse_members skip_spaces is_space Z.eqb Pos.eqb orb].
    rewrite <- !app_assoc. cbn [app]. rewrite parse_escapes by done. cbn [mbind option_bind skip_spaces is_space Z.eqb Pos.eqb orb]. done. }
  destruct l as [|[k' y] l].
  - cbn [map separate]. rewrite Es. rewrite Hx by (lia || done). cbn [mbind option_bind skip_spaces is_space Z.eqb Pos.eqb orb].
    by rewrite set_member_new.
  - cbn [map]. rewrite separate_cons, <- app_assoc, Es. rewrite Hx by (lia || done).
    cbn [app mbind option_bind skip_spaces is_space Z.eqb Pos.eqb orb]. rewrite set_member_new by done.
    change (separate (print_member (k', y) :: map print_member l)) with (separate (map print_member ((k', y) :: l))).
    rewrite IH; [by rewrite <- app_assoc|done|by rewrite <- app_assoc|lia].
Qed.

Lemma parse_print_value j : wf j -> parses j.
Proof.
  induction j as [|b|m e|s|l IH|l IH] using json_ind'; intros Hw [|fuel] rest Hf Hs; try (cbn in Hf; lia).
  - done.
  - by destruct b.
  - cbn [parse_value]. rewrite skip_spaces_print. cbn [print]. cbn [wf] in Hw. rewrite <- (parse_number_spec m e rest Hw Hs).
    destruct (print_number m e) as [|c t] eqn:E.
    { pose proof (print_head (JNum m e)) as (c & t & E' & _). cbn in E'. by rewrite E in E'. }
    assert (c = 45 \/ is_digit c = true) as Hc.
    { unfold print_number in E. destruct (m <? 0); [injection E; auto|]. destruct (print_magnitude_head (Z.abs m) e ltac:(lia)) as (c' & t' & E' & Hd).
      rewrite E' in E. injection E as <- _. auto. }
    cbn [app]. unfold is_digit in Hc. rewrite !(proj2 (Z.eqb_neq c _)) by lia. done.
  - cbn [parse_value print print_string app skip_spaces is_space Z.eqb Pos.eqb orb]. rewrite <- app_assoc. cbn [app].
    by rewrite parse_escapes.
  - cbn [parse_value print app skip_spaces is_space Z.eqb Pos.eqb orb]. destruct l as [|x l]; [done|].
    cbn [wf] in Hw. assert (Forall parses (x :: l)) as Hp.
    { clear Hf. induction IH as [|y l' Hy Hl' IHl]; [constructor|]. cbn in Hw. destruct Hw as [Hw1 Hw2]. constructor; [by apply Hy|by apply IHl]. }
    rewrite <- app_assoc. cbn [app].
    assert (exists c t, separate (map print (x :: l)) ++ 93 :: rest = c :: t /\ is_space c = false /\ c <> 93) as (c & t & E & Hc1 & Hc2).
    { destruct (print_head x) as (c & t & Ex & Hc1 & Hc2 & _). destruct l as [|y l]; cbn [map]; [cbn [separate]|rewrite separate_cons]; rewrite Ex;
        eexists _, _; (split; [reflexivity|done]). }
    rewrite E. cbn [skip_spaces]. rewrite Hc1, (proj2 (Z.eqb_neq c 93)) by done. rewrite <- E, parse_elements_spec; [done|done|done|].
    cbn [size] in Hf. lia.
  - rewrite print_obj. cbn [parse_value app skip_spaces is_space Z.eqb Pos.eqb orb]. destruct l as [|[k x] l]; [done|].
    cbn [wf] in Hw. destruct Hw as [Hnd Hw]. assert (Forall (fun p => Forall word16 p.1 /\ parses p.2) ((k, x) :: l)) as Hp.
    { clear Hf Hnd. induction IH as [|[k' y] l' Hy Hl' IHl]; [constructor|]. cbn in Hw. destruct Hw as [[Hw0 Hw1] Hw2].
      constructor; [split; [done|by apply Hy]|by apply IHl]. }
    rewrite <- app_assoc. cbn [app].
    assert (exists t, separate (map print_member ((k, x) :: l)) ++ 125 :: rest = 34 :: t) as (t & E).
    { destruct l as [|y l]; cbn [map]; [cbn [separate]|rewrite separate_cons]; eexists; reflexivity. }
    rewrite E. cbn [skip_spaces is_space Z.eqb Pos.eqb orb]. rewrite <- E, parse_members_spec; [done|done|done|done|].
    exact (le_S_n _ _ Hf).
Qed.

(** The fuel of [parse] is enough: an element needs at most one unit more than its text has units. *)
Lemma size_length j : (size j <= 2 * length (print j))%nat.
Proof.
  induction j as [|b|m e|s|l IH|l IH] using json_ind'.
  - cbn. lia.
  - destruct b; cbn; lia.
  - destruct (print_head (JNum m e)) as (c & t & -> & _). cbn. lia.
  - cbn [print print_string size length]. lia.
  - cbn [print size length]. rewrite length_app. cbn [length].
    assert (foldr (fun x n => S (size x) + n) 0 l <= 2 * length (separate (map print l)) + 1)%nat; [|lia].
    induction IH as [|x l Hx Hl IHl]; [cbn; lia|]. cbn [foldr]. destruct l as [|y l]; [cbn [foldr map separate]; lia|].
    cbn [map] in *. rewrite separate_cons, length_app. cbn [length]. lia.
  - rewrite print_obj. cbn [length]. rewrite length_app. cbn [length].
    enough (foldr (fun '(_, x) n => S (size x) + n) 0 l <= 2 * length (separate (map print_member l)) + 1)%nat as Hn by (cbn [size]; lia).
    induction IH as [|[k x] l Hx Hl IHl]; [cbn; lia|]. cbn [foldr snd] in *.
    assert (length (print x) <= length (print_member (k, x)))%nat by (unfold print_member; cbn [fst snd]; rewrite length_app; cbn [length]; lia).
    destruct l as [|y l]; [cbn [foldr map separate]; lia|]. cbn [map] in *. rewrite separate_cons, length_app. cbn [length]. lia.
Qed.

Lemma parse_print j : wf j -> parse (print j) = Some j.
Proof.
  intros Hw. unfold parse. pose proof (parse_print_value j Hw (2 * length (print j) + 2)%nat []) as H. rewrite app_nil_r in H.
  rewrite H; [done| |done]. pose proof (size_length j). lia.
Qed.

(** ** The text is well-formed, so it survives its encoding *)

Lemma well_formed_cons u s :
  well_formed (u :: s) = match s with
    | v :: s' => if is_high u && is_low v then well_formed s' else negb (is_surrogate u) && well_formed s
    | [] => negb (is_surrogate u) && well_formed [] end.
Proof. destruct s; [cbn; by rewrite andb_true_r|done]. Qed.

Lemma high_surrogate u : is_surrogate u = false -> is_high u = false.
Proof. unfold is_surrogate, is_high. lia. Qed.

Lemma well_formed_plain u s : is_surrogate u = false -> well_formed (u :: s) = well_formed s.
Proof. intros H. rewrite well_formed_cons, (high_surrogate u H), H. by destruct s. Qed.

Lemma well_formed_app (a b : list Z) : well_formed a = true -> well_formed b = true -> well_formed (a ++ b) = true.
Proof.
  induction a as [|u a IH1 IH2] using text_ind; [done|]. intros Ha Hb. rewrite well_formed_cons in Ha. cbn [app].
  destruct a as [|v a'].
  - apply andb_true_iff in Ha as [Ha _]. cbn [app]. rewrite well_formed_plain by (by destruct (is_surrogate u)). done.
  - destruct (is_high u && is_low v) eqn:E.
    + cbn [app]. rewrite well_formed_cons, E. by apply (IH2 v a').
    + apply andb_true_iff in Ha as [Ha1 Ha2]. rewrite well_formed_plain by (by destruct (is_surrogate u)). by apply IH1.
Qed.

Definition good (s : text) : Prop := Forall word16 s /\ well_formed s = true.

Lemma good_app a b : good a -> good b -> good (a ++ b).
Proof. intros [H1 H2] [H3 H4]. split; [by apply Forall_app|by apply well_formed_app]. Qed.

Lemma good_cons u s : 0 <= u < 0xD800 -> good s -> good (u :: s).
Proof.
  intros Hu [H1 H2]. split; [constructor; [unfold word16; lia|done]|]. rewrite well_formed_plain; [done|]. unfold is_surrogate. lia.
Qed.

Lemma good_ascii s : Forall (fun u => 0 <= u < 0xD800) s -> good s.
Proof. induction 1; [by split; [constructor|]|]. by apply good_cons. Qed.

Lemma is_digit_ascii ds : Forall (fun d => is_digit d = true) ds -> good ds.
Proof. intros H. apply good_ascii. eapply Forall_impl; [exact H|]. intros c. unfold is_digit. lia. Qed.

Lemma good_number m e : good (print_number m e).
Proof.
  unfold print_number. apply good_app; [destruct (m <? 0); apply good_ascii; repeat constructor; lia|]. unfold print_magnitude.
  destruct e as [|e]; [by apply is_digit_ascii, digits_spec; lia|]. set (p := 10 ^ Z.of_nat (S e)).
  assert (0 < p) by (apply Z.pow_pos_nonneg; lia). apply good_app; [apply is_digit_ascii, digits_spec, Z.div_pos; lia|].
  apply good_cons; [lia|]. apply is_digit_ascii, (fixed_digits_spec (S e) _ 0), Z.mod_pos_bound. done.
Qed.

Lemma good_escape u : word16 u -> good (escape u).
Proof.
  intros Hu. unfold escape. repeat match goal with |- context [if u =? ?k then _ else _] =>
    destruct (u =? k); [apply good_ascii; repeat constructor; lia|] end.
  destruct ((u <? 32) || is_surrogate u) eqn:E.
  - assert (forall d, 0 <= d < 16 -> 0 <= hex_digit d < 0xD800) as Hh by (intros d Hd; unfold hex_digit; destruct (d <? 10); lia).
    apply good_ascii. repeat constructor; try lia; apply Hh, Z.mod_pos_bound; lia.
  - apply orb_false_iff in E as [_ E]. split; [by repeat constructor; apply Hu|]. by rewrite well_formed_plain.
Qed.

Lemma good_escapes (s : list Z) : Forall word16 s -> good (escapes s).
Proof.
  induction s as [|u s IH1 IH2] using text_ind; intros Hw; [by split; [constructor|]|]. inversion Hw as [|? ? Hu Hs]; subst. rewrite escapes_cons.
  assert (good (escape u ++ escapes s)) as He by (apply good_app; [by apply good_escape|by apply IH1]).
  destruct s as [|v s']; [done|]. inversion Hs as [|? ? Hv Hs']; subst. destruct (is_high u && is_low v) eqn:E; [|done].
  destruct (IH2 v s' eq_refl Hs') as [H1 H2]. split; [by repeat constructor; try apply Hu; try apply Hv|]. by rewrite well_formed_cons, E.
Qed.

Lemma good_string s : Forall word16 s -> good (print_string s).
Proof. intros Hs. unfold print_string. apply good_cons; [lia|]. apply good_app; [by apply good_escapes|]. by apply good_ascii; repeat constructor. Qed.

Lemma good_separate parts : Forall good parts -> good (separate parts).
Proof.
  induction 1 as [|p l Hp Hl IH]; [by split; [constructor|]|]. destruct l as [|q l]; [done|]. rewrite separate_cons.
  apply good_app; [done|]. apply good_cons; [lia|done].
Qed.

Lemma good_print j : wf j -> good (print j).
Proof.
  assert (good [93] /\ good [125]) as [H93 H125] by (split; apply good_ascii; repeat constructor; lia).
  induction j as [|b|m e|s|l IH|l IH] using json_ind'; intros Hw.
  - apply good_ascii. repeat constructor; lia.
  - destruct b; apply good_ascii; repeat constructor; lia.
  - apply good_number.
  - by apply good_string.
  - cbn [print]. apply good_cons; [lia|]. apply good_app; [|done]. apply good_separate.
    induction IH as [|x l Hx Hl IHl]; [constructor|]. cbn in Hw. destruct Hw as [Hw1 Hw2]. constructor; [by apply Hx|by apply IHl].
  - rewrite print_obj. apply good_cons; [lia|]. apply good_app; [|done]. apply good_separate. cbn [wf] in Hw. destruct Hw as [_ Hw].
    induction IH as [|[k x] l Hx Hl IHl]; [constructor|]. cbn in Hw. destruct Hw as [[Hk Hw1] Hw2]. constructor; [|by apply IHl].
    apply good_app; [by apply good_string|]. apply good_cons; [lia|by apply Hx].
Qed.

Lemma print_no_bom j : head (print j) <> Some BOM.
Proof.
  assert (forall c, is_digit c = true -> Some c <> Some BOM) as Hd by (intros c H [= ->]; done).
  destruct j as [|[]|m e|s|l|l]; try done. cbn. unfold print_number. destruct (m <? 0); [done|].
  destruct (print_magnitude_head (Z.abs m) e ltac:(lia)) as (c & t & -> & Hc). by apply Hd.
Qed.

(** Text in, bytes out, and back. *)
Definition json_bytes (j : json) : list Z := encode (print j).

Lemma json_bytes_byte j : wf j -> Forall byte (json_bytes j).
Proof. intros Hw. apply encode_byte, good_print, Hw. Qed.

Lemma json_roundtrip j : wf j -> parse (decode (json_bytes j)) = Some j.
Proof.
  intros Hw. destruct (good_print j Hw) as [H1 H2]. unfold json_bytes. rewrite decode_encode_id; [by apply parse_print|done|done|apply print_no_bom].
Qed.

Lemma json_roundtrip_fatal j : wf j -> decode_fatal (json_bytes j) ≫= parse = Some j.
Proof.
  intros Hw. destruct (good_print j Hw) as [H1 H2]. unfold json_bytes. rewrite decode_fatal_encode; [by apply parse_print|done|done|apply print_no_bom].
Qed.

End Json.
