(* ===== verification/State.v ===== *)
(** * Snapshots ([state.js]): objects and the single-buffer format

    [save_object] turns the machine's object graph into JSON and a list of
    buffers, [restore_buffers] turns it back; [save_state] and [restore_state] pack
    both into one buffer, version 6 (the restored one may be zstd-compressed).  The
    packing of guest memory is from [cpu.js].  The machine appears as the value its
    [get_state] methods describe; what [set_state] does with the restored value is in
    the devices. *)

From stdpp Require Import strings.
From Stdlib Require Import Ascii.
From S2P Require Import Prelude Lib Text Json.

Import Text Json.

Open Scope js_scope.

Module State.

Definition STATE_VERSION : Z := 6.
Definition STATE_MAGIC : Z := i32 0x86768676.
Definition STATE_INDEX_MAGIC : Z := 0.
Definition STATE_INDEX_VERSION : Z := 1.
Definition STATE_INDEX_TOTAL_LEN : Z := 2.
Definition STATE_INDEX_INFO_LEN : Z := 3.
Definition STATE_INFO_BLOCK_START : Z := 16.
Definition ZSTD_MAGIC : Z := 0xFD2FB528.
Definition STATE_MAX_SINGLE_BUFFER : Z := 0x7FFFFFFF.

Fixpoint text_of (s : string) : text :=
  match s with
  | EmptyString => []
  | String c s => Z.of_nat (nat_of_ascii c) :: text_of s
  end.

(** ** Objects *)

(** The typed arrays of [CONSTRUCTOR_TABLE]. *)
Inductive typed := Uint8Array | Int8Array | Uint16Array | Int16Array | Uint32Array | Int32Array | Float32Array | Float64Array.
#[export] Instance typed_eq_dec : EqDecision typed.
Proof. solve_decision. Defined.

Definition BYTES_PER_ELEMENT (t : typed) : Z :=
  match t with
  | Uint8Array | Int8Array => 1
  | Uint16Array | Int16Array => 2
  | Uint32Array | Int32Array | Float32Array => 4
  | Float64Array => 8
  end.

Definition constructor_name (t : typed) : text :=
  text_of match t with
    | Uint8Array => "Uint8Array" | Int8Array => "Int8Array" | Uint16Array => "Uint16Array" | Int16Array => "Int16Array"
    | Uint32Array => "Uint32Array" | Int32Array => "Int32Array" | Float32Array => "Float32Array" | Float64Array => "Float64Array"
    end%string.

Definition typed_arrays : list typed :=
  [Uint8Array; Int8Array; Uint16Array; Int16Array; Uint32Array; Int32Array; Float32Array; Float64Array].

(** [CONSTRUCTOR_TABLE[type]]: a map ([None]) or a typed array. *)
Definition CONSTRUCTOR_TABLE (type : text) : option (option typed) :=
  if decide (type = text_of "Map") then Some None
  else Some <$> list_find (fun t => type = constructor_name t) typed_arrays ≫= fun p => Some p.2.

#[local] Set Warnings "-register-all".

(** A typed array is the bytes of its view.  [VNonFinite] are NaN and the
    infinities.  [VInstance] is an object with the array its [get_state] returns, [VObject] one without [get_state]. *)
Inductive value :=
| VUndefined
| VNonFinite
| VNull
| VBool (b : bool)
| VNum (m : Z) (e : nat)
| VStr (s : text)
| VArray (l : list value)
| VMap (l : list (value * value))
| VTyped (t : typed) (bytes : list Z)
| VObject
| VInstance (state : list value).

Definition STATE_TYPE : text := text_of "__state_type__".
Definition ARGS : text := text_of "args".
Definition BUFFER_ID : text := text_of "buffer_id".

Abbreviation buffers := (list (list Z)).

(** The saved form as [JSON.stringify] prints it: undefined and non-finite
    numbers are null.  [None] is the exception of a missing [get_state]. *)
Fixpoint save_object (obj : value) (saved_buffers : buffers) : option (json * buffers) :=
  let save_list := fix go l b :=
    match l with
    | [] => Some ([], b)
    | x :: l => '(j, b) ← save_object x b; '(js, b) ← go l b; Some (j :: js, b)
    end in
  let save_pairs := fix go (l : list (value * value)) b :=
    match l with
    | [] => Some ([], b)
    | (k, x) :: l => '(jk, b) ← save_object k b; '(jx, b) ← save_object x b; '(js, b) ← go l b; Some (JArr [jk; jx] :: js, b)
    end in
  match obj with
  | VUndefined | VNonFinite | VNull => Some (JNull, saved_buffers)
  | VBool b => Some (JBool b, saved_buffers)
  | VNum m e => Some (JNum m e, saved_buffers)
  | VStr s => Some (JStr s, saved_buffers)
  | VArray l => '(js, b) ← save_list l saved_buffers; Some (JArr js, b)
  | VMap l => '(js, b) ← save_pairs l saved_buffers; Some (JObj [(STATE_TYPE, JStr (text_of "Map")); (ARGS, JArr js)], b)
  | VTyped t bytes =>
      Some (JObj [(STATE_TYPE, JStr (constructor_name t)); (BUFFER_ID, JNum (Z.of_nat (length saved_buffers)) 0)],
            saved_buffers ++ [bytes])
  | VObject => None
  | VInstance state => '(js, b) ← save_list state saved_buffers; Some (JArr js, b)
  end.

(** Keys of a [Map] that are the same: equal primitive values. *)
Definition same_key (a b : value) : bool :=
  match a, b with
  | VUndefined, VUndefined | VNonFinite, VNonFinite | VNull, VNull => true
  | VBool a, VBool b => Bool.eqb a b
  | VNum m e, VNum m' e' => (m =? m') && (e =? e')%nat
  | VStr s, VStr s' => bool_decide (s = s')
  | _, _ => false
  end.
Fixpoint map_set (k v : value) (l : list (value * value)) : list (value * value) :=
  match l with
  | [] => [(k, v)]
  | (k', v') :: l => if same_key k k' then (k', v) :: l else (k', v') :: map_set k v l
  end.

(** [new Map(args)] of an array of arrays; other arguments, which [save_object] does not write, are outside the model. *)
Definition map_entry (x : value) : option (value * value) :=
  match x with
  | VArray l => Some (default VUndefined (l !! 0%nat), default VUndefined (l !! 1%nat))
  | _ => None
  end.
Definition new_map (args : value) : option value :=
  match args with
  | VArray l => es ← mapM map_entry l; Some (VMap (fold_left (fun m e => map_set e.1 e.2 m) es []))
  | VNull => Some (VMap [])
  | _ => None
  end.

(** [new constructor(buffer)]: a length that is no multiple of the element size is an exception. *)
Definition new_typed (t : typed) (buffer : option (list Z)) : option value :=
  match buffer with
  | Some bytes => if Z.of_nat (length bytes) mod BYTES_PER_ELEMENT t =? 0 then Some (VTyped t bytes) else None
  | None => Some (VTyped t [])
  end.

Definition member (k : text) (l : list (text * json)) : option json := snd <$> (snd <$> list_find (fun p => p.1 = k) l).

(** [buffers[id]] *)
Definition buffer_at (b : buffers) (id : option json) : option (list Z) :=
  match id with
  | Some (JNum id 0) => if id <? 0 then None else b !! Z.to_nat id
  | _ => None
  end.

(** [None]: an exception (an unknown type, a bad length), or a typed array with [args]. *)
Fixpoint restore_buffers (obj : json) (b : buffers) : option value :=
  match obj with
  | JNull => Some VNull
  | JBool x => Some (VBool x)
  | JNum m e => Some (VNum m e)
  | JStr s => Some (VStr s)
  | JArr l => VArray <$> mapM (fun x => restore_buffers x b) l
  | JObj l =>
      let args := (fix find (l : list (text * json)) :=
        match l with
        | [] => None
        | (k, x) :: l => if decide (k = ARGS) then Some (restore_buffers x b) else find l
        end) l in
      constructor ← match member STATE_TYPE l with Some (JStr type) => CONSTRUCTOR_TABLE type | _ => None end;
      match args, constructor with
      | Some args, None => args ≫= new_map
      | Some _, Some _ => None
      | None, Some t => new_typed t (buffer_at b (member BUFFER_ID l))
      | None, None => match buffer_at b (member BUFFER_ID l) with None => Some (VMap []) | Some _ => None end
      end
  end.

(** ** Bytes of a buffer *)

(** A little-endian 32-bit word. *)
Definition bytes32 (v : Z) : list Z := [u8 v; u8 (v .>> 8); u8 (v .>> 16); u8 (v .>> 24)].
Definition word32 (l : list Z) (o : Z) : Z := arr_get l o + 0x100 * arr_get l (o + 1) + 0x10000 * arr_get l (o + 2) + 0x1000000 * arr_get l (o + 3).

(** [l.slice(from, to)] and [l.subarray(from, to)] for offsets that are not negative. *)
Definition slice (l : list Z) (from to : Z) : list Z := take (Z.to_nat (to - from)) (drop (Z.to_nat from) l).

(** [l.set(vs, o)] inside the array. *)
Definition set_bytes (l vs : list Z) (o : Z) : list Z := take (Z.to_nat o) l ++ vs ++ drop (Z.to_nat o + length vs) l.

(** ** The single buffer *)

Inductive error :=
| SnapshotLength | InvalidLength | InvalidHeader | VersionMismatch | LengthMismatch | InfoLength
| TooLarge | NoState | BadJson | BadObject | Truncated.

Definition result (A : Type) : Type := sum error A.
#[export] Instance result_ret : MRet (sum error) := fun _ a => inr a.
#[export] Instance result_bind : MBind (sum error) := fun _ _ k m => match m with inl e => inl e | inr a => k a end.
Definition guard_or (b : bool) (e : error) : result unit := if b then inr tt else inl e.
Definition of_option {A} (e : error) (o : option A) : result A := match o with Some a => inr a | None => inl e end.

(** [total + (4 - total % 4) % 4] *)
Definition align (total : Z) : Z := total + (4 - total mod 4) mod 4.

Fixpoint buffer_infos (total : Z) (b : buffers) : list (Z * Z) * Z :=
  match b with
  | [] => ([], total)
  | buffer :: b =>
      let len := Z.of_nat (length buffer) in
      let '(infos, end_) := buffer_infos (align (total + len)) b in
      ((total, len) :: infos, end_)
  end.

Definition OFFSET : text := text_of "offset".
Definition LENGTH : text := text_of "length".
Definition BUFFER_INFOS : text := text_of "buffer_infos".
Definition STATE : text := text_of "state".

Definition info_json (info : Z * Z) : json := JObj [(OFFSET, JNum info.1 0); (LENGTH, JNum info.2 0)].
Definition info_object (infos : list (Z * Z)) (state : json) : json := JObj [(BUFFER_INFOS, JArr (map info_json infos)); (STATE, state)].

(** [x + 3 & ~3] *)
Definition align32 (x : Z) : Z := js_and (x + 3) (js_not 3).

Definition save_state (cpu : value) : result (list Z) :=
  '(state, saved_buffers) ← of_option NoState (save_object cpu []);
  let '(infos, total_buffer_size) := buffer_infos 0 saved_buffers in
  _ ← guard_or (total_buffer_size <=? STATE_MAX_SINGLE_BUFFER) TooLarge;
  let info_block := json_bytes (info_object infos state) in
  let buffer_block_start := align32 (STATE_INFO_BLOCK_START + Z.of_nat (length info_block)) in
  let total_size := buffer_block_start + total_buffer_size in
  _ ← guard_or (total_size <=? STATE_MAX_SINGLE_BUFFER) TooLarge;
  let out := replicate (Z.to_nat total_size) 0 in
  let out := set_bytes out info_block STATE_INFO_BLOCK_START in
  let out := set_bytes out (bytes32 STATE_MAGIC) (4 * STATE_INDEX_MAGIC) in
  let out := set_bytes out (bytes32 STATE_VERSION) (4 * STATE_INDEX_VERSION) in
  let out := set_bytes out (bytes32 total_size) (4 * STATE_INDEX_TOTAL_LEN) in
  let out := set_bytes out (bytes32 (Z.of_nat (length info_block))) (4 * STATE_INDEX_INFO_LEN) in
  inr (fold_left (fun out p => set_bytes out p.2 (buffer_block_start + p.1.1)) (zip infos saved_buffers) out).

(** Gives the length of the information block. *)
Definition read_state_header (state : list Z) (check_length : bool) : result Z :=
  let len := Z.of_nat (length state) in
  _ ← guard_or (STATE_INFO_BLOCK_START <=? len) InvalidLength;
  let header_block i := i32 (word32 state (4 * i)) in
  _ ← guard_or (header_block STATE_INDEX_MAGIC =? STATE_MAGIC) InvalidHeader;
  _ ← guard_or (header_block STATE_INDEX_VERSION =? STATE_VERSION) VersionMismatch;
  _ ← guard_or (negb (check_length && negb (header_block STATE_INDEX_TOTAL_LEN =? len))) LengthMismatch;
  inr (header_block STATE_INDEX_INFO_LEN).

Definition read_info_block (info_block_buffer : list Z) : result json := of_option BadJson (parse (decode info_block_buffer)).

(** [buffer_info.offset] and [.length], numbers in every saved snapshot. *)
Definition number_of (j : option json) : result Z := match j with Some (JNum m 0) => inr m | _ => inl BadObject end.
Definition members_of (j : json) : result (list (text * json)) := match j with JObj l => inr l | _ => inl BadObject end.
Definition array_of (j : option json) : result (list json) := match j with Some (JArr l) => inr l | _ => inl BadObject end.

Fixpoint mapR {A B} (f : A -> result B) (l : list A) : result (list B) :=
  match l with
  | [] => inr []
  | x :: l => y ← f x; ys ← mapR f l; inr (y :: ys)
  end.

Definition buffer_info (j : json) : result (Z * Z) :=
  l ← members_of j; offset ← number_of (member OFFSET l); len ← number_of (member LENGTH l); inr (offset, len).

(** Not compressed. *)
Definition restore_plain (state : list Z) : result value :=
  info_block_len ← read_state_header state true;
  _ ← guard_or (negb ((info_block_len <? 0) || (Z.of_nat (length state) <=? info_block_len + 12))) InfoLength;
  info ← read_info_block (slice state STATE_INFO_BLOCK_START (STATE_INFO_BLOCK_START + info_block_len));
  info ← members_of info;
  infos ← array_of (member BUFFER_INFOS info);
  infos ← mapR buffer_info infos;
  let buffer_block_start := align32 (STATE_INFO_BLOCK_START + info_block_len) in
  let b := map (fun i => slice state (buffer_block_start + i.1) (buffer_block_start + i.1 + i.2)) infos in
  obj ← of_option BadObject (member STATE info);
  of_option BadObject (restore_buffers obj b).

(** *** Compressed: the library hands out the decompressed stream piece by piece *)

Definition CHUNK_SIZE : Z := 1 * 1024 * 1024.

(** [zstd_read(ctx, n)] *)
Definition zstd_read (stream : list Z) (n : Z) : result (list Z * list Z) :=
  if Z.of_nat (length stream) <? n then inl Truncated else inr (take (Z.to_nat n) stream, drop (Z.to_nat n) stream).

(** The loop that fills a large buffer; a chunk is a step. *)
Fixpoint read_chunks (fuel : nat) (stream : list Z) (remaining : Z) : result (list Z * list Z) :=
  match fuel with
  | O => inr ([], stream)
  | S fuel =>
      if 0 <? remaining then
        let to_read := Z.min remaining CHUNK_SIZE in
        '(part, stream) ← zstd_read stream to_read;
        '(rest, stream) ← read_chunks fuel stream (remaining - to_read);
        inr (part ++ rest, stream)
      else inr ([], stream)
  end.

Fixpoint read_buffers (stream : list Z) (position : Z) (infos : list (Z * Z)) : result buffers :=
  match infos with
  | [] => inr []
  | (_, len) :: infos =>
      let front_padding := align32 position - position in
      '(buffer, stream) ← (if CHUNK_SIZE <? len then
          '(_, stream) ← zstd_read stream front_padding;
          read_chunks (Z.to_nat (len / CHUNK_SIZE + 1)) stream len
        else
          '(data, stream) ← zstd_read stream (front_padding + len);
          inr (drop (Z.to_nat front_padding) data, stream));
      rest ← read_buffers stream (position + front_padding + len) infos;
      inr (buffer :: rest)
  end.

Definition restore_zstd (stream : list Z) : result value :=
  '(header_block, stream) ← zstd_read stream 16;
  info_block_len ← read_state_header header_block false;
  '(info_block_buffer, stream) ← zstd_read stream info_block_len;
  info ← read_info_block info_block_buffer;
  info ← members_of info;
  infos ← array_of (member BUFFER_INFOS info);
  infos ← mapR buffer_info infos;
  b ← read_buffers stream (STATE_INFO_BLOCK_START + info_block_len) infos;
  obj ← of_option BadObject (member STATE info);
  of_option BadObject (restore_buffers obj b).

(** [decompress] is the zstd library. *)
Definition restore_state (decompress : list Z -> list Z) (state : list Z) : result value :=
  _ ← guard_or (4 <=? Z.of_nat (length state)) SnapshotLength;
  if word32 state 0 =? ZSTD_MAGIC then restore_zstd (decompress state) else restore_plain state.

(** ** What a restored value looks like *)

(** Objects come back as the arrays of their states, undefined and non-finite numbers as null. *)
Fixpoint shape (v : value) : value :=
  match v with
  | VUndefined | VNonFinite | VNull => VNull
  | VArray l | VInstance l => VArray (map shape l)
  | VMap l => VMap (map (fun '(k, x) => (shape k, shape x)) l)
  | _ => v
  end.

Fixpoint keys_distinct (l : list (value * value)) : Prop :=
  match l with
  | [] => True
  | p :: l => Forall (fun q => same_key q.1 p.1 = false) l /\ keys_distinct l
  end.

(** What [get_state] methods return: whole elements in typed arrays, distinct
    keys in maps (undefined and null count as one), no objects without [get_state]. *)
Fixpoint storable (v : value) : Prop :=
  match v with
  | VNum m e => e = 0%nat \/ m mod 10 <> 0
  | VStr s => Forall word16 s
  | VArray l | VInstance l => foldr (fun x P => storable x /\ P) True l
  | VMap l => foldr (fun '(k, x) P => (storable k /\ storable x) /\ P) True l /\ keys_distinct (map (fun '(k, x) => (shape k, shape x)) l)
  | VTyped t bytes => Forall byte bytes /\ Z.of_nat (length bytes) mod BYTES_PER_ELEMENT t = 0
  | VObject => False
  | _ => True
  end.

Lemma value_ind' (P : value -> Prop) :
  P VUndefined -> P VNonFinite -> P VNull -> (forall b, P (VBool b)) -> (forall m e, P (VNum m e)) -> (forall s, P (VStr s)) ->
  (forall l, Forall P l -> P (VArray l)) -> (forall l, Forall (fun p => P p.1 /\ P p.2) l -> P (VMap l)) ->
  (forall t b, P (VTyped t b)) -> P VObject -> (forall l, Forall P l -> P (VInstance l)) -> forall v, P v.
Proof.
  intros H1 H2 H3 H4 H5 H6 H7 H8 H9 H10 H11. fix IH 1. intros [| | |b|m e|s|l|l|t b| |l]; [done..| | |done|done|].
  - apply H7. induction l as [|x l IHl]; [constructor|]. constructor; [apply IH|apply IHl].
  - apply H8. induction l as [|[k x] l IHl]; [constructor|]. constructor; [split; apply IH|apply IHl].
  - apply H11. induction l as [|x l IHl]; [constructor|]. constructor; [apply IH|apply IHl].
Qed.

Lemma foldr_Forall {A} (P : A -> Prop) l : foldr (fun x Q => P x /\ Q) True l <-> Forall P l.
Proof. induction l as [|x l IH]; cbn; [by split|]. rewrite Forall_cons, IH. done. Qed.

Fixpoint save_list (l : list value) (b : buffers) : option (list json * buffers) :=
  match l with
  | [] => Some ([], b)
  | x :: l => '(j, b) ← save_object x b; '(js, b) ← save_list l b; Some (j :: js, b)
  end.
Fixpoint save_pairs (l : list (value * value)) (b : buffers) : option (list json * buffers) :=
  match l with
  | [] => Some ([], b)
  | (k, x) :: l => '(jk, b) ← save_object k b; '(jx, b) ← save_object x b; '(js, b) ← save_pairs l b; Some (JArr [jk; jx] :: js, b)
  end.

Lemma save_array l b : save_object (VArray l) b = ('(js, b) ← save_list l b; Some (JArr js, b)).
Proof. reflexivity. Qed.
Lemma save_instance l b : save_object (VInstance l) b = ('(js, b) ← save_list l b; Some (JArr js, b)).
Proof. reflexivity. Qed.
Lemma save_map l b : save_object (VMap l) b
  = ('(js, b) ← save_pairs l b; Some (JObj [(STATE_TYPE, JStr (text_of "Map")); (ARGS, JArr js)], b)).
Proof. reflexivity. Qed.

(** Saving adds buffers; with these in place the saved form is restored. *)
Definition restores (j : json) (b : buffers) (v : value) : Prop := forall b', b `prefix_of` b' -> restore_buffers j b' = Some v.

Definition saved (v : value) : Prop := forall b, exists j new,
  save_object v b = Some (j, b ++ new) /\ Json.wf j /\ Forall (Forall byte) new /\ restores j (b ++ new) (shape v).

Lemma save_list_spec l : Forall saved l -> forall b, exists js new,
  save_list l b = Some (js, b ++ new) /\ Forall Json.wf js /\ Forall (Forall byte) new
  /\ forall b', (b ++ new) `prefix_of` b' -> mapM (fun x => restore_buffers x b') js = Some (map shape l).
Proof.
  induction 1 as [|x l Hx Hl IH]; intros b; [exists [], []; rewrite app_nil_r; by repeat split; try constructor|].
  destruct (Hx b) as (j & n1 & E1 & W1 & B1 & R1). destruct (IH (b ++ n1)) as (js & n2 & E2 & W2 & B2 & R2).
  exists (j :: js), (n1 ++ n2). cbn [save_list]. rewrite E1. cbn [mbind option_bind]. rewrite E2, <- app_assoc. cbn [mbind option_bind].
  split; [done|]. split; [by constructor|]. split; [by apply Forall_app|]. intros b' Hb'. rewrite app_assoc in Hb'. cbn [mapM].
  rewrite R1 by (by apply prefix_app_l in Hb'). cbn [mbind option_bind map]. by rewrite R2.
Qed.

Lemma save_pairs_spec l : Forall (fun p => saved p.1 /\ saved p.2) l -> forall b, exists js new,
  save_pairs l b = Some (js, b ++ new) /\ Forall Json.wf js /\ Forall (Forall byte) new
  /\ forall b', (b ++ new) `prefix_of` b' ->
     mapM (fun x => restore_buffers x b') js = Some (map (fun '(k, x) => VArray [shape k; shape x]) l).
Proof.
  induction 1 as [|[k x] l [Hk Hx] Hl IH]; intros b; [exists [], []; rewrite app_nil_r; by repeat split; try constructor|]. cbn [fst snd] in *.
  destruct (Hk b) as (jk & n0 & E0 & W0 & B0 & R0). destruct (Hx (b ++ n0)) as (jx & n1 & E1 & W1 & B1 & R1).
  destruct (IH ((b ++ n0) ++ n1)) as (js & n2 & E2 & W2 & B2 & R2).
  exists (JArr [jk; jx] :: js), (n0 ++ n1 ++ n2). cbn [save_pairs]. rewrite E0. cbn [mbind option_bind]. rewrite E1. cbn [mbind option_bind].
  rewrite E2, <- !app_assoc. cbn [mbind option_bind].
  split; [done|]. split; [constructor; [by cbn|done]|]. split; [by rewrite !Forall_app|]. intros b' Hb'. rewrite !app_assoc in Hb'. cbn [mapM].
  assert (((b ++ n0) ++ n1) `prefix_of` b') as Hp1 by (by apply prefix_app_l in Hb').
  assert ((b ++ n0) `prefix_of` b') as Hp0 by (by apply prefix_app_l in Hp1).
  cbn [restore_buffers mapM fmap option_fmap option_map]. rewrite R0, R1 by done. cbn [mbind option_bind map]. by rewrite R2.
Qed.

Lemma map_set_new k v l : Forall (fun p => same_key k p.1 = false) l -> map_set k v l = l ++ [(k, v)].
Proof. induction 1 as [|[k' v'] l Hk Hl IH]; [done|]. cbn in *. by rewrite Hk, IH. Qed.

Lemma new_map_spec (l acc : list (value * value)) :
  keys_distinct l -> Forall (fun p => Forall (fun q => same_key p.1 q.1 = false) acc) l ->
  fold_left (fun m (e : value * value) => map_set e.1 e.2 m) l acc = acc ++ l.
Proof.
  revert acc. induction l as [|[k v] l IH]; intros acc Hd Ha; [by rewrite app_nil_r|]. cbn [keys_distinct] in Hd. destruct Hd as [Hd1 Hd2].
  inversion Ha as [|? ? Ha1 Ha2]; subst. cbn [fold_left fst snd] in *. rewrite map_set_new by done. rewrite IH; [by rewrite <- app_assoc|done|].
  apply Forall_forall. intros q Hq. rewrite Forall_forall in Ha2, Hd1. apply Forall_app. split; [by apply Ha2|]. constructor; [by apply Hd1|constructor].
Qed.

Lemma constructor_typed t : CONSTRUCTOR_TABLE (constructor_name t) = Some (Some t).
Proof. destruct t; vm_compute; reflexivity. Qed.

Lemma text_of_word16 s : Forall word16 (text_of s).
Proof.
  induction s as [|c s IH]; [constructor|]. constructor; [|done]. unfold word16. pose proof (nat_ascii_bounded c). lia.
Qed.

Lemma save_object_spec v : storable v -> saved v.
Proof.
  induction v as [| | |x|m e|s|l IH|l IH|t bytes| |l IH] using value_ind'; intros Hs b.
  1-6: eexists _, []; rewrite app_nil_r; (split; [reflexivity|]); (split; [exact Hs || done|]); (split; [constructor|]); by intros b' _.
  - assert (Forall saved l) as Hl.
    { apply foldr_Forall in Hs. rewrite !Forall_forall in *. intros x Hx. apply (IH x Hx), (Hs x Hx). }
    destruct (save_list_spec l Hl b) as (js & new & E & W & B & R). exists (JArr js), new. rewrite save_array, E. split; [done|].
    split; [by apply foldr_Forall|]. split; [done|]. intros b' Hb'. cbn [restore_buffers shape]. by rewrite R.
  - assert (Forall (fun p => saved p.1 /\ saved p.2) l) as Hl.
    { destruct Hs as [Hs _]. induction IH as [|[k x] l Hx Hl IHl]; [constructor|]. cbn in *. destruct Hs as [[] ?]. destruct Hx.
      constructor; auto. }
    destruct (save_pairs_spec l Hl b) as (js & new & E & W & B & R). eexists _, new. rewrite save_map, E. split; [done|].
    split; [|split; [done|]].
    { cbn [Json.wf fmap list_fmap]. split; [apply (bool_decide_unpack _); vm_compute; exact I|]. split; [split; [apply text_of_word16|apply text_of_word16]|].
      split; [|done]. split; [apply text_of_word16|]. by apply foldr_Forall. }
    intros b' Hb'. cbn [restore_buffers shape]. rewrite (decide_False (P := STATE_TYPE = ARGS)) by (vm_compute; discriminate).
    rewrite (decide_True (P := ARGS = ARGS)) by done. change (member STATE_TYPE _) with (Some (JStr (text_of "Map"))).
    change (CONSTRUCTOR_TABLE (text_of "Map")) with (Some (@None typed)). cbn [mbind option_bind]. cbn [restore_buffers]. rewrite R by done.
    cbn [fmap option_fmap option_map mbind option_bind new_map].
    assert (mapM map_entry (map (fun '(k, x) => VArray [shape k; shape x]) l) = Some (map (fun '(k, x) => (shape k, shape x)) l)) as ->.
    { clear. induction l as [|[k x] l IH]; [done|]. cbn in *. by rewrite IH. }
    cbn [mbind option_bind]. rewrite (new_map_spec _ []); [done|apply Hs|]. apply Forall_forall. constructor.
  - destruct Hs as [Hb Hlen]. exists (JObj [(STATE_TYPE, JStr (constructor_name t)); (BUFFER_ID, JNum (Z.of_nat (length b)) 0)]), [bytes].
    split; [done|]. split; [|split; [by repeat constructor|]].
    { cbn [Json.wf fmap list_fmap]. split; [apply (bool_decide_unpack _); vm_compute; exact I|]. split; [split; apply text_of_word16|].
      split; [split; [apply text_of_word16|by left]|done]. }
    intros b' Hb'. cbn [restore_buffers shape]. rewrite (decide_False (P := STATE_TYPE = ARGS)), (decide_False (P := BUFFER_ID = ARGS)) by (vm_compute; discriminate).
    change (member STATE_TYPE _) with (Some (JStr (constructor_name t))). cbn match. rewrite constructor_typed. cbn [mbind option_bind].
    change (member BUFFER_ID _) with (Some (JNum (Z.of_nat (length b)) 0)). unfold buffer_at.
    rewrite (proj2 (Z.ltb_ge (Z.of_nat (length b)) 0)) by apply Nat2Z.is_nonneg. rewrite Nat2Z.id.
    destruct Hb' as [k ->]. rewrite <- app_assoc. cbn [app]. rewrite list_lookup_middle by done.
    unfold new_typed. rewrite Hlen. done.
  - done.
  - assert (Forall saved l) as Hl.
    { apply foldr_Forall in Hs. rewrite !Forall_forall in *. intros x Hx. apply (IH x Hx), (Hs x Hx). }
    destruct (save_list_spec l Hl b) as (js & new & E & W & B & R). exists (JArr js), new. rewrite save_instance, E. split; [done|].
    split; [by apply foldr_Forall|]. split; [done|]. intros b' Hb'. cbn [restore_buffers shape]. by rewrite R.
Qed.

(** ** The layout of the buffer *)

Definition padding (len : nat) : nat := Z.to_nat ((4 - Z.of_nat len mod 4) mod 4).
Definition padded (buffer : list Z) : list Z := buffer ++ replicate (padding (length buffer)) 0.
Definition blocks (b : buffers) : list Z := concat (map padded b).

Lemma padding_bound len : 0 <= Z.of_nat (padding len) < 4 /\ (Z.of_nat len + Z.of_nat (padding len)) mod 4 = 0.
Proof.
  unfold padding. pose proof (Z.mod_pos_bound (Z.of_nat len) 4 ltac:(lia)). pose proof (Z.div_mod (Z.of_nat len) 4 ltac:(lia)).
  pose proof (Z.mod_pos_bound (4 - Z.of_nat len mod 4) 4 ltac:(lia)). pose proof (Z.div_mod (4 - Z.of_nat len mod 4) 4 ltac:(lia)).
  rewrite Z2Nat.id by lia. split; [lia|]. set (r := (4 - Z.of_nat len mod 4) mod 4) in *.
  replace (Z.of_nat len + r) with ((Z.of_nat len / 4 + 1 - (4 - Z.of_nat len mod 4) / 4) * 4) by lia. by apply Z.mod_mul.
Qed.

Lemma align_add total len : total mod 4 = 0 -> align (total + Z.of_nat len) = total + Z.of_nat len + Z.of_nat (padding len).
Proof.
  intros Ht. unfold align, padding. rewrite Z2Nat.id by (apply Z.mod_pos_bound; lia). do 2 f_equal.
  rewrite Z.add_mod, Ht, Z.add_0_l, Z.mod_mod by lia. done.
Qed.

Lemma align32_spec x : 0 <= x -> x + 3 < 2 ^ 31 -> align32 x = x + Z.of_nat (padding (Z.to_nat x)).
Proof.
  intros H0 H1. unfold align32, js_and. rewrite i32_id by (unfold int32; lia). change (i32 (js_not 3)) with (~. (2 ^ 2 - 1)).
  rewrite land_lnot_ones by lia. change (2 ^ 2) with 4. destruct (padding_bound (Z.to_nat x)) as [Hb Hm]. rewrite Z2Nat.id in Hm by lia.
  pose proof (Z.div_mod (x + 3) 4 ltac:(lia)). pose proof (Z.mod_pos_bound (x + 3) 4 ltac:(lia)).
  pose proof (Z.div_mod (x + Z.of_nat (padding (Z.to_nat x))) 4 ltac:(lia)). lia.
Qed.

Lemma length_padded buffer : Z.of_nat (length (padded buffer)) = Z.of_nat (length buffer) + Z.of_nat (padding (length buffer)).
Proof. unfold padded. rewrite length_app, length_replicate. lia. Qed.

Lemma padded_mod total buffer : total mod 4 = 0 -> (total + Z.of_nat (length (padded buffer))) mod 4 = 0.
Proof. intros Ht. rewrite length_padded, Z.add_mod, Ht by lia. destruct (padding_bound (length buffer)) as [_ ->]. done. Qed.

Lemma buffer_infos_cons total buffer b : total mod 4 = 0 ->
  buffer_infos total (buffer :: b) =
  let r := buffer_infos (total + Z.of_nat (length (padded buffer))) b in ((total, Z.of_nat (length buffer)) :: r.1, r.2).
Proof.
  intros Ht. cbn [buffer_infos]. rewrite align_add by done. replace (total + Z.of_nat (length buffer) + Z.of_nat (padding (length buffer)))
    with (total + Z.of_nat (length (padded buffer))) by (rewrite length_padded; lia). by destruct (buffer_infos _ b).
Qed.

Lemma buffer_infos_end total b : total mod 4 = 0 -> (buffer_infos total b).2 = total + Z.of_nat (length (blocks b)).
Proof.
  revert total. induction b as [|buffer b IH]; intros total Ht; [cbn; lia|]. rewrite buffer_infos_cons by done. cbn [snd].
  rewrite IH by (by apply padded_mod). unfold blocks. cbn [map concat]. rewrite length_app. lia.
Qed.

Lemma slice_app (p m q : list Z) from to : from = Z.of_nat (length p) -> to = from + Z.of_nat (length m) -> slice (p ++ m ++ q) from to = m.
Proof.
  intros -> ->. unfold slice. rewrite Nat2Z.id, drop_app_length. replace (Z.to_nat _) with (length m) by lia. by rewrite take_app_length.
Qed.

(** The buffers are where their entries say. *)
Lemma slices_blocks p base total b : total mod 4 = 0 -> base + total = Z.of_nat (length p) ->
  map (fun i => slice (p ++ blocks b) (base + i.1) (base + i.1 + i.2)) (buffer_infos total b).1 = b.
Proof.
  revert p total. induction b as [|buffer b IH]; intros p total Ht Hp; [done|]. rewrite buffer_infos_cons by done. cbv zeta. cbn [fst map].
  unfold blocks. cbn [map concat]. fold (blocks b). f_equal.
  - unfold padded. rewrite <- app_assoc. by apply slice_app.
  - rewrite app_assoc. apply IH; [by apply padded_mod|]. rewrite length_app. lia.
Qed.

Lemma set_bytes_middle (p m m' q : list Z) o : o = Z.of_nat (length p) -> length m' = length m -> set_bytes (p ++ m ++ q) m' o = p ++ m' ++ q.
Proof.
  intros -> El. unfold set_bytes. rewrite Nat2Z.id, take_app_length, El. f_equal. f_equal.
  rewrite <- drop_drop, drop_app_length. by rewrite drop_app_length.
Qed.

(** Copying the buffers into zeros gives the padded blocks. *)
Lemma set_blocks p base total b : total mod 4 = 0 -> base + total = Z.of_nat (length p) ->
  fold_left (fun out (x : Z * Z * list Z) => set_bytes out x.2 (base + x.1.1)) (zip (buffer_infos total b).1 b)
    (p ++ replicate (length (blocks b)) 0) = p ++ blocks b.
Proof.
  revert p total. induction b as [|buffer b IH]; intros p total Ht Hp; [by cbn|]. rewrite buffer_infos_cons by done. cbv zeta. cbn [fst zip zip_with fold_left snd].
  change (blocks (buffer :: b)) with (padded buffer ++ blocks b).
  replace (length (padded buffer ++ blocks b)) with (length buffer + (padding (length buffer) + length (blocks b)))%nat
    by (rewrite length_app; unfold padded; rewrite length_app, length_replicate; lia).
  rewrite !replicate_add, (set_bytes_middle p (replicate (length buffer) 0) buffer) by (rewrite ?length_replicate; done).
  rewrite (app_assoc buffer). fold (padded buffer). rewrite !(app_assoc p). apply IH; [by apply padded_mod|]. rewrite length_app. lia.
Qed.

(** The whole buffer: header, information block, padding, blocks. *)
Definition header (total info_len : Z) : list Z := bytes32 STATE_MAGIC ++ bytes32 STATE_VERSION ++ bytes32 total ++ bytes32 info_len.
Definition front (info : list Z) (total : Z) : list Z :=
  header total (Z.of_nat (length info)) ++ info ++ replicate (padding (16 + length info)) 0.
Definition packed (info : list Z) (total : Z) (b : buffers) : list Z := front info total ++ blocks b.

Lemma length_front info total : Z.of_nat (length (front info total)) = 16 + Z.of_nat (length info) + Z.of_nat (padding (16 + length info)).
Proof. unfold front. rewrite !length_app, length_replicate. cbn [header bytes32 length app]. lia. Qed.

Lemma front_mod info total : Z.of_nat (length (front info total)) mod 4 = 0.
Proof. rewrite length_front. destruct (padding_bound (16 + length info)) as [_ H]. by replace (16 + Z.of_nat (length info)) with (Z.of_nat (16 + length info)) by lia. Qed.

Lemma align32_front info total : Z.of_nat (length info) < 2 ^ 30 -> align32 (16 + Z.of_nat (length info)) = Z.of_nat (length (front info total)).
Proof.
  intros H. rewrite align32_spec by lia. rewrite length_front. by replace (Z.to_nat (16 + Z.of_nat (length info))) with (16 + length info)%nat by lia.
Qed.

Definition info_of (cpu : value) : option (list Z * json * buffers) :=
  '(state, b) ← save_object cpu []; Some (json_bytes (info_object (buffer_infos 0 b).1 state), state, b).

Lemma set_header rest total len :
  set_bytes (set_bytes (set_bytes (set_bytes (replicate 16 0 ++ rest) (bytes32 STATE_MAGIC) (4 * STATE_INDEX_MAGIC))
    (bytes32 STATE_VERSION) (4 * STATE_INDEX_VERSION)) (bytes32 total) (4 * STATE_INDEX_TOTAL_LEN)) (bytes32 len) (4 * STATE_INDEX_INFO_LEN)
  = header total len ++ rest.
Proof. reflexivity. Qed.

Lemma save_state_packed cpu info state b :
  info_of cpu = Some (info, state, b) -> Z.of_nat (length info) < 2 ^ 30 ->
  let total := Z.of_nat (length (front info 0)) + Z.of_nat (length (blocks b)) in
  save_state cpu = if total <=? STATE_MAX_SINGLE_BUFFER then inr (packed info total b) else inl TooLarge.
Proof.
  intros Hi Hlen total. unfold info_of in Hi. unfold save_state. destruct (save_object cpu []) as [[state' b']|] eqn:Es; [|done].
  cbn [mbind option_bind] in Hi. injection Hi as Hinfo -> ->. cbn [of_option mbind result_bind].
  pose proof (buffer_infos_end 0 b eq_refl) as Eend. destruct (buffer_infos 0 b) as [infos end_] eqn:Ei. cbn [fst snd] in *. subst end_. rewrite Z.add_0_l.
  rewrite Hinfo. change STATE_INFO_BLOCK_START with 16. rewrite (align32_front info 0 Hlen). fold total.
  pose proof (length_front info 0) as Hf. unfold guard_or.
  destruct (Z.leb_spec total STATE_MAX_SINGLE_BUFFER) as [Ht|Ht].
  2: { destruct (Z.of_nat (length (blocks b)) <=? STATE_MAX_SINGLE_BUFFER); [|done]. cbn [mbind result_bind]. done. }
  replace (Z.of_nat (length (blocks b)) <=? STATE_MAX_SINGLE_BUFFER) with true by lia. cbn [mbind result_bind]. f_equal.
  set (pad := padding (16 + length info)) in *.
  replace (Z.to_nat total) with (16 + (length info + (pad + length (blocks b))))%nat by lia. rewrite !replicate_add.
  rewrite (set_bytes_middle (replicate 16 0) (replicate (length info) 0) info) by (rewrite ?length_replicate; done).
  rewrite set_header. unfold packed, front. fold pad. set (h := header total _).
  replace (h ++ info ++ replicate pad 0 ++ replicate (length (blocks b)) 0) with ((h ++ info ++ replicate pad 0) ++ replicate (length (blocks b)) 0)
    by (by rewrite <- !app_assoc).
  replace infos with (buffer_infos 0 b).1 by (by rewrite Ei). apply (set_blocks _ _ 0); [done|].
  by rewrite Z.add_0_r, !length_app.
Qed.

(** ** Restoring *)

Lemma word32_bytes32 p v rest o : o = Z.of_nat (length p) -> word32 (p ++ bytes32 v ++ rest) o = u32 v.
Proof.
  intros ->. unfold word32.
  assert (forall k, 0 <= k < 4 -> arr_get (p ++ bytes32 v ++ rest) (Z.of_nat (length p) + k) = default 0 (bytes32 v !! Z.to_nat k)) as G.
  { intros k Hk. unfold arr_get. rewrite lookup_app_r by lia. replace (_ - _)%nat with (Z.to_nat k) by lia. by rewrite lookup_app_l by (cbn; lia). }
  rewrite <- (Z.add_0_r (Z.of_nat (length p))) at 1. rewrite !G by lia.
  change (default 0 (bytes32 v !! Z.to_nat 0)) with (u8 v). change (default 0 (bytes32 v !! Z.to_nat 1)) with (u8 (v .>> 8)).
  change (default 0 (bytes32 v !! Z.to_nat 2)) with (u8 (v .>> 16)). change (default 0 (bytes32 v !! Z.to_nat 3)) with (u8 (v .>> 24)).
  unfold u8. rewrite !Z.shiftr_div_pow2 by lia. pose proof (Z.div_mod v (2 ^ 8) ltac:(lia)). pose proof (Z.mod_pos_bound v (2 ^ 8) ltac:(lia)).
  change (2 ^ 16) with (2 ^ 8 * 2 ^ 8). change (2 ^ 24) with (2 ^ 8 * 2 ^ 8 * 2 ^ 8). rewrite <- !Z.div_div by lia.
  set (q := v / 2 ^ 8) in *. pose proof (Z.div_mod q (2 ^ 8) ltac:(lia)). pose proof (Z.mod_pos_bound q (2 ^ 8) ltac:(lia)).
  set (q2 := q / 2 ^ 8) in *. pose proof (Z.div_mod q2 (2 ^ 8) ltac:(lia)). pose proof (Z.mod_pos_bound q2 (2 ^ 8) ltac:(lia)).
  set (q3 := q2 / 2 ^ 8) in *. pose proof (Z.div_mod q3 (2 ^ 8) ltac:(lia)). pose proof (Z.mod_pos_bound q3 (2 ^ 8) ltac:(lia)).
  unfold u32. apply Z.mod_unique with (q3 / 2 ^ 8); lia.
Qed.

Lemma header_word (i v total len : Z) rest :
  (i, v) ∈ [(0, STATE_MAGIC); (1, STATE_VERSION); (2, total); (3, len)] -> int32 v ->
  i32 (word32 (header total len ++ rest) (4 * i)) = v.
Proof.
  intros Hin Hv. assert (word32 (header total len ++ rest) (4 * i) = u32 v) as ->; [|by rewrite i32_u32, i32_id].
  unfold header. rewrite <- !app_assoc.
  repeat (apply elem_of_cons in Hin as [[= -> ->]|Hin]); [..|by apply elem_of_nil in Hin].
  - by apply (word32_bytes32 []).
  - by apply (word32_bytes32 (bytes32 STATE_MAGIC)).
  - rewrite (app_assoc (bytes32 STATE_MAGIC)). by apply word32_bytes32.
  - rewrite (app_assoc (bytes32 STATE_MAGIC)), (app_assoc _ (bytes32 total)). by apply word32_bytes32.
Qed.

Ltac header_entry := first [left; done | right; header_entry].

Lemma read_header total len rest check :
  int32 total -> int32 len -> (check = true -> total = Z.of_nat (16 + length rest)) ->
  read_state_header (header total len ++ rest) check = inr len.
Proof.
  intros Ht Hl Hc. unfold read_state_header. assert (int32 STATE_MAGIC /\ int32 STATE_VERSION) as [Hm Hv] by (split; vm_compute; by split).
  unfold STATE_INDEX_MAGIC, STATE_INDEX_VERSION, STATE_INDEX_TOTAL_LEN, STATE_INDEX_INFO_LEN.
  rewrite (header_word 0 STATE_MAGIC), (header_word 1 STATE_VERSION), (header_word 2 total), (header_word 3 len) by (done || header_entry).
  rewrite length_app. change (length (header total len)) with 16%nat. unfold guard_or.
  rewrite (proj2 (Z.leb_le STATE_INFO_BLOCK_START (Z.of_nat (16 + length rest)))) by (unfold STATE_INFO_BLOCK_START; lia). rewrite !Z.eqb_refl.
  cbn [mbind result_bind]. destruct check; [|done]. rewrite (Hc eq_refl), Z.eqb_refl. done.
Qed.

Lemma infos_wf total b : Forall (fun j => Json.wf j) (map info_json (buffer_infos total b).1).
Proof.
  apply Forall_map, Forall_forall. intros [o l] _. unfold info_json. cbn [Json.wf fmap list_fmap fst snd foldr].
  split; [apply (bool_decide_unpack _); vm_compute; exact I|].
  split; [split; [apply text_of_word16|by left]|]. split; [split; [apply text_of_word16|by left]|done].
Qed.

Lemma info_object_wf infos state : Forall (fun j => Json.wf j) (map info_json infos) -> Json.wf state -> Json.wf (info_object infos state).
Proof.
  intros Hi Hs. cbn [info_object Json.wf fmap list_fmap]. split; [apply (bool_decide_unpack _); vm_compute; exact I|].
  split; [split; [apply text_of_word16|by apply foldr_Forall]|]. split; [split; [apply text_of_word16|done]|done].
Qed.

Lemma read_infos infos : mapR buffer_info (map info_json infos) = inr infos.
Proof. induction infos as [|[o l] infos IH]; [done|]. cbn [map mapR]. change (buffer_info (info_json (o, l))) with (inr (o, l) : result (Z * Z)). cbn [mbind result_bind]. by rewrite IH. Qed.

Definition info_fits (cpu : value) : Prop := exists info state b, info_of cpu = Some (info, state, b) /\ Z.of_nat (length info) < 2 ^ 30
  /\ Z.of_nat (length (front info 0)) + Z.of_nat (length (blocks b)) <= STATE_MAX_SINGLE_BUFFER.

Lemma saved_info cpu info state b : storable cpu -> info_of cpu = Some (info, state, b) ->
  read_info_block info = inr (info_object (buffer_infos 0 b).1 state) /\ restore_buffers state b = Some (shape cpu).
Proof.
  intros Hs Hi. unfold info_of in Hi. destruct (save_object_spec cpu Hs []) as (j & new & E & W & B & R). rewrite E in Hi. cbn [app mbind option_bind] in Hi.
  injection Hi as <- <- <-. split; [|by apply R]. unfold read_info_block. rewrite json_roundtrip; [done|]. apply info_object_wf; [apply infos_wf|done].
Qed.

Lemma length_header total len : length (header total len) = 16%nat.
Proof. done. Qed.

Lemma length_packed info total b : Z.of_nat (length (packed info total b)) = Z.of_nat (length (front info 0)) + Z.of_nat (length (blocks b)).
Proof. unfold packed. rewrite length_app. unfold front. rewrite !length_app, !length_header. lia. Qed.

Lemma packed_split info total b : packed info total b
  = header total (Z.of_nat (length info)) ++ info ++ replicate (padding (16 + length info)) 0 ++ blocks b.
Proof. unfold packed, front. by rewrite <- !app_assoc. Qed.

Lemma restore_plain_packed cpu info state b :
  storable cpu -> info_of cpu = Some (info, state, b) -> Z.of_nat (length info) < 2 ^ 30 ->
  let total := Z.of_nat (length (front info 0)) + Z.of_nat (length (blocks b)) in
  total <= STATE_MAX_SINGLE_BUFFER -> restore_plain (packed info total b) = inr (shape cpu).
Proof.
  intros Hs Hi Hlen total Ht. destruct (saved_info cpu info state b Hs Hi) as [Er Eb].
  pose proof (length_packed info total b) as Hp. fold total in Hp. unfold STATE_MAX_SINGLE_BUFFER in Ht. pose proof (length_front info 0) as Hf.
  unfold restore_plain. rewrite packed_split at 1. rewrite read_header; cycle 1.
  { unfold int32. lia. } { unfold int32. lia. }
  { intros _. rewrite packed_split, length_app, length_header in Hp. rewrite <- Hp. lia. }
  cbn [mbind result_bind]. rewrite Hp. unfold guard_or. replace (_ || _) with false by lia. cbn [negb mbind result_bind].
  change STATE_INFO_BLOCK_START with 16. rewrite packed_split at 1. rewrite slice_app by (rewrite ?length_header; lia).
  rewrite Er. cbn [mbind result_bind]. change (members_of (info_object ?i ?s)) with (inr [(BUFFER_INFOS, JArr (map info_json i)); (STATE, s)] : result _).
  cbn [mbind result_bind]. change (member BUFFER_INFOS _) with (Some (JArr (map info_json (buffer_infos 0 b).1))). cbn [array_of mbind result_bind].
  rewrite read_infos. cbn [mbind result_bind]. change (member STATE _) with (Some state). cbn [of_option mbind result_bind].
  rewrite (align32_front info total Hlen). unfold packed. rewrite slices_blocks; [by rewrite Eb|done|lia].
Qed.

(** *** The compressed form *)

Lemma zstd_read_app p q n : n = Z.of_nat (length p) -> zstd_read (p ++ q) n = inr (p, q).
Proof.
  intros ->. unfold zstd_read. rewrite length_app, (proj2 (Z.ltb_ge _ _)) by lia. by rewrite Nat2Z.id, take_app_length, drop_app_length.
Qed.

Lemma zstd_chunks_spec fuel p q : Z.of_nat (length p) <= Z.of_nat fuel * CHUNK_SIZE ->
  read_chunks fuel (p ++ q) (Z.of_nat (length p)) = inr (p, q).
Proof.
  revert p. induction fuel as [|fuel IH]; intros p Hf; [destruct p; [done|cbn in Hf; lia]|]. cbn [read_chunks].
  destruct (Z.ltb_spec 0 (Z.of_nat (length p))) as [Hp|Hp]; [|destruct p; [done|cbn in Hp; lia]]. cbv zeta.
  set (n := Z.min (Z.of_nat (length p)) CHUNK_SIZE). assert (0 < n <= Z.of_nat (length p)) as Hn by (unfold n, CHUNK_SIZE; lia).
  rewrite <- (take_drop (Z.to_nat n) p) at 1. rewrite <- app_assoc. rewrite zstd_read_app by (rewrite length_take; lia). cbn [mbind result_bind].
  replace (Z.of_nat (length p) - n) with (Z.of_nat (length (drop (Z.to_nat n) p))) by (rewrite length_drop; lia).
  rewrite IH; [cbn [mbind result_bind]; by rewrite take_drop|]. rewrite length_drop. unfold n, CHUNK_SIZE in *. lia.
Qed.

Lemma read_buffers_spec b : forall pad position total,
  0 <= position -> (position + Z.of_nat pad) mod 4 = 0 -> Z.of_nat pad < 4 -> position + Z.of_nat pad + Z.of_nat (length (blocks b)) <= 0x7FFFFFFF ->
  total mod 4 = 0 -> read_buffers (replicate pad 0 ++ blocks b) position (buffer_infos total b).1 = inr b.
Proof.
  assert (forall position pad, 0 <= position -> (position + Z.of_nat pad) mod 4 = 0 -> Z.of_nat pad < 4 -> position + Z.of_nat pad <= 0x7FFFFFFF ->
    align32 position - position = Z.of_nat pad) as Hal.
  { intros position pad H0 H1 H2 H3. pose proof (Z.div_mod (position + Z.of_nat pad) 4 ltac:(lia)) as Hdm. rewrite align32_spec by lia.
    destruct (padding_bound (Z.to_nat position)) as [Hb Hm]. rewrite Z2Nat.id in Hm by lia.
    pose proof (Z.div_mod (position + Z.of_nat (padding (Z.to_nat position))) 4 ltac:(lia)). lia. }
  induction b as [|buffer b IH]; intros pad position total H0 H1 H2 H3 Ht; [done|]. rewrite buffer_infos_cons by done. cbv zeta. cbn [fst read_buffers].
  change (blocks (buffer :: b)) with (padded buffer ++ blocks b) in *. rewrite length_app in H3. pose proof (length_padded buffer) as Hpl.
  destruct (padding_bound (length buffer)) as [Hpb Hpm]. rewrite (Hal position pad) by (done || lia). cbv zeta.
  replace (padded buffer ++ blocks b) with (buffer ++ replicate (padding (length buffer)) 0 ++ blocks b) by (unfold padded; by rewrite <- app_assoc).
  assert (forall r, r = inr (buffer, replicate (padding (length buffer)) 0 ++ blocks b) ->
    ('(x, stream) ← r; rest ← read_buffers stream (position + Z.of_nat pad + Z.of_nat (length buffer)) (buffer_infos (total + Z.of_nat (length (padded buffer))) b).1;
     inr (x :: rest)) = inr (buffer :: b) :> result buffers) as Hk.
  { intros r ->. cbn [mbind result_bind]. rewrite IH; [done|lia| |lia|lia|by apply padded_mod].
    rewrite <- Z.add_assoc, Z.add_mod, H1, Hpm by lia. done. }
  apply Hk. destruct (Z.ltb_spec CHUNK_SIZE (Z.of_nat (length buffer))) as [Hc|Hc].
  - rewrite zstd_read_app by (by rewrite length_replicate). cbn [mbind result_bind]. apply zstd_chunks_spec.
    pose proof (Z.div_mod (Z.of_nat (length buffer)) CHUNK_SIZE ltac:(done)). pose proof (Z.mod_pos_bound (Z.of_nat (length buffer)) CHUNK_SIZE ltac:(done)).
    pose proof (Z.div_pos (Z.of_nat (length buffer)) CHUNK_SIZE ltac:(lia) ltac:(done)). lia.
  - rewrite (app_assoc (replicate pad 0)). rewrite zstd_read_app by (rewrite length_app, length_replicate; lia). cbn [mbind result_bind].
    rewrite Nat2Z.id. do 2 f_equal. rewrite <- (length_replicate pad 0) at 1. apply drop_app_length.
Qed.

Lemma restore_zstd_packed cpu info state b :
  storable cpu -> info_of cpu = Some (info, state, b) -> Z.of_nat (length info) < 2 ^ 30 ->
  let total := Z.of_nat (length (front info 0)) + Z.of_nat (length (blocks b)) in
  total <= STATE_MAX_SINGLE_BUFFER -> restore_zstd (packed info total b) = inr (shape cpu).
Proof.
  intros Hs Hi Hlen total Ht. destruct (saved_info cpu info state b Hs Hi) as [Er Eb].
  unfold STATE_MAX_SINGLE_BUFFER in Ht. pose proof (length_front info 0) as Hf. rewrite packed_split. unfold restore_zstd.
  rewrite zstd_read_app by done. cbn [mbind result_bind]. rewrite <- (app_nil_r (header _ _)), read_header by (done || unfold int32; lia).
  cbn [mbind result_bind]. rewrite zstd_read_app by done. cbn [mbind result_bind]. rewrite Er. cbn [mbind result_bind].
  change (members_of (info_object ?i ?s)) with (inr [(BUFFER_INFOS, JArr (map info_json i)); (STATE, s)] : result _). cbn [mbind result_bind].
  change (member BUFFER_INFOS _) with (Some (JArr (map info_json (buffer_infos 0 b).1))). cbn [array_of mbind result_bind].
  rewrite read_infos. cbn [mbind result_bind]. change (member STATE _) with (Some state). cbn [of_option mbind result_bind].
  change STATE_INFO_BLOCK_START with 16. destruct (padding_bound (16 + length info)) as [Hpb Hpm].
  rewrite read_buffers_spec; [cbn [mbind result_bind]; by rewrite Eb|lia| |lia|lia|done]. by replace (16 + Z.of_nat (length info)) with (Z.of_nat (16 + length info)) by lia.
Qed.

(** C18: Saving and restoring the machine: a state in the form get_state methods return is saved as a single buffer
    (unless it is larger than the format's 2 GiB), and restoring that buffer, or a zstd-compressed
    copy of it, hands set_state the saved state: every finite number, string, typed array and map in its place,
    objects as the arrays of their states, undefined (and NaN and the infinities, which JSON has not) as null. *)
Theorem snapshot_roundtrip (decompress : list Z -> list Z) (cpu : value) (info : list Z) (state : json) (b : buffers) :
  storable cpu -> info_of cpu = Some (info, state, b) -> Z.of_nat (length info) < 2 ^ 30 ->
  let total := Z.of_nat (length (front info 0)) + Z.of_nat (length (blocks b)) in
  (STATE_MAX_SINGLE_BUFFER < total -> save_state cpu = inl TooLarge)
  /\ (total <= STATE_MAX_SINGLE_BUFFER -> exists snapshot, save_state cpu = inr snapshot /\ Z.of_nat (length snapshot) = total
        /\ restore_state decompress snapshot = inr (shape cpu)
        /\ forall compressed, decompress compressed = snapshot -> 4 <= Z.of_nat (length compressed) -> word32 compressed 0 = ZSTD_MAGIC ->
             restore_state decompress compressed = inr (shape cpu)).
Proof.
  intros Hs Hi Hlen total. pose proof (save_state_packed cpu info state b Hi Hlen) as Es. cbv zeta in Es. fold total in Es. split.
  - intros Ht. rewrite Es. by replace (total <=? STATE_MAX_SINGLE_BUFFER) with false by lia.
  - intros Ht. exists (packed info total b). rewrite Es. replace (total <=? STATE_MAX_SINGLE_BUFFER) with true by lia. split; [done|].
    pose proof (length_packed info total b) as Hp. fold total in Hp. pose proof (length_front info 0). split; [done|]. split.
    + unfold restore_state, guard_or. rewrite (proj2 (Z.leb_le 4 _)) by lia. cbn [mbind result_bind].
      assert (word32 (packed info total b) 0 = u32 STATE_MAGIC) as ->.
      { rewrite packed_split. unfold header. rewrite <- !app_assoc. by apply (word32_bytes32 []). }
      change (u32 STATE_MAGIC =? ZSTD_MAGIC) with false. cbn match. by apply (restore_plain_packed cpu info state b).
    + intros z Hz H4 Hm. unfold restore_state, guard_or. rewrite (proj2 (Z.leb_le 4 _)) by lia. cbn [mbind result_bind].
      rewrite Hm, Z.eqb_refl, Hz. by apply (restore_zstd_packed cpu info state b).
Qed.

(** C40: A damaged length is noticed: of a saved snapshot, every proper part from its beginning is refused, whatever
    its length. *)
Theorem snapshot_truncated (decompress : list Z -> list Z) (cpu : value) (info : list Z) (state : json) (b : buffers) (n : nat) (snapshot : list Z) :
  info_of cpu = Some (info, state, b) -> Z.of_nat (length info) < 2 ^ 30 -> save_state cpu = inr snapshot -> (n < length snapshot)%nat ->
  restore_state decompress (take n snapshot)
  = inl (if (n <? 4)%nat then SnapshotLength else if (n <? 16)%nat then InvalidLength else LengthMismatch).
Proof.
  intros Hi Hlen Hs Hn. rewrite (save_state_packed cpu info state b Hi Hlen) in Hs.
  set (total := Z.of_nat (length (front info 0)) + Z.of_nat (length (blocks b))) in Hs.
  destruct (Z.leb_spec total STATE_MAX_SINGLE_BUFFER) as [Ht|]; [|done]. injection Hs as <-.
  pose proof (length_packed info total b) as Hp. fold total in Hp. unfold STATE_MAX_SINGLE_BUFFER in Ht. rewrite packed_split in *.
  set (rest := info ++ _) in *. assert (length (take n (header total (Z.of_nat (length info)) ++ rest)) = n) as Hl by (rewrite length_take; lia).
  unfold restore_state, guard_or. rewrite Hl. destruct (Nat.ltb_spec n 4) as [H4|H4].
  { by rewrite (proj2 (Z.leb_gt 4 (Z.of_nat n))) by lia. }
  rewrite (proj2 (Z.leb_le 4 (Z.of_nat n))) by lia. cbn [mbind result_bind].
  assert (word32 (take n (header total (Z.of_nat (length info)) ++ rest)) 0 = u32 STATE_MAGIC) as Hw.
  { transitivity (word32 (bytes32 STATE_MAGIC ++ []) 0); [|by apply (word32_bytes32 [])].
    destruct n as [|[|[|[|n]]]]; [lia..|]. reflexivity. }
  rewrite Hw. change (u32 STATE_MAGIC =? ZSTD_MAGIC) with false. cbn match. unfold restore_plain.
  destruct (Nat.ltb_spec n 16) as [H16|H16].
  - unfold read_state_header, guard_or. rewrite Hl. unfold STATE_INFO_BLOCK_START. by rewrite (proj2 (Z.leb_gt 16 (Z.of_nat n))) by lia.
  - rewrite take_app_ge, length_header by (rewrite length_header; lia). unfold read_state_header.
    assert (int32 STATE_MAGIC /\ int32 STATE_VERSION) as [Hm Hv] by (split; vm_compute; by split).
    assert (int32 total) as Hti by (unfold int32; lia).
    unfold STATE_INDEX_MAGIC, STATE_INDEX_VERSION, STATE_INDEX_TOTAL_LEN, STATE_INDEX_INFO_LEN.
    rewrite (header_word 0 STATE_MAGIC), (header_word 1 STATE_VERSION), (header_word 2 total) by (done || header_entry).
    rewrite length_app, length_header in *. rewrite length_take. replace (16 + (n - 16) `min` length rest)%nat with n by lia.
    unfold guard_or. unfold STATE_INFO_BLOCK_START. rewrite (proj2 (Z.leb_le 16 (Z.of_nat n))) by lia. rewrite !Z.eqb_refl.
    cbn [mbind result_bind]. by rewrite (proj2 (Z.eqb_neq total (Z.of_nat n))) by lia.
Qed.

(** ** Guest memory in a snapshot ([cpu.js]) *)

(** [is_memory_zeroed] and [zero_memory] of the WebAssembly core ([memory.rs]). *)
Definition is_memory_zeroed (mem8 : list Z) (addr length : Z) : bool := forallb (Z.eqb 0) (slice mem8 addr (addr + length)).
Definition zero_memory (mem8 : list Z) (addr length : Z) : list Z := set_bytes mem8 (replicate (Z.to_nat length) 0) addr.

Definition PAGE : Z := 0x1000.
Definition nonzero_pages (mem8 : list Z) (page_count : Z) : list Z :=
  filter (fun page => is_memory_zeroed mem8 (page .<< 12) PAGE = false) (seqZ 0 page_count).

Definition page_contents (mem8 : list Z) (page : Z) : list Z := slice mem8 (page .<< 12) ((page .<< 12) + PAGE).

Definition pack_memory (mem8 : list Z) : result (Bitmap.t * list Z) :=
  let page_count := Z.of_nat (length mem8) .>> 12 in
  let pages := nonzero_pages mem8 page_count in
  let packed_size := Z.of_nat (length pages) * PAGE in
  if STATE_MAX_SINGLE_BUFFER <? packed_size then inl TooLarge
  else
    inr (fold_left (fun '(bitmap, packed_memory) '(i, page) =>
        (Bitmap.set bitmap page true, set_bytes packed_memory (page_contents mem8 page) (i .<< 12)))
      (zip (seqZ 0 (Z.of_nat (length pages))) pages)
      (Bitmap.create page_count, replicate (Z.to_nat packed_size) 0)).

Definition unpack_memory (memory_size : Z) (bitmap : Bitmap.t) (packed_memory : list Z) (mem8 : list Z) : list Z :=
  let mem8 := zero_memory mem8 0 memory_size in
  (fold_left (fun '(mem8, packed_page) page =>
      if has (Bitmap.get bitmap page) 1 then
        (set_bytes mem8 (page_contents packed_memory packed_page) (page .<< 12), packed_page + 1)
      else (mem8, packed_page))
    (seqZ 0 (memory_size .>> 12)) (mem8, 0)).1.

Lemma lookup_set_bytes l vs o i : 0 <= o -> o + Z.of_nat (length vs) <= Z.of_nat (length l) ->
  set_bytes l vs o !! i = if decide (o <= Z.of_nat i < o + Z.of_nat (length vs)) then vs !! (i - Z.to_nat o)%nat else l !! i.
Proof.
  intros Ho Hl. unfold set_bytes. destruct (decide (Z.of_nat i < o)) as [H1|H1].
  - rewrite lookup_app_l by (rewrite length_take; lia). rewrite lookup_take_lt by lia. by rewrite decide_False by lia.
  - rewrite lookup_app_r by (rewrite length_take; lia). rewrite length_take, Nat.min_l by lia. case_decide as H2.
    + by rewrite lookup_app_l by lia.
    + rewrite lookup_app_r by lia. rewrite lookup_drop. f_equal. lia.
Qed.

Lemma length_set_bytes l vs o : 0 <= o -> o + Z.of_nat (length vs) <= Z.of_nat (length l) -> length (set_bytes l vs o) = length l.
Proof. intros Ho Hl. unfold set_bytes. rewrite !length_app, length_take, length_drop. lia. Qed.

Lemma length_page mem8 page : 0 <= page -> (page + 1) * PAGE <= Z.of_nat (length mem8) -> length (page_contents mem8 page) = Z.to_nat PAGE.
Proof.
  intros H0 H1. unfold page_contents, slice. rewrite Z.shiftl_mul_pow2 by lia. change (2 ^ 12) with PAGE. unfold PAGE in *.
  rewrite length_take, length_drop. lia.
Qed.

Lemma lookup_page mem8 page i : 0 <= page -> (i < Z.to_nat PAGE)%nat -> page_contents mem8 page !! i = mem8 !! (Z.to_nat (page * PAGE) + i)%nat.
Proof.
  intros H0 Hi. unfold page_contents, slice. rewrite Z.shiftl_mul_pow2 by lia. change (2 ^ 12) with PAGE.
  rewrite lookup_take_lt by lia. by rewrite lookup_drop.
Qed.

(** Writing pages of one memory into another of the same size: the pages written are the first one's, the rest the second's. *)
Lemma scatter mem8 pages : Forall (fun p => 0 <= p /\ (p + 1) * PAGE <= Z.of_nat (length mem8)) pages -> forall m, length m = length mem8 ->
  let m' := fold_left (fun m p => set_bytes m (page_contents mem8 p) (p .<< 12)) pages m in
  length m' = length mem8 /\ forall i, m' !! i = if decide (Z.of_nat i / PAGE ∈ pages) then mem8 !! i else m !! i.
Proof.
  induction 1 as [|p pages [Hp0 Hp1] Hps IH]; intros m Hm; [split; [done|]; intros i; by rewrite decide_False by apply not_elem_of_nil|].
  pose proof (length_page mem8 p Hp0 Hp1) as Hl. assert (p .<< 12 = p * PAGE) as Esh by (by rewrite Z.shiftl_mul_pow2 by lia).
  assert (0 <= p * PAGE /\ p * PAGE + Z.of_nat (length (page_contents mem8 p)) <= Z.of_nat (length m)) as [Hb1 Hb2] by (unfold PAGE in *; lia).
  cbn [fold_left]. rewrite Esh. destruct (IH (set_bytes m (page_contents mem8 p) (p * PAGE))) as [IH1 IH2]; [by rewrite length_set_bytes|].
  split; [done|]. intros i. rewrite IH2. rewrite lookup_set_bytes by done. rewrite Hl.
  assert (Z.of_nat i / PAGE = p <-> p * PAGE <= Z.of_nat i < p * PAGE + Z.of_nat (Z.to_nat PAGE)) as Hq.
  { unfold PAGE in *. pose proof (Z.div_mod (Z.of_nat i) 4096 ltac:(lia)). pose proof (Z.mod_pos_bound (Z.of_nat i) 4096 ltac:(lia)). lia. }
  destruct (decide (Z.of_nat i / PAGE ∈ pages)) as [Hin|Hin]; [by rewrite decide_True by (by right)|].
  destruct (decide (Z.of_nat i / PAGE = p)) as [He|He].
  - rewrite decide_True by (by apply Hq). rewrite decide_True by (rewrite He; left). apply Hq in He.
    rewrite lookup_page by lia. f_equal. lia.
  - rewrite decide_False by (by rewrite <- Hq). rewrite decide_False; [done|]. intros [?|?]%elem_of_cons; done.
Qed.

(** The pages that are not zero, over zeros, are the memory. *)
Lemma scatter_nonzero mem8 n : Z.of_nat (length mem8) = n * PAGE -> 
  fold_left (fun m p => set_bytes m (page_contents mem8 p) (p .<< 12)) (nonzero_pages mem8 n) (replicate (length mem8) 0) = mem8.
Proof.
  intros Hn. assert (0 <= n) as Hn0 by (unfold PAGE in *; lia).
  destruct (scatter mem8 (nonzero_pages mem8 n)) with (m := replicate (length mem8) 0) as [_ Hs].
  - apply Forall_forall. intros p [_ Hp%elem_of_seqZ]%list_elem_of_filter. unfold PAGE in *. lia.
  - by rewrite length_replicate.
  - apply list_eq. intros i. rewrite Hs. case_decide as Hin; [done|]. destruct (mem8 !! i) as [x|] eqn:Ex.
    2: { apply lookup_replicate_None. by apply lookup_ge_None in Ex. }
    assert (i < length mem8)%nat as Hi by (by apply lookup_lt_Some in Ex). rewrite lookup_replicate_2 by done. f_equal.
    set (p := Z.of_nat i / PAGE) in *. assert (0 <= p < n /\ p * PAGE <= Z.of_nat i < p * PAGE + PAGE) as [Hp Hip].
    { unfold p, PAGE in *. pose proof (Z.div_mod (Z.of_nat i) 4096 ltac:(lia)). pose proof (Z.mod_pos_bound (Z.of_nat i) 4096 ltac:(lia)). lia. }
    assert (is_memory_zeroed mem8 (p .<< 12) PAGE = true) as Hz.
    { destruct (is_memory_zeroed mem8 (p .<< 12) PAGE) eqn:E; [done|]. destruct Hin. apply list_elem_of_filter. split; [done|]. apply elem_of_seqZ. lia. }
    unfold is_memory_zeroed in Hz. fold (page_contents mem8 p) in Hz. rewrite forallb_forall in Hz. apply Z.eqb_eq, Hz, list_elem_of_In.
    apply list_elem_of_lookup. exists (i - Z.to_nat (p * PAGE))%nat. rewrite lookup_page by (unfold PAGE in *; lia). rewrite <- Ex. f_equal. lia.
Qed.

Lemma bitmap_view_set bm p v : length (Bitmap.view (Bitmap.set bm p v)) = length (Bitmap.view bm).
Proof. unfold Bitmap.set. cbn. apply arr_set_length. Qed.

Lemma bitmap_sets pages bm j : Forall (fun p => 0 <= p < 8 * Z.of_nat (length (Bitmap.view bm))) pages -> 0 <= j ->
  Bitmap.get (fold_left (fun bm p => Bitmap.set bm p true) pages bm) j = if decide (j ∈ pages) then 1 else Bitmap.get bm j.
Proof.
  intros Hp Hj. revert bm Hp. induction pages as [|p pages IH]; intros bm Hp; [by rewrite decide_False by apply not_elem_of_nil|].
  inversion Hp as [|? ? Hp1 Hp2]; subst. cbn [fold_left]. rewrite IH by (by rewrite bitmap_view_set). rewrite Bitmap.bitmap_get_set by done.
  destruct (decide (p = j)) as [->|Hne]; [rewrite (decide_True (P := j ∈ j :: pages)) by left; by case_decide|].
  case_decide as H1; [by rewrite decide_True by (by right)|]. rewrite decide_False; [done|]. intros [?|?]%elem_of_cons; done.
Qed.

Lemma bitmap_empty n j : Bitmap.get (Bitmap.create n) j = 0.
Proof.
  unfold Bitmap.get, Bitmap.create. cbn [Bitmap.view]. unfold arr_get. destruct (replicate _ 0 !! _) as [x|] eqn:E; cbn.
  - apply lookup_replicate in E as [-> _]. by rewrite Z.shiftr_0_l.
  - by rewrite Z.shiftr_0_l.
Qed.

Definition pages_of (mem8 : list Z) (pages : list Z) : list Z := concat (map (page_contents mem8) pages).

Lemma pack_fold mem8 pages : Forall (fun p => length (page_contents mem8 p) = Z.to_nat PAGE) pages -> forall k P bm,
  0 <= k -> Z.of_nat (length P) = k * PAGE ->
  fold_left (fun '(bitmap, packed_memory) '(i, page) =>
        (Bitmap.set bitmap page true, set_bytes packed_memory (page_contents mem8 page) (i .<< 12)))
      (zip (seqZ k (Z.of_nat (length pages))) pages) (bm, P ++ replicate (length pages * Z.to_nat PAGE) 0)
  = (fold_left (fun bm p => Bitmap.set bm p true) pages bm, P ++ pages_of mem8 pages).
Proof.
  induction 1 as [|p pages Hp Hps IH]; intros k P bm Hk HP; [done|]. cbn [length]. rewrite seqZ_cons by lia. cbn [zip zip_with fold_left].
  rewrite Nat.mul_succ_l, Nat.add_comm, replicate_add, <- Hp. rewrite set_bytes_middle; [|rewrite Z.shiftl_mul_pow2 by lia; rewrite HP; done|by rewrite length_replicate].
  rewrite Hp, app_assoc. replace (Z.pred (Z.of_nat (S (length pages)))) with (Z.of_nat (length pages)) by lia.
  rewrite IH; [by rewrite <- app_assoc|lia|]. rewrite length_app. unfold PAGE in *. lia.
Qed.

Lemma page_of_pages mem8 pages j p rest : Forall (fun p => length (page_contents mem8 p) = Z.to_nat PAGE) pages ->
  pages !! j = Some p -> page_contents (pages_of mem8 pages ++ rest) (Z.of_nat j) = page_contents mem8 p.
Proof.
  intros Hl Hj. apply list_elem_of_split_length in Hj as (l1 & l2 & -> & ->). unfold pages_of. rewrite map_app, concat_app. cbn [map concat].
  apply Forall_app in Hl as [Hl1 Hl2]. inversion Hl2 as [|? ? Hp _]; subst. rewrite <- !app_assoc. apply slice_app.
  - rewrite Z.shiftl_mul_pow2 by lia. clear Hl2 Hp. induction Hl1 as [|q l Hq Hl IH]; [done|]. cbn [map concat length]. rewrite length_app, Hq.
    rewrite Nat2Z.inj_succ, Nat2Z.inj_add, <- IH. unfold PAGE. lia.
  - rewrite Hp. unfold PAGE. lia.
Qed.

Lemma unpack_fold mem8 packed bm f `{HD : !forall x : Z, Decision (f x)} ps : forall k m, 0 <= k ->
  (forall j p, filter f ps !! j = Some p -> page_contents packed (k + Z.of_nat j) = page_contents mem8 p) ->
  Forall (fun p => has (Bitmap.get bm p) 1 = bool_decide (f p)) ps ->
  (fold_left (fun '(mem8, packed_page) page =>
      if has (Bitmap.get bm page) 1 then (set_bytes mem8 (page_contents packed packed_page) (page .<< 12), packed_page + 1) else (mem8, packed_page))
    ps (m, k)).1 = fold_left (fun m p => set_bytes m (page_contents mem8 p) (p .<< 12)) (filter f ps) m.
Proof.
  induction ps as [|p ps IH]; intros k m Hk Hpk Hb; [done|]. inversion Hb as [|? ? Hb1 Hb2]; subst. cbn [fold_left]. rewrite Hb1, filter_cons.
  destruct (decide (f p)) as [Hf|Hf].
  - rewrite bool_decide_eq_true_2 by done. cbn [fold_left].
    assert (page_contents packed k = page_contents mem8 p) as ->.
    { rewrite <- (Z.add_0_r k). apply (Hpk 0%nat). by rewrite filter_cons_True. }
    apply IH; [lia| |done]. intros j q Hq. replace (k + 1 + Z.of_nat j) with (k + Z.of_nat (S j)) by lia. apply Hpk. by rewrite filter_cons_True.
  - rewrite bool_decide_eq_false_2 by done. apply IH; [done| |done]. intros j q Hq. apply Hpk. by rewrite filter_cons_False.
Qed.

(** Guest memory in a single-buffer snapshot: packing keeps the pages that are not zero and a bitmap of them, and
    unpacking them into the memory of a machine of that size, whatever it holds, gives every byte back. *)
Theorem memory_roundtrip (mem8 mem8' : list Z) (n : Z) :
  Z.of_nat (length mem8) = n * PAGE -> n * PAGE <= STATE_MAX_SINGLE_BUFFER -> length mem8' = length mem8 ->
  exists bitmap packed_memory, pack_memory mem8 = inr (bitmap, packed_memory)
    /\ unpack_memory (n * PAGE) bitmap packed_memory mem8' = mem8.
Proof.
  intros Hn Hmax Hl. assert (0 <= n) as Hn0 by (unfold PAGE in *; lia). unfold pack_memory. rewrite Hn.
  assert ((n * PAGE) .>> 12 = n) as En by (rewrite Z.shiftr_div_pow2 by lia; by apply Z.div_mul). rewrite En.
  set (pages := nonzero_pages mem8 n).
  assert (forall p, p ∈ pages -> 0 <= p < n) as Hps by (intros p [_ ?%elem_of_seqZ]%list_elem_of_filter; lia).
  assert (Forall (fun p => length (page_contents mem8 p) = Z.to_nat PAGE) pages) as Hpl.
  { apply Forall_forall. intros p Hp%Hps. apply length_page; [lia|]. rewrite Hn. unfold PAGE. lia. }
  assert (Z.of_nat (length pages) <= n) as Hlen.
  { unfold pages, nonzero_pages. pose proof (length_filter (fun page => is_memory_zeroed mem8 (page .<< 12) PAGE = false) (seqZ 0 n)).
    rewrite length_seqZ in *. lia. }
  cbv zeta. replace (STATE_MAX_SINGLE_BUFFER <? Z.of_nat (length pages) * PAGE) with false by (unfold PAGE in *; lia).
  replace (replicate (Z.to_nat (Z.of_nat (length pages) * PAGE)) 0) with ([] ++ replicate (length pages * Z.to_nat PAGE) 0)
    by (cbn [app]; f_equal; unfold PAGE; lia).
  rewrite (pack_fold mem8 pages Hpl 0 [] _ ltac:(lia) eq_refl). eexists _, _. split; [done|].
  unfold unpack_memory. rewrite En. cbn [app].
  assert (zero_memory mem8' 0 (n * PAGE) = replicate (length mem8) 0) as ->.
  { unfold zero_memory, set_bytes. replace (Z.to_nat (n * PAGE)) with (length mem8) by lia. rewrite length_replicate. cbn [take app Z.to_nat].
    rewrite drop_ge by (cbn; lia). apply app_nil_r. }
  rewrite (unpack_fold mem8 _ _ (fun page => is_memory_zeroed mem8 (page .<< 12) PAGE = false)).
  - by apply scatter_nonzero.
  - lia.
  - intros j p Hj. rewrite Z.add_0_l, <- (app_nil_r (pages_of mem8 pages)). by apply page_of_pages.
  - apply Forall_forall. intros p Hp. apply elem_of_seqZ in Hp. rewrite bitmap_sets; [|apply Forall_forall; intros q Hq%Hps|lia].
    + rewrite bitmap_empty. destruct (decide (p ∈ pages)) as [Hin|Hin].
      * apply list_elem_of_filter in Hin as [Hz _]. by rewrite bool_decide_eq_true_2.
      * rewrite bool_decide_eq_false_2; [done|]. intros Hz. apply Hin, list_elem_of_filter. split; [done|]. apply elem_of_seqZ. lia.
    + unfold Bitmap.create. cbn [Bitmap.view]. rewrite length_replicate, Z.shiftr_div_pow2 by lia. change (2 ^ 3) with 8.
      pose proof (Z.div_mod (n + 7) 8 ltac:(lia)). pose proof (Z.mod_pos_bound (n + 7) 8 ltac:(lia)). lia.
Qed.

(** ** Examples *)

Definition demo_cpu : value :=
  VInstance [VNum 4096 0; VUndefined; VTyped Uint8Array [1; 2; 3; 4; 5]; VMap [(VNum 1 0, VTyped Int32Array [9; 9; 9; 9])];
             VInstance [VStr (text_of "pc"); VNonFinite]; VBool true; VNum 125 1].

Lemma demo_storable : storable demo_cpu.
Proof.
  assert (forall l, forallb (fun b => (0 <=? b) && (b <? 256)) l = true -> Forall byte l) as Hb.
  { intros l H. apply Forall_forall. intros x Hx%list_elem_of_In. rewrite forallb_forall in H. specialize (H x Hx). unfold byte. lia. }
  repeat split; try (by left); try (by right); try apply text_of_word16; try (by apply Hb); try constructor; try done.
Qed.

Definition demo_info : list Z * json * buffers := default ([], JNull, []) (info_of demo_cpu).

Lemma snapshot_roundtrip_witness : exists snapshot, save_state demo_cpu = inr snapshot /\ restore_state id snapshot = inr (shape demo_cpu).
Proof.
  destruct (snapshot_roundtrip id demo_cpu demo_info.1.1 demo_info.1.2 demo_info.2) as [_ H].
  - exact demo_storable.
  - vm_compute. reflexivity.
  - vm_compute. reflexivity.
  - destruct H as (s & H1 & _ & H2 & _); [vm_compute; discriminate|]. exists s. split; [exact H1|exact H2].
Defined.

Lemma snapshot_truncated_witness : exists snapshot, save_state demo_cpu = inr snapshot /\ restore_state id (take 20 snapshot) = inl LengthMismatch.
Proof.
  destruct (save_state demo_cpu) as [e|snapshot] eqn:E; [vm_compute in E; discriminate E|]. exists snapshot. split; [reflexivity|].
  apply (snapshot_truncated id demo_cpu demo_info.1.1 demo_info.1.2 demo_info.2 20 snapshot).
  - vm_compute. reflexivity.
  - vm_compute. reflexivity.
  - exact E.
  - vm_compute in E. injection E as <-. vm_compute. lia.
Defined.

Definition demo_memory : list Z := replicate (Z.to_nat PAGE) 0 ++ replicate (Z.to_nat PAGE) 7 ++ replicate (Z.to_nat PAGE) 0.

Lemma memory_roundtrip_witness : exists bitmap packed_memory, pack_memory demo_memory = inr (bitmap, packed_memory)
  /\ unpack_memory (3 * PAGE) bitmap packed_memory (replicate (Z.to_nat (3 * PAGE)) 1) = demo_memory.
Proof.
  apply (memory_roundtrip demo_memory (replicate (Z.to_nat (3 * PAGE)) 1) 3).
  - unfold demo_memory. rewrite !length_app, !length_replicate. reflexivity.
  - vm_compute. discriminate.
  - unfold demo_memory. rewrite !length_app, !length_replicate. reflexivity.
Defined.

End State.
