(* ===== verification/Extended.v ===== *)
(** * Extended RAM ([extended_memory.js])

    The host store of guest memory beyond the WebAssembly memory: pages in buffers
    of 1 GiB, and a bitmap of the pages ever written.  It implements a flat memory. *)

From S2P Require Import Prelude Lib State.

Import State.

Open Scope js_scope.

Module Extended.

Definition EXTENDED_PAGE_SIZE : Z := 4096.
Definition EXTENDED_CHUNK_PAGES : Z := 1 .<< 18.

Record t := mk {
  pages : Z;
  chunks : list (list Z);
  touched : list Z
}.

Definition ceil_div (a b : Z) : Z := (a + b - 1) / b.

(** The loop over [first] makes one buffer for every [EXTENDED_CHUNK_PAGES] pages. *)
Definition create (pages : Z) : t :=
  mk pages
    (map (fun k => replicate (Z.to_nat (Z.min EXTENDED_CHUNK_PAGES (pages - k * EXTENDED_CHUNK_PAGES) * EXTENDED_PAGE_SIZE)) 0)
       (seqZ 0 (ceil_div pages EXTENDED_CHUNK_PAGES)))
    (replicate (Z.to_nat (ceil_div pages 8)) 0).

Definition chunk_of (p : Z) : nat := Z.to_nat (p / EXTENDED_CHUNK_PAGES).
Definition page_offset (p : Z) : Z := (p mod EXTENDED_CHUNK_PAGES) * EXTENDED_PAGE_SIZE.

Definition page (s : t) (p : Z) : list Z :=
  slice (default [] (chunks s !! chunk_of p)) (page_offset p) (page_offset p + EXTENDED_PAGE_SIZE).

(** [page(p).set(bytes)]: the page is a view of its buffer. *)
Definition set_page (p : Z) (bytes : list Z) (s : t) : t :=
  s <| chunks := alter (fun chunk => set_bytes chunk bytes (page_offset p)) (chunk_of p) (chunks s) |>.

Definition is_touched (s : t) (p : Z) : bool := negb ((arr_get (touched s) (p .>> 3) .>> (p .& 7)) .& 1 =? 0).

(** [Atomics.or] and [|=] store the same. *)
Definition touch (p : Z) (s : t) : t :=
  if is_touched s p then s
  else s <| touched := arr_set (touched s) (p .>> 3) (u8 (arr_get (touched s) (p .>> 3) .| (1 .<< (p .& 7)))) |>.

(** A page into a frame of the WebAssembly memory, and back. *)
Definition load (s : t) (p : Z) (memory : list Z) (pointer : Z) : list Z := set_bytes memory (page s p) (u32 pointer).
Definition store (p : Z) (memory : list Z) (pointer : Z) (s : t) : t :=
  set_page p (slice memory (u32 pointer) (u32 pointer + EXTENDED_PAGE_SIZE)) (touch p s).

Definition write (p : Z) (bytes : list Z) (s : t) : t := set_page p bytes (touch p s).

Definition clear_byte (s : t) (byte : Z) : t :=
  if arr_get (touched s) byte =? 0 then s
  else
    let s := fold_left (fun s bit =>
        if has (arr_get (touched s) byte) (1 .<< bit)
        then set_page (byte * 8 + bit) (replicate (Z.to_nat EXTENDED_PAGE_SIZE) 0) s else s) (seqZ 0 8) s in
    s <| touched := arr_set (touched s) byte 0 |>.
Definition clear (s : t) : t := fold_left clear_byte (seqZ 0 (Z.of_nat (length (touched s)))) s.

Definition is_zero (s : t) (p : Z) : bool := negb (is_touched s p) || forallb (Z.eqb 0) (page s p).

(** ** The memory it implements *)

Definition contents (s : t) : list Z := concat (chunks s).

(** Buffers full but the last; pages never written are zero. *)
Record wf (s : t) : Prop := {
  wf_pages : 0 <= pages s;
  wf_count : Z.of_nat (length (chunks s)) = ceil_div (pages s) EXTENDED_CHUNK_PAGES;
  wf_chunks : forall k chunk, chunks s !! k = Some chunk ->
    Z.of_nat (length chunk) = Z.min EXTENDED_CHUNK_PAGES (pages s - Z.of_nat k * EXTENDED_CHUNK_PAGES) * EXTENDED_PAGE_SIZE;
  wf_touched : Z.of_nat (length (touched s)) = ceil_div (pages s) 8;
  wf_bytes : Forall byte (touched s);
  wf_untouched : forall p, 0 <= p < pages s -> is_touched s p = false -> Forall (eq 0) (page s p);
  wf_range : forall p, 0 <= p -> is_touched s p = true -> p < pages s
}.

Lemma ceil_div_spec a b : 0 <= a -> 0 < b -> a <= ceil_div a b * b < a + b.
Proof.
  intros Ha Hb. unfold ceil_div. pose proof (Z.div_mod (a + b - 1) b ltac:(lia)). pose proof (Z.mod_pos_bound (a + b - 1) b Hb). lia.
Qed.

(** Where a buffer lies in the flat memory. *)
Lemma concat_split (l : list (list Z)) k chunk : l !! k = Some chunk -> concat l = concat (take k l) ++ chunk ++ concat (drop (S k) l).
Proof. intros H. rewrite <- (take_drop_middle l k chunk H) at 1. rewrite concat_app. done. Qed.

Lemma length_before s k : wf s -> (k < length (chunks s))%nat -> Z.of_nat (length (concat (take k (chunks s)))) = Z.of_nat k * EXTENDED_CHUNK_PAGES * EXTENDED_PAGE_SIZE.
Proof.
  intros Hw. induction k as [|k IH]; intros Hk; [done|]. destruct (lookup_lt_is_Some_2 (chunks s) k ltac:(lia)) as [c Hc].
  rewrite (take_S_r _ _ c) by done. rewrite concat_app, length_app. cbn [concat]. rewrite app_nil_r, Nat2Z.inj_add, IH by lia.
  rewrite (wf_chunks s Hw k c Hc). pose proof (wf_count s Hw) as Hn. pose proof (ceil_div_spec (pages s) EXTENDED_CHUNK_PAGES (wf_pages s Hw) ltac:(done)).
  rewrite Z.min_l; [lia|]. change EXTENDED_CHUNK_PAGES with 0x40000 in *. lia.
Qed.

Lemma chunk_exists s p : wf s -> 0 <= p < pages s -> exists chunk, chunks s !! chunk_of p = Some chunk
  /\ Z.of_nat (length (concat (take (chunk_of p) (chunks s)))) + page_offset p = p * EXTENDED_PAGE_SIZE
  /\ 0 <= page_offset p /\ page_offset p + EXTENDED_PAGE_SIZE <= Z.of_nat (length chunk).
Proof.
  intros Hw Hp. unfold chunk_of, page_offset. pose proof (ceil_div_spec (pages s) EXTENDED_CHUNK_PAGES (wf_pages s Hw) ltac:(done)).
  pose proof (wf_count s Hw) as Hn. change EXTENDED_CHUNK_PAGES with 0x40000 in *.
  pose proof (Z.div_mod p 0x40000 ltac:(lia)). pose proof (Z.mod_pos_bound p 0x40000 ltac:(lia)). pose proof (Z.div_pos p 0x40000 ltac:(lia) ltac:(lia)).
  assert (p / 0x40000 < Z.of_nat (length (chunks s))) as Hlt by lia.
  destruct (lookup_lt_is_Some_2 (chunks s) (Z.to_nat (p / 0x40000)) ltac:(lia)) as [c Hc]. exists c. split; [done|].
  rewrite (length_before s) by (done || lia). pose proof (wf_chunks s Hw _ _ Hc) as Hlen. rewrite Z2Nat.id in * by lia.
  change EXTENDED_CHUNK_PAGES with 0x40000 in *. unfold EXTENDED_PAGE_SIZE in *. lia.
Qed.

Lemma slice_inner (p m q : list Z) from to : 0 <= from -> to <= Z.of_nat (length m) ->
  slice m from to = slice (p ++ m ++ q) (Z.of_nat (length p) + from) (Z.of_nat (length p) + to).
Proof.
  intros H0 H1. unfold slice. replace (Z.of_nat (length p) + to - (Z.of_nat (length p) + from)) with (to - from) by lia.
  replace (Z.to_nat (Z.of_nat (length p) + from)) with (length p + Z.to_nat from)%nat by lia. rewrite <- drop_drop, drop_app_length.
  destruct (decide (from <= Z.of_nat (length m))) as [H2|H2].
  - rewrite drop_app_le by lia. rewrite take_app_le; [done|]. rewrite length_drop. lia.
  - by replace (Z.to_nat (to - from)) with 0%nat by lia.
Qed.

Lemma page_spec s p : wf s -> 0 <= p < pages s -> page s p = page_contents (contents s) p.
Proof.
  intros Hw Hp. destruct (chunk_exists s p Hw Hp) as (c & Hc & Ho & H0 & Hl). unfold page, page_contents, contents. rewrite Hc. cbn [default].
  rewrite (concat_split _ _ _ Hc). rewrite (slice_inner (concat (take (chunk_of p) (chunks s))) c (concat (drop (S (chunk_of p)) (chunks s)))) by lia.
  rewrite Z.shiftl_mul_pow2 by lia. change (2 ^ 12) with EXTENDED_PAGE_SIZE. change PAGE with EXTENDED_PAGE_SIZE. f_equal; lia.
Qed.

Lemma length_contents s : wf s -> Z.of_nat (length (contents s)) = pages s * EXTENDED_PAGE_SIZE.
Proof.
  intros Hw. unfold contents. pose proof (ceil_div_spec (pages s) EXTENDED_CHUNK_PAGES (wf_pages s Hw) ltac:(done)) as Hd. pose proof (wf_count s Hw) as Hn.
  pose proof (wf_pages s Hw). change EXTENDED_CHUNK_PAGES with 0x40000 in *. destruct (length (chunks s)) as [|k] eqn:El.
  - apply length_zero_iff_nil in El. rewrite El. cbn. unfold EXTENDED_PAGE_SIZE. lia.
  - destruct (lookup_lt_is_Some_2 (chunks s) k ltac:(lia)) as [c Hc]. rewrite (concat_split _ _ _ Hc), !length_app.
    rewrite !Nat2Z.inj_add, (length_before s) by (done || lia). rewrite (wf_chunks s Hw _ _ Hc), drop_ge by lia.
    change EXTENDED_CHUNK_PAGES with 0x40000 in *. unfold EXTENDED_PAGE_SIZE. cbn [concat length]. lia.
Qed.

Lemma set_page_chunks p bytes s : chunks (set_page p bytes s) = alter (fun chunk => set_bytes chunk bytes (page_offset p)) (chunk_of p) (chunks s).
Proof. done. Qed.

Lemma set_bytes_inner (p m q vs : list Z) o : 0 <= o -> o + Z.of_nat (length vs) <= Z.of_nat (length m) ->
  p ++ set_bytes m vs o ++ q = set_bytes (p ++ m ++ q) vs (Z.of_nat (length p) + o).
Proof.
  intros H0 H1. unfold set_bytes. replace (Z.to_nat (Z.of_nat (length p) + o)) with (length p + Z.to_nat o)%nat by lia.
  rewrite take_app_add, take_app_le, <- !app_assoc by lia. do 3 f_equal.
  rewrite <- Nat.add_assoc, <- (drop_drop _ (Z.to_nat o + length vs) (length p)), drop_app_length. by rewrite drop_app_le by lia.
Qed.

Lemma contents_set_page s p bytes : wf s -> 0 <= p < pages s -> Z.of_nat (length bytes) = EXTENDED_PAGE_SIZE ->
  contents (set_page p bytes s) = set_bytes (contents s) bytes (p .<< 12).
Proof.
  intros Hw Hp Hb. destruct (chunk_exists s p Hw Hp) as (c & Hc & Ho & H0 & Hl). unfold contents. rewrite set_page_chunks.
  rewrite (concat_split (alter _ _ _) (chunk_of p) (set_bytes c bytes (page_offset p))) by (by rewrite list_lookup_alter_eq, Hc).
  rewrite (concat_split _ _ _ Hc). rewrite take_alter_ge, drop_alter_lt by lia. rewrite set_bytes_inner by lia. f_equal.
  rewrite Z.shiftl_mul_pow2 by lia. change (2 ^ 12) with EXTENDED_PAGE_SIZE. lia.
Qed.

(** The bitmap as a set of pages. *)
Lemma touched_testbit s p : is_touched s p = Z.testbit (arr_get (touched s) (p .>> 3)) (p .& 7).
Proof.
  unfold is_touched. pose proof (Bitmap.bit_index_bound p) as Hb. change 1 with (Z.ones 1). rewrite Z.land_ones, <- Z.bit0_mod, Z.shiftr_spec, Z.add_0_l by lia.
  by destruct (Z.testbit _ _).
Qed.

Lemma is_touched_get s p : is_touched s p = negb (Bitmap.get (Bitmap.of_buffer (touched s)) p =? 0).
Proof. done. Qed.

Lemma page_index s p : wf s -> 0 <= p < pages s -> 0 <= p < 8 * Z.of_nat (length (touched s)).
Proof. intros Hw Hp. pose proof (ceil_div_spec (pages s) 8 (wf_pages s Hw) ltac:(lia)). pose proof (wf_touched s Hw). lia. Qed.

Lemma touch_chunks p s : chunks (touch p s) = chunks s /\ pages (touch p s) = pages s /\ length (touched (touch p s)) = length (touched s).
Proof. unfold touch. destruct (is_touched s p); [done|]. cbn. by rewrite arr_set_length. Qed.

Lemma touch_get p q s : wf s -> 0 <= p < pages s -> 0 <= q -> is_touched (touch p s) q = bool_decide (q = p) || is_touched s q.
Proof.
  intros Hw Hp Hq. unfold touch. destruct (is_touched s p) eqn:E.
  - case_bool_decide as Hpq; [subst; by rewrite E|done].
  - transitivity (negb (Bitmap.get (Bitmap.set (Bitmap.of_buffer (touched s)) p true) q =? 0)); [reflexivity|].
    rewrite Bitmap.bitmap_get_set, is_touched_get by (done || by apply page_index).
    destruct (decide (p = q)) as [->|Hne]; [by rewrite bool_decide_eq_true_2|]. by rewrite bool_decide_eq_false_2 by (intros ->; done).
Qed.

Lemma touch_page p q s : page (touch p s) q = page s q.
Proof. unfold page. by destruct (touch_chunks p s) as (-> & _). Qed.

Lemma touch_wf p s : wf s -> 0 <= p < pages s -> wf (touch p s).
Proof.
  intros Hw Hp. destruct (touch_chunks p s) as (E1 & E2 & E3). pose proof Hw as [H1 H2 H3 H4 H5 H6 H7]. split; rewrite ?E1, ?E2, ?E3; try done.
  - unfold touch. destruct (is_touched s p); [done|]. cbn. apply arr_set_Forall; [done|apply u8_byte].
  - intros q Hq Ht. rewrite touch_page. apply H6; [done|]. rewrite touch_get in Ht by (done || lia). by apply orb_false_iff in Ht as [_ ?].
  - intros q Hq Ht. rewrite touch_get in Ht by done. apply orb_true_iff in Ht as [->%bool_decide_eq_true|Ht]; [lia|by apply H7].
Qed.

(** Writing a page that is marked keeps the invariant. *)
Lemma set_page_wf p bytes s : wf s -> 0 <= p < pages s -> Z.of_nat (length bytes) = EXTENDED_PAGE_SIZE ->
  is_touched s p = true \/ Forall (eq 0) bytes -> wf (set_page p bytes s).
Proof.
  intros Hw Hp Hb Ht. destruct (chunk_exists s p Hw Hp) as (c & Hc & Ho & H0 & Hl).
  assert (length (chunks (set_page p bytes s)) = length (chunks s)) as El by (rewrite set_page_chunks; apply length_alter).
  assert (forall k chunk, chunks (set_page p bytes s) !! k = Some chunk ->
    Z.of_nat (length chunk) = Z.min EXTENDED_CHUNK_PAGES (pages s - Z.of_nat k * EXTENDED_CHUNK_PAGES) * EXTENDED_PAGE_SIZE) as Hch.
  { intros k chunk Hk. rewrite set_page_chunks in Hk. destruct (decide (chunk_of p = k)) as [<-|Hne].
    - rewrite list_lookup_alter_eq, Hc in Hk. injection Hk as <-. rewrite length_set_bytes by lia. by apply (wf_chunks s Hw).
    - rewrite list_lookup_alter_ne in Hk by done. by apply (wf_chunks s Hw). }
  split; try apply Hw; [by rewrite El; apply Hw|done|]. intros q Hq Hu. change (is_touched (set_page p bytes s) q) with (is_touched s q) in Hu.
  change (pages (set_page p bytes s)) with (pages s) in Hq.
  pose proof (wf_untouched s Hw q Hq Hu) as Hz. unfold page in *. rewrite set_page_chunks.
  destruct (decide (chunk_of p = chunk_of q)) as [E|Hne]; [|by rewrite list_lookup_alter_ne by done].
  rewrite <- E in *. rewrite list_lookup_alter_eq, Hc in *. change (default [] (Some c)) with c in Hz.
  change (default [] ((fun chunk => set_bytes chunk bytes (page_offset p)) <$> Some c)) with (set_bytes c bytes (page_offset p)).
  destruct (chunk_exists s q Hw Hq) as (c' & Hc' & Ho' & H0' & Hl'). rewrite <- E, Hc in Hc'. injection Hc' as <-.
  apply Forall_lookup. intros i x Hx. unfold slice in Hx, Hz. rewrite lookup_take in Hx. case_decide as Hi; [|done].
  rewrite lookup_drop, lookup_set_bytes in Hx by lia. case_decide as Hin.
  - destruct Ht as [Ht|Hzb]; [|by eapply Forall_lookup_1; [exact Hzb|]].
    assert (p = q) as ->; [|congruence]. unfold page_offset, EXTENDED_PAGE_SIZE in *. rewrite E in Ho. lia.
  - rewrite Forall_lookup in Hz. apply (Hz i x). rewrite lookup_take_lt, lookup_drop by lia. done.
Qed.

Lemma create_wf n : 0 <= n -> wf (create n).
Proof.
  intros Hn. pose proof (ceil_div_spec n EXTENDED_CHUNK_PAGES Hn ltac:(done)). pose proof (ceil_div_spec n 8 Hn ltac:(lia)).
  assert (0 <= ceil_div n EXTENDED_CHUNK_PAGES) by (change EXTENDED_CHUNK_PAGES with 0x40000 in *; lia).
  assert (forall k chunk, chunks (create n) !! k = Some chunk ->
    chunk = replicate (Z.to_nat (Z.min EXTENDED_CHUNK_PAGES (n - Z.of_nat k * EXTENDED_CHUNK_PAGES) * EXTENDED_PAGE_SIZE)) 0
    /\ Z.of_nat k < ceil_div n EXTENDED_CHUNK_PAGES) as Hc.
  { intros k chunk Hk. cbn [create chunks] in Hk. rewrite list_lookup_fmap in Hk. destruct (seqZ 0 _ !! k) as [z|] eqn:E; [|done].
    apply lookup_seqZ in E as [-> Hlt]. injection Hk as <-. by rewrite Z.add_0_l. }
  split; cbn [pages touched create].
  - done.
  - cbn [create chunks]. rewrite length_fmap, length_seqZ. lia.
  - intros k chunk Hk. destruct (Hc k chunk Hk) as [-> Hlt]. rewrite length_replicate. change EXTENDED_CHUNK_PAGES with 0x40000 in *. unfold EXTENDED_PAGE_SIZE. lia.
  - rewrite length_replicate. lia.
  - apply Forall_replicate. unfold byte. lia.
  - intros p Hp _. unfold page, slice. destruct (chunks (create n) !! chunk_of p) as [chunk|] eqn:E; [|change (default [] (@None (list Z))) with (@nil Z); rewrite drop_nil, take_nil; constructor].
    destruct (Hc _ _ E) as [-> _]. cbn [default]. apply Forall_take, Forall_drop, Forall_replicate. done.
  - intros p Hp Ht. rewrite is_touched_get in Ht. change (Bitmap.of_buffer (touched (create n))) with (Bitmap.mk (replicate (Z.to_nat (ceil_div n 8)) 0)) in Ht.
    unfold Bitmap.get, arr_get in Ht. cbn [Bitmap.view] in Ht. destruct (replicate _ 0 !! _) as [x|] eqn:E; [apply lookup_replicate in E as [-> _]|];
      cbn [default from_option id] in Ht; rewrite Z.shiftr_0_l in Ht; done.
Qed.

(** *** Pages of the flat memory *)

Lemma page_set (C bytes : list Z) p q : 0 <= p -> 0 <= q -> (p + 1) * PAGE <= Z.of_nat (length C) -> (q + 1) * PAGE <= Z.of_nat (length C) ->
  Z.of_nat (length bytes) = PAGE ->
  page_contents (set_bytes C bytes (p .<< 12)) q = if decide (p = q) then bytes else page_contents C q.
Proof.
  intros Hp Hq HpC HqC Hb. assert (p .<< 12 = p * PAGE) as -> by (by rewrite Z.shiftl_mul_pow2 by lia).
  assert (length (set_bytes C bytes (p * PAGE)) = length C) as El by (apply length_set_bytes; unfold PAGE in *; lia).
  apply list_eq. intros i. destruct (decide (i < Z.to_nat PAGE)%nat) as [Hi|Hi].
  - rewrite lookup_page, lookup_set_bytes by (done || (unfold PAGE in *; lia)). destruct (decide (p = q)) as [->|Hne].
    + rewrite decide_True by (unfold PAGE in *; lia). f_equal. lia.
    + rewrite decide_False by (unfold PAGE in *; lia). by rewrite lookup_page by done.
  - rewrite lookup_ge_None_2 by (rewrite length_page by (done || by rewrite El); lia). symmetry. apply lookup_ge_None_2.
    case_decide; [unfold PAGE in *; lia|]. rewrite length_page by done. lia.
Qed.

Lemma page_fits s p : wf s -> 0 <= p < pages s -> (p + 1) * PAGE <= Z.of_nat (length (contents s)).
Proof. intros Hw Hp. rewrite length_contents by done. unfold PAGE, EXTENDED_PAGE_SIZE. lia. Qed.

Definition zeros : list Z := replicate (Z.to_nat EXTENDED_PAGE_SIZE) 0.

Lemma zeros_ok : Z.of_nat (length zeros) = EXTENDED_PAGE_SIZE /\ Forall (eq 0) zeros.
Proof. unfold zeros. rewrite length_replicate. split; [done|]. by apply Forall_replicate. Qed.

Lemma page_set_page s p q bytes : wf s -> 0 <= p < pages s -> 0 <= q < pages s -> Z.of_nat (length bytes) = EXTENDED_PAGE_SIZE ->
  is_touched s p = true \/ Forall (eq 0) bytes -> page (set_page p bytes s) q = if decide (p = q) then bytes else page s q.
Proof.
  intros Hw Hp Hq Hb Ht. rewrite page_spec by (done || by apply set_page_wf). rewrite contents_set_page by done.
  pose proof (page_fits s p Hw Hp). pose proof (page_fits s q Hw Hq). rewrite page_set by (done || lia). case_decide; [done|]. by rewrite page_spec.
Qed.

(** *** Clearing *)

Lemma clear_byte_bits byte l s : wf s -> 0 <= byte -> Forall (fun bit => 0 <= bit < 8) l ->
  let s' := fold_left (fun s bit => if has (arr_get (touched s) byte) (1 .<< bit) then set_page (byte * 8 + bit) zeros s else s) l s in
  wf s' /\ touched s' = touched s /\ pages s' = pages s
  /\ (forall q, 0 <= q < pages s -> Forall (eq 0) (page s q) -> Forall (eq 0) (page s' q))
  /\ (forall bit, bit ∈ l -> is_touched s (byte * 8 + bit) = true -> Forall (eq 0) (page s' (byte * 8 + bit))).
Proof.
  intros Hw Hby Hl. revert s Hw. induction Hl as [|bit l Hbit Hl IH]; intros s Hw; [split; [done|]; repeat split; auto; intros ? []%not_elem_of_nil|].
  cbn [fold_left]. assert (has (arr_get (touched s) byte) (1 .<< bit) = is_touched s (byte * 8 + bit)) as Hh.
  { rewrite touched_testbit. replace (1 .<< bit) with (2 ^ bit) by (rewrite Z.shiftl_mul_pow2; lia). rewrite has_testbit by lia.
    destruct (Bitmap.index_split (byte * 8 + bit) ltac:(lia)) as [Ei _]. pose proof (Bitmap.bit_index_bound (byte * 8 + bit)). f_equal; [f_equal|]; lia. }
  rewrite Hh. destruct (is_touched s (byte * 8 + bit)) eqn:Et.
  - assert (0 <= byte * 8 + bit < pages s) as Hr by (split; [lia|apply (wf_range s Hw); [lia|done]]). destruct zeros_ok as [Hz1 Hz2].
    destruct (IH (set_page (byte * 8 + bit) zeros s)) as (IH1 & IH2 & IH3 & IH4 & IH5); [apply set_page_wf; auto|].
    split; [done|]. split; [done|]. split; [done|]. split.
    + intros q Hq Hz. apply IH4; [done|]. rewrite page_set_page by auto. by case_decide.
    + intros b [->|Hin]%elem_of_cons Hb; [|by apply IH5]. apply IH4; [done|]. rewrite page_set_page by auto. by rewrite decide_True.
  - destruct (IH s Hw) as (IH1 & IH2 & IH3 & IH4 & IH5). split; [done|]. split; [done|]. split; [done|]. split; [done|].
    intros b [->|Hin]%elem_of_cons Hb; [congruence|by apply IH5].
Qed.

Lemma clear_byte_spec byte s : wf s -> 0 <= byte < Z.of_nat (length (touched s)) ->
  wf (clear_byte s byte) /\ pages (clear_byte s byte) = pages s /\ length (touched (clear_byte s byte)) = length (touched s)
  /\ forall q, 0 <= q -> is_touched (clear_byte s byte) q = negb (q .>> 3 =? byte) && is_touched s q.
Proof.
  intros Hw Hby. unfold clear_byte. destruct (Z.eqb_spec (arr_get (touched s) byte) 0) as [E0|E0].
  - split; [done|]. split; [done|]. split; [done|]. intros q Hq. destruct (Z.eqb_spec (q .>> 3) byte) as [Eq|]; [|done].
    rewrite touched_testbit, Eq, E0. by rewrite Z.bits_0.
  - fold zeros. destruct (clear_byte_bits byte (seqZ 0 8) s Hw ltac:(lia)) as (H1 & H2 & H3 & H4 & H5).
    { apply Forall_forall. intros x ?%elem_of_seqZ. lia. }
    set (s' := fold_left _ (seqZ 0 8) s) in *. cbv zeta.
    assert (forall q, 0 <= q -> is_touched (s' <| touched := arr_set (touched s') byte 0 |>) q = negb (q .>> 3 =? byte) && is_touched s q) as Ht.
    { intros q Hq. rewrite !touched_testbit. change (touched (s' <| touched := arr_set (touched s') byte 0 |>)) with (arr_set (touched s') byte 0).
      destruct (Bitmap.index_split q Hq) as [_ Hq3]. rewrite H2. destruct (Z.eqb_spec (q .>> 3) byte) as [->|Hne].
      - rewrite arr_get_set_eq by lia. by rewrite Z.bits_0.
      - by rewrite arr_get_set_ne by (lia || congruence). }
    split; [|split; [done|split; [cbn; by rewrite arr_set_length, H2|done]]].
    destruct H1 as [W1 W2 W3 W4 W5 W6 W7]. split; cbn [pages chunks touched]; try done.
    + change (touched (s' <| touched := arr_set (touched s') byte 0 |>)) with (arr_set (touched s') byte 0). by rewrite arr_set_length.
    + change (touched (s' <| touched := arr_set (touched s') byte 0 |>)) with (arr_set (touched s') byte 0). apply arr_set_Forall; [done|]. unfold Prelude.byte. lia.
    + intros q Hq Hu. change (page (s' <| touched := _ |>) q) with (page s' q). change (pages (s' <| touched := _ |>)) with (pages s') in Hq.
      rewrite Ht in Hu by lia. destruct (is_touched s q) eqn:Etq.
      * rewrite andb_true_r in Hu. apply negb_false_iff, Z.eqb_eq in Hu. destruct (Bitmap.index_split q ltac:(lia)) as [Eq _].
        pose proof (Bitmap.bit_index_bound q). assert (q = byte * 8 + (q .& 7)) as Eq' by lia. rewrite Eq'.
        apply H5; [apply elem_of_seqZ; lia|]. by rewrite <- Eq'.
      * apply H4; [lia|]. apply (wf_untouched s Hw); [lia|done].
    + intros q Hq Htq. rewrite Ht in Htq by done. apply andb_true_iff in Htq as [_ Htq]. change (pages (s' <| touched := _ |>)) with (pages s'). rewrite H3.
      by apply (wf_range s Hw).
Qed.

Lemma clear_loop n s : wf s -> (n <= length (touched s))%nat ->
  let s' := fold_left clear_byte (seqZ 0 (Z.of_nat n)) s in
  wf s' /\ pages s' = pages s /\ length (touched s') = length (touched s) /\ forall q, 0 <= q < 8 * Z.of_nat n -> is_touched s' q = false.
Proof.
  intros Hw. induction n as [|n IH]; intros Hn; [cbn; split; [done|split; [done|split; [done|lia]]]|]. rewrite seqZ_S, fold_left_app. cbn [fold_left]. cbv zeta in *.
  destruct (IH ltac:(lia)) as (H1 & H2 & H3 & H4). set (s1 := fold_left _ _ s) in *. rewrite Z.add_0_l.
  destruct (clear_byte_spec (Z.of_nat n) s1 H1 ltac:(lia)) as (C1 & C2 & C3 & C4). split; [done|]. split; [congruence|]. split; [congruence|].
  intros q Hq. rewrite C4 by lia. destruct (Bitmap.index_split q ltac:(lia)) as [Eq _]. pose proof (Bitmap.bit_index_bound q).
  destruct (Z.eqb_spec (q .>> 3) (Z.of_nat n)); [done|]. cbn. apply H4. lia.
Qed.

Lemma zero_contents s : wf s -> (forall q, 0 <= q < pages s -> is_touched s q = false) -> contents s = replicate (length (contents s)) 0.
Proof.
  intros Hw Hu. apply list_eq. intros i. destruct (contents s !! i) as [x|] eqn:E.
  2: { symmetry. apply lookup_replicate_None. by apply lookup_ge_None in E. }
  assert (i < length (contents s))%nat as Hi by (by apply lookup_lt_Some in E). rewrite lookup_replicate_2 by done. f_equal.
  pose proof (length_contents s Hw) as Hl. set (p := Z.of_nat i / PAGE).
  assert (0 <= p < pages s /\ p * PAGE <= Z.of_nat i < p * PAGE + PAGE) as [Hp Hip].
  { unfold p, PAGE, EXTENDED_PAGE_SIZE in *. pose proof (Z.div_mod (Z.of_nat i) 4096 ltac:(lia)). pose proof (Z.mod_pos_bound (Z.of_nat i) 4096 ltac:(lia)). lia. }
  pose proof (wf_untouched s Hw p Hp (Hu p Hp)) as Hz. rewrite page_spec in Hz by done. rewrite Forall_lookup in Hz. symmetry.
  apply (Hz (i - Z.to_nat (p * PAGE))%nat). rewrite lookup_page by (unfold PAGE in *; lia). rewrite <- E. f_equal. lia.
Qed.

Lemma clear_spec s : wf s -> wf (clear s) /\ pages (clear s) = pages s /\ contents (clear s) = replicate (length (contents s)) 0.
Proof.
  intros Hw. destruct (clear_loop (length (touched s)) s Hw ltac:(lia)) as (H1 & H2 & H3 & H4). fold (clear s) in *. split; [done|]. split; [done|].
  rewrite zero_contents by (done || (intros q Hq; apply H4; pose proof (page_index (clear s) q H1 Hq); lia)). f_equal.
  pose proof (length_contents s Hw). pose proof (length_contents (clear s) H1). rewrite H2 in *. lia.
Qed.

Lemma write_page_spec s p bytes : wf s -> 0 <= p < pages s -> Z.of_nat (length bytes) = EXTENDED_PAGE_SIZE ->
  wf (write p bytes s) /\ pages (write p bytes s) = pages s /\ contents (write p bytes s) = set_bytes (contents s) bytes (p .<< 12).
Proof.
  intros Hw Hp Hb. pose proof (touch_wf p s Hw Hp) as Ht. destruct (touch_chunks p s) as (E1 & E2 & _). unfold write.
  assert (is_touched (touch p s) p = true) as Htp by (rewrite touch_get by (done || lia); by rewrite bool_decide_eq_true_2).
  split; [apply set_page_wf; rewrite ?E2; auto|]. split; [done|]. rewrite contents_set_page by (rewrite ?E2; done). unfold contents. by rewrite E1.
Qed.

Lemma is_zero_spec s p : wf s -> 0 <= p < pages s -> is_zero s p = forallb (Z.eqb 0) (page_contents (contents s) p).
Proof.
  intros Hw Hp. unfold is_zero. rewrite <- page_spec by done. destruct (is_touched s p) eqn:E; [done|]. cbn. symmetry. apply forallb_forall.
  intros x Hx%list_elem_of_In. pose proof (wf_untouched s Hw p Hp E) as Hz. rewrite Forall_forall in Hz. by rewrite <- (Hz x Hx).
Qed.

(** C37: The paged store is a flat memory: a new store is all zeros; a page read is that page of the flat memory and counts as
    zero exactly when all its bytes are; writing a page (a restored one, or the frame of WebAssembly memory
    the CPU flushes) puts exactly these bytes in that page and changes no other byte; loading a page into a frame copies it
    there and changes nothing else, so a page flushed and loaded is the frame again; clearing makes every byte zero, although only pages marked as written
    are visited. *)
Theorem extended_refines (n p : Z) (s : t) (bytes memory : list Z) (pointer : Z) :
  0 <= n -> wf s -> 0 <= p < pages s -> Z.of_nat (length bytes) = EXTENDED_PAGE_SIZE -> u32 pointer + EXTENDED_PAGE_SIZE <= Z.of_nat (length memory) ->
  (wf (create n) /\ contents (create n) = replicate (Z.to_nat (n * EXTENDED_PAGE_SIZE)) 0)
  /\ page s p = page_contents (contents s) p /\ is_zero s p = forallb (Z.eqb 0) (page_contents (contents s) p)
  /\ (wf (write p bytes s) /\ contents (write p bytes s) = set_bytes (contents s) bytes (p .<< 12))
  /\ (wf (store p memory pointer s)
      /\ contents (store p memory pointer s) = set_bytes (contents s) (slice memory (u32 pointer) (u32 pointer + EXTENDED_PAGE_SIZE)) (p .<< 12))
  /\ (load s p memory pointer = set_bytes memory (page_contents (contents s) p) (u32 pointer) /\ load (store p memory pointer s) p memory pointer = memory)
  /\ (wf (clear s) /\ contents (clear s) = replicate (length (contents s)) 0).
Proof.
  intros Hn Hw Hp Hb Hm. split.
  { pose proof (create_wf n Hn) as Hc. split; [done|]. pose proof (length_contents (create n) Hc) as Hl. change (pages (create n)) with n in Hl.
    rewrite zero_contents; [f_equal; lia|done|]. intros q Hq. rewrite is_touched_get.
    change (Bitmap.of_buffer (touched (create n))) with (Bitmap.mk (replicate (Z.to_nat (ceil_div n 8)) 0)).
    unfold Bitmap.get, arr_get. cbn [Bitmap.view]. destruct (replicate _ 0 !! _) as [x|] eqn:E; [apply lookup_replicate in E as [-> _]|];
      cbn [default from_option id]; by rewrite Z.shiftr_0_l. }
  split; [by apply page_spec|]. split; [by apply is_zero_spec|]. split; [by destruct (write_page_spec s p bytes Hw Hp Hb) as (? & _ & ?)|].
  pose proof (Z.mod_pos_bound pointer (2 ^ 32) ltac:(lia)) as H32. fold (u32 pointer) in H32.
  set (frame := slice memory (u32 pointer) (u32 pointer + EXTENDED_PAGE_SIZE)).
  assert (Z.of_nat (length frame) = EXTENDED_PAGE_SIZE) as Hf by (unfold frame, slice, EXTENDED_PAGE_SIZE in *; rewrite length_take, length_drop; lia).
  destruct (write_page_spec s p frame Hw Hp Hf) as (W1 & W2 & W3). change (store p memory pointer s) with (write p frame s). split; [done|]. split; [|by destruct (clear_spec s Hw) as (? & _ & ?)].
  split; [unfold load; by rewrite page_spec|]. unfold load. rewrite page_spec by (rewrite ?W2; done). rewrite W3. pose proof (page_fits s p Hw Hp). rewrite page_set by (done || lia). rewrite decide_True by done.
  unfold set_bytes, frame, slice. rewrite length_take, length_drop.
  replace (Z.to_nat (u32 pointer + EXTENDED_PAGE_SIZE - u32 pointer)) with (Z.to_nat EXTENDED_PAGE_SIZE) by lia.
  replace (Z.to_nat EXTENDED_PAGE_SIZE `min` (length memory - Z.to_nat (u32 pointer)))%nat with (Z.to_nat EXTENDED_PAGE_SIZE) by (unfold EXTENDED_PAGE_SIZE in *; lia).
  rewrite <- (drop_drop memory (Z.to_nat EXTENDED_PAGE_SIZE) (Z.to_nat (u32 pointer))), take_drop. apply take_drop.
Qed.

(** Pages of nines and ones are written, then all is cleared. *)
Lemma extended_refines_witness : let s := write 1 (replicate 4096 9) (create 3) in
  wf s /\ contents s = set_bytes (contents (create 3)) (replicate 4096 9) 4096
  /\ contents (store 2 (replicate 4096 1) 0 s) = set_bytes (contents s) (replicate 4096 1) 8192
  /\ contents (clear s) = replicate (length (contents s)) 0.
Proof.
  intros s. destruct (write_page_spec (create 3) 1 (replicate 4096 9)) as (Hw & Hp & Hc); [apply create_wf; lia|cbn [create pages]; lia|done|]. fold s in Hw, Hp, Hc.
  destruct (extended_refines 3 2 s zeros (replicate 4096 1) 0) as (_ & _ & _ & _ & [_ H1] & _ & [_ H2]).
  - lia.
  - exact Hw.
  - rewrite Hp. cbn [create pages]. lia.
  - exact (proj1 zeros_ok).
  - rewrite length_replicate. vm_compute. discriminate.
  - split; [exact Hw|]. split; [exact Hc|]. split; [exact H1|exact H2].
Defined.

End Extended.
