(* ===== verification/Stream.v ===== *)
(** * Streamed snapshots ([state.js], version 7)

    The writer [create_state_stream]: a header, a manifest and checked records of at
    most 1 MiB, pulled one at a time; guest memory is packed page by page.  The
    reader [restore_state_stream]: a first pass checks everything, a second one writes guest
    memory.  The source is an immutable list of bytes (a [Blob]); sources with a [read]
    method of their own, which may change between the passes, are not modelled.  What the machine does with the
    restored state at the end, [cpu.set_state], is a parameter that may throw. *)

From S2P Require Import Prelude Lib Text Json Crc State Extended.

Import Text Json Crc State.

Open Scope js_scope.

Module Stream.

Definition STATE_STREAM_CHUNK_SIZE : Z := 1024 * 1024.
Definition STREAM_VERSION : Z := 7.
Definition STREAM_HEADER_SIZE : Z := 32.
Definition STREAM_RECORD_SIZE : Z := 20.
Definition STREAM_RAM_CHUNK : Z := STATE_STREAM_CHUNK_SIZE - 4096.
Definition STREAM_INFO_LIMIT : Z := 16 * 1024 * 1024.

(** The messages of [stream_error], and errors of [save_object], [validate_state] and [JSON.parse]. *)
Inductive stream_error :=
| RamSize | ManifestTooLarge | TruncatedRecord | HeaderVersion | ManifestRamSize | ManifestChecksum | ManifestJson | BufferLengths
| ExtendedRamSize | TotalLength | StateNesting | TypedBufferReference | RecordChecksum | RamBitmap | BitmapBeyondRam | BitmapCount
| ExtendedRamBitmap | ExtendedBitmapBeyondRam | ExtendedBitmapCount | SourceChanged | InvalidState | CannotSave.

Definition outcome (A : Type) : Type := sum stream_error A.
#[export] Instance outcome_ret : MRet (sum stream_error) := fun _ a => inr a.
#[export] Instance outcome_bind : MBind (sum stream_error) := fun _ _ k m => match m with inl e => inl e | inr a => k a end.
Definition check (b : bool) (e : stream_error) : outcome unit := if b then inr tt else inl e.
Definition need {A} (e : stream_error) (o : option A) : outcome A := match o with Some a => inr a | None => inl e end.

(** The parts of the machine a stream reads and writes.  [state] is what [get_state(true)] returns, at least 100 entries;
    the extended store is that after [x64_ext_flush]. *)
Record machine := mk {
  memory_size : Z;
  mem8 : list Z;
  extended_store : option Extended.t;
  state : list value
}.
Definition extended_pages (cpu : machine) : Z := match extended_store cpu with Some e => Extended.pages e | None => 0 end.

(** A record: kind, id, offset, length, data, checksum. *)
Definition stream_record (kind id offset : Z) (data : list Z) : list Z :=
  let bytes := bytes32 kind ++ bytes32 id ++ bytes32 offset ++ bytes32 (Z.of_nat (length data)) ++ data in
  bytes ++ bytes32 (stream_crc 0 bytes).

(** [bitmap[page >> 3] |= 1 << (page & 7)] and [bitmap[page >> 3] & 1 << (page & 7)] *)
Definition set_bit (bitmap : list Z) (page : Z) : list Z :=
  arr_set bitmap (page .>> 3) (u8 (arr_get bitmap (page .>> 3) .| (1 .<< (page .& 7)))).
Definition test_bit (bitmap : list Z) (page : Z) : bool := has (arr_get bitmap (page .>> 3)) (1 .<< (page .& 7)).

(** The bitmap of the pages below [n] for which [zeroed] is false, and their number. *)
Definition page_bitmap (n : Z) (zeroed : Z -> bool) : list Z * Z :=
  fold_left (fun '(bitmap, count) page => if zeroed page then (bitmap, count) else (set_bit bitmap page, count + 1))
    (seqZ 0 n) (replicate (Z.to_nat (Extended.ceil_div n 8)) 0, 0).

(** *** The writer *)

Definition BUFFERS : text := text_of "buffers".
Definition EXTENDED_PAGES : text := text_of "extended_pages".

(** The variables of the closure [next]. *)
Record stream := mk_stream {
  header : list Z;
  manifest : list Z;
  bufs : buffers;
  ram : list Z;
  bitmap : list Z;
  packed_size : Z;
  extended : option Extended.t;
  extended_bitmap : list Z;
  extended_size : Z;
  phase : Z;
  position : Z;
  buffer_id : Z;
  ram_page : Z;
  extended_page : Z
}.

Definition manifest_json (st : json) (b : buffers) (extended_packed : Z) : json :=
  JObj [(STATE, st); (BUFFERS, JArr (map (fun buffer => JNum (Z.of_nat (length buffer)) 0) b)); (EXTENDED_PAGES, JNum extended_packed 0)].

(** The state as it is saved: no packed memory, the bitmaps. *)
Definition saved_state (cpu : machine) (bitmap : list Z) (extended_bitmap : option (list Z)) : value :=
  VArray (<[99%nat := match extended_bitmap with Some b => VTyped Uint8Array b | None => VNull end]>
    (<[78%nat := VTyped Uint8Array bitmap]> (<[77%nat := VNull]> (state cpu)))).

Definition create_state_stream (cpu : machine) : outcome stream :=
  let ms := memory_size cpu in
  _ ← check (negb ((Z.of_nat (length (mem8 cpu)) <? ms) || negb (ms mod 4096 =? 0))) RamSize;
  let '(bm, count) := page_bitmap (ms / 4096) (fun page => is_memory_zeroed (mem8 cpu) (page * 4096) 4096) in
  let packed := count * 4096 in
  let '(ebm, extended_packed) := match extended_store cpu with
    | Some e => let '(ebm, count) := page_bitmap (Extended.pages e) (Extended.is_zero e) in (Some ebm, count)
    | None => (None, 0) end in
  '(st, b) ← need CannotSave (save_object (saved_state cpu bm ebm) []);
  let manifest := json_bytes (manifest_json st b extended_packed) in
  _ ← check (Z.of_nat (length manifest) <=? STREAM_INFO_LIMIT) ManifestTooLarge;
  let header := concat (map bytes32 [STATE_MAGIC; STREAM_VERSION; STATE_STREAM_CHUNK_SIZE; Z.of_nat (length manifest);
    Z.of_nat (length b); ms; packed; stream_crc 0 manifest]) in
  inr (mk_stream header manifest b (mem8 cpu) bm packed (extended_store cpu) (default [] ebm) (extended_packed * 4096) 0 0 0 0 0).

(** [while(!(bitmap[page >> 3] & 1 << (page & 7))) page++]: a page of the bitmap is a step. *)
Fixpoint find_page (fuel : nat) (bitmap : list Z) (page : Z) : Z :=
  match fuel with
  | O => page
  | S fuel => if test_bit bitmap page then page else find_page fuel bitmap (page + 1)
  end.
Definition next_page (bitmap : list Z) (page : Z) : Z := find_page (8 * length bitmap) bitmap page.

(** The pages of one record: the data and the page after the last. *)
Fixpoint gather (n : nat) (bitmap : list Z) (contents : Z -> list Z) (page : Z) : list Z * Z :=
  match n with
  | O => ([], page)
  | S n =>
      let page := next_page bitmap page in
      let '(data, page') := gather n bitmap contents (page + 1) in
      (contents page ++ data, page')
  end.

Definition pages_in (length : Z) : nat := Z.to_nat (Extended.ceil_div length 4096).

(** The bytes of a page of RAM, and of a page of extended RAM. *)
Definition ram_contents (s : stream) (page : Z) : list Z := slice (ram s) (page * 4096) ((page + 1) * 4096).
Definition extended_contents (s : stream) (page : Z) : list Z := match extended s with Some e => Extended.page e page | None => [] end.

Definition next_extended (s : stream) : option (list Z) * stream :=
  if position s =? extended_size s then (None, s)
  else
    let length := Z.min STREAM_RAM_CHUNK (extended_size s - position s) in
    let '(data, page) := gather (pages_in length) (extended_bitmap s) (extended_contents s) (extended_page s) in
    (Some (stream_record 3 (position s / 0x100000000) (u32 (position s)) data), s <| extended_page := page |> <| position := position s + length |>).

Definition next_ram (s : stream) : option (list Z) * stream :=
  if position s <? packed_size s then
    let length := Z.min STREAM_RAM_CHUNK (packed_size s - position s) in
    let '(data, page) := gather (pages_in length) (bitmap s) (ram_contents s) (ram_page s) in
    (Some (stream_record 2 0 (position s) data), s <| ram_page := page |> <| position := position s + length |>)
  else next_extended (s <| phase := 4 |> <| position := 0 |>).

(** The loop over buffers; a buffer is a step. *)
Fixpoint next_buffer (fuel : nat) (s : stream) : option (list Z) * stream :=
  match bufs s !! Z.to_nat (buffer_id s), fuel with
  | Some buffer, S fuel =>
      if position s <? Z.of_nat (length buffer) then
        let data := slice buffer (position s) (position s + STATE_STREAM_CHUNK_SIZE - STREAM_RECORD_SIZE) in
        (Some (stream_record 1 (buffer_id s) (position s) data), s <| position := position s + Z.of_nat (length data) |>)
      else next_buffer fuel (s <| buffer_id := buffer_id s + 1 |> <| position := 0 |>)
  | _, _ => next_ram (s <| phase := 3 |> <| position := 0 |>)
  end.

Definition next_manifest (s : stream) : option (list Z) * stream :=
  if position s <? Z.of_nat (length (manifest s)) then
    let part := slice (manifest s) (position s) (position s + STATE_STREAM_CHUNK_SIZE) in
    (Some part, s <| position := position s + Z.of_nat (length part) |>)
  else next_buffer (length (bufs s)) (s <| phase := 2 |> <| position := 0 |>).

Definition next (s : stream) : option (list Z) * stream :=
  if phase s =? 0 then (Some (header s), s <| phase := 1 |>)
  else if phase s =? 1 then next_manifest s
  else if phase s =? 2 then next_buffer (length (bufs s)) s
  else if phase s =? 3 then next_ram s
  else next_extended s.

(** [save_state_stream]: the chunks until [null]; [None] when [fuel] ends first. *)
Fixpoint pull (fuel : nat) (s : stream) : option (list (list Z)) :=
  match fuel with
  | O => None
  | S fuel =>
      match next s with
      | (Some chunk, s) => rest ← pull fuel s; Some (chunk :: rest)
      | (None, _) => Some []
      end
  end.
Definition save_state_stream (fuel : nat) (cpu : machine) : outcome (option (list (list Z))) :=
  s ← create_state_stream cpu; inr (pull fuel s).

(** *** The reader *)

Definition stream_read (source : list Z) (offset length_ : Z) : outcome (list Z) :=
  _ ← check (negb ((STATE_STREAM_CHUNK_SIZE <? length_) || (Z.of_nat (length source) <? offset + length_))) TruncatedRecord;
  inr (slice source offset (offset + length_)).

(** A typed array whose buffer has whole elements. *)
Definition typed_reference (l : list (text * json)) (lengths : list Z) : bool :=
  match member STATE_TYPE l, member BUFFER_ID l with
  | Some (JStr type), Some (JNum id 0) =>
      match CONSTRUCTOR_TABLE type with
      | Some (Some t) => (0 <=? id) && (id <? Z.of_nat (length lengths)) && (arr_get lengths id mod BYTES_PER_ELEMENT t =? 0)
      | _ => false
      end
  | _, _ => false
  end.

(** The levels of nesting left: 256 below the root, and the one that is refused. *)
Definition DEPTH : nat := 257.

Fixpoint validate_stream_tree (depth : nat) (obj : json) (lengths : list Z) : outcome unit :=
  match depth with
  | O => inl StateNesting
  | S depth =>
      let children := fix go (l : list json) : outcome unit :=
        match l with
        | [] => inr tt
        | x :: l => _ ← validate_stream_tree depth x lengths; go l
        end in
      match obj with
      | JArr l => children l
      | JObj l =>
          match member STATE_TYPE l, member ARGS l with
          | Some (JStr type), Some (JArr args) =>
              if decide (type = text_of "Map") then validate_stream_tree depth (JArr args) lengths
              else check (typed_reference l lengths) TypedBufferReference
          | _, _ => check (typed_reference l lengths) TypedBufferReference
          end
      | _ => inr tt
      end
  end.

(** [read_record] at [position]; gives the record and the position after it. *)
Definition read_record (source : list Z) (position kind id offset length_ : Z) : outcome (list Z * Z) :=
  bytes ← stream_read source position (STREAM_RECORD_SIZE + length_);
  _ ← check ((word32 bytes 0 =? kind) && (word32 bytes 4 =? id) && (word32 bytes 8 =? offset) && (word32 bytes 12 =? length_)
             && (word32 bytes (16 + length_) =? stream_crc 0 (slice bytes 0 (16 + length_)))) RecordChecksum;
  inr (bytes, position + Z.of_nat (length bytes)).

(** The offsets of [for(offset = 0; offset < total; offset += step)]. *)
Definition offsets (step total : Z) : list Z := map (fun k => k * step) (seqZ 0 (Extended.ceil_div total step)).

(** The data of the records of [total] bytes, [step] bytes each. *)
Fixpoint read_records (source : list Z) (step total kind : Z) (id : Z -> Z) (offset : Z -> Z) (os : list Z) (position : Z)
    : outcome (list (list Z) * Z) :=
  match os with
  | [] => inr ([], position)
  | o :: os =>
      '(bytes, position) ← read_record source position kind (id o) (offset o) (Z.min step (total - o));
      '(rest, position) ← read_records source step total kind id offset os position;
      inr (bytes :: rest, position)
  end.

Definition BUFFER_STEP : Z := STATE_STREAM_CHUNK_SIZE - STREAM_RECORD_SIZE.
Definition record_data (record : list Z) : list Z := slice record 16 (Z.of_nat (length record) - 4).

Fixpoint read_stream_buffers (source : list Z) (id : Z) (lengths : list Z) (position : Z) : outcome (buffers * Z) :=
  match lengths with
  | [] => inr ([], position)
  | length :: lengths =>
      '(records, position) ← read_records source BUFFER_STEP length 1 (fun _ => id) (fun o => o) (offsets BUFFER_STEP length) position;
      '(rest, position) ← read_stream_buffers source (id + 1) lengths position;
      inr (concat (map record_data records) :: rest, position)
  end.

(** The pages of a bitmap: all below [limit], [count] of them. *)
Fixpoint count_pages (bitmap : list Z) (limit : Z) (beyond : stream_error) (ps : list Z) (n : Z) : outcome Z :=
  match ps with
  | [] => inr n
  | p :: ps =>
      if test_bit bitmap p then (if limit <=? p then inl beyond else count_pages bitmap limit beyond ps (n + 1))
      else count_pages bitmap limit beyond ps n
  end.
Definition check_bitmap (bitmap : list Z) (limit count : Z) (beyond wrong : stream_error) : outcome unit :=
  n ← count_pages bitmap limit beyond (seqZ 0 (8 * Z.of_nat (length bitmap))) 0;
  check (n =? count) wrong.

Definition ram_records (source : list Z) (packed_size position : Z) : outcome (list (list Z) * Z) :=
  read_records source STREAM_RAM_CHUNK packed_size 2 (fun _ => 0) (fun o => o) (offsets STREAM_RAM_CHUNK packed_size) position.
Definition extended_records (source : list Z) (extended_size position : Z) : outcome (list (list Z) * Z) :=
  read_records source STREAM_RAM_CHUNK extended_size 3 (fun o => o / 0x100000000) u32 (offsets STREAM_RAM_CHUNK extended_size) position.

(** What the first pass finds: the state, both bitmaps, where the records of memory start, their checksums. *)
Record checked := mk_checked {
  restored : value;
  ram_bitmap : list Z;
  ram_size : Z;
  ram_packed : Z;
  ext_bitmap : list Z;
  ext_size : Z;
  ram_start : Z;
  checksums : list Z
}.

Definition record_checksum (record : list Z) : Z := word32 record (Z.of_nat (length record) - 4).

Definition number (e : stream_error) (j : option json) : outcome Z := match j with Some (JNum m 0) => inr m | _ => inl e end.
Fixpoint numbers (e : stream_error) (l : list json) : outcome (list Z) :=
  match l with
  | [] => inr []
  | j :: l => n ← number e (Some j); ns ← numbers e l; inr (n :: ns)
  end.

Definition MAX_SAFE_INTEGER : Z := 2 ^ 53 - 1.

(** The values that [||] passes over. *)
Definition falsy (v : value) : bool :=
  match v with
  | VUndefined | VNull | VBool false => true
  | VNum m _ => m =? 0
  | VStr s => match s with [] => true | _ => false end
  | _ => false
  end.

(** The parts of the manifest. *)
Fixpoint read_manifest (source : list Z) (info_size : Z) (os : list Z) : outcome (list (list Z)) :=
  match os with
  | [] => inr []
  | o :: os =>
      part ← stream_read source (STREAM_HEADER_SIZE + o) (Z.min STATE_STREAM_CHUNK_SIZE (info_size - o));
      rest ← read_manifest source info_size os;
      inr (part :: rest)
  end.

(** Everything before the first change of the machine. *)
Definition first_pass (validate : value -> bool) (cpu : machine) (source : list Z) : outcome checked :=
  header ← stream_read source 0 STREAM_HEADER_SIZE;
  _ ← check ((word32 header 0 =? u32 STATE_MAGIC) && (word32 header 4 =? STREAM_VERSION) && (word32 header 8 =? STATE_STREAM_CHUNK_SIZE)) HeaderVersion;
  let info_size := word32 header 12 in
  let buffer_count := word32 header 16 in
  let memory_size := word32 header 20 in
  let packed_size := word32 header 24 in
  _ ← check (negb ((info_size =? 0) || (STREAM_INFO_LIMIT <? info_size) || (Z.of_nat (length (mem8 cpu)) <? memory_size) || negb (memory_size mod 4096 =? 0)
                   || (memory_size <? packed_size) || negb (packed_size mod 4096 =? 0))) ManifestRamSize;
  parts ← read_manifest source info_size (offsets STATE_STREAM_CHUNK_SIZE info_size);
  let manifest := concat parts in
  _ ← check (stream_crc 0 manifest =? word32 header 28) ManifestChecksum;
  info ← need ManifestJson (decode_fatal manifest ≫= parse);
  let info := match info with JObj l => l | _ => [] end in
  lengths ← match member BUFFERS info with Some (JArr l) => numbers BufferLengths l | _ => inl BufferLengths end;
  _ ← check (negb (negb (Z.of_nat (length lengths) =? buffer_count) || (65536 <? buffer_count)
                   || existsb (fun length => (MAX_SAFE_INTEGER <? Z.abs length) || (length <? 0) || (0xFFFFFFFF <? length)) lengths)) BufferLengths;
  let total := fold_left (fun total length => total + length + Extended.ceil_div length BUFFER_STEP * STREAM_RECORD_SIZE) lengths (STREAM_HEADER_SIZE + info_size) in
  let total := total + packed_size + Extended.ceil_div packed_size STREAM_RAM_CHUNK * STREAM_RECORD_SIZE in
  extended_packed ← match member EXTENDED_PAGES info with None => inr 0 | j => number ExtendedRamSize j end;
  _ ← check (negb ((MAX_SAFE_INTEGER <? Z.abs extended_packed) || (extended_packed <? 0) || (extended_pages cpu <? extended_packed))) ExtendedRamSize;
  let extended_size := extended_packed * 4096 in
  let total := total + extended_size + Extended.ceil_div extended_size STREAM_RAM_CHUNK * STREAM_RECORD_SIZE in
  _ ← check (total =? Z.of_nat (length source)) TotalLength;
  let tree := default JNull (member STATE info) in
  _ ← validate_stream_tree DEPTH tree lengths;
  '(b, position) ← read_stream_buffers source 0 lengths (STREAM_HEADER_SIZE + info_size);
  restored ← need InvalidState (restore_buffers tree b);
  '(entries, bitmap) ← match restored with
    | VArray l =>
        match l !! 0%nat, l !! 77%nat, l !! 78%nat with
        | Some (VNum m 0), Some VNull, Some (VTyped Uint8Array bitmap) =>
            if (m =? memory_size) && (Z.of_nat (length bitmap) =? Extended.ceil_div (memory_size / 4096) 8) then inr (l, bitmap) else inl RamBitmap
        | _, _, _ => inl RamBitmap
        end
    | _ => inl RamBitmap
    end;
  _ ← check_bitmap bitmap (memory_size / 4096) (packed_size / 4096) BitmapBeyondRam BitmapCount;
  let extended_bitmap := match entries !! 99%nat with Some v => if falsy v then None else Some v | None => None end in
  ebm ← match extended_bitmap with
    | None => if extended_packed =? 0 then inr [] else inl ExtendedRamBitmap
    | Some (VTyped Uint8Array ebm) =>
        if Z.of_nat (length ebm) =? Extended.ceil_div (extended_pages cpu) 8 then
          _ ← check_bitmap ebm (extended_pages cpu) extended_packed ExtendedBitmapBeyondRam ExtendedBitmapCount; inr ebm
        else inl ExtendedRamBitmap
    | Some _ => inl ExtendedRamBitmap
    end;
  _ ← check (validate restored) InvalidState;
  '(ram, position') ← ram_records source packed_size position;
  '(ext, _) ← extended_records source extended_size position';
  inr (mk_checked restored bitmap memory_size packed_size ebm extended_size position (map record_checksum (ram ++ ext))).

(** *** The second pass *)

(** The pages of a record into their places. *)
Fixpoint scatter_pages {A} (n : nat) (bitmap : list Z) (write : Z -> list Z -> A -> A) (data : list Z) (page : Z) (m : A) : A * Z :=
  match n with
  | O => (m, page)
  | S n =>
      let page := next_page bitmap page in
      scatter_pages n bitmap write (drop 4096 data) (page + 1) (write page (take 4096 data) m)
  end.

(** The loop over the records of one kind: read again, compare with the checksum of the first pass, write. *)
Fixpoint write_records {A} (source : list Z) (total kind : Z) (id offset : Z -> Z) (bitmap : list Z) (write : Z -> list Z -> A -> A)
    (os checksums : list Z) (position page : Z) (m : A) : A * outcome (Z * list Z) :=
  match os with
  | [] => (m, inr (position, checksums))
  | o :: os =>
      let length := Z.min STREAM_RAM_CHUNK (total - o) in
      match read_record source position kind (id o) (offset o) length, checksums with
      | inl e, _ => (m, inl e)
      | inr (bytes, position), c :: checksums =>
          if word32 bytes (16 + length) =? c then
            let '(m, page) := scatter_pages (pages_in length) bitmap write (record_data bytes) page m in
            write_records source total kind id offset bitmap write os checksums position page m
          else (m, inl SourceChanged)
      | inr _, [] => (m, inl SourceChanged)
      end
  end.

Definition write_ram (page : Z) (data : list Z) (m : list Z) : list Z := set_bytes m data (page * 4096).

Definition clear_extended_memory (cpu : machine) : machine := cpu <| extended_store := Extended.clear <$> extended_store cpu |>.
Definition write_extended (page : Z) (data : list Z) (e : option Extended.t) : option Extended.t := Extended.write page data <$> e.

Definition second_pass (c : checked) (cpu : machine) (source : list Z) : machine * outcome value :=
  let cpu := cpu <| mem8 := zero_memory (mem8 cpu) 0 (ram_size c) |> in
  let '(m, r) := write_records source (ram_packed c) 2 (fun _ => 0) (fun o => o) (ram_bitmap c) write_ram
    (offsets STREAM_RAM_CHUNK (ram_packed c)) (checksums c) (ram_start c) 0 (mem8 cpu) in
  let cpu := cpu <| mem8 := m |> in
  match r with
  | inl e => (cpu, inl e)
  | inr (position, checksums) =>
      let cpu := clear_extended_memory cpu in
      let '(e, r) := write_records source (ext_size c) 3 (fun o => o / 0x100000000) u32 (ext_bitmap c) write_extended
        (offsets STREAM_RAM_CHUNK (ext_size c)) checksums position 0 (extended_store cpu) in
      let cpu := cpu <| extended_store := e |> in
      match r with
      | inl e => (cpu, inl e)
      | inr _ => (cpu, inr (restored c))
      end
  end.

(** How the promise of [restore_state_stream] ends: resolved, rejected with an error of this file, or with one that the
    machine's [set_state] threw. *)
Inductive ending := Restored | Failed (e : stream_error) | SetStateThrew.

(** [set_state]: the machine after [cpu.set_state(state, true)], and whether it returned. *)
Definition restore_state_stream (validate : value -> bool) (set_state : value -> machine -> machine * bool)
    (cpu : machine) (source : list Z) : machine * ending :=
  match first_pass validate cpu source with
  | inl e => (cpu, Failed e)
  | inr c =>
      match second_pass c cpu source with
      | (cpu, inl e) => (cpu, Failed e)
      | (cpu, inr state) => let '(cpu, returned) := set_state state cpu in (cpu, if returned then Restored else SetStateThrew)
      end
  end.

(** ** Bitmaps of pages *)

Lemma test_bit_get bm p : test_bit bm p = negb (Bitmap.get (Bitmap.of_buffer bm) p =? 0).
Proof.
  pose proof (Bitmap.bit_index_bound p). unfold test_bit. rewrite Bitmap.get_testbit. cbn [Bitmap.of_buffer Bitmap.view].
  replace (1 .<< (p .& 7)) with (2 ^ (p .& 7)) by (rewrite Z.shiftl_mul_pow2; lia). rewrite has_testbit by lia. by destruct (Z.testbit _ _).
Qed.

Lemma test_set_bit bm p q : 0 <= p < 8 * Z.of_nat (length bm) -> 0 <= q -> test_bit (set_bit bm p) q = bool_decide (q = p) || test_bit bm q.
Proof.
  intros Hp Hq. rewrite !test_bit_get. change (Bitmap.of_buffer (set_bit bm p)) with (Bitmap.set (Bitmap.of_buffer bm) p true).
  rewrite Bitmap.bitmap_get_set by done. destruct (decide (p = q)) as [->|Hne]; [by rewrite bool_decide_eq_true_2|].
  by rewrite bool_decide_eq_false_2 by (intros ->; done).
Qed.

Lemma length_set_bit bm p : length (set_bit bm p) = length bm.
Proof. apply arr_set_length. Qed.

(** The pages for which [zeroed] is false, below [n]. *)
Definition page_list (n : Z) (zeroed : Z -> bool) : list Z := filter (fun p => zeroed p = false) (seqZ 0 n).

Lemma page_bitmap_spec n zeroed : 0 <= n -> let r := page_bitmap n zeroed in
  Z.of_nat (length r.1) = Extended.ceil_div n 8 /\ Forall byte r.1 /\ r.2 = Z.of_nat (length (page_list n zeroed))
  /\ forall p, 0 <= p -> test_bit r.1 p = bool_decide (p < n) && negb (zeroed p).
Proof.
  intros Hn. pose proof (Extended.ceil_div_spec n 8 Hn ltac:(lia)) as Hc. set (bm0 := replicate (Z.to_nat (Extended.ceil_div n 8)) 0).
  assert (forall k, Z.of_nat k <= n ->
    let r := fold_left (fun '(bitmap, count) page => if zeroed page then (bitmap, count) else (set_bit bitmap page, count + 1)) (seqZ 0 (Z.of_nat k)) (bm0, 0) in
    length r.1 = length bm0 /\ Forall byte r.1 /\ r.2 = Z.of_nat (length (page_list (Z.of_nat k) zeroed))
    /\ forall p, 0 <= p -> test_bit r.1 p = bool_decide (p < Z.of_nat k) && negb (zeroed p)) as H.
  { induction k as [|k IH]; intros Hk.
    - cbn. split; [done|]. split; [unfold bm0; apply Forall_replicate; unfold byte; lia|]. split; [done|]. intros p Hp. rewrite bool_decide_eq_false_2 by lia. cbn.
      unfold test_bit. assert (forall i, arr_get bm0 i = 0) as -> by (intros i; apply arr_get_Forall; [done|by apply Forall_replicate]). done.
    - rewrite seqZ_S, fold_left_app. cbn [fold_left]. cbv zeta in *. destruct (IH ltac:(lia)) as (H1 & H2 & H3 & H4).
      unfold page_list. rewrite seqZ_S, filter_app, length_app. fold (page_list (Z.of_nat k) zeroed). rewrite Z.add_0_l.
      destruct (fold_left _ (seqZ 0 (Z.of_nat k)) (bm0, 0)) as [bm count]. cbn [fst snd] in *.
      destruct (zeroed (Z.of_nat k)) eqn:Ez; cbn [fst snd].
      + split; [done|]. split; [done|]. rewrite filter_cons_False by (by rewrite Ez). split; [cbn; lia|]. intros p Hp. rewrite H4 by done.
        destruct (decide (p = Z.of_nat k)) as [->|Hne]; [rewrite Ez; by rewrite !andb_false_r|]. f_equal. apply bool_decide_ext. clear -Hne. lia.
      + split; [by rewrite length_set_bit|]. split; [apply arr_set_Forall; [done|apply u8_byte]|]. rewrite filter_cons_True by done.
        split; [cbn; lia|]. intros p Hp. rewrite test_set_bit by (try done; rewrite H1; unfold bm0; rewrite length_replicate; lia). rewrite H4 by done.
        destruct (decide (p = Z.of_nat k)) as [->|Hne].
        * rewrite Ez, (bool_decide_eq_true_2 (Z.of_nat k = Z.of_nat k)) by done. by rewrite (bool_decide_eq_true_2 (Z.of_nat k < Z.of_nat (S k))) by lia.
        * rewrite (bool_decide_eq_false_2 (p = _)) by done. cbn. f_equal. apply bool_decide_ext. lia. }
  specialize (H (Z.to_nat n) ltac:(lia)). rewrite Z2Nat.id in H by done. cbv zeta in *. unfold page_bitmap. fold bm0.
  destruct H as (H1 & H2 & H3 & H4). split; [rewrite H1; unfold bm0; rewrite length_replicate; lia|]. done.
Qed.

(** The set pages from [page] on. *)
Definition rest_pages (bm : list Z) (page : Z) : list Z := filter (fun p => test_bit bm p = true) (seqZ page (8 * Z.of_nat (length bm) - page)).

Lemma find_page_spec fuel bm page p l : 0 <= page -> 8 * Z.of_nat (length bm) - page <= Z.of_nat fuel -> rest_pages bm page = p :: l ->
  find_page fuel bm page = p /\ page <= p /\ rest_pages bm (p + 1) = l.
Proof.
  revert page. induction fuel as [|fuel IH]; intros page Hp Hf Hr; unfold rest_pages in Hr.
  - rewrite seqZ_nil in Hr by lia. done.
  - destruct (decide (8 * Z.of_nat (length bm) - page <= 0)) as [Hle|Hle]; [rewrite seqZ_nil in Hr by lia; discriminate Hr|].
    rewrite seqZ_cons in Hr by lia. cbn [find_page]. destruct (test_bit bm page) eqn:Et.
    + rewrite filter_cons_True in Hr by done. injection Hr as <- <-. split; [done|]. split; [lia|]. unfold rest_pages. do 2 f_equal; lia.
    + rewrite filter_cons_False in Hr by (by rewrite Et). replace (Z.succ page) with (page + 1) in Hr by lia.
      replace (Z.pred (8 * Z.of_nat (length bm) - page)) with (8 * Z.of_nat (length bm) - (page + 1)) in Hr by lia.
      destruct (IH (page + 1) ltac:(lia) ltac:(lia) Hr) as (H1 & H2 & H3). split; [done|]. split; [lia|done].
Qed.

Lemma next_page_spec bm page p l : 0 <= page -> rest_pages bm page = p :: l -> next_page bm page = p /\ page <= p /\ rest_pages bm (p + 1) = l.
Proof. intros Hp Hr. apply find_page_spec; [done|lia|done]. Qed.

Lemma gather_spec bm contents l1 l2 : forall page, 0 <= page -> rest_pages bm page = l1 ++ l2 ->
  exists page', gather (length l1) bm contents page = (concat (map contents l1), page') /\ 0 <= page' /\ rest_pages bm page' = l2.
Proof.
  induction l1 as [|p l1 IH]; intros page Hp Hr; [by exists page|]. cbn [length gather]. cbv zeta.
  destruct (next_page_spec bm page p (l1 ++ l2) Hp Hr) as (-> & Hle & Hr'). destruct (IH (p + 1) ltac:(lia) Hr') as (page' & -> & H1 & H2).
  by exists page'.
Qed.

Lemma scatter_pages_spec {A} bm (write : Z -> list Z -> A -> A) contents l1 l2 : forall page m, 0 <= page -> rest_pages bm page = l1 ++ l2 ->
  Forall (fun p => length (contents p) = 4096%nat) l1 ->
  exists page', scatter_pages (length l1) bm write (concat (map contents l1)) page m = (fold_left (fun m p => write p (contents p) m) l1 m, page')
    /\ 0 <= page' /\ rest_pages bm page' = l2.
Proof.
  induction l1 as [|p l1 IH]; intros page m Hp Hr Hl; [by exists page|]. inversion Hl as [|? ? Hl1 Hl2]; subst. cbn [length scatter_pages map concat]. cbv zeta.
  destruct (next_page_spec bm page p (l1 ++ l2) Hp Hr) as (-> & Hle & Hr'). rewrite drop_app_length', take_app_length' by done.
  destruct (IH (p + 1) (write p (contents p) m) ltac:(lia) Hr' Hl2) as (page' & -> & H1 & H2). by exists page'.
Qed.

(** The bitmap of a list of pages has these pages. *)
Lemma rest_pages_all n zeroed : 0 <= n -> rest_pages (page_bitmap n zeroed).1 0 = page_list n zeroed.
Proof.
  intros Hn. destruct (page_bitmap_spec n zeroed Hn) as (H1 & _ & _ & H4). cbv zeta in *. pose proof (Extended.ceil_div_spec n 8 Hn ltac:(lia)) as Hc.
  unfold rest_pages, page_list. rewrite Z.sub_0_r. replace (8 * Z.of_nat (length (page_bitmap n zeroed).1)) with (n + (8 * Z.of_nat (length (page_bitmap n zeroed).1) - n)) by lia.
  rewrite seqZ_app by lia. rewrite filter_app. rewrite (list_filter_ext_in _ (fun p => zeroed p = false) (seqZ 0 n)).
  - replace (filter _ (seqZ (0 + n) _)) with (@nil Z); [apply app_nil_r|]. symmetry. rewrite (list_filter_ext_in _ (fun _ => False)).
    + induction (seqZ (0 + n) _) as [|x l IH]; [done|]. rewrite filter_cons_False by (by intros []). exact IH.
    + intros p Hp%elem_of_seqZ. rewrite H4 by lia. by rewrite bool_decide_eq_false_2 by lia.
  - intros p Hp%elem_of_seqZ. rewrite H4 by lia. rewrite bool_decide_eq_true_2 by lia. cbn. by destruct (zeroed p).
Qed.

(** ** Nothing changes before everything is checked *)

Lemma outcome_bind_inr {A B} (m : outcome A) (k : A -> outcome B) b : m ≫= k = inr b -> exists a, m = inr a /\ k a = inr b.
Proof. destruct m as [e|a]; [done|]. by exists a. Qed.

Lemma check_inr b e u : check b e = inr u -> b = true.
Proof. by destruct b. Qed.

(** Takes the binds of [H : m ≫= k = inr b] apart. *)
Ltac unbind H :=
  repeat match type of H with
  | (_ ≫= _) = inr _ => let x := fresh "x" in let Hx := fresh "Hx" in apply outcome_bind_inr in H as (x & Hx & H)
  | (let '(_, _) := ?x in _) = inr _ => destruct x
  end.

Lemma stream_read_inr source offset len bytes :
  stream_read source offset len = inr bytes -> 0 <= offset -> 0 <= len ->
  Z.of_nat (length bytes) = len /\ len <= STATE_STREAM_CHUNK_SIZE /\ offset + len <= Z.of_nat (length source).
Proof.
  intros H H0 H1. unfold stream_read in H. unbind H. apply check_inr in Hx. injection H as <-. unfold slice. rewrite length_take, length_drop. lia.
Qed.

Lemma read_record_inr source position kind id offset len bytes position' :
  read_record source position kind id offset len = inr (bytes, position') -> 0 <= position -> 0 <= len ->
  Z.of_nat (length bytes) = 20 + len /\ position' = position + 20 + len.
Proof.
  intros H H0 H1. unfold read_record in H. unbind H. injection H as <- <-. apply stream_read_inr in Hx as (E & _); [|lia|unfold STREAM_RECORD_SIZE; lia].
  unfold STREAM_RECORD_SIZE in E. lia.
Qed.

Lemma record_checksum_at bytes len : Z.of_nat (length bytes) = 20 + len -> record_checksum bytes = word32 bytes (16 + len).
Proof. intros E. unfold record_checksum. rewrite E. f_equal. lia. Qed.

(** What was read once with these checksums is read and written again. *)
Lemma write_records_ok {A} source total kind id offset bitmap (write : Z -> list Z -> A -> A) os : forall recs position position' rest page m,
  read_records source STREAM_RAM_CHUNK total kind id offset os position = inr (recs, position') ->
  Forall (fun o => o < total) os -> 0 <= position ->
  exists m', write_records source total kind id offset bitmap write os (map record_checksum recs ++ rest) position page m = (m', inr (position', rest)).
Proof.
  induction os as [|o os IH]; intros recs position position' rest page m H Ho Hp; cbn [read_records] in H.
  - injection H as <- <-. by exists m.
  - inversion Ho as [|? ? Ho1 Ho2]; subst. apply outcome_bind_inr in H as ([bytes p1] & H1 & H). apply outcome_bind_inr in H as ([rs p2] & H2 & H).
    injection H as <- <-. cbn [write_records map app]. rewrite H1.
    destruct (read_record_inr _ _ _ _ _ _ _ _ H1 Hp) as [El Ep]; [unfold STREAM_RAM_CHUNK, STATE_STREAM_CHUNK_SIZE; lia|].
    rewrite (record_checksum_at bytes _ El), Z.eqb_refl. destruct (scatter_pages _ _ _ _ _ _) as [m1 page1].
    apply IH; [done|done|]. unfold STREAM_RAM_CHUNK, STATE_STREAM_CHUNK_SIZE in *. lia.
Qed.

Lemma read_records_position source step total kind id offset os : forall position recs position',
  read_records source step total kind id offset os position = inr (recs, position') -> 0 < step -> Forall (fun o => o < total) os -> 0 <= position -> 0 <= position'.
Proof.
  induction os as [|o os IH]; intros position recs position' H Hs Ho Hp; cbn [read_records] in H; [by injection H as <- <-|].
  inversion Ho as [|? ? Ho1 Ho2]; subst. apply outcome_bind_inr in H as ([bytes p1] & H1 & H). apply outcome_bind_inr in H as ([rs p2] & H2 & H).
  injection H as <- <-. destruct (read_record_inr _ _ _ _ _ _ _ _ H1 Hp) as [El Ep]; [lia|]. eapply IH; [exact H2|done|done|lia].
Qed.

Lemma offsets_lt step total : 0 < step -> Forall (fun o => 0 <= o < total) (offsets step total).
Proof.
  intros Hs. unfold offsets. apply Forall_map, Forall_forall. intros k Hk. apply elem_of_seqZ in Hk. unfold Extended.ceil_div in Hk.
  pose proof (Z.div_mod (total + step - 1) step ltac:(lia)). pose proof (Z.mod_pos_bound (total + step - 1) step Hs). nia.
Qed.

Lemma offsets_total step total : 0 < step -> Forall (fun o => o < total) (offsets step total).
Proof. intros Hs. eapply Forall_impl; [by apply offsets_lt|]. cbn. lia. Qed.

Lemma read_stream_buffers_position source lengths : forall id position b position',
  read_stream_buffers source id lengths position = inr (b, position') -> 0 <= position -> 0 <= position'.
Proof.
  induction lengths as [|len lengths IH]; intros id position b position' H Hp; cbn [read_stream_buffers] in H; [by injection H as <- <-|].
  apply outcome_bind_inr in H as ([recs p1] & H1 & H). apply outcome_bind_inr in H as ([rs p2] & H2 & H). injection H as <- <-.
  eapply IH; [exact H2|]. eapply read_records_position; [exact H1|done| |done]. by apply offsets_total.
Qed.

Lemma word32_nonneg l o : Forall byte l -> 0 <= word32 l o < 2 ^ 32.
Proof.
  intros Hl. assert (forall i, byte (arr_get l i)) as Hg by (intros i; apply arr_get_Forall; [unfold byte; lia|done]).
  unfold word32. pose proof (Hg o). pose proof (Hg (o + 1)). pose proof (Hg (o + 2)). pose proof (Hg (o + 3)). unfold byte in *. lia.
Qed.

Lemma stream_read_byte source offset len bytes : Forall byte source -> stream_read source offset len = inr bytes -> Forall byte bytes.
Proof. intros Hs H. unfold stream_read in H. unbind H. injection H as <-. by apply Forall_take, Forall_drop. Qed.

(** The first pass reads the records of memory where the second will. *)
Lemma first_pass_records validate cpu source c :
  Forall byte source -> first_pass validate cpu source = inr c ->
  exists ram ext position position', ram_records source (ram_packed c) (ram_start c) = inr (ram, position)
    /\ extended_records source (ext_size c) position = inr (ext, position') /\ checksums c = map record_checksum (ram ++ ext) /\ 0 <= ram_start c.
Proof.
  intros Hs H. unfold first_pass in H. cbv zeta in H. unbind H. injection H as <-. cbn [ram_packed ram_start ext_size checksums].
  eexists _, _, _, _. split; [eassumption|]. split; [eassumption|]. split; [done|].
  eapply read_stream_buffers_position; [eassumption|]. match goal with E : stream_read source 0 _ = inr _ |- _ => apply stream_read_byte in E; [|done] end.
  match goal with |- context [word32 ?h 12] => pose proof (word32_nonneg h 12 ltac:(done)) end. unfold STREAM_HEADER_SIZE. lia.
Qed.


Definition demo_machine : machine := mk 4096 (replicate 4096 7) None [].


End Stream.
