(* ===== verification/StreamLayout.v ===== *)
(** * Lemmas on streamed snapshots

    The chunks the writer of [Stream] hands out in closed form (records of data cut into
    pieces, pages in groups of 255), and the loops of the reader on them. *)

From S2P Require Import Prelude Lib Text Json Crc State Extended Stream.

Import Text Json Crc State Stream.

Open Scope js_scope.

Module StreamLayout.

#[local] Opaque stream_crc.

(** ** Cutting data into pieces *)

Lemma length_slice (l : list Z) from to : 0 <= from <= Z.of_nat (length l) -> from <= to ->
  Z.of_nat (length (slice l from to)) = Z.min (to - from) (Z.of_nat (length l) - from).
Proof. intros H1 H2. unfold slice. rewrite length_take, length_drop. lia. Qed.

Lemma slice_byte l from to : Forall byte l -> Forall byte (slice l from to).
Proof. intros H. by apply Forall_take, Forall_drop. Qed.

Lemma take_slice (l : list Z) a b : 0 <= a <= b -> take (Z.to_nat a) l ++ slice l a b = take (Z.to_nat b) l.
Proof.
  intros H. unfold slice. replace (Z.to_nat b) with (Z.to_nat a + Z.to_nat (b - a))%nat by lia. by rewrite <- take_take_drop.
Qed.

Lemma concat_slices step (data : list Z) : 0 < step -> concat (map (fun o => slice data o (o + step)) (offsets step (Z.of_nat (length data)))) = data.
Proof.
  intros Hs. assert (forall k, concat (map (fun o => slice data o (o + step)) (map (fun k => k * step) (seqZ 0 (Z.of_nat k)))) = take (Z.to_nat (Z.of_nat k * step)) data) as H.
  { induction k as [|k IH]; [done|]. rewrite seqZ_S, !map_app, concat_app, IH. cbn [map concat]. rewrite app_nil_r, Z.add_0_l.
    rewrite take_slice by nia. do 2 f_equal. lia. }
  pose proof (Extended.ceil_div_spec (Z.of_nat (length data)) step ltac:(lia) Hs) as Hc. unfold offsets.
  rewrite <- (Z2Nat.id (Extended.ceil_div _ step)) by nia. rewrite H. apply take_ge. rewrite Z2Nat.id by nia. lia.
Qed.

(** ** Records *)

(** The record of the piece at [o], and all of them. *)
Definition rec_at (step kind : Z) (id offset : Z -> Z) (data : list Z) (o : Z) : list Z :=
  stream_record kind (id o) (offset o) (slice data o (o + step)).
Definition recs (step kind : Z) (id offset : Z -> Z) (data : list Z) : list (list Z) :=
  map (rec_at step kind id offset data) (offsets step (Z.of_nat (length data))).

Lemma length_bytes32 v : length (bytes32 v) = 4%nat.
Proof. done. Qed.

Lemma bytes32_byte v : Forall byte (bytes32 v).
Proof. repeat constructor; apply u8_byte. Qed.

Lemma length_stream_record kind id offset data : length (stream_record kind id offset data) = (20 + length data)%nat.
Proof. unfold stream_record. rewrite !length_app, !length_bytes32. lia. Qed.

Definition front (kind id offset : Z) (data : list Z) : list Z := bytes32 kind ++ bytes32 id ++ bytes32 offset ++ bytes32 (Z.of_nat (length data)) ++ data.

Lemma stream_record_front kind id offset data : stream_record kind id offset data = front kind id offset data ++ bytes32 (stream_crc 0 (front kind id offset data)).
Proof. done. Qed.

Lemma length_record_front kind id offset data : length (front kind id offset data) = (16 + length data)%nat.
Proof. unfold front. rewrite !length_app, !length_bytes32. lia. Qed.

Lemma front_byte kind id offset data : Forall byte data -> Forall byte (front kind id offset data).
Proof. intros H. unfold front. rewrite !Forall_app. repeat split; try apply bytes32_byte. done. Qed.

Lemma stream_record_byte kind id offset data : Forall byte data -> Forall byte (stream_record kind id offset data).
Proof. intros H. rewrite stream_record_front. apply Forall_app. split; [by apply front_byte|apply bytes32_byte]. Qed.

Lemma record_data_record kind id offset data : record_data (stream_record kind id offset data) = data.
Proof.
  unfold record_data. rewrite length_stream_record. unfold stream_record. rewrite <- !app_assoc.
  change (bytes32 kind ++ bytes32 id ++ bytes32 offset ++ bytes32 (Z.of_nat (length data)) ++ ?x)
    with ((bytes32 kind ++ bytes32 id ++ bytes32 offset ++ bytes32 (Z.of_nat (length data))) ++ x).
  apply slice_app; [done|lia].
Qed.

Lemma record_words kind id offset data : let bytes := stream_record kind id offset data in
  word32 bytes 0 = u32 kind /\ word32 bytes 4 = u32 id /\ word32 bytes 8 = u32 offset /\ word32 bytes 12 = u32 (Z.of_nat (length data))
  /\ word32 bytes (16 + Z.of_nat (length data)) = u32 (stream_crc 0 (front kind id offset data))
  /\ slice bytes 0 (16 + Z.of_nat (length data)) = front kind id offset data.
Proof.
  cbv zeta. split; [|split; [|split; [|split; [|split]]]].
  - unfold stream_record. rewrite <- !app_assoc. by apply (word32_bytes32 []).
  - unfold stream_record. rewrite <- !app_assoc. by apply (word32_bytes32 (bytes32 kind)).
  - unfold stream_record. rewrite <- !app_assoc. rewrite (app_assoc (bytes32 kind)). by apply (word32_bytes32 (bytes32 kind ++ bytes32 id)).
  - unfold stream_record. rewrite <- !app_assoc. rewrite (app_assoc (bytes32 id)), (app_assoc (bytes32 kind)).
    by apply (word32_bytes32 (bytes32 kind ++ bytes32 id ++ bytes32 offset)).
  - rewrite stream_record_front, <- (app_nil_r (bytes32 (stream_crc _ _))). apply word32_bytes32. rewrite length_record_front. lia.
  - rewrite stream_record_front. apply (slice_app [] (front kind id offset data)); [done|]. rewrite length_record_front. lia.
Qed.

Lemma read_record_spec A B kind id offset data : uint32 kind -> uint32 id -> uint32 offset -> Forall byte data ->
  20 + Z.of_nat (length data) <= STATE_STREAM_CHUNK_SIZE ->
  read_record (A ++ stream_record kind id offset data ++ B) (Z.of_nat (length A)) kind id offset (Z.of_nat (length data))
  = inr (stream_record kind id offset data, Z.of_nat (length A) + Z.of_nat (length (stream_record kind id offset data))).
Proof.
  intros Hk Hi Ho Hd Hl. pose proof (length_stream_record kind id offset data) as Hr. unfold read_record, stream_read, check. change STREAM_RECORD_SIZE with 20.
  rewrite (proj2 (Z.ltb_ge STATE_STREAM_CHUNK_SIZE _)) by lia. rewrite (proj2 (Z.ltb_ge (Z.of_nat (length (A ++ _))) _)) by (rewrite !length_app; lia).
  cbn [orb negb mbind outcome_bind]. rewrite (slice_app A (stream_record kind id offset data) B) by lia.
  destruct (record_words kind id offset data) as (-> & -> & -> & -> & -> & ->).
  pose proof (stream_crc_bound 0 (front kind id offset data) (front_byte _ _ _ _ Hd)) as Hc. unfold uint32 in *.
  rewrite !u32_id by (unfold uint32, STATE_STREAM_CHUNK_SIZE in *; lia). by rewrite !Z.eqb_refl.
Qed.

Section Records.
  Context (step kind : Z) (id offset : Z -> Z) (data : list Z).
  Hypothesis Hstep : 0 < step /\ step + 20 <= STATE_STREAM_CHUNK_SIZE.
  Hypothesis Hkind : uint32 kind.
  Hypothesis Hdata : Forall byte data.
  Hypothesis Hids : forall o, 0 <= o < Z.of_nat (length data) -> uint32 (id o) /\ uint32 (offset o).

Let record := rec_at step kind id offset data.

Lemma length_rec_at o : 0 <= o < Z.of_nat (length data) -> Z.of_nat (length (record o)) = 20 + Z.min step (Z.of_nat (length data) - o).
Proof. intros Ho. unfold record, rec_at. rewrite length_stream_record, Nat2Z.inj_add, length_slice by lia. lia. Qed.

Lemma read_records_at os : forall A B, Forall (fun o => 0 <= o < Z.of_nat (length data)) os ->
  read_records (A ++ concat (map record os) ++ B) step (Z.of_nat (length data)) kind id offset os (Z.of_nat (length A))
  = inr (map record os, Z.of_nat (length A) + Z.of_nat (length (concat (map record os)))).
Proof.
  induction os as [|o os IH]; intros A B Ho; [cbn; by rewrite Z.add_0_r|]. inversion Ho as [|? ? Ho1 Ho2]; subst. cbn [map concat read_records].
  rewrite <- app_assoc. pose proof (length_slice data o (o + step) ltac:(lia) ltac:(lia)) as El.
  replace (Z.min step (Z.of_nat (length data) - o)) with (Z.of_nat (length (slice data o (o + step)))) by lia.
  destruct (Hids o Ho1). assert (forall B', read_record (A ++ record o ++ B') (Z.of_nat (length A)) kind (id o) (offset o) (Z.of_nat (length (slice data o (o + step))))
    = inr (record o, Z.of_nat (length A) + Z.of_nat (length (record o)))) as -> by (intros B'; apply read_record_spec; [done..|by apply slice_byte|lia]).
  cbn [mbind outcome_bind].
  rewrite (app_assoc A), <- Nat2Z.inj_add, <- length_app. rewrite IH by done. cbn [mbind outcome_bind]. rewrite !length_app, !Nat2Z.inj_add, Z.add_assoc. done.
Qed.

Lemma read_records_spec A B position : position = Z.of_nat (length A) ->
  read_records (A ++ concat (recs step kind id offset data) ++ B) step (Z.of_nat (length data)) kind id offset (offsets step (Z.of_nat (length data))) position
  = inr (recs step kind id offset data, position + Z.of_nat (length (concat (recs step kind id offset data)))).
Proof. intros ->. apply read_records_at. apply offsets_lt. lia. Qed.

Lemma recs_data : concat (map record_data (recs step kind id offset data)) = data.
Proof.
  unfold recs. rewrite map_map. unfold rec_at. erewrite map_ext; [apply concat_slices; lia|]. intros o. apply record_data_record.
Qed.

Lemma length_recs : Z.of_nat (length (concat (recs step kind id offset data)))
  = Z.of_nat (length data) + Extended.ceil_div (Z.of_nat (length data)) step * 20.
Proof.
  rewrite <- recs_data at 2. pose proof (Extended.ceil_div_spec (Z.of_nat (length data)) step ltac:(lia) ltac:(lia)) as Hc.
  assert (Extended.ceil_div (Z.of_nat (length data)) step = Z.of_nat (length (recs step kind id offset data))) as ->.
  { unfold recs, offsets. rewrite !length_map, length_seqZ. nia. }
  unfold recs. induction (offsets _ _) as [|o os IH]; [done|]. cbn [map concat length]. rewrite !length_app, !Nat2Z.inj_add, IH.
  change (record_data (rec_at step kind id offset data o)) with (record_data (stream_record kind (id o) (offset o) (slice data o (o + step)))).
  rewrite record_data_record. unfold rec_at at 1. rewrite length_stream_record. lia.
Qed.

Lemma recs_chunks : Forall (fun c => Z.of_nat (length c) <= STATE_STREAM_CHUNK_SIZE) (recs step kind id offset data).
Proof.
  unfold recs. apply Forall_map. eapply Forall_impl; [apply (offsets_lt step); lia|]. intros o Ho. cbv beta. pose proof (length_rec_at o Ho). unfold record in *. lia.
Qed.

Lemma recs_byte : Forall byte (concat (recs step kind id offset data)).
Proof.
  apply Forall_concat. unfold recs. apply Forall_map, Forall_forall. intros o _. by apply stream_record_byte, slice_byte.
Qed.

End Records.

(** ** Pages in groups of 255 *)

Definition group (k : nat) (pages : list Z) : list Z := take 255 (drop (255 * k) pages).

Lemma drop_pages (contents : Z -> list Z) n : forall l, Forall (fun p => length (contents p) = 4096%nat) l ->
  drop (n * 4096) (concat (map contents l)) = concat (map contents (drop n l)).
Proof.
  induction n as [|n IH]; intros l Hl; [done|]. destruct Hl as [|p l Hp Hl]; [by rewrite !drop_nil|]. cbn [map concat drop].
  rewrite Nat.mul_succ_l, Nat.add_comm, <- Hp, drop_app_add, Hp. by apply IH.
Qed.

Lemma take_pages (contents : Z -> list Z) n : forall l, Forall (fun p => length (contents p) = 4096%nat) l ->
  take (n * 4096) (concat (map contents l)) = concat (map contents (take n l)).
Proof.
  induction n as [|n IH]; intros l Hl; [done|]. destruct Hl as [|p l Hp Hl]; [by rewrite !take_nil|]. cbn [map concat take].
  rewrite Nat.mul_succ_l, Nat.add_comm, <- Hp, take_app_add, Hp. f_equal. by apply IH.
Qed.

Lemma length_pages (contents : Z -> list Z) l : Forall (fun p => length (contents p) = 4096%nat) l -> length (concat (map contents l)) = (length l * 4096)%nat.
Proof. induction 1 as [|p l Hp Hl IH]; [done|]. cbn [map concat length]. rewrite length_app, Hp, IH. lia. Qed.

Lemma slice_group contents k l : Forall (fun p => length (contents p) = 4096%nat) l ->
  slice (concat (map contents l)) (Z.of_nat k * STREAM_RAM_CHUNK) (Z.of_nat k * STREAM_RAM_CHUNK + STREAM_RAM_CHUNK) = concat (map contents (group k l)).
Proof.
  intros Hl. unfold slice, STREAM_RAM_CHUNK, STATE_STREAM_CHUNK_SIZE. replace (Z.to_nat (Z.of_nat k * (1024 * 1024 - 4096))) with (255 * k * 4096)%nat by lia.
  replace (Z.to_nat (_ - _)) with (255 * 4096)%nat by lia. rewrite drop_pages by done. by rewrite take_pages by (by apply Forall_drop).
Qed.

Lemma pages_in_group k l : pages_in (Z.min STREAM_RAM_CHUNK (Z.of_nat (length l * 4096) - Z.of_nat k * STREAM_RAM_CHUNK)) = length (group k l).
Proof.
  unfold pages_in, group, Extended.ceil_div, STREAM_RAM_CHUNK, STATE_STREAM_CHUNK_SIZE. rewrite length_take, length_drop.
  set (n := length l). destruct (decide (255 * Z.of_nat k + 255 <= Z.of_nat n)) as [H|H].
  - rewrite Z.min_l by lia. change ((1024 * 1024 - 4096 + 4096 - 1) / 4096) with 255. lia.
  - rewrite Z.min_r by lia. replace (Z.of_nat (n * 4096) - Z.of_nat k * (1024 * 1024 - 4096) + 4096 - 1) with (4095 + (Z.of_nat n - 255 * Z.of_nat k) * 4096) by lia.
    rewrite Z.div_add by lia. change (4095 / 4096) with 0. lia.
Qed.

Lemma drop_group k (l : list Z) : drop (255 * k) l = group k l ++ drop (255 * S k) l.
Proof. unfold group. replace (255 * S k)%nat with (255 * k + 255)%nat by lia. rewrite <- drop_drop. by rewrite take_drop. Qed.

(** The positions of a loop in steps: [k] steps done, [n] to go. *)
Lemma step_last step total k : 0 <= total -> 0 < step -> Extended.ceil_div total step = Z.of_nat k -> Z.min (Z.of_nat k * step) total = total.
Proof. intros Ht Hs Hc. pose proof (Extended.ceil_div_spec total step Ht Hs). rewrite Hc in *. lia. Qed.
Lemma step_more step total k n : 0 <= total -> 0 < step -> Extended.ceil_div total step = Z.of_nat k + Z.of_nat (S n) ->
  Z.of_nat k * step < total /\ Z.min (Z.of_nat k * step) total = Z.of_nat k * step
  /\ Z.of_nat k * step + Z.min step (total - Z.of_nat k * step) = Z.min (Z.of_nat (S k) * step) total.
Proof. intros Ht Hs Hc. pose proof (Extended.ceil_div_spec total step Ht Hs). rewrite Hc in *. nia. Qed.

Lemma seqZ_steps {A} (f : Z -> A) k n : map f (seqZ (Z.of_nat k) (Z.of_nat (S n))) = f (Z.of_nat k) :: map f (seqZ (Z.of_nat (S k)) (Z.of_nat n)).
Proof. rewrite seqZ_cons by lia. cbn [map]. do 2 f_equal. f_equal; lia. Qed.

Lemma offsets_steps step total : 0 <= total -> 0 < step ->
  offsets step total = map (fun k => k * step) (seqZ (Z.of_nat 0) (Z.of_nat (Z.to_nat (Extended.ceil_div total step)))).
Proof. intros Ht Hs. pose proof (Extended.ceil_div_spec total step Ht Hs). unfold offsets. rewrite Z2Nat.id by nia. done. Qed.

(** ** What the writer hands out *)

Definition pulls (s : stream) (chunks : list (list Z)) : Prop := forall fuel, (length chunks < fuel)%nat -> pull fuel s = Some chunks.
Definition yields (r : option (list Z) * stream) (chunks : list (list Z)) : Prop :=
  match r with (Some chunk, s) => exists rest, chunks = chunk :: rest /\ pulls s rest | (None, _) => chunks = [] end.

Lemma yields_pulls s chunks : yields (next s) chunks -> pulls s chunks.
Proof.
  intros H fuel Hf. destruct fuel as [|fuel]; [lia|]. cbn [pull]. destruct (next s) as [[chunk|] s']; cbn in H; [|by rewrite H].
  destruct H as (rest & -> & Hr). rewrite Hr; [done|]. cbn in Hf. lia.
Qed.

Fixpoint buffer_chunks (id : Z) (b : buffers) : list (list Z) :=
  match b with
  | [] => []
  | buffer :: b => recs BUFFER_STEP 1 (fun _ => id) (fun o => o) buffer ++ buffer_chunks (id + 1) b
  end.

Section Writer.
  Context (s0 : stream) (pages epages : list Z).
Let data := concat (map (ram_contents s0) pages).
Let edata := concat (map (extended_contents s0) epages).
  Hypothesis Hpages : rest_pages (bitmap s0) 0 = pages.
  Hypothesis Hepages : rest_pages (extended_bitmap s0) 0 = epages.
  Hypothesis Hlen : Forall (fun p => length (ram_contents s0 p) = 4096%nat) pages.
  Hypothesis Helen : Forall (fun p => length (extended_contents s0 p) = 4096%nat) epages.

(** The stream [s0] at other positions. *)
Definition at_ (phase position buffer_id ram_page extended_page : Z) : stream :=
  mk_stream (header s0) (manifest s0) (bufs s0) (ram s0) (bitmap s0) (Z.of_nat (length data)) (extended s0) (extended_bitmap s0) (Z.of_nat (length edata))
    phase position buffer_id ram_page extended_page.

Definition erecs : list (list Z) := recs STREAM_RAM_CHUNK 3 (fun o => o / 0x100000000) u32 edata.
Definition rrecs : list (list Z) := recs STREAM_RAM_CHUNK 2 (fun _ => 0) (fun o => o) data.

Lemma yields_extended n : forall k bid rp ep, Extended.ceil_div (Z.of_nat (length edata)) STREAM_RAM_CHUNK = Z.of_nat k + Z.of_nat n ->
  0 <= ep -> rest_pages (extended_bitmap s0) ep = drop (255 * k) epages ->
  yields (next_extended (at_ 4 (Z.min (Z.of_nat k * STREAM_RAM_CHUNK) (Z.of_nat (length edata))) bid rp ep))
    (map (rec_at STREAM_RAM_CHUNK 3 (fun o => o / 0x100000000) u32 edata) (map (fun k => k * STREAM_RAM_CHUNK) (seqZ (Z.of_nat k) (Z.of_nat n)))).
Proof.
  induction n as [|n IH]; intros k bid rp ep Hc Hep Hr; unfold next_extended, at_; cbn [position extended_size extended_bitmap extended_page].
  - rewrite step_last; [|lia|done|lia]. by rewrite Z.eqb_refl.
  - destruct (step_more STREAM_RAM_CHUNK (Z.of_nat (length edata)) k n ltac:(lia) ltac:(done) Hc) as (H1 & -> & H3).
    rewrite (proj2 (Z.eqb_neq _ _)) by lia. unfold edata at 1. rewrite (length_pages _ _ Helen), pages_in_group.
    rewrite drop_group in Hr. destruct (gather_spec _ (extended_contents s0) _ _ ep Hep Hr) as (ep' & Eg & Hep' & Hr').
    match goal with |- context [gather ?n ?b ?c ?p] => change (gather n b c p) with (gather n (extended_bitmap s0) (extended_contents s0) p) end. rewrite Eg.
    rewrite !map_map, seqZ_steps. eexists. split; [unfold rec_at; rewrite <- (slice_group _ k epages Helen); reflexivity|].
    apply yields_pulls.
    match goal with |- yields (next ?s) _ => change (next s) with (next_extended (at_ 4 (Z.of_nat k * STREAM_RAM_CHUNK
      + Z.min STREAM_RAM_CHUNK (Z.of_nat (length edata) - Z.of_nat k * STREAM_RAM_CHUNK)) bid rp ep')) end.
    rewrite H3. specialize (IH (S k) bid rp ep' ltac:(lia) Hep' Hr'). by rewrite map_map in IH.
Qed.

Lemma step_count step total : 0 <= total -> 0 < step -> Extended.ceil_div total step = Z.of_nat 0 + Z.of_nat (Z.to_nat (Extended.ceil_div total step)).
Proof. intros Ht Hs. pose proof (Extended.ceil_div_spec total step Ht Hs). rewrite Z2Nat.id by nia. lia. Qed.

Lemma yields_extended_all bid rp : yields (next_extended (at_ 4 0 bid rp 0)) erecs.
Proof.
  unfold erecs, recs. rewrite offsets_steps by (lia || done). replace 0 with (Z.min (Z.of_nat 0 * STREAM_RAM_CHUNK) (Z.of_nat (length edata))) at 1 by lia.
  apply yields_extended; [apply step_count; (lia || done)|done|done].
Qed.

Lemma yields_ram n : forall k bid rp, Extended.ceil_div (Z.of_nat (length data)) STREAM_RAM_CHUNK = Z.of_nat k + Z.of_nat n ->
  0 <= rp -> rest_pages (bitmap s0) rp = drop (255 * k) pages ->
  yields (next_ram (at_ 3 (Z.min (Z.of_nat k * STREAM_RAM_CHUNK) (Z.of_nat (length data))) bid rp 0))
    (map (rec_at STREAM_RAM_CHUNK 2 (fun _ => 0) (fun o => o) data) (map (fun k => k * STREAM_RAM_CHUNK) (seqZ (Z.of_nat k) (Z.of_nat n))) ++ erecs).
Proof.
  induction n as [|n IH]; intros k bid rp Hc Hrp Hr; unfold next_ram, at_; cbn [position packed_size bitmap ram_page].
  - rewrite step_last; [|lia|done|lia]. rewrite Z.ltb_irrefl, seqZ_nil by lia. apply (yields_extended_all bid rp).
  - destruct (step_more STREAM_RAM_CHUNK (Z.of_nat (length data)) k n ltac:(lia) ltac:(done) Hc) as (H1 & -> & H3).
    rewrite (proj2 (Z.ltb_lt _ _)) by lia. unfold data at 1. rewrite (length_pages _ _ Hlen), pages_in_group.
    rewrite drop_group in Hr. destruct (gather_spec _ (ram_contents s0) _ _ rp Hrp Hr) as (rp' & Eg & Hrp' & Hr').
    match goal with |- context [gather ?n ?b ?c ?p] => change (gather n b c p) with (gather n (bitmap s0) (ram_contents s0) p) end. rewrite Eg.
    rewrite !map_map, seqZ_steps. eexists. split; [cbn [app]; unfold rec_at; rewrite <- (slice_group _ k pages Hlen); reflexivity|].
    apply yields_pulls.
    match goal with |- yields (next ?s) _ => change (next s) with (next_ram (at_ 3 (Z.of_nat k * STREAM_RAM_CHUNK
      + Z.min STREAM_RAM_CHUNK (Z.of_nat (length data) - Z.of_nat k * STREAM_RAM_CHUNK)) bid rp' 0)) end.
    rewrite H3. specialize (IH (S k) bid rp' ltac:(lia) Hrp' Hr'). by rewrite map_map in IH.
Qed.

Lemma yields_ram_all bid : yields (next_ram (at_ 3 0 bid 0 0)) (rrecs ++ erecs).
Proof.
  unfold rrecs, recs. rewrite offsets_steps by (lia || done). replace 0 with (Z.min (Z.of_nat 0 * STREAM_RAM_CHUNK) (Z.of_nat (length data))) at 1 by lia.
  apply yields_ram; [apply step_count; (lia || done)|done|done].
Qed.

Lemma slice_slice_piece (l : list Z) k : slice l (k * BUFFER_STEP) (k * BUFFER_STEP + STATE_STREAM_CHUNK_SIZE - STREAM_RECORD_SIZE) = slice l (k * BUFFER_STEP) (k * BUFFER_STEP + BUFFER_STEP).
Proof. f_equal. unfold BUFFER_STEP. lia. Qed.

Lemma next_buffer_none fuel s : bufs s !! Z.to_nat (buffer_id s) = None -> next_buffer fuel s = next_ram (s <| phase := 3 |> <| position := 0 |>).
Proof. intros E. destruct fuel; cbn [next_buffer]; by rewrite E. Qed.

Lemma next_buffer_some fuel s buffer : bufs s !! Z.to_nat (buffer_id s) = Some buffer ->
  next_buffer (S fuel) s =
    if position s <? Z.of_nat (length buffer) then
      let data := slice buffer (position s) (position s + STATE_STREAM_CHUNK_SIZE - STREAM_RECORD_SIZE) in
      (Some (stream_record 1 (buffer_id s) (position s) data), s <| position := position s + Z.of_nat (length data) |>)
    else next_buffer fuel (s <| buffer_id := buffer_id s + 1 |> <| position := 0 |>).
Proof. intros E. cbn [next_buffer]. by rewrite E. Qed.

Lemma yields_buffers b : forall pre n k fuel, bufs s0 = pre ++ b -> (length b <= fuel)%nat ->
  match b with
  | [] => True
  | buffer :: _ => Extended.ceil_div (Z.of_nat (length buffer)) BUFFER_STEP = Z.of_nat k + Z.of_nat n
  end ->
  match b with
  | [] => yields (next_buffer fuel (at_ 2 0 (Z.of_nat (length pre)) 0 0)) (rrecs ++ erecs)
  | buffer :: b => yields (next_buffer fuel (at_ 2 (Z.min (Z.of_nat k * BUFFER_STEP) (Z.of_nat (length buffer))) (Z.of_nat (length pre)) 0 0))
      (map (rec_at BUFFER_STEP 1 (fun _ => Z.of_nat (length pre)) (fun o => o) buffer) (map (fun k => k * BUFFER_STEP) (seqZ (Z.of_nat k) (Z.of_nat n)))
       ++ buffer_chunks (Z.of_nat (length pre) + 1) b ++ rrecs ++ erecs)
  end.
Proof.
  induction b as [|buffer b IHb]; intros pre n k fuel Hb Hf Hc.
  - rewrite next_buffer_none; [apply (yields_ram_all (Z.of_nat (length pre)))|]. cbn. rewrite Nat2Z.id. apply lookup_ge_None. rewrite Hb, app_nil_r. lia.
  - assert (bufs s0 !! Z.to_nat (Z.of_nat (length pre)) = Some buffer) as E by (rewrite Nat2Z.id, Hb; by apply list_lookup_middle).
    revert k fuel Hf Hc. induction n as [|n IHn]; intros k fuel Hf Hc; (destruct fuel as [|fuel]; [cbn in Hf; lia|]); rewrite (next_buffer_some fuel (at_ _ _ _ _ _) buffer E);
      cbv zeta; cbn [at_ position buffer_id].
    + rewrite step_last; [|lia|done|lia]. rewrite Z.ltb_irrefl, seqZ_nil by lia. cbn [map app]. cbn in Hf. destruct b as [|buffer' b].
      * cbn [buffer_chunks app]. specialize (IHb (pre ++ [buffer]) 0%nat 0%nat fuel). rewrite length_app, Nat2Z.inj_add in IHb. apply IHb; [by rewrite <- app_assoc|cbn; lia|done].
      * specialize (IHb (pre ++ [buffer]) (Z.to_nat (Extended.ceil_div (Z.of_nat (length buffer')) BUFFER_STEP)) 0%nat fuel). rewrite length_app, Nat2Z.inj_add in IHb.
        cbn [buffer_chunks]. unfold recs. rewrite offsets_steps by (lia || done). rewrite <- app_assoc.
        rewrite Z.min_l in IHb by lia. apply IHb; [by rewrite <- app_assoc|cbn in *; lia|apply step_count; (lia || done)].
    + destruct (step_more BUFFER_STEP (Z.of_nat (length buffer)) k n ltac:(lia) ltac:(done) Hc) as (H1 & -> & H3). rewrite (proj2 (Z.ltb_lt _ _)) by lia.
      rewrite slice_slice_piece, seqZ_steps. cbn [map app]. eexists. split; [reflexivity|]. apply yields_pulls.
      assert (0 < BUFFER_STEP) by done. cbn [length] in Hf. rewrite length_slice by lia.
      replace (Z.of_nat k * BUFFER_STEP + BUFFER_STEP - Z.of_nat k * BUFFER_STEP) with BUFFER_STEP by lia. rewrite H3.
      apply (IHn (S k) (length (bufs s0))); [rewrite Hb, length_app; lia|lia].
Qed.

Lemma yields_buffers_all : yields (next_buffer (length (bufs s0)) (at_ 2 0 0 0 0)) (buffer_chunks 0 (bufs s0) ++ rrecs ++ erecs).
Proof.
  pose proof (yields_buffers (bufs s0) []) as H. destruct (bufs s0) as [|buffer b] eqn:E; [apply (H 0%nat 0%nat); done|]. cbn [buffer_chunks].
  unfold recs. rewrite offsets_steps by (lia || done). rewrite <- app_assoc.
  specialize (H (Z.to_nat (Extended.ceil_div (Z.of_nat (length buffer)) BUFFER_STEP)) 0%nat (length (buffer :: b))). rewrite Z.min_l in H by lia.
  apply H; [done|done|apply step_count; (lia || done)].
Qed.

Definition pieces : list (list Z) :=
  map (fun o => slice (manifest s0) o (o + STATE_STREAM_CHUNK_SIZE)) (offsets STATE_STREAM_CHUNK_SIZE (Z.of_nat (length (manifest s0)))).

Lemma yields_manifest n : forall k, Extended.ceil_div (Z.of_nat (length (manifest s0))) STATE_STREAM_CHUNK_SIZE = Z.of_nat k + Z.of_nat n ->
  yields (next_manifest (at_ 1 (Z.min (Z.of_nat k * STATE_STREAM_CHUNK_SIZE) (Z.of_nat (length (manifest s0)))) 0 0 0))
    (map (fun o => slice (manifest s0) o (o + STATE_STREAM_CHUNK_SIZE)) (map (fun k => k * STATE_STREAM_CHUNK_SIZE) (seqZ (Z.of_nat k) (Z.of_nat n)))
     ++ buffer_chunks 0 (bufs s0) ++ rrecs ++ erecs).
Proof.
  induction n as [|n IH]; intros k Hc; unfold next_manifest; cbn [at_ position manifest].
  - rewrite step_last; [|lia|done|lia]. rewrite Z.ltb_irrefl, seqZ_nil by lia. apply yields_buffers_all.
  - destruct (step_more STATE_STREAM_CHUNK_SIZE (Z.of_nat (length (manifest s0))) k n ltac:(lia) ltac:(done) Hc) as (H1 & -> & H3).
    rewrite (proj2 (Z.ltb_lt _ _)) by lia. rewrite seqZ_steps. cbn [map app]. eexists. split; [reflexivity|]. apply yields_pulls.
    rewrite length_slice by (unfold STATE_STREAM_CHUNK_SIZE in *; lia).
    replace (Z.of_nat k * STATE_STREAM_CHUNK_SIZE + STATE_STREAM_CHUNK_SIZE - Z.of_nat k * STATE_STREAM_CHUNK_SIZE) with STATE_STREAM_CHUNK_SIZE by lia. rewrite H3.
    apply (IH (S k)). lia.
Qed.

Lemma pulls_all : s0 = at_ 0 0 0 0 0 -> pulls s0 (header s0 :: pieces ++ buffer_chunks 0 (bufs s0) ++ rrecs ++ erecs).
Proof.
  intros E. apply yields_pulls. rewrite E at 1. eexists. split; [reflexivity|]. apply yields_pulls.
  unfold pieces. rewrite offsets_steps by (lia || done).
  pose proof (yields_manifest (Z.to_nat (Extended.ceil_div (Z.of_nat (length (manifest s0))) STATE_STREAM_CHUNK_SIZE)) 0) as H. rewrite Z.min_l in H by lia.
  apply H, step_count; (lia || done).
Qed.

End Writer.

(** The length of what the writer hands out, as the reader computes it. *)
Lemma length_buffer_chunks b : forall id, Z.of_nat (length (concat (buffer_chunks id b)))
  = foldr (fun buffer n => Z.of_nat (length buffer) + Extended.ceil_div (Z.of_nat (length buffer)) BUFFER_STEP * 20 + n) 0 b.
Proof.
  induction b as [|buffer b IH]; intros id; [done|]. cbn [buffer_chunks foldr]. rewrite concat_app, length_app, Nat2Z.inj_add, IH.
  rewrite length_recs; [done|]. unfold BUFFER_STEP, STATE_STREAM_CHUNK_SIZE, STREAM_RECORD_SIZE. lia.
Qed.

Lemma buffer_step_ok : 0 < BUFFER_STEP /\ BUFFER_STEP + 20 <= STATE_STREAM_CHUNK_SIZE.
Proof. done. Qed.
Lemma ram_step_ok : 0 < STREAM_RAM_CHUNK /\ STREAM_RAM_CHUNK + 20 <= STATE_STREAM_CHUNK_SIZE.
Proof. done. Qed.

Lemma read_buffers_at b : forall id A B, Forall (Forall byte) b -> Forall (fun buffer => Z.of_nat (length buffer) < 2 ^ 32) b -> 0 <= id -> id + Z.of_nat (length b) < 2 ^ 32 ->
  read_stream_buffers (A ++ concat (buffer_chunks id b) ++ B) id (map (fun buffer => Z.of_nat (length buffer)) b) (Z.of_nat (length A))
  = inr (b, Z.of_nat (length A) + Z.of_nat (length (concat (buffer_chunks id b)))).
Proof.
  induction b as [|buffer b IH]; intros id A B Hb Hl Hi Hn; [cbn; by rewrite Z.add_0_r|]. inversion Hb as [|? ? Hb1 Hb2]; subst. inversion Hl as [|? ? Hl1 Hl2]; subst.
  cbn [length] in Hn. cbn [buffer_chunks map read_stream_buffers]. rewrite concat_app, <- app_assoc.
  rewrite (read_records_spec BUFFER_STEP 1 (fun _ => id) (fun o => o) buffer buffer_step_ok); [|unfold uint32; lia|done|intros o Ho; unfold uint32; lia|done].
  cbn [mbind outcome_bind]. rewrite recs_data by apply buffer_step_ok. rewrite (app_assoc A), <- Nat2Z.inj_add, <- length_app. rewrite IH; [|done|done|lia|lia].
  cbn [mbind outcome_bind]. rewrite !length_app, !Nat2Z.inj_add, Z.add_assoc. done.
Qed.

(** ** The tree of a saved state passes validation *)

(** The levels of nesting of the JSON a value is saved as. *)
Fixpoint depth (v : value) : nat :=
  match v with
  | VArray l | VInstance l => S (foldr (fun x n => max (depth x) n) 0%nat l)
  | VMap l => S (S (S (foldr (fun '(k, x) n => max (max (depth k) (depth x)) n) 0%nat l)))
  | _ => 1%nat
  end.

Fixpoint validate_all (d : nat) (l : list json) (lengths : list Z) : outcome unit :=
  match l with
  | [] => inr tt
  | x :: l => _ ← validate_stream_tree d x lengths; validate_all d l lengths
  end.

Lemma validate_array d l lengths : validate_stream_tree (S d) (JArr l) lengths = validate_all d l lengths.
Proof. induction l as [|x l IH]; [done|]. cbn in *. by rewrite IH. Qed.

Definition sizes (b : buffers) : list Z := map (fun buffer => Z.of_nat (length buffer)) b.

Definition validates (v : value) : Prop := forall b j b1, save_object v b = Some (j, b1) -> b `prefix_of` b1
  /\ forall d b', (depth v <= d)%nat -> b1 `prefix_of` b' -> validate_stream_tree d j (sizes b') = inr tt.

Lemma save_list_validates l : Forall validates l -> forall b js b1, save_list l b = Some (js, b1) -> b `prefix_of` b1
  /\ forall d b', Forall (fun v => (depth v <= d)%nat) l -> b1 `prefix_of` b' -> validate_all d js (sizes b') = inr tt.
Proof.
  induction 1 as [|x l Hx Hl IH]; intros b js b1 H; cbn [save_list] in H; [by injection H as <- <-|].
  destruct (save_object x b) as [[j b2]|] eqn:E1; [|done]. cbn [mbind option_bind] in H. destruct (save_list l b2) as [[js' b3]|] eqn:E2; [|done]. injection H as <- <-.
  destruct (Hx b j b2 E1) as [P1 V1]. destruct (IH b2 js' b3 E2) as [P2 V2]. split; [by etrans|]. intros d b' Hd Hb'. inversion Hd as [|? ? Hd1 Hd2]; subst.
  cbn [validate_all]. rewrite V1; [|done|by etrans]. cbn [mbind outcome_bind]. by apply V2.
Qed.

Lemma save_pairs_validates l : Forall (fun p => validates p.1 /\ validates p.2) l -> forall b js b1, save_pairs l b = Some (js, b1) -> b `prefix_of` b1
  /\ forall d b', Forall (fun p => (depth p.1 <= d /\ depth p.2 <= d)%nat) l -> b1 `prefix_of` b' -> validate_all (S d) js (sizes b') = inr tt.
Proof.
  induction 1 as [|[k x] l [Hk Hx] Hl IH]; intros b js b1 H; cbn [save_pairs] in H; [by injection H as <- <-|]. cbn [fst snd] in *.
  destruct (save_object k b) as [[jk b2]|] eqn:E1; [|done]. cbn [mbind option_bind] in H. destruct (save_object x b2) as [[jx b3]|] eqn:E2; [|done].
  cbn [mbind option_bind] in H. destruct (save_pairs l b3) as [[js' b4]|] eqn:E3; [|done]. injection H as <- <-.
  destruct (Hk b jk b2 E1) as [P1 V1]. destruct (Hx b2 jx b3 E2) as [P2 V2]. destruct (IH b3 js' b4 E3) as [P3 V3]. split; [by do 2 (etrans; [eassumption|])|].
  intros d b' Hd Hb'. inversion Hd as [|? ? [Hd1 Hd2] Hd3]; subst. cbn [fst snd] in *. cbn [validate_all]. rewrite validate_array. cbn [validate_all].
  rewrite V1; [|done|by do 2 (etrans; [eassumption|])]. cbn [mbind outcome_bind]. rewrite V2; [|done|by etrans]. cbn [mbind outcome_bind]. by apply V3.
Qed.

Lemma depth_list l d : (foldr (fun x n => max (depth x) n) 0 l <= d)%nat <-> Forall (fun v => (depth v <= d)%nat) l.
Proof. induction l as [|x l IH]; cbn; [split; [constructor|lia]|]. rewrite Forall_cons, <- IH. lia. Qed.

Lemma depth_pairs l d : (foldr (fun '(k, x) n => max (max (depth k) (depth x)) n) 0 l <= d)%nat <-> Forall (fun p => (depth p.1 <= d /\ depth p.2 <= d)%nat) l.
Proof. induction l as [|[k x] l IH]; cbn; [split; [constructor|lia]|]. rewrite Forall_cons, <- IH. cbn. lia. Qed.

Lemma typed_reference_ok t bytes (b b' : buffers) : Z.of_nat (length bytes) mod BYTES_PER_ELEMENT t = 0 -> (b ++ [bytes]) `prefix_of` b' ->
  typed_reference [(STATE_TYPE, JStr (constructor_name t)); (BUFFER_ID, JNum (Z.of_nat (length b)) 0)] (sizes b') = true.
Proof.
  intros Hm [k ->]. unfold typed_reference. change (member STATE_TYPE _) with (Some (JStr (constructor_name t))).
  change (member BUFFER_ID _) with (Some (JNum (Z.of_nat (length b)) 0)). cbn match. rewrite constructor_typed. unfold sizes, arr_get.
  rewrite Nat2Z.id, length_map, !length_app, list_lookup_fmap, <- app_assoc. cbn [app]. rewrite list_lookup_middle by done. cbn [fmap option_fmap option_map default length]. unfold id. rewrite Hm, !andb_true_iff, Z.leb_le, Z.ltb_lt. split; [lia|done].
Qed.

Lemma save_object_validates v : storable v -> validates v.
Proof.
  induction v as [| | |x|m e|s|l IH|l IH|t bytes| |l IH] using value_ind'; intros Hs b j b1 H.
  1-6: injection H as <- <-; (split; [done|]); intros d b' Hd _; destruct d; [cbn in Hd; lia|done].
  - rewrite save_array in H. destruct (save_list l b) as [[js b2]|] eqn:E; [|done]. injection H as <- <-.
    destruct (save_list_validates l) with (b := b) (js := js) (b1 := b2) as [P V]; [|done|].
    { apply foldr_Forall in Hs. rewrite !Forall_forall in *. intros x Hx. apply (IH x Hx), (Hs x Hx). }
    split; [done|]. intros d b' Hd Hb'. destruct d as [|d]; [cbn in Hd; lia|]. rewrite validate_array. apply V; [|done]. apply depth_list. cbn in Hd. lia.
  - rewrite save_map in H. destruct (save_pairs l b) as [[js b2]|] eqn:E; [|done]. injection H as <- <-.
    destruct (save_pairs_validates l) with (b := b) (js := js) (b1 := b2) as [P V]; [|done|].
    { destruct Hs as [Hs _]. induction IH as [|[k x] l Hx Hl IHl]; [constructor|]. cbn in *. destruct Hs as [[] Hs']. destruct Hx.
      constructor; [auto|]. clear -Hl Hs'. induction Hl as [|[k x] l [H1 H2] Hl IHl]; [constructor|]. cbn in *. destruct Hs' as [[] ?]. constructor; auto. }
    split; [done|]. intros d b' Hd Hb'. cbn [depth] in Hd. destruct d as [|[|[|d]]]; [lia..|].
    change (validate_stream_tree (S (S d)) (JArr js) (sizes b') = inr tt). rewrite validate_array. apply V; [|done]. apply depth_pairs. lia.
  - destruct Hs as [Hb Hlen]. injection H as <- <-. split; [by exists [bytes]|]. intros d b' Hd Hb'. destruct d as [|d]; [cbn in Hd; lia|].
    change (check (typed_reference [(STATE_TYPE, JStr (constructor_name t)); (BUFFER_ID, JNum (Z.of_nat (length b)) 0)] (sizes b')) TypedBufferReference = inr tt).
    by rewrite (typed_reference_ok t bytes).
  - done.
  - rewrite save_instance in H. destruct (save_list l b) as [[js b2]|] eqn:E; [|done]. injection H as <- <-.
    destruct (save_list_validates l) with (b := b) (js := js) (b1 := b2) as [P V]; [|done|].
    { apply foldr_Forall in Hs. rewrite !Forall_forall in *. intros x Hx. apply (IH x Hx), (Hs x Hx). }
    split; [done|]. intros d b' Hd Hb'. destruct d as [|d]; [cbn in Hd; lia|]. rewrite validate_array. apply V; [|done]. apply depth_list. cbn in Hd. lia.
Qed.

(** ** The second pass puts every page in its place *)

Section Scatter.
  Context {T : Type} (bm : list Z) (write : Z -> list Z -> T -> T) (contents : Z -> list Z) (pages : list Z) (kind : Z) (id offset : Z -> Z).
  Hypothesis Hlen : Forall (fun p => length (contents p) = 4096%nat) pages.
Let data := concat (map contents pages).
  Hypothesis Hkind : uint32 kind.
  Hypothesis Hdata : Forall byte data.
  Hypothesis Hids : forall o, 0 <= o < Z.of_nat (length data) -> uint32 (id o) /\ uint32 (offset o).
Let record := rec_at STREAM_RAM_CHUNK kind id offset data.

Lemma checksum_rec_at o : 0 <= o < Z.of_nat (length data) ->
  word32 (record o) (16 + Z.min STREAM_RAM_CHUNK (Z.of_nat (length data) - o)) = record_checksum (record o).
Proof.
  intros Ho. unfold record_checksum. f_equal. pose proof (length_rec_at STREAM_RAM_CHUNK kind id offset data ram_step_ok o Ho). unfold record. lia.
Qed.

Lemma write_records_at n : forall k A B rest page m, Extended.ceil_div (Z.of_nat (length data)) STREAM_RAM_CHUNK = Z.of_nat k + Z.of_nat n ->
  0 <= page -> rest_pages bm page = drop (255 * k) pages ->
  let os := map (fun k => k * STREAM_RAM_CHUNK) (seqZ (Z.of_nat k) (Z.of_nat n)) in
  write_records (A ++ concat (map record os) ++ B) (Z.of_nat (length data)) kind id offset bm write os (map record_checksum (map record os) ++ rest) (Z.of_nat (length A)) page m
  = (fold_left (fun m p => write p (contents p) m) (drop (255 * k) pages) m, inr (Z.of_nat (length A) + Z.of_nat (length (concat (map record os))), rest)).
Proof.
  induction n as [|n IH]; intros k A B rest page m Hc Hp Hr; cbv zeta.
  - rewrite seqZ_nil by lia. cbn [map concat app write_records length]. rewrite Z.add_0_r. rewrite drop_ge; [done|].
    pose proof (Extended.ceil_div_spec (Z.of_nat (length data)) STREAM_RAM_CHUNK ltac:(lia) ltac:(done)) as H. rewrite Hc in H. unfold data in H.
    rewrite (length_pages _ _ Hlen) in H. unfold STREAM_RAM_CHUNK, STATE_STREAM_CHUNK_SIZE in H. lia.
  - destruct (step_more STREAM_RAM_CHUNK (Z.of_nat (length data)) k n ltac:(lia) ltac:(done) Hc) as (H1 & _ & _). set (o := Z.of_nat k * STREAM_RAM_CHUNK) in *.
    assert (0 <= o < Z.of_nat (length data)) as Ho by (unfold o, STREAM_RAM_CHUNK, STATE_STREAM_CHUNK_SIZE in *; lia).
    rewrite seqZ_steps. fold o. cbn [map concat app write_records]. rewrite <- app_assoc.
    assert (forall B', read_record (A ++ record o ++ B') (Z.of_nat (length A)) kind (id o) (offset o) (Z.min STREAM_RAM_CHUNK (Z.of_nat (length data) - o))
      = inr (record o, Z.of_nat (length A) + Z.of_nat (length (record o)))) as ->.
    { intros B'. pose proof (length_slice data o (o + STREAM_RAM_CHUNK) ltac:(lia) ltac:(unfold STREAM_RAM_CHUNK, STATE_STREAM_CHUNK_SIZE; lia)) as El.
      replace (Z.min _ _) with (Z.of_nat (length (slice data o (o + STREAM_RAM_CHUNK)))) by lia. destruct (Hids o Ho).
      apply read_record_spec; [done..|by apply slice_byte|]. pose proof ram_step_ok. lia. }
    rewrite checksum_rec_at, Z.eqb_refl by done. unfold data at 1. rewrite (length_pages _ _ Hlen). unfold o at 1. rewrite pages_in_group.
    change (record_data (record o)) with (record_data (stream_record kind (id o) (offset o) (slice data o (o + STREAM_RAM_CHUNK)))). rewrite record_data_record.
    unfold data at 1, o at 1 2. rewrite slice_group by done. rewrite drop_group in Hr.
    destruct (scatter_pages_spec bm write contents _ _ page m Hp Hr) as (page' & -> & Hp' & Hr').
    { unfold group. by apply Forall_take, Forall_drop. }
    rewrite (app_assoc A), <- Nat2Z.inj_add, <- length_app. specialize (IH (S k) (A ++ record o) B rest page'). cbv zeta in IH. rewrite IH; [|lia|done|done].
    rewrite (drop_group k), fold_left_app, !length_app, !Nat2Z.inj_add, Z.add_assoc. done.
Qed.

Lemma write_records_spec A B rest m position : rest_pages bm 0 = pages -> position = Z.of_nat (length A) ->
  let rs := recs STREAM_RAM_CHUNK kind id offset data in
  write_records (A ++ concat rs ++ B) (Z.of_nat (length data)) kind id offset bm write (offsets STREAM_RAM_CHUNK (Z.of_nat (length data)))
    (map record_checksum rs ++ rest) position 0 m
  = (fold_left (fun m p => write p (contents p) m) pages m, inr (position + Z.of_nat (length (concat rs)), rest)).
Proof.
  intros Hr ->. cbv zeta. unfold recs. rewrite offsets_steps by (lia || done). fold record.
  apply (write_records_at _ 0); [apply step_count; (lia || done)|done|done].
Qed.

End Scatter.

(** ** Bitmaps are accepted *)

Lemma count_pages_ok bm limit e ps : forall n, Forall (fun p => test_bit bm p = true -> p < limit) ps ->
  count_pages bm limit e ps n = inr (n + Z.of_nat (length (filter (fun p => test_bit bm p = true) ps))).
Proof.
  induction ps as [|p ps IH]; intros n H; cbn [count_pages]; [cbn; f_equal; lia|]. inversion H as [|? ? H1 H2]; subst. destruct (test_bit bm p) eqn:E.
  - rewrite (proj2 (Z.leb_gt limit p)) by auto. rewrite IH by done. rewrite filter_cons_True by done. cbn [length]. f_equal. lia.
  - rewrite filter_cons_False by (by rewrite E). by apply IH.
Qed.

Lemma check_bitmap_ok n zeroed e1 e2 : 0 <= n ->
  check_bitmap (page_bitmap n zeroed).1 n (Z.of_nat (length (page_list n zeroed))) e1 e2 = inr tt.
Proof.
  intros Hn. pose proof (rest_pages_all n zeroed Hn) as Hr. destruct (page_bitmap_spec n zeroed Hn) as (_ & _ & _ & Ht). cbv zeta in Ht. unfold check_bitmap.
  rewrite count_pages_ok.
  - cbn [mbind outcome_bind]. unfold rest_pages in Hr. rewrite Z.sub_0_r in Hr. rewrite Hr. unfold check. by rewrite Z.add_0_l, Z.eqb_refl.
  - apply Forall_forall. intros p Hp%elem_of_seqZ. rewrite Ht by lia. case_bool_decide; [done|]. done.
Qed.

(** ** Memory *)

Lemma shift_page p : p .<< 12 = p * 4096.
Proof. by rewrite Z.shiftl_mul_pow2 by lia. Qed.

Lemma page_contents_slice mem8 p : page_contents mem8 p = slice mem8 (p * 4096) ((p + 1) * 4096).
Proof. unfold page_contents. rewrite shift_page. f_equal. unfold PAGE. lia. Qed.

Definition zeroed (mem8 : list Z) (page : Z) : bool := is_memory_zeroed mem8 (page * 4096) 4096.

Lemma page_list_nonzero mem8 n : page_list n (zeroed mem8) = nonzero_pages mem8 n.
Proof. unfold page_list, nonzero_pages. apply list_filter_ext_in. intros p _. unfold zeroed. by rewrite shift_page. Qed.

Lemma page_list_range n z p : p ∈ page_list n z -> 0 <= p < n.
Proof. intros [_ H%elem_of_seqZ]%list_elem_of_filter. lia. Qed.

Lemma page_list_length n z : 0 <= n -> Z.of_nat (length (page_list n z)) <= n.
Proof. intros Hn. unfold page_list. pose proof (length_filter (fun p => z p = false) (seqZ 0 n)) as H. rewrite length_seqZ in H. lia. Qed.

Lemma restore_ram mem8 mem8' n : Z.of_nat (length mem8) = n * 4096 -> length mem8' = length mem8 ->
  fold_left (fun m p => write_ram p (slice mem8 (p * 4096) ((p + 1) * 4096)) m) (page_list n (zeroed mem8)) (zero_memory mem8' 0 (n * 4096)) = mem8.
Proof.
  intros Hn Hl. assert (zero_memory mem8' 0 (n * 4096) = replicate (length mem8) 0) as ->.
  { unfold zero_memory, set_bytes. replace (Z.to_nat (n * 4096)) with (length mem8) by lia. rewrite length_replicate. cbn [take app Z.to_nat].
    rewrite drop_ge by (cbn; lia). apply app_nil_r. }
  etrans; [|exact (scatter_nonzero mem8 n Hn)]. rewrite page_list_nonzero. generalize (replicate (length mem8) 0).
  induction (nonzero_pages mem8 n) as [|p l IH]; intros m; [done|]. cbn [fold_left]. rewrite page_contents_slice, shift_page. apply IH.
Qed.

Lemma fold_write c l : forall s, Extended.wf s -> Forall (fun p => 0 <= p < Extended.pages s /\ length (c p) = 4096%nat) l ->
  exists s', fold_left (fun e p => write_extended p (c p) e) l (Some s) = Some s' /\ Extended.wf s' /\ Extended.pages s' = Extended.pages s
    /\ Extended.contents s' = fold_left (fun m p => set_bytes m (c p) (p .<< 12)) l (Extended.contents s).
Proof.
  induction l as [|p l IH]; intros s Hw Hl; [by exists s|]. inversion Hl as [|? ? [Hp Hc] Hl']; subst. cbn [fold_left write_extended fmap option_fmap option_map].
  destruct (Extended.write_page_spec s p (c p) Hw Hp) as (W & P & C); [rewrite Hc; done|]. destruct (IH (Extended.write p (c p) s) W) as (s' & E & W' & P' & C').
  - by rewrite P.
  - exists s'. rewrite C in C'. rewrite P in P'. done.
Qed.

Lemma page_list_extended e : Extended.wf e -> page_list (Extended.pages e) (Extended.is_zero e) = nonzero_pages (Extended.contents e) (Extended.pages e).
Proof.
  intros Hw. unfold page_list, nonzero_pages. apply list_filter_ext_in. intros p Hp%elem_of_seqZ. by rewrite Extended.is_zero_spec by (done || lia).
Qed.

Lemma extended_page_length e p : Extended.wf e -> 0 <= p < Extended.pages e -> length (Extended.page e p) = 4096%nat.
Proof.
  intros Hw Hp. rewrite Extended.page_spec by done. rewrite length_page; [done|lia|]. rewrite Extended.length_contents by done. unfold PAGE, Extended.EXTENDED_PAGE_SIZE. lia.
Qed.

Lemma restore_extended e e' : Extended.wf e -> Extended.wf e' -> Extended.pages e' = Extended.pages e ->
  exists e2, fold_left (fun o p => write_extended p (Extended.page e p) o) (page_list (Extended.pages e) (Extended.is_zero e)) (Some (Extended.clear e')) = Some e2
    /\ Extended.wf e2 /\ Extended.pages e2 = Extended.pages e /\ Extended.contents e2 = Extended.contents e.
Proof.
  intros Hw Hw' Hp. destruct (Extended.clear_spec e' Hw') as (W & P & C). pose proof (Extended.length_contents e Hw) as L. pose proof (Extended.length_contents e' Hw') as L'.
  destruct (fold_write (Extended.page e) (page_list (Extended.pages e) (Extended.is_zero e)) (Extended.clear e') W) as (e2 & E & W2 & P2 & C2).
  { apply Forall_forall. intros p Hpp%page_list_range. split; [lia|]. by apply extended_page_length. }
  exists e2. split; [done|]. split; [done|]. split; [congruence|]. rewrite C2, C. replace (length (Extended.contents e')) with (length (Extended.contents e)) by (rewrite Hp in L'; lia).
  rewrite page_list_extended by done. etrans; [|exact (scatter_nonzero (Extended.contents e) (Extended.pages e) L)].
  assert (Forall (fun p => 0 <= p < Extended.pages e) (nonzero_pages (Extended.contents e) (Extended.pages e))) as Hr.
  { apply Forall_forall. intros p Hpp. rewrite <- page_list_extended in Hpp by done. by apply page_list_range in Hpp. }
  generalize (replicate (length (Extended.contents e)) 0). induction Hr as [|p l Hpp Hl IH]; intros m; [done|]. cbn [fold_left]. rewrite Extended.page_spec by done. apply IH.
Qed.

End StreamLayout.
