(* ===== verification/StreamTrip.v ===== *)
(** * The round trip of a streamed snapshot

    The stream a machine writes, and the reader of [Stream] on it: the machine that
    restores it has the memory of the machine that was saved. *)

From S2P Require Import Prelude Lib Text Json Crc State Extended Stream StreamLayout.

Import Text Json Crc State Stream StreamLayout.

Open Scope js_scope.

Module StreamTrip.

#[local] Opaque stream_crc.

(** ** A machine that can be saved *)

Record saveable (cpu : machine) : Prop := {
  sv_memory : Z.of_nat (length (mem8 cpu)) = memory_size cpu;
  sv_pages : memory_size cpu mod 4096 = 0;
  sv_size : memory_size cpu < 2 ^ 32;
  sv_bytes : Forall byte (mem8 cpu);
  sv_extended : forall e, extended_store cpu = Some e -> Extended.wf e /\ Extended.pages e < 2 ^ 40 /\ Forall byte (Extended.contents e);
  sv_first : state cpu !! 0%nat = Some (VNum (memory_size cpu) 0);
  sv_entries : (99 < length (state cpu))%nat;
  sv_storable : storable (VArray (state cpu));
  sv_depth : (depth (VArray (state cpu)) <= DEPTH)%nat
}.

Definition ram_bits (cpu : machine) : list Z := (page_bitmap (memory_size cpu / 4096) (zeroed (mem8 cpu))).1.
Definition ram_pages (cpu : machine) : list Z := page_list (memory_size cpu / 4096) (zeroed (mem8 cpu)).
Definition extended_bits (cpu : machine) : option (list Z) :=
  match extended_store cpu with Some e => Some (page_bitmap (Extended.pages e) (Extended.is_zero e)).1 | None => None end.
Definition extended_list (cpu : machine) : list Z :=
  match extended_store cpu with Some e => page_list (Extended.pages e) (Extended.is_zero e) | None => [] end.

(** The state that is saved. *)
Definition image (cpu : machine) : value := saved_state cpu (ram_bits cpu) (extended_bits cpu).

Definition manifest_of (cpu : machine) (st : json) (b : buffers) : list Z := json_bytes (manifest_json st b (Z.of_nat (length (extended_list cpu)))).
Definition header_words (cpu : machine) (m : list Z) (b : buffers) : list Z :=
  [STATE_MAGIC; STREAM_VERSION; STATE_STREAM_CHUNK_SIZE; Z.of_nat (length m); Z.of_nat (length b); memory_size cpu; Z.of_nat (length (ram_pages cpu)) * 4096; stream_crc 0 m].
Definition stream_of (cpu : machine) (st : json) (b : buffers) : stream :=
  let m := manifest_of cpu st b in
  mk_stream (concat (map bytes32 (header_words cpu m b))) m b (mem8 cpu) (ram_bits cpu) (Z.of_nat (length (ram_pages cpu)) * 4096)
    (extended_store cpu) (default [] (extended_bits cpu)) (Z.of_nat (length (extended_list cpu)) * 4096) 0 0 0 0 0.

Lemma check_true c e : c = true -> check c e = inr tt.
Proof. by intros ->. Qed.

Lemma bind_intro {A B} (m : outcome A) (k : A -> outcome B) a r : m = inr a -> k a = r -> m ≫= k = r.
Proof. by intros -> <-. Qed.

(** The next step of a computation succeeds with [a]. *)
Tactic Notation "bind" uconstr(a) "by" tactic3(tac) := refine (bind_intro _ _ a _ _ _); [solve [tac]|cbv beta iota].

Section Machine.
  Context (cpu : machine) (st : json) (b : buffers).
  Hypothesis Hcpu : saveable cpu.
  Hypothesis Hsave : save_object (image cpu) [] = Some (st, b).
  Hypothesis Hlimit : Z.of_nat (length (manifest_of cpu st b)) <= STREAM_INFO_LIMIT.
  Hypothesis Hcount : Z.of_nat (length b) <= 65536.
  Hypothesis Hsizes : Forall (fun buffer => Z.of_nat (length buffer) < 2 ^ 32) b.

Let s0 := stream_of cpu st b.

Lemma size_nonneg : 0 <= memory_size cpu / 4096 /\ memory_size cpu / 4096 * 4096 = memory_size cpu.
Proof.
  destruct Hcpu. pose proof (Z.div_mod (memory_size cpu) 4096 ltac:(lia)). pose proof (Z.div_pos (memory_size cpu) 4096 ltac:(lia) ltac:(lia)). lia.
Qed.

Lemma extended_count : (match extended_store cpu with
    | Some e => let '(ebm, count) := page_bitmap (Extended.pages e) (Extended.is_zero e) in (Some ebm, count)
    | None => (None, 0) end) = (extended_bits cpu, Z.of_nat (length (extended_list cpu))).
Proof.
  unfold extended_bits, extended_list. destruct (extended_store cpu) as [e|] eqn:E; [|done]. destruct (sv_extended cpu Hcpu e E) as (Hw & _ & _).
  destruct (page_bitmap_spec (Extended.pages e) (Extended.is_zero e) (Extended.wf_pages e Hw)) as (_ & _ & H & _). cbv zeta in H. by destruct (page_bitmap _ _) as [x y]; cbn in *; subst y.
Qed.

Lemma ram_count : page_bitmap (memory_size cpu / 4096) (fun page => is_memory_zeroed (mem8 cpu) (page * 4096) 4096) = (ram_bits cpu, Z.of_nat (length (ram_pages cpu))).
Proof.
  destruct size_nonneg as [Hn _]. destruct (page_bitmap_spec (memory_size cpu / 4096) (zeroed (mem8 cpu)) Hn) as (_ & _ & H & _). cbv zeta in H. fold (ram_pages cpu) in H.
  rewrite <- H. apply surjective_pairing.
Qed.

Lemma create_spec : create_state_stream cpu = inr s0.
Proof.
  unfold create_state_stream. cbv zeta. pose proof (sv_memory cpu Hcpu) as Hm. pose proof (sv_pages cpu Hcpu) as Hp.
  bind tt by (rewrite Hm, Z.ltb_irrefl, Hp; done). rewrite ram_count, extended_count. cbv iota.
  bind (st, b) by (change (saved_state cpu (ram_bits cpu) (extended_bits cpu)) with (image cpu); by rewrite Hsave).
  bind tt by (apply check_true, Z.leb_le, Hlimit). reflexivity.
Qed.

Lemma ram_rest : rest_pages (ram_bits cpu) 0 = ram_pages cpu.
Proof. apply rest_pages_all, size_nonneg. Qed.

Lemma extended_rest : rest_pages (default [] (extended_bits cpu)) 0 = extended_list cpu.
Proof.
  unfold extended_bits, extended_list. destruct (extended_store cpu) as [e|] eqn:E; [|done]. apply rest_pages_all. by destruct (sv_extended cpu Hcpu e E) as ([] & _).
Qed.

Lemma ram_page_length : Forall (fun p => length (ram_contents s0 p) = 4096%nat) (ram_pages cpu).
Proof.
  apply Forall_forall. intros p Hp%page_list_range. unfold ram_contents. cbn [ram s0 stream_of]. destruct size_nonneg. pose proof (sv_memory cpu Hcpu).
  apply Nat2Z.inj. rewrite length_slice; lia.
Qed.

Lemma extended_list_length : Forall (fun p => length (extended_contents s0 p) = 4096%nat) (extended_list cpu).
Proof.
  apply Forall_forall. intros p. unfold extended_contents, extended_list, s0, stream_of. cbn [extended]. destruct (extended_store cpu) as [e|] eqn:E; [|by intros ?%elem_of_nil].
  intros Hp%page_list_range. destruct (sv_extended cpu Hcpu e E) as (Hw & _). by apply extended_page_length.
Qed.

Definition ram_data : list Z := concat (map (ram_contents s0) (ram_pages cpu)).
Definition extended_data : list Z := concat (map (extended_contents s0) (extended_list cpu)).

Lemma length_ram_data : Z.of_nat (length ram_data) = Z.of_nat (length (ram_pages cpu)) * 4096.
Proof. unfold ram_data. rewrite length_pages by apply ram_page_length. lia. Qed.
Lemma length_extended_data : Z.of_nat (length extended_data) = Z.of_nat (length (extended_list cpu)) * 4096.
Proof. unfold extended_data. rewrite length_pages by apply extended_list_length. lia. Qed.

Lemma ram_data_byte : Forall byte ram_data.
Proof. apply Forall_concat, Forall_map, Forall_forall. intros p _. apply slice_byte, (sv_bytes cpu Hcpu). Qed.
Lemma extended_data_byte : Forall byte extended_data.
Proof.
  apply Forall_concat, Forall_map, Forall_forall. intros p. unfold extended_contents, extended_list, s0, stream_of. cbn [extended].
  destruct (extended_store cpu) as [e|] eqn:E; [|by intros ?%elem_of_nil]. intros Hp%page_list_range. destruct (sv_extended cpu Hcpu e E) as (Hw & _ & Hb).
  rewrite Extended.page_spec by done. by apply slice_byte.
Qed.

(** ** The chunks, and the stream they make up *)

Definition chunks : list (list Z) :=
  concat (map bytes32 (header_words cpu (manifest_of cpu st b) b)) :: pieces s0 ++ buffer_chunks 0 b ++ rrecs s0 (ram_pages cpu) ++ erecs s0 (extended_list cpu).

Lemma pulls_chunks : pulls s0 chunks.
Proof.
  apply (pulls_all s0 (ram_pages cpu) (extended_list cpu)); [apply ram_rest|apply extended_rest|apply ram_page_length|apply extended_list_length|].
  unfold at_. fold ram_data extended_data. rewrite length_ram_data, length_extended_data. reflexivity.
Qed.

Definition head : list Z := concat (map bytes32 (header_words cpu (manifest_of cpu st b) b)).
Definition body : list Z := concat (buffer_chunks 0 b).
Definition ram_part : list Z := concat (rrecs s0 (ram_pages cpu)).
Definition extended_part : list Z := concat (erecs s0 (extended_list cpu)).
Definition source : list Z := head ++ manifest_of cpu st b ++ body ++ ram_part ++ extended_part.

Lemma concat_chunks : concat chunks = source.
Proof.
  unfold chunks, source, head, body, ram_part, extended_part. cbn [concat]. rewrite !concat_app. do 2 f_equal. apply concat_slices. done.
Qed.

Lemma length_head : length head = 32%nat.
Proof. reflexivity. Qed.

Lemma bytes_chunks : Forall (fun c => Z.of_nat (length c) <= STATE_STREAM_CHUNK_SIZE) chunks.
Proof.
  unfold chunks. constructor; [done|]. rewrite !Forall_app. split; [|split; [|split]].
  - unfold pieces. apply Forall_map. eapply Forall_impl; [apply (offsets_lt STATE_STREAM_CHUNK_SIZE); done|]. intros o Ho. cbv beta in *.
    rewrite length_slice by (unfold STATE_STREAM_CHUNK_SIZE; lia). lia.
  - generalize 0. clear. induction b as [|buffer b' IH]; intros id; [constructor|]. cbn [buffer_chunks]. apply Forall_app. split; [apply recs_chunks, buffer_step_ok|apply IH].
  - apply recs_chunks, ram_step_ok.
  - apply recs_chunks, ram_step_ok.
Qed.

(** ** The saved state is valid *)

Lemma image_entries : exists l, image cpu = VArray l /\ Forall storable l /\ Forall (fun v => (depth v <= 256)%nat) l
  /\ l !! 0%nat = Some (VNum (memory_size cpu) 0) /\ l !! 77%nat = Some VNull /\ l !! 78%nat = Some (VTyped Uint8Array (ram_bits cpu))
  /\ l !! 99%nat = Some (match extended_bits cpu with Some e => VTyped Uint8Array e | None => VNull end).
Proof.
  pose proof (sv_entries cpu Hcpu) as Hl. pose proof (sv_storable cpu Hcpu) as Hs. pose proof (sv_depth cpu Hcpu) as Hd. apply foldr_Forall in Hs.
  assert (Forall (fun v => (depth v <= 256)%nat) (state cpu)) as Hd' by (apply depth_list; unfold DEPTH in Hd; cbn [depth] in Hd; lia).
  eexists. split; [reflexivity|]. set (ext := match extended_bits cpu with Some e => VTyped Uint8Array e | None => VNull end).
  assert (forall bits, Forall byte bits -> storable (VTyped Uint8Array bits)) as Hb by (intros bits H; split; [done|apply Z.mod_1_r]).
  assert (storable (VTyped Uint8Array (ram_bits cpu))) as H78 by (apply Hb, page_bitmap_spec, size_nonneg).
  assert (storable ext /\ (depth ext <= 256)%nat) as [H99 D99].
  { unfold ext, extended_bits. destruct (extended_store cpu) as [e|] eqn:E; [|split; [done|cbn; lia]]. split; [|cbn; lia].
    apply Hb, page_bitmap_spec. by destruct (sv_extended cpu Hcpu e E) as ([] & _). }
  split; [by repeat apply Forall_insert|]. split; [repeat apply Forall_insert; try done; cbn; lia|].
  split; [rewrite !list_lookup_insert_ne by done; apply (sv_first cpu Hcpu)|].
  split; [rewrite !(list_lookup_insert_ne _ _ 77) by done; apply list_lookup_insert_eq; lia|].
  split; [rewrite (list_lookup_insert_ne _ _ 78) by done|]; apply list_lookup_insert_eq; rewrite !length_insert; lia.
Qed.

Lemma image_storable : storable (image cpu).
Proof. destruct image_entries as (l & -> & Hs & _). by apply foldr_Forall. Qed.

Lemma image_depth : (depth (image cpu) <= DEPTH)%nat.
Proof. destruct image_entries as (l & -> & _ & Hd & _). cbn [depth]. apply depth_list in Hd. unfold DEPTH. lia. Qed.

Lemma saved_facts : Json.wf st /\ Forall (Forall byte) b /\ restore_buffers st b = Some (shape (image cpu)) /\ validate_stream_tree DEPTH st (sizes b) = inr tt.
Proof.
  destruct (save_object_spec (image cpu) image_storable []) as (j & new & E & W & B & R). rewrite Hsave in E. injection E as <- <-.
  split; [done|]. split; [done|]. split; [by apply R|]. destruct (save_object_validates _ image_storable _ _ _ Hsave) as [_ V]. apply V; [apply image_depth|done].
Qed.

Lemma manifest_wf : Json.wf (manifest_json st b (Z.of_nat (length (extended_list cpu)))).
Proof.
  destruct saved_facts as (W & _). cbn [Json.wf manifest_json fmap list_fmap]. split; [apply (bool_decide_unpack _); vm_compute; exact I|].
  split; [split; [apply text_of_word16|done]|]. split; [split; [apply text_of_word16|]|].
  - apply foldr_Forall, Forall_map, Forall_forall. intros buffer _. by left.
  - split; [split; [apply text_of_word16|by left]|done].
Qed.

Lemma manifest_parse : decode_fatal (manifest_of cpu st b) ≫= parse = Some (manifest_json st b (Z.of_nat (length (extended_list cpu)))).
Proof. apply json_roundtrip_fatal, manifest_wf. Qed.

Lemma manifest_byte : Forall byte (manifest_of cpu st b).
Proof. apply json_bytes_byte, manifest_wf. Qed.

Lemma read_numbers e l : numbers e (map (fun buffer : list Z => JNum (Z.of_nat (length buffer)) 0) l) = inr (sizes l).
Proof. induction l as [|x l IH]; [done|]. cbn [map numbers number mbind outcome_bind]. by rewrite IH. Qed.

(** ** The header and the manifest are read back *)

Lemma words_at ws : forall i v, ws !! i = Some v -> word32 (concat (map bytes32 ws)) (4 * Z.of_nat i) = u32 v.
Proof.
  intros i v Hi. apply list_elem_of_split_length in Hi as (l1 & l2 & -> & ->). rewrite map_app, concat_app. cbn [map concat]. apply word32_bytes32.
  clear. induction l1 as [|x l IH]; [done|]. cbn [map concat length]. rewrite length_app, Nat2Z.inj_add, <- IH, length_bytes32. lia.
Qed.

Lemma header_bounds : Forall uint32 (tail (header_words cpu (manifest_of cpu st b) b)).
Proof.
  destruct size_nonneg as [Hn Hm]. pose proof (sv_size cpu Hcpu). pose proof (page_list_length (memory_size cpu / 4096) (zeroed (mem8 cpu)) Hn) as Hp. fold (ram_pages cpu) in Hp.
  pose proof (stream_crc_bound 0 _ manifest_byte). unfold STREAM_INFO_LIMIT in *. unfold header_words. cbn [tail].
  repeat constructor; unfold uint32 in *; change (2 ^ 32) with 4294967296 in *; unfold STREAM_VERSION, STATE_STREAM_CHUNK_SIZE in *; try lia.
Qed.

Lemma stream_header_word i v : tail (header_words cpu (manifest_of cpu st b) b) !! i = Some v -> word32 head (4 * Z.of_nat (S i)) = v.
Proof.
  intros Hi. unfold head. rewrite (words_at _ (S i) v); [|done]. apply u32_id. pose proof header_bounds as H. rewrite Forall_lookup in H. by apply (H i).
Qed.

Lemma read_manifest_at (m B : list Z) (A : list Z) os : length A = 32%nat -> Forall (fun o => 0 <= o < Z.of_nat (length m)) os ->
  read_manifest (A ++ m ++ B) (Z.of_nat (length m)) os = inr (map (fun o => slice m o (o + STATE_STREAM_CHUNK_SIZE)) os).
Proof.
  intros HA. induction 1 as [|o os Ho Hos IH]; [done|]. cbn [read_manifest map]. unfold stream_read, check, STREAM_HEADER_SIZE. set (len := Z.min STATE_STREAM_CHUNK_SIZE (Z.of_nat (length m) - o)).
  assert (0 <= len <= STATE_STREAM_CHUNK_SIZE /\ o + len <= Z.of_nat (length m)) as [H1 H2] by (unfold len, STATE_STREAM_CHUNK_SIZE; lia).
  rewrite (proj2 (Z.ltb_ge STATE_STREAM_CHUNK_SIZE len)) by lia. rewrite (proj2 (Z.ltb_ge (Z.of_nat (length (A ++ m ++ B))) (32 + o + len))) by (rewrite !length_app; lia).
  cbn [orb negb mbind outcome_bind]. rewrite IH. cbn [mbind outcome_bind]. do 2 f_equal. unfold slice.
  replace (Z.to_nat (32 + o)) with (length A + Z.to_nat o)%nat by lia. rewrite <- drop_drop, drop_app_length, drop_app_le by lia.
  rewrite take_app_le by (rewrite length_drop; lia). unfold len. replace (32 + o + _ - (32 + o)) with (Z.min STATE_STREAM_CHUNK_SIZE (Z.of_nat (length m) - o)) by lia.
  replace (o + STATE_STREAM_CHUNK_SIZE - o) with STATE_STREAM_CHUNK_SIZE by lia.
  destruct (decide (STATE_STREAM_CHUNK_SIZE <= Z.of_nat (length m) - o)); [by rewrite Z.min_l by done|]. rewrite Z.min_r by lia. rewrite !take_ge by (rewrite length_drop; lia). done.
Qed.

Lemma total_ok : fold_left (fun total length => total + length + Extended.ceil_div length BUFFER_STEP * STREAM_RECORD_SIZE) (sizes b) (STREAM_HEADER_SIZE + Z.of_nat (length (manifest_of cpu st b)))
    + Z.of_nat (length ram_data) + Extended.ceil_div (Z.of_nat (length ram_data)) STREAM_RAM_CHUNK * STREAM_RECORD_SIZE
    + Z.of_nat (length extended_data) + Extended.ceil_div (Z.of_nat (length extended_data)) STREAM_RAM_CHUNK * STREAM_RECORD_SIZE
  = Z.of_nat (length source).
Proof.
  unfold source. rewrite !length_app, !Nat2Z.inj_add, length_head. unfold body, ram_part, extended_part, rrecs, erecs. rewrite length_buffer_chunks.
  fold ram_data extended_data. rewrite !length_recs by apply ram_step_ok. unfold STREAM_HEADER_SIZE, STREAM_RECORD_SIZE. change (Z.of_nat 32) with 32.
  assert (forall l n, fold_left (fun total length => total + length + Extended.ceil_div length BUFFER_STEP * 20) (sizes l) n
    = n + foldr (fun buffer n => Z.of_nat (length buffer) + Extended.ceil_div (Z.of_nat (length buffer)) BUFFER_STEP * 20 + n) 0 l) as ->; [|lia].
  clear. induction l as [|x l IH]; intros n; [cbn; lia|]. cbn [sizes map fold_left foldr] in *. rewrite IH. lia.
Qed.

(** ** The reader accepts what the writer wrote *)

(** The machine that reads: as much memory, as many extended pages. *)
Definition compatible (target : machine) : Prop :=
  length (mem8 target) = length (mem8 cpu)
  /\ match extended_store cpu, extended_store target with
     | Some e, Some e' => Extended.wf e' /\ Extended.pages e' = Extended.pages e
     | None, None => True
     | _, _ => False
     end.

Lemma extended_facts target : compatible target -> extended_pages target = extended_pages cpu /\ Z.of_nat (length (extended_list cpu)) <= extended_pages cpu < 2 ^ 40.
Proof.
  intros [_ H]. unfold extended_pages, extended_list. destruct (extended_store cpu) as [e|] eqn:E, (extended_store target) as [e'|]; try done.
  destruct H as [_ ->]. destruct (sv_extended cpu Hcpu e E) as (Hw & Hp & _). pose proof (page_list_length (Extended.pages e) (Extended.is_zero e) (Extended.wf_pages e Hw)). done.
Qed.

Lemma read_head : stream_read source 0 STREAM_HEADER_SIZE = inr head.
Proof.
  unfold stream_read. rewrite check_true.
  - cbn [mbind outcome_bind]. apply (f_equal inr), (slice_app [] head); done.
  - unfold source. rewrite length_app, length_head. change STREAM_HEADER_SIZE with 32. change (STATE_STREAM_CHUNK_SIZE <? 32) with false. cbn [orb].
    rewrite (proj2 (Z.ltb_ge _ _)) by lia. done.
Qed.

Lemma manifest_size : 0 < Z.of_nat (length (manifest_of cpu st b)).
Proof.
  destruct (manifest_of cpu st b) as [|x l] eqn:E; [|cbn; lia]. exfalso. pose proof manifest_parse as H. rewrite E in H.
  assert (decode_fatal [] ≫= parse = None) as H' by (vm_compute; reflexivity). rewrite H' in H. discriminate H.
Qed.

Lemma sizes_ok : existsb (fun length => (MAX_SAFE_INTEGER <? Z.abs length) || (length <? 0) || (0xFFFFFFFF <? length)) (sizes b) = false.
Proof.
  apply not_true_is_false. intros (x & Hx & H)%existsb_exists. apply in_map_iff in Hx as (buffer & <- & Hb). rewrite Forall_forall in Hsizes.
  apply list_elem_of_In in Hb. specialize (Hsizes buffer Hb). unfold MAX_SAFE_INTEGER in H. lia.
Qed.

Lemma extended_bits_ok target : compatible target ->
  (match match extended_bits cpu with Some e => Some (VTyped Uint8Array e) | None => None end with
   | None => if Z.of_nat (length (extended_list cpu)) =? 0 then inr [] else inl ExtendedRamBitmap
   | Some (VTyped Uint8Array ebm) =>
       if Z.of_nat (length ebm) =? Extended.ceil_div (extended_pages target) 8 then
         _ ← check_bitmap ebm (extended_pages target) (Z.of_nat (length (extended_list cpu))) ExtendedBitmapBeyondRam ExtendedBitmapCount; inr ebm
       else inl ExtendedRamBitmap
   | Some _ => inl ExtendedRamBitmap
   end : outcome (list Z)) = inr (default [] (extended_bits cpu)).
Proof.
  intros Ht. destruct (extended_facts target Ht) as [-> _]. unfold extended_bits, extended_list, extended_pages. destruct (extended_store cpu) as [e|] eqn:E; [|done].
  destruct (sv_extended cpu Hcpu e E) as (Hw & _). destruct (page_bitmap_spec (Extended.pages e) (Extended.is_zero e) (Extended.wf_pages e Hw)) as (-> & _).
  rewrite Z.eqb_refl. by rewrite check_bitmap_ok by apply (Extended.wf_pages e Hw).
Qed.

Definition ram_from : Z := 32 + Z.of_nat (length (manifest_of cpu st b)) + Z.of_nat (length body).

Lemma source_ram : source = (head ++ manifest_of cpu st b ++ body) ++ ram_part ++ extended_part.
Proof. unfold source. by rewrite <- !app_assoc. Qed.
Lemma source_extended : source = ((head ++ manifest_of cpu st b ++ body) ++ ram_part) ++ extended_part ++ [].
Proof. unfold source. by rewrite <- !app_assoc, app_nil_r. Qed.
Lemma length_before_ram : ram_from = Z.of_nat (length (head ++ manifest_of cpu st b ++ body)).
Proof. unfold ram_from. rewrite !length_app, length_head. lia. Qed.
Lemma length_before_extended : ram_from + Z.of_nat (length ram_part) = Z.of_nat (length ((head ++ manifest_of cpu st b ++ body) ++ ram_part)).
Proof. rewrite length_before_ram, (length_app _ ram_part). lia. Qed.

Lemma ram_ids o : 0 <= o < Z.of_nat (length ram_data) -> uint32 0 /\ uint32 o.
Proof.
  rewrite length_ram_data. intros Ho. destruct size_nonneg as [Hn Hm]. pose proof (page_list_length _ (zeroed (mem8 cpu)) Hn). fold (ram_pages cpu) in *.
  pose proof (sv_size cpu Hcpu). unfold uint32. lia.
Qed.
Lemma extended_ids target o : compatible target -> 0 <= o < Z.of_nat (length extended_data) -> uint32 (o / 0x100000000) /\ uint32 (u32 o).
Proof.
  rewrite length_extended_data. intros Ht Ho. destruct (extended_facts target Ht) as (_ & He). split; [|apply u32_uint32].
  pose proof (Z.div_mod o 0x100000000 ltac:(lia)). pose proof (Z.mod_pos_bound o 0x100000000 ltac:(lia)). unfold uint32. lia.
Qed.

Lemma ram_records_ok : ram_records source (Z.of_nat (length ram_data)) ram_from = inr (rrecs s0 (ram_pages cpu), ram_from + Z.of_nat (length ram_part)).
Proof.
  unfold ram_records. rewrite source_ram. apply read_records_spec; [apply ram_step_ok|unfold uint32; lia|apply ram_data_byte|intros o Ho; by apply ram_ids|apply length_before_ram].
Qed.

Lemma extended_records_ok target : compatible target -> extended_records source (Z.of_nat (length extended_data)) (ram_from + Z.of_nat (length ram_part))
  = inr (erecs s0 (extended_list cpu), ram_from + Z.of_nat (length ram_part) + Z.of_nat (length extended_part)).
Proof.
  intros Ht. unfold extended_records. rewrite source_extended.
  apply read_records_spec; [apply ram_step_ok|unfold uint32; lia|apply extended_data_byte|intros o Ho; by apply (extended_ids target)|apply length_before_extended].
Qed.

Lemma read_buffers_ok : read_stream_buffers source 0 (sizes b) (STREAM_HEADER_SIZE + Z.of_nat (length (manifest_of cpu st b))) = inr (b, ram_from).
Proof.
  destruct saved_facts as (_ & B & _). assert (source = (head ++ manifest_of cpu st b) ++ body ++ ram_part ++ extended_part) as -> by (unfold source; by rewrite <- !app_assoc).
  pose proof (read_buffers_at b 0 (head ++ manifest_of cpu st b) (ram_part ++ extended_part) B Hsizes ltac:(lia) ltac:(lia)) as H.
  rewrite length_app, length_head, Nat2Z.inj_add in H. exact H.
Qed.

Definition restored_state : checked :=
  mk_checked (shape (image cpu)) (ram_bits cpu) (memory_size cpu) (Z.of_nat (length ram_data)) (default [] (extended_bits cpu)) (Z.of_nat (length extended_data))
    ram_from (map record_checksum (rrecs s0 (ram_pages cpu) ++ erecs s0 (extended_list cpu))).

Lemma ram_sizes : Z.of_nat (length ram_data) <= memory_size cpu /\ Z.of_nat (length ram_data) mod 4096 = 0 /\ Z.of_nat (length ram_data) / 4096 = Z.of_nat (length (ram_pages cpu)).
Proof.
  rewrite length_ram_data. destruct size_nonneg as [Hn Hm]. pose proof (page_list_length _ (zeroed (mem8 cpu)) Hn). fold (ram_pages cpu) in *.
  split; [lia|]. split; [apply Z.mod_mul|apply Z.div_mul]; lia.
Qed.

Lemma ram_bits_length : Z.of_nat (length (ram_bits cpu)) = Extended.ceil_div (memory_size cpu / 4096) 8.
Proof. apply page_bitmap_spec, size_nonneg. Qed.

Lemma shape_image : exists l, shape (image cpu) = VArray l /\ l !! 0%nat = Some (VNum (memory_size cpu) 0) /\ l !! 77%nat = Some VNull
  /\ l !! 78%nat = Some (VTyped Uint8Array (ram_bits cpu))
  /\ match l !! 99%nat with Some v => if falsy v then None else Some v | None => None end = match extended_bits cpu with Some e => Some (VTyped Uint8Array e) | None => None end.
Proof.
  destruct image_entries as (l & -> & _ & _ & H0 & H77 & H78 & H99). exists (map shape l). split; [done|].
  rewrite !list_lookup_fmap, H0, H77, H78, H99. by destruct (extended_bits cpu).
Qed.

Lemma header_fields : word32 head 0 = u32 STATE_MAGIC /\ word32 head 4 = STREAM_VERSION /\ word32 head 8 = STATE_STREAM_CHUNK_SIZE
  /\ word32 head 12 = Z.of_nat (length (manifest_of cpu st b)) /\ word32 head 16 = Z.of_nat (length b) /\ word32 head 20 = memory_size cpu
  /\ word32 head 24 = Z.of_nat (length ram_data) /\ word32 head 28 = stream_crc 0 (manifest_of cpu st b).
Proof.
  split; [by apply (words_at (header_words cpu (manifest_of cpu st b) b) 0)|]. rewrite length_ram_data.
  split; [by apply (stream_header_word 0)|]. split; [by apply (stream_header_word 1)|]. split; [by apply (stream_header_word 2)|]. split; [by apply (stream_header_word 3)|].
  split; [by apply (stream_header_word 4)|]. split; [by apply (stream_header_word 5)|]. by apply (stream_header_word 6).
Qed.

Lemma first_pass_ok validate target : compatible target -> validate (shape (image cpu)) = true -> first_pass validate target source = inr restored_state.
Proof.
  intros Ht Hv. destruct header_fields as (W0 & W1 & W2 & W3 & W4 & W5 & W6 & W7). destruct ram_sizes as (R1 & R2 & R3). destruct (extended_facts target Ht) as [X1 X2].
  destruct saved_facts as (_ & _ & Hrestore & Htree). destruct shape_image as (l & El & L0 & L77 & L78 & L99). pose proof manifest_size as Hms. pose proof Ht as [Hmem _].
  pose proof (sv_memory cpu Hcpu) as Hcm. pose proof (sv_pages cpu Hcpu) as Hcp.
  rewrite El in Hrestore, Hv. unfold restored_state. rewrite El. unfold first_pass. cbv zeta.
  bind head by apply read_head. rewrite W0, W1, W2, W3, W4, W5, W6, W7. bind tt by done.
  bind tt by (rewrite Hmem, Hcm, R2, Hcp, (proj2 (Z.eqb_neq _ 0)), !(proj2 (Z.ltb_ge _ _)) by lia; done).
  bind (pieces s0) by (apply read_manifest_at; [apply length_head|by apply offsets_lt]). unfold pieces. rewrite concat_slices by done. change (manifest s0) with (manifest_of cpu st b).
  bind tt by (apply check_true, Z.eqb_refl). bind (manifest_json st b (Z.of_nat (length (extended_list cpu)))) by (by rewrite manifest_parse).
  bind (sizes b) by apply (read_numbers BufferLengths b).
  bind tt by (unfold sizes at 1; rewrite length_map, Z.eqb_refl, (proj2 (Z.ltb_ge 65536 _)), sizes_ok by lia; done).
  bind (Z.of_nat (length (extended_list cpu))) by done.
  bind tt by (apply check_true; rewrite X1; unfold MAX_SAFE_INTEGER; rewrite !(proj2 (Z.ltb_ge _ _)) by lia; done). rewrite <- length_extended_data.
  bind tt by (apply check_true, Z.eqb_eq, total_ok).
  bind tt by apply Htree. bind (b, ram_from) by apply read_buffers_ok. bind (VArray l) by (change (need InvalidState (restore_buffers st b) = inr (VArray l)); by rewrite Hrestore).
  bind (l, ram_bits cpu) by (rewrite L0, L77, L78; cbv iota; rewrite ram_bits_length, !Z.eqb_refl; done).
  bind tt by (rewrite R3; apply check_bitmap_ok, size_nonneg). rewrite L99. bind (default [] (extended_bits cpu)) by by apply extended_bits_ok.
  bind tt by by apply check_true. bind (rrecs s0 (ram_pages cpu), ram_from + Z.of_nat (length ram_part)) by apply ram_records_ok.
  bind (erecs s0 (extended_list cpu), ram_from + Z.of_nat (length ram_part) + Z.of_nat (length extended_part)) by by apply (extended_records_ok target).
  reflexivity.
Qed.

(** Extended memory holds what that of [cpu] holds. *)
Definition same_extended (target : machine) : Prop :=
  match extended_store cpu, extended_store target with
  | Some e, Some e' => Extended.wf e' /\ Extended.pages e' = Extended.pages e /\ Extended.contents e' = Extended.contents e
  | None, None => True
  | _, _ => False
  end.

Lemma restore_extended_ok target : compatible target -> exists e,
  fold_left (fun o p => write_extended p (extended_contents s0 p) o) (extended_list cpu) (extended_store (clear_extended_memory target)) = e
  /\ forall m t, same_extended (target <| mem8 := m |> <| extended_store := t |> <| extended_store := e |>).
Proof.
  intros [_ H]. unfold extended_contents, extended_list, same_extended, s0, stream_of, clear_extended_memory. cbn [extended extended_store].
  destruct (extended_store cpu) as [e|] eqn:E, (extended_store target) as [e'|]; try done; [|by exists None].
  destruct H as [Hw' Hp]. destruct (sv_extended cpu Hcpu e E) as (Hw & _). destruct (restore_extended e e' Hw Hw' Hp) as (e2 & H1 & H2). exists (Some e2). split; [exact H1|done].
Qed.

Lemma write_ram_ok rest m :
  write_records source (Z.of_nat (length ram_data)) 2 (fun _ => 0) (fun o => o) (ram_bits cpu) write_ram (offsets STREAM_RAM_CHUNK (Z.of_nat (length ram_data)))
    (map record_checksum (rrecs s0 (ram_pages cpu)) ++ rest) ram_from 0 m
  = (fold_left (fun m p => write_ram p (ram_contents s0 p) m) (ram_pages cpu) m, inr (ram_from + Z.of_nat (length ram_part), rest)).
Proof.
  rewrite source_ram. refine (write_records_spec (ram_bits cpu) write_ram (ram_contents s0) (ram_pages cpu) 2 (fun _ => 0) (fun o => o) ram_page_length _
    ram_data_byte ram_ids _ _ rest m ram_from ram_rest length_before_ram). unfold uint32. lia.
Qed.

Lemma write_extended_ok target e : compatible target ->
  write_records source (Z.of_nat (length extended_data)) 3 (fun o => o / 0x100000000) u32 (default [] (extended_bits cpu)) write_extended
    (offsets STREAM_RAM_CHUNK (Z.of_nat (length extended_data))) (map record_checksum (erecs s0 (extended_list cpu))) (ram_from + Z.of_nat (length ram_part)) 0 e
  = (fold_left (fun o p => write_extended p (extended_contents s0 p) o) (extended_list cpu) e,
     inr (ram_from + Z.of_nat (length ram_part) + Z.of_nat (length extended_part), [])).
Proof.
  intros Ht. rewrite source_extended, <- (app_nil_r (map record_checksum _)).
  refine (write_records_spec _ write_extended (extended_contents s0) (extended_list cpu) 3 (fun o => o / 0x100000000) u32 extended_list_length _
    extended_data_byte (fun o => extended_ids target o Ht) _ _ [] e _ extended_rest length_before_extended). unfold uint32. lia.
Qed.

Lemma second_pass_ok target : compatible target -> exists target',
  second_pass restored_state target source = (target', inr (shape (image cpu))) /\ mem8 target' = mem8 cpu /\ same_extended target'.
Proof.
  intros Ht. destruct (restore_extended_ok target Ht) as (e & He & Hs). destruct size_nonneg as [Hn Hm]. pose proof Ht as [Hl _]. pose proof (sv_memory cpu Hcpu) as Hc.
  unfold second_pass, restored_state. cbn [ram_size ram_packed ram_bitmap checksums ram_start ext_size ext_bitmap restored]. cbv zeta. rewrite map_app, write_ram_ok.
  cbv beta iota. rewrite (write_extended_ok target) by done. cbv beta iota. eexists. split; [reflexivity|]. split.
  - cbn [mem8]. rewrite <- (restore_ram (mem8 cpu) (mem8 target) (memory_size cpu / 4096)) at 1; [|lia|done]. by rewrite Hm.
  - rewrite <- He in Hs. apply Hs.
Qed.
End Machine.

(** C5: A machine saved to a stream comes back: the writer ends, every chunk it hands out has at most 1 MiB, and a machine
    of the same size, whatever its memory held, that restores the chunks in order has every byte
    of guest memory and of extended memory when the saved state (objects as the arrays of their states) is handed to its
    set_state, whose success is that of the restoration. *)
Theorem stream_roundtrip (validate : value -> bool) (set_state : value -> machine -> machine * bool) (cpu target : machine) (st : json) (b : buffers) :
  saveable cpu -> save_object (image cpu) [] = Some (st, b) -> Z.of_nat (length (manifest_of cpu st b)) <= STREAM_INFO_LIMIT ->
  Z.of_nat (length b) <= 65536 -> Forall (fun buffer => Z.of_nat (length buffer) < 2 ^ 32) b ->
  compatible cpu target -> validate (shape (image cpu)) = true ->
  exists chunks target', (forall fuel, (length chunks < fuel)%nat -> save_state_stream fuel cpu = inr (Some chunks))
    /\ Forall (fun chunk => Z.of_nat (length chunk) <= STATE_STREAM_CHUNK_SIZE) chunks
    /\ (let '(final, returned) := set_state (shape (image cpu)) target' in
        restore_state_stream validate set_state target (concat chunks) = (final, if returned then Restored else SetStateThrew))
    /\ mem8 target' = mem8 cpu /\ same_extended cpu target'.
Proof.
  intros Hcpu Hsave Hlimit Hcount Hsizes Ht Hv. destruct (second_pass_ok cpu st b Hcpu target Ht) as (target' & H1 & H2 & H3).
  exists (chunks cpu st b), target'. split; [|split; [by apply bytes_chunks|split; [|done]]].
  - intros fuel Hf. unfold save_state_stream. rewrite (create_spec cpu st b Hcpu Hsave Hlimit). cbn [mbind outcome_bind]. by rewrite (pulls_chunks cpu st b Hcpu fuel Hf).
  - rewrite concat_chunks. unfold restore_state_stream. rewrite (first_pass_ok cpu st b Hcpu Hsave Hlimit Hcount Hsizes validate target Ht Hv), H1.
    by destruct (set_state _ target').
Qed.

(** ** Example *)

Definition demo_extended : Extended.t := Extended.write 1 (replicate 4096 9) (Extended.create 3).
Definition demo_source : machine :=
  mk 4096 (replicate 4096 7) (Some demo_extended)
    (VNum 4096 0 :: VMap [(VNum 1 0, VTyped Int32Array [1; 2; 3; 4])] :: VInstance [VStr (text_of "pic"); VUndefined] :: replicate 97 VUndefined).
Definition demo_target : machine := mk 4096 (replicate 4096 1) (Some (Extended.create 3)) [].
Definition demo_saved : json * buffers := default (JNull, []) (save_object (image demo_source) []).

Lemma byte_list l : forallb (fun x => (0 <=? x) && (x <? 256)) l = true -> Forall byte l.
Proof. intros H. apply Forall_forall. intros x Hx%list_elem_of_In. rewrite forallb_forall in H. specialize (H x Hx). unfold byte. lia. Qed.

Lemma small_buffers (b : buffers) : forallb (fun buffer => Z.of_nat (length buffer) <? 2 ^ 32) b = true -> Forall (fun buffer => Z.of_nat (length buffer) < 2 ^ 32) b.
Proof. intros H. apply Forall_forall. intros x Hx%list_elem_of_In. rewrite forallb_forall in H. specialize (H x Hx). lia. Qed.

Lemma demo_extended_ok : Extended.wf demo_extended /\ Extended.pages demo_extended = 3 /\ Forall byte (Extended.contents demo_extended).
Proof.
  pose proof (Extended.create_wf 3 ltac:(lia)) as W.
  destruct (Extended.write_page_spec (Extended.create 3) 1 (replicate 4096 9) W) as (W' & P & C'); [cbn; lia|by rewrite length_replicate|].
  assert (Forall byte (Extended.contents (Extended.create 3))) as Hz.
  { apply Forall_concat, Forall_map, Forall_forall. intros k _. apply Forall_replicate. unfold byte. lia. }
  split; [exact W'|]. split; [exact P|]. unfold demo_extended. rewrite C'. unfold set_bytes. rewrite !Forall_app.
  split; [|split]; [apply Forall_take, Hz|apply Forall_replicate; unfold byte; lia|apply Forall_drop, Hz].
Qed.

Lemma demo_saveable : saveable demo_source.
Proof.
  split; try done.
  - apply Forall_replicate. unfold byte. lia.
  - intros e [= <-]. destruct demo_extended_ok as (H1 & H2 & H3). rewrite H2. done.
  - apply Nat.ltb_lt. vm_compute. reflexivity.
  - apply foldr_Forall. cbn [state demo_source]. constructor; [by left|]. constructor; [|constructor; [|by apply Forall_replicate]].
    + split; [|by repeat constructor]. split; [|done]. split; [by left|]. split; [by apply byte_list|done].
    + split; [apply text_of_word16|done].
  - apply Nat.leb_le. vm_compute. reflexivity.
Qed.

Lemma stream_roundtrip_witness : exists chunks target', save_state_stream (S (length chunks)) demo_source = inr (Some chunks)
  /\ restore_state_stream (fun _ => true) (fun _ m => (m, true)) demo_target (concat chunks) = (target', Restored) /\ mem8 target' = mem8 demo_source.
Proof.
  destruct (stream_roundtrip (fun _ => true) (fun _ m => (m, true)) demo_source demo_target demo_saved.1 demo_saved.2) as (chunks & target' & H1 & _ & H2 & H3 & _).
  - exact demo_saveable.
  - vm_compute. reflexivity.
  - vm_compute. discriminate.
  - vm_compute. discriminate.
  - apply small_buffers. vm_compute. reflexivity.
  - split; [reflexivity|]. split; [apply Extended.create_wf; lia|reflexivity].
  - reflexivity.
  - exists chunks, target'. split; [apply H1; lia|]. split; [exact H2|exact H3].
Defined.

End StreamTrip.
