(* ===== verification/Buffer.v ===== *)
(** * Disk images ([buffer.js])

    Disks in memory ([SyncBuffer]), disks read lazily from a file or a server
    ([AsyncFileBuffer], [AsyncXHRBuffer], [AsyncXHRPartfileBuffer]): blocks kept from reads,
    written blocks in chunks of 16 MiB, reads that are loading while the guest goes on, snapshots of the
    written blocks, the disk as a file.  Offsets and lengths are whole blocks, as the code asserts. *)

From stdpp Require Import sorting.
From S2P Require Import Prelude Lib Text Json State Extended.

Import State.

Open Scope js_scope.

Module Buffer.

Definition BLOCK_SIZE : Z := 256.
Definition WRITE_CHUNK_BLOCKS : Z := 0x10000.

(** ** Disks in memory *)

Module Sync.

Record t := mk { buffer : list Z; byteLength : Z }.

Definition create (buffer : list Z) : t := mk buffer (Z.of_nat (length buffer)).
Definition get (s : t) (start len : Z) : list Z := slice (buffer s) start (start + len).
Definition get_and_cache (s : t) (start len : Z) : list Z := get s start len.
Definition get_from_cache (s : t) (start len : Z) : list Z := slice (buffer s) start (start + len).
Definition set (start : Z) (data : list Z) (s : t) : t := s <| buffer := set_bytes (buffer s) data start |>.
Definition get_state (s : t) : Z * list Z := (byteLength s, buffer s).
Definition set_state (state : Z * list Z) (s : t) : t := mk state.2 state.1.

(** [SyncFileBuffer.load_next]: the file in parts of 4 MiB; a part is a step. *)
Definition PART_SIZE : Z := 4 .<< 20.
Fixpoint load_next (fuel : nat) (file : list Z) (start : Z) (s : t) : t :=
  match fuel with
  | O => s
  | S fuel =>
      if start <? byteLength s then
        let part := slice file start (Z.min (start + PART_SIZE) (byteLength s)) in
        load_next fuel file (start + PART_SIZE) (s <| buffer := set_bytes (buffer s) part start |>)
      else s
  end.
Definition load_file (file : list Z) : t :=
  let size := Z.of_nat (length file) in
  load_next (Z.to_nat (size / PART_SIZE + 2)) file 0 (mk (replicate (Z.to_nat size) 0) size).

End Sync.

(** ** Disks read lazily *)

(** [fixed_chunk_size] is 0 when undefined. *)
Record t := mk {
  byteLength : Z;
  block_cache : gmap Z (list Z);
  written_blocks : gmap Z Z;
  write_chunks : list (list Z);
  fixed_chunk_size : Z;
  cache_reads : bool
}.

(** The constructors; [AsyncFileBuffer] has no chunk size. *)
Definition create (size fixed_chunk_size : Z) : t := mk size ∅ ∅ [] fixed_chunk_size (negb (fixed_chunk_size =? 0)).

Definition new_chunk : list Z := replicate (Z.to_nat (WRITE_CHUNK_BLOCKS * BLOCK_SIZE)) 0.
Definition chunk_of (slot : Z) : nat := Z.to_nat (slot / WRITE_CHUNK_BLOCKS).
Definition chunk_offset (slot : Z) : Z := slot mod WRITE_CHUNK_BLOCKS * BLOCK_SIZE.

Definition cached_block (s : t) (index : Z) : option (list Z) :=
  match written_blocks s !! index with
  | None => block_cache s !! index
  | Some slot => Some (slice (default [] (write_chunks s !! chunk_of slot)) (chunk_offset slot) (chunk_offset slot + BLOCK_SIZE))
  end.

Definition is_cached (s : t) (index : Z) : bool := bool_decide (is_Some (written_blocks s !! index)) || bool_decide (is_Some (block_cache s !! index)).

Definition get_from_cache (s : t) (offset len : Z) : option (list Z) :=
  let number_of_blocks := len / BLOCK_SIZE in
  let block_index := offset / BLOCK_SIZE in
  if forallb (fun i => is_cached s (block_index + i)) (seqZ 0 number_of_blocks) then
    if number_of_blocks =? 1 then cached_block s block_index
    else Some (fold_left (fun result i => set_bytes result (default [] (cached_block s (block_index + i))) (i * BLOCK_SIZE))
      (seqZ 0 number_of_blocks) (replicate (Z.to_nat len) 0))
  else None.

Definition write_block (index : Z) (data : list Z) (s : t) : t :=
  let store slot s := s <| write_chunks := alter (fun chunk => set_bytes chunk data (chunk_offset slot)) (chunk_of slot) (write_chunks s) |> in
  match written_blocks s !! index with
  | Some slot => store slot s
  | None =>
      let slot := Z.of_nat (size (written_blocks s)) in
      let s := if slot mod WRITE_CHUNK_BLOCKS =? 0 then s <| write_chunks := write_chunks s ++ [new_chunk] |> else s in
      store slot (s <| written_blocks := <[index := slot]> (written_blocks s) |> <| block_cache := delete index (block_cache s) |>)
  end.

Definition set (start : Z) (data : list Z) (s : t) : t :=
  fold_left (fun s i => write_block (start / BLOCK_SIZE + i) (slice data (i * BLOCK_SIZE) ((i + 1) * BLOCK_SIZE)) s)
    (seqZ 0 (Z.of_nat (length data) / BLOCK_SIZE)) s.

(** [target.set(data, offset)] raises an exception ([None]) when the data does not fit. *)
Definition typed_set (target data : list Z) (offset : Z) : option (list Z) :=
  if Z.of_nat (length target) <? offset + Z.of_nat (length data) then None else Some (set_bytes target data offset).

(** A loaded block: what was written since replaces it; kept if reads are cached.  An exception ends the loop. *)
Definition handle_read (offset len : Z) (block : list Z) (s : t) : option (list Z) * t :=
  fold_left (fun '(block, s) i =>
      match block with
      | None => (None, s)
      | Some bytes =>
          match cached_block s (offset / BLOCK_SIZE + i) with
          | Some cached => (typed_set bytes cached (i * BLOCK_SIZE), s)
          | None =>
              if cache_reads s then
                (block, s <| block_cache := <[offset / BLOCK_SIZE + i := slice bytes (i * BLOCK_SIZE) ((i + 1) * BLOCK_SIZE)]> (block_cache s) |>)
              else (block, s)
          end
      end) (seqZ 0 (len / BLOCK_SIZE)) (Some block, s).

(** *** Reads: at once, or a request to the host that ends later *)

Record request := mk_request { offset : Z; len : Z; requested_start : Z; requested_length : Z; keep : bool }.

(** [get] and, with [keep], [get_and_cache]. *)
Definition new_request (s : t) (offset len : Z) (keep : bool) : request :=
  if fixed_chunk_size s =? 0 then mk_request offset len offset len keep
  else
    let start := offset - offset mod fixed_chunk_size s in
    mk_request offset len start (Extended.ceil_div (offset - start + len) (fixed_chunk_size s) * fixed_chunk_size s) keep.

Definition keep_blocks (offset len : Z) (block : list Z) (s : t) : t :=
  fold_left (fun s i =>
      if is_cached s (offset / BLOCK_SIZE + i) then s
      else s <| block_cache := <[offset / BLOCK_SIZE + i := slice block (i * BLOCK_SIZE) ((i + 1) * BLOCK_SIZE)]> (block_cache s) |>)
    (seqZ 0 (len / BLOCK_SIZE)) s.

Definition get (offset len : Z) (keep : bool) (s : t) : sum request (list Z * t) :=
  match get_from_cache s offset len with
  | Some block => inr (block, if keep then keep_blocks offset len block s else s)
  | None => inl (new_request s offset len keep)
  end.

(** The host's answer: the bytes of the range that the file has.  [None]: the read is never answered. *)
Definition done (file : list Z) (r : request) (s : t) : option (list Z) * t :=
  let block := slice file (requested_start r) (requested_start r + requested_length r) in
  let '(block, s) := handle_read (requested_start r) (requested_length r) block s in
  match block with
  | None => (None, s)
  | Some block =>
      let block := if (requested_start r =? offset r) && (requested_length r =? len r) then block
        else slice block (offset r - requested_start r) (offset r - requested_start r + len r) in
      (Some block, if keep r then keep_blocks (offset r) (len r) block s else s)
  end.

(** *** Snapshots *)

(** The numbers of the written blocks in the order of their slots, the chunks without their unused ends. *)
Definition get_state (s : t) : list Z * list (list Z) :=
  let count := Z.of_nat (size (written_blocks s)) in
  (fold_left (fun indices p => arr_set indices p.2 p.1) (map_to_list (written_blocks s)) (replicate (Z.to_nat count) 0),
   imap (fun i chunk => slice chunk 0 (Z.min WRITE_CHUNK_BLOCKS (count - Z.of_nat i * WRITE_CHUNK_BLOCKS) * BLOCK_SIZE)) (write_chunks s)).

Inductive error := InvalidChunk | InvalidNumbers | SavedTwice.

Definition clear (s : t) : t := s <| block_cache := ∅ |> <| written_blocks := ∅ |> <| write_chunks := [] |>.

(** A snapshot from before: pairs of block numbers and data. *)
Definition set_state_pairs (pairs : list (Z * list Z)) (s : t) : t := fold_left (fun s p => write_block p.1 p.2 s) pairs (clear s).

Fixpoint restore_chunks (indices : list Z) (chunks : list (list Z)) (i : Z) (s : t) : t * option error :=
  match chunks with
  | [] => (s, None)
  | chunk :: chunks =>
      let count := Z.of_nat (length chunk) / BLOCK_SIZE in
      if (count =? WRITE_CHUNK_BLOCKS) && (i mod WRITE_CHUNK_BLOCKS =? 0) then
        let s := s <| write_chunks := write_chunks s ++ [chunk] |> in
        let s := fold_left (fun s i => s <| written_blocks := <[arr_get indices i := i]> (written_blocks s) |>) (seqZ i count) s in
        if negb (Z.of_nat (size (written_blocks s)) =? i + count) then (s, Some SavedTwice)
        else restore_chunks indices chunks (i + count) s
      else
        let s := fold_left (fun s k => write_block (arr_get indices (i + k)) (slice chunk (k * BLOCK_SIZE) ((k + 1) * BLOCK_SIZE)) s) (seqZ 0 count) s in
        restore_chunks indices chunks (i + count) s
  end.

Definition set_state (state : list Z * list (list Z)) (s : t) : t * option error :=
  let '(indices, chunks) := state in
  let s := clear s in
  if existsb (fun chunk => negb (Z.of_nat (length chunk) mod BLOCK_SIZE =? 0)) chunks then (s, Some InvalidChunk)
  else
    let total := fold_left (fun total chunk => total + Z.of_nat (length chunk) / BLOCK_SIZE) chunks 0 in
    if negb (Z.of_nat (length indices) =? total)
       || existsb (fun index => (index <? 0) || (byteLength s <=? index * BLOCK_SIZE)) indices then (s, Some InvalidNumbers)
    else restore_chunks indices chunks 0 s.

(** *** The disk as a file *)

(** The blocks after [block_index] that follow it on the disk and in its chunk; the others. *)
Fixpoint run_of (s : t) (block_index slot : Z) (count : Z) (rest : list Z) : Z * list Z :=
  match rest with
  | next :: rest' =>
      if (next =? block_index + count) && bool_decide (written_blocks s !! (block_index + count) = Some (slot + count))
         && negb ((slot + count) mod WRITE_CHUNK_BLOCKS =? 0)
      then run_of s block_index slot (count + 1) rest'
      else (count, rest)
  | [] => (count, [])
  end.

(** The loop over the written blocks; a run is a step. *)
Fixpoint file_parts (fuel : nat) (file : list Z) (s : t) (existing_blocks : list Z) (current_offset : Z) : list (list Z) * Z :=
  match fuel, existing_blocks with
  | S fuel, block_index :: rest =>
      let slot := default 0 (written_blocks s !! block_index) in
      let '(count, rest) := run_of s block_index slot 1 rest in
      let start := block_index * BLOCK_SIZE in
      let gap := if start =? current_offset then [] else [slice file current_offset start] in
      let part := slice (default [] (write_chunks s !! chunk_of slot)) (chunk_offset slot) (chunk_offset slot + count * BLOCK_SIZE) in
      let '(parts, end_) := file_parts fuel file s rest (start + count * BLOCK_SIZE) in
      (gap ++ part :: parts, end_)
  | _, _ => ([], current_offset)
  end.

Definition get_as_file (file : list Z) (s : t) : list Z :=
  let existing_blocks := merge_sort Z.le (map_to_list (written_blocks s)).*1 in
  let '(parts, current_offset) := file_parts (length existing_blocks) file s existing_blocks 0 in
  concat (parts ++ if current_offset =? Z.of_nat (length file) then [] else [drop (Z.to_nat current_offset) file]).

(** *** Files in parts ([AsyncXHRPartfileBuffer]) *)

(** A read of several parts, each the bytes of a range of the file (decompressed, if they are compressed). *)
Record part_request := mk_parts { p_offset : Z; p_len : Z; start_index : Z; total_count : Z; blocks : list Z; finished : Z }.

Definition part_name (s : t) (start_index i : Z) : Z * Z :=
  let offset := (start_index + i) * fixed_chunk_size s in (offset, offset + fixed_chunk_size s).

(** One turn of the loop of [get]: a cached part at once. *)
Definition part_cached (s : t) (r : part_request) (i : Z) : part_request * bool :=
  match get_from_cache s ((start_index r + i) * fixed_chunk_size s) (fixed_chunk_size s) with
  | Some block => (r <| blocks := set_bytes (blocks r) block (i * fixed_chunk_size s) |> <| finished := finished r + 1 |>, true)
  | None => (r, false)
  end.

(** What [fn] gets. *)
Definition part_result (s : t) (r : part_request) : list Z :=
  let m_offset := p_offset r - start_index r * fixed_chunk_size s in slice (blocks r) m_offset (m_offset + p_len r).

(** [get] with a chunk size: the block, or the request with the parts that are to be loaded. *)
Definition part_get (s : t) (offset len : Z) : sum (part_request * list Z) (list Z) :=
  match get_from_cache s offset len with
  | Some block => inr block
  | None =>
      let start_index := offset / fixed_chunk_size s in
      let m_offset := offset - start_index * fixed_chunk_size s in
      let total_count := Extended.ceil_div (m_offset + len) (fixed_chunk_size s) in
      let r := mk_parts offset len start_index total_count (replicate (Z.to_nat (total_count * fixed_chunk_size s)) 0) 0 in
      let '(r, loading) := fold_left (fun '(r, loading) i => let '(r, hit) := part_cached s r i in (r, if hit then loading else loading ++ [i]))
        (seqZ 0 total_count) (r, []) in
      if finished r =? total_count then inr (part_result s r) else inl (r, loading)
  end.

(** A part has been loaded: copied, then brought up to date. *)
Definition part_done (file : list Z) (i : Z) (r : part_request) (s : t) : part_request * t * option (list Z) :=
  let '(from, to) := part_name s (start_index r) i in
  let block := slice file from to in
  let r := r <| blocks := set_bytes (blocks r) block (i * fixed_chunk_size s) |> in
  let '(read, s) := handle_read from (fixed_chunk_size s) block s in
  match read with
  | None => (r, s, None)
  | Some _ =>
      let r := r <| finished := finished r + 1 |> in
      (r, s, if finished r =? total_count r then Some (part_result s r) else None)
  end.

(** ** The disk a lazily read disk stands for *)

Definition store (s : t) : list Z := concat (write_chunks s).

(** Byte [k] of the disk. *)
Definition byte_at (file : list Z) (s : t) (k : Z) : Z :=
  match written_blocks s !! (k / BLOCK_SIZE) with
  | Some slot => arr_get (store s) (slot * BLOCK_SIZE + k mod BLOCK_SIZE)
  | None => arr_get file k
  end.
Definition disk (file : list Z) (s : t) : list Z := map (byte_at file s) (seqZ 0 (Z.of_nat (length file))).

(** Whole chunks; a chunk size for reads, if any, is whole blocks and divides the file; slots are distinct and have a place; blocks kept from reads are the file's and not written. *)
Record wf (file : list Z) (s : t) : Prop := {
  wf_length : byteLength s = Z.of_nat (length file);
  wf_fixed : fixed_chunk_size s = 0 \/ (0 < fixed_chunk_size s /\ fixed_chunk_size s mod BLOCK_SIZE = 0 /\ Z.of_nat (length file) mod fixed_chunk_size s = 0);
  wf_slots : forall i slot, written_blocks s !! i = Some slot -> 0 <= slot < Z.of_nat (size (written_blocks s)) /\ 0 <= i /\ (i + 1) * BLOCK_SIZE <= Z.of_nat (length file);
  wf_inj : forall i j slot, written_blocks s !! i = Some slot -> written_blocks s !! j = Some slot -> i = j;
  wf_count : Z.of_nat (length (write_chunks s)) = Extended.ceil_div (Z.of_nat (size (written_blocks s))) WRITE_CHUNK_BLOCKS;
  wf_chunks : Forall (fun chunk => Z.of_nat (length chunk) = WRITE_CHUNK_BLOCKS * BLOCK_SIZE) (write_chunks s);
  wf_cache : forall i block, block_cache s !! i = Some block -> 0 <= i /\ block = slice file (i * BLOCK_SIZE) ((i + 1) * BLOCK_SIZE) /\ written_blocks s !! i = None
}.

Section Disk.
  Context (file : list Z).

Lemma length_disk s : length (disk file s) = length file.
Proof. unfold disk. rewrite length_map, length_seqZ. lia. Qed.

Lemma disk_lookup s k : (k < length file)%nat -> disk file s !! k = Some (byte_at file s (Z.of_nat k)).
Proof. intros Hk. unfold disk. rewrite list_lookup_fmap, lookup_seqZ_lt by lia. done. Qed.

Lemma arr_get_lookup (l : list Z) k : (k < length l)%nat -> l !! k = Some (arr_get l (Z.of_nat k)).
Proof. intros Hk. unfold arr_get. rewrite Nat2Z.id. destruct (lookup_lt_is_Some_2 l k Hk) as [x ->]. done. Qed.

(** Lists of bytes are equal when their bytes are. *)
Lemma bytes_ext (l l' : list Z) : length l = length l' -> (forall k, (k < length l)%nat -> l !! k = l' !! k) -> l = l'.
Proof.
  intros Hl H. apply list_eq. intros k. destruct (decide (k < length l)%nat); [by apply H|]. rewrite !lookup_ge_None_2 by lia. done.
Qed.

Lemma lookup_slice (l : list Z) from to k : 0 <= from -> Z.of_nat k < to - from -> slice l from to !! k = l !! (Z.to_nat from + k)%nat.
Proof. intros H0 Hk. unfold slice. rewrite lookup_take_lt by lia. by rewrite lookup_drop. Qed.

Lemma length_slice' (l : list Z) from to : 0 <= from <= to -> to <= Z.of_nat (length l) -> Z.of_nat (length (slice l from to)) = to - from.
Proof. intros H0 H1. unfold slice. rewrite length_take, length_drop. lia. Qed.

(** *** The chunks are one store *)

Lemma chunk_place (chunks : list (list Z)) slot :
  Forall (fun chunk => Z.of_nat (length chunk) = WRITE_CHUNK_BLOCKS * BLOCK_SIZE) chunks ->
  0 <= slot < Z.of_nat (length chunks) * WRITE_CHUNK_BLOCKS -> exists chunk, chunks !! chunk_of slot = Some chunk
  /\ Z.of_nat (length chunk) = WRITE_CHUNK_BLOCKS * BLOCK_SIZE
  /\ Z.of_nat (length (concat (take (chunk_of slot) chunks))) + chunk_offset slot = slot * BLOCK_SIZE
  /\ 0 <= chunk_offset slot /\ chunk_offset slot + BLOCK_SIZE <= WRITE_CHUNK_BLOCKS * BLOCK_SIZE.
Proof.
  intros Hc Hs. unfold chunk_of, chunk_offset. pose proof (Z.div_mod slot WRITE_CHUNK_BLOCKS ltac:(done)) as Hd.
  pose proof (Z.mod_pos_bound slot WRITE_CHUNK_BLOCKS ltac:(done)) as Hm. set (q := slot / WRITE_CHUNK_BLOCKS) in *. set (r := slot mod WRITE_CHUNK_BLOCKS) in *.
  unfold WRITE_CHUNK_BLOCKS, BLOCK_SIZE in *. destruct (lookup_lt_is_Some_2 chunks (Z.to_nat q)) as [chunk Hq]; [lia|]. exists chunk. split; [done|].
  split; [by eapply (Forall_lookup_1 _ _ _ _ Hc)|]. split; [|lia].
  assert (forall k, (k <= length chunks)%nat -> Z.of_nat (length (concat (take k chunks))) = Z.of_nat k * (0x10000 * 256)) as Hl.
  { induction k as [|k IH]; intros Hk; [done|]. destruct (lookup_lt_is_Some_2 chunks k ltac:(lia)) as [c Ec]. rewrite (take_S_r _ _ c Ec), concat_app, length_app, Nat2Z.inj_add, IH by lia.
    cbn [concat]. rewrite app_nil_r. pose proof (Forall_lookup_1 _ _ _ _ Hc Ec) as El. cbv beta in El. rewrite El. lia. }
  rewrite Hl by lia. lia.
Qed.

Lemma chunk_slice chunks slot n : Forall (fun chunk => Z.of_nat (length chunk) = WRITE_CHUNK_BLOCKS * BLOCK_SIZE) chunks ->
  0 <= slot < Z.of_nat (length chunks) * WRITE_CHUNK_BLOCKS -> chunk_offset slot + n <= WRITE_CHUNK_BLOCKS * BLOCK_SIZE ->
  slice (default [] (chunks !! chunk_of slot)) (chunk_offset slot) (chunk_offset slot + n) = slice (concat chunks) (slot * BLOCK_SIZE) (slot * BLOCK_SIZE + n).
Proof.
  intros Hc Hs Hn. destruct (chunk_place chunks slot Hc Hs) as (chunk & E & El & Ep & H0 & H1). rewrite E. cbn [default]. rewrite (Extended.concat_split _ _ _ E).
  rewrite (Extended.slice_inner (concat (take (chunk_of slot) chunks)) chunk (concat (drop (S (chunk_of slot)) chunks))) by lia. f_equal; lia.
Qed.

Lemma chunk_set chunks slot data : Forall (fun chunk => Z.of_nat (length chunk) = WRITE_CHUNK_BLOCKS * BLOCK_SIZE) chunks ->
  0 <= slot < Z.of_nat (length chunks) * WRITE_CHUNK_BLOCKS -> Z.of_nat (length data) = BLOCK_SIZE ->
  let chunks' := alter (fun chunk => set_bytes chunk data (chunk_offset slot)) (chunk_of slot) chunks in
  concat chunks' = set_bytes (concat chunks) data (slot * BLOCK_SIZE) /\ length chunks' = length chunks
  /\ Forall (fun chunk => Z.of_nat (length chunk) = WRITE_CHUNK_BLOCKS * BLOCK_SIZE) chunks'.
Proof.
  intros Hc Hs Hd chunks'. destruct (chunk_place chunks slot Hc Hs) as (chunk & E & El & Ep & H0 & H1). unfold chunks'. split; [|split; [by rewrite length_alter|]].
  - rewrite (Extended.concat_split (alter _ _ _) (chunk_of slot) (set_bytes chunk data (chunk_offset slot))) by (by rewrite list_lookup_alter_eq, E).
    rewrite (Extended.concat_split _ _ _ E), take_alter_ge, drop_alter_lt, Extended.set_bytes_inner by lia. f_equal. lia.
  - apply Forall_alter; [done|]. intros c Ec Hl. rewrite E in Ec. injection Ec as <-. cbv beta. rewrite length_set_bytes by lia. done.
Qed.

Lemma arr_get_set_bytes l vs o j : 0 <= o -> o + Z.of_nat (length vs) <= Z.of_nat (length l) -> 0 <= j ->
  arr_get (set_bytes l vs o) j = if decide (o <= j < o + Z.of_nat (length vs)) then arr_get vs (j - o) else arr_get l j.
Proof.
  intros Ho Hl Hj. unfold arr_get. rewrite lookup_set_bytes by done. rewrite Z2Nat.id by done. case_decide; [|done]. do 2 f_equal. lia.
Qed.

Lemma length_store s : wf file s -> Z.of_nat (length (store s)) = Z.of_nat (length (write_chunks s)) * (WRITE_CHUNK_BLOCKS * BLOCK_SIZE).
Proof.
  intros Hw. unfold store. induction (wf_chunks file s Hw) as [|c l Hc Hl IH]; [done|]. cbn [concat length]. rewrite length_app. lia.
Qed.

Lemma slot_fits s slot : wf file s -> 0 <= slot < Z.of_nat (size (written_blocks s)) ->
  slot < Z.of_nat (length (write_chunks s)) * WRITE_CHUNK_BLOCKS /\ (slot + 1) * BLOCK_SIZE <= Z.of_nat (length (store s)).
Proof.
  intros Hw Hs. pose proof (Extended.ceil_div_spec (Z.of_nat (size (written_blocks s))) WRITE_CHUNK_BLOCKS ltac:(lia) ltac:(done)) as Hc.
  rewrite <- (wf_count file s Hw) in Hc. rewrite (length_store s Hw). unfold WRITE_CHUNK_BLOCKS, BLOCK_SIZE in *. lia.
Qed.

Lemma block_index k i : 0 <= k -> k / BLOCK_SIZE = i <-> i * BLOCK_SIZE <= k < (i + 1) * BLOCK_SIZE.
Proof.
  intros Hk. unfold BLOCK_SIZE. pose proof (Z.div_mod k 256 ltac:(lia)). pose proof (Z.mod_pos_bound k 256 ltac:(lia)). lia.
Qed.
Lemma block_rest k i : i * BLOCK_SIZE <= k < (i + 1) * BLOCK_SIZE -> 0 <= i -> k mod BLOCK_SIZE = k - i * BLOCK_SIZE.
Proof. intros Hk Hi. rewrite Z.mod_eq by done. rewrite (proj2 (block_index k i ltac:(unfold BLOCK_SIZE in *; lia)) Hk). lia. Qed.

(** A block of the disk: where it was written, or the file's. *)
Definition current_block (s : t) (i : Z) : list Z :=
  match written_blocks s !! i with
  | Some slot => slice (store s) (slot * BLOCK_SIZE) (slot * BLOCK_SIZE + BLOCK_SIZE)
  | None => slice file (i * BLOCK_SIZE) ((i + 1) * BLOCK_SIZE)
  end.

Lemma disk_block s i : wf file s -> 0 <= i -> (i + 1) * BLOCK_SIZE <= Z.of_nat (length file) ->
  slice (disk file s) (i * BLOCK_SIZE) ((i + 1) * BLOCK_SIZE) = current_block s i.
Proof.
  intros Hw H0 Hi. assert (Z.of_nat (length (current_block s i)) = BLOCK_SIZE) as Hl.
  { unfold current_block. destruct (written_blocks s !! i) as [slot|] eqn:E.
    - destruct (wf_slots file s Hw i slot E) as (Hs & _). destruct (slot_fits s slot Hw Hs). rewrite length_slice'; unfold BLOCK_SIZE in *; lia.
    - rewrite length_slice'; unfold BLOCK_SIZE in *; lia. }
  pose proof (length_disk s) as Hd. pose proof (length_slice' (disk file s) (i * BLOCK_SIZE) ((i + 1) * BLOCK_SIZE) ltac:(unfold BLOCK_SIZE in *; lia) ltac:(lia)) as Hl'.
  apply bytes_ext; [lia|]. intros k Hk. assert (Z.of_nat k < BLOCK_SIZE) as Hk' by lia. rewrite lookup_slice by (unfold BLOCK_SIZE in *; lia).
  rewrite disk_lookup by (unfold BLOCK_SIZE in *; lia). unfold byte_at, current_block. set (p := Z.of_nat (Z.to_nat (i * BLOCK_SIZE) + k)).
  assert (i * BLOCK_SIZE <= p < (i + 1) * BLOCK_SIZE /\ p = i * BLOCK_SIZE + Z.of_nat k) as [Hp Hp'] by (unfold p, BLOCK_SIZE in *; lia).
  rewrite (proj2 (block_index p i ltac:(unfold BLOCK_SIZE in *; lia)) Hp), (block_rest p i Hp H0). destruct (written_blocks s !! i) as [slot|] eqn:E.
  - destruct (wf_slots file s Hw i slot E) as (Hs & _). destruct (slot_fits s slot Hw Hs). rewrite lookup_slice by (unfold BLOCK_SIZE in *; lia).
    rewrite (arr_get_lookup (store s)) by (unfold BLOCK_SIZE in *; lia). do 2 f_equal; unfold BLOCK_SIZE in *; lia.
  - rewrite lookup_slice by (unfold BLOCK_SIZE in *; lia). rewrite (arr_get_lookup file) by (unfold BLOCK_SIZE in *; lia). do 2 f_equal; unfold BLOCK_SIZE in *; lia.
Qed.

Lemma cached_block_spec s i block : wf file s -> 0 <= i -> (i + 1) * BLOCK_SIZE <= Z.of_nat (length file) ->
  cached_block s i = Some block -> block = slice (disk file s) (i * BLOCK_SIZE) ((i + 1) * BLOCK_SIZE).
Proof.
  intros Hw H0 Hi. rewrite disk_block by done. unfold cached_block, current_block. destruct (written_blocks s !! i) as [slot|] eqn:E.
  - intros [= <-]. destruct (wf_slots file s Hw i slot E) as (Hs & _). destruct (slot_fits s slot Hw Hs) as [Hf _].
    destruct (chunk_place (write_chunks s) slot (wf_chunks file s Hw) ltac:(lia)) as (_ & _ & _ & _ & _ & H1). apply chunk_slice; [apply (wf_chunks file s Hw)|lia|done].
  - intros H. by destruct (wf_cache file s Hw i block H) as (_ & -> & _).
Qed.

Lemma cached_block_none s i : cached_block s i = None -> written_blocks s !! i = None /\ block_cache s !! i = None.
Proof. unfold cached_block. by destruct (written_blocks s !! i). Qed.

Lemma is_cached_spec s i : is_cached s i = true <-> is_Some (cached_block s i).
Proof.
  unfold is_cached, cached_block. rewrite orb_true_iff, !bool_decide_eq_true. destruct (written_blocks s !! i); [|split; [intros [[? ?]|]; done|auto]].
  split; [by eexists|]. intros _. left. by eexists.
Qed.

Lemma is_cached_false s i : is_cached s i = false -> cached_block s i = None.
Proof. intros H. destruct (cached_block s i) eqn:E; [|done]. rewrite (proj2 (is_cached_spec s i)) in H; [done|by eexists]. Qed.

(** *** Writes *)

Lemma disk_write s s' slot data i : wf file s -> 0 <= i -> (i + 1) * BLOCK_SIZE <= Z.of_nat (length file) -> Z.of_nat (length data) = BLOCK_SIZE ->
  (forall j, j <> i -> written_blocks s' !! j = written_blocks s !! j) -> written_blocks s' !! i = Some slot ->
  (forall j sl, written_blocks s !! j = Some sl -> j <> i -> sl <> slot) -> 0 <= slot ->
  (forall k, 0 <= k -> arr_get (store s') k = if decide (slot * BLOCK_SIZE <= k < (slot + 1) * BLOCK_SIZE) then arr_get data (k - slot * BLOCK_SIZE) else arr_get (store s) k) ->
  disk file s' = set_bytes (disk file s) data (i * BLOCK_SIZE).
Proof.
  intros Hw H0 Hi Hd Hother Hi' Hslot Hs0 Hstore. pose proof (length_disk s) as Hls. pose proof (length_disk s') as Hls'.
  assert (0 <= i * BLOCK_SIZE /\ i * BLOCK_SIZE + Z.of_nat (length data) <= Z.of_nat (length (disk file s))) as [Hb1 Hb2] by (unfold BLOCK_SIZE in *; lia).
  apply bytes_ext; [by rewrite length_set_bytes by done; lia|]. intros k Hk. rewrite Hls' in Hk. rewrite lookup_set_bytes by done.
  rewrite disk_lookup by done. set (p := Z.of_nat k). assert (0 <= p) by (unfold p; lia). pose proof (block_index p i ltac:(done)) as Hp.
  replace (i * BLOCK_SIZE + Z.of_nat (length data)) with ((i + 1) * BLOCK_SIZE) by (unfold BLOCK_SIZE in *; lia). pose proof (Z.mod_pos_bound p BLOCK_SIZE ltac:(done)) as Hm.
  unfold byte_at. case_decide as Hin.
  - rewrite (proj2 Hp Hin), Hi', (block_rest p i Hin H0), Hstore by (unfold BLOCK_SIZE in *; lia). rewrite decide_True by (unfold BLOCK_SIZE in *; lia).
    rewrite (arr_get_lookup data) by (unfold BLOCK_SIZE, p in *; lia). do 2 f_equal; unfold p, BLOCK_SIZE in *; lia.
  - assert (p / BLOCK_SIZE <> i) as Hne by (by rewrite Hp). rewrite Hother by done. rewrite disk_lookup by done. f_equal. unfold byte_at. fold p.
    destruct (written_blocks s !! (p / BLOCK_SIZE)) as [sl|] eqn:E; [|done]. destruct (wf_slots file s Hw _ sl E) as (Hsl & _).
    rewrite Hstore by (unfold BLOCK_SIZE in *; lia). rewrite decide_False; [done|]. pose proof (Hslot _ _ E Hne). unfold BLOCK_SIZE in *. lia.
Qed.

Lemma arr_get_zeros (l : list Z) n k : arr_get (l ++ replicate n 0) k = arr_get l k.
Proof.
  unfold arr_get. destruct (decide (Z.to_nat k < length l)%nat) as [H|H]; [by rewrite lookup_app_l|]. rewrite lookup_app_r by lia.
  rewrite (lookup_ge_None_2 l) by lia. destruct (replicate n 0 !! _) eqn:E; [|done]. by apply lookup_replicate in E as [-> _].
Qed.

Lemma store_chunks s chunks : store (s <| write_chunks := chunks |>) = concat chunks.
Proof. done. Qed.

(** Room for the next slot. *)
Definition grown (s : t) : list (list Z) :=
  if Z.of_nat (size (written_blocks s)) mod WRITE_CHUNK_BLOCKS =? 0 then write_chunks s ++ [new_chunk] else write_chunks s.

Lemma length_new_chunk : Z.of_nat (length new_chunk) = WRITE_CHUNK_BLOCKS * BLOCK_SIZE.
Proof. unfold new_chunk. rewrite length_replicate. apply Z2Nat.id. unfold WRITE_CHUNK_BLOCKS, BLOCK_SIZE. lia. Qed.

Lemma grown_spec s : wf file s -> let n := Z.of_nat (size (written_blocks s)) in
  Forall (fun chunk => Z.of_nat (length chunk) = WRITE_CHUNK_BLOCKS * BLOCK_SIZE) (grown s) /\ n < Z.of_nat (length (grown s)) * WRITE_CHUNK_BLOCKS
  /\ Z.of_nat (length (grown s)) = Extended.ceil_div (n + 1) WRITE_CHUNK_BLOCKS /\ forall k, arr_get (concat (grown s)) k = arr_get (store s) k.
Proof.
  intros Hw n. pose proof (Extended.ceil_div_spec n WRITE_CHUNK_BLOCKS ltac:(lia) ltac:(done)) as Hc. pose proof (wf_count file s Hw) as Hn. fold n in Hn. rewrite <- Hn in Hc.
  pose proof (Z.div_mod n WRITE_CHUNK_BLOCKS ltac:(done)) as Hd. pose proof (Z.mod_pos_bound n WRITE_CHUNK_BLOCKS ltac:(done)) as Hm.
  assert (Extended.ceil_div (n + 1) WRITE_CHUNK_BLOCKS = n / WRITE_CHUNK_BLOCKS + 1) as ->.
  { unfold Extended.ceil_div. replace (n + 1 + WRITE_CHUNK_BLOCKS - 1) with (n + 1 * WRITE_CHUNK_BLOCKS) by lia. by rewrite Z.div_add. }
  unfold grown. fold n. destruct (n mod WRITE_CHUNK_BLOCKS =? 0) eqn:E.
  - apply Z.eqb_eq in E. split; [apply Forall_app; split; [apply (wf_chunks file s Hw)|]; constructor; [apply length_new_chunk|constructor]|].
    rewrite length_app. cbn [length]. unfold WRITE_CHUNK_BLOCKS in *. split; [lia|]. split; [lia|]. intros k. unfold store. rewrite concat_app. cbn [concat]. rewrite app_nil_r. apply arr_get_zeros.
  - apply Z.eqb_neq in E. split; [apply (wf_chunks file s Hw)|]. unfold WRITE_CHUNK_BLOCKS in *. split; [lia|]. split; [lia|done].
Qed.

Lemma write_block_new s i data : written_blocks s !! i = None ->
  write_block i data s = s <| written_blocks := <[i := Z.of_nat (size (written_blocks s))]> (written_blocks s) |> <| block_cache := delete i (block_cache s) |>
    <| write_chunks := alter (fun chunk => set_bytes chunk data (chunk_offset (Z.of_nat (size (written_blocks s))))) (chunk_of (Z.of_nat (size (written_blocks s)))) (grown s) |>.
Proof. intros E. unfold write_block, grown. rewrite E. by destruct (_ mod _ =? 0). Qed.

Lemma write_block_old s i slot data : written_blocks s !! i = Some slot ->
  write_block i data s = s <| write_chunks := alter (fun chunk => set_bytes chunk data (chunk_offset slot)) (chunk_of slot) (write_chunks s) |>.
Proof. intros E. unfold write_block. by rewrite E. Qed.

Lemma write_block_spec s i data : wf file s -> 0 <= i -> (i + 1) * BLOCK_SIZE <= Z.of_nat (length file) -> Z.of_nat (length data) = BLOCK_SIZE ->
  wf file (write_block i data s) /\ disk file (write_block i data s) = set_bytes (disk file s) data (i * BLOCK_SIZE).
Proof.
  intros Hw H0 Hi Hd. pose proof Hw as [W1 W2 W3 W4 W5 W6 W7]. destruct (written_blocks s !! i) as [slot|] eqn:E.
  - rewrite (write_block_old s i slot data E). destruct (W3 i slot E) as (Hs & _). destruct (slot_fits s slot Hw Hs) as [Hf1 Hf2].
    destruct (chunk_set (write_chunks s) slot data W6 ltac:(lia) Hd) as (C1 & C2 & C3). split; [split; cbn; try done; by rewrite C2|].
    apply (disk_write s _ slot data i); try done; [|lia|].
    + intros j sl Ej Hne ->. by apply Hne, (W4 j i slot).
    + intros k Hk. rewrite store_chunks, C1. rewrite arr_get_set_bytes by (unfold store, BLOCK_SIZE in *; lia).
      replace (slot * BLOCK_SIZE + Z.of_nat (length data)) with ((slot + 1) * BLOCK_SIZE) by (unfold BLOCK_SIZE in *; lia). done.
  - rewrite (write_block_new s i data E). set (slot := Z.of_nat (size (written_blocks s))). destruct (grown_spec s Hw) as (G1 & G2 & G3 & G4). fold slot in G2, G3.
    destruct (chunk_set (grown s) slot data G1 ltac:(lia) Hd) as (C1 & C2 & C3). split.
    + split; cbn; try done.
      * intros j sl. rewrite map_size_insert_None by done. destruct (decide (j = i)) as [->|Hne].
        -- rewrite lookup_insert_eq. intros [= <-]. fold slot. lia.
        -- rewrite lookup_insert_ne by done. intros Hj. destruct (W3 j sl Hj). lia.
      * intros j k sl. destruct (decide (j = i)) as [->|Hj], (decide (k = i)) as [->|Hk]; rewrite ?lookup_insert_eq, ?lookup_insert_ne by done; try done.
        -- intros [= <-] Ek. destruct (W3 k _ Ek). unfold slot in *. lia.
        -- intros Ej [= <-]. destruct (W3 j _ Ej). unfold slot in *. lia.
        -- apply W4.
      * rewrite C2, map_size_insert_None, Nat2Z.inj_succ, G3 by done. done.
      * intros j block. destruct (decide (j = i)) as [->|Hne]; [by rewrite lookup_delete_eq|]. rewrite lookup_delete_ne, lookup_insert_ne by done. apply W7.
    + apply (disk_write s _ slot data i); try done; try lia.
      * intros j Hne. cbn. by rewrite lookup_insert_ne.
      * cbn. apply lookup_insert_eq.
      * intros j sl Ej Hne ->. destruct (W3 j _ Ej). unfold slot in *. lia.
      * intros k Hk. rewrite store_chunks, C1. rewrite arr_get_set_bytes; [|unfold slot, BLOCK_SIZE in *; lia| |done].
        -- replace (slot * BLOCK_SIZE + Z.of_nat (length data)) with ((slot + 1) * BLOCK_SIZE) by (unfold BLOCK_SIZE in *; lia). by rewrite G4.
        -- assert (Z.of_nat (length (concat (grown s))) = Z.of_nat (length (grown s)) * (WRITE_CHUNK_BLOCKS * BLOCK_SIZE)) as ->.
           { clear -G1. induction G1 as [|c l Hc Hl IH]; [done|]. cbn [concat length]. rewrite length_app. lia. }
           unfold WRITE_CHUNK_BLOCKS, BLOCK_SIZE in *. lia.
Qed.

Lemma set_bytes_app l a b o : 0 <= o -> o + Z.of_nat (length a) + Z.of_nat (length b) <= Z.of_nat (length l) ->
  set_bytes (set_bytes l a o) b (o + Z.of_nat (length a)) = set_bytes l (a ++ b) o.
Proof.
  intros Ho Hl. assert (length (set_bytes l a o) = length l) as Hla by (apply length_set_bytes; lia).
  apply bytes_ext; [rewrite !length_set_bytes by (rewrite ?length_app; lia); done|]. intros k Hk.
  rewrite (lookup_set_bytes _ b) by lia. rewrite (lookup_set_bytes l a), (lookup_set_bytes l (a ++ b)) by (rewrite ?length_app; lia). rewrite length_app.
  repeat case_decide; try lia; [rewrite lookup_app_r by lia; f_equal; lia|by rewrite lookup_app_l by lia|done].
Qed.

Lemma slice_split (l : list Z) a b c : 0 <= a <= b -> b <= c -> slice l a b ++ slice l b c = slice l a c.
Proof.
  intros H1 H2. unfold slice. replace (Z.to_nat (c - a)) with (Z.to_nat (b - a) + Z.to_nat (c - b))%nat by lia.
  rewrite <- (take_take_drop (drop (Z.to_nat a) l)), drop_drop. do 3 f_equal. lia.
Qed.

Lemma aligned o : o mod BLOCK_SIZE = 0 -> o / BLOCK_SIZE * BLOCK_SIZE = o.
Proof. intros H. pose proof (Z.div_mod o BLOCK_SIZE ltac:(done)). lia. Qed.

Definition in_disk (start len : Z) : Prop := 0 <= start /\ start mod BLOCK_SIZE = 0 /\ 0 <= len /\ len mod BLOCK_SIZE = 0 /\ start + len <= Z.of_nat (length file).

Lemma set_spec s start data : wf file s -> in_disk start (Z.of_nat (length data)) ->
  wf file (set start data s) /\ disk file (set start data s) = set_bytes (disk file s) data start.
Proof.
  intros Hw (H0 & Ha & _ & Hl & Hf). apply aligned in Ha, Hl. set (n := Z.of_nat (length data) / BLOCK_SIZE) in *. set (a := start / BLOCK_SIZE) in *.
  assert (forall k, Z.of_nat k <= n ->
    let s' := fold_left (fun s i => write_block (a + i) (slice data (i * BLOCK_SIZE) ((i + 1) * BLOCK_SIZE)) s) (seqZ 0 (Z.of_nat k)) s in
    wf file s' /\ disk file s' = set_bytes (disk file s) (slice data 0 (Z.of_nat k * BLOCK_SIZE)) start) as H.
  { induction k as [|k IH]; intros Hk; cbv zeta in *.
    - split; [done|]. symmetry. unfold set_bytes. cbn [slice take]. change (slice data 0 (Z.of_nat 0 * BLOCK_SIZE)) with (@nil Z). cbn [app length]. rewrite Nat.add_0_r. apply take_drop.
    - rewrite seqZ_S, fold_left_app. cbn [fold_left]. rewrite Z.add_0_l. destruct (IH ltac:(lia)) as [IH1 IH2].
      assert (0 <= a + Z.of_nat k /\ (a + Z.of_nat k + 1) * BLOCK_SIZE <= Z.of_nat (length file)) as [Hi1 Hi2] by (unfold BLOCK_SIZE in *; lia).
      destruct (write_block_spec _ (a + Z.of_nat k) (slice data (Z.of_nat k * BLOCK_SIZE) ((Z.of_nat k + 1) * BLOCK_SIZE)) IH1 Hi1 Hi2) as [W D];
        [rewrite length_slice'; unfold BLOCK_SIZE in *; lia|].
      split; [exact W|]. rewrite D, IH2. assert (Z.of_nat (length (slice data 0 (Z.of_nat k * BLOCK_SIZE))) = Z.of_nat k * BLOCK_SIZE) as El by (rewrite length_slice'; unfold BLOCK_SIZE in *; lia).
      replace ((a + Z.of_nat k) * BLOCK_SIZE) with (start + Z.of_nat (length (slice data 0 (Z.of_nat k * BLOCK_SIZE)))) by (unfold BLOCK_SIZE in *; lia).
      rewrite set_bytes_app; [|done|].
      + f_equal. rewrite slice_split by (unfold BLOCK_SIZE in *; lia). f_equal. lia.
      + rewrite El, length_slice', length_disk by (unfold BLOCK_SIZE in *; lia). unfold BLOCK_SIZE in *. lia. }
  specialize (H (Z.to_nat n) ltac:(unfold BLOCK_SIZE in *; lia)). rewrite Z2Nat.id in H by (unfold BLOCK_SIZE in *; lia). cbv zeta in H. unfold set. fold a n. split; [apply H|].
  destruct H as [_ ->]. f_equal. unfold slice. rewrite Z.sub_0_r. cbn [Z.to_nat drop]. apply take_ge. lia.
Qed.

(** *** Reads *)

Lemma disk_same s i p : written_blocks s !! i = None -> 0 <= i -> i * BLOCK_SIZE <= Z.of_nat p < (i + 1) * BLOCK_SIZE -> disk file s !! p = file !! p.
Proof.
  intros E Hi Hp. destruct (decide (p < length file)%nat) as [H|H]; [|rewrite !lookup_ge_None_2; [done|lia|rewrite length_disk; lia]].
  rewrite disk_lookup by done. unfold byte_at. rewrite (proj2 (block_index (Z.of_nat p) i ltac:(lia)) Hp), E. symmetry. by apply arr_get_lookup.
Qed.

Lemma slice_ext (l l' : list Z) a b : 0 <= a -> length l = length l' -> (forall p, a <= Z.of_nat p < b -> l !! p = l' !! p) -> slice l a b = slice l' a b.
Proof.
  intros Ha Hl H. apply bytes_ext; [unfold slice; rewrite !length_take, !length_drop; lia|]. intros k Hk. unfold slice in Hk. rewrite length_take, length_drop in Hk.
  rewrite !lookup_slice by lia. apply H. lia.
Qed.

Lemma disk_block_file s i : written_blocks s !! i = None -> 0 <= i ->
  slice (disk file s) (i * BLOCK_SIZE) ((i + 1) * BLOCK_SIZE) = slice file (i * BLOCK_SIZE) ((i + 1) * BLOCK_SIZE).
Proof. intros E Hi. apply slice_ext; [unfold BLOCK_SIZE; lia|apply length_disk|]. intros p Hp. by apply (disk_same s i). Qed.

Lemma cached_block_disk s i block : wf file s -> 0 <= i -> cached_block s i = Some block -> block = slice (disk file s) (i * BLOCK_SIZE) ((i + 1) * BLOCK_SIZE).
Proof.
  intros Hw Hi E. destruct (written_blocks s !! i) as [slot|] eqn:Es.
  - destruct (wf_slots file s Hw i slot Es) as (_ & _ & Hf). by apply cached_block_spec.
  - rewrite disk_block_file by done. unfold cached_block in E. rewrite Es in E. by destruct (wf_cache file s Hw i block E) as (_ & -> & _).
Qed.

(** Keeping a block that was not written keeps the disk. *)
Lemma cache_spec s i : wf file s -> 0 <= i -> written_blocks s !! i = None ->
  let s' := s <| block_cache := <[i := slice file (i * BLOCK_SIZE) ((i + 1) * BLOCK_SIZE)]> (block_cache s) |> in wf file s' /\ disk file s' = disk file s.
Proof.
  intros [] Hi E s'. split; [|done]. split; cbn; try done. intros j block. destruct (decide (j = i)) as [->|Hne].
  - rewrite lookup_insert_eq. intros [= <-]. done.
  - rewrite lookup_insert_ne by done. auto.
Qed.

Lemma handle_read_spec s start len : wf file s -> in_disk start len ->
  let '(block, s') := handle_read start len (slice file start (start + len)) s in
  block = Some (slice (disk file s) start (start + len)) /\ wf file s' /\ disk file s' = disk file s /\ fixed_chunk_size s' = fixed_chunk_size s.
Proof.
  intros Hw (H0 & Ha & Hl0 & Hl & Hf). apply aligned in Ha, Hl. set (n := len / BLOCK_SIZE) in *. set (a := start / BLOCK_SIZE) in *.
  assert (0 <= a /\ 0 <= n) as [Ha0 Hn0] by (unfold BLOCK_SIZE in *; lia). unfold handle_read. fold a n.
  pose proof (length_disk s) as Hd.
  match goal with |- let '(_, _) := fold_left ?f _ ?x in _ => set (step := f); set (x0 := x) end.
  assert (forall k, Z.of_nat k <= n -> let m := start + Z.of_nat k * BLOCK_SIZE in exists s', fold_left step (seqZ 0 (Z.of_nat k)) x0
      = (Some (slice (disk file s) start m ++ slice file m (start + len)), s') /\ wf file s' /\ disk file s' = disk file s /\ fixed_chunk_size s' = fixed_chunk_size s) as H.
  { induction k as [|k IH]; intros Hk; cbv zeta in *.
    - exists s. rewrite Z.mul_0_l, Z.add_0_r. split; [|done]. unfold x0, slice. by rewrite Z.sub_diag.
    - destruct (IH ltac:(lia)) as (s1 & E1 & W1 & D1 & F1). clear IH. rewrite seqZ_S, fold_left_app, E1. cbn [fold_left]. unfold step at 1. rewrite Z.add_0_l.
      set (i := a + Z.of_nat k). set (m := start + Z.of_nat k * BLOCK_SIZE) in *. assert (0 <= i /\ i * BLOCK_SIZE = m /\ (i + 1) * BLOCK_SIZE = start + Z.of_nat (S k) * BLOCK_SIZE) as (Hi & Hm & Hm1)
        by (unfold i, m, BLOCK_SIZE in *; lia). set (m' := start + Z.of_nat (S k) * BLOCK_SIZE) in *.
      assert (m + BLOCK_SIZE = m' /\ m' <= start + len) as [Hmm Hml] by (unfold m, m', BLOCK_SIZE in *; lia).
      assert (Z.of_nat (length (slice (disk file s) start m)) = Z.of_nat k * BLOCK_SIZE) as Lp by (rewrite length_slice'; unfold m, BLOCK_SIZE in *; lia).
      assert (Z.of_nat (length (slice file m m')) = BLOCK_SIZE) as Lf by (rewrite length_slice'; unfold m, m', BLOCK_SIZE in *; lia).
      assert (Z.of_nat (length (slice (disk file s) m m')) = BLOCK_SIZE) as Ld by (rewrite length_slice'; unfold m, m', BLOCK_SIZE in *; lia).
      assert (0 <= m) as Hm0 by (unfold m, BLOCK_SIZE in *; lia).
      rewrite <- (slice_split file m m' (start + len)) by (unfold BLOCK_SIZE in *; lia). destruct (cached_block s1 i) as [cached|] eqn:Ec.
      + pose proof (cached_block_disk s1 i cached W1 Hi Ec) as Ed. rewrite D1, Hm, Hm1 in Ed. subst cached. exists s1. split; [|done]. unfold typed_set.
        rewrite (proj2 (Z.ltb_ge _ _)) by (rewrite !length_app; unfold BLOCK_SIZE in *; lia). rewrite set_bytes_middle by lia. rewrite app_assoc, slice_split by (unfold m, BLOCK_SIZE in *; lia). done.
      + apply cached_block_none in Ec as [Ew _]. pose proof (disk_block_file s1 i Ew Hi) as Ef. rewrite D1, Hm, Hm1 in Ef.
        assert (slice (disk file s) start m ++ slice file m m' ++ slice file m' (start + len) = slice (disk file s) start m' ++ slice file m' (start + len)) as Hb.
        { rewrite <- Ef, app_assoc, slice_split by (unfold m, BLOCK_SIZE in *; lia). done. }
        destruct (cache_reads s1); [|exists s1; by rewrite Hb]. eexists. rewrite slice_app by (unfold BLOCK_SIZE in *; lia). rewrite Hb. split; [reflexivity|].
        destruct (cache_spec s1 i W1 Hi Ew) as [H1 H2]. cbv zeta in H1, H2. rewrite Hm, Hm1 in H1, H2. split; [exact H1|]. split; [by rewrite H2|exact F1]. }
  destruct (H (Z.to_nat n) ltac:(lia)) as (s' & E & H'). rewrite Z2Nat.id in E by done. rewrite E. split; [|done]. rewrite Hl.
  f_equal. unfold slice at 2. rewrite Z.sub_diag. apply app_nil_r.
Qed.

Lemma get_from_cache_spec s offset len block : wf file s -> in_disk offset len -> get_from_cache s offset len = Some block -> block = slice (disk file s) offset (offset + len).
Proof.
  intros Hw (H0 & Ha & Hl0 & Hl & Hf) Hg. apply aligned in Ha, Hl. unfold get_from_cache in Hg. cbv zeta in Hg. set (n := len / BLOCK_SIZE) in *. set (a := offset / BLOCK_SIZE) in *.
  assert (0 <= a /\ 0 <= n) as [Ha0 Hn0] by (unfold BLOCK_SIZE in *; lia). destruct (forallb _ (seqZ 0 n)) eqn:Ef; [|done]. rewrite forallb_forall in Ef. pose proof (length_disk s) as Hd.
  assert (forall i, 0 <= i < n -> cached_block s (a + i) = Some (slice (disk file s) (offset + i * BLOCK_SIZE) (offset + (i + 1) * BLOCK_SIZE))) as Hc.
  { intros i Hi. specialize (Ef i). rewrite <- list_elem_of_In, elem_of_seqZ, is_cached_spec in Ef. destruct (Ef ltac:(lia)) as [x Hx]. rewrite Hx. f_equal.
    rewrite (cached_block_disk s (a + i) x Hw ltac:(lia) Hx). f_equal; unfold BLOCK_SIZE in *; lia. }
  destruct (n =? 1) eqn:En.
  - apply Z.eqb_eq in En. rewrite <- (Z.add_0_r a) in Hg. rewrite Hc in Hg by lia. injection Hg as <-. f_equal; unfold BLOCK_SIZE in *; lia.
  - injection Hg as <-. assert (forall k, Z.of_nat k <= n -> fold_left (fun result i => set_bytes result (default [] (cached_block s (a + i))) (i * BLOCK_SIZE))
        (seqZ 0 (Z.of_nat k)) (replicate (Z.to_nat len) 0) = slice (disk file s) offset (offset + Z.of_nat k * BLOCK_SIZE) ++ replicate (Z.to_nat (len - Z.of_nat k * BLOCK_SIZE)) 0) as H.
    { induction k as [|k IH]; intros Hk.
      - rewrite Z.mul_0_l, Z.add_0_r, Z.sub_0_r. unfold slice. by rewrite Z.sub_diag.
      - rewrite seqZ_S, fold_left_app, IH by lia. cbn [fold_left]. rewrite Z.add_0_l, Hc by lia. cbn [default from_option]. unfold id.
        replace (Z.to_nat (len - Z.of_nat k * BLOCK_SIZE)) with (Z.to_nat BLOCK_SIZE + Z.to_nat (len - Z.of_nat (S k) * BLOCK_SIZE))%nat by (unfold BLOCK_SIZE in *; lia).
        rewrite replicate_add. rewrite set_bytes_middle.
        + rewrite app_assoc, slice_split by (unfold BLOCK_SIZE in *; lia). do 2 f_equal. lia.
        + rewrite length_slice'; unfold BLOCK_SIZE in *; lia.
        + rewrite length_replicate. apply Nat2Z.inj. rewrite length_slice'; unfold BLOCK_SIZE in *; lia. }
    specialize (H (Z.to_nat n) ltac:(lia)). rewrite Z2Nat.id in H by done. rewrite H, Hl, Z.sub_diag. apply app_nil_r.
Qed.

Lemma keep_blocks_spec s offset len : wf file s -> in_disk offset len ->
  let s' := keep_blocks offset len (slice (disk file s) offset (offset + len)) s in wf file s' /\ disk file s' = disk file s.
Proof.
  intros Hw (H0 & Ha & Hl0 & Hl & Hf). apply aligned in Ha, Hl. unfold keep_blocks. set (n := len / BLOCK_SIZE) in *. set (a := offset / BLOCK_SIZE) in *.
  assert (0 <= a /\ 0 <= n) as [Ha0 Hn0] by (unfold BLOCK_SIZE in *; lia). pose proof (length_disk s) as Hd. cbv zeta.
  match goal with |- wf file (fold_left ?f _ _) /\ _ => set (step := f) end.
  assert (forall k, Z.of_nat k <= n -> let s' := fold_left step (seqZ 0 (Z.of_nat k)) s in wf file s' /\ disk file s' = disk file s) as H.
  { induction k as [|k IH]; intros Hk; [done|]. cbv zeta in *. rewrite seqZ_S, fold_left_app. cbn [fold_left]. destruct (IH ltac:(lia)) as [W D]. clear IH.
    set (s1 := fold_left step _ s) in *. unfold step. rewrite Z.add_0_l. destruct (is_cached s1 (a + Z.of_nat k)) eqn:E; [done|].
    apply is_cached_false, cached_block_none in E as [Ew _].
    assert (slice (slice (disk file s) offset (offset + len)) (Z.of_nat k * BLOCK_SIZE) ((Z.of_nat k + 1) * BLOCK_SIZE) = slice file ((a + Z.of_nat k) * BLOCK_SIZE) ((a + Z.of_nat k + 1) * BLOCK_SIZE)) as ->.
    { rewrite <- (disk_block_file s1) by (done || lia). rewrite D. apply bytes_ext.
      - apply Nat2Z.inj. pose proof (length_slice' (disk file s) offset (offset + len)). rewrite !length_slice'; unfold BLOCK_SIZE in *; lia.
      - intros p Hp. unfold slice in Hp. rewrite !length_take, !length_drop in Hp. rewrite !lookup_slice by (unfold BLOCK_SIZE in *; lia). f_equal. unfold BLOCK_SIZE in *. lia. }
    destruct (cache_spec s1 (a + Z.of_nat k) W ltac:(lia) Ew) as [W' D']. split; [exact W'|]. by rewrite D'. }
  specialize (H (Z.to_nat n) ltac:(lia)). rewrite Z2Nat.id in H by done. exact H.
Qed.

(** What a request asks the host for: whole blocks of the file around the range to read. *)
Definition request_ok (r : request) : Prop :=
  in_disk (offset r) (len r) /\ in_disk (requested_start r) (requested_length r)
  /\ requested_start r <= offset r /\ offset r + len r <= requested_start r + requested_length r.

Lemma new_request_ok s offset len keep : wf file s -> in_disk offset len -> request_ok (new_request s offset len keep).
Proof.
  intros Hw Hin. pose proof Hin as (H0 & Ha & Hl0 & Hl & Hf). unfold new_request. destruct (wf_fixed file s Hw) as [->|(Hc & Hcb & Hcf)]; [split; [done|]; split; [done|]; cbn; lia|].
  rewrite (proj2 (Z.eqb_neq _ _)) by lia. set (c := fixed_chunk_size s) in *. split; [done|]. cbn [requested_start requested_length Buffer.offset Buffer.len].
  pose proof (Z.div_mod offset c ltac:(lia)) as Hd. pose proof (Z.mod_pos_bound offset c Hc) as Hm. set (q := offset / c) in *. set (r := offset mod c) in *.
  replace (offset - (offset - r) + len) with (r + len) by lia. pose proof (Extended.ceil_div_spec (r + len) c ltac:(lia) Hc) as Hce. set (k := Extended.ceil_div (r + len) c) in *.
  replace (offset - r) with (c * q) by lia. pose proof (Z.div_mod (Z.of_nat (length file)) c ltac:(lia)) as Hfd. rewrite Hcf in Hfd. set (f := Z.of_nat (length file) / c) in *.
  assert (0 <= q) by (unfold q; apply Z.div_pos; lia). assert (0 <= k) by nia. assert (q + k <= f) by nia.
  pose proof (Z.div_mod c BLOCK_SIZE ltac:(done)) as Hcd. rewrite Hcb in Hcd. set (cb := c / BLOCK_SIZE) in *.
  split; [|nia]. split; [nia|]. split; [rewrite Hcd; replace ((BLOCK_SIZE * cb + 0) * q) with (cb * q * BLOCK_SIZE) by lia; by apply Z.mod_mul|].
  split; [nia|]. split; [rewrite Hcd; replace (k * (BLOCK_SIZE * cb + 0)) with (k * cb * BLOCK_SIZE) by lia; by apply Z.mod_mul|]. nia.
Qed.

Lemma slice_of_slice (l : list Z) a b c d : 0 <= a -> a <= c -> c <= d -> d <= b -> b <= Z.of_nat (length l) -> slice (slice l a b) (c - a) (d - a) = slice l c d.
Proof.
  intros. apply bytes_ext.
  - apply Nat2Z.inj. pose proof (length_slice' l a b). rewrite !length_slice'; lia.
  - intros p Hp. unfold slice in Hp. rewrite !length_take, !length_drop in Hp. rewrite !lookup_slice by lia. f_equal. lia.
Qed.

Lemma done_spec s r : wf file s -> request_ok r ->
  let '(block, s') := done file r s in block = Some (slice (disk file s) (offset r) (offset r + len r)) /\ wf file s' /\ disk file s' = disk file s.
Proof.
  intros Hw (Hin & Hreq & H1 & H2). unfold done. pose proof (handle_read_spec s (requested_start r) (requested_length r) Hw Hreq) as Hr. cbv zeta.
  destruct (handle_read _ _ _ s) as [block s1]. destruct Hr as (-> & W & D & _). pose proof (length_disk s) as Hd. destruct Hreq as (? & ? & ? & ? & ?). destruct (Hin) as (? & ? & ? & ? & ?).
  assert ((if (requested_start r =? offset r) && (requested_length r =? len r) then slice (disk file s) (requested_start r) (requested_start r + requested_length r)
    else slice (slice (disk file s) (requested_start r) (requested_start r + requested_length r)) (offset r - requested_start r) (offset r - requested_start r + len r))
    = slice (disk file s) (offset r) (offset r + len r)) as ->.
  { destruct (_ && _) eqn:E; [apply andb_true_iff in E as [-> %Z.eqb_eq -> %Z.eqb_eq]; done|].
    replace (offset r - requested_start r + len r) with (offset r + len r - requested_start r) by lia. apply slice_of_slice; lia. }
  split; [done|]. destruct (keep r); [|done]. rewrite <- D. exact (keep_blocks_spec s1 (offset r) (len r) W Hin).
Qed.

Lemma get_spec s offset len keep : wf file s -> in_disk offset len ->
  match get offset len keep s with
  | inr (block, s') => block = slice (disk file s) offset (offset + len) /\ wf file s' /\ disk file s' = disk file s
  | inl r => r = new_request s offset len keep
  end.
Proof.
  intros Hw Hin. unfold get. destruct (get_from_cache s offset len) as [block|] eqn:E; [|done]. pose proof (get_from_cache_spec s offset len block Hw Hin E) as ->.
  split; [done|]. destruct keep; [|done]. by apply keep_blocks_spec.
Qed.
Lemma disk_create_wf fixed : fixed = 0 \/ (0 < fixed /\ fixed mod BLOCK_SIZE = 0 /\ Z.of_nat (length file) mod fixed = 0) ->
  wf file (create (Z.of_nat (length file)) fixed) /\ disk file (create (Z.of_nat (length file)) fixed) = file.
Proof.
  intros Hc. split.
  - split; cbn; try done; try (intros *; by rewrite lookup_empty).
  - apply bytes_ext; [apply length_disk|]. intros k Hk. rewrite length_disk in Hk. rewrite disk_lookup by done. unfold byte_at. cbn. rewrite lookup_empty. symmetry. by apply arr_get_lookup.
Qed.

(** ** Reads, writes and loads in any order *)

(** The disk and the loads the host has not answered yet. *)
Record host := mk_host { buf : t; pending : list request }.

Inductive op :=
| Read (offset len : Z) (keep : bool)
| Loaded (i : nat)
| Write (start : Z) (data : list Z).

Definition step (o : op) (h : host) : host * option (list Z) :=
  match o with
  | Read offset len keep =>
      match get offset len keep (buf h) with
      | inr (block, s) => (mk_host s (pending h), Some block)
      | inl r => (mk_host (buf h) (pending h ++ [r]), None)
      end
  | Loaded i =>
      match pending h !! i with
      | Some r => let '(block, s) := done file r (buf h) in (mk_host s (delete i (pending h)), block)
      | None => (h, None)
      end
  | Write start data => (mk_host (set start data (buf h)) (pending h), None)
  end.

Definition op_ok (o : op) : Prop :=
  match o with
  | Read offset len _ => in_disk offset len
  | Loaded _ => True
  | Write start data => in_disk start (Z.of_nat (length data))
  end.

(** What the writes make of the file. *)
Definition written (ops : list op) : list Z :=
  fold_left (fun d o => match o with Write start data => set_bytes d data start | _ => d end) ops file.

Definition run (ops : list op) (h : host) : host := fold_left (fun h o => (step o h).1) ops h.

Definition consistent (h : host) (d : list Z) : Prop := wf file (buf h) /\ disk file (buf h) = d /\ Forall request_ok (pending h).

Lemma step_consistent o h d : op_ok o -> consistent h d ->
  consistent (step o h).1 (match o with Write start data => set_bytes d data start | _ => d end).
Proof.
  intros Ho (Hw & Hd & Hp). destruct o as [offset len keep|i|start data]; cbn [step op_ok] in *.
  - pose proof (get_spec (buf h) offset len keep Hw Ho) as Hg. destruct (get offset len keep (buf h)) as [r|[block s]].
    + split; [done|]. split; [done|]. cbn. apply Forall_app. split; [done|]. constructor; [|done]. rewrite Hg. by apply new_request_ok.
    + destruct Hg as (_ & W & D). split; [done|]. split; [cbn; congruence|done].
  - destruct (pending h !! i) as [r|] eqn:E; [|done]. pose proof (done_spec (buf h) r Hw (Forall_lookup_1 _ _ _ _ Hp E)) as Hdn. destruct (done file r (buf h)) as [block s].
    destruct Hdn as (_ & W & D). split; [done|]. split; [cbn; congruence|]. by apply Forall_delete.
  - destruct (set_spec (buf h) start data Hw Ho) as [W D]. split; [done|]. split; [cbn; congruence|done].
Qed.

Lemma run_consistent ops h d : Forall op_ok ops -> consistent h d ->
  consistent (run ops h) (fold_left (fun d o => match o with Write start data => set_bytes d data start | _ => d end) ops d).
Proof. intros Hops. revert h d. induction Hops as [|o ops Ho Hops IH]; intros h d Hc; [done|]. cbn [run fold_left]. by apply IH, step_consistent. Qed.

End Disk.

Lemma cached_read s offset len :
  forallb (fun i => is_cached s (offset / BLOCK_SIZE + i)) (seqZ 0 (len / BLOCK_SIZE)) = bool_decide (is_Some (get_from_cache s offset len)).
Proof.
  unfold get_from_cache. destruct (forallb _ _) eqn:E; [|done]. destruct (len / BLOCK_SIZE =? 1) eqn:E1; [|done].
  apply Z.eqb_eq in E1. rewrite E1 in E. change (seqZ 0 1) with [0] in E. cbn [forallb] in E. rewrite andb_true_r, Z.add_0_r in E. unfold is_cached in E. unfold cached_block.
  destruct (written_blocks s !! _) as [slot|]; [symmetry; by apply bool_decide_eq_true_2|]. cbn [orb] in E. symmetry. exact E.
Qed.



(** ** Snapshots of the written blocks *)

Lemma length_chunks (chunks : list (list Z)) : Forall (fun chunk => Z.of_nat (length chunk) = WRITE_CHUNK_BLOCKS * BLOCK_SIZE) chunks ->
  Z.of_nat (length (concat chunks)) = Z.of_nat (length chunks) * (WRITE_CHUNK_BLOCKS * BLOCK_SIZE).
Proof. induction 1 as [|c l Hc Hl IH]; [done|]. cbn [concat length]. rewrite length_app. lia. Qed.

Lemma ceil_div_mul k n : 0 < n -> Extended.ceil_div (k * n) n = k.
Proof. intros Hn. unfold Extended.ceil_div. rewrite <- Z.add_sub_assoc, Z.div_add_l by lia. rewrite (Z.div_small (n - 1)) by lia. lia. Qed.

Section Snapshot.
  Context (file : list Z) (s : t).
  Hypothesis Hw : wf file s.

Definition count : Z := Z.of_nat (size (written_blocks s)).
Definition indices : list Z := (get_state s).1.

Lemma set_indices l : forall acc, NoDup l.*2 -> Forall (fun p => 0 <= p.2 < Z.of_nat (length acc)) l ->
  let r := fold_left (fun indices (p : Z * Z) => arr_set indices p.2 p.1) l acc in
  length r = length acc /\ (forall i slot, (i, slot) ∈ l -> arr_get r slot = i) /\ forall k, 0 <= k -> k ∉ l.*2 -> arr_get r k = arr_get acc k.
Proof.
  induction l as [|[i slot] l IH]; intros acc Hnd Hr; cbv zeta; [split; [done|]; split; [by intros ? ? ?%elem_of_nil|done]|].
  rewrite fmap_cons in Hnd. apply NoDup_cons in Hnd as [Hn Hnd]. inversion Hr as [|? ? Hr1 Hr2]; subst. cbn [fold_left fst snd] in *.
  destruct (IH (arr_set acc slot i) Hnd) as (L & G & O); [by rewrite arr_set_length|]. rewrite arr_set_length in L. split; [done|]. split.
  - intros i' slot' [[= -> ->]|Hin]%elem_of_cons; [|by apply G]. rewrite O by (done || lia). apply arr_get_set_eq. lia.
  - intros k Hk Hnk. rewrite fmap_cons, not_elem_of_cons in Hnk. destruct Hnk as [Hk1 Hk2]. rewrite O by done. apply arr_get_set_ne; cbn in Hk1; lia.
Qed.

Lemma slots_nodup : NoDup (map_to_list (written_blocks s)).*2.
Proof.
  apply NoDup_fmap_2_strong; [|apply NoDup_map_to_list]. intros [i a] [j b] Hi%elem_of_map_to_list Hj%elem_of_map_to_list E. cbn in E. subst b.
  by rewrite (wf_inj file s Hw i j a Hi Hj).
Qed.

Lemma slots_range : Forall (fun p : Z * Z => 0 <= p.2 < count) (map_to_list (written_blocks s)).
Proof. apply Forall_forall. intros [i slot] Hi%elem_of_map_to_list. by destruct (wf_slots file s Hw i slot Hi). Qed.

Lemma indices_spec : Z.of_nat (length indices) = count /\ forall i slot, written_blocks s !! i = Some slot -> arr_get indices slot = i.
Proof.
  unfold indices, get_state. cbn [fst]. fold count. destruct (set_indices (map_to_list (written_blocks s)) (replicate (Z.to_nat count) 0)) as (L & G & _).
  - apply slots_nodup.
  - rewrite length_replicate. eapply Forall_impl; [apply slots_range|]. cbn. unfold count. lia.
  - rewrite length_replicate in L. split; [rewrite L; unfold count; lia|]. intros i slot Hi. by apply G, elem_of_map_to_list.
Qed.

(** Every slot is a block's. *)
Lemma slot_used k : 0 <= k < count -> written_blocks s !! arr_get indices k = Some k.
Proof.
  intros Hk. assert ((map_to_list (written_blocks s)).*2 ≡ₚ seqZ 0 count) as Hp.
  { apply submseteq_length_Permutation; [apply NoDup_submseteq; [apply slots_nodup|]|].
    - intros slot Hs. apply elem_of_seqZ. apply list_elem_of_fmap in Hs as ([i sl] & -> & Hi). pose proof slots_range as Hr. rewrite Forall_forall in Hr. specialize (Hr _ Hi). cbn in *. lia.
    - rewrite length_fmap, length_seqZ. unfold count. rewrite Nat2Z.id. by rewrite length_map_to_list. }
  assert (k ∈ (map_to_list (written_blocks s)).*2) as Hin by (rewrite Hp; apply elem_of_seqZ; lia).
  apply list_elem_of_fmap in Hin as ([i sl] & -> & Hi%elem_of_map_to_list). cbn [snd]. by rewrite (proj2 indices_spec i sl Hi).
Qed.

(** The blocks in the first [k] slots. *)
Definition upto (k : Z) : gmap Z Z := filter (fun p : Z * Z => p.2 < k) (written_blocks s).

Lemma upto_lookup k i slot : upto k !! i = Some slot <-> written_blocks s !! i = Some slot /\ slot < k.
Proof. unfold upto. rewrite map_lookup_filter_Some. done. Qed.

Lemma upto_new k : 0 <= k < count -> upto k !! arr_get indices k = None.
Proof. intros Hk. destruct (upto k !! arr_get indices k) as [slot|] eqn:E; [|done]. apply upto_lookup in E as [E Hs]. rewrite slot_used in E by done. injection E as <-. lia. Qed.

Lemma upto_next k : 0 <= k < count -> <[arr_get indices k := k]> (upto k) = upto (k + 1).
Proof.
  intros Hk. apply map_eq. intros i. apply option_eq. intros slot. rewrite upto_lookup. destruct (decide (i = arr_get indices k)) as [->|Hne].
  - rewrite lookup_insert_eq, slot_used by done. split; [intros [= <-]; split; [done|lia]|intros [[= <-] _]; done].
  - rewrite lookup_insert_ne by done. rewrite upto_lookup. split; [intros [H1 H2]; split; [done|lia]|]. intros [H1 H2]. split; [done|].
    destruct (decide (slot = k)) as [->|]; [|lia]. destruct Hne. by rewrite (proj2 indices_spec i k H1).
Qed.

Lemma upto_size (k : nat) : Z.of_nat k <= count -> size (upto (Z.of_nat k)) = k.
Proof.
  induction k as [|k IH]; intros Hk.
  - assert (upto (Z.of_nat 0) = ∅) as ->; [|apply map_size_empty]. apply map_eq. intros i. rewrite lookup_empty. destruct (upto _ !! i) as [slot|] eqn:E; [|done].
    apply upto_lookup in E as [E Hs]. destruct (wf_slots file s Hw i slot E). lia.
  - replace (Z.of_nat (S k)) with (Z.of_nat k + 1) by lia. rewrite <- upto_next by lia. rewrite map_size_insert_None by (apply upto_new; lia). rewrite IH by lia. done.
Qed.

Lemma upto_all : upto count = written_blocks s.
Proof.
  apply map_eq. intros i. apply option_eq. intros slot. rewrite upto_lookup. split; [by intros []|]. intros E. split; [done|]. destruct (wf_slots file s Hw i slot E) as [Hs _]. unfold count. lia.
Qed.

(** The state a restore has reached when [k] blocks are in place. *)
Record restored (k : Z) (s1 : t) : Prop := {
  rs_wf : wf file s1;
  rs_written : written_blocks s1 = upto k;
  rs_cache : block_cache s1 = ∅;
  rs_store : forall p, 0 <= p < k * BLOCK_SIZE -> arr_get (store s1) p = arr_get (store s) p
}.

Lemma restored_disk s1 : restored count s1 -> disk file s1 = disk file s.
Proof.
  intros [W E _ R]. unfold disk. apply map_ext_in. intros k Hk%list_elem_of_In%elem_of_seqZ. unfold byte_at. rewrite E, upto_all.
  destruct (written_blocks s !! (k / BLOCK_SIZE)) as [slot|] eqn:Es; [|done]. destruct (wf_slots file s Hw _ slot Es) as (Hs & _). fold count in Hs.
  pose proof (Z.mod_pos_bound k BLOCK_SIZE ltac:(done)). apply R. unfold BLOCK_SIZE in *. lia.
Qed.


(** A block is written: the next slot. *)
Lemma restore_block s1 k data : restored k s1 -> 0 <= k < count -> Z.of_nat (length data) = BLOCK_SIZE ->
  (forall p, 0 <= p < BLOCK_SIZE -> arr_get data p = arr_get (store s) (k * BLOCK_SIZE + p)) ->
  restored (k + 1) (write_block (arr_get indices k) data s1).
Proof.
  intros [W E Hc0 R] Hk Hl Hd. pose proof (slot_used k Hk) as Hu. destruct (wf_slots file s Hw _ k Hu) as (_ & Hi0 & Hi1).
  destruct (write_block_spec file s1 (arr_get indices k) data W Hi0 Hi1 Hl) as [W' _]. pose proof (upto_new k Hk) as Hn. rewrite <- E in Hn.
  assert (Z.of_nat (size (written_blocks s1)) = k) as Hsz.
  { rewrite E. replace k with (Z.of_nat (Z.to_nat k)) at 1 by lia. rewrite upto_size by lia. lia. }
  split; [done| | |].
  - rewrite (write_block_new s1 _ data Hn). cbn. rewrite Hsz, E. by apply upto_next.
  - rewrite (write_block_new s1 _ data Hn). cbn. rewrite Hc0. apply delete_empty.
  - intros p Hp. rewrite (write_block_new s1 _ data Hn), store_chunks, Hsz. destruct (grown_spec file s1 W) as (G1 & G2 & G3 & G4). rewrite Hsz in G2, G3.
    destruct (chunk_set (grown s1) k data G1 ltac:(lia) Hl) as (C1 & _). rewrite C1. rewrite arr_get_set_bytes; [|unfold BLOCK_SIZE in *; lia| |lia].
    + rewrite Hl, G4. case_decide as Hin; [rewrite Hd by lia; f_equal; lia|]. apply R. unfold BLOCK_SIZE in *. lia.
    + rewrite length_chunks by done. unfold WRITE_CHUNK_BLOCKS, BLOCK_SIZE in *. lia.
Qed.

Lemma restore_blocks chunk n : forall i s1, restored i s1 -> 0 <= i -> i + Z.of_nat n <= count -> Z.of_nat n * BLOCK_SIZE <= Z.of_nat (length chunk) ->
  (forall p, 0 <= p < Z.of_nat n * BLOCK_SIZE -> arr_get chunk p = arr_get (store s) (i * BLOCK_SIZE + p)) ->
  restored (i + Z.of_nat n) (fold_left (fun s k => write_block (arr_get indices (i + k)) (slice chunk (k * BLOCK_SIZE) ((k + 1) * BLOCK_SIZE)) s) (seqZ 0 (Z.of_nat n)) s1).
Proof.
  induction n as [|n IH]; intros i s1 Hr Hi Hn Hl Hc; [by rewrite Z.add_0_r|]. rewrite seqZ_S, fold_left_app. cbn [fold_left]. rewrite Z.add_0_l.
  replace (i + Z.of_nat (S n)) with (i + Z.of_nat n + 1) by lia. apply restore_block; [apply IH; try done; unfold BLOCK_SIZE in *; try lia; intros p Hp; apply Hc; lia|lia| |].
  - rewrite length_slice'; unfold BLOCK_SIZE in *; lia.
  - intros p Hp. unfold arr_get at 1. rewrite lookup_slice by (unfold BLOCK_SIZE in *; lia).
    replace (Z.to_nat (Z.of_nat n * BLOCK_SIZE) + Z.to_nat p)%nat with (Z.to_nat (Z.of_nat n * BLOCK_SIZE + p)) by (unfold BLOCK_SIZE in *; lia).
    fold (arr_get chunk (Z.of_nat n * BLOCK_SIZE + p)). rewrite Hc by (unfold BLOCK_SIZE in *; lia). f_equal. lia.
Qed.

(** A full chunk is taken as it is. *)
Lemma insert_indices n : forall i s1, 0 <= i -> i + Z.of_nat n <= count -> written_blocks s1 = upto i ->
  let s2 := fold_left (fun s i => s <| written_blocks := <[arr_get indices i := i]> (written_blocks s) |>) (seqZ i (Z.of_nat n)) s1 in
  s2 = s1 <| written_blocks := upto (i + Z.of_nat n) |>.
Proof.
  induction n as [|n IH]; intros i s1 Hi Hn E; cbv zeta; [rewrite Z.add_0_r, <- E; by destruct s1|]. rewrite seqZ_cons by lia. cbn [fold_left].
  replace (Z.succ i) with (i + 1) by lia. replace (Z.pred (Z.of_nat (S n))) with (Z.of_nat n) by lia. rewrite IH; [|lia|lia|cbn; rewrite E; apply upto_next; lia].
  replace (i + 1 + Z.of_nat n) with (i + Z.of_nat (S n)) by lia. done.
Qed.

Lemma restore_full s1 i chunk : restored i s1 -> 0 <= i -> i mod WRITE_CHUNK_BLOCKS = 0 -> i + WRITE_CHUNK_BLOCKS <= count ->
  Z.of_nat (length chunk) = WRITE_CHUNK_BLOCKS * BLOCK_SIZE ->
  (forall p, 0 <= p < WRITE_CHUNK_BLOCKS * BLOCK_SIZE -> arr_get chunk p = arr_get (store s) (i * BLOCK_SIZE + p)) ->
  restored (i + WRITE_CHUNK_BLOCKS) (s1 <| write_chunks := write_chunks s1 ++ [chunk] |> <| written_blocks := upto (i + WRITE_CHUNK_BLOCKS) |>).
Proof.
  intros [W E Hc0 R] Hi Hm Hc Hl Hd. pose proof W as [W1 W2 W3 W4 W5 W6 W7]. assert (0 < WRITE_CHUNK_BLOCKS) as Hpos by done.
  assert (forall k, 0 <= k <= count -> Z.of_nat (size (upto k)) = k) as Hsz by (intros k Hk; replace k with (Z.of_nat (Z.to_nat k)) at 1 by lia; rewrite upto_size by lia; lia).
  assert (Z.of_nat (length (write_chunks s1)) * WRITE_CHUNK_BLOCKS = i) as Hn.
  { rewrite W5, E, Hsz by lia. pose proof (Z.div_mod i WRITE_CHUNK_BLOCKS ltac:(done)) as Hq. rewrite Hm in Hq.
    replace i with (i / WRITE_CHUNK_BLOCKS * WRITE_CHUNK_BLOCKS) at 1 by lia. rewrite ceil_div_mul by done. lia. }
  split; [split|done|done|]; cbn.
  - done.
  - done.
  - intros j slot Hj%upto_lookup. destruct Hj as [Hj Hs]. rewrite Hsz by lia. destruct (wf_slots file s Hw j slot Hj) as (H1 & H2). split; [lia|done].
  - intros j k slot [Hj _]%upto_lookup [Hk _]%upto_lookup. by apply (wf_inj file s Hw j k slot).
  - rewrite length_app, Hsz by lia. cbn [length]. replace (i + WRITE_CHUNK_BLOCKS) with (Z.of_nat (length (write_chunks s1) + 1) * WRITE_CHUNK_BLOCKS) by lia. by rewrite ceil_div_mul.
  - apply Forall_app. split; [done|]. by constructor.
  - intros j block Hj. rewrite Hc0, lookup_empty in Hj. done.
  - intros p Hp. unfold store at 1. cbn. rewrite concat_app. cbn [concat]. rewrite app_nil_r. assert (Z.of_nat (length (store s1)) = i * BLOCK_SIZE) as Hls by (rewrite (length_store file s1 W), <- Hn; lia). fold (store s1). unfold arr_get.
    destruct (decide (p < i * BLOCK_SIZE)) as [Hlt|Hge].
    + rewrite lookup_app_l by (unfold BLOCK_SIZE in *; lia). apply R. lia.
    + rewrite lookup_app_r by (unfold BLOCK_SIZE in *; lia). replace (Z.to_nat p - length (store s1))%nat with (Z.to_nat (p - i * BLOCK_SIZE)) by (unfold BLOCK_SIZE in *; lia).
      fold (arr_get chunk (p - i * BLOCK_SIZE)). rewrite Hd by (unfold BLOCK_SIZE in *; lia). by replace (i * BLOCK_SIZE + (p - i * BLOCK_SIZE)) with p by lia.
Qed.

(** *** The chunks one after the other *)

Definition saved_chunk (c : nat) (chunk : list Z) : list Z := slice chunk 0 (Z.min WRITE_CHUNK_BLOCKS (count - Z.of_nat c * WRITE_CHUNK_BLOCKS) * BLOCK_SIZE).

Lemma saved_chunks : (get_state s).2 = imap saved_chunk (write_chunks s).
Proof. done. Qed.

Lemma saved_chunk_spec c chunk : write_chunks s !! c = Some chunk -> let n := Z.min WRITE_CHUNK_BLOCKS (count - Z.of_nat c * WRITE_CHUNK_BLOCKS) in
  0 < n /\ Z.of_nat (length (saved_chunk c chunk)) = n * BLOCK_SIZE
  /\ forall p, 0 <= p < n * BLOCK_SIZE -> arr_get (saved_chunk c chunk) p = arr_get (store s) (Z.of_nat c * WRITE_CHUNK_BLOCKS * BLOCK_SIZE + p).
Proof.
  intros E n. pose proof (Forall_lookup_1 _ _ _ _ (wf_chunks file s Hw) E) as El. cbv beta in El. assert (Z.of_nat c < Z.of_nat (length (write_chunks s))) as Hc by (apply lookup_lt_Some in E; lia).
  pose proof (Extended.ceil_div_spec count WRITE_CHUNK_BLOCKS ltac:(unfold count; lia) ltac:(done)) as Hd. pose proof (wf_count file s Hw) as Hn. fold count in Hn. rewrite <- Hn in Hd.
  assert (0 < n) as Hn0 by (unfold n, WRITE_CHUNK_BLOCKS in *; lia). split; [done|]. split; [unfold saved_chunk; fold n; rewrite length_slice'; unfold n, WRITE_CHUNK_BLOCKS, BLOCK_SIZE in *; lia|].
  intros p Hp. unfold saved_chunk. fold n. unfold arr_get. rewrite lookup_slice by lia. cbn [Z.to_nat Nat.add]. unfold store. rewrite (Extended.concat_split _ _ _ E).
  assert (Z.of_nat (length (concat (take c (write_chunks s)))) = Z.of_nat c * WRITE_CHUNK_BLOCKS * BLOCK_SIZE) as Lt.
  { rewrite length_chunks by apply Forall_take, (wf_chunks file s Hw). rewrite length_take, Nat.min_l by lia. lia. }
  rewrite lookup_app_r by (unfold WRITE_CHUNK_BLOCKS, BLOCK_SIZE in *; lia). rewrite lookup_app_l by (unfold n, WRITE_CHUNK_BLOCKS, BLOCK_SIZE in *; lia). do 2 f_equal. lia.
Qed.

Lemma restore_chunks_ok chunks : forall c s1, drop c (write_chunks s) = chunks -> restored (Z.min (Z.of_nat c * WRITE_CHUNK_BLOCKS) count) s1 ->
  exists s2, restore_chunks indices (imap (fun k chunk => saved_chunk (c + k) chunk) chunks) (Z.min (Z.of_nat c * WRITE_CHUNK_BLOCKS) count) s1 = (s2, None) /\ restored count s2.
Proof.
  pose proof (Extended.ceil_div_spec count WRITE_CHUNK_BLOCKS ltac:(unfold count; lia) ltac:(done)) as Hd. pose proof (wf_count file s Hw) as Hn. fold count in Hn. rewrite <- Hn in Hd.
  induction chunks as [|chunk chunks IH]; intros c s1 Hc Hr.
  - exists s1. split; [done|]. assert (length (write_chunks s) <= c)%nat as Hle by (apply (f_equal length) in Hc; rewrite length_drop in Hc; cbn in Hc; lia).
    rewrite Z.min_r in Hr by (unfold WRITE_CHUNK_BLOCKS in *; lia). done.
  - assert (write_chunks s !! c = Some chunk) as E by (rewrite <- (Nat.add_0_r c), <- lookup_drop, Hc; done).
    assert (drop (S c) (write_chunks s) = chunks) as Hc' by (rewrite <- Nat.add_1_r, <- drop_drop, Hc; done).
    destruct (saved_chunk_spec c chunk E) as (Hn0 & Hl & Hp). set (n := Z.min WRITE_CHUNK_BLOCKS (count - Z.of_nat c * WRITE_CHUNK_BLOCKS)) in *.
    rewrite Z.min_l in * by (unfold n, WRITE_CHUNK_BLOCKS in *; lia). set (i := Z.of_nat c * WRITE_CHUNK_BLOCKS) in *.
    rewrite imap_cons, Nat.add_0_r. cbn [restore_chunks]. cbv zeta. rewrite Hl, Z.div_mul by done.
    assert (i mod WRITE_CHUNK_BLOCKS = 0) as Hmod by (apply Z.mod_mul; done). rewrite Hmod, Z.eqb_refl, andb_true_r.
    rewrite (imap_ext _ (fun k x => saved_chunk (S c + k) x)) by (intros k x _; cbn; f_equal; lia).
    assert (forall s2, restored (i + n) s2 -> exists s3, restore_chunks indices (imap (fun k x => saved_chunk (S c + k) x) chunks) (i + n) s2 = (s3, None) /\ restored count s3) as Hnext.
    { intros s2 Hr2. assert (i + n = Z.min (Z.of_nat (S c) * WRITE_CHUNK_BLOCKS) count) as En by (unfold i, n, WRITE_CHUNK_BLOCKS in *; lia). rewrite En in *. by apply IH. }
    destruct (n =? WRITE_CHUNK_BLOCKS) eqn:En.
    + apply Z.eqb_eq in En. pose proof (insert_indices (Z.to_nat n) i (s1 <| write_chunks := write_chunks s1 ++ [saved_chunk c chunk] |>)) as Hi.
      rewrite Z2Nat.id in Hi by lia. cbv zeta in Hi. rewrite Hi; [|unfold i, WRITE_CHUNK_BLOCKS; lia|unfold n in *; lia|apply (rs_written _ _ Hr)].
      pose proof (restore_full s1 i (saved_chunk c chunk) Hr) as Hf. rewrite En in *.
      specialize (Hf ltac:(unfold i, WRITE_CHUNK_BLOCKS; lia) Hmod ltac:(unfold n in En; lia) ltac:(lia) Hp).
      rewrite (proj2 (negb_false_iff _)); [by apply Hnext|]. apply Z.eqb_eq. cbn. replace (i + WRITE_CHUNK_BLOCKS) with (Z.of_nat (Z.to_nat (i + WRITE_CHUNK_BLOCKS))) by (unfold i, WRITE_CHUNK_BLOCKS; lia).
      rewrite upto_size by (unfold n, i, WRITE_CHUNK_BLOCKS in *; lia). done.
    + apply Hnext. replace n with (Z.of_nat (Z.to_nat n)) by lia. apply restore_blocks; [done|unfold i, WRITE_CHUNK_BLOCKS; lia|unfold n in *; lia|lia|].
      intros p Hpp. apply Hp. lia.
Qed.

Lemma saved_total chunks : forall c, drop c (write_chunks s) = chunks ->
  fold_left (fun total chunk => total + Z.of_nat (length chunk) / BLOCK_SIZE) (imap (fun k chunk => saved_chunk (c + k) chunk) chunks) (Z.min (Z.of_nat c * WRITE_CHUNK_BLOCKS) count) = count.
Proof.
  pose proof (Extended.ceil_div_spec count WRITE_CHUNK_BLOCKS ltac:(unfold count; lia) ltac:(done)) as Hd. pose proof (wf_count file s Hw) as Hn. fold count in Hn. rewrite <- Hn in Hd.
  induction chunks as [|chunk chunks IH]; intros c Hc.
  - assert (length (write_chunks s) <= c)%nat as Hle by (apply (f_equal length) in Hc; rewrite length_drop in Hc; cbn in Hc; lia). cbn. unfold WRITE_CHUNK_BLOCKS in *. lia.
  - assert (write_chunks s !! c = Some chunk) as E by (rewrite <- (Nat.add_0_r c), <- lookup_drop, Hc; done).
    assert (drop (S c) (write_chunks s) = chunks) as Hc' by (rewrite <- Nat.add_1_r, <- drop_drop, Hc; done).
    destruct (saved_chunk_spec c chunk E) as (Hn0 & Hl & _). rewrite imap_cons, Nat.add_0_r. cbn [fold_left]. rewrite Hl, Z.div_mul by done. 
    rewrite (imap_ext _ (fun k x => saved_chunk (S c + k) x)) by (intros k x _; cbn; f_equal; lia).
    replace (Z.min (Z.of_nat c * WRITE_CHUNK_BLOCKS) count + _) with (Z.min (Z.of_nat (S c) * WRITE_CHUNK_BLOCKS) count) by (unfold WRITE_CHUNK_BLOCKS in *; lia).
    by apply IH.
Qed.

End Snapshot.

Lemma clear_restored file s s2 : wf file s -> wf file s2 -> restored file s 0 (clear s2).
Proof.
  intros Hw [W1 W2 W3 W4 W5 W6 W7]. assert (upto s 0 = ∅) as E.
  { apply map_eq. intros i. rewrite lookup_empty. destruct (upto s 0 !! i) as [slot|] eqn:E; [|done]. apply upto_lookup in E as [E Hs]. destruct (wf_slots file s Hw i slot E). lia. }
  split; [|by rewrite E|done|intros p Hp; lia]. split; cbn; try done; intros *; by rewrite lookup_empty.
Qed.

Lemma set_state_spec file s s2 : wf file s -> wf file s2 -> exists s', set_state (get_state s) s2 = (s', None) /\ wf file s' /\ disk file s' = disk file s.
Proof.
  intros Hw Hw2. destruct (indices_spec file s Hw) as [Hl Hi]. pose proof (clear_restored file s s2 Hw Hw2) as Hr0.
  destruct (restore_chunks_ok file s Hw (write_chunks s) 0 (clear s2) eq_refl) as (s' & E & Hr); [by rewrite Z.min_l by (unfold count; lia)|].
  rewrite Z.min_l in E by (unfold count; lia). exists s'. split; [|split; [apply Hr|by apply (restored_disk file s Hw)]].
  rewrite (surjective_pairing (get_state s)). unfold set_state. rewrite saved_chunks. fold (indices s).
  rewrite (not_true_is_false (existsb _ (imap (saved_chunk s) (write_chunks s)))).
  - assert (fold_left (fun total chunk => total + Z.of_nat (length chunk) / BLOCK_SIZE) (imap (saved_chunk s) (write_chunks s)) 0 = count s) as ->.
    { pose proof (saved_total file s Hw (write_chunks s) 0 eq_refl) as Ht. rewrite Z.min_l in Ht by (unfold count; lia). exact Ht. }
    rewrite Hl, Z.eqb_refl. rewrite (not_true_is_false (existsb _ (indices s))); [exact E|]. intros (i & Hin & H)%existsb_exists.
    apply list_elem_of_In, list_elem_of_lookup in Hin as [k Hk]. assert (Z.of_nat k < count s) as Hkc by (apply lookup_lt_Some in Hk; lia).
    pose proof (slot_used file s Hw (Z.of_nat k) ltac:(lia)) as Hu. unfold arr_get in Hu. rewrite Nat2Z.id, Hk in Hu. destruct (wf_slots file s Hw _ _ Hu) as (_ & H0 & H1).
    cbn in H. rewrite (wf_length file s2 Hw2) in H. change (default 0 (Some i)) with i in *. unfold BLOCK_SIZE in *. lia.
  - intros (chunk & Hin & H)%existsb_exists. apply list_elem_of_In, list_elem_of_lookup in Hin as [k Hk]. rewrite list_lookup_imap in Hk. apply fmap_Some in Hk as (c & Ec & ->).
    destruct (saved_chunk_spec file s Hw k c Ec) as (_ & Hlen & _). rewrite Hlen, Z.mod_mul in H by done. done.
Qed.

(** C19: A snapshot of a disk holds what was written: whatever happened to the disk, and whatever had happened to another one
    of the same file (which may load in other chunks), restoring the snapshot into that one succeeds and makes it the file with the
    writes of the first; blocks are not mixed up between the chunks they are saved in. *)
Theorem disk_snapshot (file : list Z) (fixed fixed' : Z) (ops ops' : list op) :
  (forall f, f = fixed \/ f = fixed' -> f = 0 \/ (0 < f /\ f mod BLOCK_SIZE = 0 /\ Z.of_nat (length file) mod f = 0)) ->
  Forall (op_ok file) ops -> Forall (op_ok file) ops' ->
  let s := buf (run file ops (mk_host (create (Z.of_nat (length file)) fixed) [])) in
  let s2 := buf (run file ops' (mk_host (create (Z.of_nat (length file)) fixed') [])) in
  exists s', set_state (get_state s) s2 = (s', None) /\ consistent file (mk_host s' []) (written file ops).
Proof.
  intros Hf Hops Hops' s s2.
  assert (forall f l, f = fixed \/ f = fixed' -> Forall (op_ok file) l -> consistent file (run file l (mk_host (create (Z.of_nat (length file)) f) [])) (written file l)) as H.
  { intros f l Hfl Hl. destruct (disk_create_wf file f (Hf f Hfl)) as [W D]. apply run_consistent; [done|]. split; [done|]. split; [done|constructor]. }
  destruct (H fixed ops (or_introl eq_refl) Hops) as (W1 & D1 & _). destruct (H fixed' ops' (or_intror eq_refl) Hops') as (W2 & _).
  destruct (set_state_spec file s s2 W1 W2) as (s' & E & W' & D'). exists s'. split; [done|]. split; [done|]. split; [by rewrite <- D1|constructor].
Qed.

Lemma disk_snapshot_witness : let file := replicate 1024 7 in
  let s := buf (run file [Write 256 (replicate 512 9); Write 512 (replicate 256 1)] (mk_host (create 1024 512) [])) in
  exists s', set_state (get_state s) (create 1024 0) = (s', None) /\ consistent file (mk_host s' []) (replicate 256 7 ++ replicate 256 9 ++ replicate 256 1 ++ replicate 256 7).
Proof.
  intros file s. destruct (disk_snapshot file 512 0 [Write 256 (replicate 512 9); Write 512 (replicate 256 1)] []) as (s' & E & H).
  - intros f [->| ->]; [right; split; [lia|split; reflexivity]|by left].
  - repeat constructor; vm_compute; discriminate.
  - constructor.
  - exists s'. split; [exact E|exact H].
Defined.

(** ** The disk as a file *)

Section File.
  Context (file : list Z) (s : t).
  Hypothesis Hw : wf file s.

Lemma run_of_spec bi slot rest : forall count count' rest', run_of s bi slot count rest = (count', rest') -> slot mod WRITE_CHUNK_BLOCKS + count <= WRITE_CHUNK_BLOCKS -> 0 < count -> 0 <= slot ->
  count <= count' /\ rest = seqZ (bi + count) (count' - count) ++ rest' /\ slot mod WRITE_CHUNK_BLOCKS + count' <= WRITE_CHUNK_BLOCKS
  /\ forall j, count <= j < count' -> written_blocks s !! (bi + j) = Some (slot + j).
Proof.
  induction rest as [|next rest IH]; intros count count' rest' Hr Hc H0 Hs; cbn [run_of] in Hr.
  - injection Hr as <- <-. rewrite Z.sub_diag. split; [lia|]. split; [done|]. split; [done|]. intros j Hj. lia.
  - destruct (_ && _) eqn:E.
    + rewrite !andb_true_iff in E. destruct E as [[E1%Z.eqb_eq E2%bool_decide_eq_true_1] E3%negb_true_iff%Z.eqb_neq].
      assert (slot mod WRITE_CHUNK_BLOCKS + (count + 1) <= WRITE_CHUNK_BLOCKS) as Hc'.
      { destruct (decide (slot mod WRITE_CHUNK_BLOCKS + count = WRITE_CHUNK_BLOCKS)) as [Heq|]; [|lia]. exfalso. apply E3.
        rewrite <- Z.add_mod_idemp_l by done. rewrite Heq. by apply Z.mod_same. }
      destruct (IH (count + 1) count' rest' Hr Hc' ltac:(lia) Hs) as (I1 & I2 & I3 & I4). split; [lia|]. split; [|split; [done|]].
      * rewrite I2, E1. rewrite (seqZ_cons (bi + count)) by lia. cbn [app]. do 2 f_equal. f_equal; lia.
      * intros j Hj. destruct (decide (j = count)) as [->|]; [done|]. apply I4. lia.
    + injection Hr as <- <-. rewrite Z.sub_diag. split; [lia|]. split; [done|]. split; [done|]. intros j Hj. lia.
Qed.

Lemma run_disk bi slot n : 0 <= bi -> 0 <= slot -> (forall j, 0 <= j < Z.of_nat n -> written_blocks s !! (bi + j) = Some (slot + j)) ->
  slice (store s) (slot * BLOCK_SIZE) (slot * BLOCK_SIZE + Z.of_nat n * BLOCK_SIZE) = slice (disk file s) (bi * BLOCK_SIZE) (bi * BLOCK_SIZE + Z.of_nat n * BLOCK_SIZE).
Proof.
  intros Hb Hs. induction n as [|n IH]; intros Hj; [rewrite !Z.mul_0_l, !Z.add_0_r; unfold slice; by rewrite !Z.sub_diag|].
  rewrite <- (slice_split (store s) _ (slot * BLOCK_SIZE + Z.of_nat n * BLOCK_SIZE)), <- (slice_split (disk file s) _ (bi * BLOCK_SIZE + Z.of_nat n * BLOCK_SIZE)) by (unfold BLOCK_SIZE; lia).
  rewrite IH by (intros j Hjn; apply Hj; lia). f_equal. pose proof (Hj (Z.of_nat n) ltac:(lia)) as En. destruct (wf_slots file s Hw _ _ En) as (_ & Hi0 & Hi1).
  pose proof (disk_block file s (bi + Z.of_nat n) Hw Hi0 Hi1) as Hd. unfold current_block in Hd. rewrite En in Hd.
  replace (bi * BLOCK_SIZE + Z.of_nat n * BLOCK_SIZE) with ((bi + Z.of_nat n) * BLOCK_SIZE) by lia.
  replace (bi * BLOCK_SIZE + Z.of_nat (S n) * BLOCK_SIZE) with ((bi + Z.of_nat n + 1) * BLOCK_SIZE) by lia. rewrite Hd. f_equal; lia.
Qed.

Lemma gap_disk from to : 0 <= from -> from mod BLOCK_SIZE = 0 -> (forall i, is_Some (written_blocks s !! i) -> from <= i * BLOCK_SIZE -> to <= i * BLOCK_SIZE) ->
  slice file from to = slice (disk file s) from to.
Proof.
  intros H0 Ha Hn. symmetry. apply slice_ext; [done|apply length_disk|]. intros p Hp. set (i := Z.of_nat p / BLOCK_SIZE). apply aligned in Ha.
  pose proof (proj1 (block_index (Z.of_nat p) i ltac:(lia)) eq_refl) as Hi. apply (disk_same file s i); [|unfold BLOCK_SIZE in *; lia|done].
  destruct (written_blocks s !! i) as [slot|] eqn:E; [|done]. exfalso. specialize (Hn i ltac:(by eexists)). unfold BLOCK_SIZE in *. lia.
Qed.

(** What follows a run in a sorted list is past it. *)
Lemma past_run bi n (rest : list Z) i : StronglySorted Z.lt (bi :: seqZ (bi + 1) (n - 1) ++ rest) -> 1 <= n -> i ∈ rest -> bi + n <= i.
Proof.
  intros Hso Hn Hi. apply StronglySorted_inv in Hso as [Hso Hb]. destruct (decide (n = 1)) as [->|].
  - rewrite Forall_forall in Hb. specialize (Hb i ltac:(apply elem_of_app; by right)). lia.
  - enough (bi + n - 1 < i) by lia. eapply StronglySorted_app_1_elem_of; [exact Hso| |exact Hi]. apply elem_of_seqZ. lia.
Qed.

(** A run in its chunk is a stretch of the disk. *)
Lemma part_disk bi slot n : written_blocks s !! bi = Some slot -> 1 <= n -> slot mod WRITE_CHUNK_BLOCKS + n <= WRITE_CHUNK_BLOCKS ->
  (forall j, 1 <= j < n -> written_blocks s !! (bi + j) = Some (slot + j)) ->
  slice (default [] (write_chunks s !! chunk_of slot)) (chunk_offset slot) (chunk_offset slot + n * BLOCK_SIZE) = slice (disk file s) (bi * BLOCK_SIZE) (bi * BLOCK_SIZE + n * BLOCK_SIZE).
Proof.
  intros Es Hn Hc Hj. destruct (wf_slots file s Hw bi slot Es) as (Hs & Hb0 & Hb1). destruct (slot_fits file s slot Hw Hs) as [Hsf _].
  rewrite chunk_slice; [|apply (wf_chunks file s Hw)|lia|unfold chunk_offset, BLOCK_SIZE; lia].
  replace n with (Z.of_nat (Z.to_nat n)) by lia. apply run_disk; [done|lia|]. intros j H. destruct (decide (j = 0)) as [->|]; [by rewrite !Z.add_0_r|]. apply Hj. lia.
Qed.

Definition file_spec (cur : Z) (parts : list (list Z)) (e : Z) : Prop :=
  concat parts = slice (disk file s) cur e /\ cur <= e <= Z.of_nat (length file) /\ e mod BLOCK_SIZE = 0
  /\ forall i, is_Some (written_blocks s !! i) -> e <= i * BLOCK_SIZE -> False.

(** The rest of the written blocks: those from [cur] on, in order. *)
Definition remaining (cur : Z) (l : list Z) : Prop :=
  StronglySorted Z.lt l /\ forall i, i ∈ l <-> is_Some (written_blocks s !! i) /\ cur <= i * BLOCK_SIZE.

Lemma file_spec_nil cur : 0 <= cur <= Z.of_nat (length file) -> cur mod BLOCK_SIZE = 0 -> remaining cur [] -> file_spec cur [] cur.
Proof.
  intros Hc Ha [_ Hr]. split; [unfold slice; by rewrite Z.sub_diag|]. split; [lia|]. split; [done|]. intros i Hi Hle.
  by apply (not_elem_of_nil (A := Z) i), Hr.
Qed.

Lemma remaining_run cur bi n rest : remaining cur (bi :: seqZ (bi + 1) (n - 1) ++ rest) -> 1 <= n -> cur <= bi * BLOCK_SIZE -> remaining (bi * BLOCK_SIZE + n * BLOCK_SIZE) rest.
Proof.
  intros [Hso Hr] Hn Hc. split; [apply StronglySorted_inv in Hso as [Hso _]; by apply StronglySorted_app_1_r in Hso|]. intros i. split.
  - intros Hi. pose proof (past_run bi n rest i Hso Hn Hi). split; [|unfold BLOCK_SIZE; lia]. apply Hr. right. apply elem_of_app. by right.
  - intros [Hi Hle]. assert (cur <= i * BLOCK_SIZE) as Hci by (unfold BLOCK_SIZE in *; lia). pose proof (proj2 (Hr i) (conj Hi Hci)) as Hin.
    rewrite elem_of_cons, elem_of_app, elem_of_seqZ in Hin. unfold BLOCK_SIZE in *. destruct Hin as [->|[?|?]]; [lia|lia|done].
Qed.

Lemma file_parts_spec fuel : forall l cur, (length l <= fuel)%nat -> remaining cur l -> 0 <= cur <= Z.of_nat (length file) -> cur mod BLOCK_SIZE = 0 ->
  let '(parts, e) := file_parts fuel file s l cur in file_spec cur parts e.
Proof.
  induction fuel as [|fuel IH]; intros l cur Hl Hr Hc Ha.
  - destruct l; [|cbn in Hl; lia]. by apply file_spec_nil.
  - destruct l as [|bi rest]; [by apply file_spec_nil|].
    cbn [file_parts]. destruct (proj1 (proj2 Hr bi) ltac:(by left)) as [[slot Es] Hbi]. rewrite Es. change (default 0 (Some slot)) with slot.
    destruct (wf_slots file s Hw bi slot Es) as (Hs & Hb0 & Hb1). destruct (run_of s bi slot 1 rest) as [n rest'] eqn:Er.
    pose proof (Z.mod_pos_bound slot WRITE_CHUNK_BLOCKS ltac:(done)) as Hm.
    destruct (run_of_spec bi slot rest 1 n rest' Er ltac:(lia) ltac:(lia) ltac:(lia)) as (N1 & -> & N3 & N4).
    set (start := bi * BLOCK_SIZE) in *. set (e1 := start + n * BLOCK_SIZE).
    assert (e1 <= Z.of_nat (length file)) as He1.
    { destruct (decide (n = 1)) as [->|]; [unfold e1, start, BLOCK_SIZE in *; lia|].
      destruct (wf_slots file s Hw _ _ (N4 (n - 1) ltac:(lia))) as (_ & _ & Hend). unfold e1, start, BLOCK_SIZE in *. lia. }
    specialize (IH rest' e1). destruct (file_parts fuel file s rest' e1) as [parts e]. destruct IH as (P & E & Am & No).
    + cbn in Hl. rewrite length_app in Hl. lia.
    + by apply (remaining_run cur).
    + unfold e1, start, BLOCK_SIZE in *. lia.
    + unfold e1, start. rewrite <- Z.mul_add_distr_r. by apply Z.mod_mul.
    + split; [|split; [unfold e1, start, BLOCK_SIZE in *; lia|done]].
      rewrite concat_app. cbn [concat]. rewrite P, (part_disk bi slot n Es N1 N3 N4). fold start e1.
      rewrite slice_split by (unfold e1, start, BLOCK_SIZE in *; lia). rewrite <- (slice_split _ cur start e) by (unfold e1, start, BLOCK_SIZE in *; lia). f_equal.
      destruct (Z.eqb_spec start cur) as [->|Hne]; cbn [concat]; [unfold slice; by rewrite Z.sub_diag|]. rewrite app_nil_r.
      apply gap_disk; [lia|done|]. intros i Hi Hle. pose proof (proj2 (proj2 Hr i) (conj Hi Hle)) as Hin.
      destruct Hr as [Hso _]. apply StronglySorted_inv in Hso as [_ Hb]. rewrite Forall_forall in Hb. apply elem_of_cons in Hin as [->|Hin]; [done|].
      specialize (Hb i Hin). unfold start, BLOCK_SIZE in *. lia.
Qed.

(** The keys in order, each once. *)
Lemma keys_sorted : remaining 0 (merge_sort Z.le (map_to_list (written_blocks s)).*1).
Proof.
  split.
  - assert (NoDup (merge_sort Z.le (map_to_list (written_blocks s)).*1)) as Hnd by (rewrite merge_sort_Permutation; apply NoDup_fst_map_to_list).
    pose proof (StronglySorted_merge_sort Z.le (map_to_list (written_blocks s)).*1) as Hso. induction Hso as [|x l Hso IH Hx]; [constructor|].
    apply NoDup_cons in Hnd as [Hx' Hnd]. constructor; [by apply IH|]. rewrite Forall_forall in Hx |- *. intros y Hy. specialize (Hx y Hy).
    assert (x <> y) by (by intros ->). lia.
  - intros i. rewrite merge_sort_Permutation, list_elem_of_fmap. split.
    + intros ([k slot] & -> & Hin%elem_of_map_to_list). cbn. split; [by eexists|]. destruct (wf_slots file s Hw _ _ Hin) as (_ & H0 & _). unfold BLOCK_SIZE. lia.
    + intros [[slot Hs] _]. exists (i, slot). split; [done|]. by apply elem_of_map_to_list.
Qed.

Lemma get_as_file_disk : get_as_file file s = disk file s.
Proof.
  unfold get_as_file. set (l := merge_sort _ _). pose proof (file_parts_spec (length l) l 0 ltac:(lia) keys_sorted ltac:(lia) eq_refl) as Hp.
  destruct (file_parts _ _ _ _ _) as [parts e]. destruct Hp as (P & E & Am & No).
  assert (slice file e (Z.of_nat (length file)) = slice (disk file s) e (Z.of_nat (length file))) as Ht
    by (apply gap_disk; [lia|done|]; intros i Hi Hle; by destruct (No i Hi Hle)).
  rewrite concat_app, P. trans (slice (disk file s) 0 e ++ slice (disk file s) e (Z.of_nat (length file))).
  - f_equal. rewrite <- Ht. destruct (Z.eqb_spec e (Z.of_nat (length file))) as [->|]; [unfold slice; by rewrite Z.sub_diag|].
    cbn [concat]. rewrite app_nil_r. unfold slice. rewrite take_ge; [done|]. rewrite length_drop. lia.
  - rewrite slice_split by lia. unfold slice. rewrite drop_0, take_ge; [done|]. rewrite length_disk. lia.
Qed.
End File.

(** C20: The file handed out holds the writes: whatever was written, in whatever order and with reads loading and caching in
    between, the file put together of the runs of written blocks and of the stretches of the original between them is the
    original with the writes made to it; no stretch is lost, repeated or out of place. *)
Theorem get_as_file_correct (file : list Z) (ops : list op) : Forall (op_ok file) ops ->
  get_as_file file (buf (run file ops (mk_host (create (Z.of_nat (length file)) 0) []))) = written file ops.
Proof.
  intros Hops. destruct (disk_create_wf file 0 (or_introl eq_refl)) as [W D].
  destruct (run_consistent file ops (mk_host (create (Z.of_nat (length file)) 0) []) file Hops) as (Hw & Hd & _); [split; [done|]; split; [done|constructor]|].
  rewrite get_as_file_disk by done. exact Hd.
Qed.

Lemma get_as_file_correct_witness : let file := replicate 1024 7 in
  get_as_file file (buf (run file [Write 512 (replicate 256 1); Read 0 512 true; Write 256 (replicate 512 9); Loaded 0] (mk_host (create 1024 0) [])))
  = replicate 256 7 ++ replicate 512 9 ++ replicate 256 7.
Proof.
  intros file. refine (get_as_file_correct file [Write 512 (replicate 256 1); Read 0 512 true; Write 256 (replicate 512 9); Loaded 0] _).
  repeat constructor; vm_compute; discriminate.
Defined.

(** ** Loading a file into memory *)

Lemma load_next_spec fuel file : forall start s, 0 <= start -> Sync.byteLength s = Z.of_nat (length file) -> length (Sync.buffer s) = length file ->
  take (Z.to_nat start) (Sync.buffer s) = take (Z.to_nat start) file -> Z.of_nat (length file) < start + Z.of_nat fuel * Sync.PART_SIZE ->
  Sync.load_next fuel file start s = Sync.create file.
Proof.
  assert (Sync.PART_SIZE = 4194304) as HP by reflexivity. set (P := Sync.PART_SIZE) in *.
  assert (forall start s, Sync.byteLength s = Z.of_nat (length file) -> length (Sync.buffer s) = length file ->
    take (Z.to_nat start) (Sync.buffer s) = take (Z.to_nat start) file -> Z.of_nat (length file) <= start -> s = Sync.create file) as Hend.
  { intros start [b n] Hn Hl Ht Hs. cbn in *. rewrite !take_ge in Ht by lia. by subst. }
  induction fuel as [|fuel IH]; intros start s H0 Hn Hl Ht Hf; cbn [Sync.load_next]; [apply (Hend start); try done; lia|].
  destruct (Z.ltb_spec start (Sync.byteLength s)) as [Hs|Hs]; [|by apply (Hend start); [..|lia]].
  fold P. rewrite Hn in *. set (part := slice file start _). set (n := Z.min P (Z.of_nat (length file) - start)).
  assert (part = take (Z.to_nat n) (drop (Z.to_nat start) file)) as Hpart by (unfold part, slice, n; f_equal; lia).
  assert (Z.of_nat (length part) = n) as Hpl by (rewrite Hpart, length_take, length_drop; unfold n; lia).
  apply IH; [lia|done|cbn; rewrite length_set_bytes; unfold n in *; lia| |lia].
  cbn. unfold set_bytes. rewrite Ht, Hpart, app_assoc, take_take_drop. rewrite take_app. rewrite length_take.
  destruct (decide (n = P)) as [Hp|Hp].
  - rewrite take_take, Nat.min_r by lia. replace (Z.to_nat (start + P)) with (Z.to_nat start + Z.to_nat n)%nat by lia.
    rewrite Nat.min_l by (unfold n in *; lia). rewrite Nat.sub_diag, take_0. apply app_nil_r.
  - rewrite (take_ge (take _ file)) by (rewrite length_take; unfold n in *; lia). rewrite !(take_ge file) by (unfold n in *; lia).
    rewrite drop_ge; [by rewrite take_nil, app_nil_r|]. rewrite length_take, length_drop. unfold n in *. lia.
Qed.

(** A file loaded in parts is in memory as it is, whatever its length. *)
Theorem load_file_correct (file : list Z) : Sync.load_file file = Sync.create file.
Proof.
  assert (Sync.PART_SIZE = 4194304) as HP by reflexivity. unfold Sync.load_file. apply load_next_spec; try done; cbn [Sync.buffer]; [rewrite length_replicate; lia|].
  pose proof (Z.div_mod (Z.of_nat (length file)) Sync.PART_SIZE ltac:(done)) as Hd.
  pose proof (Z.mod_pos_bound (Z.of_nat (length file)) Sync.PART_SIZE ltac:(done)) as Hm.
  pose proof (Z.div_pos (Z.of_nat (length file)) Sync.PART_SIZE ltac:(lia) ltac:(done)) as Hq. rewrite Z2Nat.id by lia. rewrite Z.mul_add_distr_r. lia.
Qed.

(** ** Parts loaded after a write *)

(** A read that waits for one part gives the file's bytes, also of the blocks that have been written: the part is copied before the
    written blocks are put over it. *)
Theorem part_read_is_file file s r block s' r' : total_count r = 1 -> finished r = 0 -> 0 <= start_index r -> 0 < fixed_chunk_size s ->
  (start_index r + 1) * fixed_chunk_size s <= Z.of_nat (length file) -> Z.of_nat (length (blocks r)) = fixed_chunk_size s ->
  start_index r * fixed_chunk_size s <= p_offset r -> p_offset r + p_len r <= (start_index r + 1) * fixed_chunk_size s -> 0 <= p_len r ->
  fixed_chunk_size s' = fixed_chunk_size s -> part_done file 0 r s = (r', s', Some block) -> block = slice file (p_offset r) (p_offset r + p_len r).
Proof.
  intros Ht Hf Hs Hc Hfile Hb Ho Hl Hl0 Hfs. unfold part_done, part_name. rewrite Z.add_0_r, Z.mul_0_l. set (c := fixed_chunk_size s) in *.
  replace ((start_index r + 1) * c) with (start_index r * c + c) in * by lia. assert (0 <= start_index r * c) as Ha by nia. set (a := start_index r * c) in *.
  destruct (handle_read _ _ _ _) as [[bytes|] s2] eqn:Eh; [|by intros [=]]. cbn [total_count finished]. cbn. rewrite Ht, Hf. cbn. intros [= <- -> <-]. unfold part_result. cbn. rewrite Hfs. fold a.
  assert (set_bytes (blocks r) (slice file a (a + c)) 0 = slice file a (a + c)) as ->.
  { unfold set_bytes. rewrite drop_ge; [by rewrite app_nil_r|]. pose proof (length_slice' file a (a + c) ltac:(lia) ltac:(lia)). lia. }
  rewrite <- (slice_of_slice file a (a + c) (p_offset r) (p_offset r + p_len r)) by lia. f_equal. lia.
Qed.
End Buffer.
