(* ===== verification/Floppy.v ===== *)
(** * The floppy disk controller and its drives ([floppy.js])

    An Intel 82078 with two drives: the registers, the three phases of a command (bytes of the
    command, execution, bytes of the result), every command, disks put in and taken out, disk formats.
    Transfers go through channel 2 of the DMA controller ([Dma.v]) between the disk image, a buffer in
    memory ([Buffer.v], the type the source declares), and guest memory ([Dma.PhysMem]).  Such a
    buffer calls back at once, so a transfer is over when the write of the last byte of the command
    is; [completion] says how that write ends. *)

From S2P Require Import Prelude Dma State Buffer.

Import State.

Set Default Goal Selector "!".

Open Scope js_scope.

(** ** Drives *)

Module FloppyDrive.

Definition CMOS_FDD_TYPE_NO_DRIVE : Z := 0.
Definition CMOS_FDD_TYPE_360 : Z := 1.
Definition CMOS_FDD_TYPE_1200 : Z := 2.
Definition CMOS_FDD_TYPE_720 : Z := 3.
Definition CMOS_FDD_TYPE_1440 : Z := 4.
Definition CMOS_FDD_TYPE_2880 : Z := 5.

(** The physical size of the disks of a drive type. *)
Definition CMOS_FDD_TYPE_MEDIUM (drive_type : Z) : option Z :=
  if drive_type =? 0 then Some 0
  else if drive_type =? 1 then Some 525
  else if drive_type =? 2 then Some 525
  else if drive_type =? 3 then Some 350
  else if drive_type =? 4 then Some 350
  else if drive_type =? 5 then Some 350
  else None.

Definition SECTOR_SIZE : Z := 512.

Record format := mk_format { f_drive_type : Z; sectors : Z; tracks : Z; heads : Z }.

Definition DISK_FORMATS : list format := [
  mk_format CMOS_FDD_TYPE_1440 18 80 2;
  mk_format CMOS_FDD_TYPE_1440 20 80 2;
  mk_format CMOS_FDD_TYPE_1440 21 80 2;
  mk_format CMOS_FDD_TYPE_1440 21 82 2;
  mk_format CMOS_FDD_TYPE_1440 21 83 2;
  mk_format CMOS_FDD_TYPE_1440 22 80 2;
  mk_format CMOS_FDD_TYPE_1440 23 80 2;
  mk_format CMOS_FDD_TYPE_1440 24 80 2;
  mk_format CMOS_FDD_TYPE_2880 36 80 2;
  mk_format CMOS_FDD_TYPE_2880 39 80 2;
  mk_format CMOS_FDD_TYPE_2880 40 80 2;
  mk_format CMOS_FDD_TYPE_2880 44 80 2;
  mk_format CMOS_FDD_TYPE_2880 48 80 2;
  mk_format CMOS_FDD_TYPE_1440 8 80 2;
  mk_format CMOS_FDD_TYPE_1440 9 80 2;
  mk_format CMOS_FDD_TYPE_1440 10 80 2;
  mk_format CMOS_FDD_TYPE_1440 10 82 2;
  mk_format CMOS_FDD_TYPE_1440 10 83 2;
  mk_format CMOS_FDD_TYPE_1440 13 80 2;
  mk_format CMOS_FDD_TYPE_1440 14 80 2;
  mk_format CMOS_FDD_TYPE_1200 15 80 2;
  mk_format CMOS_FDD_TYPE_1200 18 80 2;
  mk_format CMOS_FDD_TYPE_1200 18 82 2;
  mk_format CMOS_FDD_TYPE_1200 18 83 2;
  mk_format CMOS_FDD_TYPE_1200 20 80 2;
  mk_format CMOS_FDD_TYPE_1200 9 80 2;
  mk_format CMOS_FDD_TYPE_1200 11 80 2;
  mk_format CMOS_FDD_TYPE_1200 9 40 2;
  mk_format CMOS_FDD_TYPE_1200 9 40 1;
  mk_format CMOS_FDD_TYPE_1200 10 41 2;
  mk_format CMOS_FDD_TYPE_1200 10 42 2;
  mk_format CMOS_FDD_TYPE_1200 8 40 2;
  mk_format CMOS_FDD_TYPE_1200 8 40 1;
  mk_format CMOS_FDD_TYPE_1440 9 80 1;
  mk_format CMOS_FDD_TYPE_360 10 40 1;
  mk_format CMOS_FDD_TYPE_360 10 40 2
].

Definition disk_size (f : format) : Z := sectors f * tracks f * heads f * SECTOR_SIZE.

Record t := mk {
  drive_type : Z;
  max_track : Z; max_head : Z; max_sect : Z;
  curr_track : Z; curr_head : Z; curr_sect : Z;
  perpendicular : Z;
  read_only : bool;
  media_changed : bool;
  buffer : option Buffer.Sync.t
}.

(** [find_disk_format]: the four matches of its loop, [None] for -1; [f_nearest] is the format with its size. *)
Record matches := mk_matches { preferred : option format; medium : option format; same_size : option format; nearest : option (format * Z) }.

Definition first {A} (old : option A) (new : A) : option A := match old with None => Some new | Some x => Some x end.

(** The loop; a preferred match ends it. *)
Fixpoint match_formats (formats : list format) (buffer_size drive_type : Z) (m : matches) : matches :=
  match formats with
  | [] => m
  | f :: formats =>
      let autodetect := drive_type =? CMOS_FDD_TYPE_NO_DRIVE in
      let size := disk_size f in
      if buffer_size =? size then
        if autodetect || (f_drive_type f =? drive_type) then m <| preferred := Some f |>
        else if negb autodetect && bool_decide (CMOS_FDD_TYPE_MEDIUM (f_drive_type f) = CMOS_FDD_TYPE_MEDIUM drive_type) then
          match_formats formats buffer_size drive_type (m <| medium := first (medium m) f |>)
        else match_formats formats buffer_size drive_type (m <| same_size := first (same_size m) f |>)
      else if buffer_size <? size then
        match_formats formats buffer_size drive_type
          (match nearest m with
           | Some (_, nearest_size) => if size <? nearest_size then m <| nearest := Some (f, size) |> else m
           | None => m <| nearest := Some (f, size) |>
           end)
      else match_formats formats buffer_size drive_type m
  end.

Definition find_disk_format (image : Buffer.Sync.t) (drive_type : Z) : option (Buffer.Sync.t * format) :=
  let m := match_formats DISK_FORMATS (Buffer.Sync.byteLength image) drive_type (mk_matches None None None None) in
  match preferred m, medium m, same_size m, nearest m with
  | Some f, _, _, _ => Some (image, f)
  | _, Some f, _, _ => Some (image, f)
  | _, _, Some f, _ => Some (image, f)
  | _, _, _, Some (f, nearest_size) =>
      Some (Buffer.Sync.create (set_bytes (replicate (Z.to_nat nearest_size) 0) (Buffer.Sync.buffer image) 0), f)
  | _, _, _, _ => None
  end.

Definition insert_disk (image : option Buffer.Sync.t) (ro : bool) (d : t) : bool * t :=
  match image with
  | None => (false, d)
  | Some image =>
      match find_disk_format image (drive_type d) with
      | None => (false, d)
      | Some (new_buffer, f) =>
          let d := d <| max_track := tracks f |> <| max_head := heads f |> <| max_sect := sectors f |>
            <| read_only := ro |> <| media_changed := true |> <| buffer := Some new_buffer |> in
          (true, if drive_type d =? CMOS_FDD_TYPE_NO_DRIVE then d <| drive_type := f_drive_type f |> else d)
      end
  end.

(** [cfg_drive_type] and [ro] are the fields of the drive's configuration, if it has them. *)
Definition create (cfg_drive_type : option Z) (ro : bool) (image : option Buffer.Sync.t) (fallback_drive_type : Z) : t :=
  let d := mk CMOS_FDD_TYPE_NO_DRIVE 0 0 0 0 0 1 0 false true None in
  let d := match cfg_drive_type with
    | Some ty => if (0 <=? ty) && (ty <=? 5) then d <| drive_type := ty |> else d
    | None => d end in
  let d := (insert_disk image ro d).2 in
  if (drive_type d =? CMOS_FDD_TYPE_NO_DRIVE) && bool_decide (cfg_drive_type = None)
  then d <| drive_type := fallback_drive_type |> else d.

Definition eject_disk (d : t) : t :=
  d <| max_track := 0 |> <| max_head := 0 |> <| max_sect := 0 |> <| media_changed := true |> <| buffer := None |>.

Definition get_buffer (d : t) : option (list Z) := Buffer.Sync.buffer <$> buffer d.

Definition chs2lba (d : t) (track head sect : Z) : Z := (track * max_head d + head) * max_sect d + sect - 1.

Definition seek (head track sect : Z) (d : t) : Z * t :=
  if (max_track d <? track) || (negb (head =? 0) && (max_head d =? 1)) then (2, d)
  else if max_sect d <? sect then (3, d)
  else
    let curr_lba := chs2lba d (curr_track d) (curr_head d) (curr_sect d) in
    let new_lba := chs2lba d track head sect in
    let '(result, d) :=
      if negb (curr_lba =? new_lba) then
        let '(result, d) :=
          if negb (curr_track d =? track) then
            (1, if bool_decide (is_Some (buffer d)) then d <| media_changed := false |> else d)
          else (0, d) in
        (result, d <| curr_head := head |> <| curr_track := track |> <| curr_sect := sect |>)
      else (0, d) in
    (if bool_decide (is_Some (buffer d)) then result else 2, d).

Record image := mk_image {
  i_drive_type : Z; i_max_track : Z; i_max_head : Z; i_max_sect : Z; i_curr_track : Z; i_curr_head : Z; i_curr_sect : Z;
  i_perpendicular : Z; i_read_only : bool; i_media_changed : bool; i_buffer : option (Z * list Z) }.

Definition get_state (d : t) : image :=
  mk_image (drive_type d) (max_track d) (max_head d) (max_sect d) (curr_track d) (curr_head d) (curr_sect d)
    (perpendicular d) (read_only d) (media_changed d) (Buffer.Sync.get_state <$> buffer d).

Definition set_state (i : image) (d : t) : t :=
  mk (i_drive_type i) (i_max_track i) (i_max_head i) (i_max_sect i) (i_curr_track i) (i_curr_head i) (i_curr_sect i)
    (i_perpendicular i) (i_read_only i) (i_media_changed i)
    (match i_buffer i with
     | Some state => Some (Buffer.Sync.set_state state (default (Buffer.Sync.create []) (buffer d)))
     | None => None
     end).

End FloppyDrive.

(** ** The controller *)

Module Floppy.
Export FloppyDrive (SECTOR_SIZE).

Definition FDC_IRQ_CHANNEL : Z := 6.
Definition FDC_DMA_CHANNEL : Z := 2.

Definition REG_SRA : Z := 0x0.
Definition REG_SRB : Z := 0x1.
Definition REG_DOR : Z := 0x2.
Definition REG_TDR : Z := 0x3.
Definition REG_MSR : Z := 0x4.
Definition REG_DSR : Z := 0x4.
Definition REG_FIFO : Z := 0x5.
Definition REG_DIR : Z := 0x7.
Definition REG_CCR : Z := 0x7.

Definition SRA_INTPEND : Z := 0x80.
Definition SRB_MTR0 : Z := 0x1.
Definition SRB_MTR1 : Z := 0x2.
Definition SRB_DR0 : Z := 0x20.
Definition SRB_RESET : Z := 0xC0.
Definition DOR_SEL_LO : Z := 0x1.
Definition DOR_SEL_HI : Z := 0x2.
Definition DOR_NRESET : Z := 0x4.
Definition DOR_DMAEN : Z := 0x8.
Definition DOR_MOTEN0 : Z := 0x10.
Definition DOR_MOTEN1 : Z := 0x20.
Definition DOR_SELMASK : Z := 0x01.
Definition TDR_BOOTSEL : Z := 0x4.
Definition MSR_CMDBUSY : Z := 0x10.
Definition MSR_NDMA : Z := 0x20.
Definition MSR_DIO : Z := 0x40.
Definition MSR_RQM : Z := 0x80.
Definition DSR_DRATEMASK : Z := 0x3.
Definition DSR_PWRDOWN : Z := 0x40.
Definition DSR_SWRESET : Z := 0x80.
Definition DIR_DOOR : Z := 0x80.
Definition SR0_DS0 : Z := 0x1.
Definition SR0_DS1 : Z := 0x2.
Definition SR0_HEAD : Z := 0x4.
Definition SR0_SEEK : Z := 0x20.
Definition SR0_ABNTERM : Z := 0x40.
Definition SR0_INVCMD : Z := 0x80.
Definition SR0_RDYCHG : Z := SR0_ABNTERM .| SR0_INVCMD.
Definition SR1_MA : Z := 0x1.
Definition SR1_NW : Z := 0x2.
Definition SR1_EC : Z := 0x80.

Definition CMD_READ_TRACK : Z := 0x2.
Definition CMD_SPECIFY : Z := 0x3.
Definition CMD_SENSE_DRIVE_STATUS : Z := 0x4.
Definition CMD_WRITE : Z := 0x5.
Definition CMD_READ : Z := 0x6.
Definition CMD_RECALIBRATE : Z := 0x7.
Definition CMD_SENSE_INTERRUPT_STATUS : Z := 0x8.
Definition CMD_WRITE_DELETED_DATA : Z := 0x9.
Definition CMD_READ_ID : Z := 0xa.
Definition CMD_READ_DELETED_DATA : Z := 0xc.
Definition CMD_FORMAT_TRACK : Z := 0xd.
Definition CMD_DUMP_REGS : Z := 0xe.
Definition CMD_SEEK : Z := 0xf.
Definition CMD_VERSION : Z := 0x10.
Definition CMD_SCAN_EQUAL : Z := 0x11.
Definition CMD_PERPENDICULAR_MODE : Z := 0x12.
Definition CMD_CONFIGURE : Z := 0x13.
Definition CMD_LOCK : Z := 0x14.
Definition CMD_VERIFY : Z := 0x16.
Definition CMD_POWERDOWN_MODE : Z := 0x17.
Definition CMD_PART_ID : Z := 0x18.
Definition CMD_SCAN_LOW_OR_EQUAL : Z := 0x19.
Definition CMD_SCAN_HIGH_OR_EQUAL : Z := 0x1d.
Definition CMD_SAVE : Z := 0x2e.
Definition CMD_OPTION : Z := 0x33.
Definition CMD_RESTORE : Z := 0x4e.
Definition CMD_DRIVE_SPECIFICATION : Z := 0x8e.
Definition CMD_RELATIVE_SEEK_OUT : Z := 0x8f.
Definition CMD_FORMAT_AND_WRITE : Z := 0xcd.
Definition CMD_RELATIVE_SEEK_IN : Z := 0xcf.

Definition CMD_FLAG_MULTI_TRACK : Z := 0x1.
Definition CONFIG_EFIFO : Z := 0x20.
Definition CONFIG_EIS : Z := 0x40.
Definition RESET_SENSE_INT_MAX : Z := 4.
Definition SECTOR_SIZE_CODE : Z := 2.

Inductive phase := CMD_PHASE_COMMAND | CMD_PHASE_EXECUTION | CMD_PHASE_RESULT.
#[export] Instance phase_eq_dec : EqDecision phase.
Proof. solve_decision. Defined.

(** *** The table of commands *)

Inductive handler :=
| H_read | H_write | H_seek | H_sense_interrupt_status | H_recalibrate | H_format_track | H_read_id
| H_specify | H_sense_drive_status | H_perpendicular_mode | H_configure | H_lock | H_dump_regs
| H_version | H_part_id | H_unimplemented.

Record cmd_desc := mk_desc { code : Z; mask : Z; argc : Z; cmd_handler : handler }.

Definition CMD_DESCRIPTOR : list cmd_desc := [
  mk_desc CMD_READ 0x1f 8 H_read;
  mk_desc CMD_WRITE 0x3f 8 H_write;
  mk_desc CMD_SEEK 0xff 2 H_seek;
  mk_desc CMD_SENSE_INTERRUPT_STATUS 0xff 0 H_sense_interrupt_status;
  mk_desc CMD_RECALIBRATE 0xff 1 H_recalibrate;
  mk_desc CMD_FORMAT_TRACK 0xbf 5 H_format_track;
  mk_desc CMD_READ_TRACK 0xbf 8 H_unimplemented;
  mk_desc CMD_RESTORE 0xff 17 H_unimplemented;
  mk_desc CMD_SAVE 0xff 0 H_unimplemented;
  mk_desc CMD_READ_DELETED_DATA 0x1f 8 H_unimplemented;
  mk_desc CMD_SCAN_EQUAL 0x1f 8 H_unimplemented;
  mk_desc CMD_VERIFY 0x1f 8 H_unimplemented;
  mk_desc CMD_SCAN_LOW_OR_EQUAL 0x1f 8 H_unimplemented;
  mk_desc CMD_SCAN_HIGH_OR_EQUAL 0x1f 8 H_unimplemented;
  mk_desc CMD_WRITE_DELETED_DATA 0x3f 8 H_unimplemented;
  mk_desc CMD_READ_ID 0xbf 1 H_read_id;
  mk_desc CMD_SPECIFY 0xff 2 H_specify;
  mk_desc CMD_SENSE_DRIVE_STATUS 0xff 1 H_sense_drive_status;
  mk_desc CMD_PERPENDICULAR_MODE 0xff 1 H_perpendicular_mode;
  mk_desc CMD_CONFIGURE 0xff 3 H_configure;
  mk_desc CMD_POWERDOWN_MODE 0xff 2 H_unimplemented;
  mk_desc CMD_OPTION 0xff 1 H_unimplemented;
  mk_desc CMD_DRIVE_SPECIFICATION 0xff 5 H_unimplemented;
  mk_desc CMD_RELATIVE_SEEK_OUT 0xff 2 H_unimplemented;
  mk_desc CMD_FORMAT_AND_WRITE 0xff 10 H_unimplemented;
  mk_desc CMD_RELATIVE_SEEK_IN 0xff 2 H_unimplemented;
  mk_desc CMD_LOCK 0x7f 0 H_lock;
  mk_desc CMD_DUMP_REGS 0xff 0 H_dump_regs;
  mk_desc CMD_VERSION 0xff 0 H_version;
  mk_desc CMD_PART_ID 0xff 0 H_part_id;
  mk_desc 0 0x00 0 H_unimplemented
].

(** One descriptor goes into the table: at its code, or at every byte its mask lets through. *)
Definition enter_desc (table : list (option cmd_desc)) (d : cmd_desc) : list (option cmd_desc) :=
  if mask d =? 0xff then <[Z.to_nat (code d) := Some d]> table
  else imap (fun j old => if Z.of_nat j .& mask d =? code d then Some d else old) table.

(** From the last to the first. *)
Definition build_cmd_lookup_table : list (option cmd_desc) := fold_left enter_desc (rev CMD_DESCRIPTOR) (replicate 256 None).

Definition cmd_table (b : Z) : cmd_desc := default (mk_desc 0 0 0 H_unimplemented) (mjoin (build_cmd_lookup_table !! Z.to_nat b)).

(** *** State *)

Record t := mk {
  sra : Z; srb : Z; dor : Z; tdr : Z; msr : Z; dsr : Z;
  cmd_phase : phase; cmd_code : Z; cmd_flags : Z; cmd_buffer : list Z; cmd_cursor : Z; cmd_remaining : Z;
  response_data : list Z; response_cursor : Z; response_length : Z; status0 : Z; status1 : Z;
  curr_drive_no : Z; reset_sense_int_count : Z; locked : bool; step_rate_interval : Z; head_load_time : Z;
  fdc_config : Z; precomp_trk : Z; eot : Z;
  drives : list FloppyDrive.t
}.

Definition no_drive : FloppyDrive.t := FloppyDrive.create (Some 0) false None 0.
Definition drive (i : Z) (s : t) : FloppyDrive.t := default no_drive (drives s !! Z.to_nat i).
Definition curr_drive (s : t) : FloppyDrive.t := drive (curr_drive_no s) s.
Definition on_drive (i : Z) (f : FloppyDrive.t -> FloppyDrive.t) (s : t) : t := s <| drives := alter f (Z.to_nat i) (drives s) |>.
Definition on_curr_drive (f : FloppyDrive.t -> FloppyDrive.t) (s : t) : t := on_drive (curr_drive_no s) f s.

(** The constructor, with the two drives; it tells the clock's memory the drive types. *)
Definition create (fda fdb : FloppyDrive.t) : t :=
  mk 0 SRB_RESET (DOR_NRESET .| DOR_DMAEN) 0 MSR_RQM 0
     CMD_PHASE_COMMAND 0 0 (replicate 17 0) 0 0
     (replicate 15 0) 0 0 0 0
     0 0 false 0 0 (CONFIG_EIS .| CONFIG_EFIFO) 0 0 [fda; fdb].
Definition CMOS_FLOPPY_DRIVE_TYPE : Z := 0x10.
Definition power_on : M t unit :=
  s <-- get ;;
  emit (CmosWrite CMOS_FLOPPY_DRIVE_TYPE ((FloppyDrive.drive_type (drive 0 s) .<< 4) .| FloppyDrive.drive_type (drive 1 s))).

(** *** Interrupts and phases *)

Definition raise_irq : M t unit :=
  s <-- get ;;
  when (negb (has (sra s) SRA_INTPEND))
    (emit (DeviceRaiseIrq FDC_IRQ_CHANNEL) ;;; modify (fun s => s <| sra := sra s .| SRA_INTPEND |>)) ;;;
  modify (fun s => s <| reset_sense_int_count := 0 |>).

Definition lower_irq : M t unit :=
  modify (fun s => s <| status0 := 0 |>) ;;;
  s <-- get ;;
  when (has (sra s) SRA_INTPEND)
    (emit (DeviceLowerIrq FDC_IRQ_CHANNEL) ;;; modify (fun s => s <| sra := sra s .& ~. SRA_INTPEND |>)).

Definition set_curr_drive_no (n : Z) : M t unit := modify (fun s => s <| curr_drive_no := n .& 1 |>).

Definition enter_command_phase : M t unit :=
  modify (fun s => s <| cmd_phase := CMD_PHASE_COMMAND |> <| cmd_cursor := 0 |> <| cmd_remaining := 0 |>
    <| msr := (msr s .& ~. (MSR_CMDBUSY .| MSR_DIO)) .| MSR_RQM |>).

Definition enter_result_phase (fifo_len : Z) : M t unit :=
  modify (fun s => s <| cmd_phase := CMD_PHASE_RESULT |> <| response_cursor := 0 |> <| response_length := fifo_len |>
    <| msr := msr s .| (MSR_CMDBUSY .| MSR_RQM .| MSR_DIO) |>).

Definition seek_drive (i head track sect : Z) : M t Z :=
  s <-- get ;;
  modify (on_drive i (fun d => (FloppyDrive.seek head track sect d).2)) ;;;
  ret (FloppyDrive.seek head track sect (drive i s)).1.
Definition seek_curr (head track sect : Z) : M t Z := s <-- get ;; seek_drive (curr_drive_no s) head track sect.

Definition reset_fdc : M t unit :=
  lower_irq ;;;
  modify (fun s => s <| sra := 0 |> <| srb := SRB_RESET |> <| dor := DOR_NRESET .| DOR_DMAEN |> <| msr := MSR_RQM |>
    <| curr_drive_no := 0 |> <| status0 := status0 s .| SR0_RDYCHG |> <| response_cursor := 0 |> <| response_length := 0 |>) ;;;
  seek_drive 0 0 0 1 ;;;
  seek_drive 1 0 0 1 ;;;
  enter_command_phase ;;;
  raise_irq ;;;
  modify (fun s => s <| reset_sense_int_count := RESET_SENSE_INT_MAX |>).

(** *** Reads of registers *)

Definition read_reg_sra : M t Z := s <-- get ;; ret (sra s).
Definition read_reg_srb : M t Z := s <-- get ;; ret (srb s).
Definition read_reg_dor : M t Z := s <-- get ;; ret ((dor s .& ~. (DOR_SEL_LO .| DOR_SEL_HI)) .| curr_drive_no s).
Definition read_reg_tdr : M t Z := s <-- get ;; ret (tdr s).
Definition read_reg_msr : M t Z :=
  modify (fun s => s <| dsr := dsr s .& ~. DSR_PWRDOWN |> <| dor := dor s .| DOR_NRESET |>) ;;;
  s <-- get ;; ret (msr s).

Definition read_reg_fifo : M t Z :=
  modify (fun s => s <| dsr := dsr s .& ~. DSR_PWRDOWN |>) ;;;
  s <-- get ;;
  if negb (has (msr s) MSR_RQM) || negb (has (msr s) MSR_DIO) then ret 0
  else if negb (bool_decide (cmd_phase s = CMD_PHASE_RESULT)) then ret 0
  else if response_cursor s <? response_length s then
    let fifo_byte := arr_get (response_data s) (response_cursor s) in
    modify (fun s => s <| response_cursor := response_cursor s + 1 |>) ;;;
    s <-- get ;;
    when (response_cursor s =? response_length s)
      (modify (fun s => s <| msr := msr s .& ~. MSR_RQM |>) ;;;
       enter_command_phase ;;;
       lower_irq) ;;;
    ret fifo_byte
  else ret 0.

Definition read_reg_dir : M t Z :=
  s <-- get ;; ret (if FloppyDrive.media_changed (curr_drive s) then DIR_DOOR else 0).

(** *** Writes of registers *)

Definition write_reg_dor (dor_byte : Z) : M t unit :=
  modify (fun s => s <| srb := (srb s .& ~. (SRB_MTR0 .| SRB_MTR1 .| SRB_DR0))
    .| (if has dor_byte DOR_MOTEN0 then SRB_MTR0 else 0)
    .| (if has dor_byte DOR_MOTEN1 then SRB_MTR1 else 0)
    .| (if has dor_byte DOR_SEL_LO then SRB_DR0 else 0) |>) ;;;
  s <-- get ;;
  when (negb (has (dor s) DOR_NRESET) && has dor_byte DOR_NRESET)
    (reset_fdc ;;; modify (fun s => s <| dsr := dsr s .& ~. DSR_PWRDOWN |>)) ;;;
  let new_drive_no := dor_byte .& (DOR_SEL_LO .| DOR_SEL_HI) in
  modify (fun s => s <| curr_drive_no := new_drive_no .& DOR_SEL_LO |> <| dor := dor_byte |>).

Definition write_reg_tdr (tdr_byte : Z) : M t unit :=
  s <-- get ;;
  when (has (dor s) DOR_NRESET) (modify (fun s => s <| tdr := tdr_byte .& TDR_BOOTSEL |>)).

Definition write_reg_dsr (dsr_byte : Z) : M t unit :=
  s <-- get ;;
  when (has (dor s) DOR_NRESET)
    (when (has dsr_byte DSR_SWRESET)
       (modify (fun s => s <| dor := dor s .& ~. DOR_NRESET |>) ;;; reset_fdc ;;; modify (fun s => s <| dor := dor s .| DOR_NRESET |>)) ;;;
     when (has dsr_byte DSR_PWRDOWN) reset_fdc ;;;
     modify (fun s => s <| dsr := dsr_byte |>)).

Definition write_reg_ccr (ccr_byte : Z) : M t unit :=
  s <-- get ;;
  when (has (dor s) DOR_NRESET)
    (modify (fun s => s <| dsr := (dsr s .& ~. DSR_DRATEMASK) .| (ccr_byte .& DSR_DRATEMASK) |>)).

(** *** Commands *)

Definition respond (i v : Z) : M t unit := modify (fun s => s <| response_data := arr_set (response_data s) i (u8 v) |>).

Definition end_read_write (st0 st1 st2 : Z) : M t unit :=
  modify (fun s => s <| status0 := (status0 s .& ~. (SR0_DS0 .| SR0_DS1 .| SR0_HEAD)) .| curr_drive_no s |>) ;;;
  s <-- get ;;
  when (negb (FloppyDrive.curr_head (curr_drive s) =? 0)) (modify (fun s => s <| status0 := status0 s .| SR0_HEAD |>)) ;;;
  modify (fun s => s <| status0 := status0 s .| st0 |> <| msr := (msr s .| (MSR_RQM .| MSR_DIO)) .& ~. MSR_NDMA |>) ;;;
  s <-- get ;;
  respond 0 (status0 s) ;;; respond 1 st1 ;;; respond 2 st2 ;;;
  respond 3 (FloppyDrive.curr_track (curr_drive s)) ;;; respond 4 (FloppyDrive.curr_head (curr_drive s)) ;;;
  respond 5 (FloppyDrive.curr_sect (curr_drive s)) ;;; respond 6 SECTOR_SIZE_CODE ;;;
  enter_result_phase 7 ;;;
  raise_irq.

Definition seek_next_sect : M t Z :=
  s <-- get ;;
  let d := curr_drive s in
  let new_track := FloppyDrive.curr_track d in
  let new_head := FloppyDrive.curr_head d in
  let new_sect := FloppyDrive.curr_sect d in
  let '(new_track, new_head, new_sect, seeks, ret_) :=
    if (FloppyDrive.max_sect d <=? new_sect) || (new_sect =? eot s) then
      if has (cmd_flags s) CMD_FLAG_MULTI_TRACK then
        if (new_head =? 0) && (FloppyDrive.max_head d =? 2) then (new_track, 1, 1, false, 1)
        else (new_track + 1, 0, 1, true, if FloppyDrive.max_head d =? 1 then 0 else 1)
      else (new_track + 1, new_head, 1, true, 0)
    else (new_track, new_head, new_sect + 1, false, 1) in
  when seeks (modify (fun s => s <| status0 := status0 s .| SR0_SEEK |>)) ;;;
  seek_curr new_head new_track new_sect ;;;
  ret ret_.

Definition exec_unimplemented (args : list Z) : M t unit :=
  modify (fun s => s <| status0 := SR0_INVCMD |>) ;;;
  respond 0 SR0_INVCMD ;;;
  enter_result_phase 1.

Definition exec_seek (args : list Z) : M t unit :=
  set_curr_drive_no (arr_get args 0 .& DOR_SELMASK) ;;;
  enter_command_phase ;;;
  s <-- get ;;
  seek_curr (FloppyDrive.curr_head (curr_drive s)) (arr_get args 1) (FloppyDrive.curr_sect (curr_drive s)) ;;;
  modify (fun s => s <| status0 := status0 s .| SR0_SEEK |>) ;;;
  raise_irq.

Definition exec_sense_interrupt_status (args : list Z) : M t unit :=
  s <-- get ;;
  let answer st0 :=
    respond 0 st0 ;;;
    respond 1 (FloppyDrive.curr_track (curr_drive s)) ;;;
    enter_result_phase 2 ;;;
    lower_irq ;;;
    modify (fun s => s <| status0 := SR0_RDYCHG |>) in
  if 0 <? reset_sense_int_count s then
    modify (fun s => s <| reset_sense_int_count := reset_sense_int_count s - 1 |>) ;;;
    answer (SR0_RDYCHG .| (RESET_SENSE_INT_MAX - reset_sense_int_count s))
  else if has (sra s) SRA_INTPEND then
    answer ((status0 s .& ~. (SR0_HEAD .| SR0_DS1 .| SR0_DS0)) .| curr_drive_no s)
  else
    respond 0 SR0_INVCMD ;;;
    enter_result_phase 1.

Definition exec_recalibrate (args : list Z) : M t unit :=
  set_curr_drive_no (arr_get args 0 .& DOR_SELMASK) ;;;
  seek_curr 0 0 1 ;;;
  enter_command_phase ;;;
  modify (fun s => s <| status0 := status0 s .| SR0_SEEK |>) ;;;
  raise_irq.

Definition exec_format_track (args : list Z) : M t unit :=
  set_curr_drive_no (arr_get args 0 .& DOR_SELMASK) ;;;
  s <-- get ;;
  if FloppyDrive.read_only (curr_drive s) then end_read_write (SR0_ABNTERM .| SR0_SEEK) SR1_NW 0
  else end_read_write 0 0 0.

Definition exec_read_id (args : list Z) : M t unit :=
  modify (on_curr_drive (fun d => d <| FloppyDrive.curr_head := (arr_get args 0 .>> 2) .& 1 |>)) ;;;
  modify (on_curr_drive (fun d =>
    if negb (FloppyDrive.max_sect d =? 0)
    then d <| FloppyDrive.curr_sect := FloppyDrive.curr_sect d mod FloppyDrive.max_sect d + 1 |> else d)) ;;;
  end_read_write 0 0 0.

Definition exec_specify (args : list Z) : M t unit :=
  let hut_srt := arr_get args 0 in
  let nd_hlt := arr_get args 1 in
  modify (fun s => s <| step_rate_interval := hut_srt .>> 4 |> <| head_load_time := nd_hlt .>> 1 |>) ;;;
  modify (fun s => if has nd_hlt 0x1 then s <| dor := dor s .& ~. DOR_DMAEN |> else s <| dor := dor s .| DOR_DMAEN |>) ;;;
  enter_command_phase.

Definition exec_sense_drive_status (args : list Z) : M t unit :=
  let drv_sel := arr_get args 0 in
  set_curr_drive_no (drv_sel .& DOR_SELMASK) ;;;
  modify (on_curr_drive (fun d => d <| FloppyDrive.curr_head := (drv_sel .>> 2) .& 1 |>)) ;;;
  s <-- get ;;
  let d := curr_drive s in
  respond 0 ((if FloppyDrive.read_only d then 0x40 else 0)
    .| (if FloppyDrive.curr_track d =? 0 then 0x10 else 0)
    .| (FloppyDrive.curr_head d .<< 2)
    .| curr_drive_no s
    .| 0x28) ;;;
  enter_result_phase 1.

Definition exec_perpendicular_mode (args : list Z) : M t unit :=
  let perp_mode := arr_get args 0 in
  when (has perp_mode 0x80) (modify (on_curr_drive (fun d => d <| FloppyDrive.perpendicular := perp_mode .& 0x7 |>))) ;;;
  enter_command_phase.

Definition exec_configure (args : list Z) : M t unit :=
  modify (fun s => s <| fdc_config := arr_get args 1 |> <| precomp_trk := arr_get args 2 |>) ;;;
  enter_command_phase.

Definition exec_lock (args : list Z) : M t unit :=
  s <-- get ;;
  (if has (cmd_code s) 0x80 then modify (fun s => s <| locked := true |>) ;;; respond 0 0x10
   else modify (fun s => s <| locked := false |>) ;;; respond 0 0) ;;;
  enter_result_phase 1.

Definition exec_dump_regs (args : list Z) : M t unit :=
  s <-- get ;;
  respond 0 (FloppyDrive.curr_track (drive 0 s)) ;;;
  respond 1 (FloppyDrive.curr_track (drive 1 s)) ;;;
  respond 2 0 ;;;
  respond 3 0 ;;;
  respond 4 (step_rate_interval s) ;;;
  respond 5 ((head_load_time s .<< 1) .| (if has (dor s) DOR_DMAEN then 1 else 0)) ;;;
  respond 6 (FloppyDrive.max_sect (curr_drive s)) ;;;
  respond 7 ((if locked s then 0x80 else 0) .| (FloppyDrive.perpendicular (curr_drive s) .<< 2)) ;;;
  respond 8 (fdc_config s) ;;;
  respond 9 (precomp_trk s) ;;;
  enter_result_phase 10.

Definition exec_version (args : list Z) : M t unit := respond 0 0x90 ;;; enter_result_phase 1.
Definition exec_part_id (args : list Z) : M t unit := respond 0 0x41 ;;; enter_result_phase 1.

(** *** Transfers *)

(** How a write to a port ends: it returns, an exception leaves it, or it goes on for ever (see [Dma.do_write_spins]). *)
Inductive completion := Returned | Threw | Hung.

(** The callback of a transfer. *)
Definition transfer_done (dma_error : bool) : M t unit :=
  if dma_error then end_read_write SR0_ABNTERM 0 0
  else seek_next_sect ;;; end_read_write 0 0 0.

Section Transfers.
Context {W : Type} `{Dma.PhysMem W}.

Record sys := mk_sys { fdc : t; dma : Dma.t; mem : W }.

Definition on_fdc {A} (m : M t A) : M sys A := fun s => let r := m (fdc s) in (r.1.1, s <| fdc := r.1.2 |>, r.2).
Definition on_dma {A} (m : M Dma.t A) : M sys A := fun s => let r := m (dma s) in (r.1.1, s <| dma := r.1.2 |>, r.2).

(** A view of a buffer that would begin before it raises an exception. *)
Definition dma_read (image : Buffer.Sync.t) (data_offset data_length : Z) : M sys completion :=
  s <-- get ;;
  p <-- on_dma (Dma.do_read (mem s) (Buffer.Sync.byteLength image) data_offset data_length FDC_DMA_CHANNEL) ;;
  match p with
  | None => on_fdc (transfer_done true) ;;; ret Returned
  | Some p =>
      if Dma.pr_start p <? 0 then ret Threw
      else
        let data := Buffer.Sync.get image (Dma.pr_start p) (Dma.pr_count p) in
        s <-- get ;;
        let '(o, w) := Dma.complete_read p data (dma s) (mem s) in
        modify (fun s => s <| mem := w |>) ;;;
        match o with
        | Dma.Called error => on_fdc (transfer_done error) ;;; ret Returned
        | Dma.Dropped => ret Returned
        end
  end.

Definition write_image (chunks : list (Z * list Z)) (image : Buffer.Sync.t) : Buffer.Sync.t :=
  fold_left (fun image chunk => Buffer.Sync.set chunk.1 chunk.2 image) chunks image.

Definition dma_write (image : Buffer.Sync.t) (data_offset data_length : Z) : M sys completion :=
  s <-- get ;;
  let start := Dma.do_write (mem s) (Buffer.Sync.byteLength image) data_offset data_length FDC_DMA_CHANNEL in
  match res start (dma s) with
  | inl _ => on_dma start ;;; on_fdc (transfer_done true) ;;; ret Returned
  | inr _ =>
      if data_offset <? 0 then on_dma start ;;; ret Threw
      else
        match Dma.run_write (Z.to_nat data_length + 2) (mem s) (Buffer.Sync.byteLength image) data_offset data_length FDC_DMA_CHANNEL (dma s) with
        | None => ret Hung
        | Some (chunks, o, d) =>
            modify (fun s => s <| dma := d |> <| fdc := on_curr_drive (fun dr => dr <| FloppyDrive.buffer := Some (write_image chunks image) |>) (fdc s) |>) ;;;
            match o with
            | Dma.Called error => on_fdc (transfer_done error) ;;; ret Returned
            | Dma.Dropped => ret Returned
            end
        end
  end.

(** The command ends without a transfer; the result holds the address asked for. *)
Definition reject (st0 st1 track head sect : Z) : M sys completion :=
  on_fdc (end_read_write st0 st1 0 ;;; respond 3 track ;;; respond 4 head ;;; respond 5 sect) ;;;
  ret Returned.

Definition start_read_write (args : list Z) (do_write : bool) : M sys completion :=
  on_fdc (set_curr_drive_no (arr_get args 0 .& DOR_SELMASK)) ;;;
  let track := arr_get args 1 in
  let head := arr_get args 2 in
  let sect := arr_get args 3 in
  let ssc := arr_get args 4 in
  let eot_ := arr_get args 5 in
  let dtl := if arr_get args 7 <? 128 then arr_get args 7 else 128 in
  found <-- on_fdc (seek_curr head track sect) ;;
  if found =? 2 then reject SR0_ABNTERM 0 track head sect
  else if found =? 3 then reject SR0_ABNTERM SR1_EC track head sect
  else
    on_fdc (when (found =? 1) (modify (fun s => s <| status0 := status0 s .| SR0_SEEK |>))) ;;;
    s <-- get ;;
    let d := curr_drive (fdc s) in
    let sect_size := 128 .<< (if 7 <? ssc then 7 else ssc) in
    let sect_start := FloppyDrive.chs2lba d track head sect in
    let data_offset := sect_start * sect_size in
    let data_length :=
      if sect_size =? 128 then dtl
      else if has (cmd_flags (fdc s)) CMD_FLAG_MULTI_TRACK then (2 * eot_ - sect + 1) * sect_size
      else (eot_ - sect + 1) * sect_size in
    if negb (sect_size =? 128) && (data_length <=? 0) then reject SR0_ABNTERM SR1_MA track head sect
    else
      on_fdc (modify (fun s => s <| eot := eot_ |>)) ;;;
      if do_write && FloppyDrive.read_only d then reject (SR0_ABNTERM .| SR0_SEEK) SR1_NW track head sect
      else if has (dor (fdc s)) DOR_DMAEN then
        on_fdc (modify (fun s => s <| msr := msr s .& ~. MSR_RQM |>)) ;;;
        match FloppyDrive.buffer d with
        | Some image => if do_write then dma_write image data_offset data_length else dma_read image data_offset data_length
        | None => ret Threw
        end
      else ret Returned.

(** *** The bytes of a command *)

Definition call_handler (h : handler) (args : list Z) : M sys completion :=
  let simple m := on_fdc m ;;; ret Returned in
  match h with
  | H_read => start_read_write args false
  | H_write => start_read_write args true
  | H_seek => simple (exec_seek args)
  | H_sense_interrupt_status => simple (exec_sense_interrupt_status args)
  | H_recalibrate => simple (exec_recalibrate args)
  | H_format_track => simple (exec_format_track args)
  | H_read_id => simple (exec_read_id args)
  | H_specify => simple (exec_specify args)
  | H_sense_drive_status => simple (exec_sense_drive_status args)
  | H_perpendicular_mode => simple (exec_perpendicular_mode args)
  | H_configure => simple (exec_configure args)
  | H_lock => simple (exec_lock args)
  | H_dump_regs => simple (exec_dump_regs args)
  | H_version => simple (exec_version args)
  | H_part_id => simple (exec_part_id args)
  | H_unimplemented => simple (exec_unimplemented args)
  end.

(** The first byte of a command. *)
Definition start_command (fifo_byte : Z) : M t unit :=
  let desc := cmd_table fifo_byte in
  modify (fun s => s <| cmd_code := fifo_byte |> <| cmd_remaining := argc desc |> <| cmd_cursor := 0 |> <| cmd_flags := 0 |>) ;;;
  s <-- get ;;
  when (((code desc =? CMD_READ) || (code desc =? CMD_WRITE)) && has (cmd_code s) 0x80)
    (modify (fun s => s <| cmd_flags := cmd_flags s .| CMD_FLAG_MULTI_TRACK |>)) ;;;
  when (negb (cmd_remaining s =? 0)) (modify (fun s => s <| msr := msr s .| MSR_RQM |>)) ;;;
  modify (fun s => s <| msr := msr s .| MSR_CMDBUSY |>).

(** Another one. *)
Definition argument (fifo_byte : Z) : M t unit :=
  modify (fun s => s <| cmd_buffer := arr_set (cmd_buffer s) (cmd_cursor s) (u8 fifo_byte) |> <| cmd_cursor := cmd_cursor s + 1 |>
    <| cmd_remaining := cmd_remaining s - 1 |>).

Definition write_reg_fifo (fifo_byte : Z) : M sys completion :=
  on_fdc (modify (fun s => s <| dsr := dsr s .& ~. DSR_PWRDOWN |>)) ;;;
  s <-- get ;;
  if negb (has (dor (fdc s)) DOR_NRESET) then ret Returned
  else if negb (has (msr (fdc s)) MSR_RQM) || has (msr (fdc s)) MSR_DIO then ret Returned
  else if negb (bool_decide (cmd_phase (fdc s) = CMD_PHASE_COMMAND)) then ret Returned
  else
    on_fdc (if cmd_remaining (fdc s) =? 0 then start_command fifo_byte else argument fifo_byte) ;;;
    s <-- get ;;
    if cmd_remaining (fdc s) =? 0 then
      on_fdc (modify (fun s => s <| cmd_phase := CMD_PHASE_EXECUTION |>)) ;;;
      call_handler (cmd_handler (cmd_table (cmd_code (fdc s)))) (take (Z.to_nat (cmd_cursor (fdc s))) (cmd_buffer (fdc s)))
    else ret Returned.

(** *** The ports *)

Definition fdc_io_base : Z := 0x3F0.

Definition port_read (port : Z) : M sys Z :=
  if port =? fdc_io_base .| REG_SRA then on_fdc read_reg_sra
  else if port =? fdc_io_base .| REG_SRB then on_fdc read_reg_srb
  else if port =? fdc_io_base .| REG_DOR then on_fdc read_reg_dor
  else if port =? fdc_io_base .| REG_TDR then on_fdc read_reg_tdr
  else if port =? fdc_io_base .| REG_MSR then on_fdc read_reg_msr
  else if port =? fdc_io_base .| REG_FIFO then on_fdc read_reg_fifo
  else if port =? fdc_io_base .| REG_DIR then on_fdc read_reg_dir
  else ret 0xFF.

Definition port_write (port data : Z) : M sys completion :=
  let simple m := on_fdc m ;;; ret Returned in
  if port =? fdc_io_base .| REG_DOR then simple (write_reg_dor data)
  else if port =? fdc_io_base .| REG_TDR then simple (write_reg_tdr data)
  else if port =? fdc_io_base .| REG_DSR then simple (write_reg_dsr data)
  else if port =? fdc_io_base .| REG_FIFO then write_reg_fifo data
  else if port =? fdc_io_base .| REG_CCR then simple (write_reg_ccr data)
  else ret Returned.

End Transfers.
Arguments sys : clear implicits.

(** *** Snapshots: entries 19 to 45 of the state *)

Inductive item := INum (z : Z) | IArray (l : list Z) | IBool (b : bool) | IPhase (p : phase) | IDrive (i : FloppyDrive.image).

Definition get_state (s : t) : list item :=
  [INum (sra s); INum (srb s); INum (dor s); INum (tdr s); INum (msr s); INum (dsr s);
   IPhase (cmd_phase s); INum (cmd_code s); INum (cmd_flags s); IArray (cmd_buffer s); INum (cmd_cursor s); INum (cmd_remaining s);
   IArray (response_data s); INum (response_cursor s); INum (response_length s); INum (status0 s); INum (status1 s);
   INum (curr_drive_no s); INum (reset_sense_int_count s); IBool (locked s); INum (step_rate_interval s); INum (head_load_time s);
   INum (fdc_config s); INum (precomp_trk s); INum (eot s);
   IDrive (FloppyDrive.get_state (drive 0 s)); IDrive (FloppyDrive.get_state (drive 1 s))].

(** A state without these entries, from an earlier version, is ignored. *)
Definition set_state (state : list item) (s : t) : t :=
  match state with
  | [INum a19; INum a20; INum a21; INum a22; INum a23; INum a24; IPhase a25; INum a26; INum a27; IArray a28; INum a29; INum a30;
     IArray a31; INum a32; INum a33; INum a34; INum a35; INum a36; INum a37; IBool a38; INum a39; INum a40; INum a41; INum a42; INum a43;
     IDrive a44; IDrive a45] =>
      mk a19 a20 a21 a22 a23 a24 a25 a26 a27 (set_bytes (cmd_buffer s) a28 0) a29 a30
         (set_bytes (response_data s) a31 0) a32 a33 a34 a35 a36 a37 a38 a39 a40 a41 a42 a43
         (alter (FloppyDrive.set_state a45) 1%nat (alter (FloppyDrive.set_state a44) 0%nat (drives s)))
  | _ => s
  end.

(** ** Invariants *)

(** A disk in the drive has one of the formats and is as long as that says. *)
Record drive_wf (d : FloppyDrive.t) : Prop := {
  dw_track : byte (FloppyDrive.curr_track d);
  dw_head : byte (FloppyDrive.curr_head d);
  dw_sect : byte (FloppyDrive.curr_sect d);
  dw_perp : within 7 (FloppyDrive.perpendicular d);
  dw_disk : match FloppyDrive.buffer d with
    | Some image => exists f, f ∈ FloppyDrive.DISK_FORMATS
        /\ FloppyDrive.max_track d = FloppyDrive.tracks f /\ FloppyDrive.max_head d = FloppyDrive.heads f /\ FloppyDrive.max_sect d = FloppyDrive.sectors f
        /\ Buffer.Sync.byteLength image = FloppyDrive.disk_size f /\ Z.of_nat (length (Buffer.Sync.buffer image)) = FloppyDrive.disk_size f
    | None => FloppyDrive.max_track d = 0 /\ FloppyDrive.max_head d = 0 /\ FloppyDrive.max_sect d = 0
    end
}.

Lemma format_bounds f : f ∈ FloppyDrive.DISK_FORMATS ->
  8 <= FloppyDrive.sectors f <= 48 /\ 40 <= FloppyDrive.tracks f <= 83 /\ 1 <= FloppyDrive.heads f <= 2.
Proof.
  intros Hf. assert (Forall (fun f => 8 <= FloppyDrive.sectors f <= 48 /\ 40 <= FloppyDrive.tracks f <= 83 /\ 1 <= FloppyDrive.heads f <= 2) FloppyDrive.DISK_FORMATS) as H.
  { unfold FloppyDrive.DISK_FORMATS. repeat (constructor; [cbn; lia|]). constructor. }
  rewrite Forall_forall in H. by apply H.
Qed.

Lemma drive_max d : drive_wf d -> 0 <= FloppyDrive.max_track d <= 83 /\ 0 <= FloppyDrive.max_sect d <= 48 /\ 0 <= FloppyDrive.max_head d <= 2.
Proof.
  intros []. destruct (FloppyDrive.buffer d) as [image|]; [|lia]. destruct dw_disk0 as (f & Hf & -> & -> & -> & _). pose proof (format_bounds f Hf). lia.
Qed.

Lemma seek_wf head track sect d : byte head -> 0 <= track -> 0 <= sect -> drive_wf d -> drive_wf (FloppyDrive.seek head track sect d).2.
Proof.
  intros Hh Ht Hs Hd. pose proof (drive_max d Hd) as (Hm1 & Hm2 & _). destruct Hd. unfold FloppyDrive.seek.
  destruct (_ || _) eqn:E1; [done|]. apply orb_false_iff in E1 as [E1%Z.ltb_ge _]. destruct (Z.ltb_spec (FloppyDrive.max_sect d) sect); [done|].
  destruct (negb _); [|done]. destruct (negb _); repeat (destruct (bool_decide _)); split; cbn; try done; unfold byte in *; lia.
Qed.

(** The registers, whatever the phase; [level] is the level of the interrupt line. *)
Record regs (s : t) (level : bool) : Prop := {
  r_irq : level = has (sra s) SRA_INTPEND;
  r_sra : within SRA_INTPEND (sra s);
  r_srb : within 0xFF (srb s);
  r_dor : within 0xFF (dor s);
  r_tdr : within 0xFF (tdr s);
  r_msr : within 0xFF (msr s);
  r_dsr : within 0xFF (dsr s);
  r_status0 : within 0xFF (status0 s);
  r_drive_no : within 1 (curr_drive_no s);
  r_sense : 0 <= reset_sense_int_count s <= RESET_SENSE_INT_MAX;
  r_cmd : length (cmd_buffer s) = 17%nat /\ Forall byte (cmd_buffer s);
  r_response : length (response_data s) = 15%nat /\ Forall byte (response_data s);
  r_drives : length (drives s) = 2%nat /\ Forall drive_wf (drives s)
}.

(** What the main status register says of the phase, and where the cursors are. *)
Definition phase_ok (s : t) : Prop :=
  match cmd_phase s with
  | CMD_PHASE_COMMAND =>
      has (msr s) MSR_RQM = true /\ has (msr s) MSR_DIO = false /\ has (msr s) MSR_CMDBUSY = negb (cmd_remaining s =? 0)
      /\ 0 <= cmd_cursor s /\ 0 <= cmd_remaining s /\ cmd_cursor s + cmd_remaining s <= 17
  | CMD_PHASE_EXECUTION => has (msr s) MSR_DIO = false
  | CMD_PHASE_RESULT =>
      has (msr s) MSR_RQM = true /\ has (msr s) MSR_DIO = true /\ has (msr s) MSR_CMDBUSY = true
      /\ 0 <= response_cursor s < response_length s /\ response_length s <= 10
  end.
Definition inv (s : t) (level : bool) : Prop := regs s level /\ phase_ok s.

Definition irq6 (level : bool) (e : event) : bool := line_level FDC_IRQ_CHANNEL level [e].

Lemma within_byte x : within 0xFF x <-> byte x.
Proof.
  unfold within, byte. rewrite land_ff. split; [intros <-; apply Z.mod_pos_bound; lia|]. intros Hx. by apply Z.mod_small.
Qed.
Lemma within_mask m m' x : m .& m' = m -> within m x -> within m' x.
Proof. unfold within. intros Hm <-. by rewrite <- Z.land_assoc, Hm. Qed.
Lemma within_land_m m x y : within m y -> within m (x .& y).
Proof. unfold within. intros Hy. by rewrite <- Z.land_assoc, Hy. Qed.
Lemma within_if m (b : bool) x y : within m x -> within m y -> within m (if b then x else y).
Proof. by destruct b. Qed.

Create HintDb fdc.
#[export] Hint Resolve within_lor within_land_l within_land_r within_0 within_if within_land_m : fdc.
#[export] Hint Extern 1 (within _ _) => reflexivity : fdc.

Lemma respond_ok l i v : length l = 15%nat /\ Forall byte l -> length (arr_set l i (u8 v)) = 15%nat /\ Forall byte (arr_set l i (u8 v)).
Proof. intros []. rewrite arr_set_length. auto using arr_set_Forall, u8_byte. Qed.
Lemma argument_ok l i v : length l = 17%nat /\ Forall byte l -> length (arr_set l i (u8 v)) = 17%nat /\ Forall byte (arr_set l i (u8 v)).
Proof. intros []. rewrite arr_set_length. auto using arr_set_Forall, u8_byte. Qed.
#[export] Hint Resolve respond_ok argument_ok : fdc.

Lemma alter_drives (l : list FloppyDrive.t) f i : (forall d, drive_wf d -> drive_wf (f d)) -> length l = 2%nat /\ Forall drive_wf l ->
  length (alter f i l) = 2%nat /\ Forall drive_wf (alter f i l).
Proof. intros Hf [Hl Hd]. rewrite length_alter. split; [done|]. apply Forall_alter; [done|]. intros d Hi Hp. by apply Hf. Qed.

(** Assignments that keep the registers. *)
Ltac regs_update := let s := fresh "s" in let g := fresh "g" in let H := fresh "H" in
  intros s g H; destruct H; split; cbn; try done; auto with fdc; unfold RESET_SENSE_INT_MAX in *; try lia.
(** Those that also keep what the phase depends on. *)
Ltac inv_update := let s := fresh "s" in let g := fresh "g" in let H := fresh "H" in let P := fresh "P" in
  intros s g [H P]; split; [revert s g H P; intros s g H _; revert s g H; regs_update|exact P].

Lemma drive_of i s g : regs s g -> drive_wf (drive i s).
Proof.
  intros []. unfold drive. destruct (drives s !! Z.to_nat i) as [d|] eqn:E; [|]; cbn.
  - eapply Forall_lookup_1; [apply r_drives0|exact E].
  - by split; cbn; unfold byte; try lia.
Qed.

Lemma respond_regs i v : ghoare irq6 regs (respond i v) regs.
Proof. apply ghoare_modify. regs_update. Qed.
Lemma respond_inv i v : ghoare irq6 inv (respond i v) inv.
Proof. apply ghoare_modify. inv_update. Qed.

Lemma inv_of {A} (m : M t A) : ghoare irq6 regs m regs -> preserves phase_ok m -> ghoare irq6 inv m inv.
Proof. intros Hr Hp s g [H P]. split; [by apply Hr|by apply Hp]. Qed.

Lemma raise_irq_regs : ghoare irq6 regs raise_irq regs.
Proof.
  unfold raise_irq. apply ghoare_get. intros s g H. destruct (has (sra s) SRA_INTPEND) eqn:E; destruct H; split; cbn; try done; auto with fdc; unfold RESET_SENSE_INT_MAX; try lia.
  by rewrite has_lor, E.
Qed.
Lemma raise_irq_phase : preserves phase_ok raise_irq.
Proof. unfold raise_irq. intros s P. msimpl. by destruct (negb _). Qed.

(** The line is low after it. *)
Lemma lower_irq_low : ghoare irq6 regs lower_irq (fun s g => regs s g /\ has (sra s) SRA_INTPEND = false).
Proof.
  unfold lower_irq. intros s g H. destruct (has (sra s) SRA_INTPEND) eqn:E; cbn -[has]; rewrite E; cbn -[has].
  - split; [|apply has_clear_same]. destruct H; split; cbn -[has]; try done; auto with fdc. by rewrite has_clear_same.
  - split; [|done]. destruct H; split; cbn -[has]; try done; auto with fdc.
Qed.
Lemma lower_irq_regs : ghoare irq6 regs lower_irq regs.
Proof. eapply ghoare_post; [|apply lower_irq_low]. by intros s g []. Qed.
Lemma lower_irq_phase : preserves phase_ok lower_irq.
Proof. unfold lower_irq. intros s P. msimpl. by destruct (has _ _). Qed.

Lemma enter_command_inv : ghoare irq6 regs enter_command_phase inv.
Proof.
  apply ghoare_modify. intros s g H. split; [revert s g H; regs_update|]. unfold phase_ok. cbn -[has]. rewrite !has_lor, !orb_true_r.
  split; [done|]. split.
  - apply orb_false_iff. split; [|done]. apply has_false_iff. zbits i. unfold MSR_CMDBUSY, MSR_DIO.
    destruct (Z.testbit (msr s) i), (Z.testbit 16 i), (Z.testbit 64 i); done.
  - split; [|lia]. apply orb_false_iff. split; [|done]. apply has_false_iff. zbits i. unfold MSR_CMDBUSY, MSR_DIO.
    destruct (Z.testbit (msr s) i), (Z.testbit 16 i), (Z.testbit 64 i); done.
Qed.

Lemma enter_result_inv n : 0 < n <= 10 -> ghoare irq6 regs (enter_result_phase n) inv.
Proof.
  intros Hn. apply ghoare_modify. intros s g H. split; [revert s g H; regs_update|]. unfold phase_ok. cbn -[has]. rewrite !has_lor.
  unfold MSR_CMDBUSY, MSR_RQM, MSR_DIO. cbn. rewrite !orb_true_r. split_and!; try done; lia.
Qed.

Lemma seek_drive_regs i head track sect : byte head -> 0 <= track -> 0 <= sect -> ghoare irq6 regs (seek_drive i head track sect) regs.
Proof.
  intros Hh Ht Hs. unfold seek_drive. apply ghoare_get_any. intros s0. apply ghoare_bind with (Q := regs); [|intros; apply ghoare_ret].
  apply ghoare_modify. regs_update. apply alter_drives; [|done]. intros d. by apply seek_wf.
Qed.
Lemma seek_drive_phase i head track sect : preserves phase_ok (seek_drive i head track sect).
Proof. intros s P. exact P. Qed.

Lemma byte_0 : byte 0. Proof. done. Qed.
Lemma byte_1 : byte 1. Proof. done. Qed.
#[export] Hint Resolve byte_0 byte_1 : fdc.

Lemma reset_fdc_inv : ghoare irq6 regs reset_fdc inv.
Proof.
  unfold reset_fdc. eapply ghoare_bind; [apply lower_irq_low|intros _]. apply ghoare_bind with (Q := regs).
  { apply ghoare_modify. intros s g [H E]. destruct H; split; cbn -[has]; try done; auto with fdc. rewrite r_irq0. by rewrite E. }
  intros _. eapply ghoare_bind; [by apply seek_drive_regs|intros _]. eapply ghoare_bind; [by apply seek_drive_regs|intros _].
  eapply ghoare_bind; [apply enter_command_inv|intros _]. eapply ghoare_bind; [apply inv_of; [apply raise_irq_regs|apply raise_irq_phase]|intros _].
  apply ghoare_modify. inv_update.
Qed.

(** *** Commands keep the invariant *)

#[export] Hint Resolve respond_regs respond_inv raise_irq_regs lower_irq_regs enter_command_inv reset_fdc_inv : fdc.

Lemma floppy_raise_inv : ghoare irq6 inv raise_irq inv.
Proof. apply inv_of; [apply raise_irq_regs|apply raise_irq_phase]. Qed.
Lemma lower_irq_inv : ghoare irq6 inv lower_irq inv.
Proof. apply inv_of; [apply lower_irq_regs|apply lower_irq_phase]. Qed.

(** A sequence of assignments before the phase is entered, the change of phase, and what follows. *)
Ltac regs_step :=
  first [apply respond_regs | apply raise_irq_regs | apply lower_irq_regs
        | apply ghoare_modify; regs_update].
Ltac inv_step :=
  first [apply respond_inv | apply floppy_raise_inv | apply lower_irq_inv | apply ghoare_modify; inv_update].
Ltac before := apply ghoare_bind with (Q := regs); [regs_step|intros _].
Ltac after := apply ghoare_bind with (Q := inv); [inv_step|intros _].
Ltac enter := apply ghoare_bind with (Q := inv); [first [apply enter_command_inv|apply enter_result_inv; lia]|intros _].

Lemma set_curr_drive_no_regs n : ghoare irq6 regs (set_curr_drive_no n) regs.
Proof. apply ghoare_modify. regs_update. Qed.

Lemma seek_curr_regs head track sect : byte head -> 0 <= track -> 0 <= sect -> ghoare irq6 regs (seek_curr head track sect) regs.
Proof. intros. apply ghoare_get_any. intros s0. by apply seek_drive_regs. Qed.

Lemma within_1_byte x : within 1 x -> within 0xFF x.
Proof. by apply within_mask. Qed.
#[export] Hint Resolve within_1_byte : fdc.

Lemma end_read_write_inv st0 st1 st2 : within 0xFF st0 -> ghoare irq6 regs (end_read_write st0 st1 st2) inv.
Proof.
  intros H0. unfold end_read_write. before. apply ghoare_get_any. intros s0. apply ghoare_bind with (Q := regs); [apply ghoare_when; regs_step|intros _].
  before. apply ghoare_get_any. intros s1. do 7 before. enter. apply floppy_raise_inv.
Qed.

Lemma seek_next_sect_regs : ghoare irq6 regs seek_next_sect regs.
Proof.
  unfold seek_next_sect. intros s g H. destruct (drive_of (curr_drive_no s) s g H) as [Ht Hh Hs _ _]. fold (curr_drive s) in *.
  assert (forall new_track new_head new_sect (b : bool) (r : Z), byte new_head -> 0 <= new_track -> 0 <= new_sect ->
    ghoare irq6 regs (when b (modify (fun s => s <| status0 := status0 s .| SR0_SEEK |>)) ;;; seek_curr new_head new_track new_sect ;;; ret r) regs) as Hg.
  { intros. apply ghoare_bind with (Q := regs); [apply ghoare_when; regs_step|intros _]. eapply ghoare_bind; [by apply seek_curr_regs|intros _; apply ghoare_ret]. }
  rewrite exec_get, (evs_bind get). cbn [evs get snd app res exec fst]. unfold byte in *.
  repeat (case_match; try (by apply Hg; unfold byte; lia)); simplify_eq; apply Hg; unfold byte; try lia; done.
Qed.

Lemma transfer_done_inv e : ghoare irq6 regs (transfer_done e) inv.
Proof.
  unfold transfer_done. destruct e; [by apply end_read_write_inv|]. eapply ghoare_bind; [apply seek_next_sect_regs|intros _]. by apply end_read_write_inv.
Qed.

Lemma arg_byte args i : Forall byte args -> byte (arr_get args i).
Proof. intros Hargs. by apply arr_get_Forall. Qed.

Lemma byte_within x : byte x -> within 0xFF x.
Proof. apply within_byte. Qed.
Lemma byte_land x m : byte x -> byte (x .& m).
Proof. rewrite <- !within_byte. apply within_land_l. Qed.
Lemma byte_shiftr x n : byte x -> 0 <= n -> byte (x .>> n).
Proof. intros Hx Hn. unfold byte in *. rewrite Z.shiftr_div_pow2 by lia. pose proof (Z.pow_pos_nonneg 2 n ltac:(lia) ltac:(lia)). split; [apply Z.div_pos; lia|]. apply Z.div_lt_upper_bound; nia. Qed.
#[export] Hint Resolve byte_within byte_land byte_shiftr arg_byte : fdc.

Lemma set_head_wf d h : byte h -> drive_wf d -> drive_wf (d <| FloppyDrive.curr_head := h |>).
Proof. intros Hh []. by split. Qed.
Lemma set_perp_wf d p : within 7 p -> drive_wf d -> drive_wf (d <| FloppyDrive.perpendicular := p |>).
Proof. intros Hp []. by split. Qed.
Lemma next_id_wf d : drive_wf d ->
  drive_wf (if negb (FloppyDrive.max_sect d =? 0) then d <| FloppyDrive.curr_sect := FloppyDrive.curr_sect d mod FloppyDrive.max_sect d + 1 |> else d).
Proof.
  intros Hd. destruct (Z.eqb_spec (FloppyDrive.max_sect d) 0) as [|Hne]; [done|]. pose proof (drive_max d Hd) as (_ & Hm & _).
  pose proof (Z.mod_pos_bound (FloppyDrive.curr_sect d) (FloppyDrive.max_sect d) ltac:(lia)) as Hr. destruct Hd. split; cbn; try done. unfold byte. lia.
Qed.

Lemma on_curr_drive_regs f : (forall d, drive_wf d -> drive_wf (f d)) -> ghoare irq6 regs (modify (on_curr_drive f)) regs.
Proof. intros Hf. apply ghoare_modify. regs_update. by apply alter_drives. Qed.

Section Handlers.
Context (args : list Z) (Hargs : Forall byte args).

Lemma exec_unimplemented_inv : ghoare irq6 regs (exec_unimplemented args) inv.
Proof. unfold exec_unimplemented. do 2 before. apply enter_result_inv. lia. Qed.

Lemma exec_seek_inv : ghoare irq6 regs (exec_seek args) inv.
Proof.
  unfold exec_seek. eapply ghoare_bind; [apply set_curr_drive_no_regs|intros _]. enter. intros s g [H P].
  destruct (drive_of (curr_drive_no s) s g H) as [_ Hh Hs _ _]. fold (curr_drive s) in *. pose proof (arg_byte args 1 Hargs) as Ht.
  rewrite exec_get, (evs_bind get). cbn [evs get snd app res exec fst]. 
  assert (ghoare irq6 inv (seek_curr (FloppyDrive.curr_head (curr_drive s)) (arr_get args 1) (FloppyDrive.curr_sect (curr_drive s));;;
    modify (fun s => s <| status0 := status0 s .| SR0_SEEK |>) ;;; raise_irq) inv) as Hm; [|exact (Hm s g (conj H P))].
  eapply ghoare_bind; [apply inv_of; [apply seek_curr_regs; unfold byte in *; lia|intros ? Q; exact Q]|intros _]. after. apply floppy_raise_inv.
Qed.

Lemma exec_sense_interrupt_status_inv : ghoare irq6 regs (exec_sense_interrupt_status args) inv.
Proof.
  unfold exec_sense_interrupt_status. intros s g H. rewrite exec_get, (evs_bind get). cbn [evs get snd app res exec fst]. cbv zeta.
  assert (forall st0, ghoare irq6 regs (respond 0 st0 ;;; respond 1 (FloppyDrive.curr_track (curr_drive s)) ;;; enter_result_phase 2 ;;; lower_irq ;;;
    modify (fun s => s <| status0 := SR0_RDYCHG |>)) inv) as Ha.
  { intros st0. do 2 before. enter. after. inv_step. }
  destruct (Z.ltb_spec 0 (reset_sense_int_count s)) as [Hc|Hc].
  - rewrite exec_modify, (evs_bind (modify _)). cbn [evs modify snd app]. apply Ha. destruct H; split; cbn; try done. lia.
  - clear Hc. destruct (has (sra s) SRA_INTPEND); [apply Ha, H|]. clear Ha.
    assert (ghoare irq6 regs (respond 0 SR0_INVCMD ;;; enter_result_phase 1) inv) as Hm; [|exact (Hm s g H)]. before. apply enter_result_inv. lia.
Qed.

Lemma exec_recalibrate_inv : ghoare irq6 regs (exec_recalibrate args) inv.
Proof.
  unfold exec_recalibrate. eapply ghoare_bind; [apply set_curr_drive_no_regs|intros _]. eapply ghoare_bind; [by apply seek_curr_regs|intros _].
  enter. after. apply floppy_raise_inv.
Qed.

Lemma exec_format_track_inv : ghoare irq6 regs (exec_format_track args) inv.
Proof.
  unfold exec_format_track. eapply ghoare_bind; [apply set_curr_drive_no_regs|intros _]. apply ghoare_get_any. intros s0. apply ghoare_if; by apply end_read_write_inv.
Qed.

Lemma exec_read_id_inv : ghoare irq6 regs (exec_read_id args) inv.
Proof.
  unfold exec_read_id. eapply ghoare_bind; [apply on_curr_drive_regs; intros d; apply set_head_wf; auto with fdc|intros _].
  { apply byte_land, byte_shiftr; [auto with fdc|lia]. }
  eapply ghoare_bind; [apply on_curr_drive_regs, next_id_wf|intros _]. by apply end_read_write_inv.
Qed.

Lemma exec_specify_inv : ghoare irq6 regs (exec_specify args) inv.
Proof.
  unfold exec_specify. cbv zeta. before. apply ghoare_bind with (Q := regs); [|intros _; apply enter_command_inv]. apply ghoare_modify. destruct (has _ 1); regs_update.
Qed.

Lemma exec_sense_drive_status_inv : ghoare irq6 regs (exec_sense_drive_status args) inv.
Proof.
  unfold exec_sense_drive_status. cbv zeta. eapply ghoare_bind; [apply set_curr_drive_no_regs|intros _].
  eapply ghoare_bind; [apply on_curr_drive_regs; intros d; apply set_head_wf; apply byte_land, byte_shiftr; [auto with fdc|lia]|intros _].
  apply ghoare_get_any. intros s0. before. apply enter_result_inv. lia.
Qed.

Lemma exec_perpendicular_mode_inv : ghoare irq6 regs (exec_perpendicular_mode args) inv.
Proof.
  unfold exec_perpendicular_mode. cbv zeta. apply ghoare_bind with (Q := regs); [|intros _; apply enter_command_inv].
  apply ghoare_when, on_curr_drive_regs. intros d. apply set_perp_wf. auto with fdc.
Qed.

Lemma exec_configure_inv : ghoare irq6 regs (exec_configure args) inv.
Proof. unfold exec_configure. before. apply enter_command_inv. Qed.

Lemma exec_lock_inv : ghoare irq6 regs (exec_lock args) inv.
Proof.
  unfold exec_lock. apply ghoare_get_any. intros s0. apply ghoare_bind with (Q := regs); [|intros _; apply enter_result_inv; lia].
  apply ghoare_if; before; regs_step.
Qed.

Lemma exec_dump_regs_inv : ghoare irq6 regs (exec_dump_regs args) inv.
Proof. unfold exec_dump_regs. apply ghoare_get_any. intros s0. do 10 before. apply enter_result_inv. lia. Qed.

Lemma exec_version_inv : ghoare irq6 regs (exec_version args) inv.
Proof. unfold exec_version. before. apply enter_result_inv. lia. Qed.
Lemma exec_part_id_inv : ghoare irq6 regs (exec_part_id args) inv.
Proof. unfold exec_part_id. before. apply enter_result_inv. lia. Qed.

End Handlers.

(** *** Transfers keep the invariant *)

Section Machine.
Context {W : Type} {HM : Dma.PhysMem W} {HL : Dma.PhysMemLaws W}.

(** A property of the controller, with the DMA controller's registers within their widths. *)
Definition with_dma (P : t -> bool -> Prop) (s : sys W) (g : bool) : Prop := P (fdc s) g /\ Dma.wf (dma s).

(** While a command executes. *)
Definition executing (s : t) (g : bool) : Prop := regs s g /\ cmd_phase s = CMD_PHASE_EXECUTION /\ has (msr s) MSR_DIO = false.

Lemma executing_inv s g : executing s g -> inv s g.
Proof. intros (H & Hp & Hm). split; [done|]. unfold phase_ok. by rewrite Hp. Qed.
Lemma executing_regs s g : executing s g -> regs s g.
Proof. by intros (H & _). Qed.

Lemma on_fdc_ghoare {A} (P Q : t -> bool -> Prop) (m : M t A) : ghoare irq6 P m Q -> ghoare irq6 (with_dma P) (on_fdc (W := W) m) (with_dma Q).
Proof. intros Hm s g [Hp Hd]. split; [by apply (Hm (fdc s) g)|done]. Qed.

Lemma executing_keep {A} (m : M t A) : ghoare irq6 regs m regs -> preserves (fun s => cmd_phase s = CMD_PHASE_EXECUTION /\ has (msr s) MSR_DIO = false) m -> ghoare irq6 executing m executing.
Proof. intros Hr Hp s g (H & P). split; [by apply Hr|by apply Hp]. Qed.

Lemma simple_inv {A} (P : t -> bool -> Prop) (m : M t A) (c : completion) : ghoare irq6 P m inv -> ghoare irq6 (with_dma P) (on_fdc (W := W) m ;;; ret c) (with_dma inv).
Proof. intros Hm. eapply ghoare_bind; [by apply on_fdc_ghoare|intros; apply ghoare_ret]. Qed.

Lemma from_regs (m : M (sys W) completion) : ghoare irq6 (with_dma regs) m (with_dma inv) -> ghoare irq6 (with_dma executing) m (with_dma inv).
Proof. apply ghoare_weaken. intros s g [H Hd]. split; [by apply executing_regs|done]. Qed.

(** The chunks a transfer stores lie in the buffer. *)
Lemma run_write_bounds (w : W) bl c fuel : forall start len s chunks o s', Dma.wf s -> 0 <= c < 8 -> 0 <= len -> 0 <= start ->
  Dma.run_write fuel w bl start len c s = Some (chunks, o, s') ->
  Forall (fun ch => 0 <= ch.1 /\ ch.1 + Z.of_nat (length ch.2) <= bl) chunks /\ o <> Dma.Dropped /\ Dma.wf s'.
Proof.
  induction fuel as [|fuel IH]; intros start len s chunks o s' Hwf Hc Hlen Hst; [done|]. cbn [Dma.run_write].
  pose proof (Dma.do_write_wf w bl start len c s Hwf) as Hwf'. pose proof (Dma.round_bytes_bound s len c Hlen) as Hb.
  destruct (Dma.do_write_cases w bl start len c s Hwf Hc Hlen) as [E|(data & E & Hd & _ & Hbl & Hep & _)].
  - unfold res, exec in *. rewrite E. intros [= <- <- <-]. rewrite E in Hwf'. split; [constructor|done].
  - unfold res, exec in *. rewrite E. cbn [Dma.pw_epoch Dma.pw_again Dma.pw_start Dma.pw_data Dma.pw_next_start Dma.pw_next_len].
    rewrite Hep, Z.eqb_refl. cbn [negb]. destruct (Dma.more s len c).
    + destruct (Dma.run_write fuel _ _ _ _ _ _) as [[[ch o'] s'']|] eqn:Er; [|done]. intros [= <- <- <-].
      apply IH in Er as (HF & Ho & Hw); [|done|done|lia|lia]. split; [|done]. constructor; [cbn; lia|done].
    + intros [= <- <- <-]. split; [|done]. constructor; [cbn; lia|constructor].
Qed.

Lemma write_image_size chunks image : Forall (fun ch => 0 <= ch.1 /\ ch.1 + Z.of_nat (length ch.2) <= Buffer.Sync.byteLength image) chunks ->
  Z.of_nat (length (Buffer.Sync.buffer image)) = Buffer.Sync.byteLength image ->
  Buffer.Sync.byteLength (write_image chunks image) = Buffer.Sync.byteLength image
  /\ length (Buffer.Sync.buffer (write_image chunks image)) = length (Buffer.Sync.buffer image).
Proof.
  unfold write_image. revert image. induction chunks as [|[a d] chunks IH]; intros image HF Hl; [done|]. inversion HF as [|? ? [H0 H1] HF']; subst. cbn in H0, H1.
  assert (length (set_bytes (Buffer.Sync.buffer image) d a) = length (Buffer.Sync.buffer image)) as Hs by (apply length_set_bytes; lia).
  cbn [fold_left fst snd]. destruct (IH (Buffer.Sync.set a d image)) as [I1 I2]; [exact HF'|cbn; lia|]. rewrite I1, I2. cbn. done.
Qed.

Lemma new_image_wf d image image' : drive_wf d -> FloppyDrive.buffer d = Some image -> Buffer.Sync.byteLength image' = Buffer.Sync.byteLength image ->
  length (Buffer.Sync.buffer image') = length (Buffer.Sync.buffer image) -> drive_wf (d <| FloppyDrive.buffer := Some image' |>).
Proof.
  intros [] Hb Hl1 Hl2. rewrite Hb in *. split; cbn; try done. destruct dw_disk0 as (f & Hf & H1 & H2 & H3 & H4 & H5). exists f. rewrite Hl1, Hl2. done.
Qed.

Lemma dma_read_inv image off len : ghoare irq6 (with_dma executing) (dma_read image off len) (with_dma inv).
Proof.
  unfold dma_read. apply ghoare_get_any. intros s0. apply ghoare_bind with (Q := with_dma executing).
  { intros s g [H Hd]. split; [|exact (Dma.do_read_wf (mem s0) (Buffer.Sync.byteLength image) off len FDC_DMA_CHANNEL (dma s) Hd)]. cbn [evs on_dma snd].
    assert ((Dma.do_read (mem s0) (Buffer.Sync.byteLength image) off len FDC_DMA_CHANNEL (dma s)).2 = []) as ->; [|exact H].
    unfold Dma.do_read. rewrite bind_get. cbv zeta. do 2 (destruct (_ <? _); [done|]). by destruct (negb _). }
  intros [p|]; [|apply from_regs, simple_inv, transfer_done_inv].
  destruct (Dma.pr_start p <? 0). { intros s g [H Hd]. split; [by apply executing_inv|done]. }
  cbv zeta. apply ghoare_get_any. intros s1. destruct (Dma.complete_read _ _ _ _) as [o w]. apply ghoare_bind with (Q := with_dma executing).
  { apply ghoare_modify. by intros s g [H Hd]. }
  intros _. destruct o; [apply from_regs, simple_inv, transfer_done_inv|]. intros s g [H Hd]. split; [by apply executing_inv|done].
Qed.

Lemma dma_write_inv image off len : 0 <= len ->
  ghoare irq6 (fun s g => with_dma executing s g /\ FloppyDrive.buffer (curr_drive (fdc s)) = Some image) (dma_write image off len) (with_dma inv).
Proof.
  intros Hlen s g [[H Hd] Eb].
  pose proof (drive_of (curr_drive_no (fdc s)) (fdc s) g (executing_regs _ _ H)) as Hdw. fold (curr_drive (fdc s)) in Hdw.
  unfold dma_write. rewrite exec_get, (evs_bind get). cbn [evs get snd app res exec fst]. cbv zeta.
  set (start := Dma.do_write _ _ _ _ _).
  assert (ghoare irq6 (fun s' g' => with_dma executing s' g' /\ s' = s) (on_dma start) (with_dma executing)) as Hs.
  { intros s' g' [[H' Hd'] ->]. split; [|exact (Dma.do_write_wf (mem s) (Buffer.Sync.byteLength image) off len FDC_DMA_CHANNEL (dma s) Hd)]. cbn [evs on_dma snd].
    destruct (Dma.do_write_cases (mem s) (Buffer.Sync.byteLength image) off len FDC_DMA_CHANNEL (dma s) Hd ltac:(done) Hlen) as [E|_].
    - fold start in E. rewrite E. exact H'.
    - assert ((start (dma s)).2 = []) as ->; [|exact H']. unfold start, Dma.do_write. rewrite bind_get. cbv zeta. do 2 (destruct (_ <? _); [done|]).
      destruct (Dma.read_blob_physical _ _ _); [|done]. rewrite bind_modify. by destruct (_ && _). }
  assert (with_dma executing s g /\ s = s) as Hsg by (split; [split|]; done).
  destruct (res start (dma s)).
  { refine (ghoare_bind _ _ _ _ _ _ Hs _ s g Hsg). intros _. apply from_regs, simple_inv, transfer_done_inv. }
  destruct (Z.ltb_spec off 0).
  { refine (ghoare_bind _ _ _ _ _ _ Hs _ s g Hsg). intros _ s' g' [H' Hd']. split; [by apply executing_inv|done]. }
  destruct (Dma.run_write _ _ _ _ _ _ _) as [[[chunks o] d]|] eqn:Er; [|split; [by apply executing_inv|done]].
  apply run_write_bounds in Er as (HF & Ho & Hwd); [|done|done|done|done].
  assert (length (Buffer.Sync.buffer (write_image chunks image)) = length (Buffer.Sync.buffer image)
    /\ Buffer.Sync.byteLength (write_image chunks image) = Buffer.Sync.byteLength image) as [Hl1 Hl2].
  { destruct Hdw. rewrite Eb in *. destruct dw_disk0 as (f & _ & _ & _ & _ & H4 & H5). destruct (write_image_size chunks image HF); [by rewrite H4|done]. }
  apply (ghoare_bind irq6 (fun s' g' => with_dma executing s' g' /\ s' = s) (with_dma executing)); [| |done].
  - apply ghoare_modify. intros s' g' [[(H' & Hp) _] ->]. split; [|done]. split; [|done]. destruct H'; split; cbn; try done. unfold on_curr_drive, on_drive. cbn.
    split; [rewrite length_alter; apply r_drives0|]. apply Forall_alter; [apply r_drives0|]. intros d0 Hd0 _. apply (new_image_wf _ image); [|..|done|done].
    + eapply Forall_lookup_1; [apply r_drives0|exact Hd0].
    + unfold curr_drive, drive in Eb. by rewrite Hd0 in Eb.
  - intros _. destruct o; [|done]. apply from_regs, simple_inv, transfer_done_inv.
Qed.

Lemma reject_inv st0 st1 track head sect : within 0xFF st0 -> ghoare irq6 (with_dma executing) (reject (W := W) st0 st1 track head sect) (with_dma inv).
Proof.
  intros H0. apply from_regs, simple_inv. eapply ghoare_bind; [by apply end_read_write_inv|intros _]. do 2 after. inv_step.
Qed.

Lemma start_read_write_inv args do_write : Forall byte args -> ghoare irq6 (with_dma executing) (start_read_write args do_write) (with_dma inv).
Proof.
  intros Hargs. unfold start_read_write. pose proof (arg_byte args 1 Hargs) as B1. pose proof (arg_byte args 2 Hargs) as B2. pose proof (arg_byte args 3 Hargs) as B3.
  pose proof (arg_byte args 7 Hargs) as B7. unfold byte in B1, B3, B7.
  apply ghoare_bind with (Q := with_dma executing). { apply on_fdc_ghoare, executing_keep; [apply set_curr_drive_no_regs|by intros s Hs]. }
  intros _. cbv zeta. apply ghoare_bind with (Q := with_dma executing). { apply on_fdc_ghoare, executing_keep; [apply seek_curr_regs; [done|lia|lia]|by intros s Hs]. }
  intros found. apply ghoare_if; [by apply reject_inv|]. apply ghoare_if; [by apply reject_inv|].
  apply ghoare_bind with (Q := with_dma executing). { apply on_fdc_ghoare, executing_keep; [apply ghoare_when; regs_step|]. intros s Hs. by destruct (found =? 1). }
  intros _. apply ghoare_get. intros s g Hs. set (d := curr_drive (fdc s)). set (len := if _ =? 128 then _ else _).
  destruct (negb _ && _) eqn:El; [by apply reject_inv|].
  assert (0 <= len) as Hlen.
  { unfold len in *. destruct (_ =? 128); [destruct (_ <? 128); lia|]. cbn in El. apply Z.leb_gt in El. lia. }
  assert (forall m : M (sys W) completion, ghoare irq6 (fun s g => with_dma executing s g /\ curr_drive (fdc s) = d) m (with_dma inv) ->
    with_dma inv (exec (on_fdc (modify (fun s => s <| eot := arr_get args 5 |>)) ;;; m) s) (fold_left irq6 (evs (on_fdc (modify (fun s => s <| eot := arr_get args 5 |>)) ;;; m) s) g)) as Hm.
  { intros m Hm. refine (ghoare_bind irq6 (fun s g => with_dma executing s g /\ curr_drive (fdc s) = d) _ _ _ _ _ (fun _ => Hm) s g _); [|done].
    intros s' g' [[(H & P) Hd] Hc]. split; [|exact Hc]. split; [|exact Hd]. split; [|exact P]. destruct H; by split. }
  apply Hm. clear Hm. destruct (do_write && _); [eapply ghoare_weaken; [|by apply reject_inv]; by intros s' g' []|].
  destruct (has _ DOR_DMAEN); [|intros s' g' [[H Hd] _]; split; [by apply executing_inv|done]].
  apply ghoare_bind with (Q := fun s g => with_dma executing s g /\ curr_drive (fdc s) = d).
  { intros s' g' [[(H & P & D) Hd] Hc]. split; [|exact Hc]. split; [|exact Hd]. split; [|split; [exact P|]].
    - destruct H; split; cbn; auto with fdc.
    - cbn. apply has_false_iff. apply has_false_iff in D. by rewrite (Z.land_comm (msr (fdc s'))), <- Z.land_assoc, D, Z.land_0_r. }
  intros _. destruct (FloppyDrive.buffer d) as [image|] eqn:Eb; [|intros s' g' [[H Hd] _]; split; [by apply executing_inv|done]].
  destruct do_write; eapply ghoare_weaken; [|by apply dma_write_inv| |by apply dma_read_inv].
  - intros s' g' [H Hc]. split; [done|]. by rewrite Hc.
  - by intros s' g' [].
Qed.

Lemma call_handler_inv h args : Forall byte args -> ghoare irq6 (with_dma executing) (call_handler h args) (with_dma inv).
Proof.
  intros Hargs. destruct h; cbn [call_handler]; cbv zeta; try (by apply start_read_write_inv); apply from_regs, simple_inv.
  - by apply exec_seek_inv.
  - apply exec_sense_interrupt_status_inv.
  - apply exec_recalibrate_inv.
  - apply exec_format_track_inv.
  - by apply exec_read_id_inv.
  - apply exec_specify_inv.
  - by apply exec_sense_drive_status_inv.
  - apply exec_perpendicular_mode_inv.
  - apply exec_configure_inv.
  - apply exec_lock_inv.
  - apply exec_dump_regs_inv.
  - apply exec_version_inv.
  - apply exec_part_id_inv.
  - apply exec_unimplemented_inv.
Qed.

End Machine.

(** *** The table of commands *)

Definition accepts (b : Z) (d : cmd_desc) : bool := b .& mask d =? code d.

Lemma enter_desc_lookup table d b : length table = 256%nat -> byte b -> byte (code d) ->
  enter_desc table d !! Z.to_nat b = (fun old => if accepts b d then Some d else old) <$> (table !! Z.to_nat b).
Proof.
  intros Hl Hb Hc. unfold enter_desc, accepts. unfold byte in *. destruct (Z.eqb_spec (mask d) 0xff) as [Hm|Hm].
  - rewrite Hm, land_ff, Z.mod_small by lia. destruct (Z.eqb_spec b (code d)) as [->|Hne].
    + rewrite list_lookup_insert_eq by lia. destruct (lookup_lt_is_Some_2 table (Z.to_nat (code d))) as [x ->]; [lia|done].
    + rewrite list_lookup_insert_ne by lia. by destruct (table !! Z.to_nat b).
  - rewrite list_lookup_imap. destruct (table !! Z.to_nat b); cbn; [|done]. by rewrite Z2Nat.id by lia.
Qed.

Lemma enter_desc_length table d : length (enter_desc table d) = length table.
Proof. unfold enter_desc. destruct (_ =? _); [apply length_insert|apply length_imap]. Qed.

Lemma table_find (l : list cmd_desc) b : byte b -> Forall (fun d => byte (code d)) l ->
  length (fold_left enter_desc (rev l) (replicate 256 None)) = 256%nat
  /\ fold_left enter_desc (rev l) (replicate 256 None) !! Z.to_nat b = Some (find (accepts b) l).
Proof.
  intros Hb Hl. induction Hl as [|d l Hd Hl [IH1 IH2]]; cbn [rev].
  - cbn [fold_left find]. split; [apply length_replicate|]. apply lookup_replicate_2. unfold byte in Hb. lia.
  - rewrite fold_left_app. cbn [fold_left]. split; [by rewrite enter_desc_length|]. rewrite enter_desc_lookup by done. rewrite IH2. cbn. by destruct (accepts b d).
Qed.

Lemma descriptors_ok : Forall (fun d => byte (code d) /\ 0 <= argc d <= 17) CMD_DESCRIPTOR.
Proof. unfold CMD_DESCRIPTOR. repeat (constructor; [split; [by split|cbn; lia]|]). constructor. Qed.

(** A byte finds the first command of the list that its bits fit; every byte finds one. *)
Theorem cmd_lookup (b : Z) : byte b ->
  find (accepts b) CMD_DESCRIPTOR = Some (cmd_table b).
Proof.
  intros Hb. assert (Forall (fun d => byte (code d)) CMD_DESCRIPTOR) as Hc by (eapply Forall_impl; [apply descriptors_ok|by intros d []]).
  destruct (table_find CMD_DESCRIPTOR b Hb Hc) as [_ Ht]. unfold cmd_table. fold build_cmd_lookup_table in Ht. rewrite Ht. cbn [mjoin option_join default from_option].
  destruct (find (accepts b) CMD_DESCRIPTOR) as [d|] eqn:E; [done|]. exfalso. assert (accepts b (mk_desc 0 0x00 0 H_unimplemented) = false) as Hf.
  { eapply find_none; [exact E|]. unfold CMD_DESCRIPTOR. cbn. tauto. }
  unfold accepts in Hf. cbn [mask code] in Hf. by rewrite Z.land_0_r in Hf.
Qed.

Lemma cmd_table_argc b : byte b -> 0 <= argc (cmd_table b) <= 17.
Proof.
  intros Hb. pose proof (cmd_lookup b Hb) as Hf. apply find_some in Hf as [Hin _]. pose proof descriptors_ok as Hd. rewrite Forall_forall in Hd.
  apply (Hd (cmd_table b)). by apply list_elem_of_In.
Qed.

(** *** Accesses keep the invariant *)

(** Bytes of a command are being collected. *)
Definition collecting (s : t) (g : bool) : Prop :=
  regs s g /\ cmd_phase s = CMD_PHASE_COMMAND /\ has (msr s) MSR_RQM = true /\ has (msr s) MSR_DIO = false /\ has (msr s) MSR_CMDBUSY = true
  /\ 0 <= cmd_cursor s /\ 0 <= cmd_remaining s /\ cmd_cursor s + cmd_remaining s <= 17.

(** The same before the controller says it is busy. *)
Definition starting (s : t) (g : bool) : Prop :=
  regs s g /\ cmd_phase s = CMD_PHASE_COMMAND /\ has (msr s) MSR_RQM = true /\ has (msr s) MSR_DIO = false
  /\ 0 <= cmd_cursor s /\ 0 <= cmd_remaining s /\ cmd_cursor s + cmd_remaining s <= 17.

Lemma start_command_ok b : byte b -> ghoare irq6 (fun s g => inv s g /\ cmd_phase s = CMD_PHASE_COMMAND) (start_command b) collecting.
Proof.
  intros Hb. pose proof (cmd_table_argc b Hb) as Ha. unfold start_command. revert Ha. generalize (cmd_table b). intros desc Ha. cbv zeta.
  apply ghoare_bind with (Q := starting).
  { apply ghoare_modify. intros s g [[H P] Hp]. unfold phase_ok in P. rewrite Hp in P. destruct P as (P1 & P2 & _).
    split; [destruct H; by split|]. cbn -[has argc]. split_and!; try done; lia. }
  intros _. apply ghoare_get_any. intros s0. apply ghoare_bind with (Q := starting).
  { apply ghoare_when, ghoare_modify. intros s g [H P]. split; [destruct H; by split|exact P]. }
  intros _. apply ghoare_bind with (Q := starting).
  { apply ghoare_when, ghoare_modify. intros s g (H & P & P1 & P2 & P3). split; [destruct H; split; cbn -[has]; auto with fdc|]. cbn -[has]. rewrite !has_lor, P2, orb_true_r. done. }
  intros _. apply ghoare_modify. intros s g (H & P & P1 & P2 & P3). split; [destruct H; split; cbn -[has]; auto with fdc|].
  cbn -[has]. rewrite !has_lor, P1, P2, orb_true_r. done.
Qed.

Lemma argument_ok' b : ghoare irq6 (fun s g => inv s g /\ cmd_phase s = CMD_PHASE_COMMAND /\ cmd_remaining s <> 0) (argument b) collecting.
Proof.
  intros s g ([H P] & Hp & Hr). unfold phase_ok in P. rewrite Hp in P. destruct P as (P1 & P2 & P3 & P4 & P5 & P6). apply Z.eqb_neq in Hr. rewrite Hr in P3. apply Z.eqb_neq in Hr.
  unfold argument. cbn -[has]. split; [destruct H; split; cbn -[has]; auto with fdc; done|]. cbn -[has]. split_and!; try done; lia.
Qed.

Lemma collecting_inv s g : collecting s g -> cmd_remaining s <> 0 -> inv s g.
Proof. intros (H & Hp & P) Hr. split; [done|]. unfold phase_ok. rewrite Hp. apply Z.eqb_neq in Hr. rewrite Hr. naive_solver. Qed.

Section Machine.
Context {W : Type} {HM : Dma.PhysMem W} {HL : Dma.PhysMemLaws W}.

Lemma write_reg_fifo_inv b : byte b -> ghoare irq6 (with_dma inv) (write_reg_fifo (W := W) b) (with_dma inv).
Proof.
  intros Hb. unfold write_reg_fifo. apply ghoare_bind with (Q := with_dma inv). { apply on_fdc_ghoare. apply ghoare_modify. inv_update. }
  intros _. apply ghoare_get. intros s g [H Hd]. destruct (has (dor _) _); cbn [negb]; [|split; done]. destruct (negb _ || _); [split; done|].
  destruct (bool_decide _) eqn:Ep; cbn [negb]; [|split; done]. apply bool_decide_eq_true_1 in Ep.
  set (m := if cmd_remaining (fdc s) =? 0 then _ else _). set (k := (s <-- get ;; _)).
  assert (ghoare irq6 (fun s' g' => with_dma inv s' g' /\ s' = s) (on_fdc (W := W) m) (with_dma collecting)) as Hm.
  { intros s' g' [[H' Hd'] ->]. split; [|done]. unfold m. destruct (Z.eqb_spec (cmd_remaining (fdc s)) 0) as [E|E].
    - by apply (start_command_ok b Hb (fdc s) g').
    - by apply (argument_ok' b (fdc s) g'). }
  refine (ghoare_bind irq6 _ _ _ _ _ Hm _ s g (conj (conj H Hd) eq_refl)). intros _. unfold k. clear -HL.
  apply ghoare_get. intros s g [H Hd]. destruct (Z.eqb_spec (cmd_remaining (fdc s)) 0) as [E|E]; [|split; [by apply collecting_inv|done]].
  set (args := take _ _). assert (Forall byte args) as Hargs by (apply Forall_take; destruct H as [[] _]; tauto).
  eapply (ghoare_bind irq6 (with_dma collecting) (with_dma executing)); [|intros _; exact (call_handler_inv _ args Hargs)|by split].
  apply on_fdc_ghoare, ghoare_modify. intros s' g' (H' & _ & _ & D & _). split; [|done]. destruct H'; by split.
Qed.

Lemma read_reg_fifo_inv : ghoare irq6 inv read_reg_fifo inv.
Proof.
  unfold read_reg_fifo. after. apply ghoare_get. intros s g [H P]. destruct (_ || _); [by split|]. destruct (bool_decide _) eqn:Ep; cbn [negb]; [|by split].
  apply bool_decide_eq_true_1 in Ep. unfold phase_ok in P. rewrite Ep in P. destruct P as (P1 & P2 & P3 & [P4 P5] & P6).
  destruct (Z.ltb_spec (response_cursor s) (response_length s)); [|lia]. cbv zeta. rewrite exec_modify, (evs_bind (modify _)). cbn [evs modify snd app].
  rewrite exec_get, (evs_bind get). cbn [evs get snd app res exec fst].
  set (s1 := s <| response_cursor := response_cursor s + 1 |>). assert (regs s1 g) as H1 by (destruct H; by split).
  change (exec (modify (fun s => s <| response_cursor := response_cursor s + 1 |>)) s) with s1. destruct (Z.eqb_spec (response_cursor s1) (response_length s1)) as [E|E].
  - assert (ghoare irq6 regs ((modify (fun s => s <| msr := msr s .& ~. MSR_RQM |>) ;;; enter_command_phase ;;; lower_irq) ;;; ret (arr_get (response_data s) (response_cursor s))) inv) as Hm; [|exact (Hm s1 g H1)].
    apply ghoare_bind with (Q := inv); [|intros; apply ghoare_ret]. before. enter. apply lower_irq_inv.
  - split; [exact H1|]. unfold phase_ok. cbn -[has]. rewrite Ep. cbn in E. split_and!; try done; lia.
Qed.

(** *** Everything that happens: the guest's accesses to the controller and to the DMA controller, its writes to memory, disks put in and taken out *)

Inductive op :=
| Read (port : Z)
| Write (port data : Z)
| DmaRead (port : Z)
| DmaWrite (port data : Z)
| Memory (f : W -> W)
| Insert (i : Z) (image : option Buffer.Sync.t) (ro : bool)
| Eject (i : Z).

Definition step (o : op) : M (sys W) completion :=
  match o with
  | Read port => port_read port ;;; ret Returned
  | Write port data => port_write port data
  | DmaRead port => modify (fun s => s <| dma := exec (Dma.port_read port) (dma s) |>) ;;; ret Returned
  | DmaWrite port data => modify (fun s => s <| dma := exec (Dma.port_write port data) (dma s) |>) ;;; ret Returned
  | Memory f => modify (fun s => s <| mem := f (mem s) |>) ;;; ret Returned
  | Insert i image ro => on_fdc (modify (on_drive i (fun d => (FloppyDrive.insert_disk image ro d).2))) ;;; ret Returned
  | Eject i => on_fdc (modify (on_drive i FloppyDrive.eject_disk)) ;;; ret Returned
  end.

Definition image_ok (image : option Buffer.Sync.t) : Prop :=
  match image with Some image => Buffer.Sync.byteLength image = Z.of_nat (length (Buffer.Sync.buffer image)) | None => True end.

Definition op_ok (o : op) : Prop :=
  match o with
  | Write _ data => byte data
  | Insert _ image _ => image_ok image
  | _ => True
  end.

(** An access that never returns is the last one. *)
Fixpoint run (ops : list op) : M (sys W) unit :=
  match ops with
  | [] => skip
  | o :: ops => c <-- step o ;; match c with Hung => skip | _ => run ops end
  end.

End Machine.
Arguments op : clear implicits.

(** ** Disk formats *)

Section Formats.
Context (bs ty : Z).
Import FloppyDrive.

(** What the loop has found among the formats [l]. *)
Record found (l : list format) (m : matches) : Prop := {
  fo_preferred : forall f, preferred m = Some f -> f ∈ l /\ disk_size f = bs /\ (ty = CMOS_FDD_TYPE_NO_DRIVE \/ f_drive_type f = ty);
  fo_medium : forall f, medium m = Some f -> f ∈ l /\ disk_size f = bs;
  fo_same : forall f, same_size m = Some f -> f ∈ l /\ disk_size f = bs;
  fo_exact : preferred m = None -> medium m = None -> same_size m = None -> forall f, f ∈ l -> disk_size f <> bs;
  fo_nearest : forall f n, nearest m = Some (f, n) -> f ∈ l /\ n = disk_size f /\ bs < n;
  fo_min : preferred m = None -> forall f, f ∈ l -> bs < disk_size f -> exists f' n, nearest m = Some (f', n) /\ n <= disk_size f;
  fo_type : preferred m = None -> ty <> CMOS_FDD_TYPE_NO_DRIVE -> forall f, f ∈ l -> disk_size f = bs -> f_drive_type f <> ty
}.

Lemma first_some {A} (o : option A) x y : first o x = Some y -> o = Some y \/ (o = None /\ y = x).
Proof. destruct o; intros [= <-]; auto. Qed.

Lemma match_formats_found l : forall done m, found done m -> preferred m = None -> found (done ++ l) (match_formats l bs ty m).
Proof.
  induction l as [|f l IH]; intros done m Hm Hp; cbn [match_formats]; [by rewrite app_nil_r|].
  assert (forall m', found (done ++ [f]) m' -> preferred m' = None -> found (done ++ f :: l) (match_formats l bs ty m')) as Hnext.
  { intros m' H' P'. rewrite (cons_middle f done l), app_assoc. by apply IH. }
  assert (forall g, g ∈ done ++ [f] <-> g ∈ done \/ g = f) as Hin by (intros g; rewrite elem_of_app, list_elem_of_singleton; done).
  assert (forall g (P : Prop), g ∈ done /\ P -> g ∈ done ++ [f] /\ P) as Hgrow by (intros g P []; rewrite Hin; auto).
  destruct (Z.eqb_spec bs (disk_size f)) as [E|E].
  - destruct (_ || _) eqn:Et.
    + destruct Hm. split; cbn; try done.
      * intros g [= <-]. rewrite elem_of_app, elem_of_cons. split; [auto|]. split; [done|]. apply orb_true_iff in Et as [Et|Et]; apply Z.eqb_eq in Et; auto.
      * intros g Hg. destruct (fo_medium0 g Hg). rewrite elem_of_app. auto.
      * intros g Hg. destruct (fo_same0 g Hg). rewrite elem_of_app. auto.
      * intros g n Hg. destruct (fo_nearest0 g n Hg). rewrite elem_of_app. auto.
    + apply orb_false_iff in Et as [Et1%Z.eqb_neq Et2%Z.eqb_neq].
      destruct (_ && _).
      all: apply Hnext; [|done]; destruct Hm; split; cbn; try done.
      all: try (by intros g Hg; rewrite Hp in Hg).
      all: try (by intros g n Hg; rewrite Hin; destruct (fo_nearest0 g n Hg); auto).
      all: try (by intros g Hg; apply first_some in Hg as [Hg|[_ ->]]; [first [by apply Hgrow, fo_medium0|by apply Hgrow, fo_same0]|rewrite Hin; auto]).
      all: try (by intros g Hg; first [by apply Hgrow, fo_medium0|by apply Hgrow, fo_same0]).
      all: try (by intros _ Ht g Hg Hs; apply Hin in Hg as [Hg| ->]; [by apply fo_type0|done]).
      all: try (by intros _ g Hg Hs; apply Hin in Hg as [Hg| ->]; [by apply fo_min0|lia]).
      * intros _ H1 _. unfold first in H1. by destruct (medium m).
      * intros _ _ H1. unfold first in H1. by destruct (same_size m).
  - assert (forall m', preferred m' = preferred m -> medium m' = medium m -> same_size m' = same_size m ->
      (forall g n, nearest m' = Some (g, n) -> (g ∈ done \/ g = f) /\ n = disk_size g /\ bs < n) ->
      (forall g, g ∈ done \/ g = f -> bs < disk_size g -> exists f' n, nearest m' = Some (f', n) /\ n <= disk_size g) -> found (done ++ [f]) m') as Hk.
    { intros m' E1 E2 E3 Hn1 Hn2. destruct Hm. split; rewrite ?E1, ?E2, ?E3.
      - by intros g; rewrite Hp.
      - intros g Hg. by apply Hgrow, fo_medium0.
      - intros g Hg. by apply Hgrow, fo_same0.
      - intros H1 H2 H3 g [Hg| ->]%Hin; [by apply fo_exact0|done].
      - intros g n Hg. rewrite Hin. by apply Hn1.
      - intros _ g Hg. apply Hn2. by apply Hin.
      - intros H1 Ht g [Hg| ->]%Hin Hs; [by apply fo_type0|done]. }
    destruct (Z.ltb_spec bs (disk_size f)) as [L|L].
    + destruct Hm. destruct (nearest m) as [[f0 n0]|] eqn:En; [destruct (Z.ltb_spec (disk_size f) n0)|]; apply Hnext; try done; apply Hk; try done; cbn.
      * intros g n [= <- <-]. auto.
      * intros g [Hg| ->] Hs; [|exists f, (disk_size f); split; [done|lia]]. destruct (fo_min0 Hp g Hg Hs) as (f' & n & [= <- <-] & Hle). exists f, (disk_size f). split; [done|lia].
      * intros g n Hg. destruct (fo_nearest0 g n) as (? & ? & ?); [congruence|auto].
      * intros g [Hg| ->] Hs; [by rewrite En; apply fo_min0|]. exists f0, n0. split; [done|lia].
      * intros g n [= <- <-]. auto.
      * intros g [Hg| ->] Hs; [destruct (fo_min0 Hp g Hg Hs) as (? & ? & ? & _); done|]. exists f, (disk_size f). split; [done|lia].
    + apply Hnext; [|done]. destruct Hm. apply Hk; try done.
      * intros g n Hg. destruct (fo_nearest0 g n Hg). auto.
      * intros g [Hg| ->] Hs; [by apply fo_min0|lia].
Qed.
End Formats.

Lemma find_disk_format_found image ty :
  found (Buffer.Sync.byteLength image) ty FloppyDrive.DISK_FORMATS
    (FloppyDrive.match_formats FloppyDrive.DISK_FORMATS (Buffer.Sync.byteLength image) ty (FloppyDrive.mk_matches None None None None)).
Proof.
  apply (match_formats_found _ _ FloppyDrive.DISK_FORMATS []); [|done]. split; cbn; try done; intros; by apply not_elem_of_nil in H || by destruct (not_elem_of_nil (A := FloppyDrive.format) f).
Qed.

Lemma format_type f : f ∈ FloppyDrive.DISK_FORMATS -> FloppyDrive.f_drive_type f <> FloppyDrive.CMOS_FDD_TYPE_NO_DRIVE.
Proof.
  intros Hf. assert (Forall (fun f => FloppyDrive.f_drive_type f <> FloppyDrive.CMOS_FDD_TYPE_NO_DRIVE) FloppyDrive.DISK_FORMATS) as H.
  { unfold FloppyDrive.DISK_FORMATS. repeat (constructor; [done|]). constructor. }
  rewrite Forall_forall in H. by apply H.
Qed.

(** The drive's buffer for an image, in a format. *)
Definition fits (image b : Buffer.Sync.t) (f : FloppyDrive.format) : Prop :=
  f ∈ FloppyDrive.DISK_FORMATS
  /\ Buffer.Sync.byteLength b = FloppyDrive.disk_size f
  /\ Buffer.Sync.buffer b = Buffer.Sync.buffer image ++ replicate (Z.to_nat (FloppyDrive.disk_size f - Buffer.Sync.byteLength image)) 0
  /\ Buffer.Sync.byteLength image <= FloppyDrive.disk_size f
  /\ forall f', f' ∈ FloppyDrive.DISK_FORMATS -> Buffer.Sync.byteLength image <= FloppyDrive.disk_size f' -> FloppyDrive.disk_size f <= FloppyDrive.disk_size f'.

Lemma exact_fits image f : f ∈ FloppyDrive.DISK_FORMATS -> FloppyDrive.disk_size f = Buffer.Sync.byteLength image -> fits image image f.
Proof. intros Hf Hs. split; [done|]. split; [done|]. rewrite Hs, Z.sub_diag, app_nil_r. split; [done|]. split; [lia|]. intros. lia. Qed.

Lemma padded_fits image f : Buffer.Sync.byteLength image = Z.of_nat (length (Buffer.Sync.buffer image)) -> f ∈ FloppyDrive.DISK_FORMATS -> Buffer.Sync.byteLength image < FloppyDrive.disk_size f ->
  (forall f', f' ∈ FloppyDrive.DISK_FORMATS -> Buffer.Sync.byteLength image <= FloppyDrive.disk_size f' -> FloppyDrive.disk_size f <= FloppyDrive.disk_size f') ->
  fits image (Buffer.Sync.create (set_bytes (replicate (Z.to_nat (FloppyDrive.disk_size f)) 0) (Buffer.Sync.buffer image) 0)) f.
Proof.
  intros Hl Hf Hs Hmin. assert (set_bytes (replicate (Z.to_nat (FloppyDrive.disk_size f)) 0) (Buffer.Sync.buffer image) 0 =
    Buffer.Sync.buffer image ++ replicate (Z.to_nat (FloppyDrive.disk_size f - Buffer.Sync.byteLength image)) 0) as E.
  { unfold set_bytes. cbn [app take Z.to_nat]. rewrite take_0. cbn. rewrite drop_replicate. do 2 f_equal. lia. }
  unfold fits. rewrite E. cbn [Buffer.Sync.create Buffer.Sync.byteLength Buffer.Sync.buffer]. rewrite length_app, length_replicate. split; [done|]. split; [lia|]. split; [done|]. split; [lia|done].
Qed.

Lemma format_found image ty : Buffer.Sync.byteLength image = Z.of_nat (length (Buffer.Sync.buffer image)) ->
  match FloppyDrive.find_disk_format image ty with
  | Some (b, f) => fits image b f /\ (forall f', f' ∈ FloppyDrive.DISK_FORMATS -> FloppyDrive.disk_size f' = Buffer.Sync.byteLength image -> FloppyDrive.f_drive_type f' = ty ->
          FloppyDrive.f_drive_type f = ty)
  | None => forall f', f' ∈ FloppyDrive.DISK_FORMATS -> FloppyDrive.disk_size f' < Buffer.Sync.byteLength image
  end.
Proof.
  intros Hl. destruct (find_disk_format_found image ty) as [F1 F2 F3 F4 F5 F6 F7]. unfold FloppyDrive.find_disk_format.
  set (m := FloppyDrive.match_formats _ _ _ _) in *. 
  assert (FloppyDrive.preferred m = None -> forall f', f' ∈ FloppyDrive.DISK_FORMATS -> FloppyDrive.disk_size f' = Buffer.Sync.byteLength image -> FloppyDrive.f_drive_type f' = ty -> False) as Hty.
  { intros Hp f' Hf' Hs Ht. destruct (decide (ty = FloppyDrive.CMOS_FDD_TYPE_NO_DRIVE)) as [E|E]; [|by apply (F7 Hp E f')]. apply (format_type f' Hf'). congruence. }
  destruct (FloppyDrive.preferred m) as [f|] eqn:Ep.
  { destruct (F1 f eq_refl) as (Hf & Hs & Ht). split; [by apply exact_fits|]. intros f' Hf' _ Ht'. destruct Ht as [->|Ht]; [|done]. by destruct (format_type f' Hf'). }
  specialize (Hty eq_refl). destruct (FloppyDrive.medium m) as [f|] eqn:Em.
  { destruct (F2 f eq_refl) as (Hf & Hs). split; [by apply exact_fits|]. intros f' Hf' Hs' Ht'. by destruct (Hty f'). }
  destruct (FloppyDrive.same_size m) as [f|] eqn:Es.
  { destruct (F3 f eq_refl) as (Hf & Hs). split; [by apply exact_fits|]. intros f' Hf' Hs' Ht'. by destruct (Hty f'). }
  specialize (F4 eq_refl eq_refl eq_refl). specialize (F6 eq_refl). destruct (FloppyDrive.nearest m) as [[f n]|] eqn:En.
  - destruct (F5 f n eq_refl) as (Hf & -> & Hlt). split; [|intros f' Hf' Hs' Ht'; by destruct (Hty f')]. apply padded_fits; [done..|].
    intros f' Hf' Hle. destruct (F6 f' Hf') as (f0 & n0 & [= <- <-] & Hn); [|done]. pose proof (F4 f' Hf'). lia.
  - intros f' Hf'. pose proof (F4 f' Hf') as Hne. destruct (decide (Buffer.Sync.byteLength image < FloppyDrive.disk_size f')) as [Hlt|]; [|lia].
    by destruct (F6 f' Hf' Hlt) as (? & ? & ? & _).
Qed.

(** C35: A disk image is taken as the format it has: the buffer of the drive holds the image, followed by zeros up to the size of
    the format chosen; that is the smallest size of any format that has room for the image, so an image as large as
    some format is taken as it is; it is a format of the drive's own type if one is exactly as large as the image (or the
    drive has no type yet); an image is refused exactly if it is larger than every format. *)
Theorem disk_format_fits (image : Buffer.Sync.t) (ty : Z) : Buffer.Sync.byteLength image = Z.of_nat (length (Buffer.Sync.buffer image)) ->
  match FloppyDrive.find_disk_format image ty with
  | Some (b, f) =>
      f ∈ FloppyDrive.DISK_FORMATS
      /\ Buffer.Sync.byteLength b = FloppyDrive.disk_size f
      /\ Buffer.Sync.buffer b = Buffer.Sync.buffer image ++ replicate (Z.to_nat (FloppyDrive.disk_size f - Buffer.Sync.byteLength image)) 0
      /\ Buffer.Sync.byteLength image <= FloppyDrive.disk_size f
      /\ (forall f', f' ∈ FloppyDrive.DISK_FORMATS -> Buffer.Sync.byteLength image <= FloppyDrive.disk_size f' -> FloppyDrive.disk_size f <= FloppyDrive.disk_size f')
      /\ (forall f', f' ∈ FloppyDrive.DISK_FORMATS -> FloppyDrive.disk_size f' = Buffer.Sync.byteLength image -> FloppyDrive.f_drive_type f' = ty ->
          FloppyDrive.f_drive_type f = ty)
  | None => forall f', f' ∈ FloppyDrive.DISK_FORMATS -> FloppyDrive.disk_size f' < Buffer.Sync.byteLength image
  end.
Proof.
  intros Hl. pose proof (format_found image ty Hl) as H. destruct (FloppyDrive.find_disk_format image ty) as [[b f]|]; [|exact H].
  destruct H as [(H1 & H2 & H3 & H4 & H6) H5]. auto 8.
Qed.

Lemma disk_format_fits_witness : let image := Buffer.Sync.create (replicate 1024 7) in
  match FloppyDrive.find_disk_format image 4 with
  | Some (b, f) => Buffer.Sync.byteLength b = FloppyDrive.disk_size f /\ FloppyDrive.disk_size f <= 163840
  | None => False
  end.
Proof.
  intros image. pose proof (disk_format_fits image 4 eq_refl) as H. set (f0 := FloppyDrive.mk_format FloppyDrive.CMOS_FDD_TYPE_1200 8 40 1).
  assert (f0 ∈ FloppyDrive.DISK_FORMATS) as Hf by (apply list_elem_of_In; cbn; tauto).
  assert (Buffer.Sync.byteLength image <= FloppyDrive.disk_size f0) as Hle by (cbn; unfold FloppyDrive.disk_size, FloppyDrive.SECTOR_SIZE; cbn; lia).
  destruct (FloppyDrive.find_disk_format image 4) as [[b f]|].
  - destruct H as (_ & H1 & _ & _ & H & _). split; [exact H1|]. apply (H f0 Hf Hle).
  - specialize (H f0 Hf). lia.
Defined.

Lemma insert_disk_wf image ro d : image_ok image -> drive_wf d -> drive_wf (FloppyDrive.insert_disk image ro d).2.
Proof.
  intros Hi Hd. destruct image as [image|]; [|done]. cbn. pose proof (format_found image (FloppyDrive.drive_type d) Hi) as H.
  destruct (FloppyDrive.find_disk_format _ _) as [[b f]|]; [|done]. destruct H as [(Hf & Hl & Hb & Hle & _) _]. pose proof (format_bounds f Hf) as Hbounds.
  assert (drive_wf (d <| FloppyDrive.max_track := FloppyDrive.tracks f |> <| FloppyDrive.max_head := FloppyDrive.heads f |> <| FloppyDrive.max_sect := FloppyDrive.sectors f |>
    <| FloppyDrive.read_only := ro |> <| FloppyDrive.media_changed := true |> <| FloppyDrive.buffer := Some b |>)) as Hw.
  { destruct Hd. split; cbn; try done. exists f. do 5 (split; [done|]). rewrite Hb, length_app, length_replicate. cbn in Hi. lia. }
  destruct (_ =? _); [|exact Hw]. destruct Hw. by split.
Qed.

(** ** The controller over any sequence of events *)

Lemma floppy_inv_regs s g : inv s g -> regs s g.
Proof. by intros []. Qed.
Lemma reset_fdc_inv' : ghoare irq6 inv reset_fdc inv.
Proof. eapply ghoare_weaken; [apply floppy_inv_regs|apply reset_fdc_inv]. Qed.

Lemma write_reg_dor_inv b : byte b -> ghoare irq6 inv (write_reg_dor b) inv.
Proof.
  intros Hb. unfold write_reg_dor. after. apply ghoare_get_any. intros s0. apply ghoare_bind with (Q := inv).
  { apply ghoare_when. eapply ghoare_bind; [apply reset_fdc_inv'|intros _]. inv_step. }
  intros _. cbv zeta. apply ghoare_modify. inv_update.
Qed.

Lemma write_reg_tdr_inv b : ghoare irq6 inv (write_reg_tdr b) inv.
Proof. unfold write_reg_tdr. apply ghoare_get_any. intros s0. apply ghoare_when. inv_step. Qed.

Lemma write_reg_dsr_inv b : byte b -> ghoare irq6 inv (write_reg_dsr b) inv.
Proof.
  intros Hb. unfold write_reg_dsr. apply ghoare_get_any. intros s0. apply ghoare_when. apply ghoare_bind with (Q := inv).
  { apply ghoare_when. after. eapply ghoare_bind; [apply reset_fdc_inv'|intros _]. inv_step. }
  intros _. apply ghoare_bind with (Q := inv); [apply ghoare_when, reset_fdc_inv'|intros _]. inv_step.
Qed.

Lemma write_reg_ccr_inv b : byte b -> ghoare irq6 inv (write_reg_ccr b) inv.
Proof. intros Hb. unfold write_reg_ccr. apply ghoare_get_any. intros s0. apply ghoare_when. inv_step. Qed.

Lemma read_reg_msr_inv : ghoare irq6 inv read_reg_msr inv.
Proof. unfold read_reg_msr. after. apply ghoare_get_any. intros s0. apply ghoare_ret. Qed.

Lemma on_drive_inv i f : (forall d, drive_wf d -> drive_wf (f d)) -> ghoare irq6 inv (modify (on_drive i f)) inv.
Proof. intros Hf. apply ghoare_modify. inv_update. by apply alter_drives. Qed.

Lemma eject_disk_wf d : drive_wf d -> drive_wf (FloppyDrive.eject_disk d).
Proof. intros []. by split. Qed.

Lemma create_drive_wf cfg ro image fallback : image_ok image -> drive_wf (FloppyDrive.create cfg ro image fallback).
Proof.
  intros Hi. unfold FloppyDrive.create.
  assert (forall ty, drive_wf (FloppyDrive.mk ty 0 0 0 0 0 1 0 false true None)) as H0 by (intros ty; by split).
  set (d := match cfg with Some _ => _ | None => _ end). assert (drive_wf d) as Hd.
  { unfold d. destruct cfg as [ty|]; [|apply H0]. destruct (_ && _); apply H0. }
  pose proof (insert_disk_wf image ro d Hi Hd) as H. destruct (_ && _); [|done]. destruct H. by split.
Qed.

(** ** While a command executes *)

(** The controller is busy, and ready exactly if transfers do not go through the DMA controller ([strict]: as the output
    register says now). *)
Definition told (strict : bool) (s : t) : Prop :=
  cmd_phase s = CMD_PHASE_EXECUTION ->
  has (msr s) MSR_CMDBUSY = true /\ (strict = true -> has (msr s) MSR_RQM = negb (has (dor s) DOR_DMAEN)).

Definition triple {S A} (P : S -> Prop) (m : M S A) (Q : S -> Prop) : Prop := forall s, P s -> Q (exec m s).
Definition ended (s : t) : Prop := cmd_phase s <> CMD_PHASE_EXECUTION.
Definition anything (s : t) : Prop := True.

Lemma triple_bind {S A C} (P Q R : S -> Prop) (m : M S A) (k : A -> M S C) :
  triple P m Q -> (forall a, triple Q (k a) R) -> triple P (bind m k) R.
Proof. intros Hm Hk s Hs. rewrite exec_bind. by apply Hk, Hm. Qed.
Lemma triple_get {S A} (P Q : S -> Prop) (k : S -> M S A) : (forall s, P s -> Q (exec (k s) s)) -> triple P (bind get k) Q.
Proof. intros H s Hs. rewrite exec_get. by apply H. Qed.
Lemma triple_if {S A} (P Q : S -> Prop) (b : bool) (m1 m2 : M S A) : triple P m1 Q -> triple P m2 Q -> triple P (if b then m1 else m2) Q.
Proof. by destruct b. Qed.
Lemma triple_modify {S} (P Q : S -> Prop) f : (forall s, P s -> Q (f s)) -> triple P (modify f) Q.
Proof. intros H s Hs. by apply H. Qed.
Lemma triple_when {S} (P : S -> Prop) (b : bool) m : triple P m P -> triple P (when b m) P.
Proof. destruct b; [done|]. by intros _ s Hs. Qed.
Lemma triple_anything {A} (m : M t A) : triple anything m anything.
Proof. done. Qed.
Lemma ended_told strict s : ended s -> told strict s.
Proof. done. Qed.

Lemma raise_irq_ends : triple ended raise_irq ended.
Proof. unfold raise_irq. intros s Hs. msimpl. by destruct (negb _). Qed.
Lemma lower_irq_ends : triple ended lower_irq ended.
Proof. unfold lower_irq. intros s Hs. msimpl. by destruct (has _ _). Qed.
Lemma enter_command_ends : triple anything enter_command_phase ended.
Proof. done. Qed.
Lemma enter_result_ends n : triple anything (enter_result_phase n) ended.
Proof. done. Qed.
Lemma seek_curr_ends head track sect : triple ended (seek_curr head track sect) ended.
Proof. by intros s Hs. Qed.

Lemma then_ends {A C} (m : M t A) (k : A -> M t C) : (forall a, triple anything (k a) ended) -> triple anything (bind m k) ended.
Proof. intros Hk. by apply (triple_bind _ anything). Qed.
Lemma ends_then {A C} (m : M t A) (k : A -> M t C) : triple anything m ended -> (forall a, triple ended (k a) ended) -> triple anything (bind m k) ended.
Proof. intros Hm Hk. by apply (triple_bind _ ended). Qed.

Lemma end_read_write_ends st0 st1 st2 : triple anything (end_read_write st0 st1 st2) ended.
Proof.
  unfold end_read_write. do 4 (apply then_ends; intros). do 8 (apply then_ends; intros).
  apply ends_then; [apply enter_result_ends|intros; apply raise_irq_ends].
Qed.

Lemma transfer_done_ends error : triple anything (transfer_done error) ended.
Proof. destruct error; [apply end_read_write_ends|]. apply then_ends. intros _. apply end_read_write_ends. Qed.

Lemma reset_fdc_ends : triple anything reset_fdc ended.
Proof.
  unfold reset_fdc. do 4 (apply then_ends; intros _). apply ends_then; [apply enter_command_ends|intros _].
  apply (triple_bind _ ended); [apply raise_irq_ends|intros _]. by apply triple_modify.
Qed.

(** Every command but a transfer is over at once. *)
Ltac command_ends :=
  repeat (cbv zeta; lazymatch goal with
    | |- triple anything (if _ then _ else _) ended => apply triple_if
    | |- triple anything (end_read_write _ _ _) ended => apply end_read_write_ends
    | |- triple anything enter_command_phase ended => apply enter_command_ends
    | |- triple anything (enter_result_phase _) ended => apply enter_result_ends
    | |- triple anything (bind enter_command_phase _) ended => apply ends_then; [apply enter_command_ends|intros]
    | |- triple anything (bind (enter_result_phase _) _) ended => apply ends_then; [apply enter_result_ends|intros]
    | |- triple anything (bind _ _) ended => apply then_ends; intros
    | |- triple ended (bind get _) ended => apply (triple_bind _ ended); [by intros ? ?|intros]
    | |- triple ended (bind _ _) ended => apply (triple_bind _ ended); [|intros]
    | |- triple ended (modify _) ended => by apply triple_modify
    | |- triple ended (respond _ _) ended => by intros ? ?
    | |- triple ended raise_irq ended => apply raise_irq_ends
    | |- triple ended lower_irq ended => apply lower_irq_ends
    | |- triple ended (seek_curr _ _ _) ended => apply seek_curr_ends
    end).

Section Run.
Context {W : Type} {HM : Dma.PhysMem W} {HL : Dma.PhysMemLaws W}.

Lemma on_fdc_triple {A} (P Q : t -> Prop) (m : M t A) : triple P m Q -> triple (fun s => P (fdc s)) (on_fdc (W := W) m) (fun s => Q (fdc s)).
Proof. intros Hm s Hs. exact (Hm (fdc s) Hs). Qed.

Lemma simple_told strict {A} (m : M t A) (c : completion) (P : sys W -> Prop) :
  triple anything m ended -> triple P (on_fdc (W := W) m ;;; ret c) (fun s => told strict (fdc s)).
Proof. intros Hm s _. apply ended_told. exact (Hm (fdc s) Logic.I). Qed.

(** What the status and output registers are while a transfer is prepared. *)
Definition registers (m d : Z) (s : sys W) : Prop := msr (fdc s) = m /\ dor (fdc s) = d.

Lemma registers_told strict m d s :
  registers m d s -> has m MSR_CMDBUSY = true -> has m MSR_RQM = negb (has d DOR_DMAEN) -> told strict (fdc s).
Proof. intros [E1 E2] Hb Hr _. rewrite E1, E2. done. Qed.

Lemma dma_read_told strict m d image off len :
  has m MSR_CMDBUSY = true -> has m MSR_RQM = false -> has d DOR_DMAEN = true ->
  triple (registers m d) (dma_read image off len) (fun s => told strict (fdc s)).
Proof.
  intros Hb Hr Hd. assert (forall s, registers m d s -> told strict (fdc s)) as Hold by (intros s Hs; apply (registers_told strict m d); [done|done|by rewrite Hr, Hd]).
  unfold dma_read. apply triple_get. intros s0 Hs0. rewrite exec_bind.
  set (s1 := exec (on_dma _) s0). assert (registers m d s1) as Hs1 by exact Hs0. destruct (res (on_dma _) s0) as [p|]; [|exact (simple_told strict _ _ (fun _ => True) (transfer_done_ends true) s1 Logic.I)].
  destruct (Dma.pr_start p <? 0); [by apply Hold|]. cbv zeta. rewrite exec_get. destruct (Dma.complete_read _ _ _ _) as [o w]. rewrite exec_bind.
  destruct o as [error|]; [exact (simple_told strict _ _ (fun _ => True) (transfer_done_ends error) _ Logic.I)|]. by apply Hold.
Qed.

Lemma dma_write_told strict m d image off len :
  has m MSR_CMDBUSY = true -> has m MSR_RQM = false -> has d DOR_DMAEN = true ->
  triple (registers m d) (dma_write image off len) (fun s => told strict (fdc s)).
Proof.
  intros Hb Hr Hd. assert (forall s, registers m d s -> told strict (fdc s)) as Hold by (intros s Hs; apply (registers_told strict m d); [done|done|by rewrite Hr, Hd]).
  unfold dma_write. apply triple_get. intros s0 Hs0. cbv zeta. destruct (res _ (dma s0)).
  { rewrite exec_bind. exact (simple_told strict _ _ (fun _ => True) (transfer_done_ends true) _ Logic.I). }
  destruct (off <? 0); [rewrite exec_bind; by apply Hold|]. destruct (Dma.run_write _ _ _ _ _ _ _) as [[[chunks o] d']|]; [|by apply Hold].
  rewrite exec_bind. destruct o as [error|]; [exact (simple_told strict _ _ (fun _ => True) (transfer_done_ends error) _ Logic.I)|]. by apply Hold.
Qed.

Lemma reject_told strict (P : sys W -> Prop) st0 st1 track head sect : triple P (reject (W := W) st0 st1 track head sect) (fun s => told strict (fdc s)).
Proof. apply simple_told. apply ends_then; [apply end_read_write_ends|]. intros _. command_ends. Qed.

Lemma start_read_write_told strict m d args do_write : has m MSR_CMDBUSY = true -> has m MSR_RQM = true ->
  triple (registers m d) (start_read_write args do_write) (fun s => told strict (fdc s)).
Proof.
  intros Hb Hr. unfold start_read_write. apply (triple_bind _ (registers m d)); [by intros s Hs|intros _]. cbv zeta.
  apply (triple_bind _ (registers m d)); [by intros s Hs|intros found].
  apply triple_if; [apply reject_told|]. apply triple_if; [apply reject_told|].
  apply (triple_bind _ (registers m d)); [intros s Hs; by destruct (found =? 1)|intros _]. apply triple_get. intros s Hs.
  destruct (_ && _); [by apply (reject_told strict (fun _ => True))|]. rewrite exec_bind.
  set (s1 := exec (on_fdc _) s). assert (registers m d s1) as Hs1 by exact Hs.
  destruct (do_write && _); [by apply (reject_told strict (fun _ => True))|]. pose proof Hs as [_ Ed]. rewrite Ed.
  destruct (has d DOR_DMAEN) eqn:Hd; [|exact (registers_told strict m d s1 Hs1 Hb ltac:(by rewrite Hr, Hd))]. rewrite exec_bind.
  set (s2 := exec (on_fdc _) s1). assert (registers (m .& ~. MSR_RQM) d s2) as Hs2 by (destruct Hs1 as [<- E2]; split; [done|exact E2]).
  assert (has (m .& ~. MSR_RQM) MSR_CMDBUSY = true) as Hb'.
  { unfold has in *. rewrite <- Z.land_assoc. exact Hb. }
  assert (has (m .& ~. MSR_RQM) MSR_RQM = false) as Hr' by apply has_clear_same.
  destruct (FloppyDrive.buffer _) as [image|].
  - destruct do_write; [exact (dma_write_told strict _ d image _ _ Hb' Hr' Hd s2 Hs2)|exact (dma_read_told strict _ d image _ _ Hb' Hr' Hd s2 Hs2)].
  - exact (registers_told strict _ d s2 Hs2 Hb' ltac:(by rewrite Hr', Hd)).
Qed.

Lemma call_handler_told strict m d h args : has m MSR_CMDBUSY = true -> has m MSR_RQM = true ->
  triple (registers m d) (call_handler h args) (fun s => told strict (fdc s)).
Proof.
  intros Hb Hr. destruct h; cbn [call_handler]; cbv zeta; try (by apply start_read_write_told); apply simple_told.
  - unfold exec_seek. command_ends.
  - unfold exec_sense_interrupt_status. command_ends.
  - unfold exec_recalibrate. command_ends.
  - unfold exec_format_track. command_ends.
  - unfold exec_read_id. command_ends.
  - unfold exec_specify. command_ends.
  - unfold exec_sense_drive_status. command_ends.
  - unfold exec_perpendicular_mode. command_ends.
  - unfold exec_configure. command_ends.
  - unfold exec_lock. command_ends.
  - unfold exec_dump_regs. command_ends.
  - unfold exec_version. command_ends.
  - unfold exec_part_id. command_ends.
  - unfold exec_unimplemented. command_ends.
Qed.

Lemma port_read_inv port : ghoare irq6 (with_dma inv) (port_read (W := W) port) (with_dma inv).
Proof.
  unfold port_read. repeat apply ghoare_if; try apply ghoare_ret; apply on_fdc_ghoare; try (by intros s g H); [apply read_reg_msr_inv|apply read_reg_fifo_inv].
Qed.

Lemma port_write_inv port data : byte data -> ghoare irq6 (with_dma inv) (port_write (W := W) port data) (with_dma inv).
Proof.
  intros Hb. unfold port_write. cbv zeta. repeat apply ghoare_if; try apply ghoare_ret; try (by apply write_reg_fifo_inv); apply simple_inv.
  - by apply write_reg_dor_inv.
  - apply write_reg_tdr_inv.
  - by apply write_reg_dsr_inv.
  - by apply write_reg_ccr_inv.
Qed.

Lemma step_inv (o : op W) : op_ok o -> ghoare irq6 (with_dma inv) (step o) (with_dma inv).
Proof.
  destruct o as [port|port data|port|port data|f|i image ro|i]; cbn [step op_ok]; intros Ho.
  - eapply ghoare_bind; [apply port_read_inv|intros; apply ghoare_ret].
  - by apply port_write_inv.
  - eapply ghoare_bind; [|intros; apply ghoare_ret]. apply ghoare_modify. intros s g [H Hd]. split; [done|]. exact (Dma.port_read_wf port (dma s) Hd).
  - eapply ghoare_bind; [|intros; apply ghoare_ret]. apply ghoare_modify. intros s g [H Hd]. split; [done|]. exact (Dma.port_write_preserves_wf port data (dma s) Hd).
  - eapply ghoare_bind; [|intros; apply ghoare_ret]. apply ghoare_modify. by intros s g [H Hd].
  - apply simple_inv, on_drive_inv. intros d. by apply insert_disk_wf.
  - apply simple_inv, on_drive_inv, eject_disk_wf.
Qed.

Lemma run_inv (ops : list (op W)) : Forall op_ok ops -> ghoare irq6 (with_dma inv) (run ops) (with_dma inv).
Proof.
  induction 1 as [|o ops Ho Hops IH]; cbn [run]; [apply ghoare_skip|]. eapply ghoare_bind; [by apply step_inv|]. intros []; [done|done|apply ghoare_skip].
Qed.

(** *** Accesses *)

Lemma write_reg_fifo_told strict b (s : sys W) g : inv (fdc s) g -> byte b -> told strict (fdc s) -> told strict (fdc (exec (write_reg_fifo b) s)).
Proof.
  intros Hi Hb Ht. unfold write_reg_fifo. rewrite exec_bind. set (s1 := exec (on_fdc _) s).
  assert (inv (fdc s1) g) as Hi1 by (unfold s1; destruct Hi as [[] P]; split; [split; cbn; auto with fdc|exact P]).
  assert (told strict (fdc s1)) as Ht1 by exact Ht. clearbody s1. clear s Hi Ht. rewrite exec_get.
  destruct (negb (has (dor _) _)); [done|]. destruct (negb _ || _); [done|]. destruct (bool_decide _) eqn:Ep; cbn [negb]; [|done]. apply bool_decide_eq_true_1 in Ep.
  rewrite exec_bind. set (m := if cmd_remaining (fdc s1) =? 0 then _ else _).
  assert (exists g', collecting (exec m (fdc s1)) g') as [g' Hc].
  { unfold m. destruct (Z.eqb_spec (cmd_remaining (fdc s1)) 0) as [E|E]; eexists.
    - by apply (start_command_ok b Hb (fdc s1) g).
    - by apply (argument_ok' b (fdc s1) g). }
  set (s2 := exec (on_fdc m) s1). change (exec m (fdc s1)) with (fdc s2) in Hc. clearbody s2. destruct Hc as (_ & Hp & Hr & _ & Hbusy & _).
  rewrite exec_get. destruct (cmd_remaining (fdc s2) =? 0); [|intros E; change (cmd_phase (fdc s2) = CMD_PHASE_EXECUTION) in E; congruence]. rewrite exec_bind.
  apply (call_handler_told strict (msr (fdc s2)) (dor (fdc s2)) _ _ Hbusy Hr). split; reflexivity.
Qed.

Lemma read_reg_fifo_ends : triple ended read_reg_fifo ended.
Proof.
  unfold read_reg_fifo. apply (triple_bind _ ended); [by apply triple_modify|intros _]. apply (triple_bind _ ended); [by intros ? ?|intros s].
  do 2 (apply triple_if; [by intros ? ?|]). apply triple_if; [|by intros ? ?]. cbv zeta. apply (triple_bind _ ended); [by apply triple_modify|intros _].
  apply (triple_bind _ ended); [by intros ? ?|intros s']. apply (triple_bind _ ended); [|by intros ? ? ?]. apply triple_when.
  apply (triple_bind _ anything); [done|intros _]. apply (triple_bind _ ended); [apply enter_command_ends|intros _; apply lower_irq_ends].
Qed.

Lemma read_reg_fifo_told strict : triple (told strict) read_reg_fifo (told strict).
Proof.
  intros s Hs. destruct (decide (cmd_phase s = CMD_PHASE_EXECUTION)) as [E|E]; [|by apply ended_told, read_reg_fifo_ends].
  assert (exec read_reg_fifo s = s <| dsr := dsr s .& ~. DSR_PWRDOWN |>) as ->; [|exact Hs].
  unfold read_reg_fifo. rewrite exec_modify, exec_get. destruct (_ || _); [done|]. rewrite bool_decide_eq_false_2; [done|]. cbn. congruence.
Qed.

Lemma read_reg_msr_told strict : triple (told strict) read_reg_msr (told strict).
Proof.
  intros s Hs E. specialize (Hs E). change (has (msr s) MSR_CMDBUSY = true /\ (strict = true -> has (msr s) MSR_RQM = negb (has (dor s .| DOR_NRESET) DOR_DMAEN))).
  rewrite has_lor. change (has DOR_NRESET DOR_DMAEN) with false. by rewrite orb_false_r.
Qed.

Lemma ends_told strict {A} (m : M t A) : triple anything m ended -> triple (told strict) m (told strict).
Proof. intros Hm s _. apply ended_told. by apply Hm. Qed.

Lemma write_reg_dor_told b : triple (told false) (write_reg_dor b) (told false).
Proof.
  unfold write_reg_dor. apply (triple_bind _ (told false)); [by intros s Hs|intros _]. apply (triple_bind _ (told false)); [by intros s Hs|intros s0].
  apply (triple_bind _ (told false)).
  - apply triple_when, ends_told, ends_then; [apply reset_fdc_ends|]. intros _. by apply triple_modify.
  - intros _. cbv zeta. apply triple_modify. intros s Hs E. split; [exact (proj1 (Hs E))|done].
Qed.

Lemma write_reg_dsr_told strict b : triple (told strict) (write_reg_dsr b) (told strict).
Proof.
  unfold write_reg_dsr. apply (triple_bind _ (told strict)); [by intros s Hs|intros s0]. apply triple_when.
  apply (triple_bind _ (told strict)); [|intros _; apply (triple_bind _ (told strict)); [|intros _; apply triple_modify; by intros s Hs]].
  - apply triple_when, ends_told, then_ends. intros _. apply ends_then; [apply reset_fdc_ends|]. intros _. by apply triple_modify.
  - apply triple_when, ends_told, reset_fdc_ends.
Qed.

Definition writes_dor (o : op W) : bool := match o with Write port _ => port =? fdc_io_base .| REG_DOR | _ => false end.

Lemma step_told strict (o : op W) s g : op_ok o -> (strict = true -> writes_dor o = false) -> inv (fdc s) g -> told strict (fdc s) -> told strict (fdc (exec (step o) s)).
Proof.
  intros Ho Hw Hi Ht. destruct o as [port|port data|port|port data|f|i image ro|i]; cbn [step op_ok writes_dor] in *; try exact Ht.
  - rewrite exec_bind. change (told strict (fdc (exec (port_read port) s))). unfold port_read. do 4 (destruct (_ =? _); [exact Ht|]).
    destruct (_ =? _); [by apply (on_fdc_triple _ _ _ (read_reg_msr_told strict))|]. destruct (_ =? _); [by apply (on_fdc_triple _ _ _ (read_reg_fifo_told strict))|].
    destruct (_ =? _); exact Ht.
  - unfold port_write. cbv zeta. destruct (_ =? fdc_io_base .| REG_DOR).
    { destruct strict; [by specialize (Hw eq_refl)|]. rewrite exec_bind. by apply (on_fdc_triple _ _ _ (write_reg_dor_told data)). }
    destruct (_ =? _); [rewrite exec_bind; change (told strict (exec (write_reg_tdr data) (fdc s))); unfold write_reg_tdr; rewrite exec_get; by destruct (has _ _)|].
    destruct (_ =? _); [rewrite exec_bind; by apply (on_fdc_triple _ _ _ (write_reg_dsr_told strict data))|].
    destruct (_ =? _); [by apply (write_reg_fifo_told strict data s g)|].
    destruct (_ =? _); [rewrite exec_bind; change (told strict (exec (write_reg_ccr data) (fdc s))); unfold write_reg_ccr; rewrite exec_get; by destruct (has _ _)|done].
Qed.

Lemma run_told strict (ops : list (op W)) : Forall op_ok ops -> (strict = true -> Forall (fun o => writes_dor o = false) ops) ->
  forall s g, with_dma inv s g -> told strict (fdc s) -> told strict (fdc (exec (run ops) s)).
Proof.
  induction 1 as [|o ops Ho Hops IH]; cbn [run]; intros Hw s g Hi Ht; [exact Ht|]. rewrite exec_bind.
  assert (told strict (fdc (exec (step o) s))) as H1.
  { apply (step_told strict o s g Ho); [|apply Hi|done]. intros E. specialize (Hw E). by inversion Hw. }
  assert (strict = true -> Forall (fun o => writes_dor o = false) ops) as Hw' by (intros E; specialize (Hw E); by inversion Hw).
  pose proof (step_inv o Ho s g Hi) as H2. destruct (res (step o) s); [by eapply IH|by eapply IH|exact H1].
Qed.

Lemma run_app (pre post : list (op W)) s :
  exec (run (pre ++ post)) s = exec (run post) (exec (run pre) s) \/ exec (run (pre ++ post)) s = exec (run pre) s.
Proof.
  revert s. induction pre as [|o pre IH]; intros s; [by left|]. cbn [run app]. rewrite !exec_bind. destruct (res (step o) s); [apply IH|apply IH|by right].
Qed.

Lemma create_inv fda fdb : drive_wf fda -> drive_wf fdb -> inv (create fda fdb) false.
Proof.
  intros Ha Hb. split; [|unfold phase_ok; cbn; split_and!; done || lia]. split; cbn; try done.
  - split; [done|]. repeat (constructor; [done|]). constructor.
  - split; [done|]. repeat (constructor; [done|]). constructor.
  - split; [done|]. repeat (constructor; [done|]). constructor.
Qed.

Lemma read_reg_fifo_byte s : Forall byte (response_data s) -> byte (res read_reg_fifo s).
Proof.
  intros Hr. unfold read_reg_fifo. rewrite res_modify, res_get. destruct (_ || _); [done|]. destruct (negb _); [done|]. destruct (_ <? _); [|done].
  cbv zeta. rewrite res_modify, res_get, res_bind. cbn -[arr_get]. by apply arr_get_Forall.
Qed.

Lemma port_read_byte port (s : sys W) g : inv (fdc s) g -> byte (res (port_read port) s).
Proof.
  intros [[H1 H2 H3 H4 H5 H6 H7 H8 H9 H10 H11 H12 H13] _]. unfold port_read. repeat (destruct (_ =? _); [apply within_byte; cbn -[Z.land Z.lor read_reg_fifo]|]); cbn -[Z.land Z.lor].
  - eapply within_mask; [|exact H2]; done.
  - done.
  - auto with fdc.
  - done.
  - done.
  - apply byte_within, (read_reg_fifo_byte (fdc s)). tauto.
  - by destruct (FloppyDrive.media_changed _).
  - done.
Qed.

End Run.

Lemma irq6_level es g : fold_left irq6 es g = line_level FDC_IRQ_CHANNEL g es.
Proof.
  revert g. induction es as [|e es IH]; intros g; [done|]. cbn [fold_left]. rewrite IH. unfold irq6. change (e :: es) with ([e] ++ es). by rewrite line_level_app.
Qed.

(** C8: The floppy controller over any sequence of accesses by the guest to it and to the DMA controller, of writes to memory
    and of disks put in and taken out, from power-on: interrupt 6 is asserted exactly while status register A
    says so; the main status register is ready for the CPU's bytes while a command is awaited (busy once its
    first byte was given) and ready with its own, and busy, while it has a result; while a command
    executes it is busy and has none, and, unless the digital output register was written after the
    command began, it is not ready if transfers go through DMA (with DMA switched off, for
    which the code has no transfers, it stays ready, like a command that awaits arguments);
    bytes of a command fit the buffer and those of a result are there to be read; every register reads as a byte; the
    disk in a drive has the geometry of one of the formats and is exactly as long as that says, whatever was written to it. *)
Theorem floppy_invariant {W} {HM : Dma.PhysMem W} {HL : Dma.PhysMemLaws W} (cfga cfgb : option Z) (roa rob : bool) (ia ib : option Buffer.Sync.t) (w : W) (ops : list (op W)) :
  image_ok ia -> image_ok ib -> Forall op_ok ops ->
  let fda := FloppyDrive.create cfga roa ia FloppyDrive.CMOS_FDD_TYPE_1440 in
  let fdb := FloppyDrive.create cfgb rob ib FloppyDrive.CMOS_FDD_TYPE_1440 in
  let s0 := mk_sys (create fda fdb) Dma.create w in
  let '(_, s, es) := run ops s0 in
  line_level FDC_IRQ_CHANNEL false es = has (sra (fdc s)) SRA_INTPEND
  /\ phase_ok (fdc s)
  /\ (cmd_phase (fdc s) = CMD_PHASE_EXECUTION -> has (msr (fdc s)) MSR_CMDBUSY = true)
  /\ (forall pre post, ops = pre ++ post -> cmd_phase (fdc (exec (run pre) s0)) <> CMD_PHASE_EXECUTION -> Forall (fun o => writes_dor o = false) post ->
        cmd_phase (fdc s) = CMD_PHASE_EXECUTION -> has (msr (fdc s)) MSR_RQM = negb (has (dor (fdc s)) DOR_DMAEN))
  /\ length (cmd_buffer (fdc s)) = 17%nat /\ length (response_data (fdc s)) = 15%nat
  /\ (forall port, byte (res (port_read port) s))
  /\ Forall drive_wf (drives (fdc s)).
Proof.
  intros Ha Hb Hops fda fdb s0.
  assert (with_dma inv s0 false) as H0 by exact (conj (create_inv fda fdb (create_drive_wf cfga roa ia _ Ha) (create_drive_wf cfgb rob ib _ Hb)) Dma.dma_create_wf).
  pose proof (run_inv ops Hops s0 false H0) as [H _].
  assert (told false (fdc (exec (run ops) s0))) as Ht by (eapply run_told; done).
  assert (forall pre post, ops = pre ++ post -> ended (fdc (exec (run pre) s0)) -> Forall (fun o => writes_dor o = false) post -> told true (fdc (exec (run ops) s0))) as Hs.
  { intros pre post -> He Hp. apply Forall_app in Hops as [Hpre Hpost]. pose proof (run_inv pre Hpre s0 false H0) as Hi.
    destruct (run_app pre post s0) as [-> | ->]; [|by apply ended_told]. eapply run_told; [done|by intros _|exact Hi|by apply ended_told]. }
  unfold exec, evs in H, Ht, Hs |- *. destruct (run ops s0) as [[u s] es]. cbn [fst snd] in H, Ht, Hs. rewrite irq6_level in H. pose proof H as [[] P].
  split; [done|]. split; [done|]. split; [intros E; by apply Ht|]. split; [intros pre post E1 E2 E3 E4; by apply (Hs pre post E1 E2 E3 E4)|].
  split; [tauto|]. split; [tauto|]. split; [|tauto]. intros port. by apply (port_read_byte port s (line_level FDC_IRQ_CHANNEL false es)).
Qed.

#[local] Existing Instance Dma.flat_mem.
#[local] Existing Instance Dma.flat_mem_laws.

Lemma floppy_invariant_witness :
  let '(_, s, es) := run [Write 0x3F2 0x00; Write 0x3F2 0x0C] (mk_sys (create (FloppyDrive.create None false None 4) (FloppyDrive.create None false None 4)) Dma.create (replicate 16 0)) in
  line_level FDC_IRQ_CHANNEL false es = true /\ byte (res (port_read 0x3F4) s).
Proof.
  pose proof (floppy_invariant None None false false None None (replicate 16 0) [Write 0x3F2 0x00; Write 0x3F2 0x0C] I I) as H. cbv zeta in H.
  assert (Forall (op_ok (W := list Z)) [Write 0x3F2 0x00; Write 0x3F2 0x0C]) as Ho by (repeat (constructor; [done|]); constructor). specialize (H Ho).
  destruct (run _ _) as [[u s] es] eqn:E. destruct H as (H1 & _ & _ & _ & _ & _ & H2 & _). split; [|apply H2].
  rewrite H1. apply (f_equal (fun r => has (sra (fdc r.1.2)) SRA_INTPEND)) in E. cbn [fst snd] in E. rewrite <- E. vm_compute. reflexivity.
Defined.

End Floppy.
