(* ===== verification/FloppyTrip.v ===== *)
(** * The floppy disk controller: commands and sectors

    On the model and the invariant of [Floppy.v]: the bytes of a command reach its handler, the bytes of a result reach
    the guest; sectors move between the disk and memory; snapshots. *)

From S2P Require Import Prelude Dma State Buffer Floppy.

Import State Floppy.

Set Default Goal Selector "!".

Open Scope js_scope.

Module FloppyTrip.

(** ** A command, its bytes and its result *)

Section Commands.
Context {W : Type} {HM : Dma.PhysMem W} {HL : Dma.PhysMemLaws W}.

(** The bytes written to the data register. *)
Fixpoint send (bytes : list Z) : M (sys W) completion :=
  match bytes with
  | [] => ret Returned
  | [b] => write_reg_fifo b
  | b :: bytes => write_reg_fifo b ;;; send bytes
  end.

(** Everything but the bytes of the command and the bits that say that they arrive. *)
Definition undisturbed (s s' : t) : Prop :=
  sra s' = sra s /\ dor s' = dor s /\ status0 s' = status0 s /\ curr_drive_no s' = curr_drive_no s
  /\ reset_sense_int_count s' = reset_sense_int_count s /\ locked s' = locked s
  /\ step_rate_interval s' = step_rate_interval s /\ head_load_time s' = head_load_time s /\ fdc_config s' = fdc_config s
  /\ precomp_trk s' = precomp_trk s /\ eot s' = eot s /\ drives s' = drives s /\ response_data s' = response_data s.

Lemma undisturbed_trans s1 s2 s3 : undisturbed s1 s2 -> undisturbed s2 s3 -> undisturbed s1 s3.
Proof. unfold undisturbed. intuition congruence. Qed.

(** The state after a byte, before the command is executed. *)
Definition after_byte (b : Z) (s : t) : t :=
  let s := s <| dsr := dsr s .& ~. DSR_PWRDOWN |> in
  if cmd_remaining s =? 0 then exec (start_command b) s else exec (argument b) s.

Lemma start_command_quiet b s : start_command b s = (tt, exec (start_command b) s, []) /\ undisturbed s (exec (start_command b) s)
  /\ cmd_code (exec (start_command b) s) = b /\ cmd_remaining (exec (start_command b) s) = argc (cmd_table b) /\ cmd_cursor (exec (start_command b) s) = 0
  /\ cmd_flags (exec (start_command b) s) = (if ((code (cmd_table b) =? CMD_READ) || (code (cmd_table b) =? CMD_WRITE)) && has b 0x80 then CMD_FLAG_MULTI_TRACK else 0)
  /\ length (cmd_buffer (exec (start_command b) s)) = length (cmd_buffer s).
Proof.
  unfold start_command. generalize (cmd_table b). intros desc. cbv zeta. unfold exec. rewrite bind_modify, bind_get. cbn [cmd_code cmd_remaining].
  destruct (_ && _), (negb _); cbn -[has argc]; unfold undisturbed; cbn -[has argc]; auto 20.
Qed.

Lemma fifo_step b s g : inv (fdc s) g -> cmd_phase (fdc s) = CMD_PHASE_COMMAND -> has (dor (fdc s)) DOR_NRESET = true ->
  write_reg_fifo (W := W) b s =
    (let f := after_byte b (fdc s) in
     if cmd_remaining f =? 0 then
       call_handler (cmd_handler (cmd_table (cmd_code f))) (take (Z.to_nat (cmd_cursor f)) (cmd_buffer f))
         (s <| fdc := (f <| cmd_phase := CMD_PHASE_EXECUTION |>) |>)
     else (Returned, s <| fdc := f |>, [])).
Proof.
  intros [H P] Hp Hn. unfold phase_ok in P. rewrite Hp in P. destruct P as (P1 & P2 & _). unfold write_reg_fifo.
  erewrite bind_quiet by reflexivity. rewrite bind_get. cbn [fdc]. cbn -[has call_handler bind start_command argument cmd_table]. rewrite Hn, P1, P2, Hp. cbn [negb orb].
  rewrite bool_decide_eq_true_2 by done. cbn [negb].
  match goal with |- bind (on_fdc ?m) _ ?s1 = _ => assert (on_fdc (W := W) m s1 = (tt, s <| fdc := after_byte b (fdc s) |>, [])) as Hq end.
  { unfold on_fdc, after_byte. cbn -[start_command argument]. destruct (cmd_remaining (fdc s) =? 0); [|reflexivity]. by rewrite (proj1 (start_command_quiet b _)). }
  rewrite (bind_quiet _ _ _ _ _ Hq). rewrite bind_get. cbv zeta.
  change (fdc (s <| fdc := after_byte b (fdc s) |>)) with (after_byte b (fdc s)). generalize (after_byte b (fdc s)). intros f.
  destruct (cmd_remaining f =? 0); [|reflexivity]. by erewrite bind_quiet by reflexivity.
Qed.

Definition flags (b : Z) : Z :=
  if ((code (cmd_table b) =? CMD_READ) || (code (cmd_table b) =? CMD_WRITE)) && has b 0x80 then CMD_FLAG_MULTI_TRACK else 0.

(** The controller has the command [b] and the arguments [got]. *)
Record collected (b : Z) (got : list Z) (g : bool) (s0 s : t) : Prop := {
  c_same : undisturbed s0 s;
  c_busy : collecting s g;
  c_code : cmd_code s = b;
  c_flags : cmd_flags s = flags b;
  c_cursor : cmd_cursor s = Z.of_nat (length got);
  c_remaining : cmd_remaining s = argc (cmd_table b) - Z.of_nat (length got);
  c_got : take (length got) (cmd_buffer s) = got
}.

Lemma clear_power_inv s g : inv s g -> inv (s <| dsr := dsr s .& ~. DSR_PWRDOWN |>) g.
Proof. revert s g. inv_update. Qed.

Lemma collected_first b s g : inv s g -> cmd_phase s = CMD_PHASE_COMMAND -> cmd_remaining s = 0 -> byte b -> collected b [] g s (after_byte b s).
Proof.
  intros Hi Hp Hr Hb. unfold after_byte. set (s1 := s <| dsr := _ |>). change (cmd_remaining s1) with (cmd_remaining s). rewrite Hr. cbn [Z.eqb].
  pose proof (start_command_ok b Hb s1 g (conj (clear_power_inv s g Hi) Hp)) as Hc. destruct (start_command_quiet b s1) as (Hq & Hu & H1 & H2 & H3 & H4 & _).
  unfold evs in Hc. rewrite Hq in Hc. cbn [snd fold_left] in Hc. split; [|exact Hc|done|exact H4|done|rewrite H2; cbn; lia|done].
  eapply undisturbed_trans; [|exact Hu]. by repeat split.
Qed.

Lemma collected_next b got a g s0 s : collected b got g s0 s -> cmd_remaining s <> 0 -> byte a -> collected b (got ++ [a]) g s0 (after_byte a s).
Proof.
  intros [C1 C2 C3 C4 C5 C6 C7] Hr Ha. unfold after_byte. set (s1 := s <| dsr := _ |>). change (cmd_remaining s1) with (cmd_remaining s). apply Z.eqb_neq in Hr as Hr'. rewrite Hr'.
  pose proof (collecting_inv s g C2 Hr) as Hi. pose proof C2 as (Hg & Hp & _ & _ & _ & B1 & B2 & B3).
  pose proof (argument_ok' a s1 g (conj (clear_power_inv s g Hi) (conj Hp Hr))) as Hc. destruct Hg. destruct r_cmd0 as [Hl _].
  split; [|exact Hc|done|done|cbn; rewrite length_app; cbn; lia|cbn; rewrite length_app; cbn; lia|].
  - eapply undisturbed_trans; [exact C1|]. by repeat split.
  - cbn. rewrite length_app, Nat.add_comm. cbn [length Nat.add]. rewrite u8_id by done. unfold arr_set. rewrite C5, Nat2Z.id.
    assert (length got < length (cmd_buffer s))%nat as Hlt by lia.
    rewrite (take_S_r _ _ a) by (by apply list_lookup_insert_eq). by rewrite take_insert_ge, C7 by lia.
Qed.

Lemma send_args b g s0 args : forall got (s : sys W), collected b got g s0 (fdc s) -> has (dor s0) DOR_NRESET = true -> Forall byte args -> args <> [] ->
  Z.of_nat (length got) + Z.of_nat (length args) = argc (cmd_table b) ->
  exists f, undisturbed s0 f /\ executing f g /\ cmd_code f = b /\ cmd_flags f = flags b
    /\ send args s = call_handler (cmd_handler (cmd_table b)) (got ++ args) (s <| fdc := f |>).
Proof.
  induction args as [|a args IH]; intros got s Hc Hn Hargs Hne Hlen; [done|]. inversion Hargs as [|? ? Ha Hargs']; subst. cbn [length] in Hlen.
  pose proof Hc as [C1 C2 C3 C4 C5 C6 C7]. assert (cmd_remaining (fdc s) <> 0) as Hr by lia. pose proof (collecting_inv _ _ C2 Hr) as Hi.
  assert (has (dor (fdc s)) DOR_NRESET = true) as Hn' by (destruct C1 as (_ & -> & _); done).
  pose proof (collected_next b got a g s0 (fdc s) Hc Hr Ha) as Hc'. pose proof (fifo_step a s g Hi ltac:(by destruct C2 as (_ & ? & _)) Hn') as Hs. cbv zeta in Hs.
  pose proof Hc' as [D1 D2 D3 D4 D5 D6 D7]. rewrite length_app in D5, D6. cbn [length] in D5, D6. destruct args as [|a' args].
  - cbn [length] in Hlen. rewrite (proj2 (Z.eqb_eq _ 0)) in Hs by lia. rewrite D3, D5 in Hs.
    exists ((after_byte a (fdc s)) <| cmd_phase := CMD_PHASE_EXECUTION |>). split; [exact D1|]. split; [|split; [done|]; split; [done|]].
    + destruct D2 as (R & _ & _ & D & _). split; [destruct R; by split|]. split; [done|exact D].
    + cbn [send]. rewrite Hs, Nat2Z.id. rewrite length_app in D7. cbn [length] in D7. by rewrite D7.
  - cbn [length] in Hlen. rewrite (proj2 (Z.eqb_neq _ 0)) in Hs by lia. cbn [send]. cbn [send] in IH. rewrite (bind_quiet _ _ _ _ _ Hs).
    destruct (IH (got ++ [a]) (s <| fdc := after_byte a (fdc s) |>)) as (f & F1 & F2 & F3 & F4 & F5); [exact Hc'|done|done|done|rewrite length_app; cbn [length]; lia|].
    exists f. split; [done|]. split; [done|]. split; [done|]. split; [done|]. rewrite <- app_assoc in F5. exact F5.
Qed.

(** A command is its first byte, which says how many follow: when the last one has been written, the handler of the first
    command of the table that fits runs on exactly those bytes, with the rest of the machine as it was. *)
Lemma command_sent b args (s : sys W) g : inv (fdc s) g -> cmd_phase (fdc s) = CMD_PHASE_COMMAND -> cmd_remaining (fdc s) = 0 -> has (dor (fdc s)) DOR_NRESET = true ->
  byte b -> Forall byte args -> Z.of_nat (length args) = argc (cmd_table b) ->
  exists f, undisturbed (fdc s) f /\ executing f g /\ cmd_code f = b /\ cmd_flags f = flags b
    /\ send (b :: args) s = call_handler (cmd_handler (cmd_table b)) args (s <| fdc := f |>).
Proof.
  intros Hi Hp Hr Hn Hb Hargs Hlen. pose proof (collected_first b (fdc s) g Hi Hp Hr Hb) as Hc. pose proof (fifo_step b s g Hi Hp Hn) as Hs. cbv zeta in Hs.
  pose proof Hc as [D1 D2 D3 D4 D5 D6 D7]. cbn [length] in *. destruct args as [|a args].
  - cbn [length] in Hlen. rewrite (proj2 (Z.eqb_eq _ 0)) in Hs by lia. rewrite D3, D5 in Hs.
    exists ((after_byte b (fdc s)) <| cmd_phase := CMD_PHASE_EXECUTION |>). split; [exact D1|]. split; [|split; [done|]; split; [done|exact Hs]].
    destruct D2 as (R & _ & _ & D & _). split; [destruct R; by split|]. split; [done|exact D].
  - cbn [length] in Hlen. rewrite (proj2 (Z.eqb_neq _ 0)) in Hs by lia. change (send (b :: a :: args)) with (write_reg_fifo (W := W) b ;;; send (a :: args)).
    rewrite (bind_quiet _ _ _ _ _ Hs).
    destruct (send_args b g (fdc s) (a :: args) [] (s <| fdc := after_byte b (fdc s) |>)) as (f & F1 & F2 & F3 & F4 & F5); try done.
    exists f. do 4 (split; [done|]). exact F5.
Qed.
End Commands.

(** *** The result *)

(** Reads of the data register. *)
Fixpoint receive (n : nat) : M t (list Z) :=
  match n with
  | O => ret []
  | S n => b <-- read_reg_fifo ;; bytes <-- receive n ;; ret (b :: bytes)
  end.

(** One byte of the result, not the last. *)
Lemma read_result s g : inv s g -> cmd_phase s = CMD_PHASE_RESULT -> response_cursor s + 1 <> response_length s ->
  exec read_reg_fifo s = s <| dsr := dsr s .& ~. DSR_PWRDOWN |> <| response_cursor := response_cursor s + 1 |>
  /\ res read_reg_fifo s = arr_get (response_data s) (response_cursor s).
Proof.
  intros [H P] Hp Hne. unfold phase_ok in P. rewrite Hp in P. destruct P as (P1 & P2 & P3 & P4 & P5). unfold read_reg_fifo.
  rewrite exec_modify, res_modify, exec_get, res_get. set (s1 := s <| dsr := _ |>). change (msr s1) with (msr s). change (cmd_phase s1) with (cmd_phase s). rewrite P1, P2, Hp. cbn [negb orb].
  rewrite bool_decide_eq_true_2 by done. cbn [negb]. change (response_cursor s1) with (response_cursor s). change (response_length s1) with (response_length s).
  rewrite (proj2 (Z.ltb_lt _ _)) by lia. cbv zeta. rewrite exec_modify, res_modify, exec_get, res_get. cbn [response_cursor response_length].
  change (response_cursor _ =? response_length _) with (response_cursor s + 1 =? response_length s). rewrite (proj2 (Z.eqb_neq _ _)) by done. done.
Qed.

(** The last one. *)
Lemma read_last s g : inv s g -> cmd_phase s = CMD_PHASE_RESULT -> response_cursor s + 1 = response_length s ->
  let s' := exec read_reg_fifo s in
  cmd_phase s' = CMD_PHASE_COMMAND /\ cmd_remaining s' = 0 /\ status0 s' = 0 /\ has (sra s') SRA_INTPEND = false
  /\ drives s' = drives s /\ dor s' = dor s /\ curr_drive_no s' = curr_drive_no s /\ res read_reg_fifo s = arr_get (response_data s) (response_cursor s).
Proof.
  intros [H P] Hp He. cbv zeta. unfold phase_ok in P. rewrite Hp in P. destruct P as (P1 & P2 & P3 & P4 & P5). unfold read_reg_fifo.
  rewrite exec_modify, res_modify, exec_get, res_get. set (s1 := s <| dsr := _ |>). change (msr s1) with (msr s). change (cmd_phase s1) with (cmd_phase s). rewrite P1, P2, Hp. cbn [negb orb].
  rewrite bool_decide_eq_true_2 by done. cbn [negb]. change (response_cursor s1) with (response_cursor s). change (response_length s1) with (response_length s).
  rewrite (proj2 (Z.ltb_lt _ _)) by lia. cbv zeta. rewrite exec_modify, res_modify, exec_get, res_get.
  change (response_cursor _ =? response_length _) with (response_cursor s + 1 =? response_length s). rewrite He, Z.eqb_refl. cbn [when].
  rewrite exec_bind, res_bind, exec_ret. rewrite exec_modify, exec_bind. unfold lower_irq. rewrite exec_modify, exec_get.
  match goal with |- context [has (sra ?x) _] => change (sra x) with (sra s) end. destruct (has (sra s) SRA_INTPEND) eqn:E; cbn [when].
  - rewrite exec_emit. cbn -[has]. rewrite has_clear_same. done.
  - cbn -[has]. rewrite E. done.
Qed.

Lemma receive_all n : forall s g, inv s g -> cmd_phase s = CMD_PHASE_RESULT -> Z.of_nat n = response_length s - response_cursor s ->
  let s' := exec (receive n) s in
  res (receive n) s = slice (response_data s) (response_cursor s) (response_length s)
  /\ cmd_phase s' = CMD_PHASE_COMMAND /\ cmd_remaining s' = 0 /\ status0 s' = 0 /\ has (sra s') SRA_INTPEND = false
  /\ drives s' = drives s /\ dor s' = dor s /\ curr_drive_no s' = curr_drive_no s.
Proof.
  induction n as [|n IH]; intros s g Hi Hp Hn; pose proof Hi as [H P]; unfold phase_ok in P; rewrite Hp in P; destruct P as (P1 & P2 & P3 & P4 & P5); [lia|].
  assert (slice (response_data s) (response_cursor s) (response_length s) = arr_get (response_data s) (response_cursor s) :: slice (response_data s) (response_cursor s + 1) (response_length s)) as Hs.
  { unfold slice. rewrite (drop_S (response_data s) (arr_get (response_data s) (response_cursor s)) (Z.to_nat (response_cursor s))).
    - replace (Z.to_nat (response_length s - response_cursor s)) with (S (Z.to_nat (response_length s - (response_cursor s + 1)))) by lia. cbn [take].
      do 3 f_equal. lia.
    - unfold arr_get. destruct (lookup_lt_is_Some_2 (response_data s) (Z.to_nat (response_cursor s))) as [x ->]; [destruct H as []; lia|done]. }
  cbv zeta. cbn [receive]. rewrite exec_bind, res_bind, exec_bind, res_bind, exec_ret. cbn [res ret fst]. rewrite Hs.
  destruct (decide (response_cursor s + 1 = response_length s)) as [He|Hne].
  - destruct (read_last s g Hi Hp He) as (L1 & L2 & L3 & L4 & L5 & L6 & L7 & L8). cbv zeta in *. replace n with 0%nat by lia. cbn [receive]. rewrite exec_ret. cbn [res ret fst].
    change ((read_reg_fifo s).1.1) with (res read_reg_fifo s) in *. rewrite L8, He. unfold slice. rewrite Z.sub_diag. done.
  - destruct (read_result s g Hi Hp Hne) as [E1 E2]. destruct (IH (exec read_reg_fifo s) g) as (I1 & I2).
    + rewrite E1. split; [destruct H; split; cbn; auto with fdc|]. unfold phase_ok. cbn -[has]. rewrite Hp. split_and!; try done; lia.
    + by rewrite E1.
    + rewrite E1. cbn. lia.
    + change ((read_reg_fifo s).1.1) with (res read_reg_fifo s) in *. unfold res at 1 in I1. rewrite E2. rewrite E1 in I1, I2 |- *. cbv zeta in I2.
      split; [by f_equal|]. exact I2.
Qed.

(** ** Transfers of sectors *)

(** The same disk in the drive, wherever the head is. *)
Definition same_disk (d d' : FloppyDrive.t) : Prop :=
  FloppyDrive.buffer d' = FloppyDrive.buffer d /\ FloppyDrive.max_track d' = FloppyDrive.max_track d /\ FloppyDrive.max_head d' = FloppyDrive.max_head d
  /\ FloppyDrive.max_sect d' = FloppyDrive.max_sect d /\ FloppyDrive.read_only d' = FloppyDrive.read_only d.

Lemma same_disk_refl d : same_disk d d.
Proof. by repeat split. Qed.
Lemma same_disk_trans d1 d2 d3 : same_disk d1 d2 -> same_disk d2 d3 -> same_disk d1 d3.
Proof. unfold same_disk. intuition congruence. Qed.
#[local] Instance same_disk_preorder : PreOrder same_disk.
Proof. split; [exact same_disk_refl|exact same_disk_trans]. Qed.

Lemma seek_same head track sect d : same_disk d (FloppyDrive.seek head track sect d).2.
Proof.
  unfold FloppyDrive.seek. destruct (_ || _); [apply same_disk_refl|]. destruct (_ <? _); [apply same_disk_refl|].
  destruct (negb _); [|apply same_disk_refl]. destruct (negb _); repeat (destruct (bool_decide _)); by repeat split.
Qed.

Lemma alter_same f i ds ds' : (forall d, same_disk d (f d)) -> Forall2 same_disk ds ds' -> Forall2 same_disk ds (alter f i ds').
Proof.
  intros Hf H. revert i. induction H as [|d d' ds ds' Hd H IH]; intros i; [by constructor|]. destruct i as [|i]; cbn.
  - constructor; [|done]. eapply same_disk_trans; [exact Hd|apply Hf].
  - constructor; [done|apply IH].
Qed.

(** What the result says: the command ended, with an error or not. *)
Definition ended (ds : list FloppyDrive.t) (e : bool) (s : t) : Prop :=
  cmd_phase s = CMD_PHASE_RESULT /\ response_cursor s = 0 /\ response_length s = 7 /\ has (sra s) SRA_INTPEND = true
  /\ Forall2 same_disk ds (drives s) /\ has (arr_get (response_data s) 0) (SR0_ABNTERM .| SR0_INVCMD) = e.

Section Ended.
Context (ds : list FloppyDrive.t).

Definition before_end (e : bool) (s : t) : Prop :=
  Forall2 same_disk ds (drives s) /\ within 1 (curr_drive_no s) /\ length (response_data s) = 15%nat
  /\ within 0xFF (status0 s) /\ has (status0 s) (SR0_ABNTERM .| SR0_INVCMD) = e.

Definition answered (e : bool) (s : t) : Prop :=
  Forall2 same_disk ds (drives s) /\ length (response_data s) = 15%nat /\ has (arr_get (response_data s) 0) (SR0_ABNTERM .| SR0_INVCMD) = e.

Lemma respond_answered e i v : 0 < i < 15 -> hoare (answered e) (respond i v) (answered e).
Proof. intros Hi. apply hoare_modify. intros s (H1 & H2 & H3). split; [done|]. cbn. rewrite arr_set_length, arr_get_set_ne by lia. done. Qed.

Lemma has_high_low x m : within 0x3F m -> has (x .| m) (SR0_ABNTERM .| SR0_INVCMD) = has x (SR0_ABNTERM .| SR0_INVCMD).
Proof.
  intros Hm. rewrite has_lor. assert (has m (SR0_ABNTERM .| SR0_INVCMD) = false) as ->; [|by rewrite orb_false_r].
  apply has_false_iff. unfold within in Hm. rewrite <- Hm, <- Z.land_assoc. change (0x3F .& (SR0_ABNTERM .| SR0_INVCMD)) with 0. apply Z.land_0_r.
Qed.

Lemma end_read_write_ended (e0 e : bool) st1 st2 : hoare (before_end e0) (end_read_write (if e then SR0_ABNTERM else 0) st1 st2) (ended ds (e0 || e)).
Proof.
  unfold end_read_write. apply hoare_bind with (Q := before_end e0).
  { apply hoare_modify. intros s (H1 & H2 & H3 & H4 & H5). split; [done|]. split; [done|]. split; [done|]. cbn -[has]. split; [auto with fdc|].
    rewrite has_high_low by (by apply (within_mask 1)). by rewrite has_clear_other. }
  intros _. apply hoare_get_any. intros s0. apply hoare_bind with (Q := before_end e0).
  { destruct (negb _); [|by intros s H]. apply hoare_modify. intros s (H1 & H2 & H3 & H4 & H5). split; [done|]. split; [done|]. split; [done|]. cbn -[has]. split; [auto with fdc|]. by rewrite has_high_low. }
  intros _. apply hoare_bind with (Q := before_end (e0 || e)).
  { apply hoare_modify. intros s (H1 & H2 & H3 & H4 & H5). split; [done|]. split; [done|]. split; [done|]. cbn -[has]. split; [destruct e; auto with fdc|]. rewrite has_lor, H5. by destruct e. }
  intros _. apply hoare_get. intros s Hs.
  assert (hoare (fun s' => before_end (e0 || e) s' /\ s' = s) (respond 0 (status0 s)) (answered (e0 || e))) as H0.
  { apply hoare_modify. intros s' [(H1 & H2 & H3 & H4 & H5) ->]. split; [done|]. cbn. rewrite arr_set_length. split; [done|].
    rewrite arr_get_set_eq by lia. by rewrite u8_id by (by apply within_byte). }
  eapply (hoare_bind _ _ _ _ _ H0); [|done]. intros _. do 6 (eapply hoare_bind; [apply respond_answered; lia|intros _]).
  apply hoare_bind with (Q := fun s => answered (e0 || e) s /\ cmd_phase s = CMD_PHASE_RESULT /\ response_cursor s = 0 /\ response_length s = 7).
  { apply hoare_modify. intros s' (H1 & H2 & H3). by repeat split. }
  intros _. unfold raise_irq. apply hoare_get. intros s' ((H1 & H2 & H3) & H4 & H5 & H6). unfold ended. destruct (has (sra s') SRA_INTPEND) eqn:E; cbn -[has]; rewrite ?has_lor, ?E, ?orb_true_r; done.
Qed.

Lemma seek_next_sect_before e : preserves (before_end e) seek_next_sect.
Proof.
  unfold seek_next_sect. apply preserves_get. intros s Hs.
  assert (forall b h tr sc (r : Z), preserves (before_end e) (when b (modify (fun s => s <| status0 := status0 s .| SR0_SEEK |>)) ;;; seek_curr h tr sc ;;; ret r)) as Hp.
  { intros. apply preserves_bind; [apply preserves_when, preserves_modify|intros _; apply preserves_bind; [|intros; apply preserves_ret]].
    - intros s' (H1 & H2 & H3 & H4 & H5). split; [done|]. split; [done|]. split; [done|]. cbn -[has]. split; [auto with fdc|]. by rewrite has_high_low.
    - intros s' (H1 & H2). split; [|exact H2]. cbn. apply alter_same; [|done]. intros d. apply seek_same. }
  cbv zeta. repeat (case_match; try (by apply Hp)); simplify_eq; by apply Hp.
Qed.

Lemma transfer_done_ended e : hoare (before_end false) (transfer_done e) (ended ds e).
Proof.
  unfold transfer_done. destruct e; [apply (end_read_write_ended false true)|]. apply hoare_bind with (Q := before_end false); [apply seek_next_sect_before|intros _].
  apply (end_read_write_ended false false).
Qed.
End Ended.

(** A sector of the disk in the drive. *)
Definition addressed (d : FloppyDrive.t) (track head sect : Z) : Prop :=
  0 <= track < FloppyDrive.max_track d /\ 0 <= head < FloppyDrive.max_head d /\ 1 <= sect <= FloppyDrive.max_sect d.

(** The drive accepts the position. *)
Definition seeks (d : FloppyDrive.t) (track head sect : Z) : Prop := (FloppyDrive.seek head track sect d).1 = 0 \/ (FloppyDrive.seek head track sect d).1 = 1.

(** It does not look at everything: the track after the last one, and sector 0, are accepted too. *)
Lemma seek_accepts d image track head sect : track <= FloppyDrive.max_track d -> sect <= FloppyDrive.max_sect d -> head = 0 \/ FloppyDrive.max_head d <> 1 ->
  FloppyDrive.buffer d = Some image -> seeks d track head sect.
Proof.
  intros Ht Hs Hh Hb. unfold seeks, FloppyDrive.seek. rewrite (proj2 (Z.ltb_ge _ _)) by lia.
  rewrite (proj2 (Z.ltb_ge (FloppyDrive.max_sect d) sect)) by lia.
  assert (negb (head =? 0) && (FloppyDrive.max_head d =? 1) = false) as ->.
  { destruct (Z.eqb_spec head 0), (Z.eqb_spec (FloppyDrive.max_head d) 1); try done. lia. }
  cbn [orb]. destruct (negb _); [destruct (negb _)|]; cbn; rewrite ?Hb; cbn; rewrite ?Hb, ?bool_decide_eq_true_2 by (by eexists); auto.
Qed.

Lemma seek_found d image track head sect : addressed d track head sect -> FloppyDrive.buffer d = Some image -> seeks d track head sect.
Proof. intros (Ht & Hh & Hs) Hb. apply (seek_accepts d image); [lia|lia| |done]. destruct (decide (head = 0)); [auto|right; lia]. Qed.

Section Sectors.
Context {W : Type} {HM : Dma.PhysMem W} {HL : Dma.PhysMemLaws W}.

Lemma on_fdc_quiet {A} (m : M t A) f0 d (w : W) a f : m f0 = (a, f, []) -> on_fdc m (mk_sys f0 d w) = (a, mk_sys f d w, []).
Proof. intros H. unfold on_fdc. cbn. by rewrite H. Qed.

Lemma executing_start f0 f g n last head track sect : executing f0 g ->
  (exists st, f = f0 <| curr_drive_no := n |> <| drives := alter (fun d => (FloppyDrive.seek head track sect d).2) (Z.to_nat n) (drives f0) |> <| status0 := st |>
     <| eot := last |> <| msr := msr f0 .& ~. MSR_RQM |> /\ within 0xFF st) ->
  within 1 n -> byte head -> byte track -> byte sect -> executing f g.
Proof.
  intros (H & P & D) (st & -> & Hst) Hn Hh Ht Hs. unfold byte in *. split; [|split; [done|]].
  - destruct H; split; cbn; auto with fdc. apply alter_drives; [|done]. intros d. apply seek_wf; unfold byte; lia.
  - cbn. apply has_false_iff. apply has_false_iff in D. by rewrite (Z.land_comm (msr f0)), <- Z.land_assoc, D, Z.land_0_r.
Qed.

(** The bytes of READ and WRITE after the first: drive, address, size code of 512 bytes, last sector, gap, and a length that is not used. *)
Definition rw_args (unit_ track head sect last gap dtl : Z) : list Z := [unit_; track; head; sect; 2; last; gap; dtl].

Definition transfer_length (multi : bool) (sect last : Z) : Z := (if multi then 2 * last - sect + 1 else last - sect + 1) * SECTOR_SIZE.

Lemma start_transfer (s : sys W) g (wr : bool) unit_ track head sect last gap dtl d image :
  Forall byte (rw_args unit_ track head sect last gap dtl) -> executing (fdc s) g ->
  d = drive (unit_ .& 1) (fdc s) -> FloppyDrive.buffer d = Some image -> seeks d track head sect ->
  wr && FloppyDrive.read_only d = false -> has (dor (fdc s)) DOR_DMAEN = true ->
  let multi := has (cmd_flags (fdc s)) CMD_FLAG_MULTI_TRACK in
  let len := transfer_length multi sect last in
  let off := FloppyDrive.chs2lba d track head sect * SECTOR_SIZE in
  0 < len ->
  exists f, start_read_write (rw_args unit_ track head sect last gap dtl) wr s =
      (if wr then dma_write image off len else dma_read image off len) (mk_sys f (dma s) (mem s))
    /\ executing f g /\ Forall2 same_disk (drives (fdc s)) (drives f) /\ curr_drive_no f = unit_ .& 1
    /\ has (status0 f) (SR0_ABNTERM .| SR0_INVCMD) = has (status0 (fdc s)) (SR0_ABNTERM .| SR0_INVCMD)
    /\ FloppyDrive.buffer (curr_drive f) = Some image.
Proof.
  intros Hargs He Hd Hb Ha Hro Hdma multi len off Hlen. destruct s as [f0 dm me]. cbn [fdc dma mem] in *. unfold start_read_write.
  change (arr_get (rw_args unit_ track head sect last gap dtl) 0) with unit_. change (arr_get (rw_args unit_ track head sect last gap dtl) 1) with track.
  change (arr_get (rw_args unit_ track head sect last gap dtl) 2) with head. change (arr_get (rw_args unit_ track head sect last gap dtl) 3) with sect.
  change (arr_get (rw_args unit_ track head sect last gap dtl) 4) with 2. change (arr_get (rw_args unit_ track head sect last gap dtl) 5) with last. cbv zeta.
  assert (drives f0 !! Z.to_nat (unit_ .& 1) = Some d) as Hi.
  { destruct He as [[] _]. pose proof (land_nonneg_r unit_ 1 ltac:(lia)). destruct (lookup_lt_is_Some_2 (drives f0) (Z.to_nat (unit_ .& 1))) as [x Hx]; [lia|].
    unfold drive in Hd. rewrite Hx in Hd. by rewrite Hd. }
  set (f1 := f0 <| curr_drive_no := unit_ .& 1 |>).
  rewrite (bind_quiet _ _ _ tt (mk_sys f1 dm me)) by (unfold set_curr_drive_no; apply on_fdc_quiet; unfold f1, DOR_SELMASK; by rewrite <- Z.land_assoc).
  set (sk := FloppyDrive.seek head track sect). set (f2 := on_drive (unit_ .& 1) (fun d => (sk d).2) f1).
  rewrite (bind_quiet _ _ _ (sk d).1 (mk_sys f2 dm me)) by (apply on_fdc_quiet; rewrite Hd; reflexivity).
  pose proof Ha as Hf. unfold seeks in Hf. fold sk in Hf. rewrite (proj2 (Z.eqb_neq _ 2)), (proj2 (Z.eqb_neq _ 3)) by lia.
  set (f3 := if (sk d).1 =? 1 then f2 <| status0 := status0 f2 .| SR0_SEEK |> else f2).
  rewrite (bind_quiet _ _ _ tt (mk_sys f3 dm me)) by (apply on_fdc_quiet; unfold f3; by destruct (_ =? 1)).
  rewrite bind_get. assert (curr_drive f3 = (sk d).2 /\ curr_drive_no f3 = unit_ .& 1 /\ cmd_flags f3 = cmd_flags f0 /\ dor f3 = dor f0) as (Hc3 & Hn3 & Hm3 & Hd3).
  { unfold f3. destruct (_ =? 1); (split; [|done]); unfold curr_drive, drive, f2, on_drive; cbn; by rewrite list_lookup_alter_eq, Hi. }
  cbn [fdc]. rewrite Hc3, Hm3, Hd3. fold multi. change (128 .<< (if 7 <? 2 then 7 else 2)) with SECTOR_SIZE.
  pose proof (seek_same head track sect d) as Hsame. fold sk in Hsame. destruct Hsame as (S1 & S2 & S3 & S4 & S5).
  assert (FloppyDrive.chs2lba (sk d).2 track head sect = FloppyDrive.chs2lba d track head sect) as -> by (unfold FloppyDrive.chs2lba; congruence). fold off.
  change (SECTOR_SIZE =? 128) with false. cbn [negb andb].
  replace (if multi then (2 * last - sect + 1) * SECTOR_SIZE else (last - sect + 1) * SECTOR_SIZE) with len by (unfold len, transfer_length; by destruct multi).
  rewrite (proj2 (Z.leb_gt _ _)) by lia. set (f4 := f3 <| eot := last |>).
  rewrite (bind_quiet _ _ _ tt (mk_sys f4 dm me)) by reflexivity. rewrite S5, Hro, Hdma, S1, Hb.
  set (f5 := f4 <| msr := msr f4 .& ~. MSR_RQM |>). rewrite (bind_quiet _ _ _ tt (mk_sys f5 dm me)) by reflexivity.
  exists f5. split; [by destruct wr|].
  assert (drives f5 = alter (fun d => (sk d).2) (Z.to_nat (unit_ .& 1)) (drives f0)) as Hdr by (unfold f5, f4, f3; by destruct (_ =? 1)).
  split; [|split; [rewrite Hdr; apply alter_same; [intros; apply seek_same|]; apply Forall_Forall2_diag, Forall_true; intros; apply same_disk_refl|]].
  - unfold rw_args in Hargs. rewrite !Forall_cons in Hargs. destruct Hargs as (_ & Bt & Bh & Bs & _).
    apply (executing_start f0 f5 g (unit_ .& 1) last head track sect He); [|auto with fdc..|done|done|done]. pose proof He as [[] _]. unfold f5, f4, f3. destruct (_ =? 1).
    + exists (status0 f0 .| SR0_SEEK). split; [done|auto with fdc].
    + exists (status0 f0). by split.
  - split; [done|]. split; [|unfold f5, f4; change (curr_drive _) with (curr_drive f3); by rewrite Hc3, S1].
    unfold f5, f4, f3. destruct (_ =? 1); cbn -[has]; [|done]. by rewrite has_high_low.
Qed.

Definition clean (s : t) : Prop := has (status0 s) (SR0_ABNTERM .| SR0_INVCMD) = false.

Lemma before_end_of s g : regs s g -> clean s -> before_end (drives s) false s.
Proof.
  intros [] Hc. split; [apply Forall_Forall2_diag, Forall_true; intros; apply same_disk_refl|]. split; [done|]. split; [tauto|]. by split.
Qed.

Lemma do_read_once (w : W) bl start len c s :
  let n := Dma.count_get_8bit s c in
  let addr := Dma.address_get_8bit s c in
  start + n <= bl -> addr + n <= 2 ^ 32 -> Dma.validate_physical_range w addr n = true ->
  let s' := exec (Dma.do_read w bl start len c) s in
  Dma.do_read w bl start len c s = (Some (Dma.mk_pending_read addr start n (Dma.epoch s)), s', []) /\ Dma.epoch s' = Dma.epoch s.
Proof.
  intros n addr Hb Ha Hv. unfold Dma.do_read, exec. rewrite bind_get. cbv zeta. fold n addr. rewrite (proj2 (Z.ltb_ge _ _)) by lia. rewrite (proj2 (Z.ltb_ge _ _)) by lia.
  rewrite Hv. cbn [negb]. rewrite bind_modify, bind_get. done.
Qed.

Lemma dma_read_ok (s : sys W) g image off len w' : executing (fdc s) g -> clean (fdc s) ->
  let n := Dma.count_get_8bit (dma s) FDC_DMA_CHANNEL in
  let addr := Dma.address_get_8bit (dma s) FDC_DMA_CHANNEL in
  0 <= off -> off + n <= Buffer.Sync.byteLength image -> addr + n <= 2 ^ 32 -> Dma.validate_physical_range (mem s) addr n = true ->
  Dma.write_blob_physical (mem s) (slice (Buffer.Sync.buffer image) off (off + n)) addr = Some w' ->
  exists s', dma_read image off len s = (Returned, s', evs (dma_read image off len) s) /\ mem s' = w' /\ ended (drives (fdc s)) false (fdc s').
Proof.
  intros He Hc n addr H0 Hlen Ha Hv Hw. pose proof (transfer_done_ended (drives (fdc s)) false (fdc s) (before_end_of _ g (executing_regs _ _ He) Hc)) as Hend.
  set (d' := exec (Dma.do_read (mem s) (Buffer.Sync.byteLength image) off len FDC_DMA_CHANNEL) (dma s)).
  destruct (do_read_once (mem s) (Buffer.Sync.byteLength image) off len FDC_DMA_CHANNEL (dma s) Hlen Ha Hv) as [Hr Hep]. fold d' n addr in Hr, Hep.
  exists (mk_sys (exec (transfer_done false) (fdc s)) d' w'). split; [|by split]. unfold dma_read, evs. rewrite bind_get.
  rewrite (bind_quiet _ _ s (Some (Dma.mk_pending_read addr off n (Dma.epoch (dma s)))) (mk_sys (fdc s) d' (mem s))) by (unfold on_dma; by rewrite Hr).
  cbn [Dma.pr_start Dma.pr_count]. rewrite (proj2 (Z.ltb_ge _ _)) by lia. rewrite bind_get. cbn [dma mem]. unfold Dma.complete_read. cbn [Dma.pr_epoch Dma.pr_addr].
  rewrite Hep, Z.eqb_refl. cbn [negb]. unfold Buffer.Sync.get. rewrite Hw. rewrite (bind_quiet _ _ _ tt (mk_sys (fdc s) d' w')) by reflexivity. done.
Qed.

(** A [do_write] of one round. *)
Lemma do_write_once (w : W) bl start len c s data : start + Dma.round_bytes s len c <= bl -> Dma.address_get_8bit s c + Dma.round_bytes s len c <= 2 ^ 32 -> Dma.autoinit s c = false ->
  Dma.read_blob_physical w (Dma.address_get_8bit s c) (Dma.round_bytes s len c) = Some data ->
  let s' := exec (Dma.do_write w bl start len c) s in
  Dma.do_write w bl start len c s = (inr (Dma.mk_pending_write start data (Dma.epoch s) false (start + Dma.round_bytes s len c) (len - Dma.round_bytes s len c)), s', [])
  /\ Dma.epoch s' = Dma.epoch s.
Proof.
  unfold Dma.round_bytes, Dma.autoinit. cbv zeta. intros Hb Ha Hauto Hd. unfold Dma.do_write, exec. rewrite bind_get. cbv zeta. rewrite land_ffff. fold (Dma.unit_size c).
  set (n := (arr_get (Dma.channel_count s) c + 1) mod 65536 * Dma.unit_size c) in *. set (rb := if len <? n then len / Dma.unit_size c * Dma.unit_size c else n) in *.
  replace (if len <? n then (if len <? n then len / Dma.unit_size c else _) * Dma.unit_size c else n) with rb by (unfold rb; by destruct (len <? n)).
  rewrite (proj2 (Z.ltb_ge _ _)) by lia. rewrite (proj2 (Z.ltb_ge _ _)) by lia. rewrite Hd, Hauto, !andb_false_r. rewrite bind_modify. cbn [when]. rewrite bind_skip, bind_get. done.
Qed.

(** The image after a write. *)
Definition with_image (i : Z) (image : Buffer.Sync.t) (ds : list FloppyDrive.t) : list FloppyDrive.t :=
  alter (fun d => d <| FloppyDrive.buffer := Some image |>) (Z.to_nat i) ds.

Lemma dma_write_ok (s : sys W) g image off len data : executing (fdc s) g -> clean (fdc s) -> Dma.wf (dma s) ->
  let n := Dma.round_bytes (dma s) len FDC_DMA_CHANNEL in
  let addr := Dma.address_get_8bit (dma s) FDC_DMA_CHANNEL in
  0 <= off -> 0 <= len -> off + n <= Buffer.Sync.byteLength image -> addr + n <= 2 ^ 32 -> Dma.autoinit (dma s) FDC_DMA_CHANNEL = false ->
  Dma.read_blob_physical (mem s) addr n = Some data ->
  exists s', dma_write image off len s = (Returned, s', evs (dma_write image off len) s) /\ mem s' = mem s
    /\ ended (with_image (curr_drive_no (fdc s)) (Buffer.Sync.set off data image) (drives (fdc s))) false (fdc s').
Proof.
  intros He Hc Hwd n addr H0 Hl Hlen Ha Hauto Hd. set (image' := Buffer.Sync.set off data image). set (f1 := on_curr_drive (fun dr => dr <| FloppyDrive.buffer := Some image' |>) (fdc s)).
  pose proof (do_write_once (mem s) (Buffer.Sync.byteLength image) off len FDC_DMA_CHANNEL (dma s) data Hlen Ha Hauto Hd) as [Hr Hep].
  set (d' := exec (Dma.do_write (mem s) (Buffer.Sync.byteLength image) off len FDC_DMA_CHANNEL) (dma s)) in *.
  assert (before_end (with_image (curr_drive_no (fdc s)) image' (drives (fdc s))) false f1) as Hb.
  { destruct (before_end_of _ g (executing_regs _ _ He) Hc) as (_ & H). split; [|exact H]. apply Forall_Forall2_diag, Forall_true. intros. apply same_disk_refl. }
  exists (mk_sys (exec (transfer_done false) f1) d' (mem s)). split; [|split; [done|exact (transfer_done_ended _ false f1 Hb)]].
  unfold dma_write, evs. rewrite bind_get. cbv zeta. unfold res. rewrite Hr. cbn [fst]. rewrite (proj2 (Z.ltb_ge _ _)) by lia.
  replace (Z.to_nat len + 2)%nat with (S (Z.to_nat len + 1)) by lia. cbn [Dma.run_write]. fold d'. unfold res. rewrite Hr. cbn [fst Dma.pw_epoch Dma.pw_again Dma.pw_start Dma.pw_data].
  rewrite Hep, Z.eqb_refl. cbn [negb]. rewrite (bind_quiet _ _ _ tt (mk_sys f1 d' (mem s))) by reflexivity. done.
Qed.
End Sectors.

Section Disk.
Context {W : Type} {HM : Dma.PhysMem W} {HL : Dma.PhysMemLaws W}.

(** The controller waits for a command and has no error to report. *)
Definition idle (s : t) (g : bool) : Prop :=
  inv s g /\ cmd_phase s = CMD_PHASE_COMMAND /\ cmd_remaining s = 0 /\ has (dor s) DOR_NRESET = true /\ has (dor s) DOR_DMAEN = true /\ clean s.

Definition opcode (wr : bool) (b : Z) : Prop := if wr then b .& 0x3f = CMD_WRITE else b .& 0x1f = CMD_READ.

Lemma opcode_table (wr : bool) b : byte b -> opcode wr b -> cmd_handler (cmd_table b) = (if wr then H_write else H_read) /\ argc (cmd_table b) = 8
  /\ flags b = (if has b 0x80 then CMD_FLAG_MULTI_TRACK else 0).
Proof.
  intros Hb Ho. pose proof (cmd_lookup b Hb) as Hf. unfold flags. revert Hf. generalize (cmd_table b). intros desc.
  unfold CMD_DESCRIPTOR. cbn [find]. unfold accepts at 1. cbn [mask code]. destruct wr; unfold opcode in Ho.
  - assert (b .& 0x1f = CMD_WRITE) as H1. { replace (b .& 0x1f) with ((b .& 0x3f) .& 0x1f) by (by rewrite <- Z.land_assoc). by rewrite Ho. }
    rewrite H1. change (CMD_WRITE =? CMD_READ) with false. cbv beta iota. unfold accepts at 1. cbn [mask code]. rewrite Ho. change (CMD_WRITE =? CMD_WRITE) with true. cbv beta iota. intros [= <-]. done.
  - rewrite Ho. change (CMD_READ =? CMD_READ) with true. cbv beta iota. intros [= <-]. done.
Qed.

(** The transfer a READ or WRITE command starts. *)
Lemma command_transfer (s : sys W) g (wr : bool) b unit_ track head sect last gap dtl d image :
  idle (fdc s) g -> byte b -> opcode wr b -> Forall byte (rw_args unit_ track head sect last gap dtl) ->
  d = drive (unit_ .& 1) (fdc s) -> FloppyDrive.buffer d = Some image -> seeks d track head sect -> wr && FloppyDrive.read_only d = false ->
  0 < transfer_length (has b 0x80) sect last ->
  exists f, send (b :: rw_args unit_ track head sect last gap dtl) s =
      (if wr then dma_write image (FloppyDrive.chs2lba d track head sect * SECTOR_SIZE) (transfer_length (has b 0x80) sect last)
       else dma_read image (FloppyDrive.chs2lba d track head sect * SECTOR_SIZE) (transfer_length (has b 0x80) sect last)) (mk_sys f (dma s) (mem s))
    /\ executing f g /\ clean f /\ Forall2 same_disk (drives (fdc s)) (drives f) /\ curr_drive_no f = unit_ .& 1.
Proof.
  intros (Hi & Hp & Hr & Hn & Hd & Hc) Hb Ho Hargs Ed Eb Ha Hro Hlen. destruct (opcode_table wr b Hb Ho) as (T1 & T2 & T3).
  destruct (command_sent b (rw_args unit_ track head sect last gap dtl) s g Hi Hp Hr Hn Hb Hargs) as (f & U & E & _ & F & S); [by rewrite T2|].
  pose proof U as (_ & U2 & U3 & _ & _ & _ & _ & _ & _ & _ & _ & U12 & _).
  assert (has (cmd_flags f) CMD_FLAG_MULTI_TRACK = has b 0x80) as Hm by (rewrite F, T3; by destruct (has b 0x80)).
  destruct (start_transfer (s <| fdc := f |>) g wr unit_ track head sect last gap dtl d image) as (f' & S' & E' & D' & N' & C' & _); try done.
  - rewrite Ed. unfold drive. cbn [fdc]. cbn. by rewrite U12.
  - cbn -[has]. by rewrite U2.
  - cbn -[has]. rewrite Hm. exact Hlen.
  - cbn -[has] in S'. rewrite Hm in S'. exists f'. split; [|split; [done|]; split; [unfold clean; rewrite C'; cbn -[has]; by rewrite U3|]; split; [by rewrite <- U12|done]].
    rewrite S, T1. destruct wr; exact S'.
Qed.

Lemma same_disk_drive i ds ds' d' : Forall2 same_disk ds ds' -> ds' !! i = Some d' -> exists d, ds !! i = Some d /\ same_disk d d'.
Proof. intros H Hd. destruct (Forall2_lookup_r _ _ _ _ _ H Hd) as (d & Hd' & Hs). by exists d. Qed.

Lemma offset_nonneg d track head sect : addressed d track head sect -> 0 <= ((track * FloppyDrive.max_head d + head) * FloppyDrive.max_sect d + (sect - 1)) * 512.
Proof.
  intros (H1 & H2 & H3). pose proof (Z.mul_nonneg_nonneg track (FloppyDrive.max_head d) ltac:(lia) ltac:(lia)) as H.
  pose proof (Z.mul_nonneg_nonneg (track * FloppyDrive.max_head d + head) (FloppyDrive.max_sect d) ltac:(lia) ltac:(lia)). lia.
Qed.

Lemma read_sectors (s : sys W) (g : bool) (b unit_ track head sect last gap dtl : Z) (d : FloppyDrive.t) (image : Buffer.Sync.t) (w' : W) :
  idle (fdc s) g -> byte b -> b .& 0x1f = CMD_READ -> Forall byte (rw_args unit_ track head sect last gap dtl) ->
  d = drive (unit_ .& 1) (fdc s) -> FloppyDrive.buffer d = Some image -> addressed d track head sect -> 0 < transfer_length (has b 0x80) sect last ->
  let off := ((track * FloppyDrive.max_head d + head) * FloppyDrive.max_sect d + (sect - 1)) * 512 in
  let n := Dma.count_get_8bit (dma s) FDC_DMA_CHANNEL in
  let addr := Dma.address_get_8bit (dma s) FDC_DMA_CHANNEL in
  off + n <= Buffer.Sync.byteLength image -> addr + n <= 2 ^ 32 -> Dma.validate_physical_range (mem s) addr n = true ->
  Dma.write_blob_physical (mem s) (slice (Buffer.Sync.buffer image) off (off + n)) addr = Some w' ->
  let '(c, s', _) := send (b :: rw_args unit_ track head sect last gap dtl) s in
  c = Returned /\ mem s' = w' /\ ended (drives (fdc s)) false (fdc s').
Proof.
  intros Hid Hb Ho Hargs Ed Eb Ha Hlen off n addr Hn Hm Hv Hw.
  destruct (command_transfer s g false b unit_ track head sect last gap dtl d image) as (f & S & E & C & D & _); try done; [by apply (seek_found d image)|].
  replace (FloppyDrive.chs2lba d track head sect * SECTOR_SIZE) with off in S by (unfold off, FloppyDrive.chs2lba, SECTOR_SIZE; lia).
  assert (0 <= off) as H0 by (by apply (offset_nonneg d)).
  destruct (dma_read_ok (mk_sys f (dma s) (mem s)) g image off (transfer_length (has b 0x80) sect last) w') as (s' & R & M & En); try done.
  rewrite S, R. split; [done|]. split; [done|]. destruct En as (? & ? & ? & ? & E5 & ?). unfold ended. do 4 (split; [done|]). split; [|done].
  cbn in E5. etrans; [exact D|exact E5].
Qed.

(** C25: READ puts sectors where DMA points.  The controller is out of reset, waits for a command, uses DMA (the enable bit of
    the digital output register is set and the last SPECIFY did not switch it off) and has no error of an earlier command
    in its status register 0 (after a reset, SENSE INTERRUPT STATUS was issued).  The command gives the sector size
    512, an existing sector of the disk in the drive, and a last sector that is not before it; channel 2 of the DMA
    controller is set up for a range of guest memory that exists and does not go beyond the end of the disk.  After the
    nine bytes of the command have been written, that range holds the bytes of the disk from that sector on, as many
    as the channel counts (not as many as the command's last sector says); nothing else of memory changed than what
    the write of those bytes changes; disks are as before; and the result is there, with the interrupt, saying
    that all went well. *)
Theorem floppy_read (s : sys W) (g : bool) (b unit_ track head sect last gap dtl : Z) (d : FloppyDrive.t) (image : Buffer.Sync.t) (w' : W) :
  idle (fdc s) g -> byte b -> b .& 0x1f = CMD_READ -> Forall byte (rw_args unit_ track head sect last gap dtl) ->
  d = drive (unit_ .& 1) (fdc s) -> FloppyDrive.buffer d = Some image -> addressed d track head sect -> 0 < transfer_length (has b 0x80) sect last ->
  let off := ((track * FloppyDrive.max_head d + head) * FloppyDrive.max_sect d + (sect - 1)) * 512 in
  let n := Dma.count_get_8bit (dma s) FDC_DMA_CHANNEL in
  let addr := Dma.address_get_8bit (dma s) FDC_DMA_CHANNEL in
  off + n <= Buffer.Sync.byteLength image -> addr + n <= 2 ^ 32 -> Dma.validate_physical_range (mem s) addr n = true ->
  Dma.write_blob_physical (mem s) (slice (Buffer.Sync.buffer image) off (off + n)) addr = Some w' ->
  let '(c, s', _) := send (b :: rw_args unit_ track head sect last gap dtl) s in
  c = Returned /\ mem s' = w' /\ ended (drives (fdc s)) false (fdc s').
Proof. apply read_sectors. Qed.

Lemma drive_lookup u s g : idle s g -> drives s !! Z.to_nat (u .& 1) = Some (drive (u .& 1) s).
Proof.
  intros [[[] _] _]. pose proof (land_nonneg_r u 1 ltac:(lia)). unfold drive. destruct (lookup_lt_is_Some_2 (drives s) (Z.to_nat (u .& 1))) as [x ->]; [lia|done].
Qed.

Lemma with_image_same i image ds ds' : Forall2 same_disk ds ds' -> Forall2 same_disk (with_image i image ds) (with_image i image ds').
Proof. intros H. unfold with_image. apply Forall2_alter; [done|]. intros d d' _ _ (H1 & H2 & H3 & H4 & H5). by repeat split. Qed.

(** WRITE puts what DMA points at on the disk. *)
Lemma floppy_write (s : sys W) g b unit_ track head sect last gap dtl d image data :
  idle (fdc s) g -> Dma.wf (dma s) -> byte b -> b .& 0x3f = CMD_WRITE -> Forall byte (rw_args unit_ track head sect last gap dtl) ->
  d = drive (unit_ .& 1) (fdc s) -> FloppyDrive.buffer d = Some image -> addressed d track head sect -> FloppyDrive.read_only d = false ->
  let len := transfer_length (has b 0x80) sect last in
  let off := ((track * FloppyDrive.max_head d + head) * FloppyDrive.max_sect d + (sect - 1)) * 512 in
  let n := Dma.round_bytes (dma s) len FDC_DMA_CHANNEL in
  let addr := Dma.address_get_8bit (dma s) FDC_DMA_CHANNEL in
  0 < len -> off + n <= Buffer.Sync.byteLength image -> addr + n <= 2 ^ 32 -> Dma.autoinit (dma s) FDC_DMA_CHANNEL = false ->
  Dma.read_blob_physical (mem s) addr n = Some data ->
  let '(c, s', _) := send (b :: rw_args unit_ track head sect last gap dtl) s in
  c = Returned /\ mem s' = mem s /\ ended (with_image (unit_ .& 1) (Buffer.Sync.set off data image) (drives (fdc s))) false (fdc s').
Proof.
  intros Hid Hwd Hb Ho Hargs Ed Eb Ha Hro len off n addr Hlen Hn Hm Hauto Hd.
  destruct (command_transfer s g true b unit_ track head sect last gap dtl d image) as (f & S & E & C & D & N); try done; [by apply (seek_found d image)|].
  replace (FloppyDrive.chs2lba d track head sect * SECTOR_SIZE) with off in S by (unfold off, FloppyDrive.chs2lba, SECTOR_SIZE; lia).
  destruct (dma_write_ok (mk_sys f (dma s) (mem s)) g image off len data) as (s' & R & M & En); try done; [by apply (offset_nonneg d)|unfold len in *; lia|].
  fold len in S. rewrite S, R. split; [done|]. split; [done|]. destruct En as (? & ? & ? & ? & E5 & ?). unfold ended. do 4 (split; [done|]). split; [|done].
  cbn in E5. rewrite N in E5. etrans; [|exact E5]. by apply with_image_same.
Qed.

Lemma round_bytes_count (m : Dma.t) len n :
  arr_get (Dma.channel_count m) FDC_DMA_CHANNEL = n - 1 -> 0 < n < 0x10000 -> n <= len -> Dma.round_bytes m len FDC_DMA_CHANNEL = n.
Proof.
  intros E Hn Hl. unfold Dma.round_bytes. rewrite E. change (Dma.unit_size FDC_DMA_CHANNEL) with 1. replace (n - 1 + 1) with n by lia.
  rewrite Z.mod_small, Z.mul_1_r by lia. by rewrite (proj2 (Z.ltb_ge len n)) by lia.
Qed.

End Disk.

(** ** Protocol, snapshots, and a sector that does not exist *)

(** C21: Commands are taken and answered a byte at a time.  In a machine state that satisfies the invariant and waits for a command: the
    first byte selects the first entry of the command table whose mask and code fit (every byte selects one), and writing
    it and as many arguments as that entry asks for (the controller being out of reset) runs its handler on exactly these
    arguments, with the drives, memory, DMA and the registers that [undisturbed] lists as they were; and from any state with a result, reading it byte by byte gives the
    bytes left of it in order, after which the controller waits for a command again, with the interrupt released. *)
Theorem floppy_protocol {W} {HM : Dma.PhysMem W} (s : sys W) (g : bool) : inv (fdc s) g ->
  (cmd_phase (fdc s) = CMD_PHASE_COMMAND -> cmd_remaining (fdc s) = 0 -> has (dor (fdc s)) DOR_NRESET = true ->
   forall b args, byte b -> Forall byte args ->
   exists desc, find (accepts b) CMD_DESCRIPTOR = Some desc
     /\ (Z.of_nat (length args) = argc desc ->
         exists f, undisturbed (fdc s) f /\ executing f g /\ cmd_code f = b
           /\ send (b :: args) s = call_handler (cmd_handler desc) args (mk_sys f (dma s) (mem s))))
  /\ (cmd_phase (fdc s) = CMD_PHASE_RESULT ->
      let n := response_length (fdc s) - response_cursor (fdc s) in
      let f := exec (receive (Z.to_nat n)) (fdc s) in
      res (receive (Z.to_nat n)) (fdc s) = slice (response_data (fdc s)) (response_cursor (fdc s)) (response_length (fdc s))
      /\ cmd_phase f = CMD_PHASE_COMMAND /\ cmd_remaining f = 0 /\ has (sra f) SRA_INTPEND = false /\ drives f = drives (fdc s)).
Proof.
  intros Hi. split.
  - intros Hp Hr Hn b args Hb Hargs. exists (cmd_table b). split; [by apply cmd_lookup|]. intros Hl.
    destruct (command_sent b args s g Hi Hp Hr Hn Hb Hargs Hl) as (f & U & E & C & _ & S). exists f. by split_and!.
  - intros Hp n f. pose proof Hi as [_ P]. unfold phase_ok in P. rewrite Hp in P. destruct P as (_ & _ & _ & ? & _).
    destruct (receive_all (Z.to_nat n) (fdc s) g Hi Hp) as (R1 & R2 & R3 & _ & R5 & R6 & _); [unfold n; lia|]. by split_and!.
Qed.

Lemma sync_set_state b b' : Buffer.Sync.set_state (Buffer.Sync.get_state b) b' = b.
Proof. by destruct b. Qed.

Lemma drive_state d d' : FloppyDrive.set_state (FloppyDrive.get_state d) d' = d.
Proof. destruct d as [? ? ? ? ? ? ? ? ? ? b]. unfold FloppyDrive.set_state, FloppyDrive.get_state. cbn. f_equal. destruct b as [b|]; cbn; [|done]. f_equal. apply sync_set_state. Qed.

(** A snapshot restores the controller and its disks, whatever the other one was doing. *)
Theorem floppy_state s s' g g' : inv s g -> inv s' g' -> set_state (get_state s) s' = s.
Proof.
  intros [[] _] [H' _]. destruct H' as [_ _ _ _ _ _ _ _ _ _ [C' _] [R' _] [D' _]]. destruct s as [? ? ? ? ? ? ? ? ? cb ? ? rd ? ? ? ? ? ? ? ? ? ? ? ? ds]. cbn in *.
  destruct r_cmd0 as [Hc _], r_response0 as [Hr _], r_drives0 as [Hd _]. unfold set_state, get_state. cbn.
  assert (forall l l' : list Z, length l = length l' -> set_bytes l' l 0 = l) as Hset.
  { intros l l' Hl. unfold set_bytes. cbn. rewrite drop_ge by lia. by rewrite take_0, app_nil_r. }
  rewrite !Hset by congruence. f_equal. destruct ds as [|d0 [|d1 [|]]]; try done. destruct (drives s') as [|e0 [|e1 [|]]]; try done. cbn. by rewrite !drive_state.
Qed.

(** A READ of sector 0 of the first track, which a disk does not have, makes the emulator raise an exception: the position before
    the first sector is not refused by [seek], and the DMA controller checks only the end of the range. *)
Theorem sector_zero {W} {HM : Dma.PhysMem W} (s : sys W) (g : bool) (b last gap dtl : Z) (image : Buffer.Sync.t) :
  idle (fdc s) g -> byte b -> b .& 0x1f = CMD_READ -> Forall byte [last; gap; dtl] ->
  FloppyDrive.buffer (drive 0 (fdc s)) = Some image -> 0 <= FloppyDrive.max_track (drive 0 (fdc s)) -> 0 <= FloppyDrive.max_sect (drive 0 (fdc s)) ->
  let n := Dma.count_get_8bit (dma s) FDC_DMA_CHANNEL in
  let addr := Dma.address_get_8bit (dma s) FDC_DMA_CHANNEL in
  n <= Buffer.Sync.byteLength image -> addr + n <= 2 ^ 32 -> Dma.validate_physical_range (mem s) addr n = true ->
  res (send (b :: rw_args 0 0 0 0 last gap dtl)) s = Threw.
Proof.
  intros Hid Hb Ho Hargs Eb Ht Hs n addr Hn Ha Hv. rewrite !Forall_cons in Hargs. destruct Hargs as (Hl & Hg & Hd & _). set (d := drive 0 (fdc s)) in *.
  destruct (command_transfer s g false b 0 0 0 0 last gap dtl d image) as (f & S & _); try done.
  - unfold rw_args. rewrite !Forall_cons. by split_and!.
  - apply (seek_accepts d image); auto.
  - unfold transfer_length, SECTOR_SIZE. unfold byte in Hl. destruct (has b 0x80); lia.
  - unfold res. rewrite S. replace (FloppyDrive.chs2lba d 0 0 0 * SECTOR_SIZE) with (-512) by (unfold FloppyDrive.chs2lba, SECTOR_SIZE; lia). unfold dma_read. rewrite bind_get. cbn [dma mem].
    destruct (do_read_once (mem s) (Buffer.Sync.byteLength image) (-512) (transfer_length (has b 0x80) 0 last) FDC_DMA_CHANNEL (dma s)) as [Hr _]; [unfold n in *; lia|done|done|].
    match type of Hr with _ = (?p, ?d', _) => rewrite (bind_quiet _ _ _ p (mk_sys f d' (mem s))) by (unfold on_dma; cbn [dma]; by rewrite Hr) end. done.
Qed.

(** *** Examples *)

#[local] Existing Instance Dma.flat_mem.
#[local] Existing Instance Dma.flat_mem_laws.

(** A drive with a disk of 1.44 MB. *)
Definition demo_size (image : Buffer.Sync.t) : Prop := Buffer.Sync.byteLength image = 1474560 /\ Z.of_nat (length (Buffer.Sync.buffer image)) = 1474560.
Definition demo_drive (image : Buffer.Sync.t) : FloppyDrive.t := FloppyDrive.mk 4 80 2 18 0 0 1 0 false true (Some image).

Lemma demo_disk : exists image, demo_size image.
Proof. exists (Buffer.Sync.mk (replicate (Z.to_nat 1474560) 7) 1474560). split; [done|]. cbn [Buffer.Sync.buffer]. rewrite length_replicate. by apply Z2Nat.id. Qed.

(** The DMA controller is to move 512 bytes. *)
Definition demo_dma : Dma.t := exec (Dma.program 0x05 0xFF 0x01) Dma.create.
Definition demo_sys (d : FloppyDrive.t) (m : list Z) : sys (list Z) := mk_sys (create d no_drive) demo_dma m.

Lemma demo_drive_wf image : demo_size image -> drive_wf (demo_drive image).
Proof.
  intros [H1 H2]. split; try done. cbn [demo_drive FloppyDrive.buffer]. exists (FloppyDrive.mk_format FloppyDrive.CMOS_FDD_TYPE_1440 18 80 2).
  split; [apply list_elem_of_In; unfold FloppyDrive.DISK_FORMATS; cbn [In]; auto|]. do 3 (split; [done|]). rewrite H1, H2. done.
Qed.

Lemma demo_idle d m : drive_wf d -> idle (fdc (demo_sys d m)) false.
Proof.
  intros Hd. split; [apply create_inv; [done|]; apply (create_drive_wf (Some 0) false None 0); done|]. by split_and!.
Qed.

Lemma demo_dma_wf : Dma.wf demo_dma.
Proof. unfold demo_dma, Dma.program. repeat apply Dma.port_write_preserves_wf. apply Dma.dma_create_wf. Qed.


(** The version of the controller is asked for. *)
Lemma floppy_protocol_witness :
  exists f, send [0x10] (demo_sys no_drive (replicate 16 0)) = call_handler H_version [] (mk_sys f demo_dma (replicate 16 0)) /\ cmd_code f = 0x10.
Proof.
  destruct (demo_idle no_drive (replicate 16 0) (create_drive_wf (Some 0) false None 0 I)) as (Hi & Hp & Hr & Hn & _).
  destruct (floppy_protocol (demo_sys no_drive (replicate 16 0)) false Hi) as [H _].
  destruct (H Hp Hr Hn 0x10 []) as (desc & Hd & Hs); [done|constructor|]. assert (desc = mk_desc CMD_VERSION 0xff 0 H_version) as -> by (vm_compute in Hd; by injection Hd as <-).
  destruct (Hs eq_refl) as (f & _ & _ & Hc & E). exists f. split; [exact E|exact Hc].
Defined.

Lemma demo_addressed image : addressed (demo_drive image) 1 0 1.
Proof. unfold addressed. cbn. lia. Qed.

Lemma demo_bytes image : demo_size image -> length (slice (Buffer.Sync.buffer image) 18432 (18432 + 512)) = 512%nat.
Proof. intros [_ Hl]. unfold slice. rewrite length_take, length_drop. lia. Qed.

Lemma flat_write data : length data = 512%nat -> Dma.write_blob_physical (replicate 1024 0) data 0 = Some (data ++ replicate 512 0).
Proof. intros Hl. cbn [Dma.write_blob_physical Dma.flat_mem]. rewrite Hl. reflexivity. Qed.

(** The first sector of the second track is read to the beginning of memory. *)
Lemma floppy_read_witness : exists image w',
  let '(c, s', _) := send (0x46 :: rw_args 0 1 0 1 1 0 0) (demo_sys (demo_drive image) (replicate 1024 0)) in c = Returned /\ mem s' = w' /\ length w' = 1024%nat.
Proof.
  destruct demo_disk as [image Hi]. exists image. set (data := slice (Buffer.Sync.buffer image) 18432 (18432 + 512)). pose proof (demo_bytes image Hi) as Hl. fold data in Hl.
  exists (data ++ replicate 512 0).
  pose proof (floppy_read (demo_sys (demo_drive image) (replicate 1024 0)) false 0x46 0 1 0 1 1 0 0 (demo_drive image) image (data ++ replicate 512 0)
    (demo_idle _ _ (demo_drive_wf image Hi))) as H.
  destruct (send _ _) as [[c s'] es]. destruct H as (H1 & H2 & _).
  - done.
  - reflexivity.
  - repeat (constructor; [done|]). constructor.
  - reflexivity.
  - reflexivity.
  - apply demo_addressed.
  - reflexivity.
  - rewrite (proj1 Hi). vm_compute. discriminate.
  - vm_compute. discriminate.
  - vm_compute. reflexivity.
  - apply (flat_write _ Hl).
  - split; [done|]. split; [done|]. rewrite length_app, Hl. reflexivity.
Defined.

Lemma same_disk_sym d d' : same_disk d d' -> same_disk d' d.
Proof. unfold same_disk. intuition congruence. Qed.


End FloppyTrip.
