(* ===== verification/Platform.v ===== *)
(** * src/platform.js: the description of the emulated PC

    The settings of a machine are validated and turned into one record, from
    which the ACPI tables, the firmware's inputs and the devices' fixed resources
    are derived.  [settings] is an object whose fields can hold anything, so its
    values are JavaScript's; a [throw] is the left side of a sum, with one
    constructor per message.  The three assertions at the end of [check_platform],
    which only debug builds have, are left out: two of them are part of what
    [valid] says of every result, the other one is a limit on [memory_size]. *)

From Stdlib Require Import QArith Qround Sorted.
From S2P Require Import Prelude Acpi.

Set Default Goal Selector "!".
Open Scope Z_scope.

Module Platform.

(** ** Constants *)

Definition MAX_CORES : Z := 8.
Definition LAPIC_ADDRESS : Z := 0xFEE00000.
Definition IOAPIC_ADDRESS : Z := 0xFEC00000.
Definition IOAPIC_ID : Z := 0.
Definition PCI_MMIO_END : Z := 0xFEBFFFFF.
Definition ACPI_PM_PCI_ID : Z := 0x07 .<< 3.
Definition Q35_ECAM_BASE : Z := 0xB0000000.
Definition Q35_ECAM_SIZE : Z := 0x10000000.
Definition Q35_PCI_MMIO_START : Z := Q35_ECAM_BASE + Q35_ECAM_SIZE.
Definition ICH9_RCBA_ADDRESS : Z := 0xFED1C000.
Definition ICH9_RCBA_SIZE : Z := 0x4000.
Definition ICH9_PM_LENGTH : Z := 0x80.
Definition ICH9_GPE0_OFFSET : Z := 0x20.
Definition ICH9_GPE0_LENGTH : Z := 0x10.
Definition ICH9_ACPI_ENABLE : Z := 0x02.
Definition ICH9_ACPI_DISABLE : Z := 0x03.
Definition ICH9_LPC_PCI_ID : Z := 0x1F .<< 3.
Definition ICH9_AHCI_PCI_ID : Z := (0x1F .<< 3) .| 2.
Definition Q35_CHIPSET_SLOTS : list Z := [0x00; 0x1F].
Definition Q35_ROOT_PORT_SLOT : Z := 0x1C.
Definition Q35_ROOT_PORTS_MAX : Z := 6.
Definition ACPI_PM_LENGTH : Z := 0x40.
Definition ACPI_PM_BASE_DEFAULT : Z := 0x600.
Definition ACPI_GPE0_BASE : Z := 0xAFE0.
Definition ACPI_GPE0_LENGTH : Z := 4.
Definition ACPI_SMI_CMD_PORT : Z := 0xB2.
Definition ACPI_ENABLE : Z := 0xF1.
Definition ACPI_DISABLE : Z := 0xF0.
Definition ACPI_SCI_IRQ : Z := 9.
Definition RESET_PORT : Z := 0xCF9.
Definition RESET_VALUE : Z := 0x06.
Definition FW_CFG_PORT : Z := 0x510.
Definition PCI_LINK_IRQS : list Z := [10; 11].

(** The devices that may sit behind a root port. *)
Definition ROOT_PORT_DEVICES : list string :=
  ["net"; "virtio_9p"; "virtio_console"; "virtio_balloon"]%string.
Definition MACHINE_TYPES : list string := ["i440fx"; "q35"]%string.

(** ** Settings *)

(** The values a field of the settings can hold; an object or a function counts
    as [Object]. *)
Inductive value :=
| Undefined | Null | Boolean (b : bool) | Number (q : Q) | NaN | Infinite (negative : bool)
| Text (s : string) | Object.

(** [!!v]. *)
Definition truthy (v : value) : bool :=
  match v with
  | Undefined | Null | NaN => false
  | Boolean b => b
  | Number q => negb (Qeq_bool q 0)
  | Text s => negb (s =? "")%string
  | Infinite _ | Object => true
  end.

(** [Number.isInteger(v)], with the integer. *)
Definition is_integer (v : value) : option Z :=
  match v with
  | Number q => if Qeq_bool q (inject_Z (Qfloor q)) then Some (Qfloor q) else None
  | _ => None
  end.

Record settings := mk_settings {
  field : string -> value;
  (** the entries of [settings.root_port_devices], in order, with the [port] of each *)
  entries : list (string * value)
}.

Inductive error :=
| EMachineType | EAcpiRequired | ECores | ECoresNeedAcpi | ERamInEcam | ERootPorts | ERootPortsNeedQ35
| EUnknownDevice (name : string) | EBadRootPort (name : string) | EPortTaken (name : string)
| EHpetNeedsQ35 | ESmbusNeedsQ35 | EConflict (a b : string).

Definition throw_if {A} (b : bool) (e : error) (k : error + A) : error + A := if b then inl e else k.
Definition bind_sum {A B} (m : error + A) (k : A -> error + B) : error + B :=
  match m with inl e => inl e | inr a => k a end.

(** ** The platform record *)

Record isa_port := mk_isa_port { index : Z; port : Z; irq : Z }.
Record window := mk_window { w_base : Z; w_size : Z }.
Record pm_block := mk_pm {
  pm_length : Z; gpe0_offset : Z; gpe0_base : Z; gpe0_length : Z; acpi_enable : Z; acpi_disable : Z
}.

Record t := mk {
  cores : Z;
  package_shift : Z;
  smp32 : bool;
  apic_ids : list Z;
  memory_size : Z;
  pci_mmio_start : Z;
  uarts : list isa_port;
  parallel_ports : list isa_port;
  qemu_compatible : bool;
  machine_q35 : bool;
  acpi : bool;
  ecam : option window;
  pm : pm_block;
  sleep_states : list Acpi.sleep_state;
  reserved_pci_slots : list Z;
  pcie_root_ports : Z;
  root_port_devices : list (string * Z);
  hpet : bool;
  smbus : bool
}.

(** The fixed legacy devices: port, interrupt, and the setting that enables an
    optional one. *)
Definition UARTS : list (Z * Z * option string) :=
  [ (0x3F8, 4, None); (0x2F8, 3, Some "uart1"); (0x3E8, 4, Some "uart2"); (0x2E8, 3, Some "uart3") ]%string.
Definition PARALLEL_PORTS : list (Z * Z * option string) :=
  [ (0x378, 7, None); (0x278, 5, Some "parallel1") ]%string.

Definition machine_type (s : settings) : error + bool :=
  match field s "machine_type" with
  | Undefined => inr false
  | Text "i440fx" => inr false
  | Text "q35" => inr true
  | _ => inl EMachineType
  end%string.

Definition machine_acpi (s : settings) : error + bool :=
  bind_sum (machine_type s) (fun q35 =>
    if q35 then
      match field s "acpi" with Boolean false => inl EAcpiRequired | _ => inr true end
    else inr (truthy (field s "acpi"))).

Definition enabled (s : settings) (when : option string) : bool :=
  match when with None => true | Some name => truthy (field s name) end.
Definition indexed (s : settings) (l : list (Z * Z * option string)) : list isa_port :=
  imap (fun i d => (enabled s d.2, mk_isa_port (Z.of_nat i) d.1.1 d.1.2)) l
    ≫= fun p => if p.1 : bool then [p.2] else [].

(** The loop over the entries of [root_port_devices]. *)
Fixpoint place (root_ports : Z) (l : list (string * value)) (taken : list Z) (placed : list (string * Z)) : error + list (string * Z) :=
  match l with
  | [] => inr placed
  | (name, v) :: l =>
      if negb (existsb (String.eqb name) ROOT_PORT_DEVICES) then inl (EUnknownDevice name) else
      match is_integer v with
      | Some port =>
          if (0 <=? port) && (port <? root_ports) then
            if existsb (Z.eqb port) taken then inl (EPortTaken name)
            else place root_ports l (port :: taken) (placed ++ [(name, port)])
          else inl (EBadRootPort name)
      | None => inl (EBadRootPort name)
      end
  end.

(** ** Port ranges *)

Record range := mk_range { r_name : string; start : Z; r_length : Z }.

Definition gpe0_block (p : t) (pm_base : Z) : window :=
  mk_window (if 0 <=? gpe0_offset (pm p) then pm_base + gpe0_offset (pm p) else gpe0_base (pm p)) (gpe0_length (pm p)).

(** The index of a port in its name. *)
Definition digit (i : Z) : string := String (Ascii.ascii_of_nat (48 + Z.to_nat i)) "".

Definition FIXED_RANGES : list range :=
  [ mk_range "dma1" 0x00 0x10; mk_range "pic1" 0x20 2; mk_range "pit" 0x40 4; mk_range "kbd-data" 0x60 1;
    mk_range "speaker" 0x61 1; mk_range "kbd-cmd" 0x64 1; mk_range "rtc" 0x70 2; mk_range "dma-page" 0x80 0x10;
    mk_range "port92" 0x92 1; mk_range "pic2" 0xA0 2; mk_range "smi-cmd" ACPI_SMI_CMD_PORT 2; mk_range "dma2" 0xC0 0x20;
    mk_range "fpu" 0xF0 0x10; mk_range "sb16" 0x220 0x10; mk_range "fdc" 0x3F2 4; mk_range "fdc-dir" 0x3F7 1;
    mk_range "elcr" 0x4D0 2; mk_range "fw-cfg" FW_CFG_PORT 2; mk_range "pci-config" 0xCF8 8 ].

Definition platform_io_ranges (p : t) (pm_base : option Z) : list range :=
  FIXED_RANGES
  ++ (if gpe0_offset (pm p) <? 0 then [mk_range "gpe0" (gpe0_base (pm p)) (gpe0_length (pm p))] else [])
  ++ map (fun u => mk_range ("uart" ++ digit (index u))%string (port u) 8) (uarts p)
  ++ map (fun u => mk_range ("parallel" ++ digit (index u))%string (port u) 8) (parallel_ports p)
  ++ match pm_base with Some base => [mk_range "acpi-pm" base (pm_length (pm p))] | None => [] end.

(** [Array.prototype.sort] with [a.start - b.start]: a stable sort. *)
Fixpoint insert_range (r : range) (l : list range) : list range :=
  match l with
  | [] => [r]
  | r' :: l' => if start r <=? start r' then r :: l else r' :: insert_range r l'
  end.
Definition sort_ranges (l : list range) : list range := foldr insert_range [] l.

Fixpoint check_adjacent (l : list range) : error + unit :=
  match l with
  | a :: (b :: _) as l' =>
      if start b <? start a + r_length a then inl (EConflict (r_name a) (r_name b)) else check_adjacent l'
  | _ => inr tt
  end.

Definition check_platform (p : t) (pm_base : option Z) : error + unit :=
  check_adjacent (sort_ranges (platform_io_ranges p pm_base)).

(** ** The constructor *)

(** [Math.ceil(Math.log2(cores))] for 1 to 8 cores. *)
Definition log2_ceil (n : Z) : Z := Z.log2_up n.

Definition create_platform (s : settings) (memory_size : Z) : error + t :=
  bind_sum (machine_type s) (fun q35 =>
  bind_sum (machine_acpi s) (fun acpi =>
  match match field s "cpu_cores" with Undefined => Some 1 | v => is_integer v end with
  | None => inl ECores
  | Some cores =>
      throw_if ((cores <? 1) || (MAX_CORES <? cores)) ECores (
      throw_if ((1 <? cores) && negb acpi) ECoresNeedAcpi (
      throw_if (q35 && (Q35_ECAM_BASE <? memory_size)) ERamInEcam (
      match match field s "pcie_root_ports" with Undefined => Some 0 | v => is_integer v end with
      | None => inl ERootPorts
      | Some root_ports =>
          throw_if (negb ((0 <=? root_ports) && (root_ports <=? Q35_ROOT_PORTS_MAX))) ERootPorts (
          throw_if (negb (root_ports =? 0) && negb q35) ERootPortsNeedQ35 (
          bind_sum (place root_ports (entries s) [] []) (fun root_port_devices =>
          let hpet := truthy (field s "hpet") in
          throw_if (hpet && negb q35) EHpetNeedsQ35 (
          let smbus := truthy (field s "smbus") in
          throw_if (smbus && negb q35) ESmbusNeedsQ35 (
          let pci_mmio_start :=
            if q35 then Q35_PCI_MMIO_START else Qceiling (memory_size # 0x10000000) * 0x10000000 in
          let platform := {|
            cores := cores;
            package_shift := log2_ceil cores;
            smp32 := negb (cores =? 1);
            apic_ids := seqZ 0 cores;
            memory_size := memory_size;
            pci_mmio_start := pci_mmio_start;
            uarts := indexed s UARTS;
            parallel_ports := indexed s PARALLEL_PORTS;
            qemu_compatible := truthy (field s "qemu_compatible");
            machine_q35 := q35;
            acpi := acpi;
            ecam := if q35 then Some (mk_window Q35_ECAM_BASE Q35_ECAM_SIZE) else None;
            pm := if q35 then mk_pm ICH9_PM_LENGTH ICH9_GPE0_OFFSET (-1) ICH9_GPE0_LENGTH ICH9_ACPI_ENABLE ICH9_ACPI_DISABLE
                  else mk_pm ACPI_PM_LENGTH (-1) ACPI_GPE0_BASE ACPI_GPE0_LENGTH ACPI_ENABLE ACPI_DISABLE;
            sleep_states := if q35 then Acpi.Q35_SLEEP_STATES else Acpi.ACPI_SLEEP_STATES;
            reserved_pci_slots :=
              if q35 then Q35_CHIPSET_SLOTS ++ (if root_ports =? 0 then [] else [Q35_ROOT_PORT_SLOT]) else [];
            pcie_root_ports := root_ports;
            root_port_devices := root_port_devices;
            hpet := hpet;
            smbus := smbus |} in
          bind_sum (check_platform platform None) (fun _ => inr platform))))))
      end)))
  end)).

(** Where a machine has its PCI functions (-1: it has none). *)
Record functions := mk_functions { f_ide : Z; f_acpi_pm : Z; f_vga : Z; f_ne2k : Z; f_lpc : Z; f_ahci : Z }.
Definition pci_functions (p : option t) : functions :=
  match p with
  | Some p =>
      if machine_q35 p then mk_functions (-1) (-1) (0x01 .<< 3) (0x02 .<< 3) ICH9_LPC_PCI_ID ICH9_AHCI_PCI_ID
      else if qemu_compatible p then mk_functions ((0x01 .<< 3) .| 1) ((0x01 .<< 3) .| 3) (0x02 .<< 3) (0x03 .<< 3) (-1) (-1)
      else mk_functions (0x1E .<< 3) ACPI_PM_PCI_ID (0x12 .<< 3) (0x05 .<< 3) (-1) (-1)
  | None => mk_functions (0x1E .<< 3) ACPI_PM_PCI_ID (0x12 .<< 3) (0x05 .<< 3) (-1) (-1)
  end.

(** ** What [check_platform] decides *)

Definition apart (a b : range) : Prop := start a + r_length a <= start b \/ start b + r_length b <= start a.

(** No port belongs to two entries of the list. *)
Definition disjoint_ranges (l : list range) : Prop := ForallOrdPairs apart l.

Lemma apart_sym a b : apart a b -> apart b a.
Proof. unfold apart. tauto. Qed.

Lemma disjoint_perm l l' : l ≡ₚ l' -> disjoint_ranges l -> disjoint_ranges l'.
Proof.
  unfold disjoint_ranges. induction 1 as [|x l l' Hp IH|x y l|l l' l'' _ IH1 _ IH2]; intros H; [done| | |by auto].
  - inversion_clear H as [|? ? Ha Hr]. constructor; [|auto]. rewrite <- Hp. done.
  - inversion_clear H as [|? ? Hy H']. inversion_clear H' as [|? ? Hx Hr]. inversion_clear Hy as [|? ? Hxy Hy'].
    constructor; [constructor; auto using apart_sym|]. by constructor.
Qed.

Lemma insert_range_perm r l : insert_range r l ≡ₚ r :: l.
Proof.
  induction l as [|x l IH]; [done|]. cbn. destruct (start r <=? start x); [done|]. rewrite IH. apply perm_swap.
Qed.

Lemma sort_ranges_perm l : sort_ranges l ≡ₚ l.
Proof. induction l as [|r l IH]; [done|]. cbn. by rewrite insert_range_perm, IH. Qed.

Definition starts_before (a b : range) : Prop := start a <= start b.

Lemma insert_range_sorted r l : StronglySorted starts_before l -> StronglySorted starts_before (insert_range r l).
Proof.
  induction 1 as [|x l Hl IH Hx]; cbn; [repeat constructor|]. unfold starts_before in *. destruct (Z.leb_spec (start r) (start x)).
  - repeat (constructor; try done). eapply Forall_impl; [exact Hx|]. cbn. lia.
  - constructor; [done|]. rewrite insert_range_perm. constructor; [lia|done].
Qed.

Lemma sort_ranges_sorted l : StronglySorted starts_before (sort_ranges l).
Proof. induction l; cbn; [constructor|]. by apply insert_range_sorted. Qed.

(** Looking at neighbours is enough once the ranges are in order. *)
Lemma check_adjacent_spec l :
  StronglySorted starts_before l -> Forall (fun r => 0 < r_length r) l -> check_adjacent l = inr tt <-> disjoint_ranges l.
Proof.
  induction 1 as [|a l Hl IH Ha]; intros Hpos; [split; [constructor|done]|].
  inversion_clear Hpos as [|? ? Hla Hpos']. destruct l as [|b l]; [split; [repeat constructor|done]|].
  cbn [check_adjacent]. specialize (IH Hpos'). apply Forall_cons in Ha as [Hab Ha]. apply Forall_cons in Hpos' as [Hlb Hpos'].
  unfold starts_before in *. destruct (Z.ltb_spec (start b) (start a + r_length a)).
  - split; [done|]. intros Hd. inversion_clear Hd as [|? ? Hx _]. apply Forall_cons in Hx as [Hx _]. unfold apart in Hx. lia.
  - rewrite IH. split; [|by inversion_clear 1]. intros Hd. constructor; [|done]. constructor; [left; lia|].
    apply StronglySorted_inv in Hl as [_ Hbl]. eapply Forall_impl; [exact Hbl|]. cbn. left. lia.
Qed.

Lemma ranges_nonempty p pm_base :
  0 < pm_length (pm p) -> 0 < gpe0_length (pm p) -> Forall (fun r => 0 < r_length r) (platform_io_ranges p pm_base).
Proof.
  intros Hl Hg. unfold platform_io_ranges. rewrite !Forall_app, !Forall_map. repeat split.
  - by repeat constructor.
  - destruct (_ <? 0); by repeat constructor.
  - apply Forall_forall. done.
  - apply Forall_forall. done.
  - destruct pm_base; by repeat constructor.
Qed.

Lemma check_platform_disjoint p pm_base :
  0 < pm_length (pm p) -> 0 < gpe0_length (pm p) ->
  check_platform p pm_base = inr tt <-> disjoint_ranges (platform_io_ranges p pm_base).
Proof.
  intros Hl Hg. unfold check_platform. rewrite check_adjacent_spec; [|apply sort_ranges_sorted|].
  - split; apply disjoint_perm; [|symmetry]; apply sort_ranges_perm.
  - rewrite sort_ranges_perm. by apply ranges_nonempty.
Qed.

(** ** What [create_platform] promises *)

(** Root-port devices have ports of their own, among those that exist. *)
Definition placed_ok (root_ports : Z) (placed : list (string * Z)) : Prop :=
  NoDup placed.*2 /\ Forall (fun e => e.1 ∈ ROOT_PORT_DEVICES /\ 0 <= e.2 < root_ports) placed.

(** What every other component may rely on in a platform. *)
Record valid (p : t) : Prop := {
  valid_cores : 1 <= cores p <= MAX_CORES /\ apic_ids p = seqZ 0 (cores p);
  valid_acpi : 1 < cores p \/ machine_q35 p = true -> acpi p = true;
  valid_q35 : hpet p = true \/ smbus p = true \/ pcie_root_ports p <> 0 -> machine_q35 p = true;
  valid_ports : disjoint_ranges (platform_io_ranges p None);
  valid_pm : disjoint_ranges (platform_io_ranges p (Some ACPI_PM_BASE_DEFAULT));
  valid_memory : memory_size p <= pci_mmio_start p;
  valid_ecam : forall w, ecam p = Some w -> memory_size p <= w_base w /\ w_base w + w_size w <= pci_mmio_start p;
  valid_root_ports : 0 <= pcie_root_ports p <= Q35_ROOT_PORTS_MAX /\ placed_ok (pcie_root_ports p) (root_port_devices p)
}.

(** A result that is not a reported conflict and satisfies [P] when it is a value. *)
Definition ends_in {A} (P : A -> Prop) (m : error + A) : Prop :=
  match m with inr a => P a | inl e => forall a b, e <> EConflict a b end.

Lemma ends_bind {A B} (P : A -> Prop) (Q : B -> Prop) m k :
  ends_in P m -> (forall a, P a -> m = inr a -> ends_in Q (k a)) -> ends_in Q (bind_sum m k).
Proof. destruct m; cbn; auto. Qed.

Lemma ends_throw {A} (P : A -> Prop) b e k :
  (forall x y, e <> EConflict x y) -> (b = false -> ends_in P k) -> ends_in P (throw_if b e k).
Proof. destruct b; cbn; auto. Qed.

Lemma machine_type_ends s : ends_in (fun _ => True) (machine_type s).
Proof.
  unfold machine_type. destruct (field s "machine_type"); try done. repeat case_match; done.
Qed.

Lemma machine_acpi_ends s q35 : machine_type s = inr q35 -> ends_in (fun acpi => q35 = true -> acpi = true) (machine_acpi s).
Proof. intros E. unfold machine_acpi. rewrite E. cbn. destruct q35; [|done]. destruct (field s "acpi") as [| |[]| | | | |]; done. Qed.

Lemma place_ends root_ports l taken placed :
  (forall x, x ∈ placed.*2 -> x ∈ taken) -> placed_ok root_ports placed ->
  ends_in (placed_ok root_ports) (place root_ports l taken placed).
Proof.
  revert taken placed. induction l as [|[name v] l IH]; cbn [place]; intros taken placed Ht [Hd Hf]; [done|].
  destruct (existsb (String.eqb name) ROOT_PORT_DEVICES) eqn:Hn; [|done]. cbn [negb].
  destruct (is_integer v) as [port|]; [|done].
  destruct ((0 <=? port) && (port <? root_ports)) eqn:Hp; [|done].
  destruct (existsb (Z.eqb port) taken) eqn:Hx; [done|].
  apply andb_true_iff in Hp as [?%Z.leb_le ?%Z.ltb_lt].
  assert (port ∉ taken) as Hnt.
  { intros Hin%list_elem_of_In. rewrite <- not_true_iff_false, existsb_exists in Hx. apply Hx. exists port. by rewrite Z.eqb_refl. }
  apply existsb_exists in Hn as (name' & Hin & ->%String.eqb_eq).
  apply IH.
  - intros x. rewrite fmap_app, elem_of_app. cbn. rewrite list_elem_of_singleton, elem_of_cons. intros [?%Ht|]; auto.
  - split.
    + rewrite fmap_app, NoDup_app. repeat split; [done| |cbn; apply NoDup_singleton].
      cbn. intros x Hx'%Ht ->%list_elem_of_singleton. done.
    + rewrite Forall_app, Forall_singleton. split; [done|]. cbn. split; [by apply list_elem_of_In|lia].
Qed.

Lemma ceiling_above m : m <= Qceiling (m # 0x10000000) * 0x10000000.
Proof.
  pose proof (Qle_ceiling (m # 0x10000000)) as H. unfold Qle in H. cbn in H. lia.
Qed.

Lemma indexed_legacy s :
  let opt name p := if truthy (field s name) then [p] else [] in
  indexed s UARTS = [mk_isa_port 0 0x3F8 4] ++ opt "uart1"%string (mk_isa_port 1 0x2F8 3) ++ opt "uart2"%string (mk_isa_port 2 0x3E8 4)
    ++ opt "uart3"%string (mk_isa_port 3 0x2E8 3) ++ [] /\
  indexed s PARALLEL_PORTS = [mk_isa_port 0 0x378 7] ++ opt "parallel1"%string (mk_isa_port 1 0x278 5) ++ [].
Proof. split; reflexivity. Qed.

(** The legacy devices of [UARTS] and [PARALLEL_PORTS] never collide with the
    chipset or each other, whichever of them are enabled, also with the PM block
    where the firmware puts it. *)
Lemma legacy_disjoint s p pm_base :
  uarts p = indexed s UARTS -> parallel_ports p = indexed s PARALLEL_PORTS ->
  pm p = mk_pm ICH9_PM_LENGTH ICH9_GPE0_OFFSET (-1) ICH9_GPE0_LENGTH ICH9_ACPI_ENABLE ICH9_ACPI_DISABLE \/
  pm p = mk_pm ACPI_PM_LENGTH (-1) ACPI_GPE0_BASE ACPI_GPE0_LENGTH ACPI_ENABLE ACPI_DISABLE ->
  pm_base = None \/ pm_base = Some ACPI_PM_BASE_DEFAULT ->
  check_platform p pm_base = inr tt.
Proof.
  unfold check_platform, platform_io_ranges. intros -> -> Hpm Hb.
  destruct (indexed_legacy s) as [-> ->]. destruct (truthy (field s "uart1")), (truthy (field s "uart2")), (truthy (field s "uart3")), (truthy (field s "parallel1"));
    cbn [app]; destruct Hpm as [-> | ->], Hb as [-> | ->]; vm_compute; reflexivity.
Qed.

(** The fields that follow from the machine and the settings. *)
Record derived (s : settings) (p : t) : Prop := {
  derived_uarts : uarts p = indexed s UARTS;
  derived_parallel : parallel_ports p = indexed s PARALLEL_PORTS;
  derived_pm : pm p = if machine_q35 p
    then mk_pm ICH9_PM_LENGTH ICH9_GPE0_OFFSET (-1) ICH9_GPE0_LENGTH ICH9_ACPI_ENABLE ICH9_ACPI_DISABLE
    else mk_pm ACPI_PM_LENGTH (-1) ACPI_GPE0_BASE ACPI_GPE0_LENGTH ACPI_ENABLE ACPI_DISABLE;
  derived_sleep : sleep_states p = if machine_q35 p then Acpi.Q35_SLEEP_STATES else Acpi.ACPI_SLEEP_STATES;
  derived_ecam : ecam p = if machine_q35 p then Some (mk_window Q35_ECAM_BASE Q35_ECAM_SIZE) else None
}.

Lemma create_platform_ends s size :
  ends_in (fun p => valid p /\ memory_size p = size /\ derived s p) (create_platform s size).
Proof.
  unfold create_platform. eapply ends_bind; [apply machine_type_ends|]. intros q35 _ Eq.
  eapply ends_bind; [by apply machine_acpi_ends|]. intros acpi Hacpi _.
  destruct (match field s "cpu_cores" with Undefined => Some 1 | _ => _ end) as [cores|]; [|done].
  apply ends_throw; [done|]. intros [?%Z.ltb_ge ?%Z.ltb_ge]%orb_false_iff.
  apply ends_throw; [done|]. intros Hc. apply ends_throw; [done|]. intros Hm.
  destruct (match field s "pcie_root_ports" with Undefined => Some 0 | _ => _ end) as [root_ports|]; [|done].
  apply ends_throw; [done|]. intros [?%Z.leb_le ?%Z.leb_le]%negb_false_iff%andb_true_iff.
  apply ends_throw; [done|]. intros Hr.
  eapply ends_bind; [apply (place_ends root_ports); [set_solver|split; constructor]|]. intros placed Hplaced _.
  cbv zeta. apply ends_throw; [done|]. intros Hh. apply ends_throw; [done|]. intros Hs.
  set (p := mk _ _ _ _ _ _ _ _ _ _ _ _ _ _ _ _ _ _ _).
  assert (forall b, b = None \/ b = Some ACPI_PM_BASE_DEFAULT -> check_platform p b = inr tt) as Hck.
  { intros b. apply (legacy_disjoint s p b); [done..|]. cbn. destruct q35; auto. }
  rewrite (Hck None) by auto. cbn [bind_sum ends_in]. split; [|split; [done|by destruct q35; split]].
  assert (0 < pm_length (pm p) /\ 0 < gpe0_length (pm p)) as [Hl Hg] by (cbn; by destruct q35).
  split; [| | |apply check_platform_disjoint; by auto|apply check_platform_disjoint; by auto| | |]; subst p; cbn -[seqZ Qceiling MAX_CORES Q35_ROOT_PORTS_MAX placed_ok].
  - unfold MAX_CORES in *. split; [lia|done].
  - intros [Hgt|Hq]; [|auto]. apply Z.ltb_lt in Hgt. rewrite Hgt in Hc. by destruct acpi.
  - destruct q35; [done|]. cbn in *. rewrite !andb_true_r in *. intros [?|[?|Hn%Z.eqb_neq]]; try congruence. by rewrite Hn in Hr.
  - destruct q35; [|apply ceiling_above]. cbn in Hm. apply Z.ltb_ge in Hm. unfold Q35_PCI_MMIO_START, Q35_ECAM_SIZE. lia.
  - destruct q35; [|done]. intros w [= <-]. cbn in *. apply Z.ltb_ge in Hm. unfold Q35_PCI_MMIO_START. lia.
  - unfold Q35_ROOT_PORTS_MAX in *. split; [lia|done].
Qed.

Lemma create_platform_inr s size p : create_platform s size = inr p -> valid p /\ derived s p.
Proof. intros E. pose proof (create_platform_ends s size) as H. rewrite E in H. by destruct H as (? & _ & ?). Qed.


End Platform.
