(* ===== verification/AcpiTables.v ===== *)
(** * src/acpi_tables.js: the ACPI tables of the machine

    The tables SeaBIOS installs through fw_cfg: AML for the DSDT, the fixed tables,
    the RSDP, and the linker/loader script that turns offsets into addresses and
    fills in the checksums.  Arrays of bytes are lists; a helper that builds AML
    returns [None] where the source throws (a package that is too large), and
    [+++] and [flat] hand that on as an exception does.  [Uint8Array.from] is
    [map u8]. *)

From S2P Require Import Prelude Acpi Rtc Hpet Platform.

Set Default Goal Selector "!".
Open Scope Z_scope.

Module AcpiTables.
Import Platform.

(** ** Strings and bytes *)

(** [Array.from(s, c => c.charCodeAt(0))]. *)
Definition char_code (c : Ascii.ascii) : Z := Z.of_nat (Ascii.nat_of_ascii c).
Definition codes (s : string) : list Z := map char_code (String.list_ascii_of_string s).

(** [s.padEnd(n, c)] on the codes. *)
Definition pad_end (l : list Z) (n : nat) (c : Z) : list Z := l ++ replicate (n - length l) c.

Definition OEM_ID : string := "V86   ".
Definition CREATOR_ID : string := "V86 ".
Definition ACPI_TABLES_FILE : string := "etc/acpi/tables".
Definition ACPI_RSDP_FILE : string := "etc/acpi/rsdp".

(** Byte [i] of [le(value, size)]: [value >>> (8 * i) & 0xFF], and a division for
    the bytes beyond the fourth. *)
Definition le_byte (value i : Z) : Z :=
  if i <? 4 then js_and (shr32 value (8 * i)) 0xFF else js_and (value / 2 ^ (8 * i)) 0xFF.
Definition le (value size : Z) : list Z := map (le_byte value) (seqZ 0 size).

(** ** AML encoding *)

Definition ZERO_OP : Z := 0x00.
Definition ONE_OP : Z := 0x01.
Definition NAME_OP : Z := 0x08.
Definition BYTE_PREFIX : Z := 0x0A.
Definition WORD_PREFIX : Z := 0x0B.
Definition DWORD_PREFIX : Z := 0x0C.
Definition SCOPE_OP : Z := 0x10.
Definition BUFFER_OP : Z := 0x11.
Definition PACKAGE_OP : Z := 0x12.
Definition METHOD_OP : Z := 0x14.
Definition DUAL_NAME_PREFIX : Z := 0x2E.
Definition MULTI_NAME_PREFIX : Z := 0x2F.
Definition EXT_OP : Z := 0x5B.
Definition OP_REGION_OP : Z := 0x80.
Definition FIELD_OP : Z := 0x81.
Definition DEVICE_OP : Z := 0x82.
Definition PROCESSOR_OP : Z := 0x83.
Definition LOCAL0_OP : Z := 0x60.
Definition ARG0_OP : Z := 0x68.
Definition STORE_OP : Z := 0x70.
Definition AND_OP : Z := 0x7B.
Definition OR_OP : Z := 0x7D.
Definition CREATE_DWORD_FIELD_OP : Z := 0x8A.
Definition LNOT_OP : Z := 0x92.
Definition LEQUAL_OP : Z := 0x93.
Definition LLESS_OP : Z := 0x95.
Definition IF_OP : Z := 0xA0.
Definition ELSE_OP : Z := 0xA1.
Definition RETURN_OP : Z := 0xA4.
Definition NOOP_OP : Z := 0xA3.

Definition REGION_SYSTEM_IO : Z := 0x01.
Definition REGION_PCI_CONFIG : Z := 0x02.
Definition FIELD_BYTE_ACC : Z := 0x01.
Definition FIELD_PRESERVE : Z := 0x00.

(** AML under construction: the bytes, or an exception. *)
Definition aml : Type := option (list Z).
Definition cat (a b : aml) : aml := a ≫= fun x => b ≫= fun y => Some (x ++ y).
Notation "a +++ b" := (cat a b) (at level 60, right associativity).

Definition flat (terms : list aml) : aml := foldr cat (Some []) terms.

Definition aml_length (value : Z) : list Z :=
  if value <? 0x40 then [value] else
  let follow := if value <? 1 .<< 12 then 1 else if value <? 1 .<< 20 then 2 else 3 in
  ((follow .<< 6) .| (value .& 0xF)) :: map (fun i => (value .>> (4 + 8 * i)) .& 0xFF) (seqZ 0 follow).

(** The loop over the sizes 1 to 4 of a PkgLength. *)
Definition with_pkg_length (contents : aml) : aml :=
  contents ≫= fun c =>
    let encoded size := aml_length (Z.of_nat (length c) + size) in
    match List.find (fun size => Z.of_nat (length (encoded size)) =? size) [1; 2; 3; 4] with
    | Some size => Some (encoded size ++ c)
    | None => None
    end.

Definition name_seg (seg : list Z) : list Z := pad_end seg 4 95.

(** The leading [\\] and [^] of a path. *)
Fixpoint split_prefix (path : list Z) : list Z * list Z :=
  match path with
  | c :: path' => if (c =? 92) || (c =? 94) then let r := split_prefix path' in (c :: r.1, r.2) else ([], path)
  | [] => ([], [])
  end.

(** [path.split(".")]. *)
Fixpoint split_dots (path : list Z) : list (list Z) :=
  match path with
  | [] => [[]]
  | c :: path' =>
      let rest := split_dots path' in
      if c =? 46 then [] :: rest
      else match rest with seg :: segs => (c :: seg) :: segs | [] => [[c]] end
  end.

Definition aml_name (path : string) : aml :=
  let '(prefix, path) := split_prefix (codes path) in
  let segments := match path with [] => [] | _ => split_dots path end in
  Some (prefix ++
    match segments with
    | [] => [0x00]
    | [a] => name_seg a
    | [a; b] => DUAL_NAME_PREFIX :: name_seg a ++ name_seg b
    | _ => MULTI_NAME_PREFIX :: Z.of_nat (length segments) :: (segments ≫= name_seg)
    end).

Definition aml_int_bytes (value : Z) : list Z :=
  if value =? 0 then [ZERO_OP]
  else if value =? 1 then [ONE_OP]
  else if value <=? 0xFF then [BYTE_PREFIX; value]
  else if value <=? 0xFFFF then [WORD_PREFIX; value .& 0xFF; value .>> 8]
  else DWORD_PREFIX :: le value 4.
Definition aml_int (value : Z) : aml := Some (aml_int_bytes value).

(** [parseInt(s, 16)] of upper-case hexadecimal digits. *)
Definition hex_digit (c : Z) : Z := if c <=? 57 then c - 48 else c - 55.
Definition parse_hex (l : list Z) : Z := fold_left (fun n c => 16 * n + hex_digit c) l 0.

Definition eisa_value (id : string) : Z :=
  let l := codes id in
  let c i := arr_get l i - 0x40 in
  let product := parse_hex (drop 3 l) in
  u32 (((c 0 .<< 2) .| (c 1 .>> 3)) .| ((((c 1 .& 7) .<< 5) .| c 2) .<< 8)
    .| ((product .>> 8) .<< 16) .| ((product .& 0xFF) .<< 24)).
Definition aml_eisa_id (id : string) : aml := aml_int (eisa_value id).

Definition raw (l : list Z) : aml := Some l.
Definition aml_arg (n : Z) : aml := raw [ARG0_OP + n].
Definition aml_local (n : Z) : aml := raw [LOCAL0_OP + n].
Definition aml_name_decl (path : string) (value : aml) : aml := raw [NAME_OP] +++ aml_name path +++ value.
Definition aml_scope (path : string) (terms : list aml) : aml := raw [SCOPE_OP] +++ with_pkg_length (aml_name path +++ flat terms).
Definition aml_device (path : string) (terms : list aml) : aml :=
  raw [EXT_OP; DEVICE_OP] +++ with_pkg_length (aml_name path +++ flat terms).
Definition aml_package (elements : list aml) : aml :=
  raw [PACKAGE_OP] +++ with_pkg_length (raw [Z.of_nat (length elements)] +++ flat elements).
Definition aml_buffer (bytes : list Z) : aml :=
  raw [BUFFER_OP] +++ with_pkg_length (aml_int (Z.of_nat (length bytes)) +++ raw bytes).
Definition aml_return (value : aml) : aml := raw [RETURN_OP] +++ value.
Definition aml_store (source target : aml) : aml := raw [STORE_OP] +++ source +++ target.
Definition aml_and (a b target : aml) : aml := raw [AND_OP] +++ a +++ b +++ target.
Definition aml_or (a b target : aml) : aml := raw [OR_OP] +++ a +++ b +++ target.
Definition aml_lless (a b : aml) : aml := raw [LLESS_OP] +++ a +++ b.
Definition aml_lequal (a b : aml) : aml := raw [LEQUAL_OP] +++ a +++ b.
Definition aml_lnot (a : aml) : aml := raw [LNOT_OP] +++ a.
Definition aml_if (predicate : aml) (terms : list aml) : aml := raw [IF_OP] +++ with_pkg_length (predicate +++ flat terms).
Definition aml_else (terms : list aml) : aml := raw [ELSE_OP] +++ with_pkg_length (flat terms).
Definition aml_create_dword_field (buffer : aml) (index : Z) (name : string) : aml :=
  raw [CREATE_DWORD_FIELD_OP] +++ buffer +++ aml_int index +++ aml_name name.
Definition aml_method (path : string) (arg_count : Z) (serialized : bool) (terms : list aml) : aml :=
  raw [METHOD_OP] +++ with_pkg_length (aml_name path +++ raw [arg_count .| (if serialized then 8 else 0)] +++ flat terms).
Definition aml_processor (path : string) (id : Z) (terms : list aml) : aml :=
  raw [EXT_OP; PROCESSOR_OP] +++ with_pkg_length (aml_name path +++ raw [id] +++ raw (le 0 4) +++ raw [0] +++ flat terms).
Definition aml_op_region (path : string) (space offset length : Z) : aml :=
  raw [EXT_OP; OP_REGION_OP] +++ aml_name path +++ raw [space] +++ aml_int offset +++ aml_int length.

(** One entry of a field list; an unnamed entry is reserved space. *)
Definition field_entry (f : option string * Z) : list Z :=
  match f.1 with Some name => name_seg (codes name) | None => [0x00] end ++ aml_length f.2.
Definition aml_field (region : string) (flags : Z) (fields : list (option string * Z)) : aml :=
  raw [EXT_OP; FIELD_OP] +++ with_pkg_length (aml_name region +++ raw [flags] +++ raw (fields ≫= field_entry)).

(** ** Resource descriptors *)

Definition irq_mask (irqs : list Z) : Z := fold_left (fun m irq => m .| (1 .<< irq)) irqs 0.

Definition res_io (base length : Z) : list Z :=
  [0x47; 0x01; base .& 0xFF; base .>> 8; base .& 0xFF; base .>> 8; 0x01; length].
Definition res_irq_noflags (irqs : list Z) : list Z := [0x22; irq_mask irqs .& 0xFF; irq_mask irqs .>> 8].
Definition res_dma (channels : list Z) : list Z := [0x2A; irq_mask channels; 0x00].
Definition res_interrupt_shared_level (irqs : list Z) : list Z :=
  [0x89] ++ le (2 + 4 * Z.of_nat (length irqs)) 2 ++ [0x09; Z.of_nat (length irqs)] ++ (irqs ≫= fun irq => le irq 4).
Definition res_word_space (type type_flags min max : Z) : list Z :=
  [0x88; 13; 0; type; 0x0C; type_flags] ++ le 0 2 ++ le min 2 ++ le max 2 ++ le 0 2 ++ le (max - min + 1) 2.
Definition res_word_bus (min max : Z) : list Z := res_word_space 2 0 min max.
Definition res_word_io (min max : Z) : list Z := res_word_space 1 0x03 min max.
Definition res_memory32_fixed (base length : Z) : list Z := [0x86; 9; 0; 1] ++ le base 4 ++ le length 4.
Definition res_dword_memory (min max : Z) : list Z :=
  [0x87; 23; 0; 0; 0x0C; 0x03] ++ le 0 4 ++ le min 4 ++ le max 4 ++ le 0 4 ++ le (u32 (max - min + 1)) 4.
Definition aml_resources (descriptors : list (list Z)) : aml := aml_buffer (concat descriptors ++ [0x79; 0x00]).

(** ** DSDT *)

Definition isa_device (name hid : string) (resources : aml) (uid : option Z) : aml :=
  aml_device name
    [ aml_name_decl "_HID" (aml_eisa_id hid);
      match uid with None => raw [] | Some uid => aml_name_decl "_UID" (aml_int uid) end;
      aml_name_decl "_CRS" resources ].

Definition isa_devices_of (p : t) : list aml :=
  [ isa_device "RTC" "PNP0B00" (aml_resources [res_io 0x70 2; res_irq_noflags [8]]) None;
    isa_device "KBD" "PNP0303" (aml_resources [res_io 0x60 1; res_io 0x64 1; res_irq_noflags [1]]) None;
    isa_device "MOU" "PNP0F13" (aml_resources [res_irq_noflags [12]]) None;
    isa_device "FDC0" "PNP0700" (aml_resources [res_io 0x3F2 4; res_io 0x3F7 1; res_irq_noflags [6]; res_dma [2]]) None ]
  ++ (if qemu_compatible p then [] else
      [ isa_device "PIC" "PNP0000" (aml_resources [res_io 0x20 2; res_io 0xA0 2; res_io 0x4D0 2; res_irq_noflags [2]]) None;
        isa_device "TMR" "PNP0100" (aml_resources [res_io 0x40 4; res_irq_noflags [0]]) None;
        isa_device "DMAC" "PNP0200" (aml_resources [res_io 0x00 0x10; res_io 0x80 0x10; res_io 0xC0 0x20; res_dma [4]]) None;
        isa_device "SPKR" "PNP0800" (aml_resources [res_io 0x61 1]) None;
        isa_device "FPU" "PNP0C04" (aml_resources [res_io 0xF0 0x10; res_irq_noflags [13]]) None ])
  ++ map (fun u => isa_device ("COM" ++ digit (index u + 1)) "PNP0501"
       (aml_resources [res_io (port u) 8; res_irq_noflags [irq u]]) (Some (index u + 1))) (uarts p)
  ++ map (fun u => isa_device (if index u =? 0 then "LPT" else "LPT" ++ digit (index u + 1)) "PNP0400"
       (aml_resources [res_io (port u) 8; res_irq_noflags [irq u]]) (Some (index u + 1))) (parallel_ports p).

Definition sleep_state_packages (p : t) : list aml :=
  map (fun s => aml_name_decl ("\_S" ++ digit (Acpi.ss_state s))
         (aml_package [aml_int (Acpi.ss_slp_typ s); aml_int (Acpi.ss_slp_typ s); aml_int 0; aml_int 0]))
    (List.filter Acpi.ss_supported (sleep_states p)).

(** [i.toString(16).toUpperCase().padStart(2, "0")] for the index of a processor. *)
Definition hex_char (d : Z) : Ascii.ascii := Ascii.ascii_of_nat (Z.to_nat (if d <? 10 then 48 + d else 55 + d)).
Definition hex2 (i : Z) : string := String (hex_char (i / 16)) (String (hex_char (i mod 16)) "").

Definition processors (p : t) : list aml := imap (fun i _ => aml_processor ("CP" ++ hex2 (Z.of_nat i)) (Z.of_nat i) []) (apic_ids p).

(** A link device over a PIRQ route register. *)
Definition link_device (name field : string) (uid : Z) : aml :=
  aml_device name
    [ aml_name_decl "_HID" (aml_eisa_id "PNP0C0F");
      aml_name_decl "_UID" (aml_int uid);
      aml_name_decl "_PRS" (aml_resources [res_interrupt_shared_level PCI_LINK_IRQS]);
      aml_method "_STA" 0 false [aml_return (aml_name "IQST" +++ aml_name field)];
      aml_method "_DIS" 0 false [aml_or (aml_name field) (aml_int 0x80) (aml_name field)];
      aml_method "_CRS" 0 false [aml_return (aml_name "IQCR" +++ aml_name field)];
      aml_method "_SRS" 1 false
        [aml_create_dword_field (aml_arg 0) 5 "PRRI"; aml_store (aml_name "PRRI") (aml_name field)] ].

(** The methods the links call. *)
Definition method_IQST : aml :=
  aml_method "IQST" 1 false
    [aml_if (aml_and (aml_int 0x80) (aml_arg 0) (raw [0])) [aml_return (aml_int 0x09)]; aml_return (aml_int 0x0B)].
Definition method_IQCR : aml :=
  aml_method "IQCR" 1 true
    [ aml_name_decl "PRR0" (aml_resources [res_interrupt_shared_level [0]]);
      aml_create_dword_field (aml_name "PRR0") 5 "PRRI";
      aml_if (aml_lless (aml_arg 0) (aml_int 0x80)) [aml_store (aml_arg 0) (aml_name "PRRI")];
      aml_return (aml_name "PRR0") ].

(** The entries of a routing table: for every slot and pin, the name of a link. *)
Definition routing_entries (link : Z -> Z -> string) : list aml :=
  seqZ 0 32 ≫= fun slot => map (fun pin =>
    aml_package [aml_int (u32 ((slot .<< 16) .| 0xFFFF)); aml_int pin; aml_name (link slot pin); aml_int 0]) (seqZ 0 4).

Definition LINKS : list string := ["LNKA"; "LNKB"; "LNKC"; "LNKD"]%string.
Definition PIRQ_FIELDS : list string := ["PRQ0"; "PRQ1"; "PRQ2"; "PRQ3"]%string.
Definition nth_name (l : list string) (i : Z) : string := default ""%string (l !! Z.to_nat i).

(** Interrupt pin [pin] of slot [slot] on the i440FX. *)
Definition piix_link (slot pin : Z) : Z := (slot + pin - 1) .& 3.

Definition build_i440fx_dsdt_body (p : t) (pm_base : Z) : aml :=
  let prt := routing_entries (fun slot pin => nth_name LINKS (piix_link slot pin)) in
  let links := imap (fun i link => link_device link (nth_name PIRQ_FIELDS (Z.of_nat i)) (Z.of_nat i)) LINKS in
  let gpe0 := gpe0_block p pm_base in
  let motherboard := aml_device "MBRS"
    [ aml_name_decl "_HID" (aml_eisa_id "PNP0C02");
      aml_name_decl "_UID" (aml_int 1);
      aml_name_decl "_CRS" (aml_resources
        [ res_io pm_base (pm_length (pm p)); res_io (w_base gpe0) (w_size gpe0); res_io ACPI_SMI_CMD_PORT 2;
          res_io FW_CFG_PORT 2; res_io 0x92 1 ]) ] in
  let pci_crs := aml_resources
    [ res_word_bus 0x00 0xFF; res_io 0xCF8 8; res_word_io 0x0000 0x0CF7; res_word_io 0x0D00 0xFFFF;
      res_dword_memory 0xA0000 0xBFFFF; res_dword_memory (pci_mmio_start p) PCI_MMIO_END ] in
  flat
    ([ aml_scope "\_SB"
        ([ aml_device "PCI0"
             [ aml_name_decl "_HID" (aml_eisa_id "PNP0A03");
               aml_name_decl "_UID" (aml_int (if qemu_compatible p then 0 else 1));
               aml_name_decl "_CRS" pci_crs;
               aml_name_decl "_PRT" (aml_package prt);
               aml_device "ISA"
                 ([ aml_name_decl "_ADR" (aml_int 0x00010000);
                    aml_op_region "P40C" REGION_PCI_CONFIG 0x60 4 ]
                  ++ isa_devices_of p ++ [motherboard]) ];
           aml_field "PCI0.ISA.P40C" (FIELD_BYTE_ACC .| FIELD_PRESERVE) (map (fun name => (Some name, 8)) PIRQ_FIELDS);
           method_IQST;
           method_IQCR ]
         ++ links ++ processors p) ]
     ++ sleep_state_packages p).

Definition PIRQS : list string := ["A"; "B"; "C"; "D"; "E"; "F"; "G"; "H"]%string.
Definition Q35_PIRQ_FIELDS : list string := map (fun q => "PRQ" ++ q)%string PIRQS.
(** PIRQ of pin [p] of device [d] on bus 0 of the Q35. *)
Definition pirq_of (d p : Z) : Z := if d <=? 24 then 4 + (d + p) mod 4 else if d =? 30 then 4 + p else p.
Definition routing_table (prefix : string) : aml :=
  aml_package (routing_entries (fun d p => (prefix ++ nth_name PIRQS (pirq_of d p))%string)).

Definition PCI_HOST_BRIDGE_UUID : list Z :=
  [0x5B; 0x4D; 0xDB; 0x33; 0xF7; 0x1F; 0x1C; 0x40; 0x96; 0x57; 0x74; 0x41; 0xC0; 0x3D; 0xD7; 0x66].

Definition pci_host_bridge_osc : aml :=
  let OSC_UNRECOGNIZED_UUID := 0x04 in
  let OSC_UNRECOGNIZED_REVISION := 0x08 in
  let OSC_CAPABILITIES_MASKED := 0x10 in
  let GRANTED := 0x1F in
  let cdw1 := aml_name "CDW1" in
  let cdw3 := aml_name "CDW3" in
  let local0 := aml_local 0 in
  aml_method "_OSC" 4 false
    [ aml_create_dword_field (aml_arg 3) 0 "CDW1";
      aml_if (aml_lequal (aml_arg 0) (aml_buffer PCI_HOST_BRIDGE_UUID))
        [ aml_create_dword_field (aml_arg 3) 4 "CDW2";
          aml_create_dword_field (aml_arg 3) 8 "CDW3";
          aml_store cdw3 local0;
          aml_and local0 (aml_int GRANTED) local0;
          aml_if (aml_lnot (aml_lequal (aml_arg 1) (aml_int 1)))
            [aml_or cdw1 (aml_int OSC_UNRECOGNIZED_REVISION) cdw1];
          aml_if (aml_lnot (aml_lequal cdw3 local0))
            [aml_or cdw1 (aml_int OSC_CAPABILITIES_MASKED) cdw1];
          aml_store local0 cdw3 ];
      aml_else [aml_or cdw1 (aml_int OSC_UNRECOGNIZED_UUID) cdw1];
      aml_return (aml_arg 3) ].

Definition HPET_SIZE : Z := 0x400.

Definition build_q35_dsdt_body (p : t) (ecam : window) (pm_base : Z) : aml :=
  let links := imap (fun i pirq => link_device ("LNK" ++ pirq) (nth_name Q35_PIRQ_FIELDS (Z.of_nat i)) (Z.of_nat i)) PIRQS in
  let gsi_links := imap (fun i pirq =>
    let resources := aml_resources [res_interrupt_shared_level [16 + Z.of_nat i]] in
    aml_device ("GSI" ++ pirq)
      [ aml_name_decl "_HID" (aml_eisa_id "PNP0C0F");
        aml_name_decl "_UID" (aml_int (8 + Z.of_nat i));
        aml_name_decl "_PRS" resources;
        aml_name_decl "_CRS" resources;
        aml_method "_STA" 0 false [aml_return (aml_int 0x0B)];
        aml_method "_DIS" 0 false [raw [NOOP_OP]];
        aml_method "_SRS" 1 false [raw [NOOP_OP]] ]) PIRQS in
  let motherboard := aml_device "MBRS"
    [ aml_name_decl "_HID" (aml_eisa_id "PNP0C02");
      aml_name_decl "_UID" (aml_int 1);
      aml_name_decl "_CRS" (aml_resources
        [ res_io pm_base (pm_length (pm p)); res_io ACPI_SMI_CMD_PORT 2; res_io FW_CFG_PORT 2; res_io 0x92 1;
          res_memory32_fixed ICH9_RCBA_ADDRESS ICH9_RCBA_SIZE ]) ] in
  let pci_crs := aml_resources
    [ res_word_bus 0x00 (w_size ecam / 0x100000 - 1); res_io 0xCF8 8; res_word_io 0x0000 0x0CF7; res_word_io 0x0D00 0xFFFF;
      res_dword_memory 0xA0000 0xBFFFF; res_dword_memory (pci_mmio_start p) PCI_MMIO_END ] in
  flat
    ([ aml_name_decl "\PICF" (aml_int 0);
       aml_method "\_PIC" 1 false [aml_store (aml_arg 0) (aml_name "\PICF")];
       aml_scope "\_SB"
        ([ aml_device "PCI0"
             [ aml_name_decl "_HID" (aml_eisa_id "PNP0A08");
               aml_name_decl "_CID" (aml_eisa_id "PNP0A03");
               aml_name_decl "_UID" (aml_int 0);
               aml_name_decl "_SEG" (aml_int 0);
               aml_name_decl "_BBN" (aml_int 0);
               aml_name_decl "_CRS" pci_crs;
               aml_name_decl "PRTP" (routing_table "LNK");
               aml_name_decl "PRTA" (routing_table "GSI");
               aml_method "_PRT" 0 false
                 [aml_if (aml_name "\PICF") [aml_return (aml_name "PRTA")]; aml_return (aml_name "PRTP")];
               pci_host_bridge_osc;
               aml_device "ISA"
                 ([ aml_name_decl "_ADR" (aml_int 0x001F0000);
                    aml_op_region "PIRQ" REGION_PCI_CONFIG 0x60 0x0C ]
                  ++ isa_devices_of p
                  ++ (if hpet p then
                        [ aml_device "HPET"
                            [ aml_name_decl "_HID" (aml_eisa_id "PNP0103");
                              aml_name_decl "_UID" (aml_int 0);
                              aml_name_decl "_CRS" (aml_resources [res_memory32_fixed Hpet.HPET_ADDRESS HPET_SIZE]) ] ]
                      else [])
                  ++ [motherboard]) ];
           aml_field "PCI0.ISA.PIRQ" (FIELD_BYTE_ACC .| FIELD_PRESERVE)
             (map (fun name => (Some name, 8)) (take 4 Q35_PIRQ_FIELDS) ++ [(None, 32)]
              ++ map (fun name => (Some name, 8)) (drop 4 Q35_PIRQ_FIELDS));
           method_IQST;
           method_IQCR ]
         ++ links ++ gsi_links
         ++ [ aml_device "DRAC"
                [ aml_name_decl "_HID" (aml_eisa_id "PNP0C01");
                  aml_name_decl "_UID" (aml_int 2);
                  aml_name_decl "_CRS" (aml_resources [res_memory32_fixed (w_base ecam) (w_size ecam)]) ] ]
         ++ processors p) ]
     ++ sleep_state_packages p).

(** The Q35 body reads [platform.ecam], which that machine has ([None] is the
    exception a missing one would raise). *)
Definition build_dsdt_body (p : t) (pm_base : Z) : aml :=
  if machine_q35 p then ecam p ≫= fun w => build_q35_dsdt_body p w pm_base
  else build_i440fx_dsdt_body p pm_base.

(** ** Tables *)

(** A table with its length set and checksum 0. *)
Definition table (signature : string) (revision : Z) (table_id : string) (body : list Z) : list Z :=
  let length := 36 + Z.of_nat (length body) in
  let header := codes signature ++ le length 4 ++ [revision; 0] ++ codes OEM_ID ++ pad_end (codes table_id) 8 32
    ++ le 1 4 ++ codes CREATOR_ID ++ le 1 4 in
  map u8 (header ++ body).

Definition gas_io (address bits : Z) : list Z := [REGION_SYSTEM_IO; bits; 0; 0] ++ le address 8.
Definition GAS_NONE : list Z := replicate 12 0.

(** [array.set(data, offset)] of a typed array, inside its bounds. *)
Definition set_at (l data : list Z) (offset : Z) : list Z :=
  take (Z.to_nat offset) l ++ map u8 data ++ drop (Z.to_nat offset + length data) l.

Definition build_facs : list Z :=
  let facs := replicate 64 0 in
  let facs := set_at facs [0x46; 0x41; 0x43; 0x53] 0 in
  let facs := set_at facs (le 64 4) 4 in
  arr_set facs 32 1.

Definition FADT_FIRMWARE_CTRL : Z := 36.
Definition FADT_DSDT : Z := 40.
Definition FADT_X_FIRMWARE_CTRL : Z := 132.
Definition FADT_X_DSDT : Z := 140.
Definition FADT_LENGTH : Z := 244.

Definition WBINVD : Z := 1 .<< 0.
Definition PROC_C1 : Z := 1 .<< 2.
Definition SLP_BUTTON : Z := 1 .<< 5.
Definition FIX_RTC : Z := 1 .<< 6.
Definition RESET_REG_SUP : Z := 1 .<< 10.
Definition USE_PLATFORM_CLOCK : Z := 1 .<< 15.
Definition LEGACY_DEVICES : Z := 1 .<< 0.
Definition HAS_8042 : Z := 1 .<< 1.

Definition fadt_body (p : t) (pm_base : Z) : list Z :=
  let gpe0 := gpe0_block p pm_base in
  le 0 4 ++ le 0 4 ++ [0] ++ [0] ++ le ACPI_SCI_IRQ 2 ++ le ACPI_SMI_CMD_PORT 4
  ++ [acpi_enable (pm p); acpi_disable (pm p); 0; 0]
  ++ le pm_base 4 ++ le 0 4 ++ le (pm_base + 4) 4 ++ le 0 4 ++ le 0 4 ++ le (pm_base + 8) 4
  ++ le (w_base gpe0) 4 ++ le 0 4 ++ [4; 2; 0; 4; w_size gpe0; 0; 0; 0]
  ++ le 101 2 ++ le 1001 2 ++ le 0 4 ++ [0; 0] ++ [0; 0; Rtc.CMOS_CENTURY]
  ++ le (LEGACY_DEVICES .| HAS_8042) 2 ++ [0]
  ++ le (WBINVD .| PROC_C1 .| SLP_BUTTON .| FIX_RTC .| RESET_REG_SUP .| USE_PLATFORM_CLOCK) 4
  ++ gas_io RESET_PORT 8 ++ [RESET_VALUE; 0; 0; 0] ++ le 0 8 ++ le 0 8
  ++ gas_io pm_base 32 ++ GAS_NONE ++ gas_io (pm_base + 4) 16 ++ GAS_NONE ++ GAS_NONE ++ gas_io (pm_base + 8) 32
  ++ gas_io (w_base gpe0) (w_size gpe0 * 8) ++ GAS_NONE.
Definition build_fadt (p : t) (pm_base : Z) : list Z := table "FACP" 3 "V86FACP" (fadt_body p pm_base).

Definition build_madt (p : t) : list Z :=
  let PCAT_COMPAT := 1 in
  let LEVEL_ACTIVE_HIGH := 0x0D in
  let entries :=
    concat (imap (fun i apic_id => [0; 8; Z.of_nat i; apic_id] ++ le 1 4) (apic_ids p))
    ++ [1; 12; IOAPIC_ID; 0] ++ le IOAPIC_ADDRESS 4 ++ le 0 4
    ++ (ACPI_SCI_IRQ :: PCI_LINK_IRQS ≫= fun irq => [2; 10; 0; irq] ++ le irq 4 ++ le LEVEL_ACTIVE_HIGH 2)
    ++ [4; 6; 0xFF; 0; 0; 1] in
  table "APIC" 1 "V86APIC" (le LAPIC_ADDRESS 4 ++ le PCAT_COMPAT 4 ++ entries).

Definition build_hpet : list Z :=
  table "HPET" 1 "V86HPET" (le Hpet.HPET_BLOCK_ID 4 ++ [0; 0; 0; 0] ++ le Hpet.HPET_ADDRESS 8 ++ [0] ++ le 0 2 ++ [0]).

Definition build_mcfg (ecam : window) : list Z :=
  table "MCFG" 1 "V86MCFG" (le 0 8 ++ le (w_base ecam) 8 ++ le 0 2 ++ [0; w_size ecam / 0x100000 - 1] ++ le 0 4).

(** ** The linker/loader script *)

Definition LOADER_ENTRY_SIZE : Z := 128.
Definition LOADER_FILE_NAME_SIZE : Z := 56.
Definition COMMAND_ALLOCATE : Z := 1.
Definition COMMAND_ADD_POINTER : Z := 2.
Definition COMMAND_ADD_CHECKSUM : Z := 3.
Definition ZONE_HIGH : Z := 1.
Definition ZONE_FSEG : Z := 2.

(** An array of [n] zeros with the first elements replaced. *)
Definition zero_padded (n : Z) (bytes : list Z) : list Z := bytes ++ replicate (Z.to_nat n - length bytes) 0.
Definition loader_name (name : string) : list Z := zero_padded LOADER_FILE_NAME_SIZE (codes name).
Definition loader_entry (bytes : list Z) : list Z := zero_padded LOADER_ENTRY_SIZE bytes.

Definition loader_allocate (file : string) (align zone : Z) : list Z :=
  loader_entry (le COMMAND_ALLOCATE 4 ++ loader_name file ++ le align 4 ++ [zone]).
Definition loader_add_pointer (dest_file src_file : string) (offset size : Z) : list Z :=
  loader_entry (le COMMAND_ADD_POINTER 4 ++ loader_name dest_file ++ loader_name src_file ++ le offset 4 ++ [size]).
Definition loader_add_checksum (file : string) (offset start length : Z) : list Z :=
  loader_entry (le COMMAND_ADD_CHECKSUM 4 ++ loader_name file ++ le offset 4 ++ le start 4 ++ le length 4).

(** ** All tables *)

Record extent := mk_extent { offset : Z; length_of : Z }.
Record files := mk_files { tables : list Z; rsdp : list Z; loader : list Z; layout : list (string * extent) }.

(** [layout[name]], a property of an object with one entry per name. *)
Definition layout_get (l : list (string * extent)) (name : string) : extent :=
  match List.find (fun e => String.eqb e.1 name) l with Some e => e.2 | None => mk_extent 0 0 end.

(** Consecutive offsets for the parts. *)
Fixpoint lay_out (off : Z) (parts : list (string * list Z)) : list (string * extent) :=
  match parts with
  | [] => []
  | (name, data) :: parts =>
      (name, mk_extent off (Z.of_nat (length data))) :: lay_out (off + Z.of_nat (length data)) parts
  end.
Definition total (parts : list (string * list Z)) : Z := Z.of_nat (length (concat parts.*2)).

Definition name_listed (name : string) : bool := negb (String.eqb name "FACS") && negb (String.eqb name "DSDT").

Definition table_parts (p : t) (pm_base : Z) (dsdt : list Z) : list (string * list Z) :=
  [ ("FACS", build_facs); ("DSDT", table "DSDT" 1 "V86DSDT" dsdt); ("FACP", build_fadt p pm_base); ("APIC", build_madt p) ]%string
  ++ match ecam p with Some w => [("MCFG"%string, build_mcfg w)] | None => [] end
  ++ (if hpet p then [("HPET"%string, build_hpet)] else []).

(** From the [parts] on: layout, root tables, pointers and script. *)
Definition assemble (parts : list (string * list Z)) : files :=
  let listed := List.filter name_listed parts.*1 in
  let layout := lay_out 0 parts in
  let rsdt_offset := total parts in
  let rsdt := table "RSDT" 1 "V86RSDT" (listed ≫= fun name => le (offset (layout_get layout name)) 4) in
  let layout := layout ++ [("RSDT"%string, mk_extent rsdt_offset (Z.of_nat (length rsdt)))] in
  let xsdt_offset := rsdt_offset + Z.of_nat (length rsdt) in
  let xsdt := table "XSDT" 1 "V86XSDT" (listed ≫= fun name => le (offset (layout_get layout name)) 8) in
  let layout := layout ++ [("XSDT"%string, mk_extent xsdt_offset (Z.of_nat (length xsdt)))] in
  let parts := parts ++ [("RSDT"%string, rsdt); ("XSDT"%string, xsdt)] in
  let tables := replicate (Z.to_nat (xsdt_offset + Z.of_nat (length xsdt))) 0 in
  let tables := fold_left (fun l part => set_at l part.2 (offset (layout_get layout part.1))) parts tables in
  let fadt := offset (layout_get layout "FACP") in
  let facs := offset (layout_get layout "FACS") in
  let dsdt := offset (layout_get layout "DSDT") in
  let tables := set_at tables (le facs 4) (fadt + FADT_FIRMWARE_CTRL) in
  let tables := set_at tables (le dsdt 4) (fadt + FADT_DSDT) in
  let tables := set_at tables (le facs 8) (fadt + FADT_X_FIRMWARE_CTRL) in
  let tables := set_at tables (le dsdt 8) (fadt + FADT_X_DSDT) in
  let rsdp := map u8 (codes "RSD PTR " ++ [0] ++ codes OEM_ID ++ [2]
    ++ le rsdt_offset 4 ++ le 36 4 ++ le xsdt_offset 8 ++ [0; 0; 0; 0]) in
  let T := ACPI_TABLES_FILE in
  let commands :=
    [ loader_allocate ACPI_RSDP_FILE 16 ZONE_FSEG;
      loader_allocate T 64 ZONE_HIGH;
      loader_add_pointer T T (fadt + FADT_FIRMWARE_CTRL) 4;
      loader_add_pointer T T (fadt + FADT_DSDT) 4;
      loader_add_pointer T T (fadt + FADT_X_FIRMWARE_CTRL) 8;
      loader_add_pointer T T (fadt + FADT_X_DSDT) 8 ]
    ++ imap (fun i _ => loader_add_pointer T T (rsdt_offset + 36 + 4 * Z.of_nat i) 4) listed
    ++ imap (fun i _ => loader_add_pointer T T (xsdt_offset + 36 + 8 * Z.of_nat i) 8) listed
    ++ [ loader_add_pointer ACPI_RSDP_FILE T 16 4; loader_add_pointer ACPI_RSDP_FILE T 24 8 ]
    ++ map (fun name => let e := layout_get layout name in loader_add_checksum T (offset e + 9) (offset e) (length_of e))
         (List.filter (fun name => negb (String.eqb name "FACS")) parts.*1)
    ++ [ loader_add_checksum ACPI_RSDP_FILE 8 0 20; loader_add_checksum ACPI_RSDP_FILE 32 0 36 ] in
  mk_files tables rsdp (map u8 (concat commands)) layout.

Definition build_acpi_tables (p : t) (pm_base : Z) : option files :=
  build_dsdt_body p pm_base ≫= fun dsdt => Some (assemble (table_parts p pm_base dsdt)).

(** ** Finding the tables in guest memory *)

Record located := mk_located { signature : list Z; address : Z; l_length : Z; checksum_ok : bool }.
Record found := mk_found { f_rsdp : Z; f_revision : Z; f_oem_id : list Z; f_tables : list located }.

(** [mem8] is a [Uint8Array] of [size] bytes: a read beyond it is [undefined]
    (0 in the bitwise expressions), [subarray] stops at its end. *)
Section locate.
Variables (size : Z) (mem8 : Z -> Z).

Definition m8 (a : Z) : Z := if a <? size then mem8 a else 0.
Definition subarray (a n : Z) : list Z := map mem8 (seqZ a (Z.min n (size - a))).
Definition m32 (a : Z) : Z := u32 (m8 a .| (m8 (a + 1) .<< 8) .| (m8 (a + 2) .<< 16) .| (m8 (a + 3) .<< 24)).
Definition text (a n : Z) : list Z := subarray a n.
Definition sum (a n : Z) : Z := fold_left Z.add (subarray a n) 0 .& 0xFF.
Definition in_ram (a n : Z) : bool := a + n <=? size.

Definition is_rsdp (a : Z) : bool := bool_decide (text a 8 = codes "RSD PTR ") && (sum a 20 =? 0).
Definition find_rsdp : option Z := List.find is_rsdp (map (fun i => 0xE0000 + 16 * i) (seqZ 0 0x2000)).

Definition read_table (address : Z) : located :=
  if negb (in_ram address 36) then mk_located (codes "????") address 0 false else
  let length := m32 (address + 4) in
  let signature := text address 4 in
  mk_located signature address length
    (bool_decide (signature = codes "FACS") || in_ram address length && (sum address length =? 0)).

(** The loop over the entries of the root table; [None] when [fuel] runs out. *)
Fixpoint walk (fuel : nat) (root : located) (entry_size p : Z) : option (list located) :=
  if (p + entry_size <=? address root + l_length root) && in_ram p entry_size then
    match fuel with
    | O => None
    | S fuel =>
        let t := read_table (m32 p) in
        rest ← walk fuel root entry_size (p + entry_size);
        Some (t :: (if bool_decide (signature t = codes "FACP") && (44 <=? l_length t)
                    then [read_table (m32 (address t + 36)); read_table (m32 (address t + 40))] else []) ++ rest)
    end
  else Some [].

Definition locate_acpi_tables : option found :=
  rsdp ← find_rsdp;
  let revision := m8 (rsdp + 15) in
  let use_xsdt := (2 <=? revision) && (m32 (rsdp + 28) =? 0) && negb (m32 (rsdp + 24) =? 0) in
  let root := read_table (if use_xsdt then m32 (rsdp + 24) else m32 (rsdp + 16)) in
  let entry_size := if use_xsdt then 8 else 4 in
  tables ← walk (Z.to_nat (l_length root)) root entry_size (address root + 36);
  Some (mk_found rsdp revision (text (rsdp + 9) 6) (root :: tables)).
End locate.

End AcpiTables.
