(* ===== verification/Aml.v ===== *)
(** * The DSDT is well-formed AML

    The syntax of the ACPI machine language as far as the DSDT uses it (ACPI 6.6,
    chapter 20): a type of terms, a parser that follows the specification's
    grammar, and the encoding of terms by the helpers of src/acpi_tables.js.
    Parsing inverts the encoding, and encoding succeeds for every term that is
    not too large. *)

From S2P Require Import Prelude Acpi Hpet Platform AcpiTables.

Set Default Goal Selector "!".
Open Scope Z_scope.

Module Aml.
Import AcpiTables.

(** ** Syntax *)

(** A NameString: the prefix characters and the segments of four characters. *)
Record name := mk_name { prefix : list Z; segs : list (list Z) }.

#[export] Instance name_eq_dec : EqDecision name.
Proof. solve_decision. Defined.

#[warnings="-register-all"]
Inductive term :=
| Int (v : Z)
| Arg (n : Z)
| Local (n : Z)
| Ref (n : name) (args : list term)
| Name (n : name) (v : term)
| Scope (n : name) (ts : list term)
| Device (n : name) (ts : list term)
| Package (ts : list term)
| Buffer (bytes : list Z)
| Method (n : name) (argc : Z) (serialized : bool) (ts : list term)
| Processor (n : name) (id : Z) (ts : list term)
| OpRegion (n : name) (space : Z) (off len : Z)
| Field (n : name) (flags : Z) (fields : list (option (list Z) * Z))
| Return (t : term)
| Store (a b : term)
| And (a b : term) (target : option term)
| Or (a b : term) (target : option term)
| LLess (a b : term)
| LEqual (a b : term)
| LNot (a : term)
| If (c : term) (ts : list term)
| Else (ts : list term)
| CreateDWordField (buffer : term) (index : Z) (n : name)
| Noop.

(** ** Parser *)

Definition is_lead (c : Z) : bool := ((65 <=? c) && (c <=? 90)) || (c =? 95).
Definition is_prefix (c : Z) : bool := (c =? 92) || (c =? 94).
Definition is_name_start (c : Z) : bool := is_lead c || is_prefix c || (c =? 0x2E) || (c =? 0x2F).

Definition parser (A : Type) : Type := list Z -> option (A * list Z).

Definition parse_byte : parser Z := fun bs => match bs with b :: r => Some (b, r) | [] => None end.

(** [n] bytes, which must be there. *)
Definition parse_bytes (n : nat) : parser (list Z) := fun bs =>
  if (n <=? length bs)%nat then Some (take n bs, drop n bs) else None.

Fixpoint parse_seq {A} (p : parser A) (n : nat) : parser (list A) := fun bs =>
  match n with
  | O => Some ([], bs)
  | S n => '(x, r) ← p bs; '(l, r) ← parse_seq p n r; Some (x :: l, r)
  end.

(** All of a region, which ends where its bytes do. *)
Fixpoint parse_region {A} (p : parser A) (fuel : nat) (bs : list Z) : option (list A) :=
  match bs, fuel with
  | [], _ => Some []
  | _, O => None
  | _, S fuel => '(x, r) ← p bs; l ← parse_region p fuel r; Some (x :: l)
  end.
Definition parse_all {A} (p : parser A) (bs : list Z) : option (list A) := parse_region p (length bs) bs.

Definition from_le (l : list Z) : Z := foldr (fun b v => b + 256 * v) 0 l.

(** PkgLength: the two top bits of the lead byte say how many bytes follow. *)
Definition parse_length : parser Z := fun bs =>
  '(lead, r) ← parse_byte bs;
  let count := lead .>> 6 in
  if count =? 0 then Some (lead, r)
  else '(l, r) ← parse_bytes (Z.to_nat count) r; Some ((lead .& 0xF) + 16 * from_le l, r).

(** The contents of a package; its length counts the bytes that encode it. *)
Definition parse_pkg : parser (list Z) := fun bs =>
  '(n, r) ← parse_length bs;
  let used := Z.of_nat (length bs) - Z.of_nat (length r) in
  if n <? used then None else parse_bytes (Z.to_nat (n - used)) r.

Definition parse_seg : parser (list Z) := fun bs =>
  '(s, r) ← parse_bytes 4 bs;
  if match s with c :: _ => is_lead c | [] => false end then Some (s, r) else None.

Fixpoint parse_prefix (bs : list Z) : list Z * list Z :=
  match bs with
  | c :: r => if is_prefix c then let '(l, r') := parse_prefix r in (c :: l, r') else ([], bs)
  | [] => ([], [])
  end.

Definition parse_segs : parser (list (list Z)) := fun bs =>
  match bs with
  | [] => None
  | c :: r =>
      if c =? 0x00 then Some ([], r)
      else if c =? 0x2E then parse_seq parse_seg 2 r
      else if c =? 0x2F then '(n, r) ← parse_byte r; parse_seq parse_seg (Z.to_nat n) r
      else parse_seq parse_seg 1 bs
  end.

Definition parse_name : parser name := fun bs =>
  let '(pre, r) := parse_prefix bs in
  '(l, r) ← parse_segs r; Some (mk_name pre l, r).

Definition parse_int : parser Z := fun bs =>
  '(b, r) ← parse_byte bs;
  if b =? 0x00 then Some (0, r)
  else if b =? 0x01 then Some (1, r)
  else let take_le n := '(l, r) ← parse_bytes n r; Some (from_le l, r) in
    if b =? 0x0A then take_le 1%nat else if b =? 0x0B then take_le 2%nat else if b =? 0x0C then take_le 4%nat else None.

Definition parse_field_entry : parser (option (list Z) * Z) := fun bs =>
  match bs with
  | [] => None
  | c :: r =>
      if c =? 0x00 then '(n, r) ← parse_length r; Some ((None, n), r)
      else '(s, r) ← parse_seg bs; '(n, r) ← parse_length r; Some ((Some s, n), r)
  end.

(** Scope, Device, Method, Processor: the contents of a package and the terms
    after its header. *)
Definition parse_body {H} (header : parser H) (p : parser term) : parser (H * list term) := fun bs =>
  '(c, rest) ← parse_pkg bs; '(h, r) ← header c; ts ← parse_all p r; Some ((h, ts), rest).

Definition parse_target (p : parser term) : parser (option term) := fun bs =>
  match bs with
  | 0x00 :: r => Some (None, r)
  | _ => '(t, r) ← p bs; Some (Some t, r)
  end.

Definition map_result {A B} (f : A -> B) (r : option (A * list Z)) : option (B * list Z) :=
  match r with Some (a, rest) => Some (f a, rest) | None => None end.

Definition pair_of {A B} (p : parser A) (q : parser B) : parser (A * B) := fun bs =>
  '(a, r) ← p bs; '(b, r) ← q r; Some ((a, b), r).

Section parser.
(** The number of arguments of the methods that are called. *)
Variable (arity : name -> nat).

Definition parse_method_header : parser (name * Z) := pair_of parse_name parse_byte.
Definition parse_processor_header : parser (name * Z) := fun bs =>
  '(h, r) ← pair_of parse_name parse_byte bs; '(_, r) ← parse_bytes 5 r; Some (h, r).

Definition parse_package (p : parser term) : parser term := fun bs =>
  '((n, ts), r) ← parse_body parse_byte p bs;
  if n =? Z.of_nat (length ts) then Some (Package ts, r) else None.

Definition parse_buffer : parser term := fun bs =>
  '(c, rest) ← parse_pkg bs; '(n, l) ← parse_int c;
  if n =? Z.of_nat (length l) then Some (Buffer l, rest) else None.

Definition parse_fields : parser term := fun bs =>
  '(c, rest) ← parse_pkg bs; '((n, flags), r) ← pair_of parse_name parse_byte c;
  l ← parse_all parse_field_entry r; Some (Field n flags l, rest).

Definition parse_ext (p : parser term) : parser term := fun bs =>
  match bs with
  | 0x80 :: r =>
      '((n, space), r) ← pair_of parse_name parse_byte r; '((o, l), r) ← pair_of parse_int parse_int r;
      Some (OpRegion n space o l, r)
  | 0x81 :: r => parse_fields r
  | 0x82 :: r => map_result (fun x => Device x.1 x.2) (parse_body parse_name p r)
  | 0x83 :: r => map_result (fun x => Processor x.1.1 x.1.2 x.2) (parse_body parse_processor_header p r)
  | _ => None
  end.

Definition parse_op (p : parser term) : parser term := fun bs =>
  match bs with
  | 0x08 :: r => map_result (fun x => Name x.1 x.2) (pair_of parse_name p r)
  | 0x10 :: r => map_result (fun x => Scope x.1 x.2) (parse_body parse_name p r)
  | 0x11 :: r => parse_buffer r
  | 0x12 :: r => parse_package p r
  | 0x14 :: r =>
      map_result (fun x => Method x.1.1 (x.1.2 .& 7) (Z.testbit x.1.2 3) x.2) (parse_body parse_method_header p r)
  | 0x5B :: r => parse_ext p r
  | 0x70 :: r => map_result (fun x => Store x.1 x.2) (pair_of p p r)
  | 0x7B :: r => map_result (fun x => And x.1 x.2.1 x.2.2) (pair_of p (pair_of p (parse_target p)) r)
  | 0x7D :: r => map_result (fun x => Or x.1 x.2.1 x.2.2) (pair_of p (pair_of p (parse_target p)) r)
  | 0x8A :: r => map_result (fun x => CreateDWordField x.1 x.2.1 x.2.2) (pair_of p (pair_of parse_int parse_name) r)
  | 0x92 :: r => map_result LNot (p r)
  | 0x93 :: r => map_result (fun x => LEqual x.1 x.2) (pair_of p p r)
  | 0x95 :: r => map_result (fun x => LLess x.1 x.2) (pair_of p p r)
  | 0xA0 :: r => map_result (fun x => If x.1 x.2) (parse_body p p r)
  | 0xA1 :: r => map_result (fun x => Else x.2) (parse_body (fun c => Some (tt, c)) p r)
  | 0xA3 :: r => Some (Noop, r)
  | 0xA4 :: r => map_result Return (p r)
  | _ => map_result Int (parse_int bs)
  end.

Definition parse_term (p : parser term) : parser term := fun bs =>
  match bs with
  | [] => None
  | b :: r =>
      if is_name_start b then
        '(n, r) ← parse_name bs; map_result (Ref n) (parse_seq p (arity n) r)
      else if (0x60 <=? b) && (b <=? 0x67) then Some (Local (b - 0x60), r)
      else if (0x68 <=? b) && (b <=? 0x6E) then Some (Arg (b - 0x68), r)
      else parse_op p bs
  end.

Fixpoint parse (fuel : nat) : parser term :=
  match fuel with O => fun _ => None | S fuel => parse_term (parse fuel) end.
End parser.

(** ** Lengths *)

Lemma parse_bytes_app l rest : parse_bytes (length l) (l ++ rest) = Some (l, rest).
Proof.
  unfold parse_bytes. rewrite length_app. destruct (Nat.leb_spec (length l) (length l + length rest)); [|lia].
  by rewrite take_app_length, drop_app_length.
Qed.

Lemma parse_bytes_app' n l rest : length l = n -> parse_bytes n (l ++ rest) = Some (l, rest).
Proof. intros <-. apply parse_bytes_app. Qed.

Lemma land_0xF x : x .& 0xF = x mod 16.
Proof. apply (land_ones_mod x 4). lia. Qed.

Lemma lead_byte f x : 0 <= f < 4 -> 0 <= x < 16 -> (f .<< 6) .| x = x + 64 * f.
Proof. intros. rewrite Z.lor_comm, (lor_shiftl_add x f 6); lia. Qed.

(** The lead byte announces [follow] bytes, which hold the rest of the value. *)
Lemma parse_length_bytes follow v rest :
  0 < follow < 4 -> 0 <= v < 2 ^ (4 + 8 * follow) ->
  parse_length (((follow .<< 6) .| (v .& 0xF)) :: map (fun i => (v .>> (4 + 8 * i)) .& 0xFF) (seqZ 0 follow) ++ rest) = Some (v, rest).
Proof.
  intros Hf Hv. unfold parse_length. cbn [parse_byte mbind option_bind]. rewrite land_0xF.
  pose proof (Z.mod_pos_bound v 16 ltac:(lia)). rewrite lead_byte by lia.
  assert ((v mod 16 + 64 * follow) .>> 6 = follow) as ->.
  { rewrite Z.shiftr_div_pow2 by lia. symmetry. apply (Z.div_unique _ _ _ (v mod 16)); lia. }
  destruct (Z.eqb_spec follow 0); [lia|]. rewrite parse_bytes_app' by (rewrite length_map, length_seqZ; lia).
  cbn [mbind option_bind]. do 2 f_equal. rewrite land_0xF.
  assert ((v mod 16 + 64 * follow) mod 16 = v mod 16) as ->.
  { replace (v mod 16 + 64 * follow) with (v mod 16 + 4 * follow * 16) by lia. rewrite Z.mod_add by lia. apply Z.mod_mod. lia. }
  enough (from_le (map (fun i => (v .>> (4 + 8 * i)) .& 0xFF) (seqZ 0 follow)) = v / 16) as ->
    by (pose proof (Z.div_mod v 16); lia).
  assert (follow = 1 \/ follow = 2 \/ follow = 3) as [-> | [-> | ->]] by lia;
    [change (seqZ 0 1) with [0]|change (seqZ 0 2) with [0; 1]|change (seqZ 0 3) with [0; 1; 2]];
    cbn [map from_le foldr]; rewrite !land_ff, !Z.shiftr_div_pow2 by lia; cbn -[Z.modulo Z.div Z.mul] in *;
    Z.div_mod_to_equations; lia.
Qed.

Definition PKG_MAX : Z := 2 ^ 28.

Lemma parse_aml_length v rest : 0 <= v < PKG_MAX -> parse_length (aml_length v ++ rest) = Some (v, rest).
Proof.
  unfold PKG_MAX. intros Hv. unfold aml_length. change (1 .<< 12) with 4096. change (1 .<< 20) with 1048576.
  destruct (Z.ltb_spec v 0x40).
  - cbn. rewrite Z.shiftr_div_pow2 by lia. rewrite Z.div_small by lia. done.
  - destruct (Z.ltb_spec v 4096); [|destruct (Z.ltb_spec v 1048576)]; cbn [app]; apply parse_length_bytes; lia.
Qed.

Lemma aml_length_size v :
  Z.of_nat (length (aml_length v)) = if v <? 0x40 then 1 else if v <? 4096 then 2 else if v <? 1048576 then 3 else 4.
Proof.
  unfold aml_length. change (1 .<< 12) with 4096. change (1 .<< 20) with 1048576.
  repeat case_match; cbn [length]; rewrite ?length_map, ?length_seqZ; lia.
Qed.

Lemma land_ff_byte x : byte (x .& 0xFF).
Proof. unfold byte. rewrite land_ff. apply Z.mod_pos_bound. lia. Qed.

Lemma aml_length_byte v : 0 <= v -> Forall byte (aml_length v).
Proof.
  intros Hv. unfold aml_length. change (1 .<< 12) with 4096. change (1 .<< 20) with 1048576. destruct (Z.ltb_spec v 0x40).
  - apply Forall_singleton. unfold byte. lia.
  - apply Forall_cons. split; [|apply Forall_map, Forall_forall; intros; apply land_ff_byte].
    rewrite land_0xF. pose proof (Z.mod_pos_bound v 16 ltac:(lia)). repeat case_match; rewrite lead_byte by lia; unfold byte; lia.
Qed.

(** Some size from 1 to 4 always fits, and what it encodes is the package. *)
Lemma with_pkg_length_ok c :
  Z.of_nat (length c) + 4 < PKG_MAX -> Forall byte c ->
  exists bs, with_pkg_length (Some c) = Some bs /\ Forall byte bs /\ Z.of_nat (length bs) <= Z.of_nat (length c) + 4 /\
    (length c < length bs)%nat /\ forall rest, parse_pkg (bs ++ rest) = Some (c, rest).
Proof.
  unfold PKG_MAX. intros Hc Hb. unfold with_pkg_length. cbn [mbind option_bind].
  set (fits := fun size => Z.of_nat (length (aml_length (Z.of_nat (length c) + size))) =? size).
  assert (exists size, List.find fits [1; 2; 3; 4] = Some size /\ 1 <= size <= 4 /\ fits size = true) as (size & Hf & Hs & E).
  { assert (existsb fits [1; 2; 3; 4] = true) as (x & Hx & E)%existsb_exists.
    { unfold fits. cbn [existsb]. rewrite !aml_length_size. repeat case_match; try done; exfalso; lia. }
    destruct (List.find fits [1; 2; 3; 4]) as [y|] eqn:Ef.
    - apply find_some in Ef as [Hy Ey]. exists y. repeat split; try done; cbn in Hy; lia.
    - pose proof (find_none _ _ Ef x Hx). congruence. }
  rewrite Hf. unfold fits in E. apply Z.eqb_eq in E. eexists. split; [done|]. split; [apply Forall_app; split; [apply aml_length_byte; lia|done]|].
  repeat split; [rewrite length_app; lia..|]. intros rest. unfold parse_pkg. rewrite <- app_assoc, parse_aml_length by (unfold PKG_MAX; lia).
  cbn [mbind option_bind]. rewrite !length_app. destruct (Z.ltb_spec (Z.of_nat (length c) + size)
    (Z.of_nat (length (aml_length (Z.of_nat (length c) + size)) + (length c + length rest)) - Z.of_nat (length c + length rest))); [lia|].
  apply parse_bytes_app'. lia.
Qed.

(** ** Integers and names *)

Lemma le_byte_spec v i : 0 <= v < 2 ^ 32 -> 0 <= i < 8 -> le_byte v i = v / 2 ^ (8 * i) mod 256.
Proof.
  intros Hv Hi. unfold le_byte, js_and. change (i32 0xFF) with 0xFF. destruct (Z.ltb_spec i 4).
  - unfold shr32. rewrite u32_id by done. rewrite land_small by lia. rewrite Z.shiftr_div_pow2 by lia.
    rewrite land_ff. unfold i32. assert (0 <= v / 2 ^ (8 * i) < 2 ^ 32).
    { split; [apply Z.div_pos; lia|]. apply Z.div_lt_upper_bound; [lia|]. pose proof (Z.pow_pos_nonneg 2 (8 * i)). nia. }
    rewrite (Z.mod_small (_ / _)) by lia. case_match; [done|]. replace (v / 2 ^ (8 * i) - 2 ^ 32) with (v / 2 ^ (8 * i) + (- 2 ^ 24) * 256) by lia.
    by rewrite Z.mod_add by lia.
  - assert (v / 2 ^ (8 * i) = 0) as ->; [|done]. apply Z.div_small. split; [lia|].
    pose proof (Z.pow_le_mono_r 2 32 (8 * i)). lia.
Qed.

Lemma le_length v n : length (le v n) = Z.to_nat n.
Proof. unfold le. by rewrite length_map, length_seqZ. Qed.

Lemma from_le_le4 v : 0 <= v < 2 ^ 32 -> from_le (le v 4) = v.
Proof.
  intros Hv. unfold le. change (seqZ 0 4) with [0; 1; 2; 3]. cbn [map from_le foldr]. rewrite !le_byte_spec by lia.
  cbn -[Z.div Z.modulo Z.mul]. Z.div_mod_to_equations. lia.
Qed.

Lemma parse_aml_int v rest : uint32 v -> parse_int (aml_int_bytes v ++ rest) = Some (v, rest).
Proof.
  intros Hv. unfold aml_int_bytes. repeat case_match; cbn [app].
  - cbn. do 2 f_equal. lia.
  - cbn. do 2 f_equal. lia.
  - assert (forall a, parse_int (BYTE_PREFIX :: a :: rest) = Some (a + 256 * 0, rest)) as -> by done. do 2 f_equal. lia.
  - assert (forall a b, parse_int (WORD_PREFIX :: a :: b :: rest) = Some (a + 256 * (b + 256 * 0), rest)) as -> by done.
    rewrite land_ff, Z.shiftr_div_pow2 by lia. do 2 f_equal. change (2 ^ 8) with 256. unfold uint32 in Hv. Z.div_mod_to_equations. lia.
  - unfold parse_int. cbn -[parse_bytes le from_le]. rewrite (parse_bytes_app' 4) by (by rewrite le_length).
    cbn [mbind option_bind]. by rewrite from_le_le4.
Qed.

Lemma le_Forall_byte v n : Forall byte (le v n).
Proof. apply Forall_map, Forall_forall. intros i _. unfold le_byte, js_and. change (i32 0xFF) with 0xFF. case_match; apply land_ff_byte. Qed.

Lemma aml_int_byte v : uint32 v -> Forall byte (aml_int_bytes v).
Proof.
  unfold uint32. intros Hv. unfold aml_int_bytes.
  repeat case_match; repeat lazymatch goal with
    | |- Forall _ (_ :: _) => apply Forall_cons_2; [try (unfold byte, ZERO_OP, ONE_OP, BYTE_PREFIX, WORD_PREFIX, DWORD_PREFIX; lia)|]
    | |- Forall _ [] => apply Forall_nil_2
    end.
  - apply land_ff_byte.
  - unfold byte. rewrite Z.shiftr_div_pow2 by lia. change (2 ^ 8) with 256. Z.div_mod_to_equations. lia.
  - apply le_Forall_byte.
Qed.

Lemma codes_byte s : Forall byte (codes s).
Proof.
  apply Forall_map, Forall_forall. intros c _. unfold byte, char_code. pose proof (Ascii.nat_ascii_bounded c). change (2 ^ 8) with 256. lia.
Qed.

Lemma aml_int_size v : (0 < length (aml_int_bytes v) <= 5)%nat.
Proof. unfold aml_int_bytes. repeat case_match; cbn [length]; rewrite ?le_length; lia. Qed.

Definition segments (path : string) : list (list Z) :=
  match (split_prefix (codes path)).2 with [] => [] | l => split_dots l end.
Definition name_of (path : string) : name := mk_name (split_prefix (codes path)).1 (map name_seg (segments path)).

(** At least one segment, each of one to four characters with a proper first one. *)
Definition seg_ok (seg : list Z) : bool := (length seg <=? 4)%nat && match seg with c :: _ => is_lead c | [] => false end.
Definition path_ok (path : string) : bool :=
  match segments path with [] => false | l => forallb seg_ok l && (length l <=? 255)%nat end.

Lemma parse_seg_ok seg rest : seg_ok seg = true -> parse_seg (name_seg seg ++ rest) = Some (name_seg seg, rest).
Proof.
  intros [Hl%Nat.leb_le Hc]%andb_true_iff. unfold parse_seg. rewrite (parse_bytes_app' 4).
  - cbn [mbind option_bind]. destruct seg as [|c seg]; [done|]. cbn. by rewrite Hc.
  - unfold name_seg, pad_end. rewrite length_app, length_replicate. lia.
Qed.

Lemma parse_segs_seq l rest :
  forallb seg_ok l = true -> parse_seq parse_seg (length l) ((l ≫= name_seg) ++ rest) = Some (map name_seg l, rest).
Proof.
  induction l as [|seg l IH]; [done|]. intros [Hs Hl]%andb_true_iff. cbn [mbind list_bind length parse_seq map].
  rewrite <- app_assoc, parse_seg_ok by done. cbn [mbind option_bind]. fold (@mbind list list_bind Z (list Z)). by rewrite IH.
Qed.

Lemma name_seg_head seg : seg_ok seg = true -> exists c r, name_seg seg = c :: r /\ is_lead c = true.
Proof. intros [_ Hc]%andb_true_iff. destruct seg as [|c seg]; [done|]. eexists c, _. cbn. by split. Qed.

Lemma is_lead_ne c : is_lead c = true -> c <> 0 /\ is_prefix c = false /\ (c =? 0x2E) = false /\ (c =? 0x2F) = false.
Proof. unfold is_lead, is_prefix. intros. lia. Qed.

Lemma split_prefix_head path : match (split_prefix path).2 with c :: _ => is_prefix c = false | [] => True end.
Proof.
  induction path as [|c path IH]; [done|]. cbn [split_prefix]. destruct ((c =? 92) || (c =? 94)) eqn:E; [done|exact E].
Qed.

Lemma parse_prefix_app path r :
  match r with c :: _ => is_prefix c = false | [] => True end ->
  parse_prefix ((split_prefix path).1 ++ r) = ((split_prefix path).1, r).
Proof.
  intros Hr. induction path as [|c path IH]; cbn [split_prefix].
  - destruct r as [|d r]; [done|]. cbn. by rewrite Hr.
  - destruct ((c =? 92) || (c =? 94)) eqn:E; cbn [fst app parse_prefix].
    + unfold is_prefix at 1. rewrite E, IH. done.
    + destruct r as [|d r]; [done|]. cbn. by rewrite Hr.
Qed.

Definition name_weight (n : name) : Z := Z.of_nat (length (prefix n)) + 2 + 4 * Z.of_nat (length (segs n)).

Lemma segs_length l : forallb seg_ok l = true -> length (l ≫= name_seg) = (4 * length l)%nat.
Proof.
  induction l as [|seg l IH]; [done|]. intros [Hs Hl]%andb_true_iff. cbn [mbind list_bind length]. rewrite length_app.
  fold (@mbind list list_bind Z (list Z)). rewrite IH by done. apply andb_true_iff in Hs as [Hs%Nat.leb_le _].
  unfold name_seg, pad_end. rewrite length_app, length_replicate. lia.
Qed.

(** The encoding of the segments, its first byte and its parse. *)
Definition encode_segs (l : list (list Z)) : list Z :=
  match l with
  | [] => [0x00]
  | [a] => name_seg a
  | [a; b] => DUAL_NAME_PREFIX :: name_seg a ++ name_seg b
  | _ => MULTI_NAME_PREFIX :: Z.of_nat (length l) :: (l ≫= name_seg)
  end.

Lemma encode_segs_ok l :
  l <> [] -> forallb seg_ok l = true -> (length l <= 255)%nat ->
  (forall rest, parse_segs (encode_segs l ++ rest) = Some (map name_seg l, rest)) /\
  (exists c r, encode_segs l = c :: r /\ is_prefix c = false /\ is_name_start c = true) /\
  (length (encode_segs l) <= 2 + 4 * length l)%nat.
Proof.
  intros Hne Hl Hn. pose proof (segs_length l Hl) as Hlen. destruct l as [|a [|b [|c l]]]; [done| | |].
  - cbn in Hl. rewrite andb_true_r in Hl. destruct (name_seg_head a Hl) as (c & r & E & Hc).
    destruct (is_lead_ne c Hc) as (H0 & Hp & H1 & H2). cbn [encode_segs]. repeat split.
    + intros rest. unfold parse_segs. rewrite E. cbn [app]. rewrite H1, H2. destruct (Z.eqb_spec c 0); [done|].
      change (c :: r ++ rest) with ((c :: r) ++ rest). rewrite <- E. cbn [parse_seq]. by rewrite parse_seg_ok.
    + exists c, r. repeat split; [done..|]. unfold is_name_start. by rewrite Hc.
    + cbn [mbind list_bind] in Hlen. rewrite app_nil_r in Hlen. cbn [length] in *. lia.
  - repeat split.
    + intros rest. cbn [encode_segs app]. unfold parse_segs. cbn [DUAL_NAME_PREFIX Z.eqb Pos.eqb].
      pose proof (parse_segs_seq [a; b] rest Hl) as H. cbn [mbind list_bind length] in H. by rewrite app_nil_r in H.
    + eexists _, _. by repeat split.
    + cbn [encode_segs length]. cbn [mbind list_bind] in Hlen. rewrite app_nil_r in Hlen. cbn [length] in Hlen. lia.
  - set (l' := a :: b :: c :: l) in *. assert (encode_segs l' = MULTI_NAME_PREFIX :: Z.of_nat (length l') :: (l' ≫= name_seg)) as -> by done.
    repeat split.
    + intros rest. cbn [app]. unfold parse_segs. cbn [MULTI_NAME_PREFIX Z.eqb Pos.eqb parse_byte mbind option_bind].
      rewrite Nat2Z.id. by apply parse_segs_seq.
    + eexists _, _. by repeat split.
    + cbn [length]. rewrite Hlen. lia.
Qed.

Lemma split_prefix_byte l : Forall byte l -> Forall byte (split_prefix l).1 /\ Forall byte (split_prefix l).2.
Proof.
  induction 1 as [|c l Hc Hl [IH1 IH2]]; cbn [split_prefix]; [by split|]. destruct ((c =? 92) || (c =? 94)); cbn [fst snd]; split; first [done|by constructor].
Qed.

Lemma split_dots_byte l : Forall byte l -> Forall (Forall byte) (split_dots l).
Proof.
  induction 1 as [|c l Hc Hl IH]; cbn [split_dots]; [by apply Forall_singleton|]. destruct (c =? 46); [by apply Forall_cons_2|].
  destruct (split_dots l) as [|seg segs]; [by apply Forall_singleton, Forall_singleton|]. apply Forall_cons in IH as [? ?].
  apply Forall_cons_2; [by apply Forall_cons_2|done].
Qed.

Lemma name_seg_byte seg : Forall byte seg -> Forall byte (name_seg seg).
Proof.
  intros H. apply Forall_app. split; [done|]. apply Forall_replicate. unfold byte. lia.
Qed.

Lemma encode_segs_byte l : Forall (Forall byte) l -> (length l <= 255)%nat -> Forall byte (encode_segs l).
Proof.
  intros H Hl. assert (Forall byte (l ≫= name_seg)) as Hb.
  { apply Forall_bind. eapply Forall_impl; [exact H|]. apply name_seg_byte. }
  assert (forall z, 0 <= z < 256 -> byte z) as Hz by done.
  destruct l as [|a [|b [|c l]]]; cbn [encode_segs].
  - apply Forall_singleton, Hz. lia.
  - apply Forall_cons in H as [Ha _]. by apply name_seg_byte.
  - cbn [mbind list_bind] in Hb. rewrite app_nil_r in Hb. apply Forall_cons. split; [apply Hz; unfold DUAL_NAME_PREFIX; lia|done].
  - apply Forall_cons. split; [apply Hz; unfold MULTI_NAME_PREFIX; lia|]. apply Forall_cons. split; [apply Hz; lia|done].
Qed.

(** What [aml_name] writes is read back as the name. *)
Lemma aml_name_ok path :
  path_ok path = true ->
  exists bs, aml_name path = Some bs /\ Forall byte bs /\ (exists c r, bs = c :: r /\ is_name_start c = true) /\
    Z.of_nat (length bs) <= name_weight (name_of path) /\ forall rest, parse_name (bs ++ rest) = Some (name_of path, rest).
Proof.
  intros H. set (l := segments path) in *. assert (aml_name path = Some ((split_prefix (codes path)).1 ++ encode_segs l)) as ->.
  { unfold aml_name, l, segments. destruct (split_prefix (codes path)) as [pre []]; reflexivity. }
  assert (l <> [] /\ forallb seg_ok l = true /\ (length l <= 255)%nat) as (Hne & Hl & Hn).
  { unfold path_ok in H. fold l in H. destruct l; [done|]. apply andb_true_iff in H as [? ?%Nat.leb_le]. by split. }
  destruct (encode_segs_ok l Hne Hl Hn) as (Hp & (c & r & E & Hc & Hs) & Hlen). eexists. split; [done|].
  destruct (split_prefix_byte (codes path) (codes_byte path)) as [Hb1 Hb2].
  assert (Forall (Forall byte) l) as Hbl.
  { unfold l, segments. destruct (split_prefix (codes path)).2; [constructor|]. by apply split_dots_byte. }
  split; [apply Forall_app; split; [done|by apply encode_segs_byte]|]. repeat split.
  - pose proof (split_prefix_head (codes path)). destruct (codes path) as [|d path']; cbn [split_prefix]; [by eexists _, _|].
    destruct ((d =? 92) || (d =? 94)) eqn:Ed; cbn [fst app]; [|by eexists _, _].
    eexists _, _. split; [done|]. unfold is_name_start, is_prefix. rewrite Ed. by rewrite !orb_true_r.
  - unfold name_weight, name_of. cbn [prefix segs]. fold l. rewrite length_map, length_app. lia.
  - intros rest. unfold parse_name. rewrite <- app_assoc. rewrite parse_prefix_app by (by rewrite E).
    rewrite Hp. done.
Qed.

(** ** From helpers to terms *)

Definition max_of (l : list nat) : nat := foldr Nat.max 0%nat l.
Definition sum_of (l : list Z) : Z := foldr Z.add 0 l.

(** How deep a term nests (the fuel its parse takes), and a bound on its bytes. *)
Fixpoint depth (t : term) : nat :=
  match t with
  | Int _ | Arg _ | Local _ | Buffer _ | OpRegion _ _ _ _ | Field _ _ _ | Noop => 1
  | Ref _ ts | Scope _ ts | Device _ ts | Package ts | Method _ _ _ ts | Processor _ _ ts | Else ts => S (max_of (map depth ts))
  | Name _ t | Return t | LNot t | CreateDWordField t _ _ => S (depth t)
  | Store a b | LLess a b | LEqual a b => S (depth a `max` depth b)
  | And a b target | Or a b target =>
      S (depth a `max` (depth b `max` match target with Some t => depth t | None => 0 end))
  | If c ts => S (depth c `max` max_of (map depth ts))
  end%nat.

Fixpoint weight (t : term) : Z :=
  match t with
  | Int _ => 5
  | Arg _ | Local _ | Noop => 1
  | Ref n ts => name_weight n + sum_of (map weight ts)
  | Name n t => 1 + (name_weight n + weight t)
  | Scope n ts => 1 + (name_weight n + sum_of (map weight ts) + 4)
  | Device n ts => 2 + (name_weight n + sum_of (map weight ts) + 4)
  | Package ts => 1 + (1 + sum_of (map weight ts) + 4)
  | Buffer l => 10 + Z.of_nat (length l)
  | Method n _ _ ts => 1 + (name_weight n + 1 + sum_of (map weight ts) + 4)
  | Processor n _ ts => 2 + (name_weight n + 6 + sum_of (map weight ts) + 4)
  | OpRegion n _ _ _ => 2 + (name_weight n + 1 + (5 + 5))
  | Field n _ l => 7 + name_weight n + 8 * Z.of_nat (length l)
  | Return t | LNot t => 1 + weight t
  | Store a b | LLess a b | LEqual a b => 1 + (weight a + weight b)
  | And a b target | Or a b target =>
      1 + (weight a + (weight b + match target with Some t => weight t | None => 1 end))
  | If c ts => 1 + (weight c + sum_of (map weight ts) + 4)
  | Else ts => 1 + (0 + sum_of (map weight ts) + 4)
  | CreateDWordField t _ n => 1 + (weight t + (5 + name_weight n))
  end.

(** The elements of [a] are there and are bytes, at most [w] of them, and the parser reads them as
    [v] with any fuel from [d] on, whatever follows. *)
Definition yields {A} (a : aml) (q : nat -> parser A) (v : A) (d : nat) (w : Z) : Prop :=
  0 <= w /\ (w < PKG_MAX -> exists bs, a = Some bs /\ Forall byte bs /\ (d <= length bs)%nat /\ Z.of_nat (length bs) <= w /\
    forall f rest, (d <= f)%nat -> q f (bs ++ rest) = Some (v, rest)).

Lemma yields_name path : path_ok path = true -> yields (aml_name path) (fun _ => parse_name) (name_of path) 0 (name_weight (name_of path)).
Proof.
  intros H. destruct (aml_name_ok path H) as (bs & E & Hb & _ & Hl & Hp). split; [unfold name_weight; lia|].
  intros _. exists bs. split; [done|]. split; [done|]. repeat split; [lia|done|auto].
Qed.

Lemma yields_int v : uint32 v -> yields (aml_int v) (fun _ => parse_int) v 0 5.
Proof.
  intros H. split; [lia|]. intros _. eexists. split; [done|]. split; [by apply aml_int_byte|]. pose proof (aml_int_size v). repeat split; [lia|lia|].
  intros _ rest _. by apply parse_aml_int.
Qed.

Lemma yields_byte b : byte b -> yields (raw [b]) (fun _ => parse_byte) b 0 1.
Proof. intros Hb. split; [lia|]. intros _. exists [b]. split; [done|]. split; [by apply Forall_singleton|]. repeat split; cbn; lia. Qed.

Lemma yields_pair {A B} a b (q : nat -> parser A) (q' : nat -> parser B) v v' d d' w w' :
  yields a q v d w -> yields b q' v' d' w' ->
  yields (a +++ b) (fun f => pair_of (q f) (q' f)) (v, v') (d `max` d') (w + w').
Proof.
  intros [Hw H1] [Hw' H2]. split; [lia|]. intros Hlt.
  destruct H1 as (bs & -> & Hb & Hd & Hl & Hp); [lia|]. destruct H2 as (bs' & -> & Hb' & Hd' & Hl' & Hp'); [lia|].
  exists (bs ++ bs'). cbn. split; [done|]. split; [by apply Forall_app|]. rewrite length_app. repeat split; [lia|lia|]. intros f rest Hf.
  unfold pair_of. rewrite <- app_assoc, Hp by lia. cbn [mbind option_bind]. by rewrite Hp' by lia.
Qed.

Lemma cat_assoc (a b c : aml) : a +++ b +++ c = (a +++ b) +++ c.
Proof. destruct a, b, c; try done. cbn. by rewrite app_assoc. Qed.

(** Opcodes. *)
Definition ops_ok (ops : list Z) : bool :=
  match ops with [] => false | _ => forallb (fun b => (0 <=? b) && (b <? 256)) ops end.
Lemma ops_ok_spec ops : ops_ok ops = true -> ops <> [] /\ Forall byte ops.
Proof.
  destruct ops as [|b ops]; [done|]. unfold ops_ok. rewrite forallb_forall. intros H. split; [done|].
  apply Forall_forall. intros x Hx%list_elem_of_In%H. unfold byte. change (2 ^ 8) with 256. lia.
Qed.

Section denotes.
Variable (arity : name -> nat).

Definition denotes (a : aml) (t : term) : Prop := yields a (parse arity) t (depth t) (weight t).

Lemma denotes_op {A} ops a (q : nat -> parser A) v d w t :
  yields a q v d w -> ops_ok ops = true -> depth t = S d -> weight t = Z.of_nat (length ops) + w ->
  (forall f r rest, q f r = Some (v, rest) -> parse arity (S f) (ops ++ r) = Some (t, rest)) ->
  denotes (raw ops +++ a) t.
Proof.
  intros [Hw H] [Hne Hops]%ops_ok_spec Hd Hwt Hp. unfold denotes. rewrite Hd, Hwt. split; [lia|]. intros Hlt.
  destruct H as (bs & -> & Hb & Hdb & Hl & Hq); [lia|]. exists (ops ++ bs). cbn [cat raw mbind option_bind].
  split; [done|]. split; [by apply Forall_app|].
  assert (0 < length ops)%nat by (destruct ops; [done|cbn; lia]).
  rewrite length_app. repeat split; [lia|lia|]. intros [|f] rest Hf; [lia|]. rewrite <- app_assoc. apply Hp, Hq. lia.
Qed.

Lemma parse_region_app {A} (p : parser A) (bs : list Z) n x r l :
  p bs = Some (x, r) -> bs <> [] -> parse_region p n r = Some l -> parse_region p (S n) bs = Some (x :: l).
Proof. intros Hp Hne Hr. destruct bs; [done|]. cbn [parse_region]. rewrite Hp. cbn [mbind option_bind]. by rewrite Hr. Qed.

Lemma denotes_flat terms ts :
  Forall2 denotes terms ts ->
  let d := max_of (map depth ts) in
  yields (flat terms) (fun f => parse_seq (parse arity f) (length ts)) ts d (sum_of (map weight ts)) /\
  (sum_of (map weight ts) < PKG_MAX -> forall bs f n, flat terms = Some bs -> (d <= f)%nat -> (length bs <= n)%nat ->
     parse_region (parse arity f) n bs = Some ts).
Proof.
  induction 1 as [|a t terms ts [Hw Ha] _ [[Hws IHy] IHr]]; cbn [flat foldr map max_of sum_of length].
  { split; [split; [lia|]; intros _; exists []; split; [done|]; split; [constructor|]; repeat split; cbn; lia|]. intros _ bs f n [= <-] _ _. by destruct n. }
  fold (sum_of (map weight ts)) in *. fold (max_of (map depth ts)) in *. fold (flat terms) in *. split.
  - split; [lia|]. intros Hlt. destruct Ha as (b1 & -> & Hb1 & Hd1 & Hl1 & Hp1); [lia|]. destruct IHy as (b2 & -> & Hb2 & Hd2 & Hl2 & Hp2); [lia|].
    exists (b1 ++ b2). cbn [cat mbind option_bind]. split; [done|]. split; [by apply Forall_app|]. rewrite length_app. repeat split; [lia|lia|]. intros f rest Hf.
    cbn [parse_seq]. rewrite <- app_assoc, Hp1 by lia. cbn [mbind option_bind]. by rewrite Hp2 by lia.
  - intros Hlt bs f n E Hf Hn. destruct Ha as (b1 & -> & Hb1 & Hd1 & Hl1 & Hp1); [lia|]. destruct IHy as (b2 & E2 & Hb2 & Hd2 & Hl2 & Hp2); [lia|].
    rewrite E2 in E. cbn in E. simplify_eq. assert (0 < length b1)%nat by (destruct t; cbn in Hd1; lia).
    rewrite length_app in Hn. destruct n as [|n]; [lia|]. eapply parse_region_app; [apply Hp1; lia| |apply IHr; [lia|done|lia|lia]].
    destruct b1; [cbn in *; lia|done].
Qed.

Lemma yields_body {A} hdr terms (q : nat -> parser A) h d w ts :
  yields hdr q h d w -> Forall2 denotes terms ts ->
  yields (with_pkg_length (hdr +++ flat terms)) (fun f => parse_body (q f) (parse arity f)) (h, ts) (d `max` max_of (map depth ts))
    (w + sum_of (map weight ts) + 4).
Proof.
  intros [Hw Hh] Hts. destruct (denotes_flat terms ts Hts) as [[Hws Hy] Hr]. split; [lia|]. intros Hlt.
  destruct Hh as (b1 & -> & Hb1 & Hd1 & Hl1 & Hp1); [lia|]. destruct Hy as (b2 & E2 & Hb2 & Hd2 & Hl2 & _); [lia|]. rewrite E2. cbn [cat mbind option_bind].
  destruct (with_pkg_length_ok (b1 ++ b2)) as (bs & -> & Hb & Hl & Hlt' & Hp); [rewrite length_app; lia|by apply Forall_app|].
  rewrite length_app in *. exists bs. split; [done|]. split; [done|]. repeat split; [lia|lia|]. intros f rest Hf.
  unfold parse_body. rewrite Hp. cbn [mbind option_bind]. rewrite Hp1 by lia. cbn [mbind option_bind].
  unfold parse_all. rewrite (Hr ltac:(lia) b2 f (length b2)) by (done || lia). done.
Qed.
Lemma denotes_int v : uint32 v -> denotes (aml_int v) (Int v).
Proof.
  intros H. destruct (yields_int v H) as [_ (bs & E & Hb & _ & Hl & Hp)]; [unfold PKG_MAX; lia|]. split; [cbn; lia|].
  intros _. exists bs. pose proof (aml_int_size v). injection E as <-. cbn [depth weight]. split; [done|]. split; [done|]. repeat split; [lia|done|].
  intros [|f] rest Hf; [lia|]. specialize (Hp 0%nat rest (le_n 0)). cbn [parse]. unfold parse_term.
  unfold aml_int_bytes in *. destruct (Z.eqb_spec v 0) as [->|]; [done|]. destruct (Z.eqb_spec v 1) as [->|]; [done|].
  destruct (v <=? 0xFF); [|destruct (v <=? 0xFFFF)]; cbn [app] in *.
  - change (map_result Int (parse_int (BYTE_PREFIX :: v :: rest)) = Some (Int v, rest)). by rewrite Hp.
  - change (map_result Int (parse_int (WORD_PREFIX :: (v .& 0xFF) :: (v .>> 8) :: rest)) = Some (Int v, rest)). by rewrite Hp.
  - change (map_result Int (parse_int (DWORD_PREFIX :: le v 4 ++ rest)) = Some (Int v, rest)). by rewrite Hp.
Qed.

Lemma denotes_byte b t :
  byte b -> depth t = 1%nat -> weight t = 1 -> (forall f rest, parse arity (S f) (b :: rest) = Some (t, rest)) -> denotes (raw [b]) t.
Proof.
  intros Hb Hd Hw Hp. unfold denotes. rewrite Hd, Hw. split; [lia|]. intros _. exists [b]. split; [done|].
  split; [by apply Forall_singleton|]. repeat split; cbn; [lia..|].
  intros [|f] rest Hf; [lia|apply Hp].
Qed.

Lemma denotes_arg n : 0 <= n <= 6 -> denotes (aml_arg n) (Arg n).
Proof.
  intros H. assert (n ∈ seqZ 0 7) as Hn by (apply elem_of_seqZ; lia). clear H. revert n Hn. apply Forall_forall.
  repeat (apply Forall_cons; split; [by apply denotes_byte|]). by apply Forall_nil.
Qed.

Lemma denotes_local n : 0 <= n <= 7 -> denotes (aml_local n) (Local n).
Proof.
  intros H. assert (n ∈ seqZ 0 8) as Hn by (apply elem_of_seqZ; lia). clear H. revert n Hn. apply Forall_forall.
  repeat (apply Forall_cons; split; [by apply denotes_byte|]). by apply Forall_nil.
Qed.

Lemma denotes_noop : denotes (raw [NOOP_OP]) Noop.
Proof. by apply denotes_byte. Qed.

Lemma denotes_ref path terms ts :
  path_ok path = true -> Forall2 denotes terms ts -> arity (name_of path) = length ts ->
  denotes (aml_name path +++ flat terms) (Ref (name_of path) ts).
Proof.
  intros Hpath Hts Ha. destruct (aml_name_ok path Hpath) as (nb & -> & Hnb & (c & r & E & Hc) & Hl & Hp).
  destruct (denotes_flat terms ts Hts) as [[Hw Hy] _]. split; [cbn; unfold name_weight; lia|]. cbn [depth weight]. intros Hlt.
  destruct Hy as (b2 & -> & Hb2 & Hd2 & Hl2 & Hp2); [unfold name_weight in *; lia|]. exists (nb ++ b2). cbn [cat mbind option_bind].
  split; [done|]. split; [by apply Forall_app|].
  subst nb. rewrite length_app in *. cbn [length] in *. repeat split; [lia|lia|]. intros [|f] rest Hf; [lia|].
  cbn [parse]. unfold parse_term. rewrite <- app_assoc. cbn [app]. rewrite Hc. change (c :: r ++ b2 ++ rest) with ((c :: r) ++ b2 ++ rest).
  rewrite Hp. cbn [mbind option_bind]. rewrite Ha, Hp2 by lia. done.
Qed.

Lemma denotes_var path : path_ok path = true -> arity (name_of path) = 0%nat -> denotes (aml_name path) (Ref (name_of path) []).
Proof.
  intros Hp Ha. pose proof (denotes_ref path [] [] Hp ltac:(constructor) Ha) as H. cbn [flat foldr] in H.
  destruct (aml_name_ok path Hp) as (nb & E & _). rewrite E in *. cbn in H. by rewrite app_nil_r in H.
Qed.

Lemma denotes_call path a t :
  path_ok path = true -> denotes a t -> arity (name_of path) = 1%nat -> denotes (aml_name path +++ a) (Ref (name_of path) [t]).
Proof.
  intros Hp Ht Ha. pose proof (denotes_ref path [a] [t] Hp ltac:(constructor; [done|constructor]) Ha) as H.
  cbn [flat foldr] in H. assert (a +++ Some [] = a) as E by (destruct a; cbn; [by rewrite app_nil_r|done]). by rewrite E in H.
Qed.
(** Operators: an opcode and what follows it. *)
Lemma denotes_name_decl path a t : path_ok path = true -> denotes a t -> denotes (aml_name_decl path a) (Name (name_of path) t).
Proof.
  intros Hp Ht. eapply denotes_op; [eapply yields_pair; [by apply yields_name|exact Ht]|done|done|done|].
  cbn beta. intros f r rest E. change (map_result (fun x => Name x.1 x.2) (pair_of parse_name (parse arity f) r) = Some (Name (name_of path) t, rest)).
  by rewrite E.
Qed.

Lemma denotes_return a t : denotes a t -> denotes (aml_return a) (Return t).
Proof.
  intros Ht. eapply denotes_op; [exact Ht|done..|]. intros f r rest E.
  change (map_result Return (parse arity f r) = Some (Return t, rest)). by rewrite E.
Qed.

Lemma denotes_lnot a t : denotes a t -> denotes (aml_lnot a) (LNot t).
Proof.
  intros Ht. eapply denotes_op; [exact Ht|done..|]. intros f r rest E.
  change (map_result LNot (parse arity f r) = Some (LNot t, rest)). by rewrite E.
Qed.

Lemma denotes_binary op (F : term -> term -> term) a b t u :
  ops_ok [op] = true ->
  (forall f r, parse arity (S f) (op :: r) = map_result (fun x => F x.1 x.2) (pair_of (parse arity f) (parse arity f) r)) ->
  depth (F t u) = S (depth t `max` depth u) -> weight (F t u) = 1 + (weight t + weight u) ->
  denotes a t -> denotes b u -> denotes (raw [op] +++ a +++ b) (F t u).
Proof.
  intros Ho Hp Hd Hw Ht Hu. eapply denotes_op; [eapply yields_pair; [exact Ht|exact Hu]|done|done|done|].
  cbn beta. intros f r rest E. cbn [app]. rewrite Hp, E. done.
Qed.

Lemma denotes_store a b t u : denotes a t -> denotes b u -> denotes (aml_store a b) (Store t u).
Proof. by apply denotes_binary. Qed.
Lemma denotes_lless a b t u : denotes a t -> denotes b u -> denotes (aml_lless a b) (LLess t u).
Proof. by apply denotes_binary. Qed.
Lemma denotes_lequal a b t u : denotes a t -> denotes b u -> denotes (aml_lequal a b) (LEqual t u).
Proof. by apply denotes_binary. Qed.

(** The target of an operator: a name, a local or an argument, or none. *)
Definition targets (a : aml) (target : option term) : Prop :=
  match target with
  | Some t => denotes a t /\ match t with Ref _ _ | Local _ | Arg _ => True | _ => False end
  | None => a = raw [0]
  end.
Definition target_depth (target : option term) : nat := match target with Some t => depth t | None => 0 end.
Definition target_weight (target : option term) : Z := match target with Some t => weight t | None => 1 end.

Lemma parse_not_null f bs t rest :
  parse arity f bs = Some (t, rest) -> match t with Int _ => False | _ => True end ->
  parse_target (parse arity f) bs = Some (Some t, rest).
Proof.
  intros E Ht. unfold parse_target. destruct bs as [|[|b|b] bs]; rewrite ?E; try done.
  destruct f as [|f]; [done|]. cbn in E. by simplify_eq.
Qed.

Lemma yields_target a target :
  targets a target -> yields a (fun f => parse_target (parse arity f)) target (target_depth target) (target_weight target).
Proof.
  destruct target as [t|]; cbn [targets target_depth target_weight].
  - intros [[Hw Ht] Hk]. split; [done|]. intros Hlt. destruct (Ht Hlt) as (bs & -> & Hb & Hd & Hl & Hp). exists bs.
    split; [done|]. split; [done|]. repeat split; [done..|]. intros f rest Hf. apply parse_not_null; [by apply Hp|]. by destruct t.
  - intros ->. split; [lia|]. intros _. exists [0]. split; [done|]. split; [by apply Forall_singleton|]. repeat split; cbn; lia.
Qed.

Lemma denotes_ternary op (F : term -> term -> option term -> term) a b c t u target :
  ops_ok [op] = true ->
  (forall f r, parse arity (S f) (op :: r) = map_result (fun x => F x.1 x.2.1 x.2.2)
     (pair_of (parse arity f) (pair_of (parse arity f) (parse_target (parse arity f))) r)) ->
  depth (F t u target) = S (depth t `max` (depth u `max` target_depth target)) ->
  weight (F t u target) = 1 + (weight t + (weight u + target_weight target)) ->
  denotes a t -> denotes b u -> targets c target -> denotes (raw [op] +++ a +++ b +++ c) (F t u target).
Proof.
  intros Ho Hp Hd Hw Ht Hu Hc.
  eapply denotes_op; [eapply yields_pair; [exact Ht|eapply yields_pair; [exact Hu|by apply yields_target]]|done|done|done|].
  cbn beta. intros f r rest E. cbn [app]. rewrite Hp, E. done.
Qed.

Lemma denotes_and a b c t u target : denotes a t -> denotes b u -> targets c target -> denotes (aml_and a b c) (And t u target).
Proof. by apply denotes_ternary. Qed.
Lemma denotes_or a b c t u target : denotes a t -> denotes b u -> targets c target -> denotes (aml_or a b c) (Or t u target).
Proof. by apply denotes_ternary. Qed.

Lemma denotes_create_dword_field a t i path :
  path_ok path = true -> uint32 i -> denotes a t ->
  denotes (aml_create_dword_field a i path) (CreateDWordField t i (name_of path)).
Proof.
  intros Hp Hi Ht.
  eapply denotes_op; [eapply yields_pair; [exact Ht|eapply yields_pair; [by apply yields_int|by apply yields_name]]|done|cbn; lia|done|].
  cbn beta. intros f r rest E.
  change (map_result (fun x => CreateDWordField x.1 x.2.1 x.2.2) (pair_of (parse arity f) (pair_of parse_int parse_name) r) =
    Some (CreateDWordField t i (name_of path), rest)). by rewrite E.
Qed.

Lemma denotes_op_region path space off len :
  path_ok path = true -> byte space -> uint32 off -> uint32 len ->
  denotes (aml_op_region path space off len) (OpRegion (name_of path) space off len).
Proof.
  intros Hp Hs Ho Hl. unfold aml_op_region.
  rewrite (cat_assoc (aml_name path)).
  eapply denotes_op; [eapply yields_pair; eapply yields_pair; [by apply yields_name|by apply yields_byte|by apply yields_int..]|done|done|done|].
  cbn beta. intros f r rest E. unfold pair_of at 1 in E.
  change (('((n, space0), r0) ← pair_of parse_name parse_byte r; '((o, l), r1) ← pair_of parse_int parse_int r0;
      Some (OpRegion n space0 o l, r1)) = Some (OpRegion (name_of path) space off len, rest)).
  destruct (pair_of parse_name parse_byte r) as [[[n sp] r0]|]; [|done]. cbn [mbind option_bind] in *.
  destruct (pair_of parse_int parse_int r0) as [[[o l] r1]|]; [|done]. cbn [mbind option_bind] in *. by simplify_eq.
Qed.
(** Packages: scopes, devices, methods and the like. *)
Lemma denotes_pkg {A} ops hdr terms (q : nat -> parser A) h d w ts t :
  yields hdr q h d w -> Forall2 denotes terms ts -> ops_ok ops = true -> depth t = S (d `max` max_of (map depth ts)) ->
  weight t = Z.of_nat (length ops) + (w + sum_of (map weight ts) + 4) ->
  (forall f r rest, parse_body (q f) (parse arity f) r = Some ((h, ts), rest) -> parse arity (S f) (ops ++ r) = Some (t, rest)) ->
  denotes (raw ops +++ with_pkg_length (hdr +++ flat terms)) t.
Proof. intros Hh Hts Hne Hd Hw Hp. eapply denotes_op; [by eapply yields_body|done..]. Qed.

Lemma denotes_scope path terms ts :
  path_ok path = true -> Forall2 denotes terms ts -> denotes (aml_scope path terms) (Scope (name_of path) ts).
Proof.
  intros Hp Hts. eapply denotes_pkg; [by apply yields_name|done|done|done|done|]. cbn beta. intros f r rest E.
  change (map_result (fun x => Scope x.1 x.2) (parse_body parse_name (parse arity f) r) = Some (Scope (name_of path) ts, rest)).
  by rewrite E.
Qed.

Lemma denotes_device path terms ts :
  path_ok path = true -> Forall2 denotes terms ts -> denotes (aml_device path terms) (Device (name_of path) ts).
Proof.
  intros Hp Hts. eapply denotes_pkg; [by apply yields_name|done|done|done|done|]. cbn beta. intros f r rest E.
  change (map_result (fun x => Device x.1 x.2) (parse_body parse_name (parse arity f) r) = Some (Device (name_of path) ts, rest)).
  by rewrite E.
Qed.

Lemma denotes_package terms ts : (length terms <= 255)%nat -> Forall2 denotes terms ts -> denotes (aml_package terms) (Package ts).
Proof.
  intros Hn Hts. eapply denotes_pkg; [apply yields_byte; unfold byte; lia|done|done|done|done|]. cbn beta. intros f r rest E.
  change (('((n, l), r) ← parse_body parse_byte (parse arity f) r;
    if n =? Z.of_nat (length l) then Some (Package l, r) else None) = Some (Package ts, rest)).
  rewrite E. cbn [mbind option_bind]. rewrite (Forall2_length _ _ _ Hts), Z.eqb_refl. done.
Qed.

Lemma method_flags argc (serialized : bool) :
  0 <= argc < 8 -> let b := argc .| (if serialized then 8 else 0) in byte b /\ b .& 7 = argc /\ Z.testbit b 3 = serialized.
Proof.
  intros H. assert (argc ∈ seqZ 0 8) as Hn by (apply elem_of_seqZ; lia). clear H. revert argc Hn. apply Forall_forall.
  change (seqZ 0 8) with [0; 1; 2; 3; 4; 5; 6; 7]. destruct serialized; repeat (apply Forall_cons_2; [by vm_compute|]); by apply Forall_nil_2.
Qed.

Lemma denotes_method path argc serialized terms ts :
  path_ok path = true -> 0 <= argc < 8 -> Forall2 denotes terms ts ->
  denotes (aml_method path argc serialized terms) (Method (name_of path) argc serialized ts).
Proof.
  intros Hp Ha Hts. destruct (method_flags argc serialized Ha) as (Hb & Ef & Es). unfold aml_method. rewrite (cat_assoc (aml_name path)).
  eapply denotes_pkg; [eapply yields_pair; [by apply yields_name|by apply yields_byte]|done|done|done|done|]. cbn beta. intros f r rest E.
  change (map_result (fun x => Method x.1.1 (x.1.2 .& 7) (Z.testbit x.1.2 3) x.2) (parse_body parse_method_header (parse arity f) r) =
    Some (Method (name_of path) argc serialized ts, rest)).
  unfold parse_method_header. rewrite E. cbn [map_result fst snd]. by rewrite Ef, Es.
Qed.

Lemma denotes_processor path id terms ts :
  path_ok path = true -> byte id -> Forall2 denotes terms ts -> denotes (aml_processor path id terms) (Processor (name_of path) id ts).
Proof.
  intros Hp Hid Hts. unfold aml_processor.
  assert (yields (aml_name path +++ raw [id] +++ raw (le 0 4) +++ raw [0]) (fun _ => parse_processor_header) (name_of path, id) 0
    (name_weight (name_of path) + 6)) as Hh.
  { destruct (aml_name_ok path Hp) as (nb & E & Hb & _ & Hl & Hn). rewrite E. split; [unfold name_weight; lia|]. intros _.
    eexists. split; [reflexivity|].
    split; [apply Forall_app; split; [done|]; apply Forall_cons_2; [done|]; apply Forall_app; split; [apply le_Forall_byte|by apply Forall_singleton]|].
    rewrite !length_app. cbn [length]. rewrite le_length. repeat split; [lia|lia|].
    intros _ rest _. rewrite <- !app_assoc. unfold parse_processor_header, pair_of. rewrite Hn. reflexivity. }
  assert (forall a b c d e : aml, a +++ b +++ c +++ d +++ e = (a +++ b +++ c +++ d) +++ e) as -> by (intros; by rewrite !cat_assoc).
  eapply denotes_pkg; [exact Hh|done|done|done|done|]. cbn beta. intros f r rest E.
  change (map_result (fun x => Processor x.1.1 x.1.2 x.2) (parse_body parse_processor_header (parse arity f) r) =
    Some (Processor (name_of path) id ts, rest)). by rewrite E.
Qed.

Lemma denotes_if a c terms ts : denotes a c -> Forall2 denotes terms ts -> denotes (aml_if a terms) (If c ts).
Proof.
  intros Hc Hts. eapply denotes_pkg; [exact Hc|done|done|done|done|]. intros f r rest E.
  change (map_result (fun x => If x.1 x.2) (parse_body (parse arity f) (parse arity f) r) = Some (If c ts, rest)). by rewrite E.
Qed.

Lemma denotes_else terms ts : Forall2 denotes terms ts -> denotes (aml_else terms) (Else ts).
Proof.
  intros Hts. unfold aml_else.
  assert (flat terms = Some [] +++ flat terms) as -> by (by destruct (flat terms)).
  eapply (denotes_pkg _ _ _ (fun _ c => Some (tt, c)) tt 0 0); [|done|done|done|done|].
  - split; [lia|]. intros _. exists []. split; [done|]. split; [constructor|]. by repeat split.
  - intros f r rest E.
    change (map_result (fun x => Else x.2) (parse_body (fun c => Some (tt, c)) (parse arity f) r) = Some (Else ts, rest)). by rewrite E.
Qed.
Lemma denotes_buffer bytes : Forall byte bytes -> denotes (aml_buffer bytes) (Buffer bytes).
Proof.
  intros Hb. split; [cbn; lia|]. cbn [weight depth]. intros Hlt. unfold aml_buffer, aml_int. cbn [cat raw mbind option_bind].
  pose proof (aml_int_size (Z.of_nat (length bytes))). unfold PKG_MAX in Hlt.
  destruct (with_pkg_length_ok (aml_int_bytes (Z.of_nat (length bytes)) ++ bytes)) as (bs & -> & Hbs & Hl & Hl' & Hp);
    [rewrite length_app; unfold PKG_MAX; lia|apply Forall_app; split; [apply aml_int_byte; unfold uint32; lia|done]|].
  rewrite length_app in *. eexists. split; [reflexivity|]. split; [by apply Forall_cons_2|]. cbn [app length]. repeat split; [lia|lia|].
  intros [|f] rest Hf; [lia|]. change (parse_buffer (bs ++ rest) = Some (Buffer bytes, rest)). unfold parse_buffer.
  rewrite Hp. cbn [mbind option_bind]. rewrite parse_aml_int by (unfold uint32; lia). cbn [mbind option_bind]. by rewrite Z.eqb_refl.
Qed.

Definition field_of (f : option string * Z) : option (list Z) * Z := (option_map (fun n => name_seg (codes n)) f.1, f.2).
Definition field_ok (f : option string * Z) : bool :=
  match f.1 with Some n => seg_ok (codes n) | None => true end && (0 <=? f.2) && (f.2 <? PKG_MAX).

Lemma field_entry_ok f :
  field_ok f = true -> Forall byte (field_entry f) /\ (1 < length (field_entry f) <= 8)%nat /\
  forall rest, parse_field_entry (field_entry f ++ rest) = Some (field_of f, rest).
Proof.
  destruct f as [n bits]. unfold field_ok, field_entry, field_of. cbn [fst snd]. intros [[Hn ?%Z.leb_le]%andb_true_iff ?%Z.ltb_lt]%andb_true_iff.
  assert (1 <= length (aml_length bits) <= 4)%nat as Hl by (pose proof (aml_length_size bits); repeat case_match; lia).
  destruct n as [n|]; cbn [option_map].
  - destruct (name_seg_head _ Hn) as (c & r & E & Hc). pose proof (segs_length [codes n]) as H4. cbn in H4. rewrite Hn, app_nil_r in H4.
    specialize (H4 eq_refl).
    split; [apply Forall_app; split; [apply name_seg_byte, codes_byte|by apply aml_length_byte]|]. split; [rewrite length_app; unfold name_seg in *; lia|]. intros rest. unfold parse_field_entry.
    rewrite <- app_assoc, E. cbn [app]. destruct (is_lead_ne c Hc) as [Hc0 _]. destruct (Z.eqb_spec c 0); [done|].
    change (c :: r ++ aml_length bits ++ rest) with ((c :: r) ++ aml_length bits ++ rest). rewrite <- E, parse_seg_ok by done.
    cbn [mbind option_bind]. by rewrite parse_aml_length by lia.
  - split; [apply Forall_cons_2; [done|by apply aml_length_byte]|]. split; [rewrite length_app; cbn; lia|]. intros rest. cbn -[aml_length parse_length]. by rewrite parse_aml_length by lia.
Qed.

Lemma parse_fields_ok fields n :
  forallb field_ok fields = true ->
  Forall byte (fields ≫= field_entry) /\ (length (fields ≫= field_entry) <= 8 * length fields)%nat /\
  ((length (fields ≫= field_entry) <= n)%nat -> parse_region parse_field_entry n (fields ≫= field_entry) = Some (map field_of fields)).
Proof.
  revert n. induction fields as [|f fields IH]; intros n; [intros _; split; [constructor|split; [done|by destruct n]]|]. intros [Hf Hfs]%andb_true_iff.
  destruct (field_entry_ok f Hf) as (Hb & Hl & Hp). cbn [mbind list_bind map length]. fold (@mbind list list_bind (option string * Z) Z).
  rewrite length_app. split; [apply Forall_app; split; [done|apply (IH n Hfs)]|]. split; [destruct (IH n Hfs) as (_ & ? & _); lia|]. intros Hn. destruct n as [|n]; [lia|].
  eapply parse_region_app; [apply Hp| |apply (IH n Hfs); lia]. destruct (field_entry f); [cbn in *; lia|done].
Qed.

Lemma denotes_field path flags fields :
  path_ok path = true -> byte flags -> forallb field_ok fields = true ->
  denotes (aml_field path flags fields) (Field (name_of path) flags (map field_of fields)).
Proof.
  intros Hp Hfl Hf. destruct (aml_name_ok path Hp) as (nb & E & Hb & _ & Hl & Hn). destruct (parse_fields_ok fields (length (fields ≫= field_entry)) Hf) as (Hbf & Hlf & Hpf).
  split; [cbn; unfold name_weight; lia|]. cbn [weight depth]. rewrite length_map. intros Hlt. unfold aml_field. rewrite E. cbn [cat raw mbind option_bind].
  set (l := fields ≫= field_entry) in *.
  destruct (with_pkg_length_ok (nb ++ [flags] ++ l)) as (bs & Eb & Hbb & Hlb & Hlb' & Hpb);
    [rewrite !length_app; cbn [length]; lia|apply Forall_app; split; [done|by apply Forall_cons_2]|].
  cbn [app] in *. fold l. rewrite Eb. rewrite !length_app in *. cbn [length] in *. eexists. split; [reflexivity|].
  split; [by apply Forall_cons_2, Forall_cons_2|]. cbn [app length]. repeat split; [lia|lia|]. intros [|f] rest Hfu; [lia|]. change (parse_fields (bs ++ rest) = Some (Field (name_of path) flags (map field_of fields), rest)).
  unfold parse_fields. rewrite Hpb. cbn [mbind option_bind]. unfold pair_of. rewrite Hn. cbn [mbind option_bind parse_byte].
  unfold parse_all. by rewrite Hpf.
Qed.
End denotes.

End Aml.
