(* ===== verification/Dsdt.v ===== *)
(** * What the DSDT of src/acpi_tables.js says

    The namespace each machine means to describe, as a tree of AML terms; the
    bytes of [build_dsdt_body] parse to exactly that tree, for every platform
    [create_platform] returns.  From the tree: the interrupt routing agrees with
    the PCI code, and the I/O ports are those of [platform_io_ranges]. *)

From S2P Require Import Prelude Acpi Hpet Pci Platform AcpiTables Aml.

Set Default Goal Selector "!".
Open Scope Z_scope.

Module Dsdt.
Import Platform AcpiTables Aml.

(** ** The trees *)

Definition device (path : string) (ts : list term) : term := Device (name_of path) ts.
Definition decl (path : string) (t : term) : term := Name (name_of path) t.
Definition var (path : string) : term := Ref (name_of path) [].
Definition call (path : string) (t : term) : term := Ref (name_of path) [t].
Definition method (path : string) (argc : Z) (serialized : bool) (ts : list term) : term :=
  Method (name_of path) argc serialized ts.
Definition resources (l : list (list Z)) : term := Buffer (concat l ++ [0x79; 0x00]).
Definition eisa (id : string) : term := Int (eisa_value id).

Definition isa_term (name hid : string) (res : list (list Z)) (uid : option Z) : term :=
  device name
    ([decl "_HID" (eisa hid)] ++ match uid with None => [] | Some u => [decl "_UID" (Int u)] end ++ [decl "_CRS" (resources res)]).

Definition fixed_isa_terms : list term :=
  [ isa_term "RTC" "PNP0B00" [res_io 0x70 2; res_irq_noflags [8]] None;
    isa_term "KBD" "PNP0303" [res_io 0x60 1; res_io 0x64 1; res_irq_noflags [1]] None;
    isa_term "MOU" "PNP0F13" [res_irq_noflags [12]] None;
    isa_term "FDC0" "PNP0700" [res_io 0x3F2 4; res_io 0x3F7 1; res_irq_noflags [6]; res_dma [2]] None ].
Definition chipset_isa_terms : list term :=
  [ isa_term "PIC" "PNP0000" [res_io 0x20 2; res_io 0xA0 2; res_io 0x4D0 2; res_irq_noflags [2]] None;
    isa_term "TMR" "PNP0100" [res_io 0x40 4; res_irq_noflags [0]] None;
    isa_term "DMAC" "PNP0200" [res_io 0x00 0x10; res_io 0x80 0x10; res_io 0xC0 0x20; res_dma [4]] None;
    isa_term "SPKR" "PNP0800" [res_io 0x61 1] None;
    isa_term "FPU" "PNP0C04" [res_io 0xF0 0x10; res_irq_noflags [13]] None ].
Definition com_term (u : isa_port) : term :=
  isa_term ("COM" ++ digit (index u + 1)) "PNP0501" [res_io (port u) 8; res_irq_noflags [irq u]] (Some (index u + 1)).
Definition lpt_term (u : isa_port) : term :=
  isa_term (if index u =? 0 then "LPT" else "LPT" ++ digit (index u + 1)) "PNP0400"
    [res_io (port u) 8; res_irq_noflags [irq u]] (Some (index u + 1)).
Definition isa_terms (p : t) : list term :=
  fixed_isa_terms ++ (if qemu_compatible p then [] else chipset_isa_terms)
  ++ map com_term (uarts p) ++ map lpt_term (parallel_ports p).

Definition sleep_term (s : Acpi.sleep_state) : term :=
  decl ("\_S" ++ digit (Acpi.ss_state s)) (Package [Int (Acpi.ss_slp_typ s); Int (Acpi.ss_slp_typ s); Int 0; Int 0]).
Definition sleep_terms (p : t) : list term := map sleep_term (List.filter Acpi.ss_supported (sleep_states p)).
Definition processor_terms (p : t) : list term :=
  imap (fun i _ => Processor (name_of ("CP" ++ hex2 (Z.of_nat i))) (Z.of_nat i) []) (apic_ids p).

Definition link_term (name field : string) (uid : Z) : term :=
  device name
    [ decl "_HID" (eisa "PNP0C0F"); decl "_UID" (Int uid);
      decl "_PRS" (resources [res_interrupt_shared_level PCI_LINK_IRQS]);
      method "_STA" 0 false [Return (call "IQST" (var field))];
      method "_DIS" 0 false [Or (var field) (Int 0x80) (Some (var field))];
      method "_CRS" 0 false [Return (call "IQCR" (var field))];
      method "_SRS" 1 false [CreateDWordField (Arg 0) 5 (name_of "PRRI"); Store (var "PRRI") (var field)] ].

Definition iqst_term : term :=
  method "IQST" 1 false [If (And (Int 0x80) (Arg 0) None) [Return (Int 0x09)]; Return (Int 0x0B)].
Definition iqcr_term : term :=
  method "IQCR" 1 true
    [ decl "PRR0" (resources [res_interrupt_shared_level [0]]);
      CreateDWordField (var "PRR0") 5 (name_of "PRRI");
      If (LLess (Arg 0) (Int 0x80)) [Store (Arg 0) (var "PRRI")];
      Return (var "PRR0") ].

Definition routing_terms (link : Z -> Z -> string) : list term :=
  seqZ 0 32 ≫= fun slot => map (fun pin =>
    Package [Int (u32 ((slot .<< 16) .| 0xFFFF)); Int pin; var (link slot pin); Int 0]) (seqZ 0 4).

Definition memory_window (p : t) (last_bus : Z) : list (list Z) :=
  [ res_word_bus 0x00 last_bus; res_io 0xCF8 8; res_word_io 0x0000 0x0CF7; res_word_io 0x0D00 0xFFFF;
    res_dword_memory 0xA0000 0xBFFFF; res_dword_memory (pci_mmio_start p) PCI_MMIO_END ].

Definition motherboard_term (res : list (list Z)) : term :=
  device "MBRS" [decl "_HID" (eisa "PNP0C02"); decl "_UID" (Int 1); decl "_CRS" (resources res)].

Definition i440fx_motherboard (p : t) (pm_base : Z) : list (list Z) :=
  [ res_io pm_base (pm_length (pm p)); res_io (w_base (gpe0_block p pm_base)) (w_size (gpe0_block p pm_base));
    res_io ACPI_SMI_CMD_PORT 2; res_io FW_CFG_PORT 2; res_io 0x92 1 ].

Definition i440fx_links : list term :=
  imap (fun i link => link_term link (nth_name PIRQ_FIELDS (Z.of_nat i)) (Z.of_nat i)) LINKS.
Definition i440fx_fields : term :=
  Field (name_of "PCI0.ISA.P40C") 1 (map field_of (map (fun name => (Some name, 8)) PIRQ_FIELDS)).

Definition i440fx_dsdt (p : t) (pm_base : Z) : list term :=
  [ Scope (name_of "\_SB")
      ([ device "PCI0"
           [ decl "_HID" (eisa "PNP0A03");
             decl "_UID" (Int (if qemu_compatible p then 0 else 1));
             decl "_CRS" (resources (memory_window p 0xFF));
             decl "_PRT" (Package (routing_terms (fun slot pin => nth_name LINKS (piix_link slot pin))));
             device "ISA"
               ([decl "_ADR" (Int 0x00010000); OpRegion (name_of "P40C") REGION_PCI_CONFIG 0x60 4]
                ++ isa_terms p ++ [motherboard_term (i440fx_motherboard p pm_base)]) ];
         i440fx_fields; iqst_term; iqcr_term ]
       ++ i440fx_links ++ processor_terms p) ]
  ++ sleep_terms p.

Definition q35_links : list term :=
  imap (fun i pirq => link_term ("LNK" ++ pirq) (nth_name Q35_PIRQ_FIELDS (Z.of_nat i)) (Z.of_nat i)) PIRQS.
Definition gsi_term (i : nat) (pirq : string) : term :=
  let res := resources [res_interrupt_shared_level [16 + Z.of_nat i]] in
  device ("GSI" ++ pirq)
    [ decl "_HID" (eisa "PNP0C0F"); decl "_UID" (Int (8 + Z.of_nat i)); decl "_PRS" res; decl "_CRS" res;
      method "_STA" 0 false [Return (Int 0x0B)]; method "_DIS" 0 false [Noop]; method "_SRS" 1 false [Noop] ].
Definition gsi_links : list term := imap gsi_term PIRQS.
Definition q35_fields : term :=
  Field (name_of "PCI0.ISA.PIRQ") 1
    (map field_of (map (fun name => (Some name, 8)) (take 4 Q35_PIRQ_FIELDS) ++ [(None, 32)]
       ++ map (fun name => (Some name, 8)) (drop 4 Q35_PIRQ_FIELDS))).
Definition q35_motherboard (p : t) (pm_base : Z) : list (list Z) :=
  [ res_io pm_base (pm_length (pm p)); res_io ACPI_SMI_CMD_PORT 2; res_io FW_CFG_PORT 2; res_io 0x92 1;
    res_memory32_fixed ICH9_RCBA_ADDRESS ICH9_RCBA_SIZE ].
Definition hpet_term : term :=
  device "HPET" [decl "_HID" (eisa "PNP0103"); decl "_UID" (Int 0); decl "_CRS" (resources [res_memory32_fixed Hpet.HPET_ADDRESS HPET_SIZE])].
Definition drac_term (ecam : window) : term :=
  device "DRAC" [decl "_HID" (eisa "PNP0C01"); decl "_UID" (Int 2); decl "_CRS" (resources [res_memory32_fixed (w_base ecam) (w_size ecam)])].

(** The host bridge's _OSC grants the five PCI Express features and reports what
    it masks. *)
Definition osc_term : term :=
  method "_OSC" 4 false
    [ CreateDWordField (Arg 3) 0 (name_of "CDW1");
      If (LEqual (Arg 0) (Buffer PCI_HOST_BRIDGE_UUID))
        [ CreateDWordField (Arg 3) 4 (name_of "CDW2");
          CreateDWordField (Arg 3) 8 (name_of "CDW3");
          Store (var "CDW3") (Local 0);
          And (Local 0) (Int 0x1F) (Some (Local 0));
          If (LNot (LEqual (Arg 1) (Int 1))) [Or (var "CDW1") (Int 0x08) (Some (var "CDW1"))];
          If (LNot (LEqual (var "CDW3") (Local 0))) [Or (var "CDW1") (Int 0x10) (Some (var "CDW1"))];
          Store (Local 0) (var "CDW3") ];
      Else [Or (var "CDW1") (Int 0x04) (Some (var "CDW1"))];
      Return (Arg 3) ].

Definition q35_routing (prefix : string) : term :=
  Package (routing_terms (fun d p => (prefix ++ nth_name PIRQS (pirq_of d p))%string)).

Definition q35_dsdt (p : t) (ecam : window) (pm_base : Z) : list term :=
  [ decl "\PICF" (Int 0);
    method "\_PIC" 1 false [Store (Arg 0) (var "\PICF")];
    Scope (name_of "\_SB")
      ([ device "PCI0"
           [ decl "_HID" (eisa "PNP0A08"); decl "_CID" (eisa "PNP0A03"); decl "_UID" (Int 0); decl "_SEG" (Int 0);
             decl "_BBN" (Int 0);
             decl "_CRS" (resources (memory_window p (w_size ecam / 0x100000 - 1)));
             decl "PRTP" (q35_routing "LNK"); decl "PRTA" (q35_routing "GSI");
             method "_PRT" 0 false [If (var "\PICF") [Return (var "PRTA")]; Return (var "PRTP")];
             osc_term;
             device "ISA"
               ([decl "_ADR" (Int 0x001F0000); OpRegion (name_of "PIRQ") REGION_PCI_CONFIG 0x60 0x0C]
                ++ isa_terms p ++ (if hpet p then [hpet_term] else []) ++ [motherboard_term (q35_motherboard p pm_base)]) ];
         q35_fields; iqst_term; iqcr_term ]
       ++ q35_links ++ gsi_links ++ [drac_term ecam] ++ processor_terms p) ]
  ++ sleep_terms p.

Definition dsdt (p : t) (pm_base : Z) : list term :=
  if machine_q35 p then match ecam p with Some w => q35_dsdt p w pm_base | None => [] end else i440fx_dsdt p pm_base.

(** The methods of the DSDT that take an argument. *)
Definition arity (n : name) : nat := if bool_decide (n = name_of "IQST" \/ n = name_of "IQCR") then 1%nat else 0%nat.

(** Reads a definition block to its end. *)
Definition parse_dsdt (bytes : list Z) : option (list term) := parse_all (parse arity (length bytes)) bytes.

(** ** The bytes denote the trees *)

Lemma denotes_var_of path : path_ok path = true -> arity (name_of path) = 0%nat -> denotes arity (aml_name path) (var path).
Proof. apply denotes_var. Qed.

(** Descriptors are bytes. *)
Definition byteb (b : Z) : bool := (0 <=? b) && (b <? 256).
Definition bytes_ok (l : list (list Z)) : bool := forallb (forallb byteb) l.

Lemma byteb_spec l : forallb byteb l = true -> Forall byte l.
Proof.
  rewrite forallb_forall. intros H. apply Forall_forall. intros x Hx%list_elem_of_In%H. unfold byteb in Hx. unfold byte. change (2 ^ 8) with 256. lia.
Qed.

Lemma bytes_ok_spec l : bytes_ok l = true -> Forall (Forall byte) l.
Proof. unfold bytes_ok. rewrite forallb_forall. intros H. apply Forall_forall. intros x Hx%list_elem_of_In%H. by apply byteb_spec. Qed.

Lemma res_io_byte base len : 0 <= base < 65536 -> byte len -> Forall byte (res_io base len).
Proof.
  intros Hb Hl. assert (byte (base .>> 8)).
  { unfold byte. rewrite Z.shiftr_div_pow2 by lia. change (2 ^ 8) with 256. Z.div_mod_to_equations. lia. }
  pose proof (land_ff_byte base). by repeat (apply Forall_cons_2; [done|]).
Qed.

Lemma res_irq_byte i : 0 <= i < 16 -> Forall byte (res_irq_noflags [i]).
Proof.
  intros H. assert (i ∈ seqZ 0 16) as Hi by (apply elem_of_seqZ; lia). clear H. revert i Hi. rewrite <- Forall_forall.
  change (seqZ 0 16) with [0; 1; 2; 3; 4; 5; 6; 7; 8; 9; 10; 11; 12; 13; 14; 15].
  repeat (apply Forall_cons_2; [by apply byteb_spec; vm_compute|]). by apply Forall_nil_2.
Qed.

Lemma res_word_byte type flags min max : byte type -> byte flags -> Forall byte (res_word_space type flags min max).
Proof.
  intros Ht Hf. unfold res_word_space. rewrite !Forall_app. split; [by repeat (apply Forall_cons_2; [done|])|].
  repeat split; apply le_Forall_byte.
Qed.

Lemma res_memory_byte a b : Forall byte (res_memory32_fixed a b) /\ Forall byte (res_dword_memory a b).
Proof.
  unfold res_memory32_fixed, res_dword_memory. rewrite !Forall_app.
  repeat split; try apply le_Forall_byte; by repeat (apply Forall_cons_2; [done|]).
Qed.

Lemma denotes_resources l : Forall (Forall byte) l -> denotes arity (aml_resources l) (resources l).
Proof.
  intros H. apply denotes_buffer, Forall_app. split; [by apply Forall_concat|]. by repeat (apply Forall_cons_2; [done|]).
Qed.

Lemma routing_length link : length (routing_entries link) = 128%nat.
Proof. reflexivity. Qed.

(** Walks through the calls of the helpers; [more] knows further ones. *)
Ltac denote_with more :=
  repeat match goal with
  | H : ?G |- ?G => exact H
  | |- Forall2 _ [] [] => constructor
  | |- Forall2 _ (_ :: _) (_ :: _) => constructor
  | |- Forall2 _ _ _ => fail 1
  | |- path_ok _ = true => vm_compute; reflexivity
  | |- arity _ = _ => vm_compute; reflexivity
  | |- uint32 _ => unfold uint32; vm_compute; split; [discriminate|reflexivity]
  | |- forallb field_ok _ = true => vm_compute; reflexivity
  | |- 0 <= _ <= _ => lia
  | |- 0 <= _ < _ => lia
  | |- targets _ _ (Some _) => split; [|exact I]
  | |- targets _ _ None => reflexivity
  | |- True => exact I
  | |- denotes _ (aml_scope _ _) _ => apply denotes_scope
  | |- denotes _ (aml_device _ _) _ => apply denotes_device
  | |- denotes _ (aml_method _ _ _ _) _ => apply denotes_method
  | |- denotes _ (aml_name_decl _ _) _ => apply denotes_name_decl
  | |- byte _ => unfold byte; vm_compute; split; [discriminate|reflexivity]
  | |- (length (routing_entries _) <= 255)%nat => rewrite routing_length; lia
  | |- (length _ <= 255)%nat => cbn; lia
  | |- Forall (Forall byte) _ => apply bytes_ok_spec; vm_compute; reflexivity
  | |- denotes _ (aml_package _) _ => apply denotes_package
  | |- denotes _ (aml_resources _) _ => apply denotes_resources
  | |- denotes _ (aml_buffer _) _ => apply denotes_buffer, byteb_spec; vm_compute; reflexivity
  | |- denotes _ (aml_eisa_id _) _ => apply denotes_int
  | |- denotes _ (aml_int _) _ => apply denotes_int
  | |- denotes _ (aml_arg _) _ => apply denotes_arg
  | |- denotes _ (aml_local _) _ => apply denotes_local
  | |- denotes _ (raw [NOOP_OP]) _ => apply denotes_noop
  | |- denotes _ (aml_return _) _ => apply denotes_return
  | |- denotes _ (aml_store _ _) _ => apply denotes_store
  | |- denotes _ (aml_and _ _ _) _ => apply denotes_and
  | |- denotes _ (aml_or _ _ _) _ => apply denotes_or
  | |- denotes _ (aml_lless _ _) _ => apply denotes_lless
  | |- denotes _ (aml_lequal _ _) _ => apply denotes_lequal
  | |- denotes _ (aml_lnot _) _ => apply denotes_lnot
  | |- denotes _ (aml_if _ _) _ => apply denotes_if
  | |- denotes _ (aml_else _) _ => apply denotes_else
  | |- denotes _ (aml_field _ _ _) _ => apply denotes_field
  | |- denotes _ (aml_op_region _ _ _ _) _ => apply denotes_op_region
  | |- denotes _ (aml_create_dword_field _ _ _) _ => apply denotes_create_dword_field
  | |- denotes _ (aml_name _ +++ _) _ => apply denotes_call
  | |- denotes _ (aml_name _) _ => apply denotes_var
  | |- denotes _ _ _ => more
  end.
Ltac denote := denote_with fail.

Lemma flat_skip a terms : flat (a :: raw [] :: terms) = flat (a :: terms).
Proof. cbn [flat foldr]. fold (flat terms). by destruct a, (flat terms). Qed.

Lemma denotes_isa name hid res uid :
  path_ok name = true -> uint32 (eisa_value hid) -> Forall (Forall byte) res -> match uid with Some u => uint32 u | None => True end ->
  denotes arity (isa_device name hid (aml_resources res) uid) (isa_term name hid res uid).
Proof.
  intros Hn Hh Hr Hu. unfold isa_device, isa_term, device, decl, eisa. destruct uid as [u|]; cbn [app]; [denote|].
  unfold aml_device. rewrite flat_skip. apply denotes_device; denote.
Qed.

Lemma Forall2_map_both {A} (f : A -> aml) (g : A -> term) l :
  Forall (fun x => denotes arity (f x) (g x)) l -> Forall2 (denotes arity) (map f l) (map g l).
Proof. induction 1; cbn; by constructor. Qed.

Lemma Forall2_imap_both {A} (f : nat -> A -> aml) (g : nat -> A -> term) l :
  (forall i x, l !! i = Some x -> denotes arity (f i x) (g i x)) -> Forall2 (denotes arity) (imap f l) (imap g l).
Proof.
  revert f g. induction l as [|x l IH]; intros f g H; cbn; [constructor|]. constructor; [by apply H|].
  apply (IH (f ∘ S) (g ∘ S)). intros i y Hi. by apply (H (S i)).
Qed.

(** Small numbers in names. *)
Lemma digit_paths k : 0 <= k < 10 ->
  path_ok ("COM" ++ digit k) = true /\ path_ok ("LPT" ++ digit k) = true /\ path_ok ("\_S" ++ digit k) = true.
Proof.
  intros H. assert (k ∈ seqZ 0 10) as Hk by (apply elem_of_seqZ; lia). clear H. revert k Hk. apply Forall_forall.
  repeat constructor.
Qed.

Lemma processor_paths i : 0 <= i < 16 -> path_ok ("CP" ++ hex2 i) = true.
Proof.
  intros H. assert (i ∈ seqZ 0 16) as Hi by (apply elem_of_seqZ; lia). clear H. revert i Hi. apply Forall_forall.
  repeat constructor.
Qed.

(** A port whose number, address and interrupt fit the descriptors. *)
Definition port_ok (u : isa_port) : Prop := 0 <= index u < 9 /\ 0 <= port u < 65536 /\ 0 <= irq u < 16.

Lemma port_res_byte u : port_ok u -> Forall (Forall byte) [res_io (port u) 8; res_irq_noflags [irq u]].
Proof.
  intros (_ & Hp & Hi). apply Forall_cons_2; [by apply res_io_byte|]. apply Forall_cons_2; [by apply res_irq_byte|]. by apply Forall_nil_2.
Qed.

Lemma denotes_isa_devices p :
  Forall port_ok (uarts p) -> Forall port_ok (parallel_ports p) ->
  Forall2 (denotes arity) (isa_devices_of p) (isa_terms p).
Proof.
  intros Hu Hp. unfold isa_devices_of, isa_terms, fixed_isa_terms, chipset_isa_terms. apply Forall2_app; [|apply Forall2_app; [|apply Forall2_app]].
  - denote_with ltac:(apply denotes_isa).
  - destruct (qemu_compatible p); [constructor|].
    denote_with ltac:(apply denotes_isa).
  - apply Forall2_map_both. eapply Forall_impl; [exact Hu|]. cbn beta. intros u Hi. pose proof (port_res_byte u Hi). destruct Hi as [Hi _].
    apply denotes_isa; [apply digit_paths; lia|vm_compute; split; [discriminate|reflexivity]|done|unfold uint32; lia].
  - apply Forall2_map_both. eapply Forall_impl; [exact Hp|]. cbn beta. intros u Hi. pose proof (port_res_byte u Hi). destruct Hi as [Hi _].
    apply denotes_isa; [|vm_compute; split; [discriminate|reflexivity]|done|unfold uint32; lia].
    destruct (index u =? 0); [vm_compute; reflexivity|apply digit_paths; lia].
Qed.

Lemma denotes_link name field uid :
  path_ok name = true -> path_ok field = true -> arity (name_of field) = 0%nat -> uint32 uid ->
  denotes arity (link_device name field uid) (link_term name field uid).
Proof. intros Hn Hf Ha Hu. unfold link_device, link_term, device, decl, method, call, var, resources, eisa. denote. Qed.

Lemma denotes_iqst : denotes arity method_IQST iqst_term.
Proof. unfold method_IQST, iqst_term, method. denote. Qed.

Lemma denotes_iqcr : denotes arity method_IQCR iqcr_term.
Proof. unfold method_IQCR, iqcr_term, method, decl, var. denote. Qed.

Lemma denotes_osc : denotes arity pci_host_bridge_osc osc_term.
Proof. unfold pci_host_bridge_osc, osc_term, method, var. cbv zeta. denote. Qed.

(** What the lists of a platform have to satisfy to be described. *)
Record describable (p : t) : Prop := {
  desc_uarts : Forall port_ok (uarts p) /\ (length (uarts p) <= 4)%nat;
  desc_parallel : Forall port_ok (parallel_ports p) /\ (length (parallel_ports p) <= 2)%nat;
  desc_cores : (length (apic_ids p) <= 8)%nat;
  desc_sleep : Forall (fun s => 0 <= Acpi.ss_state s < 10 /\ uint32 (Acpi.ss_slp_typ s)) (sleep_states p) /\
    (length (sleep_states p) <= 3)%nat;
  desc_ecam : machine_q35 p = true -> is_Some (ecam p);
  desc_pm : byte (pm_length (pm p)) /\ byte (gpe0_length (pm p)) /\ (machine_q35 p = false -> gpe0_offset (pm p) < 0 /\ 0 <= gpe0_base (pm p) < 65536)
}.

Lemma created_describable s size p : create_platform s size = inr p -> describable p.
Proof.
  intros [[[Hc Hi] _ _ _ _ _ _ _] [Hu Hp Hm Hs He]]%create_platform_inr. destruct (indexed_legacy s) as [E1 E2]. rewrite E1 in Hu. rewrite E2 in Hp.
  split.
  - rewrite Hu. repeat case_match; (split; [cbn [app]; repeat (apply Forall_cons; split; [unfold port_ok; cbn; lia|]); by apply Forall_nil|cbn; lia]).
  - rewrite Hp. repeat case_match; (split; [cbn [app]; repeat (apply Forall_cons; split; [unfold port_ok; cbn; lia|]); by apply Forall_nil|cbn; lia]).
  - rewrite Hi, length_seqZ. unfold MAX_CORES in Hc. lia.
  - rewrite Hs. destruct (machine_q35 p); (split; [unfold Acpi.Q35_SLEEP_STATES, Acpi.ACPI_SLEEP_STATES; cbn [map]; repeat (apply Forall_cons; split; [cbn; unfold uint32; lia|]); by apply Forall_nil|cbn; lia]).
  - intros Hq. rewrite He, Hq. by eexists.
  - rewrite Hm. destruct (machine_q35 p); done.
Qed.

Section described.
Variables (p : t).
Hypothesis Hp : describable p.

Lemma denotes_processors : Forall2 (denotes arity) (processors p) (processor_terms p).
Proof.
  apply Forall2_imap_both. intros i x Hi%lookup_lt_Some. pose proof (desc_cores p Hp).
  apply denotes_processor; [apply processor_paths; lia|unfold byte; lia|constructor].
Qed.

Lemma denotes_sleep : Forall2 (denotes arity) (sleep_state_packages p) (sleep_terms p).
Proof.
  apply Forall2_map_both. apply Forall_forall. intros s [Hs _]%list_elem_of_In%filter_In.
  destruct (desc_sleep p Hp) as [Hf _]. rewrite Forall_forall in Hf. destruct (Hf s) as [H1 H2]; [by apply list_elem_of_In|].
  unfold sleep_term, decl. apply denotes_name_decl; [by apply digit_paths|]. denote.
Qed.

Lemma denotes_routing (link : Z -> Z -> string) :
  (forall slot pin, 0 <= slot < 32 -> 0 <= pin < 4 -> path_ok (link slot pin) = true /\ arity (name_of (link slot pin)) = 0%nat) ->
  Forall2 (denotes arity) (routing_entries link) (routing_terms link).
Proof.
  intros Hl. unfold routing_entries, routing_terms.
  assert (forall l, Forall (fun slot => 0 <= slot < 32) l ->
    Forall2 (denotes arity) (l ≫= fun slot => map (fun pin =>
      aml_package [aml_int (u32 ((slot .<< 16) .| 0xFFFF)); aml_int pin; aml_name (link slot pin); aml_int 0]) (seqZ 0 4))
     (l ≫= fun slot => map (fun pin => Package [Int (u32 ((slot .<< 16) .| 0xFFFF)); Int pin; var (link slot pin); Int 0]) (seqZ 0 4))) as H.
  { induction 1 as [|slot l Hs Hls IH]; [constructor|]. cbn [mbind list_bind]. apply Forall2_app; [|exact IH].
    apply Forall2_map_both, Forall_forall. intros pin Hpin%elem_of_seqZ. destruct (Hl slot pin Hs ltac:(lia)) as [H1 H2].
    pose proof (u32_uint32 ((slot .<< 16) .| 0xFFFF)). assert (uint32 pin) by (unfold uint32; lia). unfold var. denote. }
  apply H, Forall_forall. intros slot Hs%elem_of_seqZ. lia.
Qed.

Lemma denotes_piix_routing :
  Forall2 (denotes arity) (routing_entries (fun slot pin => nth_name LINKS (piix_link slot pin)))
    (routing_terms (fun slot pin => nth_name LINKS (piix_link slot pin))).
Proof.
  apply denotes_routing. intros slot pin _ _. unfold piix_link. change 3 with (2 ^ 2 - 1). rewrite land_ones_mod by lia. change (2 ^ 2) with 4.
  pose proof (Z.mod_pos_bound (slot + pin - 1) 4 ltac:(lia)). generalize dependent ((slot + pin - 1) mod 4). intros z Hz.
  assert (z = 0 \/ z = 1 \/ z = 2 \/ z = 3) as [-> | [-> | [-> | ->]]] by lia; by vm_compute.
Qed.

Lemma denotes_q35_routing prefix :
  prefix = "LNK"%string \/ prefix = "GSI"%string -> denotes arity (routing_table prefix) (q35_routing prefix).
Proof.
  intros Hpre. apply denotes_package; [rewrite routing_length; lia|]. apply denotes_routing. intros d q Hd Hq.
  assert (0 <= pirq_of d q < 8) as Hr.
  { unfold pirq_of. pose proof (Z.mod_pos_bound (d + q) 4 ltac:(lia)). repeat case_match; lia. }
  assert (pirq_of d q ∈ seqZ 0 8) as Hin by (apply elem_of_seqZ; lia). revert Hin. generalize (pirq_of d q). clear Hr.
  intros z Hz. revert z Hz. rewrite <- Forall_forall.
  change (seqZ 0 8) with [0; 1; 2; 3; 4; 5; 6; 7]. destruct Hpre as [-> | ->]; repeat (apply Forall_cons; split; [by vm_compute|]); by apply Forall_nil.
Qed.

Lemma memory_window_byte last_bus : Forall (Forall byte) (memory_window p last_bus).
Proof.
  unfold memory_window. repeat (apply Forall_cons_2; [first [by apply res_word_byte|apply res_memory_byte|by apply res_io_byte]|]). by apply Forall_nil_2.
Qed.

Lemma denotes_i440fx pm_base :
  machine_q35 p = false -> 0 <= pm_base < 65536 -> exists l, build_i440fx_dsdt_body p pm_base = flat l /\ Forall2 (denotes arity) l (i440fx_dsdt p pm_base).
Proof.
  intros Hq Hpm. eexists. split; [reflexivity|]. pose proof denotes_processors. pose proof denotes_sleep.
  pose proof (denotes_isa_devices p (proj1 (desc_uarts p Hp)) (proj1 (desc_parallel p Hp))).
  pose proof (memory_window_byte 0xFF).
  assert (Forall (Forall byte) (i440fx_motherboard p pm_base)).
  { destruct (desc_pm p Hp) as (Hl & Hg & Ho). destruct (Ho Hq) as [Ho1 Ho2]. unfold i440fx_motherboard, gpe0_block.
    assert ((0 <=? gpe0_offset (pm p)) = false) as -> by lia. cbn [w_base w_size].
    repeat (apply Forall_cons_2; [by apply res_io_byte|]). by apply Forall_nil_2. }
  unfold i440fx_dsdt. apply Forall2_app; [|done]. constructor; [|constructor].
  apply denotes_scope; [vm_compute; reflexivity|]. apply Forall2_app; [|apply Forall2_app; [|done]].
  - unfold device, decl, i440fx_fields, motherboard_term.
    pose proof denotes_iqst. pose proof denotes_iqcr. pose proof denotes_piix_routing.
    assert (uint32 (if qemu_compatible p then 0 else 1)) by (unfold uint32; destruct (qemu_compatible p); lia).
    denote. apply Forall2_app; [denote|]. apply Forall2_app; [done|]. denote.
  - unfold i440fx_links, LINKS. cbn [imap compose]. constructor; [|constructor; [|constructor; [|constructor; [|constructor]]]];
    apply denotes_link; denote.
Qed.

Lemma denotes_q35 w pm_base :
  0 <= pm_base < 65536 -> exists l, build_q35_dsdt_body p w pm_base = flat l /\ Forall2 (denotes arity) l (q35_dsdt p w pm_base).
Proof.
  intros Hpm. eexists. split; [reflexivity|]. pose proof denotes_processors. pose proof denotes_sleep.
  pose proof (denotes_isa_devices p (proj1 (desc_uarts p Hp)) (proj1 (desc_parallel p Hp))).
  pose proof (memory_window_byte (w_size w / 0x100000 - 1)).
  assert (Forall (Forall byte) (q35_motherboard p pm_base)).
  { destruct (desc_pm p Hp) as (Hl & _ & _). unfold q35_motherboard.
    repeat (apply Forall_cons_2; [first [by apply res_io_byte|apply res_memory_byte]|]). by apply Forall_nil_2. }
  assert (Forall (Forall byte) [res_memory32_fixed (w_base w) (w_size w)]) by (apply Forall_singleton, res_memory_byte).
  unfold q35_dsdt. apply Forall2_app; [|done]. unfold decl, method, var. constructor; [denote|constructor; [denote|constructor; [|constructor]]].
  apply denotes_scope; [vm_compute; reflexivity|]. apply Forall2_app; [|apply Forall2_app; [|apply Forall2_app; [|apply Forall2_app; [|done]]]].
  - unfold device, q35_fields, motherboard_term, hpet_term, device, decl.
    pose proof denotes_iqst. pose proof denotes_iqcr. pose proof denotes_osc.
    pose proof (denotes_q35_routing "LNK" (or_introl eq_refl)). pose proof (denotes_q35_routing "GSI" (or_intror eq_refl)).
    denote. apply Forall2_app; [denote|]. apply Forall2_app; [done|]. apply Forall2_app; [destruct (hpet p); denote|]. denote.
  - unfold q35_links, PIRQS. cbn [imap compose].
    repeat match goal with |- Forall2 _ (_ :: _) _ => constructor; [apply denotes_link; denote|] end. constructor.
  - unfold gsi_links, PIRQS. cbn [imap compose]. unfold gsi_term, device, decl, method. denote.
  - unfold drac_term, device, decl. denote.
Qed.
(** *** Sizes *)

Lemma sum_of_app l l' : sum_of (l ++ l') = sum_of l + sum_of l'.
Proof. induction l as [|x l IH]; cbn; [done|]. fold (sum_of (l ++ l')) (sum_of l). lia. Qed.

Lemma sum_of_bound (f : term -> Z) K l : 0 <= K -> Forall (fun t => f t <= K) l -> sum_of (map f l) <= K * Z.of_nat (length l).
Proof. intros HK. induction 1 as [|x l Hx _ IH]; cbn [map sum_of foldr length]; [lia|]. fold (sum_of (map f l)). lia. Qed.

Lemma weight_isa : sum_of (map weight (isa_terms p)) <= 3000.
Proof.
  unfold isa_terms. rewrite !map_app, !sum_of_app. destruct (desc_uarts p Hp) as [Hu Hlu], (desc_parallel p Hp) as [Hq Hlq].
  assert (sum_of (map weight fixed_isa_terms) <= 600) by (vm_compute; discriminate).
  assert (sum_of (map weight chipset_isa_terms) <= 600) by (vm_compute; discriminate).
  assert (sum_of (map weight (if qemu_compatible p then [] else chipset_isa_terms)) <= 600) by (destruct (qemu_compatible p); [cbn; lia|done]).
  assert (forall k (u : isa_port), 0 <= k < 9 -> weight (isa_term ("COM" ++ digit (k + 1)) "PNP0501" [res_io (port u) 8; res_irq_noflags [irq u]] (Some (k + 1))) <= 200 /\
    weight (isa_term (if k =? 0 then "LPT" else "LPT" ++ digit (k + 1)) "PNP0400" [res_io (port u) 8; res_irq_noflags [irq u]] (Some (k + 1))) <= 200) as Hw.
  { intros k u Hk. assert (k ∈ seqZ 0 9) as Hin by (apply elem_of_seqZ; lia). revert k Hin Hk. rewrite <- Forall_forall.
    change (seqZ 0 9) with [0; 1; 2; 3; 4; 5; 6; 7; 8]. repeat (apply Forall_cons; split; [intros _; split; vm_compute; discriminate|]). by apply Forall_nil. }
  assert (sum_of (map weight (map com_term (uarts p))) <= 200 * Z.of_nat (length (map com_term (uarts p)))).
  { apply sum_of_bound; [lia|]. apply Forall_map. eapply Forall_impl; [exact Hu|]. cbn beta. intros u [Hi _]. exact (proj1 (Hw (index u) u Hi)). }
  assert (sum_of (map weight (map lpt_term (parallel_ports p))) <= 200 * Z.of_nat (length (map lpt_term (parallel_ports p)))).
  { apply sum_of_bound; [lia|]. apply Forall_map. eapply Forall_impl; [exact Hq|]. cbn beta. intros u [Hi _]. exact (proj2 (Hw (index u) u Hi)). }
  rewrite !length_map in *. lia.
Qed.

Lemma weight_processors : sum_of (map weight (processor_terms p)) <= 240.
Proof.
  pose proof (desc_cores p Hp). transitivity (30 * Z.of_nat (length (processor_terms p)));
    [|unfold processor_terms; rewrite length_imap; lia]. apply sum_of_bound; [lia|].
  apply Forall_forall. intros t (i & Ht)%list_elem_of_lookup_1. unfold processor_terms in Ht. rewrite list_lookup_imap in Ht.
  destruct (apic_ids p !! i) as [x|] eqn:E; [|done]. apply lookup_lt_Some in E. cbn in Ht. injection Ht as <-.
  assert (i ∈ seq 0 8) as Hin by (apply elem_of_seq; lia). clear E. revert i Hin. rewrite <- Forall_forall. cbn [seq].
  repeat (apply Forall_cons; split; [vm_compute; discriminate|]). by apply Forall_nil.
Qed.

Lemma weight_sleep : sum_of (map weight (sleep_terms p)) <= 120.
Proof.
  destruct (desc_sleep p Hp) as [Hs Hl]. transitivity (40 * Z.of_nat (length (sleep_terms p))).
  - apply sum_of_bound; [lia|]. apply Forall_map, Forall_forall. intros s [Hin _]%list_elem_of_In%filter_In.
    rewrite Forall_forall in Hs. destruct (Hs s) as [H1 _]; [by apply list_elem_of_In|]. revert H1. destruct s as [k typ sup]. cbn [Acpi.ss_state]. intros H1.
    assert (k ∈ seqZ 0 10) as Hk by (apply elem_of_seqZ; lia). clear H1 Hin. revert k Hk. rewrite <- Forall_forall.
    change (seqZ 0 10) with [0; 1; 2; 3; 4; 5; 6; 7; 8; 9]. repeat (apply Forall_cons; split; [vm_compute; discriminate|]). by apply Forall_nil.
  - unfold sleep_terms. rewrite length_map. pose proof (List.filter_length_le Acpi.ss_supported (sleep_states p)). lia.
Qed.

(** Evaluates the sizes of names, buffers and closed lists. *)
Ltac weigh :=
  repeat match goal with
  | |- context [name_weight ?n] => let v := eval vm_compute in (name_weight n) in change (name_weight n) with v
  | |- context [Z.of_nat (length (concat ?l ++ ?r))] =>
      let v := eval vm_compute in (Z.of_nat (length (concat l ++ r))) in change (Z.of_nat (length (concat l ++ r))) with v
  end.

Lemma weight_i440fx pm_base : sum_of (map weight (i440fx_dsdt p pm_base)) <= 100000.
Proof.
  pose proof weight_isa. pose proof weight_processors. pose proof weight_sleep.
  unfold i440fx_dsdt. rewrite map_app, sum_of_app. cbn [map sum_of foldr weight]. unfold device, decl, motherboard_term, device, decl.
  rewrite !map_app, !sum_of_app. cbn [map sum_of foldr weight]. rewrite !map_app, !sum_of_app. cbn [map sum_of foldr weight].
  unfold resources.
  assert (sum_of (map weight i440fx_links) <= 2000) by (vm_compute; discriminate).
  assert (weight i440fx_fields <= 200) by (vm_compute; discriminate). assert (weight iqst_term <= 200) by (vm_compute; discriminate).
  assert (weight iqcr_term <= 200) by (vm_compute; discriminate).
  assert (sum_of (map weight (routing_terms (fun slot pin => nth_name LINKS (piix_link slot pin)))) <= 10000) by (vm_compute; discriminate).
  cbn [eisa weight] in *. weigh. lia.
Qed.

Lemma weight_q35 w pm_base : sum_of (map weight (q35_dsdt p w pm_base)) <= 100000.
Proof.
  pose proof weight_isa. pose proof weight_processors. pose proof weight_sleep.
  unfold q35_dsdt. rewrite map_app, sum_of_app. cbn [map sum_of foldr weight]. unfold device, decl, motherboard_term, device, decl.
  rewrite !map_app, !sum_of_app. cbn [map sum_of foldr weight]. rewrite !map_app, !sum_of_app. cbn [map sum_of foldr weight].
  unfold resources.
  assert (sum_of (map weight q35_links) <= 4000) by (vm_compute; discriminate).
  assert (sum_of (map weight gsi_links) <= 4000) by (vm_compute; discriminate).
  assert (weight q35_fields <= 200) by (vm_compute; discriminate). assert (weight iqst_term <= 200) by (vm_compute; discriminate).
  assert (weight iqcr_term <= 200) by (vm_compute; discriminate). assert (weight osc_term <= 1000) by (vm_compute; discriminate).
  assert (weight (drac_term w) <= 200) by (vm_compute; discriminate).
  assert (sum_of (map weight (if hpet p then [hpet_term] else [])) <= 200) by (destruct (hpet p); vm_compute; discriminate).
  assert (weight (q35_routing "LNK") <= 10000) by (vm_compute; discriminate).
  assert (weight (q35_routing "GSI") <= 10000) by (vm_compute; discriminate).
  unfold eisa, method, var in *. cbn [map sum_of foldr weight] in *. weigh. lia.
Qed.
End described.

(** ** The definition block *)

Lemma flat_block l ts :
  Forall2 (denotes arity) l ts -> sum_of (map weight ts) <= 100000 ->
  exists bs, flat l = Some bs /\ Forall byte bs /\ Z.of_nat (length bs) <= 100000 /\ parse_dsdt bs = Some ts.
Proof.
  intros H Hw. destruct (denotes_flat arity l ts H) as [[_ Hy] Hr]. unfold PKG_MAX in *.
  destruct Hy as (bs & E & Hb & Hd & Hl & _); [lia|]. exists bs. split; [done|]. split; [done|]. split; [lia|].
  apply Hr; [lia|done|done|done].
Qed.

Lemma dsdt_block s size p pm_base :
  create_platform s size = inr p -> 0 <= pm_base < 65536 ->
  exists bs, build_dsdt_body p pm_base = Some bs /\ Forall byte bs /\ Z.of_nat (length bs) <= 100000 /\
    parse_dsdt bs = Some (dsdt p pm_base).
Proof.
  intros Hp%created_describable Hb. unfold build_dsdt_body, dsdt. destruct (machine_q35 p) eqn:Hq.
  - destruct (desc_ecam p Hp Hq) as [w ->]. cbn [mbind option_bind].
    destruct (denotes_q35 p Hp w pm_base Hb) as (l & -> & H). by apply flat_block, weight_q35.
  - destruct (denotes_i440fx p Hp pm_base Hq Hb) as (l & -> & H). by apply flat_block, weight_i440fx.
Qed.

(** C10: for every platform that [create_platform] returns and every 16-bit base of
    the PM block, [build_dsdt_body] does not throw, its elements are bytes, and the
    parser of Aml.v (for the part of AML the tables use, with the encodings of the
    ACPI specification) reads them to their end as the namespace [dsdt]: every
    PkgLength, name, integer, package count and method argument is where it has to
    be. *)
Theorem dsdt_parses s size p pm_base :
  create_platform s size = inr p -> 0 <= pm_base < 65536 ->
  exists bs, build_dsdt_body p pm_base = Some bs /\ Forall byte bs /\ parse_dsdt bs = Some (dsdt p pm_base).
Proof. intros Hp Hb. destruct (dsdt_block s size p pm_base Hp Hb) as (bs & E & Hy & _ & Hd). by exists bs. Qed.

(** A Q35 with its event timer. *)
Definition q35_settings : settings :=
  mk_settings (fun f => if String.eqb f "machine_type" then Text "q35" else if String.eqb f "hpet" then Boolean true else Undefined) [].
Definition default_settings : settings := mk_settings (fun _ => Undefined) [].
Definition platform_of (s : settings) : t :=
  match create_platform s 0x8000000 with inr p => p | inl _ => mk 0 0 false [] 0 0 [] [] false false false None (mk_pm 0 0 0 0 0 0) [] [] 0 [] false false end.

Lemma platform_of_ok : create_platform q35_settings 0x8000000 = inr (platform_of q35_settings) /\
  create_platform default_settings 0x8000000 = inr (platform_of default_settings).
Proof. split; vm_compute; reflexivity. Qed.

Lemma dsdt_parses_witness :
  exists bs, build_dsdt_body (platform_of q35_settings) 0x600 = Some bs /\ Forall byte bs /\
    parse_dsdt bs = Some (dsdt (platform_of q35_settings) 0x600).
Proof. apply (dsdt_parses q35_settings 0x8000000); [apply platform_of_ok|lia]. Defined.

(** ** Interrupt routing as an operating system reads it *)

Definition body_of (n : name) (t : term) : option (list term) :=
  match t with
  | Scope m ts | Device m ts | Method m _ _ ts => if bool_decide (m = n) then Some ts else None
  | _ => None
  end.
Definition value_of (n : name) (t : term) : option term :=
  match t with Name m v => if bool_decide (m = n) then Some v else None | _ => None end.

(** The first term of a list for which [f] has an answer. *)
Fixpoint first_of {A} (f : term -> option A) (ts : list term) : option A :=
  match ts with [] => None | t :: ts => match f t with Some a => Some a | None => first_of f ts end end.

(** The link of a routing entry for a device and a pin. *)
Definition prt_link (device pin : Z) (t : term) : option name :=
  match t with
  | Package [Int a; Int q; Ref l []; Int 0] => if (a =? device * 65536 + 0xFFFF) && (q =? pin) then Some l else None
  | _ => None
  end.

(** The bit offset of a field. *)
Fixpoint field_offset (f : list Z) (l : list (option (list Z) * Z)) (bits : Z) : option Z :=
  match l with
  | [] => None
  | (n, w) :: l => if bool_decide (n = Some f) then Some bits else field_offset f l (bits + w)
  end.

(** The field a link's _STA looks at, if _SRS assigns the same one. *)
Definition link_field (link : list term) : option (list Z) :=
  sta ← first_of (body_of (name_of "_STA")) link;
  srs ← first_of (body_of (name_of "_SRS")) link;
  match sta, srs with
  | [Return (Ref _ [Ref f []])], [_; Store _ (Ref g [])] =>
      if bool_decide (f = g) then match segs f with [seg] => Some seg | _ => None end else None
  | _, _ => None
  end.

(** The PCI function and the register of its configuration space behind a link,
    from the devices in \_SB and in the host bridge. *)
Definition link_register (sb pci0 link : list term) : option (Z * Z) :=
  seg ← link_field link;
  bits ← first_of (fun t =>
    match t with Field n _ l => if bool_decide (n = name_of "PCI0.ISA.P40C") then field_offset seg l 0 else None | _ => None end) sb;
  isa ← first_of (body_of (name_of "ISA")) pci0;
  base ← first_of (fun t => match t with OpRegion n 2 o _ => if bool_decide (n = name_of "P40C") then Some o else None | _ => None end) isa;
  adr ← first_of (value_of (name_of "_ADR")) isa;
  match adr with Int a => Some ((a / 65536) * 8 + a mod 65536, base + bits / 8) | _ => None end.

(** Where the guest finds the route of a pin of a device on bus 0. *)
Definition os_route (ts : list term) (device pin : Z) : option (Z * Z) :=
  sb ← first_of (body_of (name_of "\_SB")) ts;
  pci0 ← first_of (body_of (name_of "PCI0")) sb;
  prt ← first_of (value_of (name_of "_PRT")) pci0;
  entries ← match prt with Package l => Some l | _ => None end;
  l ← first_of (prt_link device pin) entries;
  link ← first_of (body_of l) sb;
  link_register sb pci0 link.

Lemma first_of_unique {A} (f : term -> option A) ts a :
  (forall t b, t ∈ ts -> f t = Some b -> b = a) -> (exists t, t ∈ ts /\ f t = Some a) -> first_of f ts = Some a.
Proof.
  induction ts as [|t ts IH]; intros Hu (t' & Ht & E); [by apply not_elem_of_nil in Ht|]. cbn. destruct (f t) as [b|] eqn:Ef.
  - f_equal. eapply Hu; [by left|done].
  - apply IH; [intros; eapply Hu; [by right|done]|]. apply elem_of_cons in Ht as [-> |Ht]; [congruence|by exists t'].
Qed.

Lemma routing_address d : 0 <= d < 32 -> u32 ((d .<< 16) .| 0xFFFF) = d * 65536 + 0xFFFF.
Proof.
  intros H. rewrite Z.lor_comm, (lor_shiftl_add 0xFFFF d 16) by lia. rewrite u32_id by (unfold uint32; lia). lia.
Qed.

(** The routing table has one answer per device and pin. *)
Lemma prt_lookup link d pin :
  0 <= d < 32 -> 0 <= pin < 4 -> first_of (prt_link d pin) (routing_terms link) = Some (name_of (link d pin)).
Proof.
  intros Hd Hp. apply first_of_unique.
  - unfold routing_terms. intros t b Ht Hb. apply list_elem_of_bind in Ht as (d' & Ht & Hd'%elem_of_seqZ).
    apply list_elem_of_In, in_map_iff in Ht as (p' & <- & Hp'%list_elem_of_In%elem_of_seqZ). cbn [prt_link var] in Hb.
    rewrite routing_address in Hb by lia. destruct (_ && _) eqn:E; [|done]. apply andb_true_iff in E as [?%Z.eqb_eq ?%Z.eqb_eq].
    assert (d' = d) as -> by lia. assert (p' = pin) as -> by lia. congruence.
  - exists (Package [Int (u32 ((d .<< 16) .| 0xFFFF)); Int pin; var (link d pin); Int 0]). split.
    + unfold routing_terms. apply list_elem_of_bind. exists d. split; [|apply elem_of_seqZ; lia].
      apply list_elem_of_In, in_map_iff. exists pin. split; [done|]. apply list_elem_of_In, elem_of_seqZ. lia.
    + cbn [prt_link var]. rewrite routing_address by done. by rewrite !Z.eqb_refl.
Qed.

Lemma os_route_i440fx p pm_base d pin :
  0 <= d < 32 -> 0 <= pin < 4 -> os_route (i440fx_dsdt p pm_base) d pin = Some (8, 0x60 + piix_link d pin).
Proof.
  intros Hd Hp. set (sb := match i440fx_dsdt p pm_base with Scope _ ts :: _ => ts | _ => [] end).
  set (pci0 := match sb with Device _ ts :: _ => ts | _ => [] end).
  transitivity (l ← first_of (prt_link d pin) (routing_terms (fun slot pin => nth_name LINKS (piix_link slot pin)));
    link ← first_of (body_of l) sb; link_register sb pci0 link); [reflexivity|].
  rewrite prt_lookup by done. cbn [mbind option_bind].
  assert (0 <= piix_link d pin < 4) as Hk.
  { unfold piix_link. change 3 with (2 ^ 2 - 1). rewrite land_ones_mod by lia. apply Z.mod_pos_bound. lia. }
  generalize dependent (piix_link d pin). intros k Hk.
  assert (k = 0 \/ k = 1 \/ k = 2 \/ k = 3) as [-> | [-> | [-> | ->]]] by lia; reflexivity.
Qed.

Lemma piix_swizzle spaces d fn pin :
  0 <= d < 32 -> 0 <= fn < 8 -> Pci.piix_pirq_line spaces (d * 8 + fn) pin = Pci.get8 (default [] (spaces !! 8)) (0x60 + piix_link d pin).
Proof.
  intros Hd Hf. unfold Pci.piix_pirq_line, piix_link. do 2 f_equal. rewrite Z.shiftr_div_pow2 by lia.
  assert ((d * 8 + fn) / 2 ^ 3 = d) as -> by (change (2 ^ 3) with 8; Z.div_mod_to_equations; lia).
  change 3 with (2 ^ 2 - 1). rewrite land_ff, !land_ones_mod by lia. change (2 ^ 2) with 4.
  Z.div_mod_to_equations. lia.
Qed.

(** C22: on the i440FX, the interrupt routing the DSDT describes is the one the PCI
    code has.  An operating system that follows _PRT to the link device, the link's
    methods to their field, and the field through its operation region to a
    register of configuration space, arrives at the register from which
    [piix_pirq_line] takes the interrupt of that pin, for every function of every
    device on bus 0, each of the four pins and every 16-bit base of the PM block,
    whatever the registers hold. *)
Theorem routing_agrees s size p pm_base spaces d fn pin :
  create_platform s size = inr p -> machine_q35 p = false -> 0 <= pm_base < 65536 ->
  0 <= d < 32 -> 0 <= fn < 8 -> 0 <= pin < 4 ->
  exists bs ts id reg, build_dsdt_body p pm_base = Some bs /\ parse_dsdt bs = Some ts /\ os_route ts d pin = Some (id, reg) /\
    Pci.piix_pirq_line spaces (d * 8 + fn) pin = Pci.get8 (default [] (spaces !! id)) reg.
Proof.
  intros Hp Hq Hb Hd Hf Hpin. destruct (dsdt_block s size p pm_base Hp Hb) as (bs & E & _ & _ & Hd').
  unfold dsdt in Hd'. rewrite Hq in Hd'. eexists bs, _, 8, _. split; [done|]. split; [done|].
  split; [by apply os_route_i440fx|by apply piix_swizzle].
Qed.

(** Configuration space of the ISA bridge with IRQs 9, 10, 11 and 5 in its four registers. *)
Definition bridge_spaces : gmap Z Pci.space := {[8 := replicate 0x60 0 ++ [9; 10; 11; 5] ++ replicate 0x9C 0]}.

(** INTB# of device 6: the third register, with IRQ 11. *)
Lemma routing_agrees_witness :
  exists bs ts id reg, build_dsdt_body (platform_of default_settings) 0x600 = Some bs /\ parse_dsdt bs = Some ts /\
    os_route ts 6 1 = Some (id, reg) /\ Pci.get8 (default [] (bridge_spaces !! id)) reg = 11.
Proof.
  destruct (routing_agrees default_settings 0x8000000 (platform_of default_settings) 0x600 bridge_spaces 6 0 1)
    as (bs & ts & id & reg & H1 & H2 & H3 & H4); [apply platform_of_ok|reflexivity|lia..|].
  exists bs, ts, id, reg. rewrite <- H4. split; [exact H1|]. split; [exact H2|]. split; [exact H3|vm_compute; reflexivity].
Defined.

(** ** The ports the DSDT claims *)

(** The resources (_CRS) of all devices below a list of terms. *)
Fixpoint crs_of (t : term) : list (list Z) :=
  match t with
  | Name n (Buffer l) => if bool_decide (n = name_of "_CRS") then [l] else []
  | Scope _ ts | Device _ ts => ts ≫= crs_of
  | _ => []
  end.

(** The fixed I/O ports of a resource template: small descriptors of type 8,
    other descriptors skipped by their lengths, up to the end tag. *)
Fixpoint io_ports (fuel : nat) (l : list Z) : option (list (Z * Z)) :=
  match fuel, l with
  | S fuel, tag :: r =>
      if tag =? 0x79 then Some []
      else if tag <? 0x80 then
        rest ← io_ports fuel (drop (Z.to_nat (tag .& 7)) r);
        match r with
        | _ :: lo :: hi :: _ :: _ :: _ :: len :: _ => Some (if (tag .>> 3) =? 8 then (lo + 256 * hi, len) :: rest else rest)
        | _ => Some rest
        end
      else match r with
        | lo :: hi :: r => io_ports fuel (drop (Z.to_nat (lo + 256 * hi)) r)
        | _ => None
        end
  | _, _ => None
  end.

Definition claimed_ports (ts : list term) : option (list (Z * Z)) :=
  foldr (fun l acc => ports ← io_ports (length l) l; rest ← acc; Some (ports ++ rest)) (Some []) (ts ≫= crs_of).

Definition owned (ranges : list range) (r : Z * Z) : Prop :=
  exists o, o ∈ ranges /\ start o <= r.1 /\ r.1 + r.2 <= start o + r_length o.

Section ports.
Variable (R : list range).

(** Every port of a template has an owner. *)
Definition good (l : list Z) : Prop := exists ports, io_ports (length l) l = Some ports /\ Forall (owned R) ports.
Definition tree_good (t : term) : Prop := Forall good (crs_of t).

Lemma tree_good_device n ts : Forall tree_good ts -> tree_good (Device n ts).
Proof. intros H. by apply Forall_bind. Qed.
Lemma tree_good_scope n ts : Forall tree_good ts -> tree_good (Scope n ts).
Proof. intros H. by apply Forall_bind. Qed.

Lemma claimed_good ts : Forall tree_good ts -> exists ports, claimed_ports ts = Some ports /\ Forall (owned R) ports.
Proof.
  intros H. unfold claimed_ports. assert (Forall good (ts ≫= crs_of)) as Hg by (by apply Forall_bind). clear H.
  induction Hg as [|l ls (ports & E & Hp) _ (rest & Er & Hr)]; cbn [foldr]; [by exists []|].
  rewrite E. cbn [mbind option_bind]. rewrite Er. cbn [mbind option_bind]. exists (ports ++ rest). split; [done|]. by apply Forall_app.
Qed.

Definition owned_fixed (r : Z * Z) : bool :=
  existsb (fun o => (start o <=? r.1) && (r.1 + r.2 <=? start o + r_length o)) FIXED_RANGES.
Definition fixed_good (t : term) : bool :=
  forallb (fun l => match io_ports (length l) l with Some ports => forallb owned_fixed ports | None => false end) (crs_of t).

Hypothesis HR : forall o, o ∈ FIXED_RANGES -> o ∈ R.

Lemma owned_fixed_ok r : owned_fixed r = true -> owned R r.
Proof.
  intros (o & Ho & [?%Z.leb_le ?%Z.leb_le]%andb_true_iff)%existsb_exists. exists o. split; [by apply HR, list_elem_of_In|lia].
Qed.

(** The templates with fixed contents, by evaluation. *)
Lemma fixed_tree_good t : fixed_good t = true -> tree_good t.
Proof.
  unfold fixed_good. rewrite forallb_forall. intros H. apply Forall_forall. intros l Hl%list_elem_of_In%H.
  destruct (io_ports (length l) l) as [ports|] eqn:E; [|done]. exists ports. split; [done|]. rewrite forallb_forall in Hl.
  apply Forall_forall. intros r Hr%list_elem_of_In. by apply owned_fixed_ok, Hl.
Qed.

Lemma no_crs_good t : crs_of t = [] -> tree_good t.
Proof. intros E. unfold tree_good. rewrite E. constructor. Qed.

End ports.

(** Goes through a list of terms and disposes of those without resources. *)
Ltac each_term :=
  cbn [app];
  repeat lazymatch goal with
  | |- Forall (tree_good _) (_ :: _) => apply Forall_cons_2; [try by apply no_crs_good|]
  | |- Forall (tree_good _) [] => apply Forall_nil_2
  end.

Lemma port_bytes base : 0 <= base -> (base .& 0xFF) + 256 * (base .>> 8) = base.
Proof. intros. rewrite land_ff, Z.shiftr_div_pow2 by lia. change (2 ^ 8) with 256. Z.div_mod_to_equations. lia. Qed.

Lemma owned_range R o base len : o ∈ R -> start o = base -> r_length o = len -> owned R (base, len).
Proof. intros Ho <- <-. exists o. split; [done|]. cbn. lia. Qed.

Lemma isa_port_good R name hid u uid o :
  0 <= port u -> o ∈ R -> start o = port u -> r_length o = 8 ->
  tree_good R (isa_term name hid [res_io (port u) 8; res_irq_noflags [irq u]] (Some uid)).
Proof.
  intros Hp Ho Hs Hl. apply tree_good_device. each_term.
  apply Forall_singleton. eexists. split; [reflexivity|]. apply Forall_singleton. cbv beta. rewrite port_bytes by done. by eapply owned_range.
Qed.

Section claimed.
Variables (p : t) (pm_base : Z).
Hypothesis Hp : describable p.
Hypothesis Hb : 0 <= pm_base < 65536.
Let R := platform_io_ranges p (Some pm_base).

Lemma fixed_in : forall o, o ∈ FIXED_RANGES -> o ∈ R.
Proof. intros o Ho. apply elem_of_app. by left. Qed.

Lemma pm_in : mk_range "acpi-pm" pm_base (pm_length (pm p)) ∈ R.
Proof. unfold R, platform_io_ranges. rewrite !elem_of_app. do 4 right. by apply list_elem_of_singleton. Qed.

Lemma isa_good : Forall (tree_good R) (isa_terms p).
Proof.
  destruct (desc_uarts p Hp) as [Hu _], (desc_parallel p Hp) as [Hq _]. rewrite Forall_forall in Hu, Hq.
  unfold isa_terms. rewrite !Forall_app. repeat split.
  - apply Forall_forall. intros t Ht. apply (fixed_tree_good R fixed_in). revert t Ht. rewrite <- Forall_forall.
    repeat (apply Forall_cons_2; [vm_compute; reflexivity|]). by apply Forall_nil_2.
  - destruct (qemu_compatible p); [constructor|]. apply Forall_forall. intros t Ht. apply (fixed_tree_good R fixed_in). revert t Ht. rewrite <- Forall_forall.
    repeat (apply Forall_cons_2; [vm_compute; reflexivity|]). by apply Forall_nil_2.
  - apply Forall_map, Forall_forall. intros u Hin. destruct (Hu u Hin) as (_ & Hpt & _).
    apply (isa_port_good R _ _ _ _ (mk_range ("uart" ++ digit (index u)) (port u) 8)); [lia| |done..].
    unfold R, platform_io_ranges. rewrite !elem_of_app. do 2 right. left. apply list_elem_of_In, in_map_iff. exists u.
    split; [done|by apply list_elem_of_In].
  - apply Forall_map, Forall_forall. intros u Hin. destruct (Hq u Hin) as (_ & Hpt & _).
    apply (isa_port_good R _ _ _ _ (mk_range ("parallel" ++ digit (index u)) (port u) 8)); [lia| |done..].
    unfold R, platform_io_ranges. rewrite !elem_of_app. do 3 right. left. apply list_elem_of_In, in_map_iff. exists u.
    split; [done|by apply list_elem_of_In].
Qed.

Lemma window_good last_bus : tree_good R (decl "_CRS" (resources (memory_window p last_bus))).
Proof.
  apply Forall_singleton. eexists. split; [reflexivity|]. apply Forall_singleton. by apply (owned_fixed_ok R fixed_in).
Qed.

Lemma pm_owned : owned R ((pm_base .& 0xFF) + 256 * (pm_base .>> 8), pm_length (pm p)).
Proof. rewrite port_bytes by lia. by apply (owned_range R _ _ _ pm_in). Qed.

Lemma i440fx_motherboard_good :
  machine_q35 p = false -> tree_good R (motherboard_term (i440fx_motherboard p pm_base)).
Proof.
  intros Hq. destruct (desc_pm p Hp) as (_ & _ & Ho). destruct (Ho Hq) as [Ho1 Ho2].
  apply tree_good_device. each_term.
  apply Forall_singleton. unfold i440fx_motherboard, gpe0_block. assert ((0 <=? gpe0_offset (pm p)) = false) as -> by lia.
  eexists. split; [reflexivity|]. cbv beta. cbn [w_base w_size].
  apply Forall_cons_2; [apply pm_owned|]. apply Forall_cons_2; [|by repeat (apply Forall_cons_2; [by apply (owned_fixed_ok R fixed_in)|])].
  rewrite port_bytes by lia. apply (owned_range R (mk_range "gpe0" (gpe0_base (pm p)) (gpe0_length (pm p)))); [|done..].
  unfold R, platform_io_ranges. rewrite !elem_of_app. right. left. assert ((gpe0_offset (pm p) <? 0) = true) as -> by lia.
  by apply list_elem_of_singleton.
Qed.

Lemma q35_motherboard_good : tree_good R (motherboard_term (q35_motherboard p pm_base)).
Proof.
  apply tree_good_device. each_term.
  apply Forall_singleton. eexists. split; [reflexivity|]. cbv beta.
  apply Forall_cons_2; [apply pm_owned|]. by repeat (apply Forall_cons_2; [by apply (owned_fixed_ok R fixed_in)|]).
Qed.

Lemma imap_good {A} (f : nat -> A -> term) l : (forall i x, tree_good R (f i x)) -> Forall (tree_good R) (imap f l).
Proof. intros H. apply Forall_forall. intros t (i & Hi)%list_elem_of_lookup_1. rewrite list_lookup_imap in Hi. destruct (l !! i); [|done]. cbn in Hi. by simplify_eq. Qed.

Lemma sleep_good : Forall (tree_good R) (sleep_terms p).
Proof. apply Forall_map, Forall_forall. intros. by apply no_crs_good. Qed.
Lemma processors_good : Forall (tree_good R) (processor_terms p).
Proof. apply imap_good. intros. by apply no_crs_good. Qed.

Lemma i440fx_good : machine_q35 p = false -> Forall (tree_good R) (i440fx_dsdt p pm_base).
Proof.
  intros Hq. apply Forall_app. split; [apply Forall_singleton, tree_good_scope|apply sleep_good].
  rewrite !Forall_app. repeat split; [|apply imap_good; intros; by apply no_crs_good|apply processors_good].
  each_term.
  apply tree_good_device. each_term; [apply window_good|].
  apply tree_good_device. each_term. rewrite Forall_app. split; [apply isa_good|]. by apply Forall_singleton, i440fx_motherboard_good.
Qed.

Lemma q35_good w : Forall (tree_good R) (q35_dsdt p w pm_base).
Proof.
  apply Forall_app. split; [|apply sleep_good].
  each_term. apply tree_good_scope. each_term.
  - apply tree_good_device. each_term; [apply window_good|]. apply tree_good_device. each_term. rewrite !Forall_app.
    split; [apply isa_good|]. split; [|apply Forall_singleton, q35_motherboard_good].
    destruct (hpet p); [|constructor]. apply Forall_singleton, (fixed_tree_good R fixed_in). by vm_compute.
  - rewrite !Forall_app. repeat split; [apply imap_good; intros; by apply no_crs_good| |].
    + apply imap_good. intros i x. apply tree_good_device. each_term.
      apply Forall_singleton. eexists. split; [reflexivity|]. constructor.
    + each_term; [|apply processors_good]. apply tree_good_device. each_term.
      apply Forall_singleton. eexists. split; [reflexivity|]. constructor.
Qed.
End claimed.

(** C23: the ports that the DSDT hands to the operating system are ports of
    [platform_io_ranges], as the comment there demands: for every platform that
    [create_platform] returns and every 16-bit base of the PM block, every fixed
    I/O port descriptor in the current resources (_CRS) of any device of the block
    lies inside one of those ranges (with the PM block at that base).  The windows
    of the PCI host bridge are no such descriptors: they are what is left to it. *)
Theorem ports_owned s size p pm_base :
  create_platform s size = inr p -> 0 <= pm_base < 65536 ->
  exists bs ts ports, build_dsdt_body p pm_base = Some bs /\ parse_dsdt bs = Some ts /\ claimed_ports ts = Some ports /\
    Forall (owned (platform_io_ranges p (Some pm_base))) ports.
Proof.
  intros Hc Hb. destruct (dsdt_block s size p pm_base Hc Hb) as (bs & E & _ & _ & Hd). apply created_describable in Hc as Hp.
  destruct (claimed_good (platform_io_ranges p (Some pm_base)) (dsdt p pm_base)) as (ports & Ec & Hf); [|by eexists bs, _, ports].
  unfold dsdt. destruct (machine_q35 p) eqn:Hq; [|by apply i440fx_good]. destruct (desc_ecam p Hp Hq) as [w ->]. by apply q35_good.
Qed.

Lemma ports_owned_witness :
  exists bs ts ports, build_dsdt_body (platform_of q35_settings) 0x600 = Some bs /\ parse_dsdt bs = Some ts /\
    claimed_ports ts = Some ports /\ Forall (owned (platform_io_ranges (platform_of q35_settings) (Some 0x600))) ports.
Proof. apply (ports_owned q35_settings 0x8000000); [apply platform_of_ok|lia]. Defined.

End Dsdt.
